(* ===== verification/_CoqProject ===== *)
-Q . S2P
Prelude.v
JsBase.v
JsNum.v
JsRegex.v
JsReplace.v
JsUri.v
Validation.v
Enumerable.v
Strings.v
Hash.v
Dom.v
Page.v
Ajax.v
Form.v
JsFloat.v
Mouse.v
Slider.v
SliderHours.v
Droppable.v
Position.v
EffectCore.v
EffectQueue.v
Color.v
Effects.v
EffectCombos.v
EffectLife.v
EffectDrain.v
Drag.v
Tree.v
Sortable.v
Walks.v
SelectorText.v
Selector.v
SelectorSpec.v
SelectorNth.v
SelectorParse.v
SelectorPrint.v
Events.v
AutoText.v
Autocomplete.v
InPlace.v
PageLoad.v
Classes.v
Widget.v
Insertion.v
Builder.v
DragScroll.v
Morph.v
JqData.v
JqEvents.v
