(* ===== verification/Prelude.v ===== *)
(** * WebROaR admin panel: the browser-side program, modelled and verified

    WebROaR is an application server in C with a Rails admin panel.  The part
    of the repository this development covers is the JavaScript of the admin
    panel, all of it under src/src/admin_panel/public/javascripts/:
    application.js, the panel's own page scripts; and the libraries the pages
    run on, which are kept in the repository: prototype.js, effects.js,
    dragdrop.js, controls.js, builder.js, ui.core.js, ui.slider.js and, in part,
    jquery-1.3.2.js.

    ** How the code is modelled

    Statements of the code are computations [JS S A] over an explicit state
    [S], which return a value or throw and keep the state reached (below, in
    this file).  Loops over data are structural, [js_each]; loops that are not
    carry fuel, and a theorem or the comment at the definition says why the
    fuel given is enough (the length of the subject for replacements, the
    number of nodes for walks in the document, the number of rounds the
    statement asks for).  JavaScript's own values are modelled once:
    - JsBase.v: strings as lists of 16-bit code units, the string methods, and
      the values of plain data ([jsv]); JsNum.v: numbers, the doubles as
      rationals with the rounding to 53 bits written out, NaN and the
      infinities, parsing, printing and comparison; JsFloat.v: bounds of the
      rounding errors;
    - JsRegex.v: the backtracking matcher for regular expressions, with the
      language an expression denotes; JsReplace.v: global replacement;
      JsUri.v: encodeURIComponent and decodeURIComponent over UTF-8.

    ** The parts and their files

    - Validation.v (application.js: the validate functions): each form handler
      with its checks in order, on a page with the code's global variables.
      Theorems: what the handlers return, show and leave alone, and which
      forms are accepted, in terms of the fields alone.
    - Page.v (application.js: help popup, analytics form, busy indicator,
      Flash check, exception list boxes, hour slider): one Module per script.
    - Enumerable.v (prototype.js: Enumerable, Array, Number, ObjectRange):
      iterators are computations with effects and exceptions; [$break] is the
      exception [EBreak].  Theorems: the loops against their reference
      definitions, stability of sortBy, uniq, inGroupsOf.
    - Strings.v (String, Template, RegExp.escape), Hash.v (Object, Hash, query
      strings).  Theorems: round trips of JSON strings, of the HTML escapes
      and of query strings; when gsub ends; update and merge of hashes.
    - Dom.v (Element.Methods): the document is a finite map of nodes, each
      with its attributes, style, properties, parent and children; what the
      browser computes (styles, geometry) is an argument.  Theorems on class
      names, siblings, ids and the measuring of hidden elements.
    - Ajax.v (Ajax.*, PeriodicalExecuter): requests with their transports as a
      state machine driven by events; the callbacks of the page are arguments.
      Theorems: the count of active requests, same origin, the decay of the
      periodical updater.
    - Form.v (Form, Form.Element, observers): serialisation and the values of
      the controls.
    - Mouse.v (ui.core.js: $.ui.mouse): a widget is an instance of
      [MouseWidget].  The handlers on the document are a list of pairs, for a
      press whose release was missed leaves a pair behind.  For every widget
      the calls of its methods keep a protocol, the strict one (capture, start,
      drags, stop) while presses and releases alternate.  Slider.v (ui.slider.js) is such a widget; SliderHours.v proves
      the hour sliders of the graphs in bounds, for every run of mouse and key
      events and with the rounding of the numbers.
    - EffectCore.v (effects.js: Effect.ScopedQueue, Queues, Base): effects on a
      heap, queues by name, the timer; generic in the kinds of effects through
      the class [EffectOps].  [LawfulOps] states what a kind promises to the
      engine, and the engine's theorems hold for every lawful instance.
      EffectQueue.v: queues refine a plan of slots in milliseconds, and a
      queue whose effects end when they are due empties.  Color.v and Effects.v: the kinds of effects on the
      document; EffectCombos.v: the combinations with their callbacks, and the
      instance of [EffectOps] that ties the knot, with the depth to which
      parts nest as its fuel.  EffectLife.v: the life of an effect, for all
      kinds together.  EffectDrain.v: the timer drains a queue of the library's
      effects, those without parts and without hooks that add others.
    - Droppable.v (dragdrop.js: Droppables): the elements something can be
      dropped on, and the mark of the active one.  Position.v (prototype.js:
      absolutize, relativize, Position): positions with scroll offsets; an
      element made absolute and relative again has the style it had.
    - Drag.v (dragdrop.js: Draggables, Draggable): the handlers on the document
      over the registered draggables, with snapping, delays and reverting; a
      state machine of drags, the [plan], which the handlers refine while the
      page's functions are polite, that is, leave the state of dragging alone.
      What dragging needs of the effects is the class [DragEffects]; what the
      options ghosting and scroll add at the steps of a drag is the class
      [DragExtras].  DragScroll.v is the instance of these options, with the
      containers a drag scrolls and the timer that scrolls them.  Theorem: a
      draggable has at most one timer at every step, and none after a release.
    - Tree.v: insertBefore on documents that are trees.  Sortable.v
      (dragdrop.js: Sortable, SortableObserver, Element.findChildren): lists
      whose items are draggables and droppables; hovering is a callback of the
      droppables.  Theorems: where an item goes, and that the document stays a
      tree; reading back the order that was set.

    - The selector engine (prototype.js: Selector, $$, and the methods of
      elements that take expressions).  Walks.v: ancestors, descendants and
      neighbours in documents that are trees.  SelectorText.v: expressions as
      tokens, read by the patterns of the code, and their XPath texts.
      Selector.v: the handlers, which mark and filter lists of nodes, the
      pseudo-classes, the cache of compiled expressions and the three modes of
      search; what the browser answers is the class [SelectorHost], with the
      functions that a table of the code finds under a name every object
      inherits, and [:not] takes its fuel from the length of the expression.  SelectorSpec.v: a
      reference that matches from right to left, and that a search gives the
      same elements; the cache's types.  SelectorNth.v: what nth counts.
      SelectorParse.v: reading ends.  SelectorPrint.v: expressions printed,
      and a selection by the printed text.
    - Events.v (prototype.js: Event): the registry of handlers and the
      browser's listeners in one state, custom events and their dispatch; a
      page's handlers and the way an event takes are arguments.  Theorems: the
      registry refines a table of lists of handlers; who is called, in which
      order.
    - Autocompletion (controls.js: Autocompleter).  AutoText.v: the token that
      is completed and the choices of a local source, as functions on texts.
      Autocomplete.v: the menu, keys, mouse, timers and responses; the menu is
      in the document, the parsing of its markup is an argument.
    - InPlace.v (controls.js: InPlaceEditor, InPlaceCollectionEditor,
      DelayedObserver): editors that are idle, editing or saving, with their
      form, requests and responses; the options' callbacks are arguments, and
      the default ones are defined.
    - PageLoad.v (application.js: window.onload): the handlers the page
      installs once it is loaded, run on the selector engine and the document.
    - Classes.v (prototype.js: Class, Function): classes as objects on a heap
      with prototypes, mixins and methods that take [$super], all below
      Object.prototype, which is object 0; functions made of functions.  Theorems: Class.create refines a table of classes; what a
      call of an inherited or overriding method runs.
    - Widget.v (ui.core.js: the widget factory): plugins, with an instance for
      each element.  Theorem: a plugin refines a table of elements with their
      options and disabled marks.
    - Insertion.v (prototype.js: insert, replace, wrap, new Element) and
      Builder.v (builder.js): content put into the document; what the browser
      makes of a markup text is an argument.  Theorems: where the nodes go, and
      that all others stay; the attributes of a built element read back.

    - Morph.v (effects.js: the styles of Effect.Morph as a text or a class,
      Effect.Transform, collectTextNodes, tagifyText).  Theorems: the text
      below an element, and the spans its characters become.

    - JqData.v and JqEvents.v (jquery-1.3.2.js, which the widgets run on): the
      cache of the data of elements, the queues of effects, and the events:
      functions with numbers and namespaces on a heap, bound, unbound,
      triggered and called.  Theorems: data refine a table of elements and
      names; queued effects run in order, one at a time; the functions bound
      are those listed and listened for, whatever numbers they get; what an
      event does on its way up, to inline handlers and native methods.

    Components call each other as the code does: Hash on Strings, Form and
    Ajax on Hash, Page on Dom, the slider on the mouse plugin, the effects on
    the document, drag and drop on the document, events and autocompletion on
    the selectors.  Shared lemmas are here and in the [Js*] files.  That a
    computation keeps a property of the state is [upholds], that it keeps what
    an observation shows of the state is [keeps_of]; the hint databases of
    these names, the tactic [keeping], and [lawful] (the effects) close such
    goals along the structure of the computation.

    ** Kinds of theorems

    Functional behaviour on all branches, error cases included (Validation,
    Page, PageLoad, Form, Insertion, the token completed, who is called for an
    event, calls of methods); round trips (Strings, Hash, Sortable, Builder);
    equivalence with a reference (the e-mail expression, the loops of
    Enumerable, selections); types (the cache of selectors); invariants (check
    boxes, active requests, the document under sortable lists, the index of a
    menu, jQuery's registry of events); safety of protocols (mouse, effects,
    in-place editors); errors (when the drag handlers throw, failed saves);
    refinement (effect queues, drags, the registry of events, classes, widgets,
    data of elements); liveness (effect queues); termination (gsub,
    selection); bounds (hour sliders).  Examples named after a limit of the
    code show what it does where it seems not meant to.  A theorem with
    hypotheses is followed, at the end of its file or Module, by a witness that
    applies it to a concrete page or input.

    ** Not modelled

    Of jQuery its selectors, styles, manipulation of nodes, Ajax and animation,
    which no modelled code calls.  Code that only calls the browser (focus, scrolling of
    windows, transport objects, ranges); eval, but for the matchers the
    selector engine compiles; what XPath and the selectors API of the browser
    select; the extension of events and elements for Internet Explorer;
    branches for particular browsers; setting the property __proto__ of an
    object; the Flash embedding and the other
    vendored scripts; the old slider, which no page loads; the server, its
    worker and helper processes and the vendored libraries, which are C, and
    the panel's Ruby, which are not in the language modelled here. *)

From Stdlib Require Export Lia.
From stdpp Require Export numbers base strings pretty gmap list.

(** ** JavaScript computations: state, exceptions

    A statement sequence of the source becomes a computation over an explicit
    state [S] that finishes with a value or with a thrown exception; the state
    reached before a [throw] is kept, as in JavaScript. *)

(** Exceptions the modelled code raises or discriminates on.  [EBreak] is
    prototype.js's [$break] object; [EUser] stands for any other thrown
    value, told apart by an identifier. *)
Inductive exn :=
| EBreak
| ETypeError
| ERangeError
| ESyntaxError
| EReferenceError
| EURIError
| EElementDoesNotExist
| EUser (id : nat).

#[export] Instance exn_eq_dec : EqDecision exn.
Proof. solve_decision. Defined.

Inductive res (A : Type) :=
| Ret (a : A)
| Throw (e : exn).
Arguments Ret {A} _.
Arguments Throw {A} _.

(** Computations over the state [S]. *)
Definition JS (S A : Type) : Type := S → res A * S.

#[export] Instance js_mret {S} : MRet (JS S) := λ A a s, (Ret a, s).
#[export] Instance js_mbind {S} : MBind (JS S) := λ A B f m s,
  match m s with
  | (Ret a, s') => f a s'
  | (Throw e, s') => (Throw e, s')
  end.

Definition js_throw {S A} (e : exn) : JS S A := λ s, (Throw e, s).
Definition js_get {S} : JS S S := λ s, (Ret s, s).
Definition js_put {S} (s' : S) : JS S () := λ _, (Ret (), s').
Definition js_modify {S} (f : S → S) : JS S () := λ s, (Ret (), f s).
Definition js_gets {S A} (f : S → A) : JS S A := λ s, (Ret (f s), s).

(** [try { m } catch (e) { h(e) }] *)
Definition js_try {S A} (m : JS S A) (h : exn → JS S A) : JS S A := λ s,
  match m s with
  | (Ret a, s') => (Ret a, s')
  | (Throw e, s') => h e s'
  end.

(** [try { m } finally { f }], where [f] completes normally. *)
Definition js_finally {S A} (m : JS S A) (f : JS S ()) : JS S A := λ s,
  let '(r, s') := m s in
  match f s' with
  | (Ret _, s'') => (r, s'')
  | (Throw e, s'') => (Throw e, s'')
  end.

(** [if (b) m] *)
Definition js_when {S} (b : bool) (m : JS S ()) : JS S () :=
  if b then m else mret ().

(** Run a computation over a component of the state: closures that assign a
    captured local [var] are computations over the pair (local, rest). *)
Definition js_with_local {S L A} (l : L) (m : JS (L * S) A) : JS S (A * L) := λ s,
  match m (l, s) with
  | (Ret a, (l', s')) => (Ret (a, l'), s')
  | (Throw e, (_, s')) => (Throw e, s')
  end.
Definition js_local {S L} : JS (L * S) L := λ s, (Ret (fst s), s).
Definition js_set_local {S L} (l : L) : JS (L * S) () := λ s, (Ret (), (l, snd s)).
Definition js_lift {S L A} (m : JS S A) : JS (L * S) A := λ s,
  let '(r, s') := m (snd s) in (r, (fst s, s')).

Lemma js_bind_ret {S A B} (a : A) (f : A → JS S B) s :
  (mret a ≫= f) s = f a s.
Proof. reflexivity. Qed.

Lemma js_bind_assoc {S A B C} (m : JS S A) (f : A → JS S B) (g : B → JS S C) s :
  ((m ≫= f) ≫= g) s = (m ≫= (λ a, f a ≫= g)) s.
Proof. unfold mbind, js_mbind. by destruct (m s) as [[a|e] s']. Qed.

Lemma js_bind_Ret {S A B} (m : JS S A) (f : A → JS S B) s a s' :
  m s = (Ret a, s') → (m ≫= f) s = f a s'.
Proof. intros H. unfold mbind, js_mbind. by rewrite H. Qed.

Lemma js_run_Ret {S A} (m : JS S A) s a : (m s).1 = Ret a → m s = (Ret a, (m s).2).
Proof. intros H. rewrite <- H. apply surjective_pairing. Qed.

Lemma js_bind_modify {S B} (g : S → S) (k : JS S B) s : (js_modify g ;; k) s = k (g s).
Proof. reflexivity. Qed.

Lemma js_bind_gets {S A B} (g : S → A) (f : A → JS S B) s : (js_gets g ≫= f) s = f (g s) s.
Proof. reflexivity. Qed.

Lemma js_bind_get {S B} (f : S → JS S B) s : (js_get ≫= f) s = f s s.
Proof. reflexivity. Qed.

Lemma js_bind_Throw {S A B} (m : JS S A) (f : A → JS S B) s e s' :
  m s = (Throw e, s') → (m ≫= f) s = (Throw e, s').
Proof. intros H. unfold mbind, js_mbind. by rewrite H. Qed.

(** A computation keeps a property of the state, whether it returns or
    throws. *)
Definition upholds {S A} (P : S → Prop) (m : JS S A) : Prop := ∀ s, P s → P (m s).2.
Lemma upholds_ret {S A} (P : S → Prop) (a : A) : upholds P (mret a).
Proof. by intros s. Qed.
Lemma upholds_get {S B} (P : S → Prop) (k : S → JS S B) : (∀ s, upholds P (k s)) → upholds P (js_get ≫= k).
Proof. intros Hk s. apply Hk. Qed.
Lemma upholds_bind {S A B} (P : S → Prop) (m : JS S A) (k : A → JS S B) :
  upholds P m → (∀ a, upholds P (k a)) → upholds P (m ≫= k).
Proof.
  intros Hm Hk s Hs. specialize (Hm s Hs). unfold mbind, js_mbind. destruct (m s) as [[a|e] s']; [by apply Hk|done].
Qed.
Create HintDb upholds.
#[export] Hint Resolve upholds_ret upholds_get upholds_bind : upholds.

(** Unfold the monad operations everywhere and reduce. *)
Ltac js_unfold :=
  unfold mret, js_mret, mbind, js_mbind, js_throw, js_get, js_put, js_modify,
    js_gets, js_when, js_local, js_set_local, js_lift, js_with_local in *.
Ltac js_simpl := js_unfold; cbn in *.

(** Keep comparisons folded under [cbn]. *)
#[global] Arguments Nat.ltb : simpl never.
#[global] Arguments Nat.leb : simpl never.
#[global] Arguments N.eqb : simpl never.
#[global] Arguments N.leb : simpl never.

(** ** Booleans and options *)

Lemma bool_eq_iff (a b : bool) : (a = true ↔ b = true) → a = b.
Proof. destruct a, b; intros [H1 H2]; auto; symmetry; auto. Qed.

(** Split the first [match] or [if] of the goal on its scrutinee. *)
Ltac case_goal :=
  match goal with
  | |- context [match ?x with _ => _ end] => destruct x eqn:?
  end.

(** Sequenced iteration of a computation over a list. *)
Fixpoint js_each {S A} (l : list A) (f : A → JS S ()) : JS S () :=
  match l with
  | [] => mret ()
  | x :: l => f x ;; js_each l f
  end.

Lemma js_each_app {S A} (l1 l2 : list A) (f : A → JS S ()) s :
  js_each (l1 ++ l2) f s = (js_each l1 f ;; js_each l2 f) s.
Proof.
  revert s. induction l1 as [|x l1 IH]; intros s; [reflexivity|].
  cbn. unfold mbind, js_mbind in *. destruct (f x s) as [[]]; [apply IH|reflexivity].
Qed.

(** A computation keeps what [obs] shows of the state, whether it returns or
    throws. *)
Definition keeps_of {S X A} (obs : S → X) (m : JS S A) : Prop := ∀ s, obs (m s).2 = obs s.
Create HintDb keeps.

Section keeps.
Context {S X : Type} (obs : S → X).

Lemma keeps_ret {A} (a : A) : keeps_of obs (mret a).
Proof. done. Qed.
Lemma keeps_throw {A} e : keeps_of obs (js_throw e : JS S A).
Proof. done. Qed.
Lemma keeps_gets {A} (f : S → A) : keeps_of obs (js_gets f).
Proof. done. Qed.
Lemma keeps_get {A} (f : S → JS S A) : (∀ s, keeps_of obs (f s)) → keeps_of obs (js_get ≫= f).
Proof. intros Hf s. apply (Hf s s). Qed.
Lemma keeps_modify f : (∀ s, obs (f s) = obs s) → keeps_of obs (js_modify f).
Proof. done. Qed.
Lemma keeps_bind {A B} (m : JS S A) (f : A → JS S B) :
  keeps_of obs m → (∀ a, keeps_of obs (f a)) → keeps_of obs (m ≫= f).
Proof.
  intros Hm Hf w. unfold mbind, js_mbind. specialize (Hm w). destruct (m w) as [[a|e] w1]; [|done].
  by rewrite Hf.
Qed.
Lemma keeps_try {A} (m : JS S A) h : keeps_of obs m → (∀ e, keeps_of obs (h e)) → keeps_of obs (js_try m h).
Proof.
  intros Hm Hf w. unfold js_try. specialize (Hm w). destruct (m w) as [[a|e] w1]; [done|].
  by rewrite Hf.
Qed.
Lemma keeps_when c (m : JS S ()) : keeps_of obs m → keeps_of obs (js_when c m).
Proof. by destruct c. Qed.
Lemma keeps_if {A} (c : bool) (m n : JS S A) : keeps_of obs m → keeps_of obs n → keeps_of obs (if c then m else n).
Proof. by destruct c. Qed.
Lemma keeps_each {A} (l : list A) (f : A → JS S ()) : (∀ x, keeps_of obs (f x)) → keeps_of obs (js_each l f).
Proof. intros Hf. induction l as [|x l IH]; [done|]. by apply keeps_bind. Qed.
Lemma keeps_upholds {A} (P : S → Prop) (m : JS S A) :
  (∀ s s', obs s' = obs s → P s → P s') → keeps_of obs m → upholds P m.
Proof. intros HP Hm s. by apply HP. Qed.
End keeps.
#[export] Hint Resolve keeps_ret keeps_throw keeps_gets keeps_bind keeps_try keeps_when keeps_if : keeps.

(** [keeps_of] along the structure of a computation; [leaf] is for the rest. *)
Ltac keeping leaf :=
  repeat match goal with
    | |- ∀ _, keeps_of _ _ => intros ?
    | |- keeps_of _ (mret _) => apply keeps_ret
    | |- keeps_of _ (js_throw _) => apply keeps_throw
    | |- keeps_of _ (js_get ≫= _) => apply keeps_get; intros ?
    | |- keeps_of _ (js_modify _) => apply keeps_modify; intros ?; reflexivity
    | |- keeps_of _ (_ ≫= _) => apply keeps_bind; [|intros ?]
    | |- keeps_of _ (js_each _ _) => apply keeps_each; intros ?
    | |- keeps_of _ (js_when _ _) => apply keeps_when
    | |- keeps_of _ (js_try _ _) => apply keeps_try; [|intros ?]
    | |- keeps_of _ (match _ with _ => _ end) => case_match
    | |- keeps_of _ _ => leaf
    end.

(** Filters on the elements of a list. *)
Lemma filter_fmap_on {A B} (f : A → B) (P : A → Prop) (Q : B → Prop) `{∀ x, Decision (P x), ∀ y, Decision (Q y)} (l : list A) :
  (∀ x, x ∈ l → Q (f x) ↔ P x) → filter Q (f <$> l) = f <$> filter P l.
Proof.
  induction l as [|x l IH]; intros Hl; [done|]. rewrite fmap_cons.
  pose proof (Hl x (list_elem_of_here _ _)) as Hx. specialize (IH (λ y Hy, Hl y (list_elem_of_further _ _ _ Hy))).
  destruct (decide (P x)); [rewrite !filter_cons_True by tauto; rewrite fmap_cons; by f_equal|by rewrite !filter_cons_False by tauto].
Qed.

Lemma filter_all {A} (P : A → Prop) `{∀ x, Decision (P x)} (l : list A) : (∀ x, x ∈ l → P x) → filter P l = l.
Proof.
  induction l as [|x l IH]; intros Hl; [done|]. rewrite filter_cons_True by (apply Hl; left).
  f_equal. apply IH. intros y Hy. apply Hl. by right.
Qed.

Lemma filter_iff_on {A} (P Q : A → Prop) `{∀ x, Decision (P x), ∀ x, Decision (Q x)} (l : list A) :
  (∀ x, x ∈ l → P x ↔ Q x) → filter P l = filter Q l.
Proof. intros Hl. rewrite <- (list_fmap_id l) at 1. rewrite (filter_fmap_on id Q P) by done. apply list_fmap_id. Qed.

Lemma filter_comm {A} (P Q : A → Prop) `{∀ x, Decision (P x), ∀ x, Decision (Q x)} (l : list A) :
  filter P (filter Q l) = filter Q (filter P l).
Proof. rewrite !list_filter_filter. apply list_filter_iff. tauto. Qed.

(** Induction on the length of a list. *)
Lemma length_ind {A} (P : list A → Prop) :
  (∀ l, (∀ l', length l' < length l → P l') → P l) → ∀ l, P l.
Proof.
  intros H l. assert (∀ n l', length l' < n → P l') as Hn; [|apply (Hn (S (length l))); lia].
  clear l. induction n as [|n IH]; intros l Hl; [lia|]. apply H. intros l' Hl'. apply IH. lia.
Qed.
