(* ===== verification/JsBase.v ===== *)
(** * JavaScript strings and numbers: the parts of the language the code uses *)

From Stdlib Require Import ZArith Ascii.
From S2P Require Import Prelude.
#[local] Open Scope N_scope.
#[local] Open Scope stdpp_scope.

(** ** Strings

    A JavaScript string is a finite sequence of 16-bit code units, here a
    list of [N]; [length] is the source's [.length].  Literals are written
    [js "..."]; [dq] is the double quote character. *)
Abbreviation jsstr := (list N).

Fixpoint js (s : string) : jsstr :=
  match s with
  | EmptyString => []
  | String a s => N_of_ascii a :: js s
  end.
Arguments js : simpl never.
Definition dq : jsstr := [34].

(** Replace the literals of the goal by their code units. *)
Ltac js_lit :=
  repeat match goal with
  | |- context [js ?s] => let v := eval vm_compute in (js s) in change (js s) with v
  | H : context [js ?s] |- _ => let v := eval vm_compute in (js s) in change (js s) with v in H
  end.

(** *** Character classes of the regular expressions in use

    [\s] is WhiteSpace or LineTerminator, [\d] and [\w] are ASCII. *)
Definition is_space (c : N) : bool :=
  bool_decide (c ∈ [9; 10; 11; 12; 13; 32; 160; 5760; 8232; 8233; 8239; 8287; 12288; 65279])
  || ((8192 <=? c) && (c <=? 8202)).
Definition is_digit (c : N) : bool := (48 <=? c) && (c <=? 57).
Definition is_upper (c : N) : bool := (65 <=? c) && (c <=? 90).
Definition is_lower (c : N) : bool := (97 <=? c) && (c <=? 122).
Definition is_word (c : N) : bool := is_digit c || is_upper c || is_lower c || (c =? 95).
Definition is_line_term (c : N) : bool := bool_decide (c ∈ [10; 13; 8232; 8233]).

(** *** Case mapping

    Modelled on ASCII and Latin-1, whose lower-case mapping is one code unit
    to one code unit; the other code units are mapped to themselves. *)
Definition lower_cu (c : N) : N :=
  if is_upper c || ((192 <=? c) && (c <=? 222) && negb (c =? 215)) then c + 32 else c.
Definition upper_cu (c : N) : N :=
  if is_lower c || ((224 <=? c) && (c <=? 254) && negb (c =? 247)) then c - 32 else c.
Definition toLowerCase (s : jsstr) : jsstr := lower_cu <$> s.
Definition toUpperCase (s : jsstr) : jsstr := upper_cu <$> s.

(** *** Searching and slicing *)

(** [s] starts with [p] *)
Fixpoint is_prefix (p s : jsstr) : bool :=
  match p, s with
  | [], _ => true
  | c :: p, d :: s => (c =? d) && is_prefix p s
  | _ :: _, [] => false
  end.

(** The first index of [p] in [s], counted from [i]. *)
Fixpoint index_from (p s : jsstr) (i : nat) : option nat :=
  if is_prefix p s then Some i else
  match s with
  | [] => None
  | _ :: s => index_from p s (S i)
  end.

#[local] Open Scope Z_scope.

Definition index_or_minus1 (o : option nat) : Z :=
  match o with Some k => Z.of_nat k | None => -1 end.

(** [s.indexOf(p, from)]: a negative start counts as 0, one past the end as
    the length; -1 when there is no occurrence. *)
Definition indexOf_from (s p : jsstr) (from : Z) : Z :=
  let i := Nat.min (Z.to_nat from) (length s) in
  index_or_minus1 (index_from p (drop i s) i).
Definition indexOf (s p : jsstr) : Z := index_or_minus1 (index_from p s 0).

(** The greatest index [≤ i] at which [p] occurs in [s]. *)
Fixpoint last_index_upto (s p : jsstr) (i : nat) : option nat :=
  if is_prefix p (drop i s) then Some i else
  match i with
  | O => None
  | S i => last_index_upto s p i
  end.

(** [s.lastIndexOf(p, from)]: the start is clamped to [0, length s - length p]. *)
Definition lastIndexOf_from (s p : jsstr) (from : Z) : Z :=
  if (length s <? length p)%nat then -1 else
  let i := Nat.min (Z.to_nat from) (length s - length p) in
  index_or_minus1 (last_index_upto s p i).
Definition lastIndexOf (s p : jsstr) : Z := lastIndexOf_from s p (Z.of_nat (length s)).

(** [s.substring(a, b)]: both ends clamped to [0, length], then ordered. *)
Definition clamp (n : nat) (z : Z) : nat := Nat.min (Z.to_nat z) n.
Definition substring (s : jsstr) (a b : Z) : jsstr :=
  let i := clamp (length s) a in
  let j := clamp (length s) b in
  take (Nat.max i j - Nat.min i j) (drop (Nat.min i j) s).
Definition substring_from (s : jsstr) (a : Z) : jsstr :=
  substring s a (Z.of_nat (length s)).

(** [s.slice(a, b)]: negative ends count from the end, no swap. *)
Definition slice_end (n : nat) (z : Z) : nat :=
  if z <? 0 then Z.to_nat (Z.of_nat n + z) else Nat.min (Z.to_nat z) n.
Definition slice {A} (s : list A) (a b : Z) : list A :=
  let i := slice_end (length s) a in
  let j := slice_end (length s) b in
  take (j - i) (drop i s).
Definition slice_from {A} (s : list A) (a : Z) : list A := slice s a (Z.of_nat (length s)).

(** [s.substr(a, n)] *)
Definition substr (s : jsstr) (a n : Z) : jsstr :=
  let i := slice_end (length s) a in
  take (Z.to_nat n) (drop i s).
Definition substr_from (s : jsstr) (a : Z) : jsstr := drop (slice_end (length s) a) s.

(** [s.charAt(i)]: the empty string out of range. *)
Definition charAt (s : jsstr) (i : Z) : jsstr :=
  if i <? 0 then [] else match s !! Z.to_nat i with Some c => [c] | None => [] end.

(** [s.split(sep)] for a non-empty [sep]; [s.split('')] is [split_chars]. *)
Fixpoint split_go (sep s : jsstr) (skip : nat) (cur : jsstr) : list jsstr :=
  match s with
  | [] => [cur]
  | c :: s' =>
      match skip with
      | S k => split_go sep s' k cur
      | O => if is_prefix sep s then cur :: split_go sep s' (length sep - 1) []
             else split_go sep s' O (cur ++ [c])
      end
  end.
Definition split (s sep : jsstr) : list jsstr := split_go sep s O [].
Definition split_chars (s : jsstr) : list jsstr := (λ c, [c]) <$> s.

(** [arr.join(sep)] *)
Fixpoint join (sep : jsstr) (l : list jsstr) : jsstr :=
  match l with
  | [] => []
  | [s] => s
  | s :: l => s ++ sep ++ join sep l
  end.

(** [s.replace(/^\s+/, '')], [s.replace(/\s+$/, '')] and their composition.
    *)
Fixpoint trim_left (s : jsstr) : jsstr :=
  match s with
  | [] => []
  | c :: s' => if is_space c then trim_left s' else s
  end.
Definition trim_right (s : jsstr) : jsstr := reverse (trim_left (reverse s)).
Definition trim (s : jsstr) : jsstr := trim_right (trim_left s).

(** ** Numbers printed and read *)

(** [String(n)] of an integer. *)
Definition num_str (z : Z) : jsstr := js (pretty z).

(** Decimal value of a digit string. *)
Definition digit_val (c : N) : Z := Z.of_N c - 48.
Definition digits_val (s : jsstr) : Z := fold_left (λ a c, a * 10 + digit_val c) s 0.

(** ** Lemmas on trimming *)

Lemma trim_left_no_space s : Forall (λ c, is_space c = false) s → trim_left s = s.
Proof. destruct 1 as [|c s Hc _]; cbn; [done|by rewrite Hc]. Qed.

Lemma trim_no_space s : Forall (λ c, is_space c = false) s → trim s = s.
Proof.
  intros H. unfold trim, trim_right. rewrite (trim_left_no_space s) by done.
  rewrite trim_left_no_space; [apply reverse_involutive|]. by apply Forall_reverse.
Qed.

Lemma forallb_true_iff {A} (f : A → bool) l : forallb f l = true ↔ Forall (λ x, f x = true) l.
Proof.
  induction l as [|x l IH]; cbn; [split; auto|].
  rewrite Forall_cons, <- IH. apply andb_true_iff.
Qed.

(** A property of the code units below [n] is checked on each of them. *)
Lemma below_forall (P : N → Prop) (n : nat) :
  Forall P (N.of_nat <$> seq 0 n) → ∀ c, (c < N.of_nat n)%N → P c.
Proof.
  rewrite Forall_forall. intros H c Hc. apply H, list_elem_of_fmap.
  exists (N.to_nat c). split; [lia|]. apply elem_of_seq. lia.
Qed.

(** ** Splitting at one code unit *)

Lemma split_go_cur d s : ∃ p ps, ∀ cur, split_go [d] s O cur = (cur ++ p) :: ps.
Proof.
  induction s as [|c s (p & ps & IH)].
  { exists [], []. intros cur. cbn. by rewrite app_nil_r. }
  cbn. rewrite andb_true_r. destruct (d =? c)%N.
  - exists [], (p :: ps). intros cur. by rewrite IH, app_nil_r.
  - exists (c :: p), ps. intros cur. by rewrite IH, <- app_assoc.
Qed.

Lemma split_app d p s : d ∉ p → split (p ++ d :: s) [d] = p :: split s [d].
Proof.
  unfold split. intros Hp.
  assert (∀ cur, split_go [d] (p ++ d :: s) O cur = (cur ++ p) :: split_go [d] s O []) as H;
    [|apply (H [])].
  induction p as [|c p IH]; intros cur; cbn; rewrite andb_true_r.
  - by rewrite N.eqb_refl, app_nil_r.
  - apply not_elem_of_cons in Hp as [Hc Hp]. rewrite (proj2 (N.eqb_neq d c)) by done.
    by rewrite IH, <- app_assoc.
Qed.

Lemma split_none d p : d ∉ p → split p [d] = [p].
Proof.
  unfold split. intros Hp.
  assert (∀ cur, split_go [d] p O cur = [cur ++ p]) as H; [|apply (H [])].
  induction p as [|c p IH]; intros cur; cbn; [by rewrite app_nil_r|]. rewrite andb_true_r.
  apply not_elem_of_cons in Hp as [Hc Hp]. rewrite (proj2 (N.eqb_neq d c)) by done.
  by rewrite IH, <- app_assoc.
Qed.

Lemma split_join d l : l ≠ [] → Forall (λ p, d ∉ p) l → split (join [d] l) [d] = l.
Proof.
  intros Hl Hf. induction Hf as [|p l Hp Hf IH]; [done|].
  destruct l as [|q l]; [by apply split_none|].
  change (join [d] (p :: q :: l)) with (p ++ d :: join [d] (q :: l)).
  rewrite split_app by done. by rewrite IH.
Qed.

Lemma forallb_join (f : N → bool) sep l :
  forallb f sep = true → Forall (λ p, forallb f p = true) l → forallb f (join sep l) = true.
Proof.
  intros Hs Hl. induction Hl as [|p l Hp Hl IH]; [done|].
  destruct l as [|q l]; [done|].
  change (join sep (p :: q :: l)) with (p ++ sep ++ join sep (q :: l)).
  by rewrite !forallb_app, Hp, Hs, IH.
Qed.

(** ** Distinct numbers print differently *)

Lemma js_inj s t : js s = js t → s = t.
Proof.
  revert t. induction s as [|a s IH]; intros [|b t]; cbn; try done.
  intros [= Hab Hst]. rewrite (IH t Hst). f_equal.
  by rewrite <- (ascii_N_embedding a), <- (ascii_N_embedding b), Hab.
Qed.
Lemma num_str_inj z w : num_str z = num_str w → z = w.
Proof. intros H%js_inj. by apply (inj pretty). Qed.

(** ** The text of an integer *)

Lemma pretty_char k : (k < 10)%N → N_of_ascii (pretty_N_char k) = (48 + k)%N.
Proof. revert k. apply (below_forall (λ k, N_of_ascii (pretty_N_char k) = (48 + k)%N) 10). repeat constructor. Qed.
Lemma js_cons a s : js (String.String a s) = N_of_ascii a :: js s.
Proof. reflexivity. Qed.
Lemma digits_val_app s c : digits_val (s ++ [c]) = digits_val s * 10 + digit_val c.
Proof. unfold digits_val. by rewrite fold_left_app. Qed.
Lemma pretty_go_digits x : ∀ s, ∃ ds, js (pretty_N_go x s) = ds ++ js s ∧ Forall (λ c, is_digit c = true) ds ∧
  digits_val ds = Z.of_N x ∧ ((0 < x)%N → ds ≠ []).
Proof.
  induction (N.lt_wf_0 x) as [x _ IH]; intros s. destruct (decide (x = 0)%N) as [->|Hx].
  { exists []. rewrite pretty_N_go_0. split_and!; [done|constructor|done|lia]. }
  rewrite pretty_N_go_step by lia.
  destruct (IH (x `div` 10)%N (N.div_lt x 10 ltac:(lia) eq_refl) (String.String (pretty_N_char (x `mod` 10)) s)) as (ds & Hj & Hds & Hv & _).
  pose proof (N.mod_lt x 10 ltac:(lia)) as Hm. pose proof (N.div_mod x 10 ltac:(lia)) as Hdm.
  set (r := (x `mod` 10)%N) in *. set (q := (x `div` 10)%N) in *. clearbody r q. exists (ds ++ [(48 + r)%N]). split_and!.
  - rewrite Hj. rewrite js_cons, pretty_char by done. by rewrite <- app_assoc.
  - apply Forall_app. split; [done|]. apply Forall_singleton. unfold is_digit. apply andb_true_iff. split; apply N.leb_le; lia.
  - rewrite digits_val_app, Hv. unfold digit_val. lia.
  - intros _ ?%app_eq_nil. naive_solver.
Qed.
(** The text of an integer: a minus for the negative ones and digits. *)
Lemma num_str_digits z : ∃ ds, num_str z = (if z <? 0 then [45%N] else []) ++ ds ∧ ds ≠ [] ∧
  Forall (λ c, is_digit c = true) ds ∧ digits_val ds = Z.abs z.
Proof.
  assert (∀ p, ∃ ds, js (pretty (Npos p)) = ds ∧ ds ≠ [] ∧ Forall (λ c, is_digit c = true) ds ∧ digits_val ds = Zpos p) as Hp.
  { intros p. destruct (pretty_go_digits (Npos p) String.EmptyString) as (ds & Hj & Hds & Hv & Hne). exists ds.
    unfold pretty, pretty_N. rewrite decide_False by done. rewrite Hj. cbn [js]. rewrite app_nil_r. split_and!; [done|by apply Hne|done|done]. }
  destruct z as [|p|p].
  - exists [48%N]. split_and!; [reflexivity|done|by repeat constructor|reflexivity].
  - destruct (Hp p) as (ds & Hj & ?). exists ds. by split; [exact Hj|].
  - destruct (Hp p) as (ds & Hj & ?). exists ds. split; [|done]. cbn. rewrite <- Hj. reflexivity.
Qed.
