(* ===== verification/JsNum.v ===== *)
(** * JavaScript numbers: double-precision values, parsing and comparison

    A number is [NaN], an infinity, or a rational that a double represents.
    IEEE arithmetic is the exact operation followed by [round_q], rounding to
    nearest with ties to even, which is how ECMAScript specifies it; the two
    zeros are not told apart, which nothing modelled here observes. *)

From Stdlib Require Import ZArith QArith Qreduction.
From S2P Require Import Prelude JsBase.
#[local] Open Scope Z_scope.
#[local] Open Scope stdpp_scope.

Inductive num :=
| NaN
| PInf
| NInf
| Fin (q : Q).

(** ** Rounding *)

(** [n / d] rounded to an integer, to nearest, ties to even ([0 ≤ n], [0 < d]). *)
Definition rne (n d : Z) : Z :=
  let q := n / d in
  let r := n mod d in
  if 2 * r <? d then q
  else if d <? 2 * r then q + 1
  else if Z.even q then q else q + 1.

(** The exponent of the last place of the double nearest to [n / d > 0]:
    52 places below the leading one, not below the subnormal range. *)
Definition ulp_exp (n d : Z) : Z :=
  let l := Z.log2 n - Z.log2 d in
  let l := if 0 <=? l then (if d * 2 ^ l <=? n then l else l - 1)
           else (if d <=? n * 2 ^ (- l) then l else l - 1) in
  Z.max (l - 52) (-1074).

(** Numerator over denominator of [n / d], rounded to 53 significant bits. *)
Definition round_frac (n d : Z) : Z * Z :=
  let e := ulp_exp n d in
  if 0 <=? e then (rne n (d * 2 ^ e) * 2 ^ e, 1)
  else (rne (n * 2 ^ (- e)) d, 2 ^ (- e)).

Definition round_pos (n d : Z) : num :=
  let '(a, b) := round_frac n d in
  if 2 ^ 1024 * b <=? a then PInf else Fin (Qred (a # Z.to_pos b)).

Definition num_neg (x : num) : num :=
  match x with
  | NaN => NaN | PInf => NInf | NInf => PInf
  | Fin q => Fin (Qred (- q))
  end.

Definition round_q (q : Q) : num :=
  match Qnum q with
  | 0 => Fin 0
  | Zpos p => round_pos (Zpos p) (Zpos (Qden q))
  | Zneg p => num_neg (round_pos (Zpos p) (Zpos (Qden q)))
  end.
Definition num_of_Z (z : Z) : num := round_q (inject_Z z).
(** A number literal that a double represents. *)
Definition int (z : Z) : num := Fin (inject_Z z).

(** ** Comparison: false as soon as one side is NaN *)
Definition num_ltb (x y : num) : bool :=
  match x, y with
  | Fin a, Fin b => (Qnum a * Zpos (Qden b) <? Qnum b * Zpos (Qden a))
  | NaN, _ | _, NaN => false
  | NInf, NInf => false
  | NInf, _ => true
  | _, PInf => match x with PInf => false | _ => true end
  | _, _ => false
  end.
Definition num_gtb (x y : num) : bool := num_ltb y x.

(** ** Reading numbers *)

Fixpoint span (p : N → bool) (s : jsstr) : jsstr * jsstr :=
  match s with
  | c :: s' => if p c then let '(a, b) := span p s' in (c :: a, b) else ([], s)
  | [] => ([], [])
  end.

(** An optional sign: whether it is a minus, and the rest. *)
Definition opt_sign (s : jsstr) : bool * jsstr :=
  match s with
  | 45%N :: s => (true, s)
  | 43%N :: s => (false, s)
  | _ => (false, s)
  end.

(** ExponentPart: [e] or [E], optional sign, at least one digit; when absent
    the exponent is 0 and nothing is consumed. *)
Definition exponent_part (s : jsstr) : Z * jsstr :=
  match s with
  | c :: s' =>
      if (c =? 101)%N || (c =? 69)%N then
        let '(neg, t) := opt_sign s' in
        match span is_digit t with
        | ([], _) => (0, s)
        | (ds, t) => ((if neg : bool then - digits_val ds else digits_val ds), t)
        end
      else (0, s)
  | [] => (0, [])
  end.

Definition scale10 (z e : Z) : Q :=
  if 0 <=? e then inject_Z (z * 10 ^ e) else z # Z.to_pos (10 ^ (- e)).

(** The longest prefix that is a StrUnsignedDecimalLiteral other than
    [Infinity], and the rest. *)
Definition decimal_prefix (s : jsstr) : option (Q * jsstr) :=
  let '(ip, t) := span is_digit s in
  let '(fp, t') := match t with
                   | 46%N :: t' => span is_digit t'
                   | _ => ([], t)
                   end in
  match ip, fp with
  | [], [] => None
  | _, _ => let '(e, rest) := exponent_part t' in
            Some (scale10 (digits_val (ip ++ fp)) (e - Z.of_nat (length fp)), rest)
  end.

Definition signed (neg : bool) (x : num) : num := if neg then num_neg x else x.

(** A StrDecimalLiteral prefix: a sign, then [Infinity] or a decimal. *)
Definition str_decimal_prefix (s : jsstr) : option (num * jsstr) :=
  let '(neg, t) := opt_sign s in
  if is_prefix (js "Infinity") t then Some (signed neg PInf, drop 8 t)
  else match decimal_prefix t with
       | Some (q, rest) => Some (signed neg (round_q q), rest)
       | None => None
       end.

Definition hex_val (c : N) : option Z :=
  if is_digit c then Some (Z.of_N c - 48)
  else if (97 <=? c)%N && (c <=? 102)%N then Some (Z.of_N c - 87)
  else if (65 <=? c)%N && (c <=? 70)%N then Some (Z.of_N c - 55)
  else None.
Definition is_hex (c : N) : bool := bool_decide (is_Some (hex_val c)).
Definition hex_digits_val (s : jsstr) : Z :=
  fold_left (λ a c, a * 16 + default 0 (hex_val c)) s 0.
Definition is_0x (s : jsstr) : bool := is_prefix (js "0x") s || is_prefix (js "0X") s.

(** [Number(s)]: ToNumber of a string. *)
Definition to_number (s : jsstr) : num :=
  match trim s with
  | [] => Fin 0
  | t =>
      if is_0x t then
        match span is_hex (drop 2 t) with
        | ((_ :: _) as ds, []) => num_of_Z (hex_digits_val ds)
        | _ => NaN
        end
      else match str_decimal_prefix t with
           | Some (x, []) => x
           | _ => NaN
           end
  end.

(** [parseFloat(s)] *)
Definition parseFloat (s : jsstr) : num :=
  match str_decimal_prefix (trim_left s) with
  | Some (x, _) => x
  | None => NaN
  end.

(** [parseInt(s, 10)], [parseInt(s, 16)], and [parseInt(s)], which reads
    hexadecimal after [0x] and decimal otherwise (ECMAScript 5). *)
Definition parse_digits (ds : jsstr) (v : jsstr → Z) (neg : bool) : num :=
  match ds with
  | [] => NaN
  | _ => signed neg (num_of_Z (v ds))
  end.
Definition parseInt10 (s : jsstr) : num :=
  let '(neg, t) := opt_sign (trim_left s) in
  parse_digits (fst (span is_digit t)) digits_val neg.
Definition parseInt16 (s : jsstr) : num :=
  let '(neg, t) := opt_sign (trim_left s) in
  let t := if is_0x t then drop 2 t else t in
  parse_digits (fst (span is_hex t)) hex_digits_val neg.
Definition parseInt (s : jsstr) : num :=
  let '(neg, t) := opt_sign (trim_left s) in
  if is_0x t then parse_digits (fst (span is_hex (drop 2 t))) hex_digits_val neg
  else parse_digits (fst (span is_digit t)) digits_val neg.

(** ** Lemmas *)

Lemma span_all p s : Forall (λ c, p c = true) s → span p s = (s, []).
Proof. induction 1 as [|c s Hc _ IH]; cbn; [done|]. by rewrite Hc, IH. Qed.

Lemma num_ltb_Fin a b : num_ltb (Fin a) (Fin b) = true ↔ (a < b)%Q.
Proof. unfold Qlt; cbn. apply Z.ltb_lt. Qed.

Lemma num_ltb_Qred_l a b : num_ltb (Fin (Qred a)) (Fin b) = num_ltb (Fin a) (Fin b).
Proof. apply bool_eq_iff. by rewrite !num_ltb_Fin, Qred_correct. Qed.

Lemma num_ltb_Qred_r a b : num_ltb (Fin b) (Fin (Qred a)) = num_ltb (Fin b) (Fin a).
Proof. apply bool_eq_iff. by rewrite !num_ltb_Fin, Qred_correct. Qed.

Lemma rne_1 n : rne n 1 = n.
Proof. unfold rne. rewrite Z.mod_1_r, Z.div_1_r. reflexivity. Qed.

Lemma rne_ge n d : 0 ≤ n → 0 < d → n / d ≤ rne n d.
Proof. intros. unfold rne. repeat case_match; lia. Qed.

Lemma ulp_exp_int n : 0 < n → ulp_exp n 1 = Z.max (Z.log2 n - 52) (-1074).
Proof.
  intros Hn. unfold ulp_exp. change (Z.log2 1) with 0. rewrite Z.sub_0_r.
  pose proof (Z.log2_nonneg n). pose proof (Z.log2_spec n Hn) as [Hl _].
  rewrite (proj2 (Z.leb_le 0 (Z.log2 n))) by lia.
  rewrite (proj2 (Z.leb_le (1 * 2 ^ Z.log2 n) n)) by lia. reflexivity.
Qed.

(** Integers up to [2^53] are read exactly; larger ones are not read as
    something smaller than [2^53]. *)
Lemma round_frac_small n : 0 < n < 2 ^ 53 →
  ∃ k, 0 < k ∧ round_frac n 1 = (n * k, k).
Proof.
  intros [Hn Hlt]. unfold round_frac. rewrite ulp_exp_int by lia.
  assert (Z.log2 n < 53) by (apply Z.log2_lt_pow2; lia).
  pose proof (Z.log2_nonneg n).
  rewrite Z.max_l by lia. destruct (Z.leb_spec 0 (Z.log2 n - 52)).
  - replace (Z.log2 n - 52) with 0 by lia. exists 1. cbn. rewrite rne_1. split; [lia|].
    f_equal; lia.
  - rewrite rne_1. eexists. split; [|reflexivity]. apply Z.pow_pos_nonneg; lia.
Qed.

Lemma round_frac_big n : 2 ^ 53 ≤ n → ∃ a, 2 ^ 53 ≤ a ∧ round_frac n 1 = (a, 1).
Proof.
  intros Hn. unfold round_frac. rewrite ulp_exp_int by lia.
  assert (53 ≤ Z.log2 n) by (apply Z.log2_le_pow2; lia).
  rewrite Z.max_l by lia. rewrite (proj2 (Z.leb_le _ _)) by lia.
  eexists. split; [|reflexivity]. set (e := Z.log2 n - 52).
  rewrite Z.mul_1_l.
  assert (0 < 2 ^ e) by (apply Z.pow_pos_nonneg; lia).
  assert (2 ^ 52 ≤ n / 2 ^ e) as Hq.
  { apply Z.div_le_lower_bound; [lia|]. rewrite <- Z.pow_add_r by lia.
    replace (e + 52) with (Z.log2 n) by lia. apply Z.log2_spec. lia. }
  pose proof (rne_ge n (2 ^ e) ltac:(lia) ltac:(lia)).
  assert (2 ≤ 2 ^ e) by (change 2 with (2 ^ 1) at 1; apply Z.pow_le_mono_r; lia).
  nia.
Qed.

(** Comparing a non-negative integer literal with a small integer bound gives
    the comparison of the integers, whatever the rounding. *)
Lemma num_of_Z_compare z b : 0 ≤ z → 0 ≤ b < 2 ^ 53 →
  num_ltb (num_of_Z z) (int b) = (z <? b) ∧
  num_gtb (num_of_Z z) (int b) = (b <? z).
Proof.
  intros Hz Hb. unfold int, num_gtb, num_of_Z, round_q. cbn [Qnum inject_Z Qden].
  destruct z as [|p|p]; [split; cbn; f_equal; lia | | lia].
  unfold round_pos. destruct (Z.ltb_spec (Zpos p) (2 ^ 53)) as [Hs|Hs].
  - destruct (round_frac_small (Zpos p)) as (k & Hk & ->); [lia|].
    rewrite (proj2 (Z.leb_gt _ _)) by nia.
    rewrite num_ltb_Qred_l, num_ltb_Qred_r. cbn -[Z.mul].
    rewrite Z2Pos.id by lia.
    split; apply bool_eq_iff; rewrite !Z.ltb_lt; nia.
  - destruct (round_frac_big (Zpos p)) as (a & Ha & ->); [lia|].
    rewrite (proj2 (Z.ltb_ge (Zpos p) b)) by lia.
    rewrite (proj2 (Z.ltb_lt b (Zpos p))) by lia.
    case_match; [done|].
    rewrite num_ltb_Qred_l, num_ltb_Qred_r. cbn -[Z.mul].
    rewrite Z.ltb_ge, Z.ltb_lt. lia.
Qed.

Lemma digits_val_nonneg s : Forall (λ c, is_digit c = true) s → 0 ≤ digits_val s.
Proof.
  intros H. unfold digits_val.
  assert (∀ a, 0 ≤ a → 0 ≤ fold_left (λ a c, a * 10 + digit_val c) s a) as Hg; [|by apply Hg].
  induction H as [|c s Hc _ IH]; intros a Ha; cbn; [done|].
  apply IH. unfold digit_val. unfold is_digit in Hc.
  apply andb_prop in Hc as [H1%N.leb_le _]. lia.
Qed.

Lemma digit_not_space c : is_digit c = true → is_space c = false.
Proof.
  unfold is_digit, is_space. intros [H1%N.leb_le H2%N.leb_le]%andb_prop.
  apply orb_false_intro; [|apply andb_false_intro1, N.leb_gt; lia].
  apply bool_decide_eq_false. rewrite !elem_of_cons, elem_of_nil. lia.
Qed.

(** ToNumber of a non-empty decimal digit string is its rounded value. *)
Lemma to_number_digits s : s ≠ [] → Forall (λ c, is_digit c = true) s →
  to_number s = num_of_Z (digits_val s).
Proof.
  intros Hne Hd. unfold to_number.
  rewrite trim_no_space by (eapply Forall_impl; [exact Hd|exact digit_not_space]).
  destruct s as [|c s]; [done|]. pose proof Hd as Hd'. inversion_clear Hd as [|? ? Hc Hs].
  assert (opt_sign (c :: s) = (false, c :: s)) as Hsign.
  { unfold opt_sign. repeat case_match; subst; done. }
  assert (is_0x (c :: s) = false) as ->.
  { unfold is_0x; js_lit; cbn [is_prefix]. destruct s as [|x s]; [by rewrite !andb_false_r|].
    inversion_clear Hs as [|? ? Hx _]. revert Hx. unfold is_digit.
    destruct (N.eqb_spec 120 x) as [<-|]; [done|].
    destruct (N.eqb_spec 88 x) as [<-|]; [done|].
    by rewrite !andb_false_r. }
  unfold str_decimal_prefix. rewrite Hsign.
  assert (is_prefix (js "Infinity") (c :: s) = false) as ->.
  { js_lit; cbn [is_prefix]. destruct (N.eqb_spec 73 c) as [<-|]; [done|reflexivity]. }
  unfold decimal_prefix. rewrite span_all by done. cbn [exponent_part length].
  unfold scale10. cbn -[digits_val]. rewrite app_nil_r, Z.mul_1_r. reflexivity.
Qed.

(** Away from [NaN], [<] is a strict weak order. *)
Lemma num_ltb_asym a b : num_ltb a b = true → num_ltb b a = false.
Proof.
  destruct a as [| | |p], b as [| | |q]; try done.
  rewrite num_ltb_Fin. intros Hlt. apply not_true_is_false. rewrite num_ltb_Fin.
  by apply Qle_not_lt, Qlt_le_weak.
Qed.

Lemma num_ltb_weak a b c : c ≠ NaN →
  num_ltb a b = true → num_ltb a c = true ∨ num_ltb c b = true.
Proof.
  destruct c as [| | |r]; [done|destruct a, b; cbn; by auto..|].
  destruct a as [| | |p], b as [| | |q]; cbn -[num_ltb]; try by auto.
  rewrite !num_ltb_Fin. intros _ Hlt. destruct (Qlt_le_dec p r) as [|Hr]; [by left|right].
  by eapply Qle_lt_trans.
Qed.

(** ** Printing numbers

    [Number.prototype.toString]: the shortest decimal numeral that reads back
    as the number, and of those the nearest. *)

(** The [n] with [10^(n-1) ≤ q < 10^n], found from an estimate. *)
Fixpoint dec_exp (fuel : nat) (q : Q) (n : Z) : Z :=
  match fuel with
  | O => n
  | S fuel =>
      if Qle_bool (scale10 1 n) q then dec_exp fuel q (n + 1)
      else if Qle_bool (scale10 1 (n - 1)) q then n
      else dec_exp fuel q (n - 1)
  end.
Definition num_eqb (x y : num) : bool :=
  match x, y with
  | Fin a, Fin b => Qeq_bool a b
  | PInf, PInf | NInf, NInf => true
  | _, _ => false
  end.

(** A number that is neither below nor above an integer equals it. *)
Lemma num_eqb_tri x b : x ≠ NaN →
  num_ltb x (int b) = false → num_gtb x (int b) = false → num_eqb x (int b) = true.
Proof.
  unfold num_gtb. destruct x as [| | |q]; cbn -[num_ltb]; try done.
  unfold int. intros _ H1%not_true_iff_false H2%not_true_iff_false. rewrite num_ltb_Fin in H1, H2.
  apply Qeq_bool_iff. apply Qle_antisym; apply Qnot_lt_le; done.
Qed.

Lemma num_eqb_gtb x b : num_eqb x (int b) = true → num_gtb x (int b) = false.
Proof.
  unfold num_gtb. destruct x as [| | |q]; cbn -[num_ltb]; try done.
  unfold int. intros H%Qeq_bool_iff. apply not_true_iff_false. rewrite num_ltb_Fin, H. apply Qlt_irrefl.
Qed.

(** Only 0 is read as 0. *)
Lemma num_of_Z_zero z : 0 ≤ z → num_eqb (num_of_Z z) (int 0) = true ↔ z = 0.
Proof.
  intros Hz. split; [|by intros ->].
  intros H%num_eqb_gtb. destruct (num_of_Z_compare z 0) as [_ Hgt]; [lia..|].
  rewrite Hgt in H. apply Z.ltb_ge in H. lia.
Qed.

(** The digits with [k] places, the first that suffices from [k] on. *)
Fixpoint short_digits (fuel : nat) (q : Q) (n k : Z) : Z * Z :=
  let s := let t := Qmult q (scale10 1 (k - n)) in rne (Qnum t) (Zpos (Qden t)) in
  match fuel with
  | O => (s, k)
  | S fuel => if num_eqb (round_q (scale10 s (n - k))) (Fin q) then (s, k)
              else short_digits fuel q n (k + 1)
  end.
Definition zeros (n : Z) : jsstr := replicate (Z.to_nat n) 48%N.
Definition pos_str (q : Q) : jsstr :=
  let n := dec_exp 700 q 1 in
  let '(s, k) := short_digits 17 q n 1 in
  let ds := num_str s in
  if (k <=? n) && (n <=? 21) then ds ++ zeros (n - k)
  else if (0 <? n) && (n <=? 21) then take (Z.to_nat n) ds ++ js "." ++ drop (Z.to_nat n) ds
  else if (-6 <? n) && (n <=? 0) then js "0." ++ zeros (- n) ++ ds
  else
    let e := (if 0 <? n - 1 then js "+" else js "-") ++ num_str (Z.abs (n - 1)) in
    match ds with
    | [d] => [d] ++ js "e" ++ e
    | d :: ds => [d] ++ js "." ++ ds ++ js "e" ++ e
    | [] => []
    end.
Definition number_str (x : num) : jsstr :=
  match x with
  | NaN => js "NaN"
  | PInf => js "Infinity"
  | NInf => js "-Infinity"
  | Fin q =>
      match Qnum q with
      | 0 => js "0"
      | Zpos _ => pos_str q
      | Zneg _ => js "-" ++ pos_str (Qopp q)
      end
  end.

(** ** Arithmetic *)
Definition num_add (x y : num) : num :=
  match x, y with
  | Fin a, Fin b => round_q (Qplus a b)
  | NaN, _ | _, NaN => NaN
  | PInf, NInf | NInf, PInf => NaN
  | PInf, _ | _, PInf => PInf
  | NInf, _ | _, NInf => NInf
  end.
Definition num_sub (x y : num) : num := num_add x (num_neg y).
Definition num_sign (x : num) : Z :=
  match x with NaN => 0 | PInf => 1 | NInf => -1 | Fin q => Z.sgn (Qnum q) end.
Definition num_inf (s : Z) : num := if s =? 0 then NaN else if 0 <? s then PInf else NInf.
Definition num_mul (x y : num) : num :=
  match x, y with
  | Fin a, Fin b => round_q (Qmult a b)
  | NaN, _ | _, NaN => NaN
  | _, _ => num_inf (num_sign x * num_sign y)
  end.
(** Division by zero gives the infinity of the dividend's sign, the zero being
    taken as positive. *)
Definition num_div (x y : num) : num :=
  match x, y with
  | Fin a, Fin b => if Qeq_bool b 0 then num_inf (Z.sgn (Qnum a)) else round_q (Qdiv a b)
  | NaN, _ | _, NaN => NaN
  | Fin _, _ => Fin 0
  | _, Fin b => num_inf (num_sign x * (if Qnum b <? 0 then -1 else 1))
  | _, _ => NaN
  end.
(** [Math.round], [Math.floor], [Math.ceil] *)
Definition num_floor (x : num) : num :=
  match x with Fin q => int (Qnum q / Zpos (Qden q)) | _ => x end.
Definition num_ceil (x : num) : num :=
  match x with Fin q => int (- (- Qnum q / Zpos (Qden q))) | _ => x end.
Definition num_round (x : num) : num :=
  match x with Fin q => num_floor (Fin (Qplus q (1 # 2))) | _ => x end.
(** A decimal literal of the source. *)
Definition lit (q : Q) : num := round_q q.

(** [Math.abs] *)
Definition num_abs (x : num) : num := if num_ltb x (int 0) then num_neg x else x.
(** [x % y]: the exact remainder of truncated division. *)
Definition num_mod (x y : num) : num :=
  match x, y with
  | Fin a, Fin b =>
      if Qeq_bool b 0 then NaN
      else let t := Z.quot (Qnum a * Zpos (Qden b)) (Qnum b * Zpos (Qden a)) in
           Fin (Qred (Qminus a (Qmult (inject_Z t) b)))
  | Fin _, PInf | Fin _, NInf => x
  | _, _ => NaN
  end.
(** [parseFloat(x.toFixed(n))] below [1e21]: the multiple of [10^-n] nearest
    to the number, the larger in magnitude of two; [toFixed] leaves larger
    numbers as they are. *)
Definition fixed_pos (n : Z) (q : Q) : num :=
  let t := Qmult q (inject_Z (10 ^ n)) in
  let k := (2 * Qnum t + Zpos (Qden t)) / (2 * Zpos (Qden t)) in
  round_q (k # Z.to_pos (10 ^ n)).
Definition to_fixed (n : Z) (x : num) : num :=
  match x with
  | Fin q =>
      if Qle_bool (inject_Z (10 ^ 21)) q || Qle_bool q (inject_Z (- 10 ^ 21)) then x
      else if Qnum q <? 0 then num_neg (fixed_pos n (Qopp q)) else fixed_pos n q
  | x => x
  end.

Lemma num_eqb_refl x : x ≠ NaN → num_eqb x x = true.
Proof. destruct x; try done. intros _. cbn. by apply Qeq_bool_iff. Qed.

(** The larger than and smaller than tests of a clamped value fail. *)
Definition num_clamp (lo hi v : num) : num :=
  let v := if num_ltb v lo then lo else v in
  if num_gtb v hi then hi else v.
Lemma num_ltb_irrefl x : num_ltb x x = false.
Proof. destruct (num_ltb x x) eqn:H; [|done]. pose proof (num_ltb_asym _ _ H). congruence. Qed.
Lemma num_clamp_bounds lo hi v : num_ltb hi lo = false →
  num_ltb (num_clamp lo hi v) lo = false ∧ num_ltb hi (num_clamp lo hi v) = false.
Proof.
  intros Hle. unfold num_clamp, num_gtb. destruct (num_ltb v lo) eqn:Hv.
  - rewrite Hle. by rewrite num_ltb_irrefl.
  - destruct (num_ltb hi v) eqn:Hh; [by rewrite num_ltb_irrefl|done].
Qed.
Lemma num_clamp_nan lo hi v : v ≠ NaN → lo ≠ NaN → hi ≠ NaN → num_clamp lo hi v ≠ NaN.
Proof. intros. unfold num_clamp. by repeat case_match. Qed.

(** Clamping is monotone: a value not above a clamped one stays so. *)
Lemma num_ltb_trans_le a b c : b ≠ NaN → num_ltb b a = false → num_ltb c b = false → num_ltb c a = false.
Proof.
  intros Hb H1 H2. destruct (num_ltb c a) eqn:H; [|done].
  destruct (num_ltb_weak c a b Hb H) as [?|?]; congruence.
Qed.
Lemma num_clamp_below lo hi v w : v ≠ NaN → w ≠ NaN → lo ≠ NaN → hi ≠ NaN → num_ltb hi lo = false →
  num_ltb (num_clamp lo hi w) v = false → num_ltb (num_clamp lo hi w) (num_clamp lo hi v) = false.
Proof.
  intros Hv Hw Hl Hh Hle H. destruct (num_clamp_bounds lo hi w Hle) as [H1 H2].
  unfold num_clamp at 2. unfold num_gtb. destruct (num_ltb v lo) eqn:Hvl.
  - rewrite Hle. done.
  - destruct (num_ltb hi v) eqn:Hhv; [|done].
    apply (num_ltb_trans_le _ v); [done| |done]. by apply num_ltb_asym.
Qed.
Lemma num_clamp_above lo hi v w : v ≠ NaN → w ≠ NaN → lo ≠ NaN → hi ≠ NaN → num_ltb hi lo = false →
  num_ltb v (num_clamp lo hi w) = false → num_ltb (num_clamp lo hi v) (num_clamp lo hi w) = false.
Proof.
  intros Hv Hw Hl Hh Hle H. destruct (num_clamp_bounds lo hi w Hle) as [H1 H2].
  unfold num_clamp at 1. unfold num_gtb. destruct (num_ltb v lo) eqn:Hvl.
  - rewrite Hle. apply (num_ltb_trans_le _ v); [done|done|]. by apply num_ltb_asym.
  - destruct (num_ltb hi v) eqn:Hhv; done.
Qed.
