(* ===== verification/JsRegex.v ===== *)
(** * JavaScript regular expressions

    The backtracking matcher of ECMAScript (continuation-passing, greedy and
    lazy iteration, captures reset by each iteration, an iteration that
    consumes nothing fails), the string methods that use it, and its
    soundness and completeness for a declarative matching relation. *)

From S2P Require Import Prelude JsBase.
#[local] Open Scope nat_scope.
#[local] Open Scope stdpp_scope.

(** ** Syntax *)
Inductive rx :=
| REps
| RChar (p : N → bool)          (* one code unit of a class *)
| RSeq (r1 r2 : rx)
| RAlt (r1 r2 : rx)
| RStar (greedy : bool) (r : rx)
| RGroup (n : nat) (r : rx)     (* capture number n *)
| RBack (n : nat)
| RBol | REol                   (* ^ and $ without the m flag *)
| RWordB
| RLook (r : rx).               (* (?= r) *)

Declare Scope rx_scope.
Delimit Scope rx_scope with rx.
Bind Scope rx_scope with rx.
Notation "r1 +++ r2" := (RSeq r1 r2) (at level 60, right associativity) : rx_scope.
Notation "r1 <|> r2" := (RAlt r1 r2) (at level 65, right associativity) : rx_scope.
#[local] Open Scope rx_scope.

Definition RLit (c : N) : rx := RChar (λ d, N.eqb d c).
Definition RStr (s : jsstr) : rx := foldr (λ c r, RLit c +++ r) REps s.
Definition RPlus (r : rx) : rx := r +++ RStar true r.
Definition ROpt (r : rx) : rx := r <|> REps.
Definition ROptLazy (r : rx) : rx := REps <|> r.
(** A class under the [i] flag. *)
Definition ci (p : N → bool) (c : N) : bool := p c || p (lower_cu c) || p (upper_cu c).
(** [.] *)
Definition dot (c : N) : bool := negb (is_line_term c).
Definition one_of (l : jsstr) (c : N) : bool := bool_decide (c ∈ l).
Definition none_of (l : jsstr) (c : N) : bool := negb (bool_decide (c ∈ l)).

(** ** Matching *)

(** A position in the subject: what precedes it, reversed, and what follows. *)
Record pos := Pos { before : jsstr; after : jsstr }.
Abbreviation captures := (gmap nat jsstr).
Abbreviation st := (pos * captures)%type.

Fixpoint groups (r : rx) : list nat :=
  match r with
  | RSeq r1 r2 | RAlt r1 r2 => groups r1 ++ groups r2
  | RStar _ r | RLook r => groups r
  | RGroup n r => n :: groups r
  | _ => []
  end.
Definition clear_caps (ns : list nat) (c : captures) : captures := foldr delete c ns.

(** What was consumed between two positions of one subject. *)
Definition consumed (x y : pos) : jsstr :=
  take (length (after x) - length (after y)) (after x).
Definition advance (x : pos) (u : jsstr) : pos :=
  Pos (reverse u ++ before x) (drop (length u) (after x)).

Definition at_word_boundary (x : pos) : bool :=
  let a := match before x with c :: _ => is_word c | [] => false end in
  let b := match after x with c :: _ => is_word c | [] => false end in
  xorb a b.

Definition or_else {A} (a : option A) (b : unit → option A) : option A :=
  match a with Some _ => a | None => b () end.

(** One [*] iteration after another; [fuel] is at least the number of code
    units left, of which every iteration must consume one. *)
Fixpoint star_loop (m : (st → option st) → st → option st) (greedy : bool)
    (ns : list nat) (k : st → option st) (fuel : nat) (x : st) : option st :=
  let again := match fuel with
    | O => None
    | S fuel =>
        m (λ y, if length (after y.1) <? length (after x.1)
                then star_loop m greedy ns k fuel y else None)
          (x.1, clear_caps ns x.2)
    end in
  if greedy then or_else again (λ _, k x) else or_else (k x) (λ _, again).

Fixpoint rmatch (r : rx) (k : st → option st) (x : st) : option st :=
  match r with
  | REps => k x
  | RChar p =>
      match after x.1 with
      | c :: s => if p c then k (Pos (c :: before x.1) s, x.2) else None
      | [] => None
      end
  | RSeq r1 r2 => rmatch r1 (rmatch r2 k) x
  | RAlt r1 r2 => or_else (rmatch r1 k x) (λ _, rmatch r2 k x)
  | RStar g r => star_loop (rmatch r) g (groups r) k (length (after x.1)) x
  | RGroup n r => rmatch r (λ y, k (y.1, <[n := consumed x.1 y.1]> y.2)) x
  | RBack n =>
      match x.2 !! n with
      | None => k x
      | Some u => if is_prefix u (after x.1) then k (advance x.1 u, x.2) else None
      end
  | RBol => match before x.1 with [] => k x | _ => None end
  | REol => match after x.1 with [] => k x | _ => None end
  | RWordB => if at_word_boundary x.1 then k x else None
  | RLook r =>
      match rmatch r Some x with
      | Some y => k (x.1, y.2)
      | None => None
      end
  end.

(** ** The string methods *)

(** The result array of a match: [m.index], [m[0]], the rest of the subject
    and the captures, absent ones being [undefined]. *)
Record match_res := MatchRes {
  m_before : jsstr; m_text : jsstr; m_rest : jsstr; m_caps : captures }.
Definition m_index (m : match_res) : nat := length (m_before m).
(** [m[n]] *)
Definition m_group (m : match_res) (n : nat) : option jsstr :=
  match n with O => Some (m_text m) | _ => m_caps m !! n end.
(** [m[n] || ''] *)
Definition m_group_or_empty (m : match_res) (n : nat) : jsstr := default [] (m_group m n).

Fixpoint exec_from (r : rx) (bef s : jsstr) : option match_res :=
  match rmatch r Some (Pos bef s, ∅) with
  | Some y => Some (MatchRes (reverse bef) (consumed (Pos bef s) y.1) (after y.1) y.2)
  | None => match s with [] => None | c :: s' => exec_from r (c :: bef) s' end
  end.

(** [r.exec(s)], [s.match(r)] without the [g] flag *)
Definition rx_match (r : rx) (s : jsstr) : option match_res := exec_from r [] s.
(** [r.test(s)], [s.search(r) != -1] *)
Definition rx_test (r : rx) (s : jsstr) : bool := bool_decide (is_Some (rx_match r s)).

(** [s.replace(r, f)] without the [g] flag *)
Definition replace_first (r : rx) (f : match_res → jsstr) (s : jsstr) : jsstr :=
  match rx_match r s with
  | Some m => m_before m ++ f m ++ m_rest m
  | None => s
  end.

(** [s.replace(r, f)] with the [g] flag: the scan resumes after each match,
    one code unit further when the match is empty.  [fuel] bounds the number
    of code units left plus one. *)
Fixpoint replace_all_go (fuel : nat) (r : rx) (f : match_res → jsstr) (bef s : jsstr) : jsstr :=
  match fuel with
  | O => s
  | S fuel =>
      match exec_from r bef s with
      | None => s
      | Some m =>
          let skipped := drop (length bef) (m_before m) in
          let bef' := reverse (m_text m) ++ reverse (m_before m) in
          skipped ++ f m ++
          match m_text m, m_rest m with
          | [], [] => []
          | [], c :: s' => c :: replace_all_go fuel r f (c :: bef') s'
          | _, s' => replace_all_go fuel r f bef' s'
          end
      end
  end.
Definition replace_all (r : rx) (f : match_res → jsstr) (s : jsstr) : jsstr :=
  replace_all_go (S (length s)) r f [] s.

(** ** Declarative matching, without captures *)

Fixpoint no_back (r : rx) : bool :=
  match r with
  | RBack _ => false
  | RSeq r1 r2 | RAlt r1 r2 => no_back r1 && no_back r2
  | RStar _ r | RGroup _ r | RLook r => no_back r
  | _ => true
  end.

Inductive matches : rx → pos → pos → Prop :=
| matches_eps x : matches REps x x
| matches_char p c b s : p c = true → matches (RChar p) (Pos b (c :: s)) (Pos (c :: b) s)
| matches_seq r1 r2 x y z : matches r1 x y → matches r2 y z → matches (r1 +++ r2) x z
| matches_alt_l r1 r2 x y : matches r1 x y → matches (r1 <|> r2) x y
| matches_alt_r r1 r2 x y : matches r2 x y → matches (r1 <|> r2) x y
| matches_star_nil g r x : matches (RStar g r) x x
| matches_star_cons g r x y z :
    matches r x y → length (after y) < length (after x) →
    matches (RStar g r) y z → matches (RStar g r) x z
| matches_group n r x y : matches r x y → matches (RGroup n r) x y
| matches_bol s : matches RBol (Pos [] s) (Pos [] s)
| matches_eol b : matches REol (Pos b []) (Pos b [])
| matches_wordb x : at_word_boundary x = true → matches RWordB x x
| matches_look r x y : matches r x y → matches (RLook r) x x.

Create HintDb regex.
#[export] Hint Constructors matches : regex.

(** ** The matcher against the relation *)

Lemma or_else_Some {A} (a : option A) b y :
  or_else a b = Some y ↔ a = Some y ∨ (a = None ∧ b () = Some y).
Proof. destruct a; cbn; split; intros; destruct_or?; destruct_and?; simplify_eq; eauto. Qed.

Lemma or_else_is_Some {A} (a : option A) b :
  is_Some (or_else a b) ↔ is_Some a ∨ is_Some (b ()).
Proof.
  destruct a; cbn; split; [eauto..|eauto|]. intros [[? ?]|?]; done.
Qed.

Section soundness.
(** What a sub-matcher must satisfy for its iteration to be sound. *)
Definition sound_for (r : rx) : Prop := ∀ k x res,
  rmatch r k x = Some res → ∃ y, matches r x.1 y.1 ∧ k y = Some res.

Lemma star_loop_sound r g ns k n x res :
  sound_for r → star_loop (rmatch r) g ns k n x = Some res →
  ∃ y, matches (RStar g r) x.1 y.1 ∧ k y = Some res.
Proof.
  intros Hr. revert x res. induction n as [|n IH]; intros x res; cbn.
  - destruct g; cbn; [|intros [H|[_ H]]%or_else_Some; [|done]]; eauto with regex.
  - assert (∀ res', rmatch r (λ y, if length (after y.1) <? length (after x.1)
              then star_loop (rmatch r) g ns k n y else None) (x.1, clear_caps ns x.2)
              = Some res' → ∃ y, matches (RStar g r) x.1 y.1 ∧ k y = Some res') as Hstep.
    { intros res' (y & Hy & Hk)%Hr. cbn in Hy, Hk.
      destruct (Nat.ltb_spec (length (after y.1)) (length (after x.1))); [|done].
      apply IH in Hk as (z & Hz & Hkz). eauto with regex. }
    destruct g; rewrite or_else_Some; intros [H|[_ H]]; eauto with regex.
Qed.

Lemma rmatch_sound r : no_back r = true → sound_for r.
Proof.
  induction r as [|p|r1 IH1 r2 IH2|r1 IH1 r2 IH2|g r IH|n r IH|n| | | |r IH];
    cbn [no_back]; intros Hb k [[b s] c] res; cbn.
  - intros H. eexists (_, _); split; [constructor|exact H].
  - destruct s as [|d s]; [done|]. case_match eqn:Hp; [|done].
    intros H. eexists (_, _); split; [|exact H]. by constructor.
  - apply andb_prop in Hb as [Hb1 Hb2].
    intros (y & Hy & (z & Hz & Hk)%IH2)%IH1; eauto with regex.
  - apply andb_prop in Hb as [Hb1 Hb2]. rewrite or_else_Some.
    intros [(y & ? & ?)%IH1|[_ (y & ? & ?)%IH2]]; eauto with regex.
  - intros H%star_loop_sound; eauto.
  - intros (y & ? & ?)%IH; [|done]. eexists (_, _); split; [|eassumption]. by constructor.
  - done.
  - destruct b; [|done]. intros H. eexists (_, _); split; [|exact H]. constructor.
  - destruct s; [|done]. intros H. eexists (_, _); split; [|exact H]. constructor.
  - case_match; [|done]. intros Hk. eexists (_, _); split; [|exact Hk]. by constructor.
  - destruct (rmatch r Some _) as [y|] eqn:E; [|done].
    intros Hk. apply IH in E as (z & Hz & _); [|done].
    eexists (_, _); split; [|eassumption]. by econstructor.
Qed.
End soundness.

Section completeness.
Definition complete_for (r : rx) : Prop := ∀ k x q,
  matches r x.1 q → (∀ y, y.1 = q → is_Some (k y)) → is_Some (rmatch r k x).

Lemma star_loop_complete r g ns k n x q :
  complete_for r → length (after x.1) ≤ n →
  matches (RStar g r) x.1 q → (∀ y, y.1 = q → is_Some (k y)) →
  is_Some (star_loop (rmatch r) g ns k n x).
Proof.
  intros Hr Hn Hm Hk. remember (RStar g r) as rs eqn:Ers.
  remember x.1 as p eqn:Ep. revert x n Hn Ep.
  induction Hm as [| | | | |g' r' p|g' r' p y z Hpy _ Hlt _ IH| | | | |];
    simplify_eq; intros x n Hn ->.
  - destruct n, g; cbn; rewrite ?or_else_is_Some; eauto.
  - destruct n as [|n]; [lia|]. cbn.
    assert (is_Some (rmatch r (λ y, if length (after y.1) <? length (after x.1)
              then star_loop (rmatch r) g ns k n y else None)
              (x.1, clear_caps ns x.2))) as Hagain.
    { eapply Hr; [exact Hpy|]. intros [y' c] [= ->]. cbn.
      rewrite (proj2 (Nat.ltb_lt _ _)) by lia. apply IH; auto. cbn. lia. }
    destruct g; rewrite or_else_is_Some; auto.
Qed.

Lemma rmatch_complete r : no_back r = true → complete_for r.
Proof.
  induction r as [|p|r1 IH1 r2 IH2|r1 IH1 r2 IH2|g r IH|n r IH|n| | | |r IH];
    cbn [no_back]; intros Hb k [x c] q; cbn [fst snd]; intros Hm Hk.
  - inversion Hm; subst. by apply Hk.
  - inversion Hm as [|? ? ? ? Hp| | | | | | | | | |]; subst. cbn. rewrite Hp. by apply Hk.
  - inversion Hm as [| |? ? ? y ? H1 H2| | | | | | | | |]; subst.
    apply andb_prop in Hb as [Hb1 Hb2]. cbn.
    eapply IH1; [done|exact H1|]. intros [y' c'] [= ->]. by eapply IH2.
  - apply andb_prop in Hb as [Hb1 Hb2]. cbn. rewrite or_else_is_Some.
    inversion Hm; subst; [left; eapply IH1|right; eapply IH2]; eauto.
  - cbn. eapply star_loop_complete; eauto.
  - inversion Hm; subst. cbn. eapply IH; [done|done|]. intros [y c'] [= ->]. by apply Hk.
  - done.
  - inversion Hm; subst. cbn. by apply Hk.
  - inversion Hm; subst. cbn. by apply Hk.
  - inversion Hm as [| | | | | | | | | |? Hw|]; subst. cbn. rewrite Hw. by apply Hk.
  - inversion Hm as [| | | | | | | | | | |? ? y H]; subst. cbn.
    match goal with Hy : matches r q ?y |- _ =>
      destruct (IH Hb Some (q, c) y Hy) as [y' Hy']; [eauto|] end.
    cbn in Hy'. rewrite Hy'. by apply Hk.
Qed.
End completeness.

(** Matching only consumes a prefix of what follows. *)
Lemma matches_consume r x y : matches r x y →
  ∃ u, after x = u ++ after y ∧ before y = reverse u ++ before x.
Proof.
  induction 1 as [x|p c b s| r1 r2 x y z _ (u & Hu & Hu') _ (v & Hv & Hv')
    | | |g r x|g r x y z _ (u & Hu & Hu') _ _ (v & Hv & Hv')| | | | |];
    try (exists []; done); eauto.
  - by exists [c].
  - exists (u ++ v). rewrite Hu, Hv, Hv', Hu', reverse_app, !app_assoc. done.
  - exists (u ++ v). rewrite Hu, Hv, Hv', Hu', reverse_app, !app_assoc. done.
Qed.

Lemma exec_from_test r b s : no_back r = true →
  is_Some (exec_from r b s) ↔
  ∃ u v y, s = u ++ v ∧ matches r (Pos (reverse u ++ b) v) y.
Proof.
  intros Hb. revert b. induction s as [|c s IH]; intros b; cbn.
  - destruct (rmatch r Some _) as [y|] eqn:E.
    + apply rmatch_sound in E as (z & Hz & _); [|done].
      split; [|done]. intros _. exists [], [], z.1. done.
    + split; [intros [? ?]; done|]. intros (u & v & y & [-> ->]%eq_sym%app_nil & Hm).
      cbn in Hm. eapply (rmatch_complete r Hb Some (_, ∅)) in Hm as [? Hr]; [|eauto].
      rewrite E in Hr. done.
  - destruct (rmatch r Some _) as [y|] eqn:E.
    + apply rmatch_sound in E as (z & Hz & _); [|done].
      split; [|done]. intros _. exists [], (c :: s), z.1. done.
    + rewrite IH. split.
      * intros (u & v & y & -> & Hm). exists (c :: u), v, y. split; [done|].
        by rewrite reverse_cons, <- app_assoc.
      * intros (u & v & y & Heq & Hm). destruct u as [|d u].
        -- cbn in Heq, Hm. subst v.
           eapply (rmatch_complete r Hb Some (_, ∅)) in Hm as [? Hr]; [|eauto].
           rewrite E in Hr. done.
        -- injection Heq as -> ->. exists u, v, y. split; [done|].
           by rewrite reverse_cons, <- app_assoc in Hm.
Qed.

(** A test succeeds exactly when the expression matches somewhere. *)
Lemma rx_test_spec r s : no_back r = true →
  rx_test r s = true ↔ ∃ u v y, s = u ++ v ∧ matches r (Pos (reverse u) v) y.
Proof.
  intros Hb. unfold rx_test, rx_match. rewrite bool_decide_eq_true, exec_from_test by done.
  by setoid_rewrite app_nil_r.
Qed.

(** ** Inversion of the relation, for specifications of concrete expressions *)

Lemma matches_eps_iff x y : matches REps x y ↔ y = x.
Proof. split; [by inversion 1|intros ->; constructor]. Qed.

Lemma matches_char_iff p x y : matches (RChar p) x y ↔
  ∃ c s, after x = c :: s ∧ p c = true ∧ y = Pos (c :: before x) s.
Proof.
  split.
  - inversion 1; subst; cbn; eauto.
  - destruct x as [b s']. cbn. intros (c & s & -> & Hp & ->). by constructor.
Qed.

Lemma matches_seq_iff r1 r2 x z : matches (r1 +++ r2) x z ↔
  ∃ y, matches r1 x y ∧ matches r2 y z.
Proof. split; [inversion 1; subst; eauto|intros (y & ? & ?); eauto with regex]. Qed.

Lemma matches_alt_iff r1 r2 x y : matches (r1 <|> r2) x y ↔ matches r1 x y ∨ matches r2 x y.
Proof. split; [inversion 1; subst; eauto|intros [?|?]; eauto with regex]. Qed.

Lemma matches_group_iff n r x y : matches (RGroup n r) x y ↔ matches r x y.
Proof. split; [by inversion 1|eauto with regex]. Qed.

Lemma matches_bol_iff x y : matches RBol x y ↔ before x = [] ∧ y = x.
Proof.
  split; [by inversion 1|]. destruct x as [b s]. cbn. intros [-> ->]. constructor.
Qed.

Lemma matches_eol_iff x y : matches REol x y ↔ after x = [] ∧ y = x.
Proof.
  split; [by inversion 1|]. destruct x as [b s]. cbn. intros [-> ->]. constructor.
Qed.

(** *** Expressions that do not look around denote a set of strings *)

(** [denotes r L]: from any position, [r] consumes exactly the strings of [L]. *)
Definition denotes (r : rx) (L : jsstr → Prop) : Prop := ∀ x y,
  matches r x y ↔ ∃ u, after x = u ++ after y ∧ before y = reverse u ++ before x ∧ L u.

(** Concatenations of members of [L]. *)
Definition star_of (L : jsstr → Prop) (u : jsstr) : Prop :=
  ∃ us, u = concat us ∧ Forall L us.
Definition plus_of (L : jsstr → Prop) (u : jsstr) : Prop :=
  ∃ us, us ≠ [] ∧ u = concat us ∧ Forall L us.

Lemma denotes_eps : denotes REps (λ u, u = []).
Proof.
  intros [b s] [b' s']. rewrite matches_eps_iff. cbn. split.
  - intros [= -> ->]. by exists [].
  - by intros (u & -> & -> & ->).
Qed.

Lemma denotes_char p : denotes (RChar p) (λ u, ∃ c, u = [c] ∧ p c = true).
Proof.
  intros [b s] [b' s']. rewrite matches_char_iff. cbn. split.
  - intros (c & t & -> & Hp & [= -> ->]). exists [c]. eauto.
  - intros (u & -> & -> & c & -> & Hp). by exists c, s'.
Qed.

Lemma denotes_seq r1 r2 L1 L2 : denotes r1 L1 → denotes r2 L2 →
  denotes (r1 +++ r2) (λ u, ∃ u1 u2, u = u1 ++ u2 ∧ L1 u1 ∧ L2 u2).
Proof.
  intros H1 H2 x z. rewrite matches_seq_iff. unfold denotes in *. split.
  - intros (y & (u1 & Hx & Hy & HL1)%H1 & (u2 & Hy' & Hz & HL2)%H2).
    exists (u1 ++ u2). rewrite Hx, Hy', Hz, Hy, reverse_app, !app_assoc. eauto 10.
  - intros (u & Hx & Hz & u1 & u2 & -> & HL1 & HL2).
    exists (Pos (reverse u1 ++ before x) (u2 ++ after z)). rewrite H1, H2. split.
    + exists u1. by rewrite Hx, <- app_assoc.
    + exists u2. by rewrite Hz, reverse_app, <- app_assoc.
Qed.

Lemma denotes_alt r1 r2 L1 L2 : denotes r1 L1 → denotes r2 L2 →
  denotes (r1 <|> r2) (λ u, L1 u ∨ L2 u).
Proof. intros H1 H2 x y. rewrite matches_alt_iff, (H1 x y), (H2 x y). naive_solver. Qed.

Lemma denotes_group n r L : denotes r L → denotes (RGroup n r) L.
Proof. intros H x y. rewrite matches_group_iff. apply H. Qed.

Lemma denotes_star g r L : denotes r L → (∀ u, L u → u ≠ []) →
  denotes (RStar g r) (star_of L).
Proof.
  intros Hr Hne x z. split.
  - intros H. remember (RStar g r) as rs eqn:Er.
    induction H as [| | | | |g' r' x|g' r' x y z Hxy _ Hlt _ IH| | | | |]; simplify_eq.
    + exists []. split; [done|]. split; [done|]. by exists [].
    + apply Hr in Hxy as (u & Hx & Hy & HL). destruct IH as (v & Hv & Hz & us & -> & HF); [done|].
      exists (u ++ concat us). rewrite Hx, Hv, Hz, Hy, reverse_app, !app_assoc.
      repeat split. exists (u :: us). auto.
  - destruct x as [b s], z as [b' s']. cbn. intros (u & -> & -> & us & -> & HF). revert b.
    induction HF as [|u us HL _ IH]; intros b; [constructor|].
    change (concat (u :: us)) with (u ++ concat us).
    apply (matches_star_cons _ _ _ (Pos (reverse u ++ b) (concat us ++ s'))).
    + apply Hr. exists u. by rewrite <- app_assoc.
    + cbn. rewrite !length_app. specialize (Hne u HL). destruct u; [done|cbn; lia].
    + rewrite reverse_app, <- !app_assoc. apply IH.
Qed.

Lemma denotes_ext r L L' : (∀ u, L u ↔ L' u) → denotes r L → denotes r L'.
Proof. intros HL H x y. rewrite (H x y). by setoid_rewrite HL. Qed.

Lemma denotes_plus r L : denotes r L → (∀ u, L u → u ≠ []) → denotes (RPlus r) (plus_of L).
Proof.
  intros Hr Hne. eapply denotes_ext; [|apply denotes_seq, denotes_star; eassumption].
  intros u. unfold plus_of, star_of. split.
  - intros (u1 & u2 & -> & HL & us & -> & HF). by exists (u1 :: us); auto.
  - intros ([|u1 us] & Hn & -> & HF); [done|]. inversion_clear HF. eauto 10.
Qed.

(** Runs of a class. *)
Lemma star_of_class p u : star_of (λ u, ∃ c, u = [c] ∧ p c = true) u ↔ Forall (λ c, p c = true) u.
Proof.
  split.
  - intros (us & -> & HF). induction HF as [|v us (c & -> & Hc) _ IH]; cbn; auto.
  - intros HF. exists ((λ c, [c]) <$> u). split.
    + induction u as [|c u IH]; cbn; [done|]. f_equal. apply IH. by inversion HF.
    + apply Forall_fmap. eapply Forall_impl; [exact HF|]. cbn. eauto.
Qed.

Lemma denotes_star_class g p : denotes (RStar g (RChar p)) (Forall (λ c, p c = true)).
Proof.
  eapply denotes_ext; [apply star_of_class|]. apply denotes_star; [apply denotes_char|].
  by intros u (c & -> & _).
Qed.

Lemma denotes_plus_class p :
  denotes (RPlus (RChar p)) (λ u, u ≠ [] ∧ Forall (λ c, p c = true) u).
Proof.
  eapply denotes_ext; [|apply denotes_seq; [apply denotes_char|apply denotes_star_class]].
  intros u. split.
  - intros (u1 & u2 & -> & (c & -> & Hc) & HF). cbn. auto.
  - intros [Hne HF]. destruct HF as [|c u Hc HF]; [done|]. exists [c], u. eauto.
Qed.

#[export] Hint Resolve denotes_eps denotes_char denotes_seq denotes_alt denotes_group
  denotes_star denotes_plus denotes_star_class denotes_plus_class : regex.

(** An expression anchored at both ends recognises its strings. *)
Lemma rx_test_anchored r L s : no_back r = true → denotes r L →
  rx_test (RBol +++ r +++ REol) s = true ↔ L s.
Proof.
  intros Hb HL. rewrite rx_test_spec by (cbn; by rewrite Hb).
  setoid_rewrite matches_seq_iff. setoid_rewrite matches_bol_iff.
  setoid_rewrite matches_seq_iff. setoid_rewrite matches_eol_iff. cbn. split.
  - intros (u & v & y & -> & z & [Hu ->] & w & Hw & Hnil & ->).
    apply (f_equal reverse) in Hu. rewrite reverse_involutive in Hu. subst u.
    apply HL in Hw as (u & Hv & _ & HLu). cbn in Hv. rewrite Hnil, app_nil_r in Hv.
    by subst.
  - intros Hs. exists [], s, (Pos (reverse s ++ []) []). split; [done|].
    exists (Pos [] s). split; [done|]. exists (Pos (reverse s ++ []) []). split; [|done].
    apply HL. exists s. by rewrite app_nil_r.
Qed.

(** The digit run [/^\d+$/]. *)
Lemma rx_test_digits s :
  rx_test (RBol +++ RPlus (RChar is_digit) +++ REol) s = true ↔
  s ≠ [] ∧ Forall (λ c, is_digit c = true) s.
Proof. exact (rx_test_anchored (RPlus (RChar is_digit)) _ s eq_refl (denotes_plus_class _)). Qed.
