(* ===== verification/JsReplace.v ===== *)
(** * Replacement with expressions that look at the rest of the subject only

    A match is a cut of its subject; an expression without anchors is
    described by the length [h s] it matches at the head of a text, and
    replacing all its matches is then a scan over the subject. *)

From Stdlib Require Import ZArith.
From S2P Require Import Prelude JsBase JsRegex.
#[local] Open Scope nat_scope.
#[local] Open Scope stdpp_scope.

(** ** Matches are cuts *)

(** [y] is [x] moved forward. *)
Definition moves (x y : pos) : Prop :=
  ∃ u, after x = u ++ after y ∧ before y = reverse u ++ before x.

Lemma moves_refl x : moves x x.
Proof. by exists []. Qed.

Lemma moves_trans x y z : moves x y → moves y z → moves x z.
Proof.
  intros (u & Hu & Hu') (v & Hv & Hv'). exists (u ++ v).
  by rewrite Hu, Hv, Hv', Hu', reverse_app, !app_assoc.
Qed.
Create HintDb moves.
#[export] Hint Resolve moves_refl moves_trans : moves.

Lemma is_prefix_spec p s : is_prefix p s = true ↔ ∃ t, s = p ++ t.
Proof.
  revert s. induction p as [|c p IH]; intros [|d s]; cbn.
  - split; [by exists []|done].
  - split; [by eexists|done].
  - split; [done|]. intros [t [=]].
  - rewrite andb_true_iff, IH, N.eqb_eq. split.
    + intros [-> [t ->]]. by eexists.
    + intros [t [= -> ->]]. eauto.
Qed.

(** The least number of code units a match consumes. *)
Fixpoint min_len (r : rx) : nat :=
  match r with
  | RChar _ => 1
  | RSeq r1 r2 => min_len r1 + min_len r2
  | RAlt r1 r2 => Nat.min (min_len r1) (min_len r2)
  | RGroup _ r => min_len r
  | _ => 0
  end.

(** [y] is [x] moved forward by at least [n] code units. *)
Definition moves_by (n : nat) (x y : pos) : Prop :=
  moves x y ∧ n + length (after y) ≤ length (after x).

Lemma moves_by_refl x : moves_by 0 x x.
Proof. split; [apply moves_refl|lia]. Qed.
Lemma moves_by_trans n1 n2 x y z : moves_by n1 x y → moves_by n2 y z → moves_by (n1 + n2) x z.
Proof. intros [? ?] [? ?]. split; [eauto with moves|lia]. Qed.
Lemma moves_by_weak n1 n2 x y : n2 ≤ n1 → moves_by n1 x y → moves_by n2 x y.
Proof. intros ? [? ?]. split; [done|lia]. Qed.

Definition moving (n : nat) (r : rx) : Prop := ∀ k x res,
  rmatch r k x = Some res → ∃ y, moves_by n x.1 y.1 ∧ k y = Some res.

Lemma star_loop_moves n' r g ns k n x res :
  moving n' r → star_loop (rmatch r) g ns k n x = Some res →
  ∃ y, moves_by 0 x.1 y.1 ∧ k y = Some res.
Proof.
  intros Hr. revert x res. induction n as [|n IH]; intros x res; cbn.
  - destruct g; cbn; [|intros [H|[_ H]]%or_else_Some; [|done]]; eauto using moves_by_refl.
  - assert (∀ res', rmatch r (λ y, if length (after y.1) <? length (after x.1)
              then star_loop (rmatch r) g ns k n y else None) (x.1, clear_caps ns x.2)
              = Some res' → ∃ y, moves_by 0 x.1 y.1 ∧ k y = Some res') as Hstep.
    { intros res' (y & Hy & Hk)%Hr. cbn in Hy, Hk.
      destruct (length (after y.1) <? length (after x.1)); [|done].
      apply IH in Hk as (z & Hz & Hkz). exists z. split; [|done].
      eapply (moves_by_weak (n' + 0)); [lia|]. eapply moves_by_trans; eassumption. }
    destruct g; rewrite or_else_Some; intros [H|[_ H]]; eauto using moves_by_refl.
Qed.

Lemma rmatch_moves r : moving (min_len r) r.
Proof.
  assert (∀ (k : st → option st) x c res, k (x, c) = Some res →
    ∃ y, moves_by 0 x y.1 ∧ k y = Some res) as Hstay
    by (intros k x c res Hk; eexists (_, _); split; [apply moves_by_refl|exact Hk]).
  induction r as [|p|r1 IH1 r2 IH2|r1 IH1 r2 IH2|g r IH|n r IH|n| | | |r IH];
    intros k [[b s] c] res; cbn.
  - apply Hstay.
  - destruct s as [|d s]; [done|]. case_match; [|done]. intros Hk. eexists; split; [|exact Hk].
    split; [by exists [d]|cbn; lia].
  - intros (y & Hy & (z & Hz & Hk)%IH2)%IH1. eauto using moves_by_trans.
  - rewrite or_else_Some. intros [(y & ? & ?)%IH1|[_ (y & ? & ?)%IH2]].
    all: exists y; split; [eapply moves_by_weak; [|eassumption]; lia|done].
  - intros H%(star_loop_moves (min_len r)); eauto.
  - intros (y & ? & ?)%IH. eexists (_, _); split; [|eassumption]. done.
  - destruct (c !! n) as [u|]; [|apply Hstay].
    destruct (is_prefix u s) eqn:Hp; [|done]. intros H. eexists (_, _); split; [|exact H].
    apply is_prefix_spec in Hp as [t ->]. split; [exists u; cbn; by rewrite drop_app_length|].
    cbn. rewrite drop_app_length, length_app. lia.
  - destruct b; [|done]. apply Hstay.
  - destruct s; [|done]. apply Hstay.
  - case_match; [|done]. apply Hstay.
  - destruct (rmatch r Some _); [|done]. apply Hstay.
Qed.

Lemma consumed_prefix x y u : after x = u ++ after y → consumed x y = u.
Proof.
  intros Hu. unfold consumed. rewrite Hu, length_app, Nat.add_sub. apply take_app_length.
Qed.

Lemma exec_from_cut r b s m : exec_from r b s = Some m →
  ∃ a, m_before m = reverse b ++ a ∧ s = a ++ m_text m ++ m_rest m ∧ min_len r ≤ length (m_text m).
Proof.
  assert (∀ y b s, rmatch r Some (Pos b s, ∅) = Some y →
    s = consumed (Pos b s) y.1 ++ after y.1 ∧ min_len r ≤ length (consumed (Pos b s) y.1))
    as Hhead.
  { intros y b' s' (z & [(u & Hu & _) Hlen] & [= ->])%rmatch_moves.
    rewrite (consumed_prefix _ _ u) by done. split; [done|]. cbn in *.
    rewrite Hu, length_app in Hlen. lia. }
  revert b. induction s as [|c s IH]; intros b; cbn -[consumed];
    destruct (rmatch r Some _) as [y|] eqn:E; try done.
  1, 2: intros [= <-]; exists []; rewrite app_nil_r; split; [done|exact (Hhead _ _ _ E)].
  intros (a & Ha & -> & Hlen)%IH. exists (c :: a). split; [|done].
  by rewrite Ha, reverse_cons, <- app_assoc.
Qed.

Lemma rx_match_cut r s m : rx_match r s = Some m → s = m_before m ++ m_text m ++ m_rest m.
Proof. intros (a & Ha & -> & _)%exec_from_cut. by rewrite Ha. Qed.

Lemma rx_match_len r s m : rx_match r s = Some m → min_len r ≤ length (m_text m).
Proof. by intros (a & _ & _ & Hlen)%exec_from_cut. Qed.

(** ** Scanning *)

Section head.
Variables (r : rx) (h : jsstr → option nat).

(** [h s] is the length of the match of [r] at the head of [s]. *)
Definition head_match : Prop :=
  (∀ b s, match h s with
          | Some n => ∃ c, rmatch r Some (Pos b s, ∅) = Some (Pos (reverse (take n s) ++ b) (drop n s), c)
          | None => rmatch r Some (Pos b s, ∅) = None
          end) ∧
  (∀ s n, h s = Some n → 1 ≤ n ≤ length s).

(** The first cut of [s]: what precedes the match, the match, the rest. *)
Fixpoint cut (s : jsstr) : option (jsstr * jsstr * jsstr) :=
  match s with
  | [] => None
  | c :: s' =>
      match h s with
      | Some n => Some ([], take n s, drop n s)
      | None => (λ x, (c :: x.1.1, x.1.2, x.2)) <$> cut s'
      end
  end.

(** Replace the matches by [F] of their text. *)
Fixpoint scan_go (F : jsstr → jsstr) (fuel : nat) (s : jsstr) : jsstr :=
  match fuel, s with
  | S fuel, c :: s' =>
      match h s with
      | Some n => F (take n s) ++ scan_go F fuel (drop n s)
      | None => c :: scan_go F fuel s'
      end
  | _, _ => s
  end.
Definition scan_replace (F : jsstr → jsstr) (s : jsstr) : jsstr := scan_go F (length s) s.
#[local] Arguments scan_replace : simpl never.

Hypothesis Hh : head_match.

Lemma head_nil : h [] = None.
Proof. destruct (h []) as [n|] eqn:E; [|done]. apply Hh in E. cbn in E. lia. Qed.

Lemma exec_from_head b s :
  match cut s with
  | Some (a, t, z) => ∃ c, exec_from r b s = Some (MatchRes (reverse b ++ a) t z c)
  | None => exec_from r b s = None
  end.
Proof.
  revert b. induction s as [|c s IH]; intros b; cbn -[consumed].
  { pose proof (proj1 Hh b []) as H0. rewrite head_nil in H0. by rewrite H0. }
  pose proof (proj1 Hh b (c :: s)) as Hb. pose proof (proj2 Hh (c :: s)) as Hn.
  destruct (h (c :: s)) as [n|].
  - destruct Hb as [c' Hb]. rewrite Hb. exists c'. rewrite app_nil_r.
    rewrite (consumed_prefix _ _ (take n (c :: s))); [done|]. cbn. by rewrite take_drop.
  - rewrite Hb. specialize (IH (c :: b)). destruct (cut s) as [[[a t] z]|]; cbn; [|done].
    destruct IH as [c' ->]. exists c'. by rewrite reverse_cons, <- app_assoc.
Qed.

Lemma scan_go_fuel F n1 n2 s : length s ≤ n1 → length s ≤ n2 → scan_go F n1 s = scan_go F n2 s.
Proof.
  revert n2 s. induction n1 as [|n1 IH]; intros n2 s H1 H2.
  { destruct s; [by destruct n2|cbn in H1; lia]. }
  destruct s as [|c s]; [by destruct n2|]. destruct n2 as [|n2]; [cbn in H2; lia|].
  cbn [scan_go]. pose proof (proj2 Hh (c :: s)) as Hn. cbn [length] in *.
  destruct (h (c :: s)) as [n|].
  - specialize (Hn n eq_refl). f_equal. apply IH; rewrite length_drop; cbn [length]; lia.
  - f_equal. apply IH; lia.
Qed.

Lemma scan_replace_cons F c s :
  scan_replace F (c :: s) =
  match h (c :: s) with
  | Some n => F (take n (c :: s)) ++ scan_replace F (drop n (c :: s))
  | None => c :: scan_replace F s
  end.
Proof.
  unfold scan_replace at 1. cbn [scan_go length]. pose proof (proj2 Hh (c :: s)) as Hn.
  destruct (h (c :: s)) as [n|]; [|done].
  specialize (Hn n eq_refl). f_equal. apply scan_go_fuel; rewrite length_drop; cbn [length] in *; lia.
Qed.

Lemma cut_spec s :
  match cut s with
  | Some (a, t, z) => s = a ++ t ++ z ∧ t ≠ [] ∧
      (∀ F, scan_replace F s = a ++ F t ++ scan_replace F z)
  | None => ∀ F, scan_replace F s = s
  end.
Proof.
  induction s as [|c s IH]; cbn [cut]; [done|].
  pose proof (scan_replace_cons) as Hs. pose proof (proj2 Hh (c :: s)) as Hn.
  destruct (h (c :: s)) as [n|] eqn:Hc.
  - specialize (Hn n eq_refl). split_and!.
    + by rewrite take_drop.
    + destruct n; [lia|done].
    + intros F. by rewrite Hs, Hc.
  - destruct (cut s) as [[[a t] z]|]; cbn.
    + destruct IH as (-> & Ht & HF). split_and!; [done..|].
      intros F. by rewrite Hs, Hc, HF.
    + intros F. by rewrite Hs, Hc, IH.
Qed.

Lemma replace_all_scan F s : replace_all r (λ m, F (m_text m)) s = scan_replace F s.
Proof.
  unfold replace_all.
  assert (∀ n b s, length s < n →
    replace_all_go n r (λ m, F (m_text m)) b s = scan_replace F s) as Hgen; [|apply Hgen; lia].
  clear s. induction n as [|n IH]; intros b s Hlen; [lia|]. cbn [replace_all_go].
  pose proof (exec_from_head b s) as He. pose proof (cut_spec s) as Hc.
  destruct (cut s) as [[[a t] z]|].
  - destruct He as [c ->], Hc as (-> & Ht & ->). cbn.
    rewrite <- (length_reverse b), drop_app_length. do 2 f_equal.
    rewrite !length_app in Hlen. destruct t as [|d t]; [done|]. apply IH. cbn in Hlen. lia.
  - by rewrite He, Hc.
Qed.
End head.
#[global] Arguments scan_replace : simpl never.

(** ** Heads of the common expressions *)

Definition class_head (p : N → bool) (s : jsstr) : option nat :=
  match s with c :: _ => if p c then Some 1 else None | [] => None end.

Lemma class_head_match p : head_match (RChar p) (class_head p).
Proof.
  split.
  - intros b [|c s]; cbn; [done|]. destruct (p c); cbn; [by eexists|done].
  - intros [|c s] n; cbn; [done|]. destruct (p c); [|done]. intros [= <-]. lia.
Qed.

(** The head of a literal text. *)
Definition text_head (t s : jsstr) : option nat :=
  if is_prefix t s then Some (length t) else None.

#[local] Arguments reverse : simpl never.
Lemma rmatch_RStr t k b s c :
  rmatch (RStr t) k (Pos b s, c) =
  if is_prefix t s then k (Pos (reverse t ++ b) (drop (length t) s), c) else None.
Proof.
  revert b s. induction t as [|d t IH]; intros b s; cbn; [done|].
  destruct s as [|e s]; [done|]. rewrite N.eqb_sym. destruct (d =? e)%N eqn:Hd; [|done].
  apply N.eqb_eq in Hd as ->. cbn. rewrite IH. by rewrite reverse_cons, <- app_assoc.
Qed.

Lemma text_head_match t : t ≠ [] → head_match (RStr t) (text_head t).
Proof.
  intros Ht. split.
  - intros b s. rewrite rmatch_RStr. unfold text_head. destruct (is_prefix t s) eqn:Hp; [|done].
    apply is_prefix_spec in Hp as [u ->]. rewrite take_app_length. by eexists.
  - intros s n. unfold text_head. destruct (is_prefix t s) eqn:Hp; [|done]. intros [= <-].
    apply is_prefix_spec in Hp as [u ->]. rewrite length_app. destruct t; [done|cbn; lia].
Qed.

Lemma scan_class p F s : scan_replace (class_head p) F s = s ≫= λ c, if p c then F [c] else [c].
Proof.
  induction s as [|c s IH]; [done|].
  rewrite (scan_replace_cons _ _ (class_head_match p)). cbn [class_head].
  cbn [mbind list_bind]. destruct (p c); cbn [take drop app]; by rewrite ?drop_0, IH.
Qed.
#[global] Arguments rx_match : simpl never.

(** ** Matches of searches, declaratively *)

Lemma exec_from_sound r b s m : no_back r = true → exec_from r b s = Some m →
  ∃ a, m_before m = reverse b ++ a ∧ s = a ++ m_text m ++ m_rest m ∧
  matches r (Pos (reverse (m_before m)) (m_text m ++ m_rest m))
            (Pos (reverse (m_text m) ++ reverse (m_before m)) (m_rest m)).
Proof.
  intros Hb. assert (∀ y b s, rmatch r Some (Pos b s, ∅) = Some y →
    s = consumed (Pos b s) y.1 ++ after y.1 ∧
    matches r (Pos b s) (Pos (reverse (consumed (Pos b s) y.1) ++ b) (after y.1))) as Hhead.
  { intros y b' s' Hy. destruct (rmatch_sound r Hb _ _ _ Hy) as ([q c] & Hm & [= <-]).
    cbn [fst] in Hm. destruct (matches_consume r _ _ Hm) as (u & Hu & Hu'). cbn [fst before after] in *.
    rewrite (consumed_prefix _ _ u) by done. split; [done|]. rewrite <- Hu'. by destruct q. }
  revert b. induction s as [|c s IH]; intros b; cbn -[consumed];
    destruct (rmatch r Some _) as [y|] eqn:E; try done.
  1, 2: intros [= <-]; exists []; rewrite app_nil_r; split; [done|];
    destruct (Hhead _ _ _ E) as [Hs Hm]; cbn in *; rewrite reverse_involutive;
    split; [exact Hs|]; by rewrite <- Hs.
  intros (a & Ha & -> & Hm)%IH. exists (c :: a). split; [|done].
  by rewrite Ha, reverse_cons, <- app_assoc.
Qed.

Lemma rx_match_sound r s m : no_back r = true → rx_match r s = Some m →
  s = m_before m ++ m_text m ++ m_rest m ∧
  matches r (Pos (reverse (m_before m)) (m_text m ++ m_rest m))
            (Pos (reverse (m_text m) ++ reverse (m_before m)) (m_rest m)).
Proof. intros Hb (a & Ha & -> & Hm)%exec_from_sound; [|done]. by rewrite Ha in *. Qed.

Lemma matches_text t x y : matches (RStr t) x y ↔
  after x = t ++ after y ∧ before y = reverse t ++ before x.
Proof.
  revert x. induction t as [|c t IH]; intros x; cbn.
  - rewrite matches_eps_iff. split; [by intros ->|]. destruct x, y; cbn. by intros [-> ->].
  - rewrite matches_seq_iff. split.
    + intros (z & Hz & [Ha Hb]%IH). apply matches_char_iff in Hz as (d & s & Hx & Hd & ->).
      cbn in *. apply N.eqb_eq in Hd as ->. split; [by rewrite Hx, Ha|].
      by rewrite Hb, reverse_cons, <- app_assoc.
    + intros [Ha Hb]. exists (Pos (c :: before x) (t ++ after y)). split.
      * apply matches_char_iff. exists c, (t ++ after y). split; [done|].
        split; [apply N.eqb_refl|done].
      * apply IH. cbn. split; [done|]. by rewrite Hb, reverse_cons, <- app_assoc.
Qed.
