(* ===== verification/JsUri.v ===== *)
(** * encodeURIComponent and decodeURIComponent

    The code units are read as UTF-16, written as UTF-8 and percent-encoded;
    [None] is a thrown URIError.  Decoding accepts well-formed UTF-8 only. *)

From Stdlib Require Import ZArith.
From S2P Require Import Prelude JsBase JsNum.
#[local] Open Scope N_scope.
#[local] Open Scope stdpp_scope.

(** Letters, digits and [- _ . ! ~ * ' ( )]. *)
Definition uri_unescaped (c : N) : bool :=
  is_digit c || is_upper c || is_lower c || bool_decide (c ∈ js "-_.!~*'()").

Definition is_high (c : N) : bool := (55296 <=? c) && (c <=? 56319).
Definition is_low (c : N) : bool := (56320 <=? c) && (c <=? 57343).

(** [%XX] with upper-case digits *)
Definition hex_upper (n : N) : N := if n <? 10 then 48 + n else 55 + n.
Definition pct (b : N) : jsstr := [37; hex_upper (b / 16); hex_upper (b mod 16)].

(** The bytes of a code point. *)
Definition utf8 (v : N) : list N :=
  if v <? 128 then [v]
  else if v <? 2048 then [192 + v / 64; 128 + v mod 64]
  else if v <? 65536 then [224 + v / 4096; 128 + v / 64 mod 64; 128 + v mod 64]
  else [240 + v / 262144; 128 + v / 4096 mod 64; 128 + v / 64 mod 64; 128 + v mod 64].

Definition pct_utf8 (v : N) : jsstr := utf8 v ≫= pct.

Fixpoint encodeURIComponent (s : jsstr) : option jsstr :=
  match s with
  | [] => Some []
  | c :: s =>
      if uri_unescaped c then cons c <$> encodeURIComponent s
      else if is_low c then None
      else if is_high c then
        match s with
        | d :: s =>
            if is_low d
            then app (pct_utf8 ((c - 55296) * 1024 + (d - 56320) + 65536)) <$> encodeURIComponent s
            else None
        | [] => None
        end
      else app (pct_utf8 c) <$> encodeURIComponent s
  end.

(** Two hexadecimal digits. *)
Definition hex_byte (a b : N) : option N :=
  x ← hex_val a; y ← hex_val b; Some (Z.to_N (x * 16 + y)).
(** The payload of a continuation byte. *)
Definition continuation (b : N) : option N :=
  if (128 <=? b) && (b <? 192) then Some (b - 128) else None.

Fixpoint decodeURIComponent (s : jsstr) : option jsstr :=
  match s with
  | [] => Some []
  | c :: s =>
      if negb (c =? 37) then cons c <$> decodeURIComponent s
      else
        match s with
        | h :: l :: s1 =>
            b0 ← hex_byte h l;
            if b0 <? 128 then cons b0 <$> decodeURIComponent s1
            else
              match s1 with
              | p :: h :: l :: s2 =>
                  b1 ← hex_byte h l ≫= continuation;
                  if negb (p =? 37) then None
                  else if (192 <=? b0) && (b0 <? 224) then
                    let v := (b0 - 192) * 64 + b1 in
                    if v <? 128 then None else cons v <$> decodeURIComponent s2
                  else
                    match s2 with
                    | p :: h :: l :: s3 =>
                        b2 ← hex_byte h l ≫= continuation;
                        if negb (p =? 37) then None
                        else if (224 <=? b0) && (b0 <? 240) then
                          let v := (b0 - 224) * 4096 + b1 * 64 + b2 in
                          if (v <? 2048) || is_high v || is_low v then None
                          else cons v <$> decodeURIComponent s3
                        else
                          match s3 with
                          | p :: h :: l :: s4 =>
                              b3 ← hex_byte h l ≫= continuation;
                              let v := (b0 - 240) * 262144 + b1 * 4096 + b2 * 64 + b3 in
                              if negb (p =? 37) || negb ((240 <=? b0) && (b0 <? 248))
                                 || (v <? 65536) || (1114111 <? v) then None
                              else app [55296 + (v - 65536) / 1024; 56320 + (v - 65536) mod 1024]
                                     <$> decodeURIComponent s4
                          | _ => None
                          end
                    | _ => None
                    end
              | _ => None
              end
        | _ => None
        end
  end.

(** ** Decoding undoes encoding *)

Lemma hex_byte_pct b : b < N.of_nat 256 → hex_byte (hex_upper (b / 16)) (hex_upper (b mod 16)) = Some b.
Proof.
  intros Hb. pattern b. revert b Hb. apply below_forall.
  repeat (constructor; [reflexivity|]); constructor.
Qed.

Lemma continuation_pct b : b < 64 → continuation (128 + b) = Some b.
Proof.
  intros Hb. unfold continuation.
  rewrite (proj2 (N.leb_le _ _)), (proj2 (N.ltb_lt _ _)) by lia. cbn. f_equal. lia.
Qed.

(** Decide the comparisons of the goal by arithmetic. *)
Ltac n_bool :=
  repeat match goal with
  | |- context [?a <? ?b] =>
      first [ rewrite (proj2 (N.ltb_lt a b)) by lia | rewrite (proj2 (N.ltb_ge a b)) by lia ]
  | |- context [?a <=? ?b] =>
      first [ rewrite (proj2 (N.leb_le a b)) by lia | rewrite (proj2 (N.leb_gt a b)) by lia ]
  end.

(** Run the decoder on bytes whose values are known to be in range. *)
Ltac n_run :=
  repeat (progress (n_bool;
    cbn -[hex_byte hex_upper continuation N.add N.mul N.sub N.div N.modulo is_high is_low])).

Lemma split64 v : ∃ q r, v = 64 * q + r ∧ r < 64 ∧ v / 64 = q ∧ v mod 64 = r.
Proof.
  exists (v / 64), (v mod 64). split; [apply N.Div0.div_mod|].
  split; [by apply N.mod_upper_bound|done].
Qed.

Lemma decode_pct1 b s : b < 128 → decodeURIComponent (pct b ++ s) = cons b <$> decodeURIComponent s.
Proof.
  intros Hb. cbn -[hex_byte hex_upper].
  change (37 =? 37) with true. cbn [negb]. rewrite hex_byte_pct by (cbn; lia).
  cbn [mbind option_bind]. by n_run.
Qed.

Lemma decode_pct2 b0 x1 s : 192 ≤ b0 < 224 → x1 < 64 → 128 ≤ (b0 - 192) * 64 + x1 →
  decodeURIComponent (pct b0 ++ pct (128 + x1) ++ s)
  = cons ((b0 - 192) * 64 + x1) <$> decodeURIComponent s.
Proof.
  intros Hb Hx Hv. cbn -[hex_byte hex_upper continuation N.add N.mul N.sub].
  change (37 =? 37) with true. cbn [negb].
  rewrite !hex_byte_pct by (cbn; lia). cbn [mbind option_bind].
  rewrite continuation_pct by done. by n_run.
Qed.

Lemma decode_pct3 b0 x1 x2 s : 224 ≤ b0 < 240 → x1 < 64 → x2 < 64 →
  let v := (b0 - 224) * 4096 + x1 * 64 + x2 in
  2048 ≤ v → is_high v = false → is_low v = false →
  decodeURIComponent (pct b0 ++ pct (128 + x1) ++ pct (128 + x2) ++ s)
  = cons v <$> decodeURIComponent s.
Proof.
  intros Hb Hx1 Hx2 v Hv Hh Hl. cbn -[hex_byte hex_upper continuation N.add N.mul N.sub is_high is_low].
  change (37 =? 37) with true. cbn [negb].
  rewrite !hex_byte_pct by (cbn; lia). cbn [mbind option_bind].
  rewrite !continuation_pct by done. n_run. fold v. rewrite Hh, Hl. by n_run.
Qed.

Lemma decode_pct4 b0 x1 x2 x3 s : 240 ≤ b0 < 248 → x1 < 64 → x2 < 64 → x3 < 64 →
  let v := (b0 - 240) * 262144 + x1 * 4096 + x2 * 64 + x3 in
  65536 ≤ v ≤ 1114111 →
  decodeURIComponent (pct b0 ++ pct (128 + x1) ++ pct (128 + x2) ++ pct (128 + x3) ++ s)
  = app [55296 + (v - 65536) / 1024; 56320 + (v - 65536) mod 1024] <$> decodeURIComponent s.
Proof.
  intros Hb Hx1 Hx2 Hx3 v Hv.
  change (decodeURIComponent (pct b0 ++ pct (128 + x1) ++ pct (128 + x2) ++ pct (128 + x3) ++ s))
    with (decodeURIComponent ([37; hex_upper (b0 / 16); hex_upper (b0 mod 16)] ++
      [37; hex_upper ((128 + x1) / 16); hex_upper ((128 + x1) mod 16)] ++
      [37; hex_upper ((128 + x2) / 16); hex_upper ((128 + x2) mod 16)] ++
      [37; hex_upper ((128 + x3) / 16); hex_upper ((128 + x3) mod 16)] ++ s)).
  cbn -[hex_byte hex_upper continuation N.add N.mul N.sub N.div N.modulo].
  change (37 =? 37) with true. cbn [negb].
  rewrite !hex_byte_pct by (cbn; lia). cbn [mbind option_bind].
  rewrite !continuation_pct by done. n_run. fold v. by n_run.
Qed.

(** Write [v] and its quotients in base 64. *)
Ltac base64 v :=
  destruct (split64 v) as (?q & ?r & ?Hv & ?Hr & ?Hq & ?Hm);
  match goal with Hq : v / 64 = ?q |- _ =>
    destruct (split64 q) as (?q & ?r & ?Hv & ?Hr & ?Hq & ?Hm);
    match goal with Hq' : q / 64 = ?q' |- _ =>
      destruct (split64 q') as (?q & ?r & ?Hv & ?Hr & ?Hq & ?Hm);
      match goal with Hq'' : q' / 64 = ?q'' |- _ =>
        assert (v / 4096 = q') 
          by (change 4096 with (64 * 64); rewrite <- N.Div0.div_div; congruence);
        assert (v / 262144 = q'') 
          by (change 262144 with (64 * 64 * 64); rewrite <- !N.Div0.div_div; congruence)
      end
    end
  end;
  repeat match goal with H : v / 4096 = _ |- _ => rewrite ?H; clear H
                    | H : v / 262144 = _ |- _ => rewrite ?H; clear H end;
  repeat match goal with H : _ / 64 = _ |- _ => rewrite ?H; clear H
                    | H : _ mod 64 = _ |- _ => rewrite ?H; clear H end.

Lemma decode_utf8 v s : is_high v = false → is_low v = false → v < 65536 →
  decodeURIComponent (pct_utf8 v ++ s) = cons v <$> decodeURIComponent s.
Proof.
  intros Hh Hl Hv. unfold pct_utf8, utf8. base64 v.
  destruct (N.ltb_spec v 128); [|destruct (N.ltb_spec v 2048); [|n_bool]];
    cbn [mbind list_bind]; rewrite <- ?app_assoc; cbn [app].
  - by rewrite decode_pct1.
  - rewrite decode_pct2 by lia. do 2 f_equal. lia.
  - rewrite decode_pct3; [do 2 f_equal; lia|lia|lia|lia|lia|..].
    all: match goal with |- _ ?x = _ => replace x with v by lia end; done.
Qed.

Lemma decode_surrogates c d s : is_high c = true → is_low d = true →
  decodeURIComponent (pct_utf8 ((c - 55296) * 1024 + (d - 56320) + 65536) ++ s)
  = app [c; d] <$> decodeURIComponent s.
Proof.
  unfold is_high, is_low. rewrite !andb_true_iff, !N.leb_le. intros Hc Hd.
  remember ((c - 55296) * 1024 + (d - 56320) + 65536) as v eqn:Hv. unfold pct_utf8, utf8.
  n_bool. base64 v. cbn [mbind list_bind]. rewrite <- !app_assoc. cbn [app].
  rewrite decode_pct4; [|lia..].
  match goal with |- context [?x - 65536] => replace x with v by lia end.
  assert (v - 65536 = (d - 56320) + (c - 55296) * 1024) as -> by lia.
  rewrite N.div_add, N.Div0.mod_add, N.div_small, N.mod_small by lia.
  replace (55296 + (0 + (c - 55296))) with c by lia.
  by replace (56320 + (d - 56320)) with d by lia.
Qed.

(** Strings of 16-bit code units. *)
Definition units (s : jsstr) : Prop := Forall (λ c, c < 65536) s.

Lemma decode_encode s t : units s →
  encodeURIComponent s = Some t → decodeURIComponent t = Some s.
Proof.
  intros Hs. revert t. induction s as [[|c s] IH] using length_ind; intros t.
  { by intros [= <-]. }
  apply Forall_cons in Hs as [Hc Hs]. cbn [encodeURIComponent].
  destruct (uri_unescaped c) eqn:Hu.
  - intros (t' & Ht & ->)%fmap_Some. cbn [decodeURIComponent].
    assert ((c =? 37) = false) as ->.
    { apply N.eqb_neq. intros ->. discriminate. }
    cbn. by rewrite (IH s (le_n _) Hs t' Ht).
  - destruct (is_low c) eqn:Hl; [done|]. destruct (is_high c) eqn:Hh.
    + destruct s as [|d s]; [done|]. destruct (is_low d) eqn:Hd; [|done].
      intros (t' & Ht & ->)%fmap_Some. rewrite decode_surrogates by done.
      apply Forall_cons in Hs as [_ Hs]. rewrite (IH s); [done|cbn; lia|done|done].
    + intros (t' & Ht & ->)%fmap_Some. rewrite decode_utf8 by done.
      by rewrite (IH s (le_n _) Hs t' Ht).
Qed.

(** What encoding writes: unreserved code units and [%]. *)
Definition uri_out (c : N) : bool := uri_unescaped c || (c =? 37).

Lemma pct_out b : b < N.of_nat 256 → forallb uri_out (pct b) = true.
Proof.
  intros Hb. pattern b. revert b Hb. apply below_forall.
  repeat (constructor; [reflexivity|]); constructor.
Qed.

Lemma pct_utf8_out v : v < 2097152 → forallb uri_out (pct_utf8 v) = true.
Proof.
  intros Hv. unfold pct_utf8, utf8. base64 v.
  destruct (N.ltb_spec v 128); [|destruct (N.ltb_spec v 2048); [|destruct (N.ltb_spec v 65536)]];
    cbn [mbind list_bind]; by rewrite ?forallb_app, ?pct_out by (cbn; lia).
Qed.

Lemma encode_out s t : units s → encodeURIComponent s = Some t → forallb uri_out t = true.
Proof.
  intros Hs. revert t. induction s as [[|c s] IH] using length_ind; intros t.
  { by intros [= <-]. }
  apply Forall_cons in Hs as [Hc Hs]. cbn [encodeURIComponent].
  destruct (uri_unescaped c) eqn:Hu.
  - intros (t' & Ht & ->)%fmap_Some. cbn [forallb]. unfold uri_out at 1. rewrite Hu. cbn.
    by apply (IH s (le_n _)).
  - destruct (is_low c) eqn:Hl; [done|]. destruct (is_high c) eqn:Hh.
    + destruct s as [|d s]; [done|]. destruct (is_low d) eqn:Hd; [|done].
      intros (t' & Ht & ->)%fmap_Some. apply Forall_cons in Hs as [Hd' Hs].
      rewrite forallb_app, pct_utf8_out.
      * cbn. apply (IH s); [cbn; lia|done..].
      * unfold is_high, is_low in *. rewrite !andb_true_iff, !N.leb_le in *. lia.
    + intros (t' & Ht & ->)%fmap_Some. rewrite forallb_app, pct_utf8_out by lia. by apply (IH s (le_n _)).
Qed.

(** Encoding succeeds exactly without lone surrogates. *)
Fixpoint well_formed (s : jsstr) : bool :=
  match s with
  | [] => true
  | c :: s =>
      if is_low c then false
      else if is_high c then match s with d :: s => is_low d && well_formed s | [] => false end
      else well_formed s
  end.

Lemma encode_well_formed s : is_Some (encodeURIComponent s) ↔ well_formed s = true.
Proof.
  induction s as [[|c s] IH] using length_ind; [done|]. cbn [encodeURIComponent well_formed].
  destruct (uri_unescaped c) eqn:Hu.
  - assert (is_low c = false ∧ is_high c = false) as [-> ->].
    { assert (c < N.of_nat 128) as Hc.
      { unfold uri_unescaped, is_digit, is_upper, is_lower in Hu.
        rewrite !orb_true_iff, !andb_true_iff, !N.leb_le, bool_decide_eq_true in Hu.
        destruct Hu as [[[Hu|Hu]|Hu]|Hu]; [lia..|].
        clear IH. revert c Hu. apply Forall_forall. js_lit. repeat (constructor; [reflexivity|]); constructor. }
      unfold is_low, is_high. n_bool. done. }
    rewrite fmap_is_Some. apply IH. cbn. lia.
  - destruct (is_low c); [split; [by intros [? ?]|done]|]. destruct (is_high c).
    + destruct s as [|d s]; [split; [by intros [? ?]|done]|].
      destruct (is_low d); [|split; [by intros [? ?]|done]].
      rewrite fmap_is_Some. apply IH. cbn. lia.
    + rewrite fmap_is_Some. apply IH. cbn. lia.
Qed.
