(* ===== verification/Validation.v ===== *)
(** * Form validation of the admin panel (application.js)

    The [validate_*] handlers the views attach to their forms' [onsubmit] and
    the [validates_*] checks they are built from.  The page is the state: the
    global [temp] that collects messages, the implicit globals the functions
    share, and the elements the messages are written to. *)

From Stdlib Require Import ZArith.
From S2P Require Import Prelude JsBase JsNum JsRegex.
#[local] Open Scope Z_scope.
#[local] Open Scope stdpp_scope.

(** ** The page *)

(** [html] holds the [innerHTML] of the elements the document contains;
    [getElementById] is [null] on the others.  [padding] is the inline style
    set through jQuery. *)
Record page := Page {
  temp : jsstr;
  g_val : bool;
  g_count : Z;
  html : gmap jsstr jsstr;
  padding : gmap jsstr jsstr;
}.

Definition set_temp (t : jsstr) (p : page) : page :=
  Page t (g_val p) (g_count p) (html p) (padding p).
Definition set_val (b : bool) (p : page) : page :=
  Page (temp p) b (g_count p) (html p) (padding p).
Definition set_count (n : Z) (p : page) : page :=
  Page (temp p) (g_val p) n (html p) (padding p).
Definition set_html (h : gmap jsstr jsstr) (p : page) : page :=
  Page (temp p) (g_val p) (g_count p) h (padding p).
Definition set_padding (h : gmap jsstr jsstr) (p : page) : page :=
  Page (temp p) (g_val p) (g_count p) (html p) h.

Abbreviation V := (JS page).

(** [temp = temp + msg] *)
Definition complain (msg : jsstr) : V () := js_modify (λ p, set_temp (temp p ++ msg) p).

(** [document.getElementById(id).innerHTML = s] *)
Definition set_inner (id s : jsstr) : V () := λ p,
  match html p !! id with
  | Some _ => (Ret (), set_html (<[id := s]> (html p)) p)
  | None => (Throw ETypeError, p)
  end.
(** [var d = document.getElementById(id); if (d) d.innerHTML = s] *)
Definition set_inner_if (id s : jsstr) : V () := λ p,
  match html p !! id with
  | Some _ => (Ret (), set_html (<[id := s]> (html p)) p)
  | None => (Ret (), p)
  end.
(** [$j("#" + id).css("padding", v)], which does nothing without a match *)
Definition css_padding (id v : jsstr) : V () := js_modify (λ p,
  match html p !! id with
  | Some _ => set_padding (<[id := v]> (padding p)) p
  | None => p
  end).

(** ** The checks

    A field is given by its [value]; [fld_value] is jQuery's trim of it. *)

(** [!(fld_value.length == 0)] *)
Definition nonempty (s : jsstr) : bool := match s with [] => false | _ => true end.

Definition validates_presence (fld message : jsstr) : V bool :=
  let fld_value := trim fld in
  if negb (nonempty fld_value)
  then complain (message ++ js " can't be blank. <br>") ;; mret false
  else mret true.

Definition validates_length (fld : jsstr) (min_length max_length : nat) (message : jsstr) : V bool :=
  let fld_value := trim fld in
  if ((length fld_value <? min_length)%nat || (max_length <? length fld_value)%nat)
     && nonempty fld_value
  then complain (message ++ js "<br>") ;; mret false
  else mret true.

Definition validates_confirmation (fld1 fld2 : jsstr) : V bool :=
  let fld1_value := trim fld1 in
  let fld2_value := trim fld2 in
  if negb (bool_decide (fld1_value = fld2_value)) && nonempty fld1_value && nonempty fld2_value
     && (6 <=? length fld1_value)%nat && (6 <=? length fld2_value)%nat
  then complain (js "doesn't match confirmation. <br>") ;; mret false
  else mret true.

(** [number.indexOf(fld_value[i]) == -1], for [number = "0123456789"] *)
Definition not_a_digit (c : N) : bool := bool_decide (indexOf (js "0123456789") [c] = -1).

(** The [while] loop over the split value; it leaves at the first non-digit. *)
Fixpoint validates_number_loop (fld_value : jsstr) (message : jsstr) : V () :=
  match fld_value with
  | [] => mret ()
  | c :: rest =>
      if not_a_digit c
      then complain (message ++ js " is not a valid number.<br>") ;; js_modify (set_val false)
      else validates_number_loop rest message
  end.

Definition validates_number (fld message : jsstr) : V bool :=
  let fld_value := trim fld in
  js_modify (set_val true) ;;
  validates_number_loop fld_value message ;;
  js_gets g_val.

(** [/^\d+$/] *)
Definition digits_rx : rx := (RBol +++ RPlus (RChar is_digit) +++ REol)%rx.

Definition validates_expires (fld message : jsstr) : V bool :=
  let fld_value := trim fld in
  if bool_decide (toLowerCase fld_value = js "off") || rx_test digits_rx fld_value
     || negb (nonempty fld_value)
  then mret true
  else complain (js " Possible value for expires is no. of seconds or off<br>") ;; mret false.

(** [/^([^@\s]+)@((?:[-a-z0-9]+\.)+[a-z]{2,})$/i] *)
Definition email_local (c : N) : bool := negb ((c =? 64)%N || is_space c).
Definition email_label (c : N) : bool :=
  ci (λ c, (c =? 45)%N || is_lower c || is_digit c) c.
Definition email_tld (c : N) : bool := ci is_lower c.
Definition email_domain_rx : rx :=
  (RPlus (RPlus (RChar email_label) +++ RLit 46) +++
   RChar email_tld +++ RPlus (RChar email_tld))%rx.
Definition email_rx : rx :=
  (RBol +++ (RGroup 1 (RPlus (RChar email_local)) +++ RLit 64 +++ RGroup 2 email_domain_rx)
   +++ REol)%rx.

Definition validates_email (fld message : jsstr) : V bool :=
  let fld := trim fld in
  if nonempty fld && negb (rx_test email_rx fld)
  then complain (message ++ js " is Invalid.<br>") ;; mret false
  else mret true.

(** [fld_value < min_range || fld_value > max_range] converts the string. *)
Definition validates_value (fld : jsstr) (min_range max_range : Z) (message : jsstr) : V bool :=
  let fld_value := trim fld in
  if (num_ltb (to_number fld_value) (int min_range)
      || num_gtb (to_number fld_value) (int max_range))
     && nonempty fld_value
  then complain (message ++ js " should be a number between " ++ num_str min_range ++
                 js " and " ++ num_str max_range ++ js "<br>") ;;
       mret false
  else mret true.

(** [if (c) m], keeping only the effect of the test *)
Definition and_then (c : V bool) (m : V ()) : V () := b ← c; js_when b m.
Definition run_check (c : V bool) : V () := _ ← c; mret ().

(** The loop over the comma-separated recipients. *)
Fixpoint validate_recipients (i : Z) (email_ids : list jsstr) : V () :=
  match email_ids with
  | [] => mret ()
  | e :: rest =>
      run_check (validates_email e (js "Recipients Email Addresse " ++ num_str (i + 1))) ;;
      validate_recipients (i + 1) rest
  end.

(** ** The handlers *)

(** Messages of a form go to its error element; the handler then returns
    whether the message text stayed short.  [limit] is 4 or 0. *)
Definition report_if (div : jsstr) : V () := t ← js_gets temp; set_inner_if div t.
Definition accepted (limit : nat) : V bool :=
  js_gets (λ p, negb (limit <? length (temp p))%nat).

Definition validate_user (user_name user_password : jsstr) : V bool :=
  if negb (nonempty user_name) && negb (nonempty user_password)
  then set_inner (js "error_div") (js "Username/Password can't be blank.") ;; mret false
  else
    rv ← (if negb (nonempty user_name)
          then set_inner (js "error_div") (js "Username can't be blank.") ;; mret false
          else mret true);
    if negb (nonempty user_password)
    then set_inner (js "error_div") (js "Password can't be blank.") ;; mret false
    else mret rv.

Record feedback_form := Feedback {
  feedback_name : jsstr; feedback_email : jsstr; feedback_message : jsstr }.

Definition validate_feedback (frm : feedback_form) : V bool :=
  css_padding (js "error_div") (js "4") ;;
  js_modify (set_temp []) ;;
  run_check (validates_presence (feedback_name frm) (js "Name")) ;;
  and_then (validates_presence (feedback_email frm) (js "Email Address"))
    (run_check (validates_email (feedback_email frm) (js "Email Address"))) ;;
  run_check (validates_presence (feedback_message frm) (js "Message")) ;;
  report_if (js "error_div") ;;
  accepted 4.

Record bug_form := BugForm {
  report_bug_name : jsstr; report_bug_email : jsstr;
  report_bug_subject : jsstr; report_bug_description : jsstr }.

Definition validate_report_bug (frm : bug_form) : V bool :=
  css_padding (js "error_div") (js "4") ;;
  js_modify (set_temp []) ;;
  run_check (validates_presence (report_bug_name frm) (js "Name")) ;;
  and_then (validates_presence (report_bug_email frm) (js "Email Address"))
    (run_check (validates_email (report_bug_email frm) (js "Email Address"))) ;;
  run_check (validates_presence (report_bug_subject frm) (js "Subject")) ;;
  run_check (validates_presence (report_bug_description frm) (js "Description")) ;;
  report_if (js "error_div") ;;
  accepted 4.

Definition validate_expire_by_type (data_ext data_expires : jsstr) : V bool :=
  css_padding (js "error_div_expire_by_type") (js "4") ;;
  js_modify (set_temp []) ;;
  run_check (validates_presence data_ext (js "File Extension")) ;;
  and_then (validates_presence data_expires (js "Expires Time"))
    (run_check (validates_number data_expires (js "Expires Time"))) ;;
  report_if (js "error_div_expire_by_type") ;;
  accepted 4.

Record app_form := AppForm {
  app_name : jsstr; app_resolver : jsstr; app_path : jsstr; app_user : jsstr;
  app_env : jsstr; app_min_worker : jsstr; app_max_worker : jsstr }.

(** The indented bullet every message of this form starts with. *)
Definition bullet : jsstr := js "&nbsp;&nbsp;&nbsp;&nbsp; &#8226 ".
Definition count_up : V () := js_modify (λ p, set_count (g_count p + 1) p).
(** [val = validates_presence(f, m); if (val == false) count++] *)
Definition app_presence (f m : jsstr) : V () :=
  val ← validates_presence f m;
  js_modify (set_val val) ;;
  js_when (negb val) count_up.
(** The nested checks of a worker count. *)
Definition app_worker (f m m_range : jsstr) : V () :=
  present ← validates_presence f m;
  if (present : bool) then
    number ← validates_number f m;
    if (number : bool) then
      in_range ← validates_value f 1 20 m_range;
      js_when (negb in_range) count_up
    else count_up
  else count_up.
(** The banner over the messages, singular or plural. *)
Definition app_banner (count : Z) (noun : jsstr) : jsstr :=
  js "<h2> " ++ num_str count ++ js " " ++ noun ++
  js " prohibited this application specification from being saved</h2> There were problems with following fields".
Definition app_report (noun : jsstr) : V () :=
  p ← js_get;
  set_inner (js "error_div") (app_banner (g_count p) noun ++ js "<br><br>" ++ temp p) ;;
  js_modify (set_val false).

Definition validate_application (frm : app_form) : V bool :=
  css_padding (js "error_div") (js "4") ;;
  js_modify (set_temp []) ;;
  js_modify (set_val true) ;;
  js_modify (set_count 0) ;;
  app_presence (app_name frm) (bullet ++ js "Application Name") ;;
  app_presence (app_resolver frm) (bullet ++ js "Application Resolver") ;;
  app_presence (app_path frm) (bullet ++ js "Application Path") ;;
  app_presence (app_user frm) (bullet ++ js "Application RunAsUser") ;;
  app_presence (app_env frm) (bullet ++ js "Application Environment") ;;
  app_worker (app_min_worker frm) (bullet ++ js "Minimum Number of Workers")
                                  (bullet ++ js "Minimum Number of workers") ;;
  app_worker (app_max_worker frm) (bullet ++ js "Maximum Number of Workers")
                                  (bullet ++ js "Maximum Number of workers") ;;
  many ← js_gets (λ p, 1 <? g_count p);
  js_when many (app_report (js "errors")) ;;
  one ← js_gets (λ p, g_count p =? 1);
  js_when one (app_report (js "error")) ;;
  js_gets g_val.

Definition validate_password (old_pass new_pass conf_pass : jsstr) : V bool :=
  css_padding (js "error_div") (js "4") ;;
  js_modify (set_temp []) ;;
  run_check (validates_presence old_pass (js "Old password")) ;;
  and_then (validates_presence new_pass (js "New password"))
    (run_check (validates_length new_pass 6 20
       (js "New password is too short (minimum is 6 characters)"))) ;;
  and_then (validates_presence conf_pass (js "Confirm password"))
    (run_check (validates_length conf_pass 6 20
       (js "Confirm password is too short (minimum is 6 characters)"))) ;;
  run_check (validates_confirmation new_pass conf_pass) ;;
  t ← js_gets temp;
  if nonempty t then set_inner (js "error_div") t ;; mret false else mret true.

Definition validate_headers_expire (data_value div_id old_data_value : jsstr) : V bool :=
  js_modify (set_temp []) ;;
  and_then (validates_presence data_value (js "Expires"))
    (run_check (validates_expires data_value (js "Expires"))) ;;
  t ← js_gets temp;
  if nonempty t
  then set_inner div_id (old_data_value ++ js "<span style='color:red;display:inline;'> "
                         ++ t ++ js "</span>") ;; mret false
  else mret true.

Record smtp_form := SmtpForm {
  smtp_address : jsstr; smtp_domain : jsstr; smtp_user_name : jsstr; smtp_from : jsstr;
  smtp_port : jsstr; smtp_authentication : jsstr; smtp_password : jsstr;
  smtp_recipients : jsstr }.

Definition validate_smtp (frm : smtp_form) : V bool :=
  css_padding (js "error_div_smtp_form") (js "4") ;;
  js_modify (set_temp []) ;;
  run_check (validates_presence (smtp_address frm) (js "SMTP Server")) ;;
  run_check (validates_presence (smtp_domain frm) (js "SMTP Domain")) ;;
  run_check (validates_presence (smtp_user_name frm) (js "SMTP Username")) ;;
  and_then (validates_presence (smtp_from frm) (js "Senders Email Address"))
    (run_check (validates_email (smtp_from frm) (js "Senders Email Address"))) ;;
  and_then (validates_presence (smtp_port frm) (js "SMTP Port"))
    (and_then (validates_number (smtp_port frm) (js "SMTP Port"))
      (run_check (validates_value (smtp_port frm) 1 65535 (js "SMTP Port")))) ;;
  run_check (validates_presence (smtp_authentication frm) (js "SMTP Authentication")) ;;
  run_check (validates_presence (smtp_password frm) (js "SMTP Password")) ;;
  and_then (validates_presence (smtp_recipients frm) (js "Recipients Email Addresses"))
    (validate_recipients 0 (split (smtp_recipients frm) (js ","))) ;;
  report_if (js "error_div_smtp_form") ;;
  accepted 0.

Definition validate_sendmail (location from recipients : jsstr) : V bool :=
  css_padding (js "error_div_sendmail_form") (js "4") ;;
  js_modify (set_temp []) ;;
  run_check (validates_presence location (js "Sendmail Location")) ;;
  and_then (validates_presence from (js "Sender's Email Address"))
    (run_check (validates_email from (js "Sender's Email Address"))) ;;
  and_then (validates_presence recipients (js "Recipient Email Addresses"))
    (validate_recipients 0 (split recipients (js ","))) ;;
  report_if (js "error_div_sendmail_form") ;;
  accepted 0.

(** A number field of the server settings. *)
Definition server_number (data_value label : jsstr) (hi : Z) : V () :=
  and_then (validates_presence data_value label)
    (and_then (validates_number data_value label)
      (run_check (validates_value data_value 1 hi label))).

Definition validate_server_specification (data_value div_id old_data_value : jsstr) : V bool :=
  js_modify (set_temp []) ;;
  js_when (negb (bool_decide (div_id = js "log_div")))
    (if decide (div_id = js "min_pro_div") then server_number data_value (js "Minimum Workers") 20
     else if decide (div_id = js "max_pro_div") then server_number data_value (js "Maximum Workers") 20
     else if decide (div_id = js "port_div") then server_number data_value (js "Port Number") 65535
     else if decide (div_id = js "ssl_port_div") then server_number data_value (js "SSL Port Number") 65535
     else if decide (div_id = js "certificate_div")
       then run_check (validates_presence data_value (js "Certificate Path"))
     else if decide (div_id = js "key_div")
       then run_check (validates_presence data_value (js "Key Path"))
     else mret ()) ;;
  t ← js_gets temp;
  if nonempty t
  then set_inner div_id (old_data_value ++ js " <span style='color:red;display:inline'>"
                         ++ t ++ js "</span>") ;; mret false
  else mret true.

Definition validate_ssl (ssl_port ssl_certificate_path ssl_key_path : jsstr) : V bool :=
  js_modify (set_temp []) ;;
  and_then (validates_presence ssl_port (js "SMTP Port"))
    (and_then (validates_number ssl_port (js "SMTP Port"))
      (run_check (validates_value ssl_port 1 65535 (js "SMTP Port")))) ;;
  run_check (validates_presence ssl_certificate_path (js "SSL Certificate Path")) ;;
  run_check (validates_presence ssl_key_path (js "SSL Key Path")) ;;
  report_if (js "error_div_ssl_form") ;;
  accepted 0.

(** * Specifications *)

(** ** What each check decides *)
Definition present (f : jsstr) : bool := nonempty (trim f).
Definition is_number (f : jsstr) : bool := forallb is_digit (trim f).
Definition decimal (f : jsstr) : Z := digits_val (trim f).
Definition is_email (f : jsstr) : bool := negb (nonempty (trim f)) || rx_test email_rx (trim f).

(** The message of a failed check, nothing for a passed one. *)
Definition err (ok : bool) (msg : jsstr) : list jsstr := if ok then [] else [msg].
Definition presence_err (f m : jsstr) : list jsstr := err (present f) (m ++ js " can't be blank. <br>").
Definition number_err (f m : jsstr) : list jsstr := err (is_number f) (m ++ js " is not a valid number.<br>").
Definition in_range (f : jsstr) (lo hi : Z) : bool := (lo <=? decimal f) && (decimal f <=? hi).
Definition range_msg (lo hi : Z) (m : jsstr) : jsstr :=
  m ++ js " should be a number between " ++ num_str lo ++ js " and " ++ num_str hi ++ js "<br>".
Definition range_err (f : jsstr) (lo hi : Z) (m : jsstr) : list jsstr :=
  err (in_range f lo hi) (range_msg lo hi m).
Definition email_err (f m : jsstr) : list jsstr := err (is_email f) (m ++ js " is Invalid.<br>").
(** The second list only counts once the first is empty. *)
Definition first_of (a b : list jsstr) : list jsstr := match a with [] => b | _ => a end.
(** Presence, then digits, then range: the number fields of every form. *)
Definition number_field (f : jsstr) (lo hi : Z) (m m_range : jsstr) : list jsstr :=
  first_of (presence_err f m) (first_of (number_err f m) (range_err f lo hi m_range)).
Definition email_field (f m : jsstr) : list jsstr :=
  first_of (presence_err f m) (email_err f m).

(** ** Running checks

    [adds msgs p p']: [p'] is [p] with the messages appended; only the
    scratch global [val] may differ otherwise. *)
Definition adds (msgs : list jsstr) (p p' : page) : Prop :=
  temp p' = temp p ++ concat msgs ∧ g_count p' = g_count p ∧
  html p' = html p ∧ padding p' = padding p.
Definition emits (c : V bool) (msgs : list jsstr) : Prop := ∀ p,
  ∃ p', c p = (Ret (bool_decide (msgs = [])), p') ∧ adds msgs p p'.
Definition emits_u (m : V ()) (msgs : list jsstr) : Prop := ∀ p,
  ∃ p', m p = (Ret (), p') ∧ adds msgs p p'.

Lemma adds_trans a b p q r : adds a p q → adds b q r → adds (a ++ b) p r.
Proof.
  intros (Ht & Hc & Hh & Hp) (Ht' & Hc' & Hh' & Hp'). unfold adds.
  rewrite concat_app, app_assoc, <- Ht. repeat split; congruence.
Qed.
Lemma adds_nil p : adds [] p p.
Proof. unfold adds; cbn. by rewrite app_nil_r. Qed.
Lemma adds_val b p : adds [] p (set_val b p).
Proof. unfold adds; cbn. by rewrite app_nil_r. Qed.
Lemma adds_one m p : adds [m] p (set_temp (temp p ++ m) p).
Proof. unfold adds; cbn. by rewrite app_nil_r. Qed.
Create HintDb emits.
#[local] Hint Resolve adds_nil adds_val adds_one : emits.

Lemma emits_u_run c a : emits c a → emits_u (run_check c) a.
Proof.
  intros H p. destruct (H p) as (p' & Hc & Ha). exists p'. split; [|done].
  unfold run_check, mbind, js_mbind. by rewrite Hc.
Qed.
Lemma emits_u_and_then c m a b : emits c a → (a = [] → emits_u m b) →
  emits_u (and_then c m) (first_of a b).
Proof.
  intros H Hm p. destruct (H p) as (p' & Hc & Ha).
  unfold and_then, mbind, js_mbind. rewrite Hc. destruct a as [|x a]; cbn.
  - destruct (Hm eq_refl p') as (p'' & Hm' & Hb). exists p''. split; [done|].
    by apply (adds_trans [] b p p').
  - by exists p'.
Qed.
Lemma emits_u_seq m1 m2 a b : emits_u m1 a → emits_u m2 b → emits_u (m1 ;; m2) (a ++ b).
Proof.
  intros H1 H2 p. destruct (H1 p) as (p1 & E1 & A1). destruct (H2 p1) as (p2 & E2 & A2).
  exists p2. unfold mbind, js_mbind. rewrite E1. eauto using adds_trans.
Qed.
(** Step over an emitting statement of a sequence. *)
Lemma emits_step {A} m a (k : V A) p : emits_u m a →
  ∃ p', adds a p p' ∧ (m ;; k) p = k p'.
Proof.
  intros H. destruct (H p) as (p' & E & Ha). exists p'. split; [done|].
  unfold mbind, js_mbind. by rewrite E.
Qed.
#[local] Hint Resolve emits_u_run emits_u_and_then : emits.

(** ** The checks *)

Lemma not_a_digit_spec c : not_a_digit c = negb (is_digit c).
Proof.
  unfold is_digit. destruct (N.leb_spec 48 c), (N.leb_spec c 57);
    [|unfold not_a_digit, indexOf; js_lit; cbn;
      repeat match goal with |- context [N.eqb c ?d] =>
        rewrite (proj2 (N.eqb_neq c d)) by lia end; reflexivity ..].
  assert (c = 48 ∨ c = 49 ∨ c = 50 ∨ c = 51 ∨ c = 52 ∨ c = 53 ∨ c = 54 ∨ c = 55 ∨ c = 56 ∨ c = 57)%N
    by lia. destruct_or!; subst; reflexivity.
Qed.

Lemma emits_presence f m : emits (validates_presence f m) (presence_err f m).
Proof.
  intros p. unfold validates_presence, presence_err, present, err.
  destruct (nonempty (trim f)); eexists; (split; [reflexivity|]); auto with emits.
Qed.

Lemma emits_email f m : emits (validates_email f m) (email_err f m).
Proof.
  intros p. unfold validates_email, email_err, is_email, err.
  destruct (nonempty (trim f)), (rx_test email_rx (trim f)); cbn [negb andb orb]; eexists;
    (split; [reflexivity|]); auto with emits.
Qed.

(** [validates_number] also leaves its verdict in the global [val]. *)
Lemma validates_number_eq f m p : ∃ p', validates_number f m p = (Ret (is_number f), p') ∧
  adds (number_err f m) p p' ∧ g_val p' = is_number f.
Proof.
  unfold validates_number, number_err, is_number. generalize (trim f). intros s.
  unfold mbind, js_mbind, js_modify, js_gets at 1.
  cut (∃ p', validates_number_loop s m (set_val true p) = (Ret (), p') ∧
             adds (err (forallb is_digit s) (m ++ js " is not a valid number.<br>")) p p' ∧
             g_val p' = forallb is_digit s).
  { intros (p' & E & Ha & Hv). exists p'. rewrite E, Hv. auto. }
  induction s as [|c s IH]; cbn [validates_number_loop forallb].
  - eexists; split; [reflexivity|]. split; [|done]. apply adds_val.
  - rewrite not_a_digit_spec. destruct (is_digit c); cbn [negb andb]; [apply IH|].
    eexists; split; [reflexivity|]. split; [|done]. by unfold adds; cbn; rewrite app_nil_r.
Qed.

Lemma emits_number f m : emits (validates_number f m) (number_err f m).
Proof.
  intros p. destruct (validates_number_eq f m p) as (p' & E & Ha & _). exists p'.
  split; [|done]. rewrite E. unfold number_err. by destruct (is_number f).
Qed.

Lemma presence_err_nil f m : presence_err f m = [] ↔ trim f ≠ [].
Proof. unfold presence_err, present, err. by destruct (trim f). Qed.

Lemma number_err_nil f m : number_err f m = [] ↔ Forall (λ c, is_digit c = true) (trim f).
Proof.
  unfold number_err, err, is_number. rewrite <- forallb_true_iff.
  by destruct (forallb is_digit (trim f)).
Qed.

(** On a non-empty digit string, the string-to-number comparison is the
    comparison of the decimal value, of whatever length. *)
Lemma validates_value_eq f lo hi m p :
  trim f ≠ [] → Forall (λ c, is_digit c = true) (trim f) →
  0 ≤ lo < 2 ^ 53 → 0 ≤ hi < 2 ^ 53 →
  validates_value f lo hi m p =
  (Ret (in_range f lo hi),
   if in_range f lo hi then p else set_temp (temp p ++ range_msg lo hi m) p).
Proof.
  intros Hne Hd Hlo Hhi. unfold validates_value, in_range, decimal.
  rewrite to_number_digits by done.
  pose proof (digits_val_nonneg _ Hd) as Hv.
  destruct (num_of_Z_compare _ lo Hv Hlo) as [-> _].
  destruct (num_of_Z_compare _ hi Hv Hhi) as [_ ->].
  rewrite !Z.ltb_antisym, <- negb_andb.
  destruct (trim f); [done|]. by destruct (lo <=? _), (_ <=? hi).
Qed.

Lemma emits_value f lo hi m :
  trim f ≠ [] → Forall (λ c, is_digit c = true) (trim f) →
  0 ≤ lo < 2 ^ 53 → 0 ≤ hi < 2 ^ 53 →
  emits (validates_value f lo hi m) (range_err f lo hi m).
Proof.
  intros Hne Hd Hlo Hhi p. rewrite validates_value_eq by done. unfold range_err, err.
  destruct (in_range f lo hi); eexists; (split; [reflexivity|]); auto with emits.
Qed.

Lemma emits_number_field f lo hi m m' :
  0 ≤ lo < 2 ^ 53 → 0 ≤ hi < 2 ^ 53 →
  emits_u (and_then (validates_presence f m)
            (and_then (validates_number f m) (run_check (validates_value f lo hi m'))))
          (number_field f lo hi m m').
Proof.
  intros Hlo Hhi. apply emits_u_and_then; [apply emits_presence|].
  intros Hp%presence_err_nil. apply emits_u_and_then; [apply emits_number|].
  intros Hn%number_err_nil. by apply emits_u_run, emits_value.
Qed.

Lemma emits_email_field f m :
  emits_u (and_then (validates_presence f m) (run_check (validates_email f m))) (email_field f m).
Proof. apply emits_u_and_then; [apply emits_presence|]. intros _. apply emits_u_run, emits_email. Qed.

Lemma emits_u_presence f m : emits_u (run_check (validates_presence f m)) (presence_err f m).
Proof. apply emits_u_run, emits_presence. Qed.
#[local] Hint Resolve emits_u_presence emits_email_field emits_presence emits_email emits_number : emits.

(** ** The application form *)

(** What the form is told, in order. *)
Definition application_errors (frm : app_form) : list jsstr :=
  presence_err (app_name frm) (bullet ++ js "Application Name") ++
  presence_err (app_resolver frm) (bullet ++ js "Application Resolver") ++
  presence_err (app_path frm) (bullet ++ js "Application Path") ++
  presence_err (app_user frm) (bullet ++ js "Application RunAsUser") ++
  presence_err (app_env frm) (bullet ++ js "Application Environment") ++
  number_field (app_min_worker frm) 1 20 (bullet ++ js "Minimum Number of Workers")
    (bullet ++ js "Minimum Number of workers") ++
  number_field (app_max_worker frm) 1 20 (bullet ++ js "Maximum Number of Workers")
    (bullet ++ js "Maximum Number of workers").

(** While the checks run: the messages so far, and as many counted. *)
Definition tallied (errs : list jsstr) (p0 p : page) : Prop :=
  temp p = concat errs ∧ g_count p = Z.of_nat (length errs) ∧
  html p = html p0 ∧ padding p = padding p0.
Definition tallies (m : V ()) (e : list jsstr) : Prop := ∀ errs p0 p,
  tallied errs p0 p → ∃ p', m p = (Ret (), p') ∧ tallied (errs ++ e) p0 p'.

Lemma tallied_adds e errs p0 p p' p'' : tallied errs p0 p → adds e p p' →
  temp p'' = temp p' → html p'' = html p' → padding p'' = padding p' →
  g_count p'' = g_count p' + Z.of_nat (length e) → tallied (errs ++ e) p0 p''.
Proof.
  intros (Ht & Hc & Hh & Hp) (Ht' & Hc' & Hh' & Hp') E1 E2 E3 E4. unfold tallied.
  rewrite concat_app, length_app, <- Ht. repeat split; [congruence|lia|congruence..].
Qed.

Lemma app_presence_tallies f m : tallies (app_presence f m) (presence_err f m).
Proof.
  intros errs p0 p Ht. destruct (emits_presence f m p) as (p1 & E & Ha).
  unfold app_presence. rewrite (js_bind_Ret _ _ _ _ _ E).
  unfold presence_err, err in *. destruct (present f); eexists; (split; [reflexivity|]);
    eapply tallied_adds; try eassumption; cbn; (reflexivity || lia).
Qed.

Lemma app_worker_tallies f m m' errs p0 p : tallied errs p0 p →
  ∃ p', app_worker f m m' p = (Ret (), p') ∧
    tallied (errs ++ number_field f 1 20 m m') p0 p' ∧
    (number_field f 1 20 m m' = [] → g_val p' = true).
Proof.
  intros Ht. unfold app_worker, number_field.
  destruct (emits_presence f m p) as (p1 & E1 & A1). rewrite (js_bind_Ret _ _ _ _ _ E1).
  pose proof (presence_err_nil f m) as Hp. case_bool_decide as Hnil.
  2: { unfold presence_err, err in *. destruct (present f); [done|].
       eexists; split; [reflexivity|]. split; [|done].
       eapply tallied_adds; try eassumption; reflexivity. }
  destruct (validates_number_eq f m p1) as (p2 & E2 & A2 & Hv). rewrite (js_bind_Ret _ _ _ _ _ E2).
  pose proof (number_err_nil f m) as Hn. rewrite Hnil in *. cbn [first_of].
  pose proof (adds_trans _ _ _ _ _ A1 A2) as A12. cbn in A12.
  unfold number_err, err in A12, Hn |- *. destruct (is_number f); cbn [first_of].
  2: { eexists; split; [reflexivity|]. split; [|done].
       eapply tallied_adds; try eassumption; reflexivity. }
  rewrite (js_bind_Ret _ _ _ _ _
    (validates_value_eq f 1 20 m' p2 (proj1 Hp eq_refl) (proj1 Hn eq_refl) ltac:(lia) ltac:(lia))).
  unfold range_err, err. destruct (in_range f 1 20); cbn [js_when negb];
    eexists; (split; [reflexivity|]); (split; [|done]).
  - eapply tallied_adds; try eassumption; cbn; (reflexivity || lia).
  - eapply tallied_adds; [exact Ht|exact (adds_trans _ _ _ _ _ A12 (adds_one _ _))|reflexivity..].
Qed.

Lemma tallies_step {A} m e (k : V A) errs p0 p : tallies m e → tallied errs p0 p →
  ∃ p', tallied (errs ++ e) p0 p' ∧ (m ;; k) p = k p'.
Proof.
  intros H Ht. destruct (H _ _ _ Ht) as (p' & E & Ht'). exists p'.
  split; [done|]. by rewrite (js_bind_Ret _ _ _ _ _ E).
Qed.

(** Take one [app_presence] statement. *)
Ltac tally Ht :=
  match type of Ht with tallied ?e ?p0 ?p =>
    match goal with |- context [(app_presence ?f ?m ;; ?k) p] =>
      let p' := fresh "p" in let Ht' := fresh "Ht" in let E := fresh "E" in
      destruct (tallies_step _ _ k _ _ _ (app_presence_tallies f m) Ht) as (p' & Ht' & E);
      rewrite E; clear E Ht; rename Ht' into Ht
    end
  end.

Definition application_noun (errs : list jsstr) : jsstr :=
  match errs with [_] => js "error" | _ => js "errors" end.
Definition application_notice (errs : list jsstr) : jsstr :=
  app_banner (Z.of_nat (length errs)) (application_noun errs) ++ js "<br><br>" ++ concat errs.

(** The handler up to the reporting, on any page. *)
Lemma validate_application_checks frm p : ∃ q p0,
  validate_application frm p =
    (many ← js_gets (λ p, 1 <? g_count p);
     js_when many (app_report (js "errors")) ;;
     one ← js_gets (λ p, g_count p =? 1);
     js_when one (app_report (js "error")) ;;
     js_gets g_val) q ∧
  tallied (application_errors frm) p0 q ∧ html p0 = html p ∧
  (application_errors frm = [] → g_val q = true).
Proof.
  unfold validate_application, css_padding. rewrite !js_bind_modify.
  match goal with |- context [(app_presence _ _ ;; _) ?q] => set (q0 := q) end.
  assert (html q0 = html p) as Hh by (cbn; by case_match).
  assert (tallied [] q0 q0) as Ht by done.
  do 5 tally Ht.
  destruct (app_worker_tallies (app_min_worker frm) (bullet ++ js "Minimum Number of Workers")
    (bullet ++ js "Minimum Number of workers") _ _ _ Ht) as (p6 & E6 & Ht6 & _).
  rewrite (js_bind_Ret _ _ _ _ _ E6).
  destruct (app_worker_tallies (app_max_worker frm) (bullet ++ js "Maximum Number of Workers")
    (bullet ++ js "Maximum Number of workers") _ _ _ Ht6) as (p7 & E7 & Ht7 & Hv).
  rewrite (js_bind_Ret _ _ _ _ _ E7). exists p7, q0.
  split; [done|]. rewrite <- !app_assoc in Ht7. cbn [app] in Ht7. split; [exact Ht7|].
  split; [done|]. intros Hnil. apply Hv. unfold application_errors in Hnil.
  repeat match goal with H : _ ++ _ = [] |- _ => apply app_nil in H as [_ H] end. done.
Qed.

(** C1. The application form is accepted exactly when it has no error; the
    messages are collected in field order, and on failure the error element
    is told their number and the messages, the rest of the page unchanged. *)
Theorem validate_application_spec frm p old :
  html p !! js "error_div" = Some old →
  ∃ p', validate_application frm p = (Ret (bool_decide (application_errors frm = [])), p') ∧
    temp p' = concat (application_errors frm) ∧
    html p' = match application_errors frm with
              | [] => html p
              | errs => <[js "error_div" := application_notice errs]> (html p)
              end.
Proof.
  intros Hdiv. destruct (validate_application_checks frm p) as (q & p0 & -> & Ht & Hh & Hv).
  destruct Ht as (Htemp & Hcount & Hhtml & _). rewrite <- Hhtml in Hh. rewrite <- Hh in Hdiv |- *.
  rewrite js_bind_gets.
  destruct (application_errors frm) as [|e1 [|e2 errs]]; cbn [length] in Hcount.
  - rewrite (proj2 (Z.ltb_ge 1 _)) by lia. cbn [js_when]. rewrite js_bind_ret, js_bind_gets.
    rewrite (proj2 (Z.eqb_neq _ 1)) by lia. cbn [js_when]. rewrite js_bind_ret.
    exists q. split; [|done]. unfold js_gets. by rewrite Hv.
  - rewrite (proj2 (Z.ltb_ge 1 _)) by lia. cbn [js_when]. rewrite js_bind_ret, js_bind_gets.
    rewrite (proj2 (Z.eqb_eq _ 1)) by lia. cbn [js_when].
    unfold app_report, set_inner. js_unfold. rewrite Hdiv. eexists; split; [reflexivity|].
    split; [exact Htemp|]. cbn. by rewrite Hcount, Htemp.
  - rewrite (proj2 (Z.ltb_lt 1 _)) by lia. cbn [js_when].
    unfold app_report, set_inner. js_unfold. rewrite Hdiv.
    cbn [g_count set_val set_html temp html]. rewrite (proj2 (Z.eqb_neq _ 1)) by lia.
    eexists; split; [reflexivity|]. split; [exact Htemp|]. cbn.
    unfold application_notice. cbn [length]. by rewrite Hcount, Htemp.
Qed.

(** A worker count the form takes: a decimal numeral of a value in 1..20,
    spaces around it aside. *)
Definition worker_ok (f : jsstr) : Prop :=
  trim f ≠ [] ∧ Forall (λ c, is_digit c = true) (trim f) ∧ 1 ≤ decimal f ≤ 20.

Lemma number_field_nil f lo hi m m' : number_field f lo hi m m' = [] ↔
  trim f ≠ [] ∧ Forall (λ c, is_digit c = true) (trim f) ∧ lo ≤ decimal f ≤ hi.
Proof.
  unfold number_field. pose proof (presence_err_nil f m) as Hp. pose proof (number_err_nil f m) as Hn.
  destruct (presence_err f m) as [|x l]; cbn [first_of]; [|split; [done|]; intros (?&_); by apply Hp].
  destruct (number_err f m) as [|x l]; cbn [first_of]; [|split; [done|]; intros (_&?&_); by apply Hn].
  rewrite <- Hp, <- Hn. unfold range_err, err, in_range.
  destruct (Z.leb_spec lo (decimal f)), (Z.leb_spec (decimal f) hi); cbn; split;
    try done; try (intros (_&_&?); lia); auto with lia.
Qed.

(** What the accepted application forms are: the five texts are not
    blank and both worker counts are decimal numerals between 1 and 20
    (nothing relates the minimum to the maximum). *)
Theorem application_errors_nil frm : application_errors frm = [] ↔
  Forall (λ f, trim f ≠ []) [app_name frm; app_resolver frm; app_path frm; app_user frm; app_env frm] ∧
  worker_ok (app_min_worker frm) ∧ worker_ok (app_max_worker frm).
Proof.
  unfold application_errors. rewrite !app_nil, !presence_err_nil, !number_field_nil.
  rewrite !Forall_cons, Forall_nil. unfold worker_ok. tauto.
Qed.

(** ** Forms that report to an element and return *)

Fixpoint recipients_errs (i : Z) (ids : list jsstr) : list jsstr :=
  match ids with
  | [] => []
  | e :: rest => email_err e (js "Recipients Email Addresse " ++ num_str (i + 1)) ++
                 recipients_errs (i + 1) rest
  end.

Lemma emits_recipients i ids : emits_u (validate_recipients i ids) (recipients_errs i ids).
Proof.
  revert i. induction ids as [|e ids IH]; intros i; cbn.
  - intros p. exists p. split; [done|]. apply adds_nil.
  - apply emits_u_seq; [apply emits_u_run, emits_email|apply IH].
Qed.

Definition length_err (f : jsstr) (lo hi : nat) (m : jsstr) : list jsstr :=
  err (negb (nonempty (trim f)) || ((lo <=? length (trim f))%nat && (length (trim f) <=? hi)%nat))
      (m ++ js "<br>").
Definition password_mismatch (f1 f2 : jsstr) : bool :=
  negb (bool_decide (trim f1 = trim f2)) && nonempty (trim f1) && nonempty (trim f2)
  && (6 <=? length (trim f1))%nat && (6 <=? length (trim f2))%nat.
Definition confirmation_err (f1 f2 : jsstr) : list jsstr :=
  err (negb (password_mismatch f1 f2)) (js "doesn't match confirmation. <br>").

Lemma emits_length f lo hi m : emits (validates_length f lo hi m) (length_err f lo hi m).
Proof.
  intros p. unfold validates_length, length_err, err. rewrite !Nat.ltb_antisym, <- negb_andb.
  destruct (nonempty (trim f)), (lo <=? _)%nat, (_ <=? hi)%nat; cbn [negb andb orb]; eexists;
    (split; [reflexivity|]); auto with emits.
Qed.

Lemma emits_confirmation f1 f2 : emits (validates_confirmation f1 f2) (confirmation_err f1 f2).
Proof.
  intros p. unfold validates_confirmation, confirmation_err, err.
  change (negb (bool_decide (trim f1 = trim f2)) && nonempty (trim f1) && nonempty (trim f2)
    && (6 <=? length (trim f1))%nat && (6 <=? length (trim f2))%nat) with (password_mismatch f1 f2).
  destruct (password_mismatch f1 f2); cbn [negb]; eexists; (split; [reflexivity|]); auto with emits.
Qed.
#[local] Hint Resolve emits_recipients emits_length emits_confirmation emits_number_field : emits.
#[local] Hint Extern 1 (_ ≤ _ < _) => lia : emits.

Create HintDb long.

(** Every message is longer than the limit the handlers compare with. *)
Abbreviation long := (Forall (λ m : jsstr, (4 < length m)%nat)).

Lemma long_err ok m tail : (4 < length (js tail))%nat → long (err ok (m ++ js tail)).
Proof. intros H. destruct ok; [constructor|]. constructor; [|done]. rewrite length_app. lia. Qed.
Lemma long_presence f m : long (presence_err f m).
Proof. apply long_err, Nat.ltb_lt. reflexivity. Qed.
Lemma long_number f m : long (number_err f m).
Proof. apply long_err, Nat.ltb_lt. reflexivity. Qed.
Lemma long_email f m : long (email_err f m).
Proof. apply long_err, Nat.ltb_lt. reflexivity. Qed.
Lemma long_range f lo hi m : long (range_err f lo hi m).
Proof.
  unfold range_err, range_msg, err. case_match; constructor; [|done].
  rewrite !length_app. change (length (js " should be a number between ")) with 28%nat. lia.
Qed.
Lemma long_first a b : long a → long b → long (first_of a b).
Proof. by destruct a. Qed.
Lemma long_recipients i ids : long (recipients_errs i ids).
Proof.
  revert i. induction ids as [|e ids IH]; intros i; cbn; [constructor|].
  apply Forall_app; auto using long_email.
Qed.
#[local] Hint Resolve long_presence long_number long_email long_range long_first long_recipients : long.
#[local] Hint Extern 1 (long (_ ++ _)) => apply Forall_app; split : long.
#[local] Hint Unfold number_field email_field : long.

Lemma long_concat limit errs : long errs → (limit ≤ 4)%nat →
  negb (limit <? length (concat errs))%nat = bool_decide (errs = []).
Proof.
  intros H Hl. destruct H as [|m errs Hm _]; cbn; [done|].
  rewrite length_app, (proj2 (Nat.ltb_lt _ _)) by lia. done.
Qed.

(** What such a form does: the element, when the page has it, is told the
    messages, and the form is accepted when there are none. *)
Definition reports (div : jsstr) (errs : list jsstr) (m : V bool) : Prop := ∀ p,
  ∃ p', m p = (Ret (bool_decide (errs = [])), p') ∧ temp p' = concat errs ∧
    html p' = match html p !! div with
              | Some _ => <[div := concat errs]> (html p)
              | None => html p
              end.

(** A form being checked: the messages so far, the elements untouched. *)
Definition collected (errs : list jsstr) (h : gmap jsstr jsstr) (p : page) : Prop :=
  temp p = concat errs ∧ html p = h.

Lemma collected_step {A} m a (k : V A) errs h p : collected errs h p → emits_u m a →
  ∃ p', collected (errs ++ a) h p' ∧ (m ;; k) p = k p'.
Proof.
  intros [Ht Hh] Hm. destruct (emits_step m a k p Hm) as (p' & (Ht' & _ & Hh' & _) & E).
  exists p'. split; [|done]. unfold collected. rewrite concat_app, <- Ht. split; congruence.
Qed.

Lemma report_accept div limit errs h p : collected errs h p → long errs → (limit ≤ 4)%nat →
  ∃ p', (report_if div ;; accepted limit) p = (Ret (bool_decide (errs = [])), p') ∧
    temp p' = concat errs ∧
    html p' = match h !! div with Some _ => <[div := concat errs]> h | None => h end.
Proof.
  intros [Ht Hh] Hlong Hl. unfold report_if, set_inner_if, accepted. js_unfold.
  rewrite <- (long_concat limit errs Hlong Hl), <- Ht, <- Hh.
  destruct (html p !! div); eexists; (split; [reflexivity|]); auto.
Qed.

(** Run the statements of a form body, then its report. *)
Ltac collect :=
  repeat match goal with
  | H : collected ?e ?h ?p |- context [@mbind (JS page) _ unit _ (λ _, ?k) ?m ?p] =>
      let p' := fresh "p" in let H' := fresh "H" in let E := fresh "E" in
      let Hm := fresh "Hm" in
      eassert (emits_u m _) as Hm by (eauto with emits);
      destruct (collected_step m _ k e h p H Hm) as (p' & H' & E);
      rewrite E; clear E H Hm
  end.

(** ** The report of each form *)

Definition smtp_errors (frm : smtp_form) : list jsstr :=
  presence_err (smtp_address frm) (js "SMTP Server") ++
  presence_err (smtp_domain frm) (js "SMTP Domain") ++
  presence_err (smtp_user_name frm) (js "SMTP Username") ++
  email_field (smtp_from frm) (js "Senders Email Address") ++
  number_field (smtp_port frm) 1 65535 (js "SMTP Port") (js "SMTP Port") ++
  presence_err (smtp_authentication frm) (js "SMTP Authentication") ++
  presence_err (smtp_password frm) (js "SMTP Password") ++
  first_of (presence_err (smtp_recipients frm) (js "Recipients Email Addresses"))
    (recipients_errs 0 (split (smtp_recipients frm) (js ","))).

(** The proof of every such report. *)
Ltac solve_reports errs limit :=
  intros p; first [unfold css_padding|idtac]; rewrite ?js_bind_modify;
  match goal with |- context [@mbind _ _ unit _ _ _ ?q] =>
    let q0 := fresh "q" in let H := fresh "H" in
    set (q0 := q); assert (collected [] (html p) q0) as H by (split; [done|cbn; by repeat case_match])
  end;
  collect;
  match goal with H : collected ?e _ _ |- _ =>
    replace errs with e by (rewrite <- !app_assoc; reflexivity);
    apply (report_accept _ limit _ _ _ H); [|lia]
  end;
  repeat apply Forall_app_2; unfold email_field, number_field; auto with long.

(** The SMTP settings are accepted exactly when they have no error, and
    the error element always ends up with the messages, in field order. *)
Theorem validate_smtp_spec frm :
  reports (js "error_div_smtp_form") (smtp_errors frm) (validate_smtp frm).
Proof. unfold validate_smtp. solve_reports (smtp_errors frm) 0%nat. Qed.

Definition feedback_errors (frm : feedback_form) : list jsstr :=
  presence_err (feedback_name frm) (js "Name") ++
  email_field (feedback_email frm) (js "Email Address") ++
  presence_err (feedback_message frm) (js "Message").
Lemma validate_feedback_spec frm :
  reports (js "error_div") (feedback_errors frm) (validate_feedback frm).
Proof. unfold validate_feedback. solve_reports (feedback_errors frm) 4%nat. Qed.

Definition report_bug_errors (frm : bug_form) : list jsstr :=
  presence_err (report_bug_name frm) (js "Name") ++
  email_field (report_bug_email frm) (js "Email Address") ++
  presence_err (report_bug_subject frm) (js "Subject") ++
  presence_err (report_bug_description frm) (js "Description").
Lemma validate_report_bug_spec frm :
  reports (js "error_div") (report_bug_errors frm) (validate_report_bug frm).
Proof. unfold validate_report_bug. solve_reports (report_bug_errors frm) 4%nat. Qed.

Definition expire_by_type_errors (ext expires : jsstr) : list jsstr :=
  presence_err ext (js "File Extension") ++
  first_of (presence_err expires (js "Expires Time")) (number_err expires (js "Expires Time")).
Lemma validate_expire_by_type_spec ext expires :
  reports (js "error_div_expire_by_type") (expire_by_type_errors ext expires)
    (validate_expire_by_type ext expires).
Proof. unfold validate_expire_by_type. solve_reports (expire_by_type_errors ext expires) 4%nat. Qed.

Definition sendmail_errors (location from recipients : jsstr) : list jsstr :=
  presence_err location (js "Sendmail Location") ++
  email_field from (js "Sender's Email Address") ++
  first_of (presence_err recipients (js "Recipient Email Addresses"))
    (recipients_errs 0 (split recipients (js ","))).
Lemma validate_sendmail_spec location from recipients :
  reports (js "error_div_sendmail_form") (sendmail_errors location from recipients)
    (validate_sendmail location from recipients).
Proof. unfold validate_sendmail. solve_reports (sendmail_errors location from recipients) 0%nat. Qed.

Definition ssl_errors (port certificate key : jsstr) : list jsstr :=
  number_field port 1 65535 (js "SMTP Port") (js "SMTP Port") ++
  presence_err certificate (js "SSL Certificate Path") ++
  presence_err key (js "SSL Key Path").

(** The SSL form: its port messages speak of the SMTP port. *)
Theorem validate_ssl_spec port certificate key :
  reports (js "error_div_ssl_form") (ssl_errors port certificate key)
    (validate_ssl port certificate key).
Proof. unfold validate_ssl. solve_reports (ssl_errors port certificate key) 0%nat. Qed.

(** ** Forms that report only on failure *)

(** The element is written only when there is something to say; without the
    element the handler then fails with a TypeError. *)
Definition reports_failure (div : jsstr) (notice : jsstr → jsstr) (errs : list jsstr)
    (m : V bool) : Prop := ∀ p old,
  html p !! div = Some old →
  ∃ p', m p = (Ret (bool_decide (errs = [])), p') ∧
    html p' = match errs with
              | [] => html p
              | _ => <[div := notice (concat errs)]> (html p)
              end.

Lemma report_or_pass div notice errs p old : temp p = concat errs →
  html p !! div = Some old → long errs →
  ∃ p', (t ← js_gets temp;
         if nonempty t then set_inner div (notice t) ;; mret false else mret true) p =
        (Ret (bool_decide (errs = [])), p') ∧
    html p' = match errs with [] => html p | _ => <[div := notice (concat errs)]> (html p) end.
Proof.
  intros Ht Hd Hl. rewrite js_bind_gets, Ht.
  destruct Hl as [|m errs Hm _]; cbn [concat app]; [by exists p|].
  destruct m as [|c m]; [cbn in Hm; lia|]. cbn [app nonempty].
  unfold set_inner. js_unfold. rewrite Hd. eexists; split; reflexivity.
Qed.

Lemma long_length f lo hi tail : (4 < length (js tail))%nat → long (length_err f lo hi (js tail)).
Proof.
  intros H. unfold length_err, err. case_match; constructor; [|done]. rewrite length_app. lia.
Qed.
Lemma long_confirmation f1 f2 : long (confirmation_err f1 f2).
Proof. unfold confirmation_err, err. case_match; constructor; [apply Nat.ltb_lt; reflexivity|done]. Qed.
#[local] Hint Resolve long_confirmation : long.

Definition password_errors (old_pass new_pass conf_pass : jsstr) : list jsstr :=
  presence_err old_pass (js "Old password") ++
  first_of (presence_err new_pass (js "New password"))
    (length_err new_pass 6 20 (js "New password is too short (minimum is 6 characters)")) ++
  first_of (presence_err conf_pass (js "Confirm password"))
    (length_err conf_pass 6 20 (js "Confirm password is too short (minimum is 6 characters)")) ++
  confirmation_err new_pass conf_pass.

Lemma validate_password_spec o n c :
  reports_failure (js "error_div") (λ t, t) (password_errors o n c) (validate_password o n c).
Proof.
  intros p old Hd. unfold validate_password, css_padding. rewrite !js_bind_modify.
  match goal with |- context [@mbind _ _ unit _ _ _ ?q] => set (q0 := q) end.
  assert (collected [] (html p) q0) as H0 by (split; [done|cbn; by case_match]).
  collect. match goal with H : collected ?e _ ?q |- _ =>
    replace (password_errors o n c) with e by (rewrite <- !app_assoc; reflexivity);
    destruct H as [Ht Hh] end.
  rewrite <- Hh in Hd |- *. apply (report_or_pass _ (λ t, t) _ _ old Ht Hd).
  repeat apply Forall_app_2; auto with long; (apply long_first; [apply long_presence|]);
    apply long_length, Nat.ltb_lt; reflexivity.
Qed.

(** A password change passes the form exactly when all three fields are
    filled in, the new one and its repetition have 6 to 20 characters, and
    they are the same (lengths and comparison after trimming). *)
Theorem password_errors_nil o n c : password_errors o n c = [] ↔
  trim o ≠ [] ∧ (6 ≤ length (trim n) ≤ 20)%nat ∧ trim c = trim n.
Proof.
  unfold password_errors. rewrite !app_nil, presence_err_nil.
  assert (∀ f m m', first_of (presence_err f m) (length_err f 6 20 m') = [] ↔
            (6 ≤ length (trim f) ≤ 20)%nat) as Hlen.
  { intros f m m'. unfold presence_err, present, length_err, err.
    destruct (trim f) as [|x l] eqn:E; cbn [nonempty negb first_of]; [split; [done|cbn; lia]|].
    destruct (Nat.leb_spec 6 (length (x :: l))), (Nat.leb_spec (length (x :: l)) 20);
      cbn [orb andb negb]; split; try done; lia. }
  rewrite !Hlen. unfold confirmation_err, password_mismatch, err.
  split.
  - intros (Ho & Hn & Hc & Hm). split; [done|]. split; [done|].
    destruct (decide (trim c = trim n)) as [|Hne]; [done|]. exfalso.
    rewrite (bool_decide_eq_false_2 (trim n = trim c)) in Hm by congruence.
    rewrite !(proj2 (Nat.leb_le 6 _)) in Hm by lia.
    destruct (trim n); [cbn in Hn; lia|]. destruct (trim c); [cbn in Hc; lia|]. done.
  - intros (Ho & Hn & E). rewrite E. rewrite bool_decide_eq_true_2 by done. auto.
Qed.

Definition headers_expire_errors (v : jsstr) : list jsstr :=
  first_of (presence_err v (js "Expires"))
    (err (bool_decide (toLowerCase (trim v) = js "off") || rx_test digits_rx (trim v)
          || negb (nonempty (trim v)))
         (js " Possible value for expires is no. of seconds or off<br>")).

Lemma emits_expires f m : emits (validates_expires f m)
  (err (bool_decide (toLowerCase (trim f) = js "off") || rx_test digits_rx (trim f)
        || negb (nonempty (trim f)))
       (js " Possible value for expires is no. of seconds or off<br>")).
Proof.
  intros p. unfold validates_expires, err.
  destruct (_ || _); eexists; (split; [reflexivity|]); auto with emits.
Qed.
#[local] Hint Resolve emits_expires : emits.

Lemma validate_headers_expire_spec v div old_value :
  reports_failure div
    (λ t, old_value ++ js "<span style='color:red;display:inline;'> " ++ t ++ js "</span>")
    (headers_expire_errors v) (validate_headers_expire v div old_value).
Proof.
  intros p old Hd. unfold validate_headers_expire. rewrite js_bind_modify.
  assert (collected [] (html p) (set_temp [] p)) as H0 by done.
  collect. destruct H as [Ht Hh]. rewrite <- Hh in Hd |- *.
  apply (report_or_pass _ (λ t, old_value ++ _ ++ t ++ _) _ _ old Ht Hd).
  apply long_first; [apply long_presence|]. unfold err. case_match; [constructor|].
  constructor; [apply Nat.ltb_lt; reflexivity|done].
Qed.

(** The Expires header takes [off] in any case or a number of seconds. *)
Theorem headers_expire_errors_nil v : headers_expire_errors v = [] ↔
  toLowerCase (trim v) = js "off" ∨ (trim v ≠ [] ∧ Forall (λ c, is_digit c = true) (trim v)).
Proof.
  unfold headers_expire_errors. rewrite <- rx_test_digits. fold digits_rx.
  unfold presence_err, present, err.
  destruct (trim v) as [|c s] eqn:E; cbn [nonempty first_of].
  - split; [done|]. intros [?|?]; [done|]. by rewrite rx_test_digits in H; destruct H.
  - rewrite orb_false_r. case_bool_decide as Hoff; cbn [orb].
    + split; [by left|done].
    + destruct (rx_test digits_rx (c :: s)); intuition congruence.
Qed.

(** ** Server settings *)

Definition server_errors (v div : jsstr) : list jsstr :=
  if decide (div = js "log_div") then []
  else if decide (div = js "min_pro_div") then number_field v 1 20 (js "Minimum Workers") (js "Minimum Workers")
  else if decide (div = js "max_pro_div") then number_field v 1 20 (js "Maximum Workers") (js "Maximum Workers")
  else if decide (div = js "port_div") then number_field v 1 65535 (js "Port Number") (js "Port Number")
  else if decide (div = js "ssl_port_div") then number_field v 1 65535 (js "SSL Port Number") (js "SSL Port Number")
  else if decide (div = js "certificate_div") then presence_err v (js "Certificate Path")
  else if decide (div = js "key_div") then presence_err v (js "Key Path")
  else [].

Lemma emits_u_nil : emits_u (mret ()) [].
Proof. intros p. exists p. split; [done|]. apply adds_nil. Qed.
#[local] Hint Resolve emits_u_nil : emits.

(** C3. Each server setting is checked by the rule of its element: worker
    counts in 1..20, ports in 1..65535, paths not blank; the old value is
    put back with the message when the check fails. *)
Theorem validate_server_specification_spec v div old_value :
  reports_failure div
    (λ t, old_value ++ js " <span style='color:red;display:inline'>" ++ t ++ js "</span>")
    (server_errors v div) (validate_server_specification v div old_value).
Proof.
  intros p old Hd. unfold validate_server_specification. rewrite js_bind_modify.
  set (body := js_when _ _).
  assert (emits_u body (server_errors v div)) as Hb.
  { unfold body, server_errors, server_number.
    case_bool_decide as Hlog; cbn [negb js_when];
      [rewrite decide_True by done; apply emits_u_nil|].
    rewrite (decide_False (P := div = js "log_div")) by done.
    repeat case_decide; auto with emits. }
  assert (long (server_errors v div)) as Hl.
  { unfold server_errors. repeat case_decide; unfold number_field; auto with long. }
  destruct (collected_step body (server_errors v div) (t ← js_gets temp; if nonempty t
    then set_inner div (old_value ++ js " <span style='color:red;display:inline'>" ++ t
           ++ js "</span>") ;; mret false else mret true) [] (html p) (set_temp [] p))
    as (q & [Ht Hh] & ->); [done|exact Hb|].
  rewrite <- Hh in Hd |- *. by apply (report_or_pass _ (λ t, old_value ++ _ ++ t ++ _) _ _ old Ht Hd).
Qed.

(** ** The e-mail expression *)

(** A label and its dot. *)
Definition email_dotted (u : jsstr) : Prop :=
  ∃ l, u = l ++ [46%N] ∧ l ≠ [] ∧ Forall (λ c, email_label c = true) l.

(** C2. What the e-mail expression recognises: a non-empty local part free
    of [@] and spaces, one [@], one or more dotted labels, and a top-level
    domain of at least two letters. *)
Theorem email_rx_spec s : rx_test email_rx s = true ↔
  ∃ loc dotted tld, s = loc ++ [64%N] ++ concat dotted ++ tld ∧
    loc ≠ [] ∧ Forall (λ c, email_local c = true) loc ∧
    dotted ≠ [] ∧ Forall email_dotted dotted ∧
    (2 ≤ length tld)%nat ∧ Forall (λ c, email_tld c = true) tld.
Proof.
  unfold email_rx, email_domain_rx. rewrite rx_test_anchored; [|done|].
  2: { repeat first [apply denotes_plus_class | apply denotes_plus | apply denotes_seq
         | apply denotes_group | apply denotes_char]. intros u (l & r & -> & [? _] & _). by destruct l. }
  split.
  - intros (loc & r & -> & [Hl HFl] & at_ & d & -> & (c & -> & Hc) & ds & t & ->
      & (us & Hus & -> & HFu) & t1 & t2 & -> & (c1 & -> & Hc1) & Ht2 & HFt).
    apply N.eqb_eq in Hc as ->. exists loc, us, ([c1] ++ t2).
    repeat split; try done.
    + eapply Forall_impl; [exact HFu|]. intros u (l & r & -> & [? ?] & c' & -> & ->%N.eqb_eq).
      by exists l.
    + destruct t2; [done|cbn; lia].
    + by constructor.
  - intros (loc & us & t & -> & Hl & HFl & Hus & HFu & Ht & HFt).
    exists loc, ([64%N] ++ concat us ++ t). split; [done|]. split; [done|].
    exists [64%N], (concat us ++ t). split; [done|]. split; [by eexists|].
    exists (concat us), t. split; [done|]. split.
    + exists us. repeat split; try done. eapply Forall_impl; [exact HFu|].
      intros u (l & -> & ? & ?). exists l, [46%N]. repeat split; try done. by eexists.
    + destruct HFt as [|c1 t Hc1 HFt]; [cbn in Ht; lia|]. exists [c1], t.
      repeat split; eauto. destruct t; [cbn in Ht; lia|done].
Qed.

(** ** Witnesses *)

Definition sample_page : page := Page [] true 0 {[ js "error_div" := []; js "port_div" := [] ]} ∅.
Definition sample_form : app_form :=
  AppForm (js "shop") (js " ") (js "/srv/shop") (js "www") (js "production") (js "4") (js "21").

Lemma validate_application_spec_witness :
  html sample_page !! js "error_div" = Some [] ∧ length (application_errors sample_form) = 2%nat ∧
  ∃ p', validate_application sample_form sample_page
        = (Ret (bool_decide (application_errors sample_form = [])), p') ∧
    temp p' = concat (application_errors sample_form) ∧
    html p' = match application_errors sample_form with
              | [] => html sample_page
              | errs => <[js "error_div" := application_notice errs]> (html sample_page)
              end.
Proof.
  split; [reflexivity|]. split; [vm_compute; reflexivity|].
  apply (validate_application_spec sample_form sample_page []). reflexivity.
Defined.

Lemma validate_server_specification_spec_witness :
  html sample_page !! js "port_div" = Some [] ∧
  ∃ p', validate_server_specification (js "0") (js "port_div") (js "80") sample_page
        = (Ret (bool_decide (server_errors (js "0") (js "port_div") = [])), p') ∧
    html p' = match server_errors (js "0") (js "port_div") with
              | [] => html sample_page
              | _ => <[js "port_div" := js "80" ++ js " <span style='color:red;display:inline'>" ++
                        concat (server_errors (js "0") (js "port_div")) ++ js "</span>"]>
                     (html sample_page)
              end.
Proof.
  split; [reflexivity|].
  apply (validate_server_specification_spec (js "0") (js "port_div") (js "80") sample_page []).
  reflexivity.
Defined.
