(* ===== verification/Enumerable.v ===== *)
(** * Iteration (prototype.js: Enumerable, Array, Number, ObjectRange)

    Every enumerable object supplies [_each]; the other methods are written on
    [each], which numbers the elements and turns a thrown [$break] into a
    normal return.  Iterators are computations, so their effects, their
    exceptions and [$break] are part of the model.  Values are compared with
    [==] only where it agrees with identity. *)

From Stdlib Require Import ZArith Sorting.Sorted.
From stdpp Require Import sorting.
From S2P Require Import Prelude JsBase JsNum.
#[local] Open Scope Z_scope.
#[local] Open Scope stdpp_scope.

(** ** The interface every enumerable class implements *)

Class Iterable (C A : Type) := {
  elements : C → list A;
  _each {S} : C → (A → JS S ()) → JS S ();
  _each_elements S (c : C) (f : A → JS S ()) s : _each c f s = js_each (elements c) f s;
}.

#[export] Instance array_iterable {A} : Iterable (list A) A := {|
  elements c := c;
  _each S c f := js_each c f;
  _each_elements S c f s := eq_refl;
|}.

Section methods.
Context {C A : Type} `{Iterable C A}.

(** [this.each(iterator)] *)
Definition catch_break {S} (m : JS S ()) : JS S () :=
  js_try m (λ e, if decide (e = EBreak) then mret () else js_throw e).
Definition numbered {S} (iterator : A → Z → JS S ()) (value : A) : JS (Z * S) () :=
  index ← js_local;
  js_set_local (index + 1) ;;
  js_lift (iterator value index).
Definition each {S} (this : C) (iterator : A → Z → JS S ()) : JS S C :=
  catch_break (js_with_local 0 (_each this (numbered iterator)) ;; mret ()) ;;
  mret this.

(** A method that accumulates in a captured variable. *)
Definition with_result {S L} (l : L) (this : C) (iterator : A → Z → JS (L * S) ()) : JS S L :=
  '(_, result) ← js_with_local l (each this iterator);
  mret result.

(** [results.push(b)] on the captured array *)
Definition push {S B} (b : B) : JS (list B * S) () :=
  results ← js_local; js_set_local (results ++ [b]).
#[global] Arguments push : simpl never.

Definition toArray {S} (this : C) : JS S (list A) :=
  with_result [] this (λ value _, push value).

Definition all {S} (this : C) (iterator : A → Z → JS S bool) : JS S bool :=
  with_result true this (λ value index,
    result ← js_local;
    b ← (if result : bool then js_lift (iterator value index) else mret false);
    js_set_local b ;;
    js_when (negb b) (js_throw EBreak)).

Definition any {S} (this : C) (iterator : A → Z → JS S bool) : JS S bool :=
  with_result false this (λ value index,
    b ← js_lift (iterator value index);
    js_set_local b ;;
    js_when b (js_throw EBreak)).

Definition collect {S B} (this : C) (iterator : A → Z → JS S B) : JS S (list B) :=
  with_result [] this (λ value index,
    b ← js_lift (iterator value index);
    push b).

Definition detect {S} (this : C) (iterator : A → Z → JS S bool) : JS S (option A) :=
  with_result None this (λ value index,
    b ← js_lift (iterator value index);
    js_when b (js_set_local (Some value) ;; js_throw EBreak)).

Definition findAll {S} (this : C) (iterator : A → Z → JS S bool) : JS S (list A) :=
  with_result [] this (λ value index,
    b ← js_lift (iterator value index);
    js_when b (push value)).

Definition reject {S} (this : C) (iterator : A → Z → JS S bool) : JS S (list A) :=
  with_result [] this (λ value index,
    b ← js_lift (iterator value index);
    js_when (negb b) (push value)).

(** [filter] is [filter.match], an expression's test. *)
Definition grep {S B} (this : C) (filter : A → bool) (iterator : A → Z → JS S B) : JS S (list B) :=
  with_result [] this (λ value index,
    js_when (filter value)
      (b ← js_lift (iterator value index);
       push b)).

Definition inject {S M} (this : C) (memo : M) (iterator : M → A → Z → JS S M) : JS S M :=
  with_result memo this (λ value index,
    memo ← js_local;
    memo' ← js_lift (iterator memo value index);
    js_set_local memo').

Definition partition {S} (this : C) (iterator : A → Z → JS S bool) : JS S (list A * list A) :=
  with_result ([], []) this (λ value index,
    b ← js_lift (iterator value index);
    '(trues, falses) ← js_local;
    if b : bool then js_set_local (trues ++ [value], falses)
    else js_set_local (trues, falses ++ [value])).

(** [value >= result] and [value < result] on numbers *)
Definition num_geb (x y : num) : bool :=
  match x, y with NaN, _ | _, NaN => false | _, _ => negb (num_ltb x y) end.

Definition max {S} (this : C) (iterator : A → Z → JS S num) : JS S (option num) :=
  with_result None this (λ value index,
    value ← js_lift (iterator value index);
    result ← js_local;
    js_when (match result with None => true | Some r => num_geb value r end)
      (js_set_local (Some value))).

Definition min {S} (this : C) (iterator : A → Z → JS S num) : JS S (option num) :=
  with_result None this (λ value index,
    value ← js_lift (iterator value index);
    result ← js_local;
    js_when (match result with None => true | Some r => num_ltb value r end)
      (js_set_local (Some value))).

(** [this.map(function(value) { return value[method].apply(value, args) })] and
    [value[property]], the selected method or property being a function *)
Definition invoke {S B} (this : C) (method : A → JS S B) : JS S (list B) :=
  collect this (λ value _, method value).
Definition pluck {S B} (this : C) (property : A → B) : JS S (list B) :=
  with_result [] this (λ value _, push (property value)).

(** [eachSlice]: the [while] loop cuts the slices first.  [fuel] counts the
    iterations, at most the length of the array when [number] is positive. *)
Fixpoint slices_from (fuel : nat) (array : list A) (number index : Z) : list (list A) :=
  match fuel with
  | O => []
  | S fuel =>
      let index := index + number in
      if index <? Z.of_nat (length array)
      then slice array index (index + number) :: slices_from fuel array number index
      else []
  end.

End methods.

Section slicing.
Context {C A : Type} `{Iterable C A}.

(** The result is the array itself when [number < 1], the collected values
    otherwise. *)
Definition eachSlice {S B} (this : C) (number : Z)
    (iterator : list A → Z → JS S B) : JS S (list A + list B) :=
  array ← toArray this;
  if number <? 1 then mret (inl array)
  else
    results ← collect (slices_from (length array + 1) array number (- number)) iterator;
    mret (inr results).

(** [while(slice.length < number) slice.push(fillWith)] *)
Definition fill_slice (number : Z) (fillWith : A) (slice : list A) : list A :=
  slice ++ replicate (Z.to_nat number - length slice) fillWith.
Definition inGroupsOf {S} (this : C) (number : Z) (fillWith : A) : JS S (list A + list (list A)) :=
  eachSlice this number (λ slice _, mret (fill_slice number fillWith slice)).

(** The values decorated with their criteria are sorted by a comparison
    function; [Array.prototype.sort] is the stable insertion of each element
    behind those that do not compare greater. *)
Definition compare_criteria (a b : num) : Z :=
  if num_ltb a b then -1 else if num_gtb a b then 1 else 0.
Fixpoint insert_sorted {B} (cmp : B → B → Z) (x : B) (l : list B) : list B :=
  match l with
  | [] => [x]
  | y :: l' => if cmp x y <? 0 then x :: l else y :: insert_sorted cmp x l'
  end.
Definition array_sort {B} (cmp : B → B → Z) (l : list B) : list B :=
  fold_left (λ sorted x, insert_sorted cmp x sorted) l [].

Definition sortBy {S} (this : C) (iterator : A → Z → JS S num) : JS S (list A) :=
  pairs ← collect this (λ value index,
    criteria ← iterator value index; mret (value, criteria));
  pluck (array_sort (λ left right, compare_criteria (snd left) (snd right)) pairs) fst.

(** [zip(other, iterator)]: rows of the values at each index, [undefined]
    past the end. *)
Definition zip {S B} (this : C) (args : list (list A)) (iterator : list (option A) → JS S B)
    : JS S (list B) :=
  array ← toArray this;
  collect this (λ _ index, iterator ((λ coll : list A, coll !! Z.to_nat index) <$> array :: args)).

Definition size {S} (this : C) : JS S Z :=
  array ← toArray this; mret (Z.of_nat (length array)).
End slicing.

(** ** Array *)

Section array.
Context {A : Type} `{EqDecision A}.

(** [Array.prototype.indexOf(item, i)], the fallback for engines without it *)
Fixpoint index_of_go (item : A) (l : list A) (i : Z) : Z :=
  match l with
  | [] => -1
  | x :: l => if decide (x = item) then i else index_of_go item l (i + 1)
  end.
Definition array_indexOf (this : list A) (item : A) (i : Z) : Z :=
  let length := Z.of_nat (length this) in
  let i := if i <? 0 then length + i else i in
  let i := Z.max i 0 in
  index_of_go item (drop (Z.to_nat i) this) i.
Definition array_lastIndexOf (this : list A) (item : A) (i : option Z) : Z :=
  let len := Z.of_nat (length this) in
  let i := match i with None => len | Some i => (if i <? 0 then len + i else i) + 1 end in
  let n := array_indexOf (reverse (slice this 0 i)) item 0 in
  if n <? 0 then n else i - n - 1.

(** [include] on an array: [indexOf] decides first. *)
Definition include {S} (this : list A) (object : A) : JS S bool :=
  if negb (array_indexOf this object 0 =? -1) then mret true
  else with_result false this (λ value _,
    js_when (bool_decide (value = object)) (js_set_local true ;; js_throw EBreak)).

Definition first (this : list A) : option A := this !! O.
Definition last (this : list A) : option A := this !! (length this - 1)%nat.

Definition without {S} (this values : list A) : JS S (list A) :=
  findAll this (λ value _, b ← include values value; mret (negb b)).

Definition uniq_step {S} (sorted : bool) (array : list A) (value : A) (index : Z)
    : JS S (list A) :=
  fresh ← (if 0 =? index then mret true
           else if sorted then mret (bool_decide (last array ≠ Some value))
           else b ← include array value; mret (negb b));
  mret (if fresh : bool then array ++ [value] else array).
Definition uniq {S} (this : list A) (sorted : bool) : JS S (list A) :=
  inject this [] (uniq_step sorted).

(** [falsy]: the values JavaScript counts as false; [detect] returns the value
    itself, so [intersect] drops falsy items. *)
Definition intersect {S} (falsy : A → bool) (this array : list A) : JS S (list A) :=
  u ← uniq this false;
  findAll u (λ item _,
    found ← detect array (λ value _, mret (bool_decide (item = value)));
    mret (match found with Some v => negb (falsy v) | None => false end)).

(** [compact] on arrays whose items may be null or undefined *)
Definition compact {S} (this : list (option A)) : JS S (list (option A)) :=
  findAll this (λ value _, mret (bool_decide (value ≠ None))).

End array.

(** Nested arrays *)
#[warnings="-register-all"]
Inductive nested (A : Type) :=
| Leaf (a : A)
| Node (l : list (nested A)).
Arguments Leaf {A} _.
Arguments Node {A} _.

(** [value.flatten()] of an array's items: [inject] with [concat] *)
Fixpoint flatten_value {A} (value : nested A) : list A :=
  match value with
  | Leaf a => [a]
  | Node l => fold_left (λ array v, array ++ flatten_value v) l []
  end.
Definition flatten {A} (this : list (nested A)) : list A := flatten_value (Node this).

(** ** Ranges *)

(** [new ObjectRange(start, end, exclusive)] over integers and strings: the
    elements are ordered by [lt] and followed by [succ]. *)
Class Succ (A : Type) := { ltb : A → A → bool; succ : A → A }.
#[export] Instance succ_num : Succ Z := {| ltb := Z.ltb; succ z := z + 1 |}.

Record ObjectRange (A : Type) := Range { start : A; end_ : A; exclusive : bool }.
Arguments Range {A} _ _ _.
Arguments start {A} _.
Arguments end_ {A} _.
Arguments exclusive {A} _.

Definition range_include {A} `{Succ A} (r : ObjectRange A) (value : A) : bool :=
  if ltb value (start r) then false
  else if exclusive r then ltb value (end_ r)
  else negb (ltb (end_ r) value).

(** The values [_each] visits; [None] when [fuel] runs out first. *)
Fixpoint range_values {A} `{Succ A} (fuel : nat) (r : ObjectRange A) (value : A) : option (list A) :=
  match fuel with
  | O => None
  | Datatypes.S fuel =>
      if range_include r value
      then vs ← range_values fuel r (succ value); Some (value :: vs)
      else Some []
  end.

(** One more than the number of values of an integer range suffices. *)
Definition range_fuel (r : ObjectRange Z) : nat := Datatypes.S (Z.to_nat (end_ r - start r + 1)).
Definition range_list (r : ObjectRange Z) : list Z :=
  default [] (range_values (range_fuel r) r (start r)).
#[export] Instance range_iterable : Iterable (ObjectRange Z) Z := {|
  elements := range_list;
  _each S r f := js_each (range_list r) f;
  _each_elements S c f s := eq_refl;
|}.

Definition num_times {S} (n : Z) (iterator : Z → Z → JS S ()) : JS S Z :=
  each (Range 0 n true) iterator ;; mret n.

(** ** What the methods compute *)

(** The elements are visited in order, numbered from [i]. *)
Fixpoint run_each {S A} (f : A → Z → JS S ()) (l : list A) (i : Z) : JS S () :=
  match l with
  | [] => mret ()
  | v :: l => f v i ;; run_each f l (i + 1)
  end.

(** The loops the methods stand for, on the visited values. *)
Section loops.
Context {S A : Type}.

Fixpoint any_loop (it : A → Z → JS S bool) (l : list A) (i : Z) : JS S bool :=
  match l with
  | [] => mret false
  | v :: l => b ← it v i; if b : bool then mret true else any_loop it l (i + 1)
  end.
Fixpoint all_loop (it : A → Z → JS S bool) (l : list A) (i : Z) : JS S bool :=
  match l with
  | [] => mret true
  | v :: l => b ← it v i; if b : bool then all_loop it l (i + 1) else mret false
  end.
Fixpoint detect_loop (it : A → Z → JS S bool) (l : list A) (i : Z) : JS S (option A) :=
  match l with
  | [] => mret None
  | v :: l => b ← it v i; if b : bool then mret (Some v) else detect_loop it l (i + 1)
  end.
Fixpoint map_loop {B} (it : A → Z → JS S B) (l : list A) (i : Z) : JS S (list B) :=
  match l with
  | [] => mret []
  | v :: l => b ← it v i; bs ← map_loop it l (i + 1); mret (b :: bs)
  end.
Fixpoint filter_loop (it : A → Z → JS S bool) (l : list A) (i : Z) : JS S (list A) :=
  match l with
  | [] => mret []
  | v :: l => b ← it v i; vs ← filter_loop it l (i + 1);
              mret (if b : bool then v :: vs else vs)
  end.
Fixpoint partition_loop (it : A → Z → JS S bool) (l : list A) (i : Z) : JS S (list A * list A) :=
  match l with
  | [] => mret ([], [])
  | v :: l => b ← it v i; '(ts, fs) ← partition_loop it l (i + 1);
              mret (if b : bool then (v :: ts, fs) else (ts, v :: fs))
  end.
Fixpoint fold_loop {M} (it : M → A → Z → JS S M) (l : list A) (i : Z) (memo : M) : JS S M :=
  match l with
  | [] => mret memo
  | v :: l => memo ← it memo v i; fold_loop it l (i + 1) memo
  end.

(** Iterators that do not throw [$break] themselves. *)
Definition no_break {B} (it : A → Z → JS S B) : Prop :=
  ∀ v i s s', it v i s ≠ (Throw EBreak, s').
End loops.

(** What is left of a computation over a captured variable. *)
Definition finish {S L} (r : res () * (L * S)) : res L * S :=
  match r with
  | (Ret _, (l, s)) => (Ret l, s)
  | (Throw e, (_, s)) => (Throw e, s)
  end.

Section method_lemmas.
Context {C A : Type} `{Iterable C A}.

Lemma numbered_run {S} (f : A → Z → JS S ()) l i s :
  ∃ j, js_each l (numbered f) (i, s) = ((run_each f l i s).1, (j, (run_each f l i s).2)).
Proof.
  revert i s. induction l as [|v l IH]; intros i s; [by eexists|].
  cbn [run_each js_each]. js_unfold. unfold numbered at 1. js_unfold. cbn.
  destruct (f v i s) as [[[]|e] s1] eqn:Hf; cbn; [apply IH|by eexists].
Qed.

Lemma each_run {S} (this : C) (f : A → Z → JS S ()) s :
  each this f s = (catch_break (run_each f (elements this) 0) ;; mret this) s.
Proof.
  unfold each, catch_break, js_try, js_with_local. js_unfold.
  rewrite _each_elements. destruct (numbered_run f (elements this) 0 s) as [j ->].
  by destruct (run_each f (elements this) 0 s) as [[[]|e] s'].
Qed.

(** One element of a method's loop after another. *)
Definition loop_from {S L} (it : A → Z → JS (L * S) ()) (l : list A) (i : Z) (st : L * S) :
    res L * S := finish (catch_break (run_each it l i) st).

Lemma with_result_run {S L} (l : L) (this : C) (it : A → Z → JS (L * S) ()) s :
  with_result l this it s = loop_from it (elements this) 0 (l, s).
Proof.
  unfold with_result, loop_from. js_unfold. rewrite each_run. js_unfold.
  by destruct (catch_break _ _) as [[[]|e] [l' s']].
Qed.

Lemma loop_nil {S L} (it : A → Z → JS (L * S) ()) i r s : loop_from it [] i (r, s) = (Ret r, s).
Proof. done. Qed.

Lemma loop_cons {S L} (it : A → Z → JS (L * S) ()) v l i st :
  loop_from it (v :: l) i st =
  match it v i st with
  | (Ret _, st') => loop_from it l (i + 1) st'
  | (Throw e, (r, s)) => ((if decide (e = EBreak) then Ret r else Throw e), s)
  end.
Proof.
  unfold loop_from, catch_break, js_try. cbn [run_each]. js_unfold.
  destruct (it v i st) as [[[]|e] [r s]]; [done|]. by case_decide.
Qed.
End method_lemmas.

Lemma push_eq {S B} (b : B) acc (s : S) : push b (acc, s) = (Ret (), (acc ++ [b], s)).
Proof. done. Qed.

(** Take one step of a loop: unfold the iterator's body, split on what the
    given iterator did, and use that it does not throw [$break]. *)
Ltac loop_step nb :=
  rewrite loop_cons; cbn -[loop_from]; unfold js_when in *; js_unfold; cbn -[loop_from];
  match goal with
  | |- context [match ?it ?v ?i ?s with _ => _ end] => is_var it;
      destruct (it v i s) as [[?b|?e] ?s1] eqn:?Hit; cbn -[loop_from]
  | |- context [match ?it ?m ?v ?i ?s with _ => _ end] => is_var it;
      destruct (it m v i s) as [[?b|?e] ?s1] eqn:?Hit; cbn -[loop_from]
  end;
  try match goal with
  | Hit : _ = (Throw ?e, _) |- context [decide (?e = EBreak)] =>
        destruct (decide (e = EBreak)) as [->|]; [by destruct (nb _ _ _ _ Hit)|done]
  end;
  try match goal with b : bool |- _ => destruct b; cbn -[loop_from] end;
  rewrite ?(decide_True _ _ (eq_refl EBreak)), ?push_eq; cbn -[loop_from].

(** With what was accumulated before them. *)
Definition after_acc {S A} (acc : list A) (m : JS S (list A)) : JS S (list A) :=
  rest ← m; mret (acc ++ rest).
Definition after_acc2 {S A} (acc : list A * list A) (m : JS S (list A * list A))
    : JS S (list A * list A) :=
  '(ts, fs) ← m; mret (acc.1 ++ ts, acc.2 ++ fs).

Section method_specs.
Context {C A : Type} `{Iterable C A} {S : Type}.

Lemma any_run (this : C) (it : A → Z → JS S bool) s : no_break it →
  any this it s = any_loop it (elements this) 0 s.
Proof.
  intros nb. unfold any. rewrite with_result_run. generalize 0, (elements this). intros i l.
  revert i s. induction l as [|v l IH]; intros i s; [done|].
  loop_step nb; [done|apply IH].
Qed.

Lemma all_run (this : C) (it : A → Z → JS S bool) s : no_break it →
  all this it s = all_loop it (elements this) 0 s.
Proof.
  intros nb. unfold all. rewrite with_result_run. generalize 0, (elements this). intros i l.
  revert i s. induction l as [|v l IH]; intros i s; [done|].
  loop_step nb; [apply IH|done].
Qed.

Lemma detect_run (this : C) (it : A → Z → JS S bool) s : no_break it →
  detect this it s = detect_loop it (elements this) 0 s.
Proof.
  intros nb. unfold detect. rewrite with_result_run. generalize 0, (elements this). intros i l.
  revert i s. induction l as [|v l IH]; intros i s; [done|].
  loop_step nb; [done|apply IH].
Qed.

Lemma push_all_run {B} (f : A → B) l i acc (s : S) :
  loop_from (λ value _, push (f value)) l i (acc, s) = (Ret (acc ++ (f <$> l)), s).
Proof.
  revert i acc. induction l as [|v l IH]; intros i acc; [by rewrite loop_nil, app_nil_r|].
  rewrite loop_cons, push_eq, IH, <- app_assoc. done.
Qed.

Lemma toArray_run (this : C) (s : S) : toArray this s = (Ret (elements this), s).
Proof.
  unfold toArray. rewrite with_result_run, (push_all_run (λ v, v)).
  by rewrite list_fmap_id.
Qed.

Lemma pluck_run {B} (this : C) (f : A → B) (s : S) :
  pluck this f s = (Ret (f <$> elements this), s).
Proof. unfold pluck. by rewrite with_result_run, push_all_run. Qed.

Lemma after_acc_nil {B} (m : JS S (list B)) s : after_acc [] m s = m s.
Proof. unfold after_acc. js_unfold. cbn. by destruct (m s) as [[?|?] ?]. Qed.

Lemma collect_acc {B} (it : A → Z → JS S B) l i acc s : no_break it →
  loop_from (λ value index, b ← js_lift (it value index); push b) l i (acc, s)
  = after_acc acc (map_loop it l i) s.
Proof.
  intros nb. unfold after_acc. revert i acc s.
  induction l as [|v l IH]; intros i acc s.
  { by rewrite loop_nil, <- (app_nil_r acc) at 1. }
  loop_step nb. rewrite IH.
  destruct (map_loop it l (i + 1) s1) as [[?|?] ?]; [by rewrite <- app_assoc|done].
Qed.

Lemma collect_run {B} (this : C) (it : A → Z → JS S B) s : no_break it →
  collect this it s = map_loop it (elements this) 0 s.
Proof.
  intros nb. unfold collect. by rewrite with_result_run, collect_acc, after_acc_nil.
Qed.

Lemma select_acc (it : A → Z → JS S bool) l i acc s : no_break it →
  loop_from (λ value index, b ← js_lift (it value index); js_when b (push value)) l i (acc, s)
  = after_acc acc (filter_loop it l i) s.
Proof.
  intros nb. unfold after_acc. revert i acc s.
  induction l as [|v l IH]; intros i acc s.
  { by rewrite loop_nil, <- (app_nil_r acc) at 1. }
  loop_step nb; rewrite IH;
    destruct (filter_loop it l (i + 1) s1) as [[?|?] ?]; cbn; rewrite <-?app_assoc; done.
Qed.

Lemma findAll_run (this : C) (it : A → Z → JS S bool) s : no_break it →
  findAll this it s = filter_loop it (elements this) 0 s.
Proof.
  intros nb. unfold findAll. by rewrite with_result_run, select_acc, after_acc_nil.
Qed.

Lemma reject_acc (it : A → Z → JS S bool) l i acc s : no_break it →
  loop_from (λ value index, b ← js_lift (it value index); js_when (negb b) (push value))
    l i (acc, s)
  = after_acc acc (filter_loop (λ v i, b ← it v i; mret (negb b)) l i) s.
Proof.
  intros nb. unfold after_acc. revert i acc s.
  induction l as [|v l IH]; intros i acc s.
  { by rewrite loop_nil, <- (app_nil_r acc) at 1. }
  loop_step nb; rewrite IH;
    destruct (filter_loop _ l (i + 1) s1) as [[?|?] ?]; cbn; rewrite <-?app_assoc; done.
Qed.

Lemma reject_run (this : C) (it : A → Z → JS S bool) s : no_break it →
  reject this it s = filter_loop (λ v i, b ← it v i; mret (negb b)) (elements this) 0 s.
Proof.
  intros nb. unfold reject. by rewrite with_result_run, reject_acc, after_acc_nil.
Qed.

Lemma partition_run (this : C) (it : A → Z → JS S bool) s : no_break it →
  partition this it s = partition_loop it (elements this) 0 s.
Proof.
  intros nb. unfold partition. rewrite with_result_run.
  trans (after_acc2 ([], []) (partition_loop it (elements this) 0) s);
    [|unfold after_acc2; js_unfold; by destruct (partition_loop _ _ _ s) as [[[]|?] ?]].
  generalize 0, (elements this). intros i l.
  match goal with |- loop_from ?f _ _ _ = _ => assert (∀ ts fs i s,
    loop_from f l i ((ts, fs), s) = after_acc2 (ts, fs) (partition_loop it l i) s)
    as Hgen; [|apply Hgen] end.
  unfold after_acc2. clear i s. induction l as [|v l IH]; intros ts fs i s.
  { rewrite loop_nil. cbn. js_unfold. cbn. by rewrite !app_nil_r. }
  loop_step nb; rewrite IH;
    destruct (partition_loop it l (i + 1) s1) as [[[]|?] ?]; cbn; rewrite <-?app_assoc; done.
Qed.

Lemma inject_run {M} (this : C) (memo : M) (it : M → A → Z → JS S M) s :
  (∀ m, no_break (it m)) →
  inject this memo it s = fold_loop it (elements this) 0 memo s.
Proof.
  intros nb. unfold inject. rewrite with_result_run. generalize 0, (elements this). intros i l.
  revert i memo s. induction l as [|v l IH]; intros i memo s; [done|].
  rewrite loop_cons. js_unfold. cbn -[loop_from]. js_unfold.
  destruct (it memo v i s) as [[m|e] s1] eqn:Hit; cbn -[loop_from]; [apply IH|].
  case_decide; [subst; by destruct (nb _ _ _ _ _ Hit)|done].
Qed.

End method_specs.

(** Computations that do not throw [$break]. *)
Definition never_breaks {S A} (m : JS S A) : Prop := ∀ s s', m s ≠ (Throw EBreak, s').

Create HintDb breaks.

Lemma never_breaks_ret {S A} (a : A) : never_breaks (mret a : JS S A).
Proof. done. Qed.
Lemma never_breaks_bind {S A B} (m : JS S A) (f : A → JS S B) :
  never_breaks m → (∀ a, never_breaks (f a)) → never_breaks (m ≫= f).
Proof.
  intros Hm Hf s s'. unfold mbind, js_mbind. pose proof (Hm s) as Hms.
  destruct (m s) as [[a|e] s1]; [apply Hf|]. intros [= -> ->]. by apply (Hms s').
Qed.
Lemma never_breaks_throw {S A} (e : exn) : e ≠ EBreak → never_breaks (js_throw e : JS S A).
Proof. intros He s s' [= ->]. done. Qed.
Lemma never_breaks_with_result {C A S L} `{Iterable C A} (l : L) (this : C)
    (it : A → Z → JS (L * S) ()) : never_breaks (with_result l this it).
Proof.
  intros s s'. rewrite with_result_run. unfold loop_from, catch_break, js_try, finish.
  destruct (run_each _ _ _ _) as [[[]|e] [l' s1]]; cbn; [done|].
  case_decide; cbn; [done|]. by intros [= ->].
Qed.
Lemma no_break_never {S A B} (it : A → Z → JS S B) :
  (∀ v i, never_breaks (it v i)) → no_break it.
Proof. intros H v i. apply H. Qed.
#[export] Hint Resolve never_breaks_ret never_breaks_bind never_breaks_with_result : breaks.

(** Iterators without effects: the list functions. *)
Section pure_loops.
Context {S A : Type}.

Lemma map_loop_pure {B} (f : A → B) l i (s : S) :
  map_loop (λ v _, mret (f v)) l i s = (Ret (f <$> l), s).
Proof. revert i. induction l as [|v l IH]; intros i; [done|]. cbn. js_unfold. cbn. by rewrite IH. Qed.

Lemma filter_loop_pure (p : A → bool) l i (s : S) :
  filter_loop (λ v _, mret (p v)) l i s = (Ret (List.filter p l), s).
Proof.
  revert i. induction l as [|v l IH]; intros i; [done|]. cbn. js_unfold. cbn. rewrite IH.
  by destruct (p v).
Qed.

Lemma detect_loop_pure (p : A → bool) l i (s : S) :
  detect_loop (λ v _, mret (p v)) l i s = (Ret (snd <$> list_find p l), s).
Proof.
  revert i. induction l as [|v l IH]; intros i; [done|]. cbn. js_unfold. cbn.
  case_decide as Hp; destruct (p v); try done.
  rewrite IH. by destruct (list_find p l) as [[]|].
Qed.

Lemma no_break_pure {B} (f : A → Z → B) : no_break (λ v i, mret (f v i) : JS S B).
Proof. intros v i s s'. done. Qed.
End pure_loops.

(** *** Slices *)

Section slices.
Context {A : Type}.
Implicit Types (array : list A).

Lemma slice_nonneg array a b : 0 ≤ a → a ≤ b →
  slice array a b = take (Z.to_nat (b - a)) (drop (Z.to_nat a) array).
Proof.
  intros Ha Hab. unfold slice, slice_end. rewrite !(proj2 (Z.ltb_ge _ _)) by lia.
  destruct (decide (Z.to_nat a ≤ length array)%nat).
  - rewrite (Nat.min_l (Z.to_nat a)) by lia.
    destruct (decide (Z.to_nat b ≤ length array)%nat).
    + rewrite Nat.min_l by lia. f_equal. lia.
    + rewrite Nat.min_r by lia. rewrite !take_ge; [done|rewrite length_drop; lia..].
  - rewrite !(drop_ge array) by lia. by rewrite !take_nil.
Qed.

(** The slices from [index + number] on partition what is left. *)
Lemma slices_from_spec array number index fuel :
  1 ≤ number → 0 ≤ index + number →
  Z.of_nat (length array) - (index + number) ≤ Z.of_nat fuel →
  let slices := slices_from fuel array number index in
  concat slices = drop (Z.to_nat (index + number)) array
  ∧ Forall (λ sl, (1 ≤ length sl ≤ Z.to_nat number)%nat) slices
  ∧ (∀ k, (S k < length slices)%nat → length <$> slices !! k = Some (Z.to_nat number)).
Proof.
  intros Hn. revert index. induction fuel as [|fuel IH]; intros index Hi Hf; cbn.
  { rewrite drop_ge by lia. repeat split; [constructor|]. cbn; lia. }
  case_match eqn:Hlt; [|rewrite drop_ge by (rewrite Z.ltb_ge in Hlt; lia); repeat split;
    [constructor|cbn; lia]].
  apply Z.ltb_lt in Hlt. destruct (IH (index + number)) as (Hj & Hlen & Hfull); [lia..|].
  set (slices := slices_from fuel array number (index + number)) in *.
  assert (length (slice array (index + number) (index + number + number))
          = Nat.min (Z.to_nat number) (length array - Z.to_nat (index + number))) as Hsl.
  { rewrite slice_nonneg by lia. rewrite length_take, length_drop. f_equal. lia. }
  cbn [concat]. repeat split.
  - rewrite Hj, slice_nonneg by lia.
    replace (Z.to_nat (index + number + number))
      with (Z.to_nat (index + number) + Z.to_nat number)%nat by lia.
    rewrite <- drop_drop, (Z.add_simpl_l (index + number)). apply take_drop.
  - constructor; [lia|done].
  - intros [|k] Hk; cbn in *; [|apply Hfull; lia]. f_equal. rewrite Hsl.
    destruct slices as [|sl slices'] eqn:Hs; [cbn in Hk; lia|].
    assert (1 ≤ length (drop (Z.to_nat (index + number + number)) array))%nat as Hd.
    { rewrite <- Hj. cbn. rewrite length_app. apply Forall_cons in Hlen as [? _]. lia. }
    rewrite length_drop in Hd. lia.
Qed.

Lemma fill_slices_spec number (fill : A) slices : 1 ≤ number →
  Forall (λ sl, (1 ≤ length sl ≤ Z.to_nat number)%nat) slices →
  (∀ k, (S k < length slices)%nat → length <$> slices !! k = Some (Z.to_nat number)) →
  ∃ k, concat (fill_slice number fill <$> slices) = concat slices ++ replicate k fill
    ∧ (k < Z.to_nat number)%nat
    ∧ Forall (λ g, length g = Z.to_nat number) (fill_slice number fill <$> slices).
Proof.
  intros Hn. induction slices as [|sl slices IH]; intros Hlen Hfull.
  { exists 0%nat. split; [done|]. split; [lia|constructor]. }
  apply Forall_cons in Hlen as [Hsl Hlen].
  destruct IH as (k & Hk & Hkn & Hall); [done|intros j Hj; apply (Hfull (S j)); cbn; lia|].
  cbn [fmap list_fmap concat]. rewrite Hk.
  destruct slices as [|sl' slices].
  - exists (Z.to_nat number - length sl)%nat. cbn in *. rewrite <- Hk, !app_nil_r.
    split; [done|]. split; [lia|].
    constructor; [|done]. unfold fill_slice. rewrite length_app, length_replicate. lia.
  - exists k. assert (Some (length sl) = Some (Z.to_nat number)) as [= Hfull0]
      by (apply (Hfull O); cbn; lia).
    unfold fill_slice at 1. rewrite Hfull0, Nat.sub_diag, app_nil_r, app_assoc.
    split; [done|]. split; [done|]. constructor; [|done].
    unfold fill_slice. rewrite length_app, length_replicate. lia.
Qed.
End slices.

(** *** Membership, duplicates *)

Section arrays.
Context {A : Type} `{EqDecision A} {S : Type}.
Implicit Types (this array : list A).

Lemma index_of_go_spec (item : A) l i : 0 ≤ i →
  (index_of_go item l i = -1 ↔ item ∉ l) ∧
  (∀ j, index_of_go item l i = j → j ≠ -1 → i ≤ j ∧ l !! Z.to_nat (j - i) = Some item).
Proof.
  revert i. induction l as [|x l IH]; intros i Hi; cbn.
  { split; [split; [intros _; apply not_elem_of_nil|done]|lia]. }
  case_decide as Hx; subst.
  - split.
    + split; [lia|]. intros Hn. destruct Hn. left.
    + intros j <- _. split; [lia|]. by rewrite Z.sub_diag.
  - destruct (IH (i + 1)) as [H1 H2]; [lia|]. split.
    + rewrite H1, not_elem_of_cons. naive_solver.
    + intros j Hj Hne. destruct (H2 j Hj Hne) as [? Hl]. split; [lia|].
      replace (Z.to_nat (j - i)) with (Datatypes.S (Z.to_nat (j - (i + 1)))) by lia. done.
Qed.

Lemma array_indexOf_0 this item : array_indexOf this item 0 = -1 ↔ item ∉ this.
Proof. unfold array_indexOf. cbn. by apply index_of_go_spec. Qed.

Lemma include_run this (object : A) (s : S) :
  include this object s = (Ret (bool_decide (object ∈ this)), s).
Proof.
  unfold include. destruct (array_indexOf this object 0 =? -1) eqn:Hi; cbn.
  - apply Z.eqb_eq, array_indexOf_0 in Hi. rewrite (bool_decide_false (object ∈ this)) by done.
    rewrite with_result_run. cbn [elements array_iterable]. generalize 0. revert Hi.
    induction this as [|v l IH]; intros Hi i; [done|].
    apply not_elem_of_cons in Hi as [Hv Hi]. rewrite loop_cons.
    rewrite bool_decide_false by congruence. by apply IH.
  - apply Z.eqb_neq in Hi. rewrite bool_decide_true; [done|].
    destruct (decide (object ∈ this)) as [|Hn]; [done|]. by apply array_indexOf_0 in Hn.
Qed.

Lemma without_run this values (s : S) :
  without this values s = (Ret (List.filter (λ v, negb (bool_decide (v ∈ values))) this), s).
Proof.
  assert (∀ v s', (b ← include values v; mret (negb b)) s'
    = (Ret (negb (bool_decide (v ∈ values))), s' : S)) as Hit.
  { intros v s'. by rewrite (js_bind_Ret _ _ _ _ _ (include_run values v s')). }
  unfold without. rewrite findAll_run by (intros v i s1 s2; by rewrite Hit).
  cbn [elements array_iterable]. generalize 0. induction this as [|v l IH]; intros i; [done|].
  cbn [filter_loop List.filter]. rewrite (js_bind_Ret _ _ _ _ _ (Hit v s)).
  rewrite (js_bind_Ret _ _ _ _ _ (IH (i + 1))). by destruct (negb _).
Qed.

(** The kept elements of [uniq]: those not kept before. *)
Fixpoint first_occurrences (seen l : list A) : list A :=
  match l with
  | [] => []
  | v :: l => if decide (v ∈ seen) then first_occurrences seen l
              else v :: first_occurrences (seen ++ [v]) l
  end.

Lemma first_occurrences_spec seen l :
  NoDup (first_occurrences seen l)
  ∧ (∀ x, x ∈ first_occurrences seen l ↔ x ∈ l ∧ x ∉ seen)
  ∧ first_occurrences seen l `sublist_of` l.
Proof.
  revert seen. induction l as [|v l IH]; intros seen; cbn.
  { repeat split; [constructor|set_solver..|done]. }
  case_decide as Hv.
  - destruct (IH seen) as (? & Hin & ?). repeat split; [done|set_solver..|by constructor].
  - destruct (IH (seen ++ [v])) as (? & Hin & ?). split; [|split].
    + constructor; [|done]. rewrite Hin. set_solver.
    + intros x. rewrite !elem_of_cons, Hin, elem_of_app, list_elem_of_singleton.
      destruct (decide (x = v)) as [->|]; set_solver.
    + by constructor.
Qed.

Lemma last_snoc (l : list A) x : last (l ++ [x]) = Some x.
Proof.
  unfold last. rewrite length_app, Nat.add_sub. rewrite lookup_app_r by lia.
  by rewrite Nat.sub_diag.
Qed.

Lemma uniq_step_run array v i (s : S) : (i = 0 → array = []) →
  uniq_step false array v i s
  = (Ret (if decide (v ∈ array) then array else array ++ [v]), s).
Proof.
  intros H0. unfold uniq_step. js_unfold. destruct (0 =? i) eqn:Hi0.
  - apply Z.eqb_eq in Hi0. rewrite (H0 (eq_sym Hi0)).
    by rewrite decide_False by apply not_elem_of_nil.
  - rewrite include_run. by repeat case_decide || case_bool_decide.
Qed.

Lemma uniq_sorted_step_run array v i (s : S) : (i = 0 → array = []) →
  uniq_step true array v i s
  = (Ret (if decide (last array = Some v) then array else array ++ [v]), s).
Proof.
  intros H0. unfold uniq_step. js_unfold. destruct (0 =? i) eqn:Hi0.
  - apply Z.eqb_eq in Hi0. by rewrite (H0 (eq_sym Hi0)).
  - by repeat case_decide || case_bool_decide.
Qed.

Lemma uniq_fold seen l i (s : S) : (i = 0 → seen = []) → 0 ≤ i →
  fold_loop (uniq_step false) l i seen s = (Ret (seen ++ first_occurrences seen l), s).
Proof.
  revert seen i. induction l as [|v l IH]; intros seen i H0 Hi; cbn [fold_loop first_occurrences].
  { by rewrite app_nil_r. }
  rewrite (js_bind_Ret _ _ _ _ _ (uniq_step_run seen v i s H0)). case_decide.
  - apply IH; [lia|lia].
  - rewrite IH by lia. by rewrite <- app_assoc.
Qed.

(** On a list sorted by a partial order equal elements are adjacent. *)
Lemma last_of_sorted (R : relation A) `{!PartialOrder R} seen v l :
  StronglySorted R (seen ++ v :: l) → v ∈ seen ↔ last seen = Some v.
Proof.
  intros Hs. split; [|by intros Hl; apply list_elem_of_lookup; eexists].
  destruct seen as [|w seen _] using rev_ind; [by intros ?%not_elem_of_nil|].
  rewrite last_snoc. rewrite elem_of_app, list_elem_of_singleton.
  intros [Hv| ->]; [|done]. f_equal.
  apply (anti_symm R).
  - eapply StronglySorted_app_1_elem_of; [exact Hs|set_solver..].
  - rewrite <- app_assoc in Hs. eapply (StronglySorted_app_1_elem_of R seen); [exact Hs|done|set_solver].
Qed.

Lemma uniq_sorted_fold (R : relation A) `{!PartialOrder R} seen l i (s : S) :
  (i = 0 → seen = []) → 0 ≤ i → StronglySorted R (seen ++ l) →
  fold_loop (uniq_step true) l i seen s = (Ret (seen ++ first_occurrences seen l), s).
Proof.
  revert seen i. induction l as [|v l IH]; intros seen i H0 Hi Hs; cbn [fold_loop first_occurrences].
  { by rewrite app_nil_r. }
  rewrite (js_bind_Ret _ _ _ _ _ (uniq_sorted_step_run seen v i s H0)).
  pose proof (last_of_sorted R _ _ _ Hs) as Hl.
  destruct (decide (v ∈ seen)) as [Hv|Hv].
  - rewrite decide_True by by apply Hl. apply IH; [lia|lia|].
    rewrite StronglySorted_app, StronglySorted_cons in Hs.
    apply StronglySorted_app. destruct Hs as (? & ? & ?). set_solver.
  - rewrite decide_False by by rewrite <- Hl. rewrite IH by (lia || by rewrite <- app_assoc).
    by rewrite <- app_assoc.
Qed.

Lemma no_break_uniq sorted array : no_break (uniq_step sorted array : _ → _ → JS S _).
Proof.
  intros v i s s'. unfold uniq_step. js_unfold.
  destruct (0 =? i), sorted; try done; by rewrite include_run.
Qed.

Lemma uniq_run this (s : S) : uniq this false s = (Ret (first_occurrences [] this), s).
Proof.
  unfold uniq. rewrite inject_run by apply no_break_uniq. by rewrite uniq_fold.
Qed.
End arrays.

(** *** Sorting *)

Section sorting.
Context {A : Type}.

(** [x] is not after [y]; of two elements neither of which is after the other
    the criteria are equal. *)
Definition not_after (x y : A * num) : Prop := num_ltb y.2 x.2 = false.
Definition same_criteria (c : num) (x : A * num) : bool :=
  negb (num_ltb c x.2) && negb (num_ltb x.2 c).
Definition by_criteria (left right : A * num) : Z := compare_criteria left.2 right.2.
Definition comparable (x : A * num) : Prop := x.2 ≠ NaN.

Lemma not_after_trans x y z : comparable y → not_after x y → not_after y z → not_after x z.
Proof.
  unfold not_after. intros Hy Hxy Hyz. apply not_true_is_false. intros Hzx.
  destruct (num_ltb_weak _ _ y.2 Hy Hzx); congruence.
Qed.

Lemma by_criteria_neg x y : (by_criteria x y <? 0) = num_ltb x.2 y.2.
Proof. unfold by_criteria, compare_criteria, num_gtb. by repeat case_match. Qed.

Lemma insert_sorted_perm (x : A * num) l : insert_sorted by_criteria x l ≡ₚ x :: l.
Proof.
  induction l as [|y l IH]; cbn; [done|]. case_match; [done|]. rewrite IH. apply Permutation_swap.
Qed.

Lemma insert_sorted_sorted x l : comparable x → Forall comparable l →
  StronglySorted not_after l → StronglySorted not_after (insert_sorted by_criteria x l).
Proof.
  intros Hx. induction l as [|y l IH]; cbn; intros Hc Hs.
  { by apply StronglySorted_cons. }
  apply Forall_cons in Hc as [Hy Hc]. apply StronglySorted_cons in Hs as [Hyl Hs].
  rewrite by_criteria_neg. case_match eqn:Hlt.
  - apply StronglySorted_cons. split; [|by apply StronglySorted_cons].
    apply num_ltb_asym in Hlt. constructor; [done|].
    eapply Forall_impl; [exact Hyl|]. intros z. by apply not_after_trans.
  - apply StronglySorted_cons. split; [|by apply IH].
    rewrite insert_sorted_perm. constructor; [done|exact Hyl].
Qed.

(** The new element goes behind those with the same criteria. *)
Lemma insert_sorted_stable x l c : c ≠ NaN → comparable x → Forall comparable l → StronglySorted not_after l →
  List.filter (same_criteria c) (insert_sorted by_criteria x l)
  = List.filter (same_criteria c) l ++ List.filter (same_criteria c) [x].
Proof.
  intros Hcn Hx. induction l as [|y l IH]; [done|]. intros Hc Hs.
  apply Forall_cons in Hc as [Hy Hc]. apply StronglySorted_cons in Hs as [Hyl Hs].
  cbn [insert_sorted]. rewrite by_criteria_neg. destruct (num_ltb x.2 y.2) eqn:Hlt.
  - cbn [List.filter app]. destruct (same_criteria c x) eqn:Hcx; [|by rewrite app_nil_r].
    assert (∀ z, num_ltb x.2 z.2 = true → same_criteria c z = false) as Hno.
    { intros z Hz. unfold same_criteria in *. apply andb_true_iff in Hcx as [Hcx1 Hcx2].
      apply negb_true_iff in Hcx1, Hcx2.
      destruct (num_ltb_weak _ _ c Hcn Hz) as [H1|H1]; [congruence|by rewrite H1]. }
    rewrite (Hno y Hlt). cbn.
    assert (List.filter (same_criteria c) l = []) as ->; [|done].
    clear IH. induction Hyl as [|z l Hz _ IHl]; [done|]. cbn.
    apply Forall_cons in Hc as [Hzc Hc]. apply StronglySorted_cons in Hs as [_ Hs].
    rewrite Hno; [|destruct (num_ltb_weak _ _ z.2 Hzc Hlt); [done|unfold not_after in Hz; congruence]].
    by apply IHl.
  - cbn [List.filter]. rewrite IH by done. by destruct (same_criteria c y).
Qed.

Lemma array_sort_spec acc l : Forall comparable (acc ++ l) → StronglySorted not_after acc →
  let sorted := fold_left (λ sorted x, insert_sorted by_criteria x sorted) l acc in
  sorted ≡ₚ acc ++ l ∧ StronglySorted not_after sorted ∧
  (∀ c, c ≠ NaN → List.filter (same_criteria c) sorted = List.filter (same_criteria c) (acc ++ l)).
Proof.
  revert acc. induction l as [|x l IH]; intros acc Hc Hs; cbn; [by rewrite app_nil_r|].
  apply Forall_app in Hc as [Hca [Hx Hcl]%Forall_cons].
  assert (insert_sorted by_criteria x acc ++ l ≡ₚ acc ++ x :: l) as Hp.
  { rewrite insert_sorted_perm. apply Permutation_middle. }
  destruct (IH (insert_sorted by_criteria x acc)) as (Hperm & Hsort & Hst).
  - rewrite Hp. apply Forall_app. split; [done|by constructor].
  - by apply insert_sorted_sorted.
  - split; [by rewrite Hperm|split; [done|]]. intros c Hcn. rewrite (Hst c Hcn).
    rewrite !List.filter_app, insert_sorted_stable by done. rewrite <- app_assoc. f_equal.
    by rewrite <- List.filter_app.
Qed.

Lemma StronglySorted_of_fmap {B} (R : relation B) (f : A → B) (l : list A) :
  StronglySorted R (f <$> l) ↔ StronglySorted (λ x y, R (f x) (f y)) l.
Proof.
  induction l as [|x l IH]; cbn; [split; constructor|].
  by rewrite !StronglySorted_cons, IH, Forall_fmap.
Qed.

Lemma filter_of_fmap {B} (p : B → bool) (f : A → B) (l : list A) :
  List.filter p (f <$> l) = f <$> List.filter (λ x, p (f x)) l.
Proof. induction l as [|x l IH]; cbn; [done|]. rewrite IH. by destruct (p (f x)). Qed.

Lemma fmap_fst_pair {B} (f : A → B) (l : list A) : fst <$> ((λ x, (x, f x)) <$> l) = l.
Proof. rewrite <- list_fmap_compose. apply list_fmap_id. Qed.
End sorting.

(** ** Properties *)

(** C4. The predicate methods of Enumerable are the short-circuit loops over the
    numbered elements: iterators run in order, their effects and exceptions
    are kept, [any], [all] and [detect] stop at the first deciding element and
    [collect], [findAll], [reject], [partition] visit every element. *)
Theorem enumerable_loops_spec {C A S B : Type} `{Iterable C A} (this : C)
    (p : A → Z → JS S bool) (f : A → Z → JS S B) (s : S) :
  no_break p → no_break f →
  any this p s = any_loop p (elements this) 0 s ∧
  all this p s = all_loop p (elements this) 0 s ∧
  detect this p s = detect_loop p (elements this) 0 s ∧
  collect this f s = map_loop f (elements this) 0 s ∧
  findAll this p s = filter_loop p (elements this) 0 s ∧
  reject this p s = filter_loop (λ v i, b ← p v i; mret (negb b)) (elements this) 0 s ∧
  partition this p s = partition_loop p (elements this) 0 s.
Proof.
  intros Hp Hf. split_and!; [apply any_run|apply all_run|apply detect_run|apply collect_run
    |apply findAll_run|apply reject_run|apply partition_run]; done.
Qed.

(** [inGroupsOf(n, fill)] with [n ≥ 1] cuts the elements into consecutive
    groups of exactly [n], the last one filled up; with [n < 1] it returns the
    elements ungrouped. *)
Theorem inGroupsOf_spec {C A S : Type} `{Iterable C A} (this : C) (n : Z) (fill : A) (s : S) :
  (n < 1 → inGroupsOf this n fill s = (Ret (inl (elements this)), s)) ∧
  (1 ≤ n → ∃ groups k,
     inGroupsOf this n fill s = (Ret (inr groups), s) ∧
     concat groups = elements this ++ replicate k fill ∧
     (k < Z.to_nat n)%nat ∧
     Forall (λ g, length g = Z.to_nat n) groups).
Proof.
  unfold inGroupsOf, eachSlice. split; intros Hn.
  all: rewrite (js_bind_Ret _ _ _ _ _ (toArray_run this s)).
  { by rewrite (proj2 (Z.ltb_lt _ _)). }
  rewrite (proj2 (Z.ltb_ge _ _)) by lia.
  destruct (slices_from_spec (elements this) n (- n) (length (elements this) + 1))
    as (Hj & Hlen & Hfull); [lia..|].
  set (slices := slices_from _ _ _ _) in *.
  destruct (fill_slices_spec n fill slices Hn Hlen Hfull) as (k & Hk & Hkn & Hall).
  exists (fill_slice n fill <$> slices), k. split_and!; [| |done|done].
  - rewrite (js_bind_Ret _ _ s (fill_slice n fill <$> slices) s); [done|].
    rewrite collect_run by apply no_break_pure. apply map_loop_pure.
  - rewrite Hk, Hj. by rewrite Z.add_opp_diag_l.
Qed.

(** [uniq] keeps the first occurrence of every element, in order; on a sorted
    array the [sorted] variant, which compares with the last kept element
    only, gives the same result. *)
Theorem uniq_spec {A S : Type} `{EqDecision A} (this : list A) (s : S) : ∃ u,
  uniq this false s = (Ret u, s) ∧
  NoDup u ∧ (∀ x, x ∈ u ↔ x ∈ this) ∧ u `sublist_of` this ∧
  (∀ R : relation A, PartialOrder R → StronglySorted R this → uniq this true s = (Ret u, s)).
Proof.
  exists (first_occurrences [] this).
  destruct (first_occurrences_spec [] this) as (Hnd & Hin & Hsub).
  split; [by rewrite uniq_run|]. split; [done|].
  split; [intros x; rewrite Hin; set_solver|]. split; [done|]. intros R HR Hs.
  unfold uniq. rewrite inject_run by apply no_break_uniq. by rewrite (uniq_sorted_fold R).
Qed.

(** [sortBy] returns a permutation of the elements ordered by their criteria,
    elements with equal criteria staying in their original order, for criteria
    that are numbers other than NaN. *)
Theorem sortBy_spec {C A S : Type} `{Iterable C A} (this : C) (criteria : A → num) (s : S) :
  (∀ x, x ∈ elements this → criteria x ≠ NaN) →
  ∃ r, sortBy this (λ v _, mret (criteria v)) s = (Ret r, s) ∧
  r ≡ₚ elements this ∧
  StronglySorted (λ x y, num_ltb (criteria y) (criteria x) = false) r ∧
  (∀ c, c ≠ NaN → List.filter (λ x, same_criteria c (x, criteria x)) r
                = List.filter (λ x, same_criteria c (x, criteria x)) (elements this)).
Proof.
  intros Hc. set (pairs := (λ x, (x, criteria x)) <$> elements this).
  destruct (array_sort_spec [] pairs) as (Hp & Hs & Hst).
  { apply Forall_fmap, Forall_forall. exact Hc. } { constructor. }
  set (sorted := fold_left _ pairs []) in *. exists (fst <$> sorted).
  assert (sorted = (λ x, (x, criteria x)) <$> (fst <$> sorted)) as Hfst.
  { rewrite <- list_fmap_compose. rewrite <- (list_fmap_id sorted) at 1.
    apply list_fmap_ext. intros i [x c] Hx. apply list_elem_of_lookup_2 in Hx.
    rewrite Hp in Hx. apply list_elem_of_fmap in Hx as (y & [= -> ->] & _). done. }
  assert (fst <$> pairs = elements this) as Hfp by apply fmap_fst_pair.
  split; [|split; [|split]].
  - unfold sortBy. rewrite (js_bind_Ret _ _ s pairs s).
    + rewrite pluck_run. done.
    + rewrite collect_run by apply no_break_pure. apply map_loop_pure.
  - rewrite <- Hfp. by rewrite Hp.
  - rewrite Hfst in Hs. exact (proj1 (StronglySorted_of_fmap _ _ _) Hs).
  - intros c Hcn. specialize (Hst c Hcn). rewrite Hfst in Hst. cbn [app] in Hst.
    unfold pairs in Hst. rewrite !filter_of_fmap in Hst.
    apply (f_equal (fmap fst)) in Hst. rewrite !fmap_fst_pair in Hst.
    rewrite filter_of_fmap. exact Hst.
Qed.

Lemma enumerable_loops_spec_witness :
  any [1; 2; 3] (λ v _, js_modify (cons v) ;; mret (v =? 2)) [] = (Ret true, [2; 1]) ∧
  any [1; 2; 3] (λ v _, js_modify (cons v) ;; mret (v =? 2)) []
  = any_loop (λ v _, js_modify (cons v) ;; mret (v =? 2)) [1; 2; 3] 0 [].
Proof.
  split; [reflexivity|].
  destruct (enumerable_loops_spec [1; 2; 3] (λ v _, js_modify (cons v) ;; mret (v =? 2))
    (λ v _, mret v) []) as [Hany _]; [intros v i s s'; discriminate..|exact Hany].
Defined.

Lemma sortBy_spec_witness :
  sortBy [3; 1; 2] (λ v _, mret (int v)) () = (Ret [1; 2; 3], ()) ∧
  ∃ r, sortBy [3; 1; 2] (λ v _, mret (int v)) () = (Ret r, ()) ∧ r ≡ₚ [3; 1; 2].
Proof.
  split; [reflexivity|].
  destruct (sortBy_spec [3; 1; 2] int ()) as (r & Hr & Hp & _); [intros x _; discriminate|].
  by exists r.
Defined.

(** Ranges and counting. *)
Lemma range_values_spec (r : ObjectRange Z) v fuel :
  start r ≤ v → (Z.to_nat (end_ r - v + 1) < fuel)%nat →
  range_values fuel r v = Some (seqZ v (end_ r - v + if exclusive r then 0 else 1)).
Proof.
  revert v. induction fuel as [|fuel IH]; intros v Hv Hf; [lia|]. cbn [range_values].
  unfold range_include. cbn [ltb succ succ_num].
  rewrite (proj2 (Z.ltb_ge _ _)) by lia.
  destruct (if exclusive r then v <? end_ r else negb (end_ r <? v)) eqn:Hin.
  - assert (0 < end_ r - v + if exclusive r then 0 else 1).
    { destruct (exclusive r); [apply Z.ltb_lt in Hin|apply negb_true_iff, Z.ltb_ge in Hin]; lia. }
    rewrite seqZ_cons by lia.
    rewrite IH; [cbn; do 3 f_equal; lia|lia|destruct (exclusive r); lia].
  - rewrite seqZ_nil; [done|].
    destruct (exclusive r); [apply Z.ltb_ge in Hin|apply negb_false_iff, Z.ltb_lt in Hin]; lia.
Qed.

Lemma range_list_spec (r : ObjectRange Z) :
  range_list r = seqZ (start r) (end_ r - start r + if exclusive r then 0 else 1).
Proof. unfold range_list. rewrite range_values_spec; [done|lia|unfold range_fuel; lia]. Qed.
