(* ===== verification/Strings.v ===== *)
(** * Strings and templates (prototype.js: String, Template, RegExp.escape)

    [gsub] searches what is left of the subject again and again, so [^]
    anchors at every piece; the replacement may have effects, threaded as a
    state.  [Template] evaluates [#{a.b}] expressions on a JavaScript value.
    [escapeHTML] and [unescapeHTML] are the versions written on strings. *)

From Stdlib Require Import ZArith.
From S2P Require Import Prelude JsBase JsNum JsRegex JsReplace.
#[local] Open Scope N_scope.
#[local] Open Scope Z_scope.
#[local] Open Scope stdpp_scope.

(** ** JavaScript values

    Plain data: numbers are the integers, objects list their own enumerable
    properties in order; the only functions are the built-in ones. *)
#[warnings="-register-all"]
Inductive jsv :=
| VUndef
| VNull
| VBool (b : bool)
| VNum (z : Z)
| VStr (s : jsstr)
| VArr (l : list jsv)
| VObj (o : list (jsstr * jsv))
| VFun (name : jsstr).

Definition is_nullish (v : jsv) : bool :=
  match v with VUndef | VNull => true | _ => false end.

(** [String(v)] *)
Fixpoint string_of (v : jsv) : jsstr :=
  match v with
  | VUndef => js "undefined"
  | VNull => js "null"
  | VBool b => if b then js "true" else js "false"
  | VNum z => num_str z
  | VStr s => s
  | VArr l => join (js ",") ((λ v, if is_nullish v then [] else string_of v) <$> l)
  | VObj _ => js "[object Object]"
  | VFun name => js "function " ++ name ++ js "() { [native code] }"
  end.

(** [String.interpret(value)] *)
Definition interpret (value : jsv) : jsstr := if is_nullish value then [] else string_of value.

Definition assoc_get {B} (k : jsstr) (o : list (jsstr * B)) : option B :=
  snd <$> list_find (λ p, p.1 = k) o ≫= λ p, Some p.2.

(** [v[k]] on plain data; [null] and [undefined] have no properties. *)
Definition index_of_key (k : jsstr) : option nat :=
  match parseInt10 k with
  | Fin q => let z := QArith_base.Qnum q in
             if bool_decide (num_str z = k) && (0 <=? z) then Some (Z.to_nat z) else None
  | _ => None
  end.
Definition prop (v : jsv) (k : jsstr) : jsv :=
  match v with
  | VObj o => default VUndef (assoc_get k o)
  | VArr l =>
      if bool_decide (k = js "length") then VNum (Z.of_nat (length l))
      else default VUndef (index_of_key k ≫= λ i, l !! i)
  | VStr s =>
      if bool_decide (k = js "length") then VNum (Z.of_nat (length s))
      else default VUndef (index_of_key k ≫= λ i, (λ c, VStr [c]) <$> s !! i)
  | _ => VUndef
  end.

(** ** Substitution *)

Section gsub.
Context {S : Type}.

(** The [while] loop of [gsub]; [None] when it has not ended after [fuel]
    rounds. *)
Fixpoint gsub_loop (fuel : nat) (pattern : rx) (replacement : match_res → S → jsstr * S)
    (source : jsstr) (s : S) : option (jsstr * S) :=
  match source with
  | [] => Some ([], s)
  | _ =>
      match fuel with
      | O => None
      | Datatypes.S fuel =>
          match rx_match pattern source with
          | Some m =>
              let '(r, s) := replacement m s in
              '(rest, s) ← gsub_loop fuel pattern replacement (m_rest m) s;
              Some (m_before m ++ r ++ rest, s)
          | None => Some (source, s)
          end
      end
  end.
End gsub.

(** A replacement without effects. *)
Definition pure_replacement (f : match_res → jsstr) (m : match_res) (u : ()) : jsstr * () :=
  (f m, u).

(** [this.gsub(pattern, f)]; a round consumes at least one code unit or the
    loop does not end. *)
Definition gsub (this : jsstr) (pattern : rx) (f : match_res → jsstr) : option jsstr :=
  fst <$> gsub_loop (length this) pattern (pure_replacement f) this ().

(** [this.sub(pattern, f, count)] *)
Definition sub_replacement (f : match_res → jsstr) (m : match_res) (count : Z) : jsstr * Z :=
  let count := count - 1 in
  if count <? 0 then (m_text m, count) else (f m, count).
Definition sub (this : jsstr) (pattern : rx) (f : match_res → jsstr) (count : Z) : option jsstr :=
  fst <$> gsub_loop (length this) pattern (sub_replacement f) this count.

(** [this.scan(pattern, iterator)]: the iterator's effects, one match after
    another; the string itself is returned. *)
Definition scan {S} (this : jsstr) (pattern : rx) (iterator : match_res → S → jsstr * S)
    (s : S) : option (jsstr * S) :=
  '(_, s) ← gsub_loop (length this) pattern iterator this s; Some (this, s).

(** ** Templates *)

(** [Template.Pattern = /(^|.|\r|\n)(#\{(.*?)\})/] *)
Definition template_pattern : rx :=
  (RGroup 1 (RBol <|> RChar dot <|> RLit 13 <|> RLit 10) +++
   RGroup 2 (RStr (js "#{") +++ RGroup 3 (RStar false (RChar dot)) +++ RLit 125))%rx.

(** [/^([^.[]+|\[((?:.*?[^\\])?)\])(\.|\[|$)/] *)
Definition path_pattern : rx :=
  (RBol +++
   RGroup 1 (RPlus (RChar (none_of (js ".["))) <|>
             (RLit 91 +++
              RGroup 2 (ROpt (RStar false (RChar dot) +++ RChar (none_of (js "\")))) +++
              RLit 93)) +++
   RGroup 3 (RLit 46 <|> RLit 91 <|> REol))%rx.

(** [match[2].gsub('\\\\]', ']')] *)
Definition unescape_bracket (s : jsstr) : jsstr := default s (gsub s (RStr (js "\]")) (λ _, js "]")).

(** The loop over the components of an expression.  Each round shortens it. *)
Fixpoint template_path (fuel : nat) (ctx : jsv) (expr : jsstr) : jsv :=
  match fuel with
  | O => ctx
  | S fuel =>
      match rx_match path_pattern expr with
      | None => ctx
      | Some m =>
          let m1 := m_group_or_empty m 1 in
          let m3 := m_group_or_empty m 3 in
          let comp := if is_prefix (js "[") m1 then unescape_bracket (m_group_or_empty m 2) else m1 in
          let ctx := prop ctx comp in
          if is_nullish ctx || bool_decide (m3 = []) then ctx
          else template_path fuel ctx
                 (substring_from expr (Z.of_nat (if bool_decide (m3 = js "[") then length m1
                                                 else length (m_text m))))
      end
  end.

Definition template_replacement (object : jsv) (m : match_res) : jsstr :=
  if is_nullish object then []
  else
    let before := m_group_or_empty m 1 in
    if bool_decide (before = js "\") then m_group_or_empty m 2
    else
      let expr := m_group_or_empty m 3 in
      match rx_match path_pattern expr with
      | None => before
      | Some _ => before ++ interpret (template_path (length expr) object expr)
      end.

(** [new Template(template, pattern).evaluate(object)] *)
Definition evaluate_with (pattern : rx) (template : jsstr) (object : jsv) : option jsstr :=
  gsub template pattern (template_replacement object).
Definition evaluate (template : jsstr) (object : jsv) : option jsstr :=
  evaluate_with template_pattern template object.

(** The match array as the object of a template, and a string as replacement. *)
Definition match_object (n : nat) (m : match_res) : jsv :=
  VArr ((λ i, match m_group m i with Some s => VStr s | None => VUndef end) <$> seq 0 n).
(** A template that does not evaluate is not replaced: [evaluate_total] shows
    this does not happen. *)
Definition prepareReplacement (groups : nat) (replacement : jsstr) (m : match_res) : jsstr :=
  default [] (evaluate replacement (match_object (groups + 1) m)).

(** ** The other methods *)

(** [this.replace(/^\s+/, '').replace(/\s+$/, '')] *)
Definition strip (this : jsstr) : jsstr :=
  replace_first (RPlus (RChar is_space) +++ REol)%rx (λ _, [])
    (replace_first (RBol +++ RPlus (RChar is_space))%rx (λ _, []) this).

(** [length] and [truncation] after their defaults. *)
Definition truncate (this : jsstr) (length_ : Z) (truncation : jsstr) : jsstr :=
  let length_ := if length_ =? 0 then 30 else length_ in
  if length_ <? Z.of_nat (length this)
  then slice this 0 (length_ - Z.of_nat (length truncation)) ++ truncation
  else this.

(** [/<\/?[^>]+>/gi] *)
Definition tag_rx : rx :=
  (RLit 60 +++ ROpt (RLit 47) +++ RPlus (RChar (none_of (js ">"))) +++ RLit 62)%rx.
Definition stripTags (this : jsstr) : jsstr := replace_all tag_rx (λ _, []) this.

(** [Prototype.ScriptFragment] with the flags [im] *)
Definition ci_str (s : jsstr) : rx := foldr (λ c r, RChar (ci (N.eqb c)) +++ r)%rx REps s.
Definition script_fragment : rx :=
  (ci_str (js "<script") +++ RStar true (RChar (none_of (js ">"))) +++ RLit 62 +++
   RGroup 1 (RStar false (RChar (λ _, true))) +++ ci_str (js "</script>"))%rx.
Definition stripScripts (this : jsstr) : jsstr := replace_all script_fragment (λ _, []) this.

(** [s.match(r)] with the [g] flag: the texts of all matches. *)
Fixpoint match_all_go (fuel : nat) (r : rx) (bef s : jsstr) : list jsstr :=
  match fuel with
  | O => []
  | S fuel =>
      match exec_from r bef s with
      | None => []
      | Some m =>
          let bef' := reverse (m_text m) ++ reverse (m_before m) in
          m_text m ::
          match m_text m, m_rest m with
          | [], [] => []
          | [], c :: s' => match_all_go fuel r (c :: bef') s'
          | _, s' => match_all_go fuel r bef' s'
          end
      end
  end.
Definition match_all (r : rx) (s : jsstr) : list jsstr := match_all_go (S (length s)) r [] s.
Definition extractScripts (this : jsstr) : list jsstr :=
  (λ scriptTag, match rx_match script_fragment scriptTag with
                | Some m => m_group_or_empty m 1
                | None => []
                end) <$> match_all script_fragment this.

(** [s.replace(/x/g, r)] for a literal text *)
Definition replace_text (pat rep s : jsstr) : jsstr := replace_all (RStr pat) (λ _, rep) s.
Definition escapeHTML (this : jsstr) : jsstr :=
  replace_text (js ">") (js "&gt;") (replace_text (js "<") (js "&lt;")
    (replace_text (js "&") (js "&amp;") this)).
Definition unescapeHTML (this : jsstr) : jsstr :=
  replace_text (js "&gt;") (js ">") (replace_text (js "&lt;") (js "<")
    (replace_text (js "&amp;") (js "&") (stripTags this))).

(** [charCodeAt] is NaN out of range, which [fromCharCode] makes 0. *)
Definition string_succ (this : jsstr) : jsstr :=
  slice this 0 (Z.of_nat (length this) - 1) ++
  [match last this with Some c => (c + 1) mod 65536 | None => 0 end]%N.

(** [new Array(count + 1).join(this)] *)
Definition times (this : jsstr) (count : Z) : jsstr :=
  if count <? 1 then [] else join this (replicate (Z.to_nat (count + 1)) []).

(** [s.charAt(0).toUpperCase() + s.substring(1)] *)
Definition upper_first (s : jsstr) : jsstr := toUpperCase (charAt s 0) ++ substring_from s 1.
Definition camelize (this : jsstr) : jsstr :=
  match split this (js "-") with
  | [] => []
  | [part] => part
  | part :: parts =>
      (if bool_decide (charAt this 0 = js "-") then upper_first part else part)
      ++ concat (upper_first <$> parts)
  end.
Definition capitalize (this : jsstr) : jsstr :=
  toUpperCase (charAt this 0) ++ toLowerCase (substring_from this 1).

Definition dasherize (this : jsstr) : option jsstr := gsub this (RLit 95) (λ _, js "-").
Definition underscore (this : jsstr) : option jsstr :=
  s ← gsub this (RStr (js "::")) (λ _, js "/");
  s ← gsub s (RGroup 1 (RPlus (RChar is_upper)) +++ RGroup 2 (RChar is_upper +++ RChar is_lower))%rx
        (prepareReplacement 2 (js "#{1}_#{2}"));
  s ← gsub s (RGroup 1 (RChar (λ c, is_lower c || is_digit c)) +++ RGroup 2 (RChar is_upper))%rx
        (prepareReplacement 2 (js "#{1}_#{2}"));
  s ← gsub s (RLit 45) (λ _, js "_");
  Some (toLowerCase s).

(** [String.specialChar] *)
Definition specialChar (c : N) : option jsstr :=
  match c with
  | 8 => Some (js "\b") | 9 => Some (js "\t") | 10 => Some (js "\n")
  | 12 => Some (js "\f") | 13 => Some (js "\r") | 92 => Some (js "\\")
  | _ => None
  end%N.
(** [n.toString(16)] below 256 and [toPaddedString(2, 16)] *)
Definition hex_digit (n : N) : N := (if n <? 10 then 48 + n else 87 + n)%N.
Definition hex_str (n : N) : jsstr :=
  if (n <? 16)%N then [hex_digit n] else [hex_digit (n / 16); hex_digit (n mod 16)]%N.
Definition toPaddedString (string : jsstr) (length_ : Z) : jsstr :=
  times (js "0") (length_ - Z.of_nat (length string)) ++ string.
Definition escape_char (c : N) : jsstr :=
  match specialChar c with
  | Some s => s
  | None => js "\u00" ++ toPaddedString (hex_str c) 2
  end.
Definition is_escaped (c : N) : bool := ((c <=? 31) || (c =? 92))%N.
Definition inspect (this : jsstr) (useDoubleQuotes : bool) : option jsstr :=
  escapedString ← gsub this (RChar is_escaped)
    (λ m, match m_text m with c :: _ => escape_char c | [] => [] end);
  Some (if useDoubleQuotes
        then dq ++ replace_text dq (js "\" ++ dq) escapedString ++ dq
        else js "'" ++ replace_text (js "'") (js "\'") escapedString ++ js "'").
Definition toJSON (this : jsstr) : option jsstr := inspect this true.

(** [/^\s*$/.test(this)] *)
Definition blank_rx : rx := (RBol +++ RStar true (RChar is_space) +++ REol)%rx.
Definition blank (this : jsstr) : bool := rx_test blank_rx this.

(** The three expressions of [isJSON]. *)
Definition escape_rx : rx := (RLit 92 +++ RChar dot)%rx.
Definition string_rx : rx :=
  (RLit 34 +++ RStar true (RChar (none_of [34; 92; 10; 13]%N)) +++ RLit 34)%rx.
Definition json_char (c : N) : bool :=
  one_of (js ",:{}[]0123456789.-+Eaeflnrstu ") c || one_of [10; 13; 9]%N c.
Definition isJSON (this : jsstr) : bool :=
  if blank this then false
  else
    let str := replace_all string_rx (λ _, []) (replace_all escape_rx (λ _, js "@") this) in
    rx_test (RBol +++ RStar true (RChar json_char) +++ REol)%rx str.

Definition include (this pattern : jsstr) : bool := -1 <? indexOf this pattern.
Definition startsWith (this pattern : jsstr) : bool := indexOf this pattern =? 0.
Definition endsWith (this pattern : jsstr) : bool :=
  let d := Z.of_nat (length this) - Z.of_nat (length pattern) in
  (0 <=? d) && (lastIndexOf this pattern =? d).
Definition empty (this : jsstr) : bool := bool_decide (this = []).

(** [RegExp.escape] *)
Definition special_rx (c : N) : bool := one_of (js ".*+?^=!:${}()|[]/\") c.
Definition regexp_escape (str : jsstr) : jsstr :=
  replace_all (RGroup 1 (RChar special_rx)) (λ m, js "\" ++ m_group_or_empty m 1) str.

(** [$w(string)], splitting on runs of white space *)
Fixpoint split_spaces_go (s cur : jsstr) : list jsstr :=
  match s with
  | [] => [cur]
  | c :: s' =>
      if is_space c then
        match s' with
        | d :: _ => if is_space d then split_spaces_go s' cur else cur :: split_spaces_go s' []
        | [] => [cur; []]
        end
      else split_spaces_go s' (cur ++ [c])
  end.
Definition split_spaces (s : jsstr) : list jsstr := split_spaces_go s [].
Definition words (string : jsstr) : list jsstr :=
  let string := strip string in
  if bool_decide (string = []) then [] else split_spaces string.

(** ** Termination of [gsub] *)

Section gsub_lemmas.
Context {S : Type}.
Implicit Types (pattern : rx) (replacement : match_res → S → jsstr * S).

(** One round of the loop: the source and what is left of it. *)
Definition gsub_step pattern (source rest : jsstr) : Prop :=
  source ≠ [] ∧ ∃ m, rx_match pattern source = Some m ∧ rest = m_rest m.

Lemma gsub_loop_stuck pattern replacement source s fuel :
  gsub_step pattern source source → gsub_loop fuel pattern replacement source s = None.
Proof.
  intros (Hne & m & Hm & Hrest). revert s. induction fuel as [|fuel IH]; intros s; cbn.
  { by destruct source. }
  destruct source as [|c source]; [done|]. rewrite Hm.
  destruct (replacement m s) as [r s']. rewrite <- Hrest, IH. done.
Qed.

Lemma gsub_loop_leads pattern replacement source source' s fuel :
  rtc (gsub_step pattern) source source' → gsub_step pattern source' source' →
  gsub_loop fuel pattern replacement source s = None.
Proof.
  intros Hr Hstuck. revert fuel s.
  induction Hr as [source|source rest source' (Hne & m & Hm & ->) _ IH]; intros fuel s.
  { by apply gsub_loop_stuck. }
  destruct source as [|c source]; [done|]. destruct fuel as [|fuel]; [done|]. cbn. rewrite Hm.
  destruct (replacement m s) as [r s']. by rewrite IH.
Qed.

Lemma gsub_loop_None pattern replacement source s fuel :
  (length source ≤ fuel)%nat → gsub_loop fuel pattern replacement source s = None →
  ∃ source', rtc (gsub_step pattern) source source' ∧ gsub_step pattern source' source'.
Proof.
  revert source s. induction fuel as [|fuel IH]; intros source s Hlen; cbn.
  { destruct source; cbn in Hlen; [done|lia]. }
  destruct source as [|c source]; [done|].
  destruct (rx_match pattern (c :: source)) as [m|] eqn:Hm; [|done].
  destruct (replacement m s) as [r s'].
  destruct (gsub_loop fuel pattern replacement (m_rest m) s') as [[rest s'']|] eqn:Hrec; [done|].
  intros _. assert (gsub_step pattern (c :: source) (m_rest m)) as Hstep by (split; eauto).
  destruct (decide (m_rest m = c :: source)) as [Heq|Hneq].
  { exists (c :: source). split; [done|]. by rewrite Heq in Hstep. }
  pose proof (rx_match_cut _ _ _ Hm) as Hcut.
  destruct (IH (m_rest m) s') as (source' & Hr & Hst); [|done|].
  - assert (m_before m ++ m_text m ≠ []) as Hne.
    { intros Happ. apply app_eq_nil in Happ as [H1 H2].
      by rewrite H1, H2 in Hcut. }
    apply (f_equal length) in Hcut. rewrite !length_app in Hcut. cbn in Hcut, Hlen.
    assert (length (m_before m ++ m_text m) ≠ 0)%nat by (by destruct (m_before m ++ m_text m)).
    rewrite length_app in *. lia.
  - exists source'. split; [by eapply rtc_l|done].
Qed.

Lemma gsub_loop_progress pattern replacement source s :
  (1 ≤ min_len pattern)%nat →
  is_Some (gsub_loop (length source) pattern replacement source s).
Proof.
  intros Hmin. destruct (gsub_loop _ _ _ _ _) eqn:Hl; [done|].
  destruct (gsub_loop_None _ _ _ _ _ (le_n _) Hl) as (u & _ & Hne & m & Hm & Hu).
  pose proof (rx_match_len _ _ _ Hm). pose proof (rx_match_cut _ _ _ Hm) as Hcut.
  apply (f_equal length) in Hcut. rewrite <- Hu, !length_app in Hcut. lia.
Qed.
End gsub_lemmas.

(** Templates always evaluate. *)
Lemma evaluate_total template object : is_Some (evaluate template object).
Proof.
  unfold evaluate, evaluate_with, gsub. apply fmap_is_Some, gsub_loop_progress.
  cbn. lia.
Qed.

(** [gsub] with an expression that only looks at heads is [replace_all]. *)
Lemma gsub_scan r h F s : head_match r h →
  gsub s r (λ m, F (m_text m)) = Some (scan_replace h F s).
Proof.
  intros Hh. unfold gsub.
  assert (∀ n s, (length s ≤ n)%nat →
    gsub_loop n r (pure_replacement (λ m, F (m_text m))) s () = Some (scan_replace h F s, ()))
    as Hgen; [|by rewrite Hgen].
  clear s. induction n as [|n IH]; intros s Hlen.
  { destruct s; [done|cbn in Hlen; lia]. }
  destruct s as [|c s]; [done|]. cbn [gsub_loop]. unfold rx_match.
  pose proof (exec_from_head _ _ Hh [] (c :: s)) as He.
  pose proof (cut_spec _ _ Hh (c :: s)) as Hc.
  destruct (cut h (c :: s)) as [[[a t] z]|]; [|by rewrite He, Hc].
  destruct He as [caps ->], Hc as (Hs & Ht & ->). cbn. rewrite IH; [done|].
  apply (f_equal length) in Hs. rewrite !length_app in Hs. cbn in *.
  destruct t; [done|cbn in *; lia].
Qed.

Lemma sub_replacement_spent f m k : k ≤ 0 → sub_replacement f m k = (m_text m, k - 1).
Proof. intros Hk. unfold sub_replacement. by rewrite (proj2 (Z.ltb_lt _ _)) by lia. Qed.

(** [sub] once is [replace]. *)
Lemma sub_once r f s : (1 ≤ min_len r)%nat → sub s r f 1 = Some (replace_first r f s).
Proof.
  intros Hmin. unfold sub, replace_first.
  assert (∀ n s k, (length s ≤ n)%nat → k ≤ 0 →
    ∃ k', gsub_loop n r (sub_replacement f) s k = Some (s, k')) as Hrest.
  { clear s. induction n as [|n IH]; intros s k Hlen Hk.
    { destruct s; [by eexists|cbn in Hlen; lia]. }
    destruct s as [|c s]; [by eexists|]. cbn [gsub_loop].
    destruct (rx_match r (c :: s)) as [m|] eqn:Hm; [|by eexists].
    rewrite sub_replacement_spent by done.
    pose proof (rx_match_len _ _ _ Hm). pose proof (rx_match_cut _ _ _ Hm) as Hcut.
    destruct (IH (m_rest m) (k - 1)) as [k' Hk']; [|lia|].
    - apply (f_equal length) in Hcut. rewrite !length_app in Hcut. lia.
    - exists k'. rewrite Hk'. cbn. by rewrite <- Hcut. }
  destruct s as [|c s].
  { cbn. destruct (rx_match r []) as [m|] eqn:Hm; [|done].
    pose proof (rx_match_len _ _ _ Hm). apply rx_match_cut, (f_equal length) in Hm.
    rewrite !length_app in Hm. cbn in Hm. lia. }
  cbn [length gsub_loop]. destruct (rx_match r (c :: s)) as [m|] eqn:Hm; [|done].
  pose proof (rx_match_len _ _ _ Hm). apply rx_match_cut, (f_equal length) in Hm.
  rewrite !length_app in Hm. cbn in Hm.
  destruct (Hrest (length s) (m_rest m) 0) as [k' Hk']; [lia..|].
  change (sub_replacement f m 1) with (f m, 0). cbv beta iota. by rewrite Hk'.
Qed.

(** ** Literal replacements *)

Lemma replace_text_scan pat rep s : pat ≠ [] →
  replace_text pat rep s = scan_replace (text_head pat) (λ _, rep) s.
Proof.
  intros Hp. unfold replace_text.
  apply (replace_all_scan _ _ (text_head_match pat Hp) (λ _, rep)).
Qed.

Lemma replace_text_cons pat rep c s : pat ≠ [] →
  replace_text pat rep (c :: s) =
  if is_prefix pat (c :: s) then rep ++ replace_text pat rep (drop (length pat) (c :: s))
  else c :: replace_text pat rep s.
Proof.
  intros Hp. rewrite !replace_text_scan by done.
  rewrite (scan_replace_cons _ _ (text_head_match pat Hp)). unfold text_head at 1.
  by destruct (is_prefix pat (c :: s)).
Qed.

Lemma replace_text_char d rep s : replace_text [d] rep s = s ≫= λ c, if N.eqb d c then rep else [c].
Proof.
  induction s as [|c s IH]; [done|]. rewrite replace_text_cons by done. cbn [is_prefix].
  rewrite andb_true_r. cbn [mbind list_bind]. rewrite <- IH. by destruct (N.eqb d c).
Qed.

(** ** JSON strings *)

(** The reader of JSON string literals, after the opening quote. *)
Fixpoint json_read (s : jsstr) : option jsstr :=
  match s with
  | [] => None
  | c :: s =>
      if (c =? 34)%N then match s with [] => Some [] | _ => None end
      else if (c =? 92)%N then
        match s with
        | 98 :: s => cons 8 <$> json_read s
        | 116 :: s => cons 9 <$> json_read s
        | 110 :: s => cons 10 <$> json_read s
        | 102 :: s => cons 12 <$> json_read s
        | 114 :: s => cons 13 <$> json_read s
        | 92 :: s => cons 92 <$> json_read s
        | 47 :: s => cons 47 <$> json_read s
        | 34 :: s => cons 34 <$> json_read s
        | 117 :: a :: b :: c :: d :: s =>
            a ← hex_val a; b ← hex_val b; c ← hex_val c; d ← hex_val d;
            cons (Z.to_N (((a * 16 + b) * 16 + c) * 16 + d)%Z) <$> json_read s
        | _ => None
        end%N
      else if (c <? 32)%N then None
      else cons c <$> json_read s
  end.
Definition json_string (s : jsstr) : option jsstr :=
  match s with c :: s => if (c =? 34)%N then json_read s else None | [] => None end.

(** The text one code unit is written as. *)
Definition json_esc (c : N) : jsstr :=
  if is_escaped c then escape_char c else if (34 =? c)%N then js "\" ++ dq else [c].

Lemma toJSON_chars s : toJSON s = Some (dq ++ (s ≫= json_esc) ++ dq).
Proof.
  unfold toJSON, inspect.
  rewrite (gsub_scan _ _ (λ t, match t with c :: _ => escape_char c | [] => [] end) _
             (class_head_match is_escaped)).
  rewrite scan_class. cbn [mbind option_bind]. do 3 f_equal.
  unfold dq at 1. rewrite replace_text_char.
  induction s as [|c s IH]; [done|]. cbn [mbind list_bind]. rewrite bind_app, IH. f_equal.
  unfold json_esc. destruct (is_escaped c) eqn:He; [|cbn; by destruct (34 =? c)%N].
  assert (c < N.of_nat 93)%N as Hc.
  { unfold is_escaped in He. apply orb_true_iff in He as [He|He];
      [apply N.leb_le in He|apply N.eqb_eq in He]; lia. }
  revert He. pattern c. revert c Hc. apply below_forall.
  repeat (constructor; [first [discriminate | reflexivity | intros _; reflexivity]|]); constructor.
Qed.

Lemma json_read_esc c s : json_read (json_esc c ++ s) = cons c <$> json_read s.
Proof.
  destruct (N.lt_ge_cases c (N.of_nat 93)) as [Hc|Hc].
  - pattern c. revert c Hc. apply below_forall.
    repeat (constructor; [reflexivity|]); constructor.
  - unfold json_esc, is_escaped. rewrite (proj2 (N.leb_gt _ _)), (proj2 (N.eqb_neq c 92)) by lia.
    cbn [orb]. rewrite (proj2 (N.eqb_neq 34 c)) by lia. cbn [app json_read].
    by rewrite (proj2 (N.eqb_neq c 34)), (proj2 (N.eqb_neq c 92)), (proj2 (N.ltb_ge c 32)) by lia.
Qed.

(** ** HTML entities *)

Lemma exec_from_first d r b s : Forall (λ c, c ≠ d) s → exec_from (RLit d +++ r)%rx b s = None.
Proof.
  intros Hs. revert b. induction Hs as [|c s Hc _ IH]; intros b; [done|]. cbn.
  by rewrite (proj2 (N.eqb_neq c d)) by done.
Qed.

Lemma stripTags_none s : Forall (λ c, c ≠ 60%N) s → stripTags s = s.
Proof. intros Hs. unfold stripTags, replace_all, tag_rx. cbn [replace_all_go].
  by rewrite exec_from_first. Qed.

(** Code units written as entities, all but the first [n] undone. *)
Definition ent_amp (c : N) : jsstr :=
  (if c =? 38 then js "&amp;" else if c =? 60 then js "&lt;" else if c =? 62 then js "&gt;" else [c])%N.
Definition ent_lt (c : N) : jsstr :=
  (if c =? 60 then js "&lt;" else if c =? 62 then js "&gt;" else [c])%N.
Definition ent_gt (c : N) : jsstr := (if c =? 62 then js "&gt;" else [c])%N.

Lemma escapeHTML_chars s : escapeHTML s = s ≫= ent_amp.
Proof.
  unfold escapeHTML. change (js "&") with [38%N]. change (js "<") with [60%N].
  change (js ">") with [62%N]. rewrite !replace_text_char.
  induction s as [|c s IH]; [done|]. cbn [mbind list_bind]. rewrite !bind_app, IH. f_equal.
  unfold ent_amp. rewrite !(N.eqb_sym c).
  destruct (38 =? c)%N eqn:H1; [apply N.eqb_eq in H1; by subst|]. cbn.
  destruct (60 =? c)%N eqn:H2; [by apply N.eqb_eq in H2; subst|]. cbn.
  by destruct (62 =? c)%N.
Qed.

(** The entities of code units other than [&], [<] and [>]. *)
Definition plain (c : N) : bool := negb ((c =? 38) || (c =? 60) || (c =? 62))%N.

Lemma is_prefix_bind w (f : N → jsstr) s :
  forallb plain w = true → (∀ c, plain c = true → f c = [c]) →
  (∀ c, plain c = false → ∃ t d, f c = d :: t ∧ plain d = false) →
  is_prefix w (s ≫= f) = is_prefix w s ∧
  (is_prefix w s = true → drop (length w) (s ≫= f) = drop (length w) s ≫= f).
Proof.
  intros Hw Hf Hf'. revert s. induction w as [|d w IH]; intros s; [by destruct s|].
  cbn in Hw. apply andb_true_iff in Hw as [Hd Hw].
  destruct s as [|c s]; [done|]. cbn [mbind list_bind].
  destruct (plain c) eqn:Hc.
  - rewrite Hf by done. cbn [app is_prefix drop length].
    destruct (IH Hw s) as [IH1 IH2]. rewrite IH1. split; [done|].
    intros [_ Hp]%andb_true_iff. by apply IH2.
  - destruct (Hf' c Hc) as (t & e & -> & He). cbn [app is_prefix].
    assert (∀ x, plain x = false → (d =? x)%N = false) as Hne.
    { intros x Hx. apply N.eqb_neq. intros ->. congruence. }
    by rewrite !Hne.
Qed.

Lemma replace_text_hit pat rep s : pat ≠ [] →
  replace_text pat rep (pat ++ s) = rep ++ replace_text pat rep s.
Proof.
  destruct pat as [|c pat]; [done|]. intros Hp. cbn [app]. rewrite replace_text_cons by done.
  change (c :: pat ++ s) with ((c :: pat) ++ s).
  rewrite (proj2 (is_prefix_spec _ _)) by by eexists. by rewrite drop_app_length.
Qed.

Lemma replace_text_miss pat rep c s : pat ≠ [] → is_prefix pat (c :: s) = false →
  replace_text pat rep (c :: s) = c :: replace_text pat rep s.
Proof. intros Hp Hm. by rewrite replace_text_cons, Hm. Qed.

Lemma replace_text_hit_cons pat rep c s : pat ≠ [] → is_prefix pat (c :: s) = true →
  replace_text pat rep (c :: s) = rep ++ replace_text pat rep (drop (length pat) (c :: s)).
Proof. intros Hp Hm. by rewrite replace_text_cons, Hm. Qed.

(** Scan over the code units of one entity. *)
Ltac scan_entity :=
  repeat first
    [ rewrite replace_text_miss by (done || reflexivity)
    | rewrite replace_text_hit_cons by (done || reflexivity); cbn [length drop] ].

(** Split on the code units with an entity. *)
Lemma entity_cases (P : N → Prop) :
  P 38%N → P 60%N → P 62%N → (∀ c, plain c = true → P c) → ∀ c, P c.
Proof.
  intros H1 H2 H3 H c. destruct (plain c) eqn:Hc; [by apply H|].
  unfold plain in Hc. apply negb_false_iff in Hc. rewrite !orb_true_iff, !N.eqb_eq in Hc.
  by destruct Hc as [[-> | ->]| ->].
Qed.

Lemma plain_neq c : plain c = true →
  (38 =? c)%N = false ∧ (60 =? c)%N = false ∧ (62 =? c)%N = false.
Proof. unfold plain. rewrite negb_true_iff, !orb_false_iff, !(N.eqb_sym c). tauto. Qed.

Lemma ent_plain c : plain c = true → ent_amp c = [c] ∧ ent_lt c = [c] ∧ ent_gt c = [c].
Proof.
  intros (H1 & H2 & H3)%plain_neq. unfold ent_amp, ent_lt, ent_gt.
  by rewrite !(N.eqb_sym c), H1, H2, H3.
Qed.

(** A pattern that starts with [&] is not at a plain code unit. *)
Lemma replace_text_plain w rep c s : plain c = true →
  replace_text (38%N :: w) rep (c :: s) = c :: replace_text (38%N :: w) rep s.
Proof.
  intros (H1 & _ & _)%plain_neq. apply replace_text_miss; [done|]. cbn. by rewrite H1.
Qed.

Lemma unescape_amp s :
  replace_text (js "&amp;") (js "&") (s ≫= ent_amp) = s ≫= ent_lt.
Proof.
  js_lit. induction s as [|c s IH]; [done|]. cbn [mbind list_bind].
  revert c. apply entity_cases.
  - change (ent_amp 38) with [38; 97; 109; 112; 59]%N. change (ent_lt 38) with [38%N].
    by rewrite replace_text_hit, IH.
  - change (ent_amp 60) with [38; 108; 116; 59]%N. change (ent_lt 60) with [38; 108; 116; 59]%N.
    cbn [app]. scan_entity. by rewrite IH.
  - change (ent_amp 62) with [38; 103; 116; 59]%N. change (ent_lt 62) with [38; 103; 116; 59]%N.
    cbn [app]. scan_entity. by rewrite IH.
  - intros c Hc. destruct (ent_plain c Hc) as (-> & -> & _). cbn [app].
    by rewrite replace_text_plain, IH.
Qed.

(** Plain texts after an ampersand are the same before and after a writing of
    [<] and [>] as entities. *)
Lemma is_prefix_ent_lt w s : forallb plain w = true →
  is_prefix (38%N :: w) (38%N :: (s ≫= ent_lt)) = is_prefix (38%N :: w) (38%N :: s) ∧
  (is_prefix w s = true → drop (length w) (s ≫= ent_lt) = drop (length w) s ≫= ent_lt).
Proof.
  intros Hw. destruct (is_prefix_bind w ent_lt s Hw) as [H1 H2].
  - intros c Hc. by apply ent_plain.
  - intros c. pattern c. revert c. apply entity_cases; [by eexists _, _..|congruence].
  - cbn. by rewrite H1.
Qed.
Lemma is_prefix_ent_gt w s : forallb plain w = true →
  is_prefix (38%N :: w) (38%N :: (s ≫= ent_gt)) = is_prefix (38%N :: w) (38%N :: s) ∧
  (is_prefix w s = true → drop (length w) (s ≫= ent_gt) = drop (length w) s ≫= ent_gt).
Proof.
  intros Hw. destruct (is_prefix_bind w ent_gt s Hw) as [H1 H2].
  - intros c Hc. by apply ent_plain.
  - intros c. pattern c. revert c. apply entity_cases; [by eexists _, _..|congruence].
  - cbn. by rewrite H1.
Qed.

Lemma unescape_lt s :
  replace_text (js "&lt;") (js "<") (s ≫= ent_lt) = replace_text (js "&lt;") (js "<") s ≫= ent_gt.
Proof.
  js_lit. induction s as [[|c s] IH] using length_ind; [done|]. cbn [mbind list_bind].
  pose proof (IH s (le_n _)) as IHs. revert c IH IHs. refine (entity_cases _ _ _ _ _).
  - intros IH IHs. change (ent_lt 38) with [38%N]. cbn [app].
    destruct (is_prefix_ent_lt [108; 116; 59]%N s eq_refl) as [H1 H2]. cbn [length] in H2.
    rewrite !(replace_text_cons _ _ 38%N) by done. rewrite H1. cbn [drop length].
    destruct (is_prefix [38; 108; 116; 59]%N (38%N :: s)) eqn:Hp.
    + rewrite H2 by (by cbn in Hp). rewrite IH; [done|].
      rewrite length_drop. cbn. lia.
    + by rewrite IHs.
  - intros IH IHs. change (ent_lt 60) with [38; 108; 116; 59]%N. rewrite replace_text_hit by done.
    rewrite (replace_text_miss _ _ 60%N) by done. by rewrite IHs.
  - intros IH IHs. change (ent_lt 62) with [38; 103; 116; 59]%N. cbn [app]. scan_entity.
    by rewrite IHs.
  - intros c Hc IH IHs. destruct (ent_plain c Hc) as (_ & -> & Hgt). cbn [app].
    rewrite !replace_text_plain by done. cbn [mbind list_bind]. rewrite Hgt.
    by rewrite IHs.
Qed.

Lemma unescape_gt s :
  replace_text (js "&gt;") (js ">") (s ≫= ent_gt) = replace_text (js "&gt;") (js ">") s.
Proof.
  js_lit. induction s as [[|c s] IH] using length_ind; [done|]. cbn [mbind list_bind].
  pose proof (IH s (le_n _)) as IHs. revert c IH IHs. refine (entity_cases _ _ _ _ _).
  - intros IH IHs. change (ent_gt 38) with [38%N]. cbn [app].
    destruct (is_prefix_ent_gt [103; 116; 59]%N s eq_refl) as [H1 H2]. cbn [length] in H2.
    rewrite !(replace_text_cons _ _ 38%N) by done. rewrite H1. cbn [drop length].
    destruct (is_prefix [38; 103; 116; 59]%N (38%N :: s)) eqn:Hp.
    + rewrite H2 by (by cbn in Hp). rewrite IH; [done|].
      rewrite length_drop. cbn. lia.
    + by rewrite IHs.
  - intros IH IHs. change (ent_gt 60) with [60%N]. cbn [app].
    rewrite !(replace_text_miss _ _ 60%N) by done. by rewrite IHs.
  - intros IH IHs. change (ent_gt 62) with [38; 103; 116; 59]%N. rewrite replace_text_hit by done.
    rewrite (replace_text_miss _ _ 62%N) by done. by rewrite IHs.
  - intros c Hc IH IHs. destruct (ent_plain c Hc) as (_ & _ & ->). cbn [app].
    rewrite !replace_text_plain by done. by rewrite IHs.
Qed.

Lemma ent_amp_no_lt s : Forall (λ c, c ≠ 60%N) (s ≫= ent_amp).
Proof.
  induction s as [|c s IH]; [constructor|]. cbn [mbind list_bind]. apply Forall_app. split; [|done].
  revert c. apply entity_cases; [repeat constructor; discriminate..|].
  intros c Hc. destruct (ent_plain c Hc) as (-> & _ & _). constructor; [|constructor].
  intros ->. discriminate.
Qed.

(** ** Affixes *)

Lemma index_from_ge p s i k : index_from p s i = Some k → (i ≤ k)%nat.
Proof.
  revert i. induction s as [|c s IH]; intros i; cbn; destruct (is_prefix p _).
  - intros [= <-]. done.
  - done.
  - intros [= <-]. done.
  - intros H%IH. lia.
Qed.

Lemma index_from_is_Some p s i : is_Some (index_from p s i) ↔ ∃ u v, s = u ++ p ++ v.
Proof.
  revert i. induction s as [|c s IH]; intros i; cbn; destruct (is_prefix p _) eqn:Hp.
  - split; [|done]. intros _. apply is_prefix_spec in Hp as [v Hv]. by exists [], v.
  - split; [by intros [? ?]|]. intros (u & v & Huv). destruct u, p; done.
  - split; [|done]. intros _. apply is_prefix_spec in Hp as [v Hv]. by exists [], v.
  - rewrite IH. split.
    + intros (u & v & ->). by exists (c :: u), v.
    + intros ([|d u] & v & Huv); [|injection Huv as -> ->; eauto].
      assert (is_prefix p (c :: s) = true) as Hp' by (apply is_prefix_spec; eauto). congruence.
Qed.

Lemma index_or_minus1_spec o : index_or_minus1 o = -1 ↔ o = None.
Proof. destruct o; cbn; [|done]. split; [lia|done]. Qed.

Lemma include_infix s p : include s p = true ↔ ∃ u v, s = u ++ p ++ v.
Proof.
  unfold include, indexOf. rewrite <- (index_from_is_Some p s 0).
  destruct (index_from p s 0) as [k|]; cbn.
  - split; [done|]. intros _. apply Z.ltb_lt. lia.
  - split; [done|by intros [? ?]].
Qed.

Lemma startsWith_prefix s p : startsWith s p = true ↔ ∃ v, s = p ++ v.
Proof.
  unfold startsWith, indexOf. rewrite Z.eqb_eq, <- is_prefix_spec. destruct s as [|c s]; cbn.
  - by destruct (is_prefix p []).
  - destruct (is_prefix p (c :: s)); [done|]. split; [|done].
    destruct (index_from p s 1) as [k|] eqn:Hk; cbn; [|done].
    apply index_from_ge in Hk. lia.
Qed.

Lemma last_index_upto_le s p i k : last_index_upto s p i = Some k → (k ≤ i)%nat.
Proof.
  revert k. induction i as [|i IH]; intros k; cbn; destruct (is_prefix p _).
  - intros [= <-]. done.
  - done.
  - intros [= <-]. done.
  - intros H%IH. lia.
Qed.

Lemma endsWith_suffix s p : endsWith s p = true ↔ ∃ u, s = u ++ p.
Proof.
  unfold endsWith, lastIndexOf, lastIndexOf_from. rewrite andb_true_iff, Z.leb_le, Z.eqb_eq.
  destruct (Nat.ltb_spec (length s) (length p)) as [Hlt|Hle].
  { split; [lia|]. intros [u ->]. rewrite length_app in Hlt. lia. }
  rewrite Nat2Z.id, Nat.min_r by lia. set (d := (length s - length p)%nat).
  assert (last_index_upto s p d = Some d ↔ is_prefix p (drop d s) = true) as Hd.
  { destruct d as [|d]; cbn; destruct (is_prefix p _) eqn:Hp; try done.
    split; [|done]. intros H%last_index_upto_le. lia. }
  trans (last_index_upto s p d = Some d).
  { split.
    - intros [_ Hl]. destruct (last_index_upto s p d) as [k|] eqn:Hk; cbn in Hl; [f_equal|]; lia.
    - intros ->. cbn. lia. }
  rewrite Hd, is_prefix_spec. split.
  - intros [v Hv]. exists (take d s).
    assert (length v = 0)%nat as Hv0.
    { apply (f_equal length) in Hv. rewrite length_drop, length_app in Hv. lia. }
    destruct v; [|done]. rewrite app_nil_r in Hv. by rewrite <- Hv, take_drop.
  - intros [u ->]. exists []. unfold d. rewrite length_app, Nat.add_sub, drop_app_length.
    by rewrite app_nil_r.
Qed.

(** ** White space *)
#[local] Arguments reverse : simpl never.

Lemma rmatch_star_class p k b s c :
  rmatch (RStar true (RChar p)) k (Pos b s, c) =
  or_else (match s with
           | d :: s' => if p d then rmatch (RStar true (RChar p)) k (Pos (d :: b) s', c) else None
           | [] => None
           end) (λ _, k (Pos b s, c)).
Proof.
  destruct s as [|d s]; [done|]. cbn [rmatch after fst length star_loop].
  destruct (p d); [|done]. cbn. by rewrite (proj2 (Nat.ltb_lt _ _)) by lia.
Qed.

(** [\s*] with a continuation that always succeeds takes all the spaces. *)
Lemma rmatch_star_all p b s c :
  ∃ y, rmatch (RStar true (RChar p)) Some (Pos b s, c) = Some y ∧
    after y.1 = (span p s).2.
Proof.
  revert b. induction s as [|d s IH]; intros b; rewrite rmatch_star_class; cbn [span].
  { by eexists. }
  destruct (p d) eqn:Hd; [|by eexists].
  destruct (IH (d :: b)) as (y & -> & Hy). exists y. split; [done|].
  by destruct (span p s).
Qed.

Lemma span_trim_left s : (span is_space s).2 = trim_left s.
Proof.
  induction s as [|c s IH]; cbn; [done|]. destruct (is_space c); [|done].
  rewrite <- IH. by destruct (span is_space s).
Qed.

Lemma exec_from_anchored r b s : b ≠ [] → exec_from (RBol +++ r)%rx b s = None.
Proof.
  revert b. induction s as [|c s IH]; intros b Hb; cbn; destruct b; try done. by apply IH.
Qed.

Lemma strip_left s :
  replace_first (RBol +++ RPlus (RChar is_space))%rx (λ _, []) s = trim_left s.
Proof.
  unfold replace_first, rx_match. destruct s as [|c s]; [done|]. cbn [exec_from].
  assert (rmatch (RBol +++ RPlus (RChar is_space))%rx Some (Pos [] (c :: s), ∅) =
    if is_space c then rmatch (RStar true (RChar is_space)) Some (Pos [c] s, ∅) else None)
    as -> by done.
  cbn [trim_left]. destruct (is_space c) eqn:Hc.
  - destruct (rmatch_star_all is_space [c] s ∅) as (y & -> & Hy). cbn.
    by rewrite Hy, span_trim_left.
  - by rewrite exec_from_anchored.
Qed.

(** [\s*$] *)
Lemma rmatch_star_end p b s c :
  rmatch (RStar true (RChar p)) (rmatch REol Some) (Pos b s, c) =
  if forallb p s then Some (Pos (reverse s ++ b) [], c) else None.
Proof.
  revert b. induction s as [|d s IH]; intros b; rewrite rmatch_star_class; [done|].
  cbn [forallb]. destruct (p d); [|done]. rewrite IH. cbn [andb].
  destruct (forallb p s); [|done]. cbn. by rewrite reverse_cons, <- app_assoc.
Qed.

Lemma trim_right_cons c s :
  trim_right (c :: s) = if forallb is_space (c :: s) then [] else c :: trim_right s.
Proof.
  unfold trim_right. rewrite reverse_cons.
  assert (∀ t u, trim_left (t ++ u) = if forallb is_space t then trim_left u else trim_left t ++ u)
    as Happ.
  { induction t as [|d t IH]; intros u; cbn; [done|]. destruct (is_space d); cbn; [apply IH|done]. }
  rewrite Happ. assert (forallb is_space (reverse s) = forallb is_space s) as ->.
  { apply bool_eq_iff. by rewrite !forallb_true_iff, Forall_reverse. }
  cbn [forallb]. destruct (forallb is_space s) eqn:Hs; cbn.
  - rewrite andb_true_r. destruct (is_space c); [done|].
    assert (trim_left (reverse s) = []) as ->; [|done].
    specialize (Happ (reverse s) []). rewrite app_nil_r in Happ. rewrite Happ.
    assert (forallb is_space (reverse s) = true) as ->; [|done].
    rewrite forallb_true_iff, Forall_reverse, <- forallb_true_iff. done.
  - rewrite andb_false_r. by rewrite reverse_app.
Qed.

Lemma strip_right s :
  replace_first (RPlus (RChar is_space) +++ REol)%rx (λ _, []) s = trim_right s.
Proof.
  unfold replace_first, rx_match.
  assert (∀ b, match exec_from (RPlus (RChar is_space) +++ REol)%rx b s with
    | Some m => m_before m ++ [] ++ m_rest m | None => reverse b ++ s end
    = reverse b ++ trim_right s) as Hgen.
  2: { specialize (Hgen []). cbn in Hgen. destruct (exec_from _ [] s); done. }
  induction s as [|c s IH]; intros b; [done|]. cbn [exec_from].
  assert (rmatch (RPlus (RChar is_space) +++ REol)%rx Some (Pos b (c :: s), ∅) =
    if is_space c then rmatch (RStar true (RChar is_space)) (rmatch REol Some) (Pos (c :: b) s, ∅)
    else None) as -> by done.
  rewrite rmatch_star_end, trim_right_cons. cbn [forallb].
  specialize (IH (c :: b)). rewrite reverse_cons, <- !app_assoc in IH.
  destruct (is_space c); cbn [andb]; [|by destruct (exec_from _ (c :: b) s)].
  destruct (forallb is_space s); [|by destruct (exec_from _ (c :: b) s)]. cbn. by rewrite app_nil_r.
Qed.

Lemma strip_trim s : strip s = trim s.
Proof. unfold strip, trim. by rewrite strip_left, strip_right. Qed.

Lemma blank_spec s : blank s = forallb is_space s.
Proof.
  unfold blank, blank_rx, rx_test, rx_match. apply bool_eq_iff. rewrite bool_decide_eq_true.
  assert (rmatch (RBol +++ RStar true (RChar is_space) +++ REol)%rx Some (Pos [] s, ∅) =
    rmatch (RStar true (RChar is_space)) (rmatch REol Some) (Pos [] s, ∅)) as Heq by done.
  rewrite rmatch_star_end in Heq.
  destruct s as [|c s]; [done|]. cbn [exec_from]. rewrite Heq.
  destruct (forallb is_space (c :: s)); [done|].
  rewrite exec_from_anchored by done. split; [by intros [? ?]|done].
Qed.

(** ** Bounds of [truncate] *)

Lemma truncate_length s n t :
  0 < n → Z.of_nat (length t) ≤ n → Z.of_nat (length (truncate s n t)) ≤ Z.max n (Z.of_nat (length s)) ∧
  (n < Z.of_nat (length s) → Z.of_nat (length (truncate s n t)) = n).
Proof.
  intros Hn Ht. unfold truncate. rewrite (proj2 (Z.eqb_neq n 0)) by lia.
  destruct (Z.ltb_spec n (Z.of_nat (length s))); [|lia].
  assert (Z.of_nat (length (slice s 0 (n - Z.of_nat (length t)) ++ t)) = n); [|lia].
  unfold slice, slice_end. rewrite (proj2 (Z.ltb_ge _ _)), (proj2 (Z.ltb_ge 0 _)) by lia.
  rewrite length_app, length_take. cbn. rewrite drop_0. lia.
Qed.

(** ** Properties *)

(** C6. [gsub] ends unless some piece it reaches matches without being shortened
    (an empty match at its head), and then it never ends; when it ends, as
    many rounds as the subject has code units are enough. *)
Theorem gsub_terminates {S} (pattern : rx) (replacement : match_res → S → jsstr * S)
    (source : jsstr) (s : S) :
  let stuck := ∃ piece, rtc (gsub_step pattern) source piece ∧ gsub_step pattern piece piece in
  (¬ stuck → is_Some (gsub_loop (length source) pattern replacement source s)) ∧
  (stuck → ∀ fuel, gsub_loop fuel pattern replacement source s = None).
Proof.
  split.
  - intros Hst. destruct (gsub_loop _ _ _ _ _) eqn:Hl; [done|].
    destruct Hst. by eapply gsub_loop_None.
  - intros (piece & Hr & Hp) fuel. by eapply gsub_loop_leads.
Qed.

(** C5. [toJSON] writes a JSON string literal that reads back as the string. *)
Theorem toJSON_roundtrip (s : jsstr) :
  ∃ t, toJSON s = Some t ∧ json_string t = Some s.
Proof.
  eexists. split; [apply toJSON_chars|]. cbn [json_string dq app].
  change ((34 =? 34)%N) with true. cbv iota.
  induction s as [|c s IH]; [done|]. cbn [mbind list_bind].
  by rewrite <- app_assoc, json_read_esc, IH.
Qed.

(** [unescapeHTML] undoes [escapeHTML] up to the entities [&lt;] and [&gt;]
    the string itself contains, which come back as [<] and [>]. *)
Theorem unescape_escape (s : jsstr) :
  unescapeHTML (escapeHTML s)
  = replace_text (js "&gt;") (js ">") (replace_text (js "&lt;") (js "<") s).
Proof.
  unfold unescapeHTML. rewrite escapeHTML_chars, stripTags_none by apply ent_amp_no_lt.
  by rewrite unescape_amp, unescape_lt, unescape_gt.
Qed.

Lemma gsub_terminates_witness :
  gsub_step (RStar true (RChar is_digit)) (js "a") (js "a") ∧
  gsub_loop 5 (RStar true (RChar is_digit)) (pure_replacement (λ _, js "-")) (js "a") () = None.
Proof.
  assert (gsub_step (RStar true (RChar is_digit)) (js "a") (js "a")) as H.
  { split; [done|]. eexists. split; reflexivity. }
  split; [exact H|].
  apply (gsub_terminates (RStar true (RChar is_digit)) (pure_replacement (λ _, js "-")) (js "a") ()).
  exists (js "a"). split; [apply rtc_refl|exact H].
Defined.

(** The ampersand entity is undone first, so a string with the text of an
    entity does not come back. *)
Lemma unescape_escape_differs : unescapeHTML (escapeHTML (js "&lt;b")) = js "<b".
Proof. reflexivity. Qed.
