(* ===== verification/Hash.v ===== *)
(** * Objects, hashes and query strings (prototype.js: Object, Hash, toQueryParams)

    A hash wraps an object, an association list in insertion order.  Query
    strings are written by [toQueryString] and read by [toQueryParams]. *)

From Stdlib Require Import ZArith.
From S2P Require Import Prelude JsBase JsNum JsRegex JsReplace JsUri Enumerable Strings.
#[local] Open Scope Z_scope.
#[local] Open Scope stdpp_scope.

Abbreviation object := (list (jsstr * jsv)).

(** ** Objects *)

(** [object[key] = value]: an existing property keeps its place. *)
Fixpoint assoc_set {B} (k : jsstr) (v : B) (o : list (jsstr * B)) : list (jsstr * B) :=
  match o with
  | [] => [(k, v)]
  | (k', v') :: o => if decide (k' = k) then (k', v) :: o else (k', v') :: assoc_set k v o
  end.
(** [delete object[key]] *)
Fixpoint assoc_del {B} (k : jsstr) (o : list (jsstr * B)) : list (jsstr * B) :=
  match o with
  | [] => []
  | (k', v') :: o => if decide (k' = k) then o else (k', v') :: assoc_del k o
  end.

(** [Object.extend(destination, source)] *)
Definition object_extend {B} (destination source : list (jsstr * B)) : list (jsstr * B) :=
  fold_left (λ d '(k, v), assoc_set k v d) source destination.
Definition object_clone (o : object) : object := object_extend [] o.
Definition object_keys (o : object) : list jsstr := o.*1.
Definition object_values (o : object) : list jsv := o.*2.

(** The properties every object inherits: those of ECMAScript, and those that
    browsers add to them.  Setting the property [__proto__] would change what an
    object inherits, and is not modelled: no statement is about that key. *)
Definition object_prototype : list jsstr :=
  js <$> ["constructor"; "toString"; "toLocaleString"; "valueOf"; "hasOwnProperty";
          "isPrototypeOf"; "propertyIsEnumerable"; "__proto__"; "__defineGetter__";
          "__defineSetter__"; "__lookupGetter__"; "__lookupSetter__"]%string.
(** Their values: functions, and [Object.prototype] itself, whose properties
    are not enumerable. *)
Definition inherited_value (key : jsstr) : jsv := if bool_decide (key = js "__proto__") then VObj [] else VFun key.
(** [key in object] and [object[key]] *)
Definition in_object (key : jsstr) (o : object) : bool :=
  bool_decide (is_Some (assoc_get key o)) || bool_decide (key ∈ object_prototype).
Definition object_lookup (o : object) (key : jsstr) : jsv :=
  match assoc_get key o with
  | Some v => v
  | None => if bool_decide (key ∈ object_prototype) then inherited_value key else VUndef
  end.

Definition isArray (v : jsv) : bool := match v with VArr _ => true | _ => false end.
Definition isUndefined (v : jsv) : bool := match v with VUndef => true | _ => false end.
Definition isString (v : jsv) : bool := match v with VStr _ => true | _ => false end.
Definition isNumber (v : jsv) : bool := match v with VNum _ => true | _ => false end.
Definition isFunction (v : jsv) : bool := match v with VFun _ => true | _ => false end.

(** [Object.inspect(object)]; plain objects print as [String(object)]. *)
Definition string_inspect (s : jsstr) : jsstr := default [] (inspect s false).
Fixpoint object_inspect (v : jsv) : jsstr :=
  match v with
  | VStr s => string_inspect s
  | VArr l => js "[" ++ join (js ", ") (object_inspect <$> l) ++ js "]"
  | v => string_of v
  end.

(** [Object.toJSON(object)]; [None] is [undefined]. *)
Definition string_toJSON (s : jsstr) : jsstr := default [] (toJSON s).
Fixpoint object_toJSON (v : jsv) : option jsstr :=
  match v with
  | VUndef | VFun _ => None
  | VNull => Some (js "null")
  | VBool b => Some (if b then js "true" else js "false")
  | VNum z => Some (num_str z)
  | VStr s => Some (string_toJSON s)
  | VArr l => Some (js "[" ++ join (js ", ") (omap object_toJSON l) ++ js "]")
  | VObj o =>
      Some (js "{" ++ join (js ", ")
        (omap (λ p : jsstr * jsv, match object_toJSON p.2 with
                  | Some value => Some (string_toJSON p.1 ++ js ": " ++ value)
                  | None => None
                  end) o) ++ js "}")
  end.

(** ** Hash *)

Record Hash := HashOf { _object : object }.

(** [new Hash(object)]: [inl] a hash, [inr] a plain object. *)
Definition new_hash (object : Hash + object) : Hash :=
  HashOf (object_clone (match object with inl h => object_clone (_object h) | inr o => o end)).

#[export] Instance hash_iterable : Iterable Hash (jsstr * jsv) := {|
  elements := _object;
  _each S h f := js_each (_object h) f;
  _each_elements S c f s := eq_refl;
|}.

Definition hash_set (h : Hash) (key : jsstr) (value : jsv) : Hash :=
  HashOf (assoc_set key value (_object h)).
(** [this._object[key] !== Object.prototype[key]] hides what is inherited. *)
Definition hash_get (h : Hash) (key : jsstr) : jsv := default VUndef (assoc_get key (_object h)).
Definition hash_unset (h : Hash) (key : jsstr) : jsv * Hash :=
  (object_lookup (_object h) key, HashOf (assoc_del key (_object h))).
Definition toObject (h : Hash) : object := object_clone (_object h).
Definition hash_keys {S} (h : Hash) : JS S (list jsstr) := pluck h fst.
Definition hash_values {S} (h : Hash) : JS S (list jsv) := pluck h snd.
(** [pair.value === value] on values other than objects *)
Definition strict_eq (v w : jsv) : bool :=
  match v, w with
  | VUndef, VUndef | VNull, VNull => true
  | VBool a, VBool b => bool_decide (a = b)
  | VNum a, VNum b => a =? b
  | VStr a, VStr b => bool_decide (a = b)
  | VFun a, VFun b => bool_decide (a = b)
  | _, _ => false
  end.
Definition hash_index {S} (h : Hash) (value : jsv) : JS S (option jsstr) :=
  m ← detect h (λ pair _, mret (strict_eq pair.2 value));
  mret (fst <$> m).
Definition hash_update {S} (h : Hash) (object : Hash + object) : JS S Hash :=
  inject (new_hash object) h (λ result pair _, mret (hash_set result pair.1 pair.2)).
Definition hash_merge {S} (h : Hash) (object : Hash + object) : JS S Hash :=
  hash_update (new_hash (inl h)) object.
Definition hash_inspect {S} (h : Hash) : JS S jsstr :=
  parts ← collect h (λ pair _,
    mret (join (js ": ") [string_inspect pair.1; object_inspect pair.2]));
  mret (js "#<Hash:{" ++ join (js ", ") parts ++ js "}>").

(** ** Query strings *)

Definition encode {S} (s : jsstr) : JS S jsstr :=
  match encodeURIComponent s with Some t => mret t | None => js_throw EURIError end.
Definition decode {S} (s : jsstr) : JS S jsstr :=
  match decodeURIComponent s with Some t => mret t | None => js_throw EURIError end.

Definition toQueryPair {S} (key : jsstr) (value : jsv) : JS S jsstr :=
  if isUndefined value then mret key
  else v ← encode (interpret value); mret (key ++ js "=" ++ v).

(** The iterator of [toQueryString]. *)
Definition query_step {S} (results : list jsstr) (pair : jsstr * jsv) (_ : Z) : JS S (list jsstr) :=
  key ← encode pair.1;
  match pair.2 with
  | VArr values => vs ← collect values (λ v _, toQueryPair key v); mret (results ++ vs)
  | VObj _ => mret results
  | v => p ← toQueryPair key v; mret (results ++ [p])
  end.

Definition toQueryString {S} (h : Hash) : JS S jsstr :=
  parts ← inject h [] query_step;
  mret (join (js "&") parts).

(** What precedes a fragment at the end of the string, back to a [?] or [#]. *)
Definition query_rx : rx :=
  (RGroup 1 (RStar true (RChar (none_of (js "?#")))) +++
   ROpt (RGroup 2 (RLit 35 +++ RStar true (RChar dot))) +++ REol)%rx.

(** One [pair] of the query string added to the object. *)
Definition add_pair {S} (hash : object) (pair : jsstr) : JS S object :=
  match split pair (js "=") with
  | [] | [] :: _ => mret hash
  | k :: rest =>
      key ← decode k;
      value ← match rest with
              | [] => mret VUndef
              | _ => v ← decode (join (js "=") rest); mret (VStr v)
              end;
      if in_object key hash then
        let old := match object_lookup hash key with VArr l => l | v => [v] end in
        mret (assoc_set key (VArr (old ++ [value])) hash)
      else mret (assoc_set key value hash)
  end.

Definition toQueryParams {S} (this separator : jsstr) : JS S object :=
  match rx_match query_rx (strip this) with
  | None => mret []
  | Some m =>
      let separator := if bool_decide (separator = []) then js "&" else separator in
      inject (split (m_group_or_empty m 1) separator) [] (λ hash pair _, add_pair hash pair)
  end.

(** ** Properties of query strings *)

(** Values that a query string carries without change. *)
Definition query_text (s : jsstr) : Prop := units s ∧ well_formed s = true.
Definition query_scalar (v : jsv) : Prop :=
  match v with VUndef => True | VStr s => query_text s | _ => False end.
Definition query_value (v : jsv) : Prop :=
  match v with
  | VArr l => (2 ≤ length l)%nat ∧ Forall query_scalar l
  | v => query_scalar v
  end.
Definition query_key (k : jsstr) : Prop := k ≠ [] ∧ query_text k ∧ k ∉ object_prototype.
Definition query_object (o : object) : Prop :=
  NoDup o.*1 ∧ Forall (λ p, query_key p.1 ∧ query_value p.2) o.

#[export] Instance query_text_dec s : Decision (query_text s).
Proof. unfold query_text, units. apply _. Defined.
#[export] Instance query_scalar_dec v : Decision (query_scalar v).
Proof. destruct v; cbn; apply _. Defined.
#[export] Instance query_value_dec v : Decision (query_value v).
Proof. destruct v; cbn; apply _. Defined.
#[export] Instance query_key_dec k : Decision (query_key k).
Proof. unfold query_key. apply _. Defined.
#[export] Instance query_object_dec o : Decision (query_object o).
Proof. unfold query_object. apply _. Defined.

Definition enc (s : jsstr) : jsstr := default [] (encodeURIComponent s).
#[local] Arguments enc : simpl never.

Lemma enc_spec s : query_text s →
  encodeURIComponent s = Some (enc s) ∧ decodeURIComponent (enc s) = Some s ∧
  forallb uri_out (enc s) = true.
Proof.
  intros [Hu Hw]. apply encode_well_formed in Hw as [t Ht]. unfold enc. rewrite Ht. cbn.
  split; [done|]. split; [by apply decode_encode|by eapply encode_out].
Qed.

Lemma enc_nonempty s : query_text s → s ≠ [] → enc s ≠ [].
Proof.
  intros Hs Hne He. destruct (enc_spec s Hs) as (_ & Hd & _). rewrite He in Hd. by injection Hd.
Qed.

(** One pair of the string per scalar. *)
Definition flat_pair (p : jsstr * jsv) : list (jsstr * jsv) :=
  match p.2 with VArr l => (λ v, (p.1, v)) <$> l | v => [(p.1, v)] end.
Definition part (p : jsstr * jsv) : jsstr :=
  match p.2 with VStr s => enc p.1 ++ js "=" ++ enc s | _ => enc p.1 end.
Definition scalar_pair (p : jsstr * jsv) : Prop := query_key p.1 ∧ query_scalar p.2.

Lemma flat_pair_scalar p : query_key p.1 → query_value p.2 → Forall scalar_pair (flat_pair p).
Proof.
  destruct p as [k v]. unfold flat_pair, scalar_pair. cbn. intros Hk Hv.
  destruct v; try (by constructor); try done. apply Forall_fmap. cbn. destruct Hv as [_ Hv].
  eapply Forall_impl; [exact Hv|]. by intros v.
Qed.

Lemma encode_run {S} k (s : S) : query_text k → encode k s = (Ret (enc k), s).
Proof. intros Hk. unfold encode. by destruct (enc_spec k Hk) as (-> & _ & _). Qed.
Lemma decode_run {S} k (s : S) : query_text k → decode (enc k) s = (Ret k, s).
Proof. intros Hk. unfold decode. by destruct (enc_spec k Hk) as (_ & -> & _). Qed.

Lemma toQueryPair_run {S} k v (s : S) : query_scalar v →
  toQueryPair (enc k) v s = (Ret (part (k, v)), s).
Proof.
  intros Hv. unfold toQueryPair, part. destruct v as [| | | |t| | |]; try done.
  cbn [isUndefined interpret is_nullish string_of snd fst].
  by rewrite (js_bind_Ret _ _ _ _ _ (encode_run t s Hv)).
Qed.

Lemma encode_breaks {S} k : never_breaks (encode k : JS S jsstr).
Proof. unfold encode. destruct (encodeURIComponent k); [done|]. by apply never_breaks_throw. Qed.
Lemma decode_breaks {S} k : never_breaks (decode k : JS S jsstr).
Proof. unfold decode. destruct (decodeURIComponent k); [done|]. by apply never_breaks_throw. Qed.
#[local] Hint Resolve encode_breaks decode_breaks : breaks.

Lemma toQueryPair_breaks {S} k v : never_breaks (toQueryPair k v : JS S jsstr).
Proof. unfold toQueryPair. destruct (isUndefined v); eauto with breaks. Qed.
#[local] Hint Resolve toQueryPair_breaks : breaks.

Lemma add_pair_breaks {S} hash pair : never_breaks (add_pair hash pair : JS S object).
Proof.
  unfold add_pair. destruct (split pair _) as [|[|c k] rest]; try done.
  apply never_breaks_bind; [eauto with breaks|]. intros key.
  apply never_breaks_bind; [destruct rest; eauto with breaks|]. intros value.
  destruct (in_object key hash); eauto with breaks.
Qed.

Lemma query_step_breaks {S} results : no_break (query_step results : _ → _ → JS S _).
Proof.
  apply no_break_never. intros [k v] i. unfold query_step.
  apply never_breaks_bind; [eauto with breaks|]. intros key. cbn.
  destruct v; unfold collect; eauto with breaks.
Qed.

Lemma query_step_run {S} results p i (s : S) : query_key p.1 → query_value p.2 →
  query_step results p i s = (Ret (results ++ (part <$> flat_pair p)), s).
Proof.
  destruct p as [k v]. unfold query_step, flat_pair. cbn. intros (_ & Hk & _) Hv.
  rewrite (js_bind_Ret _ _ _ _ _ (encode_run k s Hk)).
  destruct v as [| | | |t|l| |]; try done.
  - by rewrite (js_bind_Ret _ _ _ _ _ (toQueryPair_run k (VStr t) s Hv)).
  - rewrite (js_bind_Ret _ _ s (part <$> ((λ v, (k, v)) <$> l)) s); [done|].
    rewrite collect_run by (apply no_break_never; eauto with breaks).
    cbn [elements array_iterable]. destruct Hv as [_ Hv]. generalize 0.
    induction Hv as [|v l Hv Hl IH]; intros j; [done|]. cbn [map_loop fmap list_fmap].
    rewrite (js_bind_Ret _ _ _ _ _ (toQueryPair_run k v s Hv)).
    by rewrite (js_bind_Ret _ _ _ _ _ (IH (j + 1))).
Qed.

Lemma toQueryString_run {S} o (s : S) : query_object o →
  toQueryString (HashOf o) s = (Ret (join (js "&") (part <$> (o ≫= flat_pair))), s).
Proof.
  intros [_ Ho]. unfold toQueryString.
  rewrite (js_bind_Ret _ _ s (part <$> (o ≫= flat_pair)) s); [done|].
  rewrite inject_run by apply query_step_breaks. cbn [elements hash_iterable _object].
  change (part <$> (o ≫= flat_pair)) with ([] ++ (part <$> (o ≫= flat_pair))).
  generalize 0, (@nil jsstr). induction Ho as [|p o [Hk Hv] Ho IH]; intros i acc.
  { cbn. js_unfold. by rewrite app_nil_r. }
  cbn [fold_loop]. rewrite (js_bind_Ret _ _ _ _ _ (query_step_run acc p i s Hk Hv)).
  rewrite IH. cbn [mbind list_bind]. by rewrite fmap_app, app_assoc.
Qed.

(** *** Reading back *)

(** One scalar added to the object read so far. *)
Definition add1 (hash : object) (p : jsstr * jsv) : object :=
  if in_object p.1 hash then
    assoc_set p.1 (VArr (match object_lookup hash p.1 with VArr l => l | v => [v] end ++ [p.2])) hash
  else assoc_set p.1 p.2 hash.

Lemma uri_out_avoids c s : forallb uri_out s = true → uri_out c = false → c ∉ s.
Proof.
  rewrite forallb_true_iff, Forall_forall. intros Hs Hd Hin. specialize (Hs c Hin). congruence.
Qed.

Lemma split_part p : scalar_pair p →
  split (part p) (js "=") = enc p.1 :: match p.2 with VStr t => [enc t] | _ => [] end.
Proof.
  destruct p as [k v]. intros [(Hne & Hk & _) Hv]. cbn in *.
  destruct (enc_spec k Hk) as (_ & _ & Hout). change (js "=") with [61%N].
  assert (61%N ∉ enc k) by by apply uri_out_avoids.
  destruct v as [| | | |t| | |]; try done; unfold part; cbn [fst snd]; [by apply split_none|].
  destruct (enc_spec t Hv) as (_ & _ & Htout). change (js "=") with [61%N]. cbn [app].
  rewrite split_app by done. rewrite split_none; [done|]. by apply uri_out_avoids.
Qed.

Lemma add_pair_part {S} hash p (s : S) : scalar_pair p →
  add_pair hash (part p) s = (Ret (add1 hash p), s).
Proof.
  intros Hp. unfold add_pair. rewrite split_part by done.
  destruct p as [k v]. destruct Hp as [(Hne & Hk & _) Hv]. cbn in *.
  pose proof (enc_nonempty k Hk Hne) as Hkne.
  destruct (enc k) as [|c ek] eqn:Hek; [done|]. cbv iota. rewrite <- Hek.
  rewrite (js_bind_Ret _ _ _ _ _ (decode_run k s Hk)). unfold add1. cbn [fst snd].
  assert ((match match v with VStr t => [enc t] | _ => [] end with
           | [] => mret VUndef
           | _ => v ← decode (join (js "=") match v with VStr t => [enc t] | _ => [] end); mret (VStr v)
           end : JS S jsv) s = (Ret v, s)) as Hval.
  { destruct v as [| | | |t| | |]; try done. cbn [join].
    by rewrite (js_bind_Ret _ _ _ _ _ (decode_run t s Hv)). }
  rewrite (js_bind_Ret _ _ _ _ _ Hval). by destruct (in_object k hash).
Qed.

Lemma assoc_get_app {B} k (o1 o2 : list (jsstr * B)) : k ∉ o1.*1 →
  assoc_get k (o1 ++ o2) = assoc_get k o2.
Proof.
  unfold assoc_get. intros Hk.
  induction o1 as [|[k' v'] o1 IH]; [done|]. cbn in Hk. apply not_elem_of_cons in Hk as [Hne Hk].
  cbn [app list_find]. rewrite decide_False by (cbn; congruence). rewrite <- IH by done.
  by destruct (list_find _ (o1 ++ o2)) as [[]|].
Qed.
Lemma assoc_get_None {B} k (o : list (jsstr * B)) : k ∉ o.*1 → assoc_get k o = None.
Proof. intros Hk. rewrite <- (app_nil_r o). by rewrite assoc_get_app. Qed.
Lemma assoc_get_head {B} k (v : B) o : assoc_get k ((k, v) :: o) = Some v.
Proof. unfold assoc_get. cbn [list_find]. by rewrite decide_True. Qed.

Lemma assoc_set_app {B} k (v : B) (o1 o2 : list (jsstr * B)) : k ∉ o1.*1 →
  assoc_set k v (o1 ++ o2) = o1 ++ assoc_set k v o2.
Proof.
  intros Hk. induction o1 as [|[k' v'] o1 IH]; [done|].
  cbn in Hk. apply not_elem_of_cons in Hk as [Hne Hk]. cbn.
  rewrite decide_False by congruence. by rewrite IH.
Qed.
Lemma assoc_set_new {B} k (v : B) o : k ∉ o.*1 → assoc_set k v o = o ++ [(k, v)].
Proof. intros Hk. rewrite <- (app_nil_r o) at 1. by rewrite assoc_set_app. Qed.
Lemma assoc_set_last {B} k (v w : B) o : k ∉ o.*1 → assoc_set k v (o ++ [(k, w)]) = o ++ [(k, v)].
Proof. intros Hk. rewrite assoc_set_app by done. cbn. by rewrite decide_True. Qed.

Lemma add1_new acc k v : k ∉ acc.*1 → k ∉ object_prototype → add1 acc (k, v) = acc ++ [(k, v)].
Proof.
  intros Hk Hp. unfold add1, in_object. cbn [fst snd].
  rewrite assoc_get_None, !bool_decide_false by (done || by intros [? ?]). cbn.
  by apply assoc_set_new.
Qed.

Lemma add1_again acc k v w : k ∉ acc.*1 →
  add1 (acc ++ [(k, w)]) (k, v) = acc ++ [(k, VArr (match w with VArr l => l | _ => [w] end ++ [v]))].
Proof.
  intros Hk. unfold add1, in_object, object_lookup. cbn [fst snd].
  rewrite assoc_get_app, assoc_get_head by done. rewrite bool_decide_true by done. cbn [orb].
  rewrite assoc_set_last by done. by destruct w.
Qed.

Lemma add1_array acc k l vs : k ∉ acc.*1 →
  fold_left add1 ((λ v, (k, v)) <$> vs) (acc ++ [(k, VArr l)]) = acc ++ [(k, VArr (l ++ vs))].
Proof.
  intros Hk. revert l. induction vs as [|v vs IH]; intros l; cbn; [by rewrite app_nil_r|].
  rewrite add1_again by done. by rewrite IH, <- app_assoc.
Qed.

(** A pair, scalar or array, is restored at the end. *)
Lemma add1_flat acc p : p.1 ∉ acc.*1 → query_key p.1 → query_value p.2 →
  fold_left add1 (flat_pair p) acc = acc ++ [p].
Proof.
  destruct p as [k v]. unfold flat_pair. cbn. intros Hk (_ & _ & Hp) Hv.
  destruct v as [| | | |t|l| |]; try done; cbn; [by apply add1_new..|].
  destruct Hv as [Hlen Hv]. destruct l as [|v1 [|v2 l]]; cbn in Hlen; [lia..|].
  cbn [fmap list_fmap fold_left]. rewrite (add1_new acc), add1_again by done.
  apply Forall_cons in Hv as [Hv1 _].
  assert (match v1 with VArr l => l | _ => [v1] end = [v1]) as -> by by destruct v1.
  by rewrite add1_array.
Qed.

Lemma add1_all acc o : NoDup (acc ++ o).*1 → Forall (λ p, query_key p.1 ∧ query_value p.2) o →
  fold_left add1 (o ≫= flat_pair) acc = acc ++ o.
Proof.
  intros Hnd Ho. revert acc Hnd. induction Ho as [|p o [Hk Hv] Ho IH]; intros acc Hnd.
  { cbn. by rewrite app_nil_r. }
  cbn [mbind list_bind]. rewrite fold_left_app, add1_flat; [|
    |done|done].
  - rewrite IH, <- app_assoc; [done|]. by rewrite <- app_assoc.
  - rewrite fmap_app, NoDup_app in Hnd. destruct Hnd as (_ & Hnd & _). intros Hin.
    apply (Hnd _ Hin). left.
Qed.

(** The query part of a string without [?], [#] is the whole string. *)
Lemma rmatch_star_full p k b s c y : forallb p s = true →
  k (Pos (reverse s ++ b) [], c) = Some y → rmatch (RStar true (RChar p)) k (Pos b s, c) = Some y.
Proof.
  revert b. induction s as [|d s IH]; intros b Hs Hk; rewrite rmatch_star_class; [exact Hk|].
  cbn [forallb] in Hs. apply andb_true_iff in Hs as [Hd Hs]. rewrite Hd.
  erewrite IH; [done|done|]. by rewrite reverse_cons, <- app_assoc in Hk.
Qed.

Lemma query_rx_whole t : forallb (none_of (js "?#")) t = true →
  ∃ m, rx_match query_rx t = Some m ∧ m_group_or_empty m 1 = t.
Proof.
  intros Ht.
  assert (rmatch query_rx Some (Pos [] t, ∅) = Some (Pos (reverse t ++ []) [], {[1%nat := t]})) as Hr.
  { unfold query_rx. cbn [rmatch]. apply rmatch_star_full; [done|]. cbn.
    unfold consumed. cbn. rewrite Nat.sub_0_r, take_ge by done. done. }
  unfold rx_match. destruct t as [|c t]; cbn [exec_from]; rewrite Hr; by eexists.
Qed.

(** Code units of a query string. *)
Definition query_out (c : N) : bool := uri_out c || (c =? 61)%N || (c =? 38)%N.

Lemma query_out_spec c : query_out c = true → is_space c = false ∧ none_of (js "?#") c = true.
Proof.
  intros Hc. assert (c < N.of_nat 128)%N as Hlt.
  { unfold query_out, uri_out, uri_unescaped, is_digit, is_upper, is_lower in Hc.
    rewrite !orb_true_iff, !andb_true_iff, !N.leb_le, !N.eqb_eq, bool_decide_eq_true in Hc.
    destruct Hc as [[[[[[Hc|Hc]|Hc]|Hc]|Hc]|Hc]|Hc]; [lia..| |lia|lia|lia].
    revert c Hc. apply Forall_forall. js_lit. repeat (constructor; [reflexivity|]); constructor. }
  revert Hc. pattern c. revert c Hlt. apply below_forall.
  repeat (constructor; [first [discriminate | by intros _; vm_compute]|]); constructor.
Qed.

Lemma part_out p : scalar_pair p → forallb query_out (part p) = true.
Proof.
  assert (∀ s, forallb uri_out s = true → forallb query_out s = true) as Hsub.
  { intros s. rewrite !forallb_true_iff. intros Hs. eapply Forall_impl; [exact Hs|].
    cbn. intros c Hc. unfold query_out. by rewrite Hc. }
  destruct p as [k v]. intros [(Hne & Hk & _) Hv]. cbn in *.
  destruct (enc_spec k Hk) as (_ & _ & Hout). unfold part. cbn [fst snd].
  destruct v; try done; try by apply Hsub.
  destruct (enc_spec s Hv) as (_ & _ & Hsout).
  rewrite !forallb_app, (Hsub _ Hout), (Hsub _ Hsout). reflexivity.
Qed.

Lemma part_no_amp p : scalar_pair p → 38%N ∉ part p.
Proof.
  destruct p as [k v]. intros [(Hne & Hk & _) Hv]. cbn in *.
  destruct (enc_spec k Hk) as (_ & _ & Hout). unfold part. cbn [fst snd].
  assert (38%N ∉ enc k) by by apply uri_out_avoids.
  destruct v; try done. destruct (enc_spec s Hv) as (_ & _ & Hsout).
  assert (38%N ∉ enc s) by by apply uri_out_avoids. change (js "=") with [61%N]. set_solver.
Qed.

Lemma flat_scalar o : Forall (λ p, query_key p.1 ∧ query_value p.2) o →
  Forall scalar_pair (o ≫= flat_pair).
Proof.
  induction 1 as [|p o [Hk Hv] Ho IH]; [constructor|]. cbn [mbind list_bind].
  apply Forall_app. split; [by apply flat_pair_scalar|done].
Qed.

Lemma no_break_add_pair {S} hash :
  no_break ((λ hash pair _, add_pair hash pair) hash : jsstr → Z → JS S object).
Proof. apply no_break_never. intros pair i. apply add_pair_breaks. Qed.

Lemma fold_add_pair {S} l acc i (s : S) : Forall scalar_pair l →
  fold_loop (λ hash pair _, add_pair hash pair) (part <$> l) i acc s = (Ret (fold_left add1 l acc), s).
Proof.
  intros Hl. revert acc i. induction Hl as [|p l Hp Hl IH]; intros acc i; [done|].
  cbn [fmap list_fmap fold_loop]. rewrite (js_bind_Ret _ _ _ _ _ (add_pair_part acc p s Hp)).
  apply IH.
Qed.

(** C7. [toQueryParams] reads back what [toQueryString] writes, for objects whose
    keys are non-empty and not inherited from [Object.prototype], and whose
    values are undefined, strings, or arrays of at least two of these (a
    shorter array does not survive), all texts being well-formed UTF-16. *)
Theorem query_string_roundtrip {S} (o : object) (s : S) : query_object o →
  ∃ t, toQueryString (HashOf o) s = (Ret t, s) ∧ toQueryParams t [] s = (Ret o, s).
Proof.
  intros Ho. eexists. split; [by apply toQueryString_run|]. destruct Ho as [Hnd Ho].
  pose proof (flat_scalar o Ho) as Hflat.
  set (t := join (js "&") (part <$> (o ≫= flat_pair))).
  assert (forallb query_out t = true) as Hout.
  { apply forallb_join; [done|]. apply Forall_fmap. eapply Forall_impl; [exact Hflat|].
    by apply part_out. }
  rewrite forallb_true_iff in Hout. unfold toQueryParams.
  rewrite strip_trim, trim_no_space by (eapply Forall_impl; [exact Hout|]; by apply query_out_spec).
  destruct (query_rx_whole t) as (m & -> & Hm).
  { rewrite forallb_true_iff. eapply Forall_impl; [exact Hout|]. by apply query_out_spec. }
  rewrite Hm, bool_decide_true by done. rewrite inject_run by apply no_break_add_pair.
  cbn [elements array_iterable]. destruct (decide (o = [])) as [->|Hne]; [done|].
  unfold t. change (js "&") with [38%N]. rewrite split_join.
  - rewrite fold_add_pair by done. by rewrite add1_all.
  - destruct o as [|p o]; [done|]. apply Forall_cons in Ho as [[_ Hv] _]. cbn [mbind list_bind].
    destruct p as [k v]. unfold flat_pair. cbn in *. destruct v; try done.
    destruct l; [|done]. destruct Hv as [Hv _]. cbn in Hv. lia.
  - apply Forall_fmap. eapply Forall_impl; [exact Hflat|]. by apply part_no_amp.
Qed.

Lemma query_string_roundtrip_witness :
  let o := [(js "a b", VStr (js "1&2")); (js "t", VArr [VStr (js "x"); VUndef; VStr []])] in
  query_object o ∧
  ∃ t, toQueryString (HashOf o) () = (Ret t, ()) ∧ toQueryParams t [] () = (Ret o, ()).
Proof.
  intros o. assert (query_object o) as Ho.
  { apply (bool_decide_unpack _). vm_compute. exact I. }
  split; [exact Ho|]. apply (query_string_roundtrip o () Ho).
Defined.

(** ** Properties of hashes *)

Lemma assoc_get_cons {B} k k1 (v1 : B) o :
  assoc_get k ((k1, v1) :: o) = if decide (k1 = k) then Some v1 else assoc_get k o.
Proof.
  unfold assoc_get. cbn [list_find]. case_decide; cbn in *; case_decide; try congruence.
  by destruct (list_find _ o) as [[]|].
Qed.

Lemma assoc_get_set {B} k k' (v : B) o :
  assoc_get k (assoc_set k' v o) = if decide (k = k') then Some v else assoc_get k o.
Proof.
  induction o as [|[k1 v1] o IH]; cbn [assoc_set].
  { rewrite assoc_get_cons. repeat case_decide; congruence. }
  destruct (decide (k1 = k')) as [->|Hne]; rewrite !assoc_get_cons, ?IH;
    repeat case_decide; congruence.
Qed.

Lemma assoc_set_keys {B} k (v : B) o :
  (assoc_set k v o).*1 = if decide (k ∈ o.*1) then o.*1 else o.*1 ++ [k].
Proof.
  induction o as [|[k1 v1] o IH]; cbn; [done|].
  destruct (decide (k1 = k)) as [->|Hne]; cbn.
  - rewrite decide_True; [done|left].
  - rewrite IH. repeat case_decide; set_solver.
Qed.

Lemma assoc_set_NoDup {B} k (v : B) o : NoDup o.*1 → NoDup (assoc_set k v o).*1.
Proof.
  intros Hnd. rewrite assoc_set_keys. case_decide; [done|].
  apply NoDup_app. split; [done|]. split; [set_solver|apply NoDup_singleton].
Qed.

Lemma assoc_del_get {B} k k' (o : list (jsstr * B)) : NoDup o.*1 →
  assoc_get k (assoc_del k' o) = if decide (k = k') then None else assoc_get k o.
Proof.
  induction o as [|[k1 v1] o IH]; cbn [assoc_del]; [by case_decide|].
  intros [Hk1 Hnd]%NoDup_cons. specialize (IH Hnd).
  destruct (decide (k1 = k')) as [->|Hne]; rewrite !assoc_get_cons, ?IH;
    repeat case_decide; try congruence. subst. by apply assoc_get_None.
Qed.

Lemma assoc_get_elem {B} k (v : B) o : assoc_get k o = Some v → (k, v) ∈ o.
Proof.
  induction o as [|[k1 v1] o IH]; [done|]. rewrite assoc_get_cons. case_decide; [|by right; apply IH].
  intros [= ->]. subst. left.
Qed.

Lemma assoc_set_Forall {B} (P : jsstr * B → Prop) k v o : Forall P o → P (k, v) → Forall P (assoc_set k v o).
Proof.
  intros Ho Hv. induction Ho as [|[k1 v1] o H1 Ho IH]; cbn; [by repeat constructor|].
  case_decide; subst; constructor; done.
Qed.

Lemma object_extend_spec {B} (d s : list (jsstr * B)) : NoDup d.*1 → NoDup s.*1 →
  NoDup (object_extend d s).*1 ∧
  ∀ k, assoc_get k (object_extend d s)
       = match assoc_get k s with Some v => Some v | None => assoc_get k d end.
Proof.
  unfold object_extend. revert d. induction s as [|[k1 v1] s IH]; intros d Hd Hs; [done|].
  cbn in Hs. apply NoDup_cons in Hs as [Hk1 Hs]. cbn [fold_left].
  destruct (IH (assoc_set k1 v1 d)) as [Hnd Hget]; [by apply assoc_set_NoDup|done|].
  split; [done|]. intros k. rewrite Hget, assoc_get_set, assoc_get_cons.
  destruct (decide (k1 = k)) as [->|Hne].
  - by rewrite assoc_get_None, decide_True by done.
  - rewrite decide_False by congruence. done.
Qed.

Lemma object_extend_fresh {B} (d s : list (jsstr * B)) : NoDup (d ++ s).*1 → object_extend d s = d ++ s.
Proof.
  unfold object_extend. revert d. induction s as [|[k1 v1] s IH]; intros d Hnd; cbn.
  { by rewrite app_nil_r. }
  rewrite assoc_set_new.
  - rewrite IH; rewrite <- app_assoc; done.
  - rewrite fmap_app in Hnd. apply NoDup_app in Hnd as (_ & Hnd & _). intros Hin.
    apply (Hnd _ Hin). left.
Qed.

(** An object has one property per key. *)
Definition hash_ok (h : Hash) : Prop := NoDup (_object h).*1.

Lemma hash_update_run {S} h o (s : S) : hash_update h o s
  = (Ret (HashOf (object_extend (_object h) (_object (new_hash o)))), s).
Proof.
  unfold hash_update. rewrite inject_run by (intros; apply no_break_pure).
  cbn [elements hash_iterable]. generalize (_object (new_hash o)), 0. intros l i.
  unfold object_extend. revert h i. induction l as [|[k v] l IH]; intros h i; [by destruct h|].
  apply IH.
Qed.

Lemma object_extend_keys {B} (d s : list (jsstr * B)) : d.*1 `prefix_of` (object_extend d s).*1.
Proof.
  unfold object_extend. revert d. induction s as [|[k v] s IH]; intros d; [done|].
  cbn [fold_left]. etrans; [|apply IH]. rewrite assoc_set_keys.
  case_decide; [done|by apply prefix_app_r].
Qed.

(** [update] keeps one property per key, gives every key of the argument its
    value there, and leaves the other properties and the order of the keys
    already present; [merge] gives the same result as a new hash. *)
Theorem hash_update_spec {S} (h : Hash) (o : object) (s : S) :
  hash_ok h → NoDup o.*1 →
  ∃ h', hash_update h (inr o) s = (Ret h', s) ∧ hash_merge h (inr o) s = (Ret h', s) ∧
  hash_ok h' ∧ (_object h).*1 `prefix_of` (_object h').*1 ∧
  ∀ k, hash_get h' k = match assoc_get k o with Some v => v | None => hash_get h k end.
Proof.
  intros Hh Ho. exists (HashOf (object_extend (_object h) o)).
  assert (object_clone o = o) as Hclone by (by apply (object_extend_fresh [])).
  assert (object_clone (_object h) = _object h) as Hhclone by (by apply (object_extend_fresh [])).
  destruct (object_extend_spec (_object h) o Hh Ho) as [Hnd Hget].
  assert (new_hash (inr o) = HashOf o) as Hn by (unfold new_hash; by rewrite Hclone).
  assert (new_hash (inl h) = h) as Hnh by (unfold new_hash; rewrite !Hhclone; by destruct h).
  split; [by rewrite hash_update_run, Hn|].
  split; [unfold hash_merge; by rewrite hash_update_run, Hn, Hnh|].
  split; [done|]. split; [apply object_extend_keys|].
  intros k. unfold hash_get. cbn [_object]. rewrite Hget. by destruct (assoc_get k o).
Qed.

Lemma hash_update_spec_witness :
  let h := HashOf [(js "a", VNum 1); (js "b", VNum 2)] in
  let o := [(js "b", VNum 3); (js "c", VNum 4)] in
  hash_ok h ∧
  ∃ h', hash_update h (inr o) () = (Ret h', ()) ∧ hash_get h' (js "b") = VNum 3.
Proof.
  intros h o. assert (hash_ok h) as Hh by (apply (bool_decide_unpack _); vm_compute; exact I).
  assert (NoDup o.*1) as Ho by (apply (bool_decide_unpack _); vm_compute; exact I).
  split; [exact Hh|]. destruct (hash_update_spec h o () Hh Ho) as (h' & Hu & _ & _ & _ & Hg).
  exists h'. split; [exact Hu|]. rewrite Hg. reflexivity.
Defined.

(** Keys inherited from [Object.prototype] are taken for keys already read, so
    their first value arrives in an array behind the inherited function. *)
Lemma query_inherited_key :
  toQueryParams (js "constructor=1") [] () =
  (Ret [(js "constructor", VArr [VFun (js "constructor"); VStr (js "1")])], ()).
Proof. reflexivity. Qed.
