(* ===== verification/Dom.v ===== *)
(** * The document and Element.Methods (prototype.js)

    The document is a store of nodes.  What the browser computes from it, the
    layout and the computed styles, is a parameter of the methods that read
    it, applied to the document at the time of the call. *)

From Stdlib Require Import ZArith.
From S2P Require Import Prelude JsBase JsNum JsRegex JsReplace Enumerable Strings.
#[local] Open Scope Z_scope.
#[local] Open Scope stdpp_scope.

(** ** Nodes *)

Abbreviation nid := nat.

Inductive node_kind :=
| NElement (tag : jsstr)      (* tagName, upper case *)
| NText (value : jsstr)
| NComment
| NDocument.

Record node := Node {
  kind : node_kind;
  attrs : gmap jsstr jsstr;
  style : gmap jsstr jsstr;
  expando : gmap jsstr jsv;
  parentNode : option nid;
  childNodes : list nid;
}.

Abbreviation dom := (gmap nid node).
Abbreviation D := (JS dom).

(** How many nodes there are bounds every walk in a tree. *)
Definition node_count (d : dom) : nat := base.size d.

(** The document node. *)
Definition document : nid := 0%nat.

Definition is_element (n : node) : bool := match kind n with NElement _ => true | _ => false end.
Definition tagName (n : node) : jsstr := match kind n with NElement t => t | _ => [] end.

Definition set_attrs (a : gmap jsstr jsstr) (n : node) : node :=
  Node (kind n) a (style n) (expando n) (parentNode n) (childNodes n).
Definition set_style (s : gmap jsstr jsstr) (n : node) : node :=
  Node (kind n) (attrs n) s (expando n) (parentNode n) (childNodes n).
Definition set_expando (e : gmap jsstr jsv) (n : node) : node :=
  Node (kind n) (attrs n) (style n) e (parentNode n) (childNodes n).
Definition set_parent (p : option nid) (n : node) : node :=
  Node (kind n) (attrs n) (style n) (expando n) p (childNodes n).
Definition set_children (l : list nid) (n : node) : node :=
  Node (kind n) (attrs n) (style n) (expando n) (parentNode n) l.

(** Reading a property of [null] or of a node that does not exist throws. *)
Definition get_node (e : nid) : D node := λ d,
  match d !! e with Some n => (Ret n, d) | None => (Throw ETypeError, d) end.
Definition update_node (e : nid) (f : node → node) : D () := λ d,
  match d !! e with Some n => (Ret (), <[e := f n]> d) | None => (Throw ETypeError, d) end.

(** [element.style[name]], the empty string when it is not set; setting the
    empty string removes it. *)
Definition style_get (n : node) (name : jsstr) : jsstr := default [] (style n !! name).
Definition style_put (name value : jsstr) (n : node) : node :=
  set_style (if bool_decide (value = []) then delete name (style n)
             else <[name := value]> (style n)) n.
Definition put_style (e : nid) (name value : jsstr) : D () := update_node e (style_put name value).

Definition className (n : node) : jsstr := default [] (attrs n !! js "class").
Definition set_className (e : nid) (c : jsstr) : D () :=
  update_node e (λ n, set_attrs (<[js "class" := c]> (attrs n)) n).

(** *** The tree *)

(** [element.nextSibling], [element.previousSibling] and [firstChild] *)
Fixpoint after_in (e : nid) (l : list nid) : option nid :=
  match l with
  | [] => None
  | x :: l => if decide (x = e) then head l else after_in e l
  end.
Definition child_list (d : dom) (o : option nid) : list nid :=
  match o with Some p => match d !! p with Some n => childNodes n | None => [] end | None => [] end.
Definition parent_of (d : dom) (e : nid) : option nid := d !! e ≫= parentNode.
Definition nextSibling (d : dom) (e : nid) : option nid :=
  after_in e (child_list d (parent_of d e)).
Definition previousSibling (d : dom) (e : nid) : option nid :=
  after_in e (reverse (child_list d (parent_of d e))).
Definition firstChild (d : dom) (e : nid) : option nid := head (child_list d (Some e)).
Definition element_at (d : dom) (e : nid) : bool :=
  match d !! e with Some n => is_element n | None => false end.

(** The nodes below [e] in document order; [fuel] exceeds the depth. *)
Fixpoint subtree (fuel : nat) (d : dom) (e : nid) : list nid :=
  match fuel with
  | O => []
  | S fuel => child_list d (Some e) ≫= λ c, c :: subtree fuel d c
  end.
Definition descendants_of (d : dom) (e : nid) : list nid :=
  List.filter (element_at d) (subtree (node_count d) d e).

(** [document.getElementById(id)] *)
Definition attr_of (d : dom) (e : nid) (name : jsstr) : option jsstr := d !! e ≫= λ n, attrs n !! name.
Definition getElementById (d : dom) (id : jsstr) : option nid :=
  snd <$> list_find (λ e, attr_of d e (js "id") = Some id) (descendants_of d document).

(** [$(id)] *)
Definition dollar (id : jsstr) : D (option nid) := js_gets (λ d, getElementById d id).
(** A method called on the result of [$(id)]. *)
Definition on {A} (id : jsstr) (m : nid → D A) : D A :=
  o ← dollar id; match o with Some e => m e | None => js_throw ETypeError end.

(** ** Visibility *)

Definition visible (e : nid) : D bool :=
  n ← get_node e; mret (bool_decide (style_get n (js "display") ≠ js "none")).
Definition hide (e : nid) : D () := put_style e (js "display") (js "none").
Definition show (e : nid) : D () := put_style e (js "display") [].
Definition toggle (e : nid) : D () :=
  v ← visible e; if v : bool then hide e else show e.

(** [parent.removeChild(child)] *)
Definition removeChild (p e : nid) : D () := λ d,
  if bool_decide (e ∈ child_list d (Some p)) then
    (update_node p (λ n, set_children (filter (λ c, c ≠ e) (childNodes n)) n) ;;
     update_node e (set_parent None)) d
  else (Throw (EUser 1), d).

Definition remove (e : nid) : D () :=
  n ← get_node e;
  match parentNode n with Some p => removeChild p e | None => js_throw ETypeError end.

(** ** Walking the tree *)

(** The [while] loop of [recursivelyCollect]; [fuel] bounds the number of
    steps, which never exceeds the number of nodes of a tree. *)
Fixpoint collect_from (fuel : nat) (d : dom) (property : dom → nid → option nid) (e : nid) : list nid :=
  match fuel with
  | O => []
  | S fuel =>
      match property d e with
      | None => []
      | Some x => (if element_at d x then [x] else []) ++ collect_from fuel d property x
      end
  end.
Definition recursivelyCollect (property : dom → nid → option nid) (e : nid) : D (list nid) :=
  js_gets (λ d, collect_from (node_count d) d property e).

Definition ancestors (e : nid) : D (list nid) := recursivelyCollect parent_of e.
Definition previousSiblings (e : nid) : D (list nid) := recursivelyCollect previousSibling e.
Definition nextSiblings (e : nid) : D (list nid) := recursivelyCollect nextSibling e.
Definition siblings (e : nid) : D (list nid) :=
  p ← previousSiblings e; n ← nextSiblings e; mret (reverse p ++ n).
Definition descendants (e : nid) : D (list nid) := js_gets (λ d, descendants_of d e).

(** The first element at or after a node. *)
Fixpoint skip_to_element (fuel : nat) (d : dom) (o : option nid) : option nid :=
  match fuel, o with
  | S fuel, Some x => if element_at d x then Some x else skip_to_element fuel d (nextSibling d x)
  | _, _ => None
  end.
Definition firstDescendant (e : nid) : D (option nid) :=
  js_gets (λ d, skip_to_element (node_count d) d (firstChild d e)).
Definition immediateDescendants (e : nid) : D (list nid) :=
  o ← firstDescendant e;
  match o with
  | Some x => rest ← nextSiblings x; mret (x :: rest)
  | None => mret []
  end.

(** [up], [down], [previous] and [next] with an index or without argument *)
Definition up (e : nid) (index : option nat) : D (option nid) :=
  match index with
  | None => js_gets (λ d, parent_of d e)
  | Some i => l ← ancestors e; mret (l !! i)
  end.
Definition down (e : nid) (index : option nat) : D (option nid) :=
  match index with
  | None => firstDescendant e
  | Some i => l ← descendants e; mret (l !! i)
  end.
Definition previousElementSibling (d : dom) (e : nid) : option nid :=
  (fix go fuel e := match fuel with
   | O => None
   | S fuel => match previousSibling d e with
               | None => None
               | Some x => if element_at d x then Some x else go fuel x
               end
   end) (node_count d) e.
Definition nextElementSibling (d : dom) (e : nid) : option nid :=
  (fix go fuel e := match fuel with
   | O => None
   | S fuel => match nextSibling d e with
               | None => None
               | Some x => if element_at d x then Some x else go fuel x
               end
   end) (node_count d) e.
Definition previous (e : nid) (index : option nat) : D (option nid) :=
  match index with
  | None => js_gets (λ d, previousElementSibling d e)
  | Some i => l ← previousSiblings e; mret (l !! i)
  end.
Definition next (e : nid) (index : option nat) : D (option nid) :=
  match index with
  | None => js_gets (λ d, nextElementSibling d e)
  | Some i => l ← nextSiblings e; mret (l !! i)
  end.

(** [descendantOf] by the [parentNode] loop *)
Fixpoint has_ancestor (fuel : nat) (d : dom) (e ancestor : nid) : bool :=
  match fuel with
  | O => false
  | S fuel =>
      match parent_of d e with
      | None => false
      | Some p => bool_decide (p = ancestor) || has_ancestor fuel d p ancestor
      end
  end.
Definition descendantOf (e ancestor : nid) : D bool := js_gets (λ d, has_ancestor (node_count d) d e ancestor).

(** [cleanWhitespace] removes the white-space text children. *)
Definition blank_text (d : dom) (c : nid) : bool :=
  match d !! c with
  | Some n => match kind n with NText v => blank v | _ => false end
  | None => false
  end.
Definition cleanWhitespace (e : nid) : D () :=
  d ← js_get;
  js_each (child_list d (Some e)) (λ c, js_when (blank_text d c) (removeChild e c)).

(** ** Attributes *)

Definition readAttribute (e : nid) (name : jsstr) : D (option jsstr) :=
  n ← get_node e; mret (attrs n !! name).
(** The value given to [writeAttribute]: [false] and [null] remove the
    attribute, [true] gives it its own name. *)
Inductive attr_value := AFalse | ANull | ATrue | AText (s : jsstr).
Definition write_one (name : jsstr) (value : attr_value) (n : node) : node :=
  set_attrs (match value with
             | AFalse | ANull => delete name (attrs n)
             | ATrue => <[name := name]> (attrs n)
             | AText s => <[name := s]> (attrs n)
             end) n.
Definition writeAttribute (e : nid) (attributes : list (jsstr * attr_value)) : D () :=
  js_each attributes (λ p, update_node e (write_one p.1 p.2)).

(** [identify]: the counter of generated ids belongs to the function.  The
    [do while] loop tries at most one id more than there are nodes. *)
Fixpoint fresh_id (fuel : nat) (d : dom) (counter : Z) : jsstr * Z :=
  let id := js "anonymous_element_" ++ num_str counter in
  match fuel with
  | O => (id, counter + 1)
  | S fuel =>
      match getElementById d id with
      | Some _ => fresh_id fuel d (counter + 1)
      | None => (id, counter + 1)
      end
  end.
Definition identify (e : nid) (counter : Z) : D (jsstr * Z) :=
  id ← readAttribute e (js "id");
  match id with
  | Some (c :: s) => mret (c :: s, counter)
  | _ =>
      d ← js_get;
      let '(id, counter) := fresh_id (node_count d) d counter in
      writeAttribute e [(js "id", AText id)] ;;
      mret (id, counter)
  end.

(** ** Class names *)

(** [new RegExp("(^|\\s)" + className + "(\\s|$)")], for names without special
    characters of regular expressions *)
Definition class_rx (name : jsstr) : rx :=
  ((RBol <|> RChar is_space) +++ RStr name +++ (RChar is_space <|> REol))%rx.
Definition class_remove_rx (name : jsstr) : rx :=
  ((RBol <|> RPlus (RChar is_space)) +++ RStr name +++ (RPlus (RChar is_space) <|> REol))%rx.

Definition has_class (elementClassName name : jsstr) : bool :=
  bool_decide (elementClassName ≠ []) &&
  (bool_decide (elementClassName = name) || rx_test (class_rx name) elementClassName).
Definition add_class (elementClassName name : jsstr) : jsstr :=
  if has_class elementClassName name then elementClassName
  else elementClassName ++ (if bool_decide (elementClassName = []) then [] else js " ") ++ name.
Definition remove_class (elementClassName name : jsstr) : jsstr :=
  strip (replace_first (class_remove_rx name) (λ _, js " ") elementClassName).

Definition hasClassName (e : nid) (name : jsstr) : D bool :=
  n ← get_node e; mret (has_class (className n) name).
Definition addClassName (e : nid) (name : jsstr) : D () :=
  n ← get_node e; set_className e (add_class (className n) name).
Definition removeClassName (e : nid) (name : jsstr) : D () :=
  n ← get_node e; set_className e (remove_class (className n) name).
Definition toggleClassName (e : nid) (name : jsstr) : D () :=
  b ← hasClassName e name; if b : bool then removeClassName e name else addClassName e name.

(** [Element.ClassNames] *)
Definition class_names (c : jsstr) : list jsstr :=
  List.filter (λ name, negb (bool_decide (name = []))) (split_spaces c).
Definition classNames_add (c name : jsstr) : jsstr :=
  if bool_decide (name ∈ class_names c) then c else join (js " ") (class_names c ++ [name]).
Definition classNames_remove (c name : jsstr) : jsstr :=
  if bool_decide (name ∈ class_names c)
  then join (js " ") (filter (λ n, n ≠ name) (class_names c)) else c.
Definition classNames_toString (c : jsstr) : jsstr := join (js " ") (class_names c).

(** [update(content)] for a text: the markup without its scripts becomes the
    [innerHTML], kept as it was assigned; the scripts run later and are not
    modelled. *)
Definition update (e : nid) (content : jsstr) : D () :=
  update_node e (λ n, set_expando (<[js "innerHTML" := VStr (stripScripts content)]> (expando n)) n).
Definition innerHTML (d : dom) (e : nid) : option jsstr :=
  match d !! e ≫= λ n, expando n !! js "innerHTML" with Some (VStr s) => Some s | _ => None end.

(** ** Styles and geometry *)

(** What the browser lays out for an element, in pixels. *)
Record geometry := Geometry {
  offsetTop : Z; offsetLeft : Z; offsetWidth : Z; offsetHeight : Z;
  clientWidth : Z; clientHeight : Z; scrollTop : Z; scrollLeft : Z;
  offsetParent : option nid;
}.

Section browser.
(** [getComputedStyle(element, null)[style]] and the layout. *)
Context (computed : dom → nid → jsstr → option jsstr) (layout : dom → nid → geometry).

(** [getStyle] of a style other than the opacity; [None] is [null]. *)
Definition style_name (style : jsstr) : jsstr :=
  if bool_decide (style = js "float") then js "cssFloat" else camelize style.
Definition getStyle (e : nid) (style : jsstr) : D (option jsstr) :=
  n ← get_node e;
  d ← js_get;
  let style := style_name style in
  let value := style_get n style in
  let value := if bool_decide (value = []) || bool_decide (value = js "auto")
               then computed d e style else Some value in
  mret (if bool_decide (value = Some (js "auto")) then None else value).
Definition getOpacity (e : nid) : D num :=
  n ← get_node e;
  d ← js_get;
  let value := style_get n (js "opacity") in
  let value := if bool_decide (value = []) || bool_decide (value = js "auto")
               then default [] (computed d e (js "opacity")) else value in
  mret (if bool_decide (value = []) then int 1 else parseFloat value).

Definition setOpacity (e : nid) (value : num) : D () :=
  put_style e (js "opacity")
    (if num_eqb value (int 1) then []
     else if num_ltb value (lit (QArith_base.Qmake 1 100000)) then js "0"
     else number_str value).

(** [setStyle] with an object; the opacity is converted from its text. *)
Definition setStyle (e : nid) (styles : list (jsstr * jsstr)) : D () :=
  js_each styles (λ p,
    if bool_decide (p.1 = js "opacity")
    then if bool_decide (p.2 = []) then put_style e (js "opacity") []
         else setOpacity e (to_number p.2)
    else put_style e (if bool_decide (p.1 = js "float") then js "cssFloat" else p.1) p.2).

(** Elements that are not displayed are shown, hidden from view, to be
    measured. *)
Definition measure_hidden (e : nid) : D (Z * Z) :=
  n ← get_node e;
  let originalVisibility := style_get n (js "visibility") in
  let originalPosition := style_get n (js "position") in
  let originalDisplay := style_get n (js "display") in
  put_style e (js "visibility") (js "hidden") ;;
  put_style e (js "position") (js "absolute") ;;
  put_style e (js "display") (js "block") ;;
  d ← js_get;
  let originalWidth := clientWidth (layout d e) in
  let originalHeight := clientHeight (layout d e) in
  put_style e (js "display") originalDisplay ;;
  put_style e (js "position") originalPosition ;;
  put_style e (js "visibility") originalVisibility ;;
  mret (originalWidth, originalHeight).
Definition getDimensions (e : nid) : D (Z * Z) :=
  display ← getStyle e (js "display");
  d ← js_get;
  if bool_decide (display ≠ Some (js "none")) && bool_decide (display ≠ None)
  then mret (offsetWidth (layout d e), offsetHeight (layout d e))
  else measure_hidden e.
Definition getHeight (e : nid) : D Z := wh ← getDimensions e; mret wh.2.
Definition getWidth (e : nid) : D Z := wh ← getDimensions e; mret wh.1.

Definition expando_get (n : node) (name : jsstr) : jsv := default VUndef (expando n !! name).
Definition put_expando (e : nid) (name : jsstr) (v : jsv) : D () :=
  update_node e (λ n, set_expando (<[name := v]> (expando n)) n).

(** The branch for Opera is left out: [top] and [left] stay as they are. *)
Definition makePositioned (e : nid) : D () :=
  pos ← getStyle e (js "position");
  js_when (bool_decide (pos = Some (js "static")) || bool_decide (pos = None)
           || bool_decide (pos = Some []))
    (put_expando e (js "_madePositioned") (VBool true) ;;
     put_style e (js "position") (js "relative")).
Definition is_true (v : jsv) : bool := match v with VBool b => b | _ => false end.
Definition undoPositioned (e : nid) : D () :=
  n ← get_node e;
  js_when (is_true (expando_get n (js "_madePositioned")))
    (put_expando e (js "_madePositioned") VUndef ;;
     put_style e (js "right") [] ;; put_style e (js "bottom") [] ;;
     put_style e (js "left") [] ;; put_style e (js "top") [] ;;
     put_style e (js "position") []).

Definition nonempty_text (v : jsv) : option jsstr :=
  match v with VStr (c :: s) => Some (c :: s) | _ => None end.
Definition makeClipping (e : nid) : D () :=
  n ← get_node e;
  match nonempty_text (expando_get n (js "_overflow")) with
  | Some _ => mret ()
  | None =>
      o ← getStyle e (js "overflow");
      let overflow := match o with Some (c :: s) => c :: s | _ => js "auto" end in
      put_expando e (js "_overflow") (VStr overflow) ;;
      js_when (bool_decide (overflow ≠ js "hidden")) (put_style e (js "overflow") (js "hidden"))
  end.
Definition undoClipping (e : nid) : D () :=
  n ← get_node e;
  match nonempty_text (expando_get n (js "_overflow")) with
  | None => mret ()
  | Some overflow =>
      put_style e (js "overflow") (if bool_decide (overflow = js "auto") then [] else overflow) ;;
      put_expando e (js "_overflow") VNull
  end.

(** The [do while] loops over [offsetParent] and [parentNode]; [fuel] bounds
    the depth of the document. *)
Fixpoint sum_chain (fuel : nat) (step : nid → option nid) (left top : nid → Z) (e : nid) : Z * Z :=
  match fuel with
  | O => (0, 0)
  | S fuel =>
      let '(l, t) := match step e with Some p => sum_chain fuel step left top p | None => (0, 0) end in
      (left e + l, top e + t)
  end.
Definition cumulativeOffset (e : nid) : D (Z * Z) := js_gets (λ d,
  let g := layout d in
  sum_chain (node_count d) (λ x, offsetParent (g x)) (λ x, offsetLeft (g x)) (λ x, offsetTop (g x)) e).
Definition cumulativeScrollOffset (e : nid) : D (Z * Z) := js_gets (λ d,
  let g := layout d in
  sum_chain (node_count d) (parent_of d) (λ x, scrollLeft (g x)) (λ x, scrollTop (g x)) e).

Definition style_of (d : dom) (e : nid) (name : jsstr) : option jsstr :=
  match getStyle e name d with (Ret v, _) => v | (Throw _, _) => None end.
Definition is_body (d : dom) (e : nid) : bool :=
  match d !! e with Some n => bool_decide (toUpperCase (tagName n) = js "BODY") | None => false end.
(** The chain ends at the body and at a positioned element. *)
Definition positionedOffset (e : nid) : D (Z * Z) := js_gets (λ d,
  let g := layout d in
  sum_chain (node_count d)
    (λ x, match offsetParent (g x) with
          | Some p => if is_body d p || bool_decide (style_of d p (js "position") ≠ Some (js "static"))
                      then None else Some p
          | None => None
          end)
    (λ x, offsetLeft (g x)) (λ x, offsetTop (g x)) e).

Fixpoint offset_parent_loop (fuel : nat) (d : dom) (body e : nid) : nid :=
  match fuel with
  | O => body
  | S fuel =>
      match parent_of d e with
      | None => body
      | Some p =>
          if decide (p = body) then body
          else if bool_decide (style_of d p (js "position") ≠ Some (js "static")) then p
          else offset_parent_loop fuel d body p
      end
  end.
Definition getOffsetParent (body e : nid) : D nid := js_gets (λ d,
  match offsetParent (layout d e) with
  | Some p => p
  | None => if decide (e = body) then e else offset_parent_loop (node_count d) d body e
  end).

(** The first loop stops below the body at an absolutely positioned element;
    the second subtracts the scroll offsets of all ancestors. *)
Definition viewportOffset (body e : nid) : D (Z * Z) := js_gets (λ d,
  let g := layout d in
  let '(l, t) := sum_chain (node_count d)
    (λ x, if bool_decide (offsetParent (g x) = Some body) &&
             bool_decide (style_of d x (js "position") = Some (js "absolute"))
          then None else offsetParent (g x))
    (λ x, offsetLeft (g x)) (λ x, offsetTop (g x)) e in
  let '(sl, st) := sum_chain (node_count d) (parent_of d)
    (λ x, scrollLeft (g x)) (λ x, scrollTop (g x)) e in
  (l - sl, t - st)).

Record clone_options := CloneOptions {
  setLeft : bool; setTop : bool; setWidth : bool; setHeight : bool;
  c_offsetTop : Z; c_offsetLeft : Z }.
Definition px (z : Z) : jsstr := num_str z ++ js "px".
Definition clonePosition (body e source : nid) (options : clone_options) : D () :=
  p ← viewportOffset body source;
  pos ← getStyle e (js "position");
  parent_delta ← (if bool_decide (pos = Some (js "absolute"))
                  then parent ← getOffsetParent body e;
                       delta ← viewportOffset body parent;
                       mret (Some parent, delta)
                  else mret (None, (0, 0)));
  d ← js_get;
  let '(parent, delta) := parent_delta in
  let delta := if bool_decide (parent = Some body)
               then (delta.1 - offsetLeft (layout d body), delta.2 - offsetTop (layout d body))
               else delta in
  js_when (setLeft options) (put_style e (js "left") (px (p.1 - delta.1 + c_offsetLeft options))) ;;
  js_when (setTop options) (put_style e (js "top") (px (p.2 - delta.2 + c_offsetTop options))) ;;
  js_when (setWidth options) (d ← js_get; put_style e (js "width") (px (offsetWidth (layout d source)))) ;;
  js_when (setHeight options) (d ← js_get; put_style e (js "height") (px (offsetHeight (layout d source)))).
End browser.

(** ** Class names as sets of tokens *)
#[local] Arguments reverse : simpl never.

Fixpoint tokens_go (s cur : jsstr) : list jsstr :=
  match s with
  | [] => match cur with [] => [] | _ => [cur] end
  | c :: s => if is_space c
              then match cur with [] => tokens_go s [] | _ => cur :: tokens_go s [] end
              else tokens_go s (cur ++ [c])
  end.
Definition tokens (s : jsstr) : list jsstr := tokens_go s [].
#[global] Arguments tokens : simpl never.

Lemma class_names_tokens s : class_names s = tokens s.
Proof.
  unfold class_names, split_spaces, tokens.
  assert (∀ cur, List.filter (λ name, negb (bool_decide (name = []))) (split_spaces_go s cur)
    = tokens_go s cur) as H; [|apply H].
  induction s as [|c s IH]; intros cur; cbn [split_spaces_go tokens_go].
  { cbn. by destruct cur. }
  destruct (is_space c); [|apply IH].
  destruct s as [|d s]; [by destruct cur|].
  destruct (is_space d) eqn:Hd.
  - rewrite IH. cbn [tokens_go]. rewrite Hd. by destruct cur.
  - cbn [List.filter]. rewrite IH. by destruct cur.
Qed.

Lemma tokens_go_app u c v cur : is_space c = true →
  tokens_go (u ++ c :: v) cur = tokens_go u cur ++ tokens v.
Proof.
  intros Hc. revert cur. induction u as [|d u IH]; intros cur; cbn.
  - rewrite Hc. by destruct cur.
  - destruct (is_space d); [|apply IH]. destruct cur; [apply IH|]. by rewrite IH.
Qed.
Lemma tokens_app u c v : is_space c = true → tokens (u ++ c :: v) = tokens u ++ tokens v.
Proof. apply tokens_go_app. Qed.
Lemma tokens_space c v : is_space c = true → tokens (c :: v) = tokens v.
Proof. intros Hc. by apply (tokens_app [] c v). Qed.
Lemma tokens_spaces u v : forallb is_space u = true → tokens (u ++ v) = tokens v.
Proof.
  induction u as [|c u IH]; [done|]. cbn. intros [Hc Hu]%andb_true_iff.
  rewrite tokens_space by done. by apply IH.
Qed.

(** A class name: non-empty, without spaces. *)
Definition class_token (name : jsstr) : Prop := name ≠ [] ∧ forallb (λ c, negb (is_space c)) name = true.

Lemma tokens_go_word name cur : forallb (λ c, negb (is_space c)) name = true →
  tokens_go name cur = match cur ++ name with [] => [] | w => [w] end.
Proof.
  revert cur. induction name as [|c name IH]; intros cur; cbn; [by rewrite app_nil_r; destruct cur|].
  intros [Hc Hn]%andb_true_iff. apply negb_true_iff in Hc. rewrite Hc, IH by done.
  by rewrite <- app_assoc.
Qed.
Lemma tokens_word name : class_token name → tokens name = [name].
Proof. intros [Hne Hn]. unfold tokens. rewrite tokens_go_word by done. by destruct name. Qed.

Lemma tokens_trim_left s : tokens (trim_left s) = tokens s.
Proof.
  induction s as [|c s IH]; cbn [trim_left]; [done|]. destruct (is_space c) eqn:Hc; [|done].
  by rewrite IH, tokens_space.
Qed.
Lemma tokens_trim_right s : tokens (trim_right s) = tokens s.
Proof.
  assert (∀ cur, tokens_go (trim_right s) cur = tokens_go s cur) as H; [|apply H].
  induction s as [|c s IH]; intros cur; [done|]. rewrite trim_right_cons.
  destruct (forallb is_space (c :: s)) eqn:Hs.
  - cbn in Hs. apply andb_true_iff in Hs as [Hc Hs]. cbn. rewrite Hc.
    assert (tokens_go s [] = []) as Htok.
    { pose proof (tokens_spaces s [] Hs) as H. by rewrite app_nil_r in H. }
    rewrite Htok. by destruct cur.
  - cbn. by rewrite !IH.
Qed.
Lemma tokens_strip s : tokens (strip s) = tokens s.
Proof. rewrite strip_trim. unfold trim. by rewrite tokens_trim_right, tokens_trim_left. Qed.

(** Before a token: nothing, or a text that ends with a space; after it:
    nothing, or one that starts with a space. *)
Definition left_edge (u : jsstr) : Prop := u = [] ∨ ∃ u' c, u = u' ++ [c] ∧ is_space c = true.
Definition right_edge (v : jsstr) : Prop := v = [] ∨ ∃ c v', v = c :: v' ∧ is_space c = true.

Lemma tokens_edges u name v : class_token name → left_edge u → right_edge v →
  tokens (u ++ name ++ v) = tokens u ++ name :: tokens v.
Proof.
  intros Hn Hu Hv.
  assert (tokens (name ++ v) = name :: tokens v) as Hnv.
  { destruct Hv as [->|(c & v' & -> & Hc)].
    - rewrite app_nil_r. by apply tokens_word.
    - rewrite tokens_app, tokens_word, tokens_space by done. done. }
  destruct Hu as [->|(u' & c & -> & Hc)]; [done|].
  assert (tokens (u' ++ [c]) = tokens u') as Hu.
  { rewrite tokens_app by done. cbn. by rewrite app_nil_r. }
  rewrite <- app_assoc. cbn [app]. by rewrite tokens_app, Hu, Hnv.
Qed.

(** Every token sits between edges. *)
Lemma tokens_find s name : name ∈ tokens s → ∃ u v, s = u ++ name ++ v ∧ left_edge u ∧ right_edge v.
Proof.
  unfold tokens.
  assert (∀ cur, forallb (λ c, negb (is_space c)) cur = true → name ∈ tokens_go s cur →
    (∃ v, cur ++ s = name ++ v ∧ right_edge v) ∨
    (∃ u v, cur ++ s = u ++ name ++ v ∧ left_edge u ∧ right_edge v)) as H.
  { induction s as [|c s IH]; intros cur Hcur; cbn [tokens_go].
    - destruct cur; [by intros ?%not_elem_of_nil|]. intros ->%list_elem_of_singleton.
      left. exists []. split; [done|by left].
    - destruct (is_space c) eqn:Hc.
      + assert (name ∈ tokens_go s [] → ∃ u v, cur ++ c :: s = u ++ name ++ v ∧
          left_edge u ∧ right_edge v) as Hrest.
        { intros [(v & Hs & Hv)|(u & v & Hs & Hu & Hv)]%IH; [..|done].
          - cbn in Hs. exists (cur ++ [c]), v. split; [by rewrite Hs, <- app_assoc|].
            split; [right; by eexists _, _|done].
          - cbn in Hs. exists (cur ++ c :: u), v. split; [by rewrite Hs, <- app_assoc|].
            split; [|done]. right. destruct Hu as [->|(u' & d & -> & Hd)].
            + by exists cur, c.
            + exists (cur ++ c :: u'), d. by rewrite <- app_assoc. }
        destruct cur as [|d cur]; [by intros ?%Hrest; right|].
        rewrite elem_of_cons. intros [->|Hin]; [left|right; by apply Hrest].
        exists (c :: s). split; [done|]. right. by eexists _, _.
      + intros Hin. destruct (IH (cur ++ [c])) as [(v & Hs & Hv)|(u & v & Hs & Hu & Hv)]; [|done|..].
        * by rewrite forallb_app, Hcur; cbn; rewrite Hc.
        * left. exists v. by rewrite <- app_assoc in Hs.
        * right. exists u, v. by rewrite <- app_assoc in Hs. }
  intros [(v & Hs & Hv)|(u & v & Hs & Hu & Hv)]%H; [..|done].
  - exists [], v. split; [done|]. split; [by left|done].
  - by exists u, v.
Qed.

(** *** The expressions against the tokens *)

Lemma class_rx_matches s name : rx_test (class_rx name) s = true ↔
  ∃ u v, s = u ++ name ++ v ∧ left_edge u ∧ right_edge v.
Proof.
  assert (no_back (class_rx name) = true) as Hnb.
  { unfold class_rx, RStr. cbn. rewrite andb_true_r. induction name; [done|]. done. }
  rewrite (rx_test_spec _ _ Hnb). unfold class_rx. split.
  - intros (u & v & y & -> & Hm).
    apply matches_seq_iff in Hm as (x1 & H1 & (x2 & H2 & H3)%matches_seq_iff).
    apply matches_text in H2 as [H2 _].
    assert (right_edge (after x2)) as Hr.
    { apply matches_alt_iff in H3 as [(c & s & Hc & Hs & _)%matches_char_iff|[Hy _]%matches_eol_iff].
      - right. by exists c, s.
      - by left. }
    apply matches_alt_iff in H1 as [[Hu ->]%matches_bol_iff|(c & s & Hc & Hs & ->)%matches_char_iff].
    + cbn in *. assert (u = []) as -> by (rewrite <- (reverse_involutive u), Hu; done).
      exists [], (after x2). split; [done|]. split; [by left|done].
    + cbn in *. subst. exists (u ++ [c]), (after x2).
      split; [by rewrite <- app_assoc|]. split; [|done]. right. by exists u, c.
  - intros (u & v & -> & Hu & Hv).
    assert (∀ b, ∃ y, matches (RStr name +++ (RChar is_space <|> REol))%rx (Pos b (name ++ v)) y) as Hrest.
    { intros b. destruct Hv as [->|(c & v' & -> & Hc)];
        eexists; apply matches_seq_iff; eexists (Pos (reverse name ++ b) _);
        (split; [by apply matches_text|]); apply matches_alt_iff.
      - right. by apply matches_eol_iff.
      - left. apply matches_char_iff. by eexists _, _. }
    destruct Hu as [->|(u' & c & -> & Hc)].
    + destruct (Hrest []) as [y Hy]. exists [], (name ++ v), y. split; [done|].
      apply matches_seq_iff. eexists. split; [|exact Hy]. apply matches_alt_iff. left.
      by apply matches_bol_iff.
    + destruct (Hrest (c :: reverse u')) as [y Hy]. exists u', (c :: name ++ v), y.
      split; [by rewrite <- app_assoc|].
      apply matches_seq_iff. eexists. split; [|exact Hy]. apply matches_alt_iff. right.
      apply matches_char_iff. by eexists _, _.
Qed.

Lemma edges_tokens s name : class_token name →
  (∃ u v, s = u ++ name ++ v ∧ left_edge u ∧ right_edge v) ↔ name ∈ tokens s.
Proof.
  intros Hn. split; [|apply tokens_find]. intros (u & v & -> & Hu & Hv).
  rewrite tokens_edges by done. set_solver.
Qed.

Lemma has_class_tokens c name : class_token name → has_class c name = bool_decide (name ∈ tokens c).
Proof.
  intros Hn. unfold has_class. apply bool_eq_iff.
  rewrite andb_true_iff, orb_true_iff, !bool_decide_eq_true, class_rx_matches, edges_tokens by done.
  split.
  - intros [_ [->|Hin]]; [|done]. rewrite tokens_word by done. left.
  - intros Hin. split; [|by right]. intros ->. by apply not_elem_of_nil in Hin.
Qed.

Lemma spaces_tokens u v : u ≠ [] → forallb is_space u = true → ∀ w, tokens (w ++ u ++ v) = tokens w ++ tokens v.
Proof.
  intros Hne Hu w. destruct u as [|c u]; [done|]. cbn in Hu. apply andb_true_iff in Hu as [Hc Hu].
  cbn [app]. by rewrite tokens_app, tokens_spaces.
Qed.

Lemma plus_spaces x y : matches (RPlus (RChar is_space)) x y →
  ∃ w, w ≠ [] ∧ forallb is_space w = true ∧ after x = w ++ after y ∧ before y = reverse w ++ before x.
Proof.
  intros Hm. destruct (denotes_plus_class is_space x y) as [Hd _].
  destruct (Hd Hm) as (w & Hx & Hb & Hne & Hw). exists w. rewrite forallb_true_iff.
  destruct y; cbn in *. done.
Qed.

Lemma class_remove_rx_no_back name : no_back (class_remove_rx name) = true.
Proof. unfold class_remove_rx, RStr. cbn. rewrite andb_true_r. induction name; done. Qed.

(** What a match of the removal expression cuts out. *)
Lemma class_remove_cut c name m : class_token name →
  rx_match (class_remove_rx name) c = Some m →
  tokens c = tokens (m_before m) ++ name :: tokens (m_rest m).
Proof.
  intros Hn Hm. destruct (rx_match_sound _ _ _ (class_remove_rx_no_back name) Hm) as [-> Hmt].
  clear Hm. destruct m as [bef text rest caps]. cbn in *.
  apply matches_seq_iff in Hmt as (x1 & H1 & (x2 & H2 & H3)%matches_seq_iff).
  apply matches_text in H2 as [H2 _].
  assert (∃ w2, after x2 = w2 ++ rest ∧ right_edge (w2 ++ rest) ∧ tokens (w2 ++ rest) = tokens rest)
    as (w2 & Hw2 & Hr & Htr).
  { apply matches_alt_iff in H3 as [(w & Hne & Hw & Ha & _)%plus_spaces|[Ha Hy]%matches_eol_iff].
    - exists w. split; [done|]. split; [|by apply tokens_spaces].
      destruct w as [|d w]; [done|]. right. exists d, (w ++ rest). split; [done|].
      cbn in Hw. by apply andb_true_iff in Hw as [? _].
    - exists []. cbn in *. subst x2. cbn in *. subst rest. split; [done|]. split; [by left|done]. }
  assert (∃ w1, text ++ rest = w1 ++ after x1 ∧ left_edge (bef ++ w1) ∧ tokens (bef ++ w1) = tokens bef)
    as (w1 & Hw1 & Hl & Htl).
  { apply matches_alt_iff in H1 as [[Hb ->]%matches_bol_iff|(w & Hne & Hw & Ha & _)%plus_spaces].
    - cbn in *. assert (bef = []) as -> by (rewrite <- (reverse_involutive bef), Hb; done).
      exists []. split; [done|]. split; [by left|done].
    - exists w. split; [done|]. split.
      + right. destruct w as [|d w] using rev_ind; [done|]. exists (bef ++ w), d.
        rewrite app_assoc. split; [done|]. rewrite forallb_app in Hw. cbn in Hw.
        apply andb_true_iff in Hw as [_ Hw]. by rewrite andb_true_r in Hw.
      + rewrite <- (app_nil_r (bef ++ w)), <- app_assoc, spaces_tokens by done.
        by rewrite app_nil_r. }
  rewrite Hw1, H2, Hw2, app_assoc.
  rewrite tokens_edges by done. by rewrite Htl, Htr.
Qed.

Lemma class_remove_none c name : class_token name →
  rx_match (class_remove_rx name) c = None → name ∉ tokens c.
Proof.
  intros Hn Hm Hin. apply tokens_find in Hin as (u & v & -> & Hu & Hv).
  assert (rx_test (class_remove_rx name) (u ++ name ++ v) = true) as Ht.
  { apply (rx_test_spec _ _ (class_remove_rx_no_back name)). unfold class_remove_rx.
    assert (∀ d w, is_space d = true → ∀ b, matches (RPlus (RChar is_space)) (Pos b (d :: w)) (Pos (d :: b) w))
      as Hplus.
    { intros d w Hd b. apply (denotes_plus_class is_space). exists [d].
      split; [done|]. split; [done|]. split; [done|]. by constructor. }
    assert (∀ b, ∃ y, matches (RStr name +++ (RPlus (RChar is_space) <|> REol))%rx (Pos b (name ++ v)) y)
      as Hrest.
    { intros b. destruct Hv as [->|(c & v' & -> & Hc)];
        eexists; apply matches_seq_iff; eexists (Pos (reverse name ++ b) _);
        (split; [by apply matches_text|]); apply matches_alt_iff.
      - right. by apply matches_eol_iff.
      - left. by apply Hplus. }
    destruct Hu as [->|(u' & c & -> & Hc)].
    + destruct (Hrest []) as [y Hy]. exists [], (name ++ v), y. split; [done|].
      apply matches_seq_iff. eexists. split; [|exact Hy]. apply matches_alt_iff. left.
      by apply matches_bol_iff.
    + destruct (Hrest (c :: reverse u')) as [y Hy]. exists u', (c :: name ++ v), y.
      split; [by rewrite <- app_assoc|].
      apply matches_seq_iff. eexists. split; [|exact Hy]. apply matches_alt_iff. right.
      by apply Hplus. }
  unfold rx_test in Ht. rewrite bool_decide_eq_true, Hm in Ht. by destruct Ht.
Qed.

Lemma tokens_add_class c name : class_token name →
  tokens (add_class c name) = (if decide (name ∈ tokens c) then tokens c else tokens c ++ [name]).
Proof.
  intros Hn. unfold add_class. rewrite (has_class_tokens c name Hn). case_bool_decide; case_decide; try done.
  case_bool_decide as Hc; [subst; exact (tokens_word name Hn)|].
  change (js " " ++ name) with (32%N :: name). by rewrite tokens_app, (tokens_word name Hn).
Qed.
Lemma tokens_remove_class c name : class_token name →
  if decide (name ∈ tokens c)
  then ∃ l1 l2, tokens c = l1 ++ name :: l2 ∧ tokens (remove_class c name) = l1 ++ l2
  else tokens (remove_class c name) = tokens c.
Proof.
  intros Hn. unfold remove_class, replace_first.
  destruct (rx_match (class_remove_rx name) c) as [m|] eqn:Hm.
  - pose proof (class_remove_cut c name m Hn Hm) as Hcut.
    rewrite decide_True by (rewrite Hcut; set_solver).
    exists (tokens (m_before m)), (tokens (m_rest m)). split; [done|].
    rewrite tokens_strip. change (js " " ++ m_rest m) with (32%N :: m_rest m).
    by rewrite tokens_app.
  - rewrite decide_False by (by apply class_remove_none). by rewrite tokens_strip.
Qed.

(** [hasClassName] tests for the token, [addClassName] appends it when it is
    missing, [removeClassName] takes out one occurrence and leaves the other
    tokens in order. *)
Theorem class_methods_spec (c name : jsstr) : class_token name →
  has_class c name = bool_decide (name ∈ tokens c) ∧
  tokens (add_class c name) = (if decide (name ∈ tokens c) then tokens c else tokens c ++ [name]) ∧
  (if decide (name ∈ tokens c)
   then ∃ l1 l2, tokens c = l1 ++ name :: l2 ∧ tokens (remove_class c name) = l1 ++ l2
   else tokens (remove_class c name) = tokens c).
Proof.
  intros Hn. split; [by apply has_class_tokens|]. split; [by apply tokens_add_class|by apply tokens_remove_class].
Qed.

Lemma class_methods_spec_witness :
  class_token (js "hover") ∧
  tokens (remove_class (js "row hover  even") (js "hover")) = [js "row"; js "even"] ∧
  has_class (js "row hover  even") (js "hover") = true.
Proof.
  assert (class_token (js "hover")) as Hn by (split; [discriminate|reflexivity]).
  split; [exact Hn|]. split; [reflexivity|].
  rewrite (proj1 (class_methods_spec (js "row hover  even") (js "hover") Hn)). reflexivity.
Defined.

(** ** Trees *)

(** Parents and children agree; a node is at one place among the children. *)
Record dom_ok (d : dom) : Prop := {
  ok_child p c : c ∈ child_list d (Some p) → parent_of d c = Some p;
  ok_parent c p : parent_of d c = Some p → c ∈ child_list d (Some p);
  ok_nodup p : NoDup (child_list d (Some p));
}.

Lemma nodes_bounded (d : dom) l : NoDup l → (∀ e, e ∈ l → is_Some (d !! e)) → (length l ≤ node_count d)%nat.
Proof.
  intros Hnd Hin.
  assert (l ⊆+ (map_to_list d).*1) as Hsub.
  { apply NoDup_submseteq; [done|]. intros e He. destruct (Hin e He) as [n Hn].
    apply list_elem_of_fmap. exists (e, n). split; [done|]. by apply elem_of_map_to_list. }
  apply submseteq_length in Hsub. rewrite length_fmap, length_map_to_list in Hsub. exact Hsub.
Qed.

Lemma after_in_app e l1 l2 : e ∉ l1 → after_in e (l1 ++ e :: l2) = head l2.
Proof.
  induction l1 as [|x l1 IH]; cbn; [by rewrite decide_True|].
  intros [Hx Hl]%not_elem_of_cons. rewrite decide_False by congruence. by apply IH.
Qed.

Section siblings.
Context (d : dom) (p : nid) (Hd : dom_ok d).

Lemma next_collect e l1 l2 fuel : child_list d (Some p) = l1 ++ e :: l2 → (length l2 < fuel)%nat →
  collect_from fuel d nextSibling e = List.filter (element_at d) l2.
Proof.
  revert e l1 fuel. induction l2 as [|x l2 IH]; intros e l1 fuel Hl Hf;
    (destruct fuel as [|fuel]; [lia|]); cbn [collect_from]; unfold nextSibling at 1;
    pose proof (ok_nodup d Hd p) as Hnd;
    rewrite (ok_child d Hd p e) by (rewrite Hl; set_solver);
    rewrite Hl in Hnd |- *; apply NoDup_app in Hnd as (_ & Hnd & _);
    rewrite after_in_app by (intros Hin; apply (Hnd e Hin); left); [done|].
  cbn [head]. rewrite (IH x (l1 ++ [e]) fuel); [|by rewrite <- app_assoc|cbn in Hf; lia].
  cbn [List.filter]. by destruct (element_at d x).
Qed.

Lemma previous_collect e l1 l2 fuel : child_list d (Some p) = l1 ++ e :: l2 → (length l1 < fuel)%nat →
  collect_from fuel d previousSibling e = List.filter (element_at d) (reverse l1).
Proof.
  revert e l2 fuel. induction l1 as [|x l1 IH] using rev_ind; intros e l2 fuel Hl Hf;
    (destruct fuel as [|fuel]; [lia|]); cbn [collect_from]; unfold previousSibling at 1;
    pose proof (ok_nodup d Hd p) as Hnd;
    rewrite (ok_child d Hd p e) by (rewrite Hl; set_solver);
    rewrite Hl in Hnd |- *; apply NoDup_app in Hnd as (_ & Hnd1 & Hnd2);
    rewrite reverse_app, reverse_cons, <- app_assoc; cbn [app];
    rewrite after_in_app by (rewrite elem_of_reverse; by apply NoDup_cons in Hnd2 as [? _]); [done|].
  rewrite reverse_snoc. cbn [head]. rewrite length_app in Hf. cbn in Hf.
  rewrite (IH x (e :: l2) fuel); [|by rewrite <- app_assoc in Hl|lia].
  cbn [List.filter]. by destruct (element_at d x).
Qed.
End siblings.

Lemma children_bounded d p : dom_ok d → (length (child_list d (Some p)) ≤ node_count d)%nat.
Proof.
  intros Hd. apply nodes_bounded; [apply ok_nodup, Hd|]. intros e He.
  apply (ok_child d Hd) in He. unfold parent_of in He. by destruct (d !! e).
Qed.

(** In a well-formed document, [siblings] are the other element children of
    the parent, in document order. *)
Theorem siblings_spec (d : dom) (p e : nid) (l1 l2 : list nid) :
  dom_ok d → child_list d (Some p) = l1 ++ e :: l2 →
  siblings e d = (Ret (List.filter (element_at d) (l1 ++ l2)), d).
Proof.
  intros Hd Hl. pose proof (children_bounded d p Hd) as Hlen. rewrite Hl, length_app in Hlen.
  cbn in Hlen. unfold siblings, previousSiblings, nextSiblings, recursivelyCollect.
  rewrite !js_bind_gets. rewrite (previous_collect d p Hd e l1 l2), (next_collect d p Hd e l1 l2)
    by (done || lia).
  unfold mret, js_mret. do 2 f_equal. rewrite List.filter_app. f_equal.
  clear. induction l1 as [|x l1 IH]; [done|].
  rewrite reverse_cons, List.filter_app, reverse_app, IH. cbn.
  by destruct (element_at d x).
Qed.

Lemma removeChild_run p e d : e ∈ child_list d (Some p) → is_Some (d !! e) → p ≠ e →
  ∃ np ne, d !! p = Some np ∧ d !! e = Some ne ∧
  removeChild p e d = (Ret (), <[e := set_parent None ne]>
    (<[p := set_children (filter (λ c, c ≠ e) (childNodes np)) np]> d)).
Proof.
  intros Hin [ne Hne] Hpe. cbn in Hin. destruct (d !! p) as [np|] eqn:Hp; [|by apply not_elem_of_nil in Hin].
  exists np, ne. split; [done|]. split; [done|]. unfold removeChild.
  rewrite bool_decide_true by (cbn; by rewrite Hp). unfold update_node. js_unfold.
  rewrite Hp. by rewrite lookup_insert_ne, Hne.
Qed.

Lemma remove_ok d e p : dom_ok d → parent_of d e = Some p → p ≠ e →
  ∃ d', remove e d = (Ret (), d') ∧ dom_ok d' ∧
  parent_of d' e = None ∧
  child_list d' (Some p) = filter (λ c, c ≠ e) (child_list d (Some p)) ∧
  ∀ q, q ≠ p → child_list d' (Some q) = child_list d (Some q).
Proof.
  intros Hd Hpar Hpe. pose proof (ok_parent d Hd e p Hpar) as Hin.
  assert (is_Some (d !! e)) as He by (unfold parent_of in Hpar; by destruct (d !! e)).
  destruct (removeChild_run p e d Hin He Hpe) as (np & ne & Hnp & Hne & Hrun).
  set (d' := <[e := set_parent None ne]> _) in Hrun.
  assert (∀ q, child_list d' (Some q) =
    if decide (q = p) then filter (λ c, c ≠ e) (child_list d (Some p)) else child_list d (Some q)) as Hch.
  { intros q. unfold d'. cbn. destruct (decide (q = e)) as [->|Hqe].
    - rewrite lookup_insert_eq, (decide_False (P := e = p)) by done. cbn. by rewrite Hne.
    - rewrite lookup_insert_ne by done. case_decide as Hq.
      + subst. rewrite lookup_insert_eq, Hnp. done.
      + by rewrite lookup_insert_ne. }
  assert (∀ q, parent_of d' q = if decide (q = e) then None else parent_of d q) as Hpo.
  { intros q. unfold d', parent_of. case_decide as Hq.
    - subst. by rewrite lookup_insert_eq.
    - rewrite lookup_insert_ne by done. destruct (decide (q = p)) as [->|Hqp].
      + by rewrite lookup_insert_eq, Hnp.
      + by rewrite lookup_insert_ne. }
  exists d'. split_and!.
  - unfold remove, get_node. js_unfold. rewrite Hne. unfold parent_of in Hpar. rewrite Hne in Hpar.
    cbn in Hpar. by rewrite Hpar.
  - split.
    + intros q c. rewrite Hch, Hpo. destruct (decide (c = e)) as [->|Hc].
      * case_decide as Hq.
        -- intros [? _]%list_elem_of_filter. done.
        -- intros Hc%(ok_child d Hd). congruence.
      * case_decide as Hq; [subst|apply (ok_child d Hd)].
        intros [_ Hc']%list_elem_of_filter. by apply (ok_child d Hd).
    + intros c q. rewrite Hch, Hpo. case_decide as Hc; [done|]. intros Hcq.
      apply (ok_parent d Hd) in Hcq. case_decide; [subst|done]. by apply list_elem_of_filter.
    + intros q. rewrite Hch. case_decide; [apply NoDup_filter|]; apply ok_nodup, Hd.
  - by rewrite Hpo, decide_True.
  - by rewrite Hch, decide_True.
  - intros q Hq. by rewrite Hch, decide_False.
Qed.

(** ** Generated ids *)

Definition generated_id (k : Z) : jsstr := js "anonymous_element_" ++ num_str k.

Lemma getElementById_attr d id e : getElementById d id = Some e → attr_of d e (js "id") = Some id.
Proof.
  unfold getElementById. intros (i & Hf)%fmap_Some. destruct Hf as [Hf ->].
  destruct i as [i x]. by apply list_find_Some in Hf as (_ & ? & _).
Qed.

Lemma fresh_id_cases fuel d c :
  getElementById d (fresh_id fuel d c).1 = None ∨
  ∀ k, (k ≤ fuel)%nat → is_Some (getElementById d (generated_id (c + Z.of_nat k))).
Proof.
  revert c. induction fuel as [|fuel IH]; intros c; cbn -[getElementById];
    fold (generated_id c); destruct (getElementById d (generated_id c)) as [e|] eqn:Hc.
  - right. intros k Hk. replace (c + Z.of_nat k) with c by lia. by rewrite Hc.
  - by left.
  - destruct (IH (c + 1)) as [H|H]; [by left|right]. intros [|k] Hk.
    + by rewrite Z.add_0_r, Hc.
    + replace (c + Z.of_nat (S k)) with (c + 1 + Z.of_nat k) by lia. apply H. lia.
  - by left.
Qed.

Lemma fresh_id_free d c : getElementById d (fresh_id (node_count d) d c).1 = None.
Proof.
  destruct (fresh_id_cases (node_count d) d c) as [H|H]; [done|]. exfalso.
  set (ids := (λ k, generated_id (c + Z.of_nat k)) <$> seq 0 (S (node_count d))).
  set (nodes := (λ id, default O (getElementById d id)) <$> ids).
  assert (∀ id, id ∈ ids → attr_of d (default O (getElementById d id)) (js "id") = Some id) as Hattr.
  { intros id (k & -> & Hk)%list_elem_of_fmap. apply elem_of_seq in Hk.
    destruct (H k) as [e He]; [lia|]. rewrite He. by apply getElementById_attr. }
  assert (length nodes ≤ node_count d)%nat as Hlen.
  { apply nodes_bounded.
    - unfold nodes. apply NoDup_fmap_2_strong.
      + intros a b Ha Hb Hab. apply Hattr in Ha, Hb. rewrite Hab in Ha. congruence.
      + unfold ids. apply NoDup_fmap_2_strong; [|apply NoDup_seq].
        intros a b _ _ Hab%app_inv_head%num_str_inj. lia.
    - intros e (id & -> & Hid)%list_elem_of_fmap. apply Hattr in Hid. unfold attr_of in Hid.
      by destruct (d !! _). }
  unfold nodes, ids in Hlen. rewrite !length_fmap, length_seq in Hlen. lia.
Qed.

Lemma child_list_attrs d e f p : (∀ n, childNodes (f n) = childNodes n) →
  child_list (alter f e d) p = child_list d p.
Proof.
  intros Hf. destruct p as [p|]; [|done]. cbn. destruct (decide (p = e)) as [->|Hpe].
  - rewrite lookup_alter_eq. destruct (d !! e); cbn; [apply Hf|done].
  - by rewrite lookup_alter_ne.
Qed.

Lemma subtree_attrs fuel d e f x : (∀ n, childNodes (f n) = childNodes n) →
  subtree fuel (alter f e d) x = subtree fuel d x.
Proof.
  intros Hf. revert x. induction fuel as [|fuel IH]; intros x; [done|]. cbn [subtree].
  rewrite child_list_attrs by done. generalize (child_list d (Some x)). intros l.
  induction l as [|c l IHl]; [done|]. cbn [mbind list_bind]. by rewrite IH, IHl.
Qed.

Lemma node_count_alter d e f : node_count (alter f e d) = node_count d.
Proof. unfold node_count. by rewrite <- !size_dom, dom_alter_L. Qed.

Lemma element_at_attrs d e f x : (∀ n, kind (f n) = kind n) → element_at (alter f e d) x = element_at d x.
Proof.
  intros Hf. unfold element_at, is_element. destruct (decide (x = e)) as [->|Hx].
  - rewrite lookup_alter_eq. destruct (d !! e); cbn; [by rewrite Hf|done].
  - by rewrite lookup_alter_ne.
Qed.

Lemma descendants_attrs d e f x : (∀ n, childNodes (f n) = childNodes n) → (∀ n, kind (f n) = kind n) →
  descendants_of (alter f e d) x = descendants_of d x.
Proof.
  intros Hc Hk. unfold descendants_of. rewrite node_count_alter, subtree_attrs by done.
  apply List.filter_ext. intros y. by apply element_at_attrs.
Qed.

Lemma getElementById_new d e n id : d !! e = Some n → e ∈ descendants_of d document →
  getElementById d id = None →
  getElementById (<[e := write_one (js "id") (AText id) n]> d) id = Some e.
Proof.
  intros Hn He Hnone.
  assert (<[e := write_one (js "id") (AText id) n]> d = alter (write_one (js "id") (AText id)) e d) as ->.
  { apply map_eq. intros i. destruct (decide (i = e)) as [->|Hi].
    - by rewrite lookup_insert_eq, lookup_alter_eq, Hn.
    - by rewrite lookup_insert_ne, lookup_alter_ne. }
  unfold getElementById in *. rewrite descendants_attrs by done.
  assert (∀ x, attr_of (alter (write_one (js "id") (AText id)) e d) x (js "id")
    = if decide (x = e) then Some id else attr_of d x (js "id")) as Hattr.
  { intros x. unfold attr_of. case_decide as Hx.
    - subst. rewrite lookup_alter_eq, Hn. cbn. by rewrite lookup_insert_eq.
    - by rewrite lookup_alter_ne. }
  revert He Hnone. generalize (descendants_of d document). intros l.
  induction l as [|x l IH]; [by intros ?%not_elem_of_nil|]. cbn [list_find].
  rewrite Hattr. destruct (decide (attr_of d x (js "id") = Some id)) as [|Hx]; [done|].
  intros He Hnone. destruct (decide (x = e)) as [->|Hxe].
  - by rewrite decide_True.
  - rewrite decide_False by done. apply elem_of_cons in He as [|He]; [done|].
    destruct (list_find (λ e, attr_of d e (js "id") = Some id) l) as [[]|] eqn:Hl; [done|].
    specialize (IH He eq_refl).
    destruct (list_find _ l) as [[]|] in IH |- *; [by injection IH as ->|done].
Qed.

(** [identify] returns the id an element has; otherwise it gives the element
    an id that no element of the document had, by which the element is then
    found, and advances the counter. *)
Theorem identify_spec (d : dom) (e : nid) (n : node) (counter : Z) :
  d !! e = Some n →
  (∀ c s, attrs n !! js "id" = Some (c :: s) → identify e counter d = (Ret (c :: s, counter), d)) ∧
  (default [] (attrs n !! js "id") = [] → e ∈ descendants_of d document →
   ∃ id counter', identify e counter d = (Ret (id, counter'), <[e := write_one (js "id") (AText id) n]> d) ∧
   counter < counter' ∧ getElementById d id = None ∧
   getElementById (<[e := write_one (js "id") (AText id) n]> d) id = Some e).
Proof.
  intros Hn. unfold identify, readAttribute, get_node. js_unfold. rewrite Hn. split.
  - intros c s Hid. by rewrite Hid.
  - intros Hid He. pose proof (fresh_id_free d counter) as Hfree.
    assert (∀ fuel c, c < (fresh_id fuel d c).2) as Hcounter.
    { induction fuel as [|fuel IH]; intros c; cbn -[getElementById]; [lia|]. destruct (getElementById d (js "anonymous_element_" ++ num_str c)); [|cbn [snd]; lia].
      specialize (IH (c + 1)). lia. }
    specialize (Hcounter (node_count d) counter).
    destruct (fresh_id (node_count d) d counter) as [id counter'] eqn:Hfr. cbn in Hfree, Hcounter.
    exists id, counter'. split; [|split; [done|split; [done|by apply getElementById_new]]].
    assert (writeAttribute e [(js "id", AText id)] d
      = (Ret (), <[e := write_one (js "id") (AText id) n]> d)) as Hw.
    { unfold writeAttribute, update_node. cbn. js_unfold. by rewrite Hn. }
    destruct (attrs n !! js "id") as [[|c s]|]; [|done|]; cbv beta iota; rewrite Hfr; by rewrite Hw.
Qed.

(** A document with a table row and a paragraph. *)
Definition sample_dom : dom :=
  {[ 0%nat := Node NDocument ∅ ∅ ∅ None [1%nat];
     1%nat := Node (NElement (js "BODY")) ∅ ∅ ∅ (Some 0%nat) [2; 3; 4]%nat;
     2%nat := Node (NElement (js "DIV")) {[ js "id" := js "anonymous_element_1" ]} ∅ ∅ (Some 1%nat) [];
     3%nat := Node (NText (js " ")) ∅ ∅ ∅ (Some 1%nat) [];
     4%nat := Node (NElement (js "P")) ∅ ∅ ∅ (Some 1%nat) [] ]}.

Lemma identify_spec_witness :
  ∃ id counter, (identify 4 1 sample_dom).1 = Ret (id, counter) ∧ id = js "anonymous_element_2" ∧
    getElementById sample_dom id = None.
Proof.
  destruct (identify_spec sample_dom 4 (Node (NElement (js "P")) ∅ ∅ ∅ (Some 1%nat) []) 1 eq_refl)
    as [_ H].
  destruct H as (id & counter & Hrun & _ & Hnone & _); [reflexivity| |].
  { apply (bool_decide_unpack _). vm_compute. exact I. }
  assert ((identify 4 1 sample_dom).1 = Ret (js "anonymous_element_2", 3)) as Hc by (vm_compute; reflexivity).
  rewrite Hrun in Hc. cbn in Hc. injection Hc as Hid Hcounter.
  exists id, counter. rewrite Hrun. split; [reflexivity|]. split; [exact Hid|exact Hnone].
Defined.

(** The well-formedness of a given document is checked node by node. *)
Definition node_ok (d : dom) (p : nid) (n : node) : Prop :=
  NoDup (childNodes n) ∧ Forall (λ c, parent_of d c = Some p) (childNodes n) ∧
  match parentNode n with Some q => p ∈ child_list d (Some q) | None => True end.
#[export] Instance node_ok_dec d p n : Decision (node_ok d p n).
Proof. unfold node_ok. destruct (parentNode n); apply _. Defined.

Lemma dom_ok_check d : map_Forall (node_ok d) d → dom_ok d.
Proof.
  intros H. split.
  - intros p c Hc. cbn in Hc. destruct (d !! p) as [n|] eqn:Hp; [|by apply not_elem_of_nil in Hc].
    destruct (H p n Hp) as (_ & Hf & _). rewrite Forall_forall in Hf. by apply Hf.
  - intros c p Hc. unfold parent_of in Hc. destruct (d !! c) as [n|] eqn:Hn; [|done].
    destruct (H c n Hn) as (_ & _ & Hp). cbn in Hc. by rewrite Hc in Hp.
  - intros p. cbn. destruct (d !! p) as [n|] eqn:Hp; [|constructor]. by apply (H p n Hp).
Qed.

Lemma siblings_spec_witness :
  dom_ok sample_dom ∧ (siblings 4 sample_dom).1 = Ret [2%nat].
Proof.
  assert (dom_ok sample_dom) as Hd.
  { apply dom_ok_check. apply (bool_decide_unpack _). vm_compute. exact I. }
  split; [exact Hd|].
  rewrite (siblings_spec sample_dom 1 4 [2; 3]%nat [] Hd eq_refl). reflexivity.
Defined.

(** ** Measuring does not change the document *)

(** Styles that are not set are not stored. *)
Definition style_ok (n : node) : Prop := ∀ k, style n !! k ≠ Some [].

Lemma style_put_lookup k v n i : style (style_put k v n) !! i =
  if decide (i = k) then (if decide (v = []) then None else Some v) else style n !! i.
Proof.
  unfold style_put. cbn. case_bool_decide as Hv; case_decide as Hi; subst.
  - by rewrite lookup_delete_eq, decide_True.
  - by rewrite lookup_delete_ne.
  - by rewrite lookup_insert_eq, decide_False.
  - by rewrite lookup_insert_ne.
Qed.

Lemma style_get_put k k' v n : style_get (style_put k v n) k' = if decide (k' = k) then v else style_get n k'.
Proof.
  unfold style_get. rewrite style_put_lookup. repeat case_decide; by subst.
Qed.

Lemma style_get_lookup n k : style_ok n →
  (if decide (style_get n k = []) then None else Some (style_get n k)) = style n !! k.
Proof.
  intros Hn. unfold style_get. destruct (style n !! k) as [v|] eqn:Hk; cbn; [|done].
  rewrite decide_False; [done|]. intros ->. by apply (Hn k).
Qed.

Lemma style_put_fields k v n : attrs (style_put k v n) = attrs n ∧ kind (style_put k v n) = kind n ∧
  expando (style_put k v n) = expando n ∧ parentNode (style_put k v n) = parentNode n ∧
  childNodes (style_put k v n) = childNodes n.
Proof. done. Qed.

Lemma node_eq (m n : node) : kind m = kind n → attrs m = attrs n → style m = style n →
  expando m = expando n → parentNode m = parentNode n → childNodes m = childNodes n → m = n.
Proof. destruct m, n. cbn. congruence. Qed.

(** Shown, hidden from view, to be measured; and put back. *)
Definition measured (n : node) : node :=
  style_put (js "display") (js "block") (style_put (js "position") (js "absolute")
    (style_put (js "visibility") (js "hidden") n)).

Lemma measured_restored n : style_ok n →
  style_put (js "visibility") (style_get n (js "visibility"))
    (style_put (js "position") (style_get n (js "position"))
      (style_put (js "display") (style_get n (js "display")) (measured n))) = n.
Proof.
  intros Hn. apply node_eq; try done. apply map_eq. intros i. unfold measured.
  rewrite !style_put_lookup, !style_get_lookup by done.
  repeat case_decide; congruence.
Qed.

Section measuring.
Context (computed : dom → nid → jsstr → option jsstr) (layout : dom → nid → geometry).

Lemma put_style_run e k v n d : d !! e = Some n → put_style e k v d = (Ret (), <[e := style_put k v n]> d).
Proof. intros Hn. unfold put_style, update_node. by rewrite Hn. Qed.

Lemma measure_hidden_run e n d : d !! e = Some n → style_ok n →
  let g := layout (<[e := measured n]> d) e in
  measure_hidden layout e d = (Ret (clientWidth g, clientHeight g), d).
Proof.
  intros Hn Hok. cbv zeta. unfold measure_hidden, get_node. unfold mbind at 1, js_mbind at 1.
  rewrite Hn.
  rewrite (js_bind_Ret _ _ _ _ _ (put_style_run e _ _ n d Hn)).
  rewrite (js_bind_Ret _ _ _ _ _ (put_style_run e _ _ _ _ (lookup_insert_eq _ _ _))), insert_insert_eq.
  rewrite (js_bind_Ret _ _ _ _ _ (put_style_run e _ _ _ _ (lookup_insert_eq _ _ _))), insert_insert_eq.
  fold (measured n).
  unfold mbind at 1, js_mbind at 1, js_get at 1.
  rewrite (js_bind_Ret _ _ _ _ _ (put_style_run e _ _ _ _ (lookup_insert_eq _ _ _))), insert_insert_eq.
  rewrite (js_bind_Ret _ _ _ _ _ (put_style_run e _ _ _ _ (lookup_insert_eq _ _ _))), insert_insert_eq.
  rewrite (js_bind_Ret _ _ _ _ _ (put_style_run e _ _ _ _ (lookup_insert_eq _ _ _))), insert_insert_eq.
  unfold mret, js_mret. rewrite measured_restored by done. by rewrite (insert_id d e n Hn).
Qed.
End measuring.

(** [getDimensions] leaves the document as it was.  An element whose display is
    known and not [none] gives its offset sizes; another one gives the client
    sizes it has while it is shown as a hidden, absolutely positioned block. *)
Theorem getDimensions_spec (computed : dom → nid → jsstr → option jsstr)
    (layout : dom → nid → geometry) (d : dom) (e : nid) (n : node) :
  d !! e = Some n → style_ok n →
  getDimensions computed layout e d =
  (Ret (match style_of computed d e (js "display") with
        | Some v => if decide (v = js "none")
                    then (clientWidth (layout (<[e := measured n]> d) e),
                          clientHeight (layout (<[e := measured n]> d) e))
                    else (offsetWidth (layout d e), offsetHeight (layout d e))
        | None => (clientWidth (layout (<[e := measured n]> d) e),
                   clientHeight (layout (<[e := measured n]> d) e))
        end), d).
Proof.
  intros Hn Hok. unfold getDimensions, style_of.
  assert (∃ v, getStyle computed e (js "display") d = (Ret v, d)) as [v Hv].
  { unfold getStyle, get_node. js_unfold. rewrite Hn. by eexists. }
  rewrite (js_bind_Ret _ _ _ _ _ Hv), Hv. unfold mbind at 1, js_mbind at 1, js_get at 1.
  pose proof (measure_hidden_run layout e n d Hn Hok) as Hm. cbv zeta in Hm.
  destruct v as [v|]; [destruct (decide (v = js "none")) as [->|Hv']|].
  - rewrite (bool_decide_false (Some (js "none") ≠ Some (js "none"))); [exact Hm|].
    intros H. by apply H.
  - rewrite !bool_decide_true by congruence. done.
  - rewrite (bool_decide_false (@None jsstr ≠ None)), andb_false_r; [exact Hm|].
    intros H. by apply H.
Qed.

Lemma getDimensions_spec_witness :
  let d := {[ 7%nat := Node (NElement (js "DIV")) ∅ {[ js "display" := js "none" ]} ∅ None [] ]} : dom in
  let layout := λ (d : dom) (e : nid),
    if bool_decide (style_of (λ _ _ _, None) d e (js "display") = Some (js "block"))
    then Geometry 0 0 0 0 40 20 0 0 None else Geometry 0 0 0 0 0 0 0 0 None in
  style_ok (Node (NElement (js "DIV")) ∅ {[ js "display" := js "none" ]} ∅ None []) ∧
  getDimensions (λ _ _ _, None) layout 7 d = (Ret (40, 20), d).
Proof.
  intros d layout.
  assert (style_ok (Node (NElement (js "DIV")) ∅ {[ js "display" := js "none" ]} ∅ None [])) as Hok.
  { intros k. cbn. destruct (decide (k = js "display")) as [->|Hk].
    - rewrite lookup_singleton_eq. discriminate.
    - rewrite lookup_singleton_ne by congruence. discriminate. }
  split; [exact Hok|].
  rewrite (getDimensions_spec (λ _ _ _, None) layout d 7 _ eq_refl Hok). reflexivity.
Defined.

(** ** Updates in place *)

(** Changing a node's data, not its id or its place in the tree. *)
Definition in_place (f : node → node) : Prop := ∀ n,
  kind (f n) = kind n ∧ childNodes (f n) = childNodes n ∧ attrs (f n) !! js "id" = attrs n !! js "id".

Lemma insert_alter (d : dom) e n f : d !! e = Some n → <[e := f n]> d = alter f e d.
Proof.
  intros Hn. apply map_eq. intros i. destruct (decide (i = e)) as [->|Hi].
  - by rewrite lookup_insert_eq, lookup_alter_eq, Hn.
  - by rewrite lookup_insert_ne, lookup_alter_ne.
Qed.

Lemma getElementById_in_place d e f id : in_place f →
  getElementById (alter f e d) id = getElementById d id.
Proof.
  intros Hf. unfold getElementById. rewrite descendants_attrs by apply Hf.
  assert (∀ x, attr_of (alter f e d) x (js "id") = attr_of d x (js "id")) as Hattr.
  { intros x. unfold attr_of. destruct (decide (x = e)) as [->|Hx].
    - rewrite lookup_alter_eq. destruct (d !! e) as [n|]; cbn; [|done]. by destruct (Hf n) as (_ & _ & ?).
    - by rewrite lookup_alter_ne. }
  f_equal. apply list_find_ext. intros x. by rewrite Hattr.
Qed.

Lemma update_node_run d e n f : d !! e = Some n → update_node e f d = (Ret (), alter f e d).
Proof. intros Hn. unfold update_node. by rewrite Hn, (insert_alter d e n f). Qed.

Lemma lookup_alter_node (d : dom) e n f : d !! e = Some n → alter f e d !! e = Some (f n).
Proof. intros Hn. by rewrite lookup_alter_eq, Hn. Qed.

Lemma on_run {A} id e (m : nid → D A) d : getElementById d id = Some e → on id m d = m e d.
Proof. intros He. unfold on, dollar. rewrite js_bind_gets. by rewrite He. Qed.

Lemma in_place_update content : in_place (λ n, set_expando (<[js "innerHTML" := VStr content]> (expando n)) n).
Proof. done. Qed.
Lemma in_place_style k v : in_place (style_put k v).
Proof. done. Qed.
Lemma in_place_class c : in_place (λ n, set_attrs (<[js "class" := c]> (attrs n)) n).
Proof. intros n. split; [done|]. split; [done|]. cbn. by rewrite lookup_insert_ne. Qed.
Lemma in_place_compose f g : in_place f → in_place g → in_place (λ n, g (f n)).
Proof.
  intros Hf Hg n. destruct (Hf n) as (H1 & H2 & H3), (Hg (f n)) as (H4 & H5 & H6).
  split; [congruence|]. split; congruence.
Qed.

Lemma alter_twice (d : dom) e f g : alter g e (alter f e d) = alter (λ n, g (f n)) e d.
Proof.
  apply map_eq. intros i. destruct (decide (i = e)) as [->|Hi].
  - rewrite !lookup_alter_eq. by destruct (d !! e).
  - by rewrite !lookup_alter_ne.
Qed.

(** Styles other than the opacity and the float are assigned one by one. *)
Definition plain_style (k : jsstr) : bool :=
  negb (bool_decide (k = js "opacity")) && negb (bool_decide (k = js "float")).
Lemma setStyle_run e n styles d : d !! e = Some n →
  forallb (λ p, plain_style p.1) styles = true →
  setStyle e styles d = (Ret (), alter (λ n, fold_left (λ n p, style_put p.1 p.2 n) styles n) e d).
Proof.
  intros Hn Hp. unfold setStyle. revert d n Hn. induction styles as [|[k v] styles IH]; intros d n Hn.
  { cbn. unfold mret, js_mret. do 2 f_equal. rewrite alter_id; done. }
  cbn [forallb fst] in Hp. apply andb_true_iff in Hp as [Hk Hp]. unfold plain_style in Hk.
  apply andb_true_iff in Hk as [Hk1 Hk2]. apply negb_true_iff in Hk1, Hk2.
  cbn [js_each fst snd]. rewrite Hk1, Hk2. unfold put_style.
  rewrite (js_bind_Ret _ _ _ _ _ (update_node_run d e n _ Hn)).
  rewrite (IH Hp _ (style_put k v n)) by (by apply lookup_alter_node).
  by rewrite alter_twice.
Qed.
