(* ===== verification/Page.v ===== *)
(** * The page scripts of the admin panel (application.js)

    The help popup, the choice of analytics, the Flash check, the busy
    indicator, the hour sliders of the graphs and the check boxes of the
    exception list. *)

From Stdlib Require Import ZArith.
From S2P Require Import Prelude JsBase JsNum JsRegex JsReplace Strings Hash Dom.
#[local] Open Scope Z_scope.
#[local] Open Scope stdpp_scope.

(** ** The help popup *)

Module Help.

(** The texts in the order of the [if] statements of [addHelp]. *)
Definition help_texts : list (list jsstr * jsstr) := [
  ([js "resolver"], js "Please enter '/' if you would like to run this application on the root domain. e.g. http://yourserver:port/. Else please enter the relevant base URI with which you would like to access this specific application, e.g. '/app1' if you want the application to be accessible via http://yourserver:port/app1.<br/><br/>If you would like to set a virtual host for your application e.g. www.company1.com, please specify it here. You can also host this application on a particular subdomain e.g. app1.company1.com.<br/><br/>Wildcard '*' can also be used in defining the virtual host name, but it should only be used either at the start or the end. Prefix the virtual host name with tilde(~), if a wildcard is used in defining it. e.g. (i) ~*.server.com  (ii) ~www.server.*  (iii) ~*.server.* ");
  ([js "path"], js "Please enter the complete path for your web application root directory: e.g. /home/someuser/webapps/app1.");
  ([js "runasuser"], js "Please enter the name of the user with whose privileges you would like to run this application. (root can be dangerous!). This user should have all the necessary permissions to get your web application working properly. (e.g. write access on required files and directories etc).");
  ([js "analytics"], js "Set this to enabled if you would like to get detailed numbers about the run time performance of this application. This number gathering adds a very small overhead on your application. (Typically it adds < 3ms of additional processing time to the request).");
  ([js "minworker"], js "Default minimum number of worker processes that should run for any deployed application. Multiple worker instances help in processing a higher number of concurrent user requests simultaneously.<br/>(This value can be overridden for a specific application while deploying it.)");
  ([js "maxworker"], js "Default maximum number of worker processes that should run for any deployed application. Multiple worker instances help in processing a higher number of concurrent user requests simultaneously.<br/>(This value can be overridden for a specific application while deploying it.)");
  ([js "most"], js "<b>Most Time Consuming URLs : </b>URLs whose response generation took the maximum cumulative time for the specified duration. These could be the prime candidate for optimizations.");
  ([js "hits"], js "<b>URL Hits : </b>The hit count for the URLs of the application for the specified duration.");
  ([js "slowest"], js "<b>Slowest URLs : </b>URLs whose 'average' time for the response generation was maximum. These are the slowest part of the application, out of all those accessed in the specified duration.");
  ([js "db"], js "<b>Database Consuming URLs : </b>URLs whose code spends the maximum time in the database ORM layer.");
  ([js "port"], js "<b>Port   : </b>Application server port number.");
  ([js "log_level"], js "Set the default logging level for the server and it's deployed applications. (INFO/WARN/SEVERE/FATAL). The logs are available in /var/log/webroar.");
  ([js "ssl_port"], js "Secure Sockets Layer(SSL) authentication port number.");
  ([js "ssl_certificate"], js "Complete path to the SSL certificate file. e.g. /home/smartuser/ssl-cert/certificate.crt");
  ([js "ssl_key"], js "Complete path to the SSL key file. e.g. /home/smartuser/ssl-cert/mymachine.key");
  ([js "remaining_time"], js "<b>Remaining Time </b>covers time spent in executing filters, called actions (statements other than database calls), user defined methods in model, session management by framework etc. ");
  ([js "access_log"], js "Set access log to enabled to capture all HTTP requests to the server. The log is available in /var/log/webroar.");
  ([js "type"], js "In case you are deploying a rack compliant application (merb, sinatra, mack etc), please do create a config.ru file in it's root directory. Please refer the README or the user guide for more details.");
  ([js "app_minworker"], js "Please enter the minimum number of worker processes that should run for this deployed application. Multiple worker instances help in processing a higher number of concurrent user requests simultaneously. The server would always ensure at least these many worker processes run for this application.");
  ([js "app_maxworker"], js "Please enter the maximum number of worker processes that should run for this deployed application. Multiple worker instances help in processing a higher number of concurrent user requests simultaneously. The server would ensure that maximum only these many worker processes run for this application.");
  ([js "mail"], js "Configure email settings to receive notifications from the server about the status of the deployed applications. WebROaR can use either SMTP or Sendmail to send these emails.");
  ([js "smtp_server"], js "Host name or IP address of the SMTP Server.");
  ([js "smtp_domain"], js "Hosting domain of your sender email account. e.g. gmail.com.");
  ([js "smtp_authentication"], js "Authentication type of the SMTP account (login/plain/cram-md5/ntlm-spa/digest-md5).");
  ([js "smtp_username"], js "Username of the email account e.g. smartuser.");
  ([js "smtp_password"], js "Password of the email account.");
  ([js "smtp_recipients_id"; js "sendmail_recipients_id"], js "Comma separated list of email addresses to whom WebROaR should send notification emails about the deployed applications status.");
  ([js "sendmail_location"], js "Location of the sendmail agent e.g. /usr/sbin/sendmail");
  ([js "headers"], js "It allows adding or changing the Expires and Cache-Control in the response headers for static assets (e.g. *.js, *.gif etc).");
  ([js "expires"], js "Expires header for all static assets (optional) (default is 'off'). Possible value for expires is off or no. of seconds.");
  ([js "expires_by_type"], js "Specific expires header for specific file types.");
  ([js "expires_by_type_ext"], js "File extensions separated by comma (e.g png, jpg, gif).");
  ([js "expires_by_type_expires_value"], js "Expires value in no. of seconds.");
  ([js "exception_class"], js "Exception falls into given Exception Class would not be notified and it will be listed in Permanently Ignored list.")
].

(** The [if] statements one after another: each assigns the global [str] when
    its id matches. *)
Definition choose_text (id : jsstr) (str : option jsstr) : option jsstr :=
  fold_left (λ str '(ids, text), if bool_decide (id ∈ ids) then Some text else str) help_texts str.

Definition close_link : jsstr :=
  js "<div class='text_align_right'><a href=# onClick=" ++ dq ++
  js "$('dummy_div').hide(); return false;" ++ dq ++ js ">Close</a></div>".

(** A mouse event and how far the page is scrolled. *)
Record mouse_event := MouseEvent { clientX : Z; clientY : Z }.
Record page_scroll := PageScroll {
  body_left : Z; body_top : Z; html_left : Z; html_top : Z }.
Definition getX (w : page_scroll) (event : mouse_event) : Z :=
  clientX event + body_left w + html_left w.
Definition getY (w : page_scroll) (event : mouse_event) : Z :=
  clientY event + body_top w + html_top w.

Definition dummy_div : jsstr := js "dummy_div".

(** The state is the global [str], not yet declared at first, with the
    document.  Reading an undeclared variable throws. *)
Definition addHelp (w : page_scroll) (id : jsstr) (event : mouse_event) : JS (option jsstr * dom) () :=
  str ← js_local;
  js_set_local (choose_text id str) ;;
  str ← js_local;
  match str with
  | None => js_throw EReferenceError
  | Some str =>
      let str := str ++ close_link in
      js_set_local (Some str) ;;
      js_lift (on dummy_div (λ e,
        update e str ;;
        addClassName e (js "popup_container font_size_12") ;;
        show e)) ;;
      let x := getX w event in
      let y := getY w event in
      let x := if 550 <? x then 550 else x in
      js_lift (on dummy_div (λ e,
        setStyle e [(js "left", num_str x); (js "top", num_str y)]))
  end.

(** *** What the popup shows *)

Lemma choose_text_none id str :
  choose_text id str = match choose_text id None with Some t => Some t | None => str end.
Proof.
  unfold choose_text. generalize help_texts. intros l.
  assert (∀ s, fold_left (λ str '(ids, text), if bool_decide (id ∈ ids) then Some text else str) l s
    = match fold_left (λ str '(ids, text), if bool_decide (id ∈ ids) then Some text else str) l None with
      | Some t => Some t | None => s end) as H; [|apply H].
  induction l as [|[ids text] l IH]; intros s; cbn; [done|].
  case_bool_decide; [|apply IH]. rewrite IH. by destruct (fold_left _ l None).
Qed.

Lemma choose_text_in id text : choose_text id None = Some text → text ∈ help_texts.*2.
Proof.
  unfold choose_text. generalize help_texts. intros l.
  assert (∀ s, fold_left (λ str '(ids, text), if bool_decide (id ∈ ids) then Some text else str) l s
    = Some text → s = Some text ∨ text ∈ l.*2) as H.
  { induction l as [|[ids t] l IH]; intros s; cbn; [by left|].
    intros [Hs|Hs]%IH; [|right; by right]. case_bool_decide; [|by left].
    right. injection Hs as ->. left. }
  intros [?|?]%H; done.
Qed.

(** None of the texts contains a script. *)
Lemma help_texts_no_script text : text ∈ help_texts.*2 →
  stripScripts (text ++ close_link) = text ++ close_link.
Proof.
  assert (forallb (λ text, bool_decide (stripScripts (text ++ close_link) = text ++ close_link))
    help_texts.*2 = true) as H by (vm_compute; reflexivity).
  rewrite forallb_forall in H. intros Hin. apply list_elem_of_In, H, bool_decide_eq_true in Hin. done.
Qed.

(** The popup after a call: markup, class, position, and no longer hidden. *)
Definition popup (text : jsstr) (x y : Z) (n : node) : node :=
  style_put (js "top") (num_str y) (style_put (js "left") (num_str x)
    (style_put (js "display") []
      (set_attrs (<[js "class" := add_class (className n) (js "popup_container font_size_12")]> (attrs n))
        (set_expando (<[js "innerHTML" := VStr text]> (expando n)) n)))).

Lemma show_popup_run w text event d e n : getElementById d dummy_div = Some e → d !! e = Some n →
  ∃ d1,
  on dummy_div (λ e, update e text ;; addClassName e (js "popup_container font_size_12") ;; show e) d
    = (Ret (), d1) ∧
  getElementById d1 dummy_div = Some e ∧
  on dummy_div (λ e, setStyle e [(js "left", num_str (if 550 <? getX w event then 550 else getX w event));
                                 (js "top", num_str (getY w event))]) d1
    = (Ret (), alter (popup (stripScripts text) (Z.min 550 (getX w event)) (getY w event)) e d).
Proof.
  intros He Hn.
  set (u := λ n, set_expando (<[js "innerHTML" := VStr (stripScripts text)]> (expando n)) n).
  set (c := λ n, set_attrs (<[js "class" := add_class (className n) (js "popup_container font_size_12")]>
    (attrs n)) n).
  exists (alter (style_put (js "display") []) e (alter c e (alter u e d))).
  assert (in_place c) as Hc.
  { intros m. split; [done|]. split; [done|]. cbn. by rewrite lookup_insert_ne. }
  split; [|split].
  - rewrite (on_run _ _ _ _ He). unfold update, addClassName, show, put_style, set_className, get_node.
    rewrite (js_bind_Ret _ _ _ _ _ (update_node_run d e n _ Hn)). fold u.
    unfold mbind at 1, js_mbind at 1. unfold mbind at 1, js_mbind at 1.
    rewrite (lookup_alter_node _ _ _ _ Hn).
    rewrite (update_node_run _ e (u n)) by by apply lookup_alter_node.
    rewrite (update_node_run _ e (c (u n))); [|by rewrite lookup_alter_eq, (lookup_alter_node _ _ _ _ Hn)].
    do 2 f_equal. apply map_eq. intros i. destruct (decide (i = e)) as [->|Hi].
    + by rewrite !lookup_alter_eq, Hn.
    + by rewrite !lookup_alter_ne.
  - by rewrite !getElementById_in_place by done.
  - rewrite (on_run _ e) by by rewrite !getElementById_in_place by done.
    rewrite (setStyle_run e (style_put (js "display") [] (c (u n))));
      [|by rewrite !lookup_alter_eq, Hn|reflexivity].
    rewrite !alter_twice. f_equal. apply map_eq. intros i.
    destruct (decide (i = e)) as [->|Hi]; [|by rewrite !lookup_alter_ne].
    rewrite !lookup_alter_eq, Hn. cbn [fmap option_fmap option_map fold_left fst snd]. unfold popup.
    do 4 f_equal. destruct (Z.ltb_spec 550 (getX w event)); [by rewrite Z.min_l by lia|by rewrite Z.min_r by lia].
Qed.

Lemma popup_in_place text x y : in_place (popup text x y).
Proof.
  intros n. split; [done|]. split; [done|]. cbn. by rewrite lookup_insert_ne.
Qed.

Lemma addHelp_run w id event str d e n text :
  getElementById d dummy_div = Some e → d !! e = Some n → choose_text id str = Some text →
  addHelp w id event (str, d) = (Ret (), (Some (text ++ close_link),
    alter (popup (stripScripts (text ++ close_link)) (Z.min 550 (getX w event)) (getY w event)) e d)).
Proof.
  intros He Hn Ht. unfold addHelp, js_local, js_set_local. js_unfold. cbn [fst snd]. rewrite Ht.
  destruct (show_popup_run w (text ++ close_link) event d e n He Hn) as (d1 & H1 & _ & H2).
  js_unfold. cbn [fst snd]. rewrite H1. cbn [fst snd]. by rewrite H2.
Qed.

(** For an id with a help text the popup shows that text with the close link,
    whatever was shown before, at the mouse but not further right than 550,
    and is visible; calling it again shows the same. *)
Theorem addHelp_spec (w : page_scroll) (id : jsstr) (event : mouse_event)
    (str : option jsstr) (d : dom) (e : nid) (n : node) (text : jsstr) :
  getElementById d dummy_div = Some e → d !! e = Some n → choose_text id None = Some text →
  ∃ d', addHelp w id event (str, d) = (Ret (), (Some (text ++ close_link), d')) ∧
  innerHTML d' e = Some (text ++ close_link) ∧
  visible e d' = (Ret true, d') ∧
  (∃ n', d' !! e = Some n' ∧
    style_get n' (js "left") = num_str (Z.min 550 (getX w event)) ∧
    style_get n' (js "top") = num_str (getY w event)) ∧
  (∀ id', getElementById d' id' = getElementById d id').
Proof.
  intros He Hn Ht. eexists. split;
    [apply (addHelp_run w id event str d e n text He Hn); by rewrite choose_text_none, Ht|].
  rewrite help_texts_no_script by by eapply choose_text_in.
  set (f := popup _ _ _). pose proof (lookup_alter_node d e n f Hn) as Hf. split_and!.
  - unfold innerHTML. rewrite Hf. cbn. by rewrite lookup_insert_eq.
  - unfold visible, get_node. js_unfold. rewrite Hf. unfold f, popup. rewrite !style_get_put.
    rewrite bool_decide_true; [done|]. js_lit. case_decide; [discriminate|].
    case_decide; [discriminate|]. rewrite decide_True by done. discriminate.
  - exists (f n). split; [done|]. unfold f, popup. rewrite !style_get_put. js_lit.
    split; [|by rewrite decide_True]. by rewrite decide_False, decide_True by (done || discriminate).
  - intros id'. apply getElementById_in_place, popup_in_place.
Qed.

(** For another id the popup repeats the text it had, with one more close
    link, and throws when it had none. *)
Lemma addHelp_unknown w id event str d e n :
  getElementById d dummy_div = Some e → d !! e = Some n → choose_text id None = None →
  (addHelp w id event (str, d)).1 = match str with Some _ => Ret () | None => Throw EReferenceError end ∧
  ((addHelp w id event (str, d)).2).1 = option_map (λ s, s ++ close_link) str.
Proof.
  intros He Hn Hnone. destruct str as [s|].
  - rewrite (addHelp_run w id event (Some s) d e n s) by (done || by rewrite choose_text_none, Hnone). done.
  - unfold addHelp, js_local, js_set_local. js_unfold. cbn [fst snd]. by rewrite Hnone.
Qed.

Definition help_dom : dom :=
  {[ 0%nat := Node NDocument ∅ ∅ ∅ None [1%nat];
     1%nat := Node (NElement (js "DIV")) {[ js "id" := dummy_div ]} ∅ ∅ (Some 0%nat) [] ]}.

Lemma addHelp_spec_witness :
  ∃ text d', choose_text (js "port") None = Some text ∧
  addHelp (PageScroll 0 10 0 0) (js "port") (MouseEvent 700 20) (Some (js "old"), help_dom)
    = (Ret (), (Some (text ++ close_link), d')) ∧ innerHTML d' 1 = Some (text ++ close_link).
Proof.
  destruct (choose_text (js "port") None) as [text|] eqn:Ht; [|discriminate].
  destruct (addHelp_spec (PageScroll 0 10 0 0) (js "port") (MouseEvent 700 20) (Some (js "old"))
    help_dom 1 (Node (NElement (js "DIV")) {[ js "id" := dummy_div ]} ∅ ∅ (Some 0%nat) []) text)
    as (d' & Hrun & Hin & _); [vm_compute; reflexivity|reflexivity|exact Ht|].
  exists text, d'. split; [reflexivity|]. split; [exact Hrun|exact Hin].
Defined.
End Help.

(** ** The analytics choice *)

Module Analytics.

(** The texts of the options of [application_specification_analytics];
    [None] when the page has no such element. *)
Abbreviation options := (option (list jsstr)).

(** [options.length = 0] *)
Definition clear_options : JS options () := λ o,
  match o with Some _ => (Ret (), Some []) | None => (Throw ETypeError, None) end.
(** [options[i] = new Option(text)], extending the list when [i] is its length *)
Definition put_option (i : nat) (text : jsstr) : JS options () := λ o,
  match o with
  | Some l => (Ret (), Some (take i l ++ replicate (i - length l) [] ++ [text] ++ drop (S i) l))
  | None => (Throw ETypeError, None)
  end.

Definition disableAnalytics (type : jsstr) : JS options () :=
  clear_options ;;
  if bool_decide (type = js "Rails")
  then put_option 0 (js "Disabled") ;; put_option 1 (js "Enabled")
  else put_option 0 (js "Disabled").

(** Only Rails applications can have analytics enabled. *)
Lemma disableAnalytics_spec type l :
  disableAnalytics type (Some l)
  = (Ret (), Some (js "Disabled" :: if bool_decide (type = js "Rails") then [js "Enabled"] else [])).
Proof. unfold disableAnalytics. js_unfold. by destruct (bool_decide _). Qed.
End Analytics.

(** ** The busy indicator *)

Module Busy.
Definition show_busy_div : D () :=
  on (js "loading_progress1") (λ e, setStyle e [(js "display", js "block")]) ;;
  on (js "loading_progress") (λ e, setStyle e [(js "display", js "block")]).
Definition hide_busy_div : D () :=
  on (js "loading_progress") (λ e, setStyle e [(js "display", js "none")]) ;;
  on (js "loading_progress1") (λ e, setStyle e [(js "display", js "none")]).
End Busy.

(** ** The Flash check *)

Module Flash.

(** What the browser offers: whether the version 6 control can be created and
    whether its property can be set ([None]: creation throws), the version
    string of the generic control, the plugin entry of the MIME type ([None]:
    no entry) and the descriptions of the two plugins. *)
Record flash_env := FlashEnv {
  axo6 : option bool;
  axo_version : option jsstr;
  enabledPlugin : option bool;
  plugin2 : option jsstr;
  plugin1 : option jsstr;
}.

(** [/\D+/g] replaced by a comma, then group 1 of [/^,?(.+),?$/]; [None] when
    the match is [null], whose [[1]] throws. *)
Definition non_digits : rx := RPlus (RChar (λ c, negb (is_digit c))).
Definition version_rx : rx :=
  (RBol +++ ROpt (RLit 44) +++ RGroup 1 (RPlus (RChar dot)) +++ ROpt (RLit 44) +++ REol)%rx.
Definition version_of (description : jsstr) : option jsstr :=
  m ← rx_match version_rx (replace_all non_digits (λ _, js ",") description);
  m_group m 1.

Definition getFlashVersion (b : flash_env) : jsstr :=
  match axo6 b with
  | Some false => js "6,0,0"
  | _ =>
      match axo_version b ≫= version_of with
      | Some v => v
      | None =>
          match enabledPlugin b with
          | Some true =>
              match (match plugin2 b with Some d => Some d | None => plugin1 b end) ≫= version_of with
              | Some v => v
              | None => js "0,0,0"
              end
          | _ => js "0,0,0"
          end
      end
  end.

(** Whether [checkFlashPlayer] alerts: [version == 0] converts the string. *)
Definition checkFlashPlayer (b : flash_env) : bool :=
  match split (getFlashVersion b) (js ",") with
  | version :: _ => num_eqb (to_number version) (int 0)
  | [] => false
  end.

(** *** The version of a description *)
#[local] Arguments reverse : simpl never.

Lemma rmatch_run p b s c :
  rmatch (RStar true (RChar p)) Some (Pos b s, c) =
  Some (Pos (reverse (span p s).1 ++ b) (span p s).2, c).
Proof.
  revert b. induction s as [|d s IH]; intros b; rewrite rmatch_star_class; [done|]. cbn [span].
  destruct (p d); [|done]. rewrite IH. cbn. destruct (span p s) as [u v]. cbn.
  by rewrite reverse_cons, <- app_assoc.
Qed.

Lemma span_app p s : s = (span p s).1 ++ (span p s).2.
Proof.
  induction s as [|c s IH]; [done|]. cbn. destruct (p c); [|done].
  destruct (span p s). cbn in *. by rewrite IH at 1.
Qed.

(** The head of [p+] is the longest run. *)
Definition run_head (p : N → bool) (s : jsstr) : option nat :=
  match s with
  | c :: s => if p c then Some (S (length (span p s).1)) else None
  | [] => None
  end.
Lemma run_head_match p : head_match (RPlus (RChar p)) (run_head p).
Proof.
  split.
  - intros b [|c s]; [done|]. cbn [run_head].
    assert (rmatch (RPlus (RChar p)) Some (Pos b (c :: s), ∅) =
      if p c then rmatch (RStar true (RChar p)) Some (Pos (c :: b) s, ∅) else None) as Hr by done.
    rewrite Hr. destruct (p c); [|done]. exists ∅. rewrite rmatch_run. cbn [take drop].
    pose proof (span_app p s) as Hs. destruct (span p s) as [u v]. cbn in Hs |- *. subst s.
    rewrite take_app_length, drop_app_length.
    by rewrite reverse_cons, <- app_assoc.
  - intros [|c s] n; [done|]. cbn [run_head]. destruct (p c); [|done]. intros [= <-].
    pose proof (span_app p s) as Hs. apply (f_equal length) in Hs. rewrite length_app in Hs. cbn. lia.
Qed.

Definition commas (s : jsstr) : jsstr := replace_all non_digits (λ _, js ",") s.

Lemma commas_scan s : commas s = scan_replace (run_head (λ c, negb (is_digit c))) (λ _, js ",") s.
Proof. apply (replace_all_scan _ _ (run_head_match _) (λ _, js ",")). Qed.

Lemma commas_digits ds s : forallb is_digit ds = true → commas (ds ++ s) = ds ++ commas s.
Proof.
  rewrite !commas_scan. induction ds as [|d ds IH]; [done|]. cbn. intros [Hd Hds]%andb_true_iff.
  rewrite (scan_replace_cons _ _ (run_head_match _)). cbn. rewrite Hd. cbn. by rewrite IH.
Qed.

Lemma span_stop p u v : forallb p u = true → (∀ c v', v = c :: v' → p c = false) →
  span p (u ++ v) = (u, v).
Proof.
  intros Hu Hv. induction u as [|c u IH]; cbn.
  - destruct v as [|c v]; [done|]. cbn. by rewrite (Hv c v).
  - cbn in Hu. apply andb_true_iff in Hu as [Hc Hu]. rewrite Hc, IH by done. done.
Qed.

Lemma commas_other u v : u ≠ [] → forallb (λ c, negb (is_digit c)) u = true →
  (∀ c v', v = c :: v' → is_digit c = true) → commas (u ++ v) = 44%N :: commas v.
Proof.
  intros Hne Hu Hv. rewrite !commas_scan. destruct u as [|c u]; [done|].
  cbn in Hu. apply andb_true_iff in Hu as [Hc Hu]. cbn [app].
  rewrite (scan_replace_cons _ _ (run_head_match _)). cbn [run_head]. rewrite Hc.
  rewrite span_stop; [|done|by intros c' v' ->%Hv]. cbn [fst drop].
  by rewrite drop_app_length.
Qed.

Lemma commas_post s : (∀ c s', s = c :: s' → is_digit c = false) →
  commas s = [] ∨ ∃ s', commas s = 44%N :: s'.
Proof.
  intros Hs. destruct s as [|c s]; [by left|right].
  pose proof (span_app (λ c, negb (is_digit c)) (c :: s)) as Hsp.
  rewrite commas_scan, (scan_replace_cons _ _ (run_head_match _)). cbn [run_head].
  rewrite (Hs c s eq_refl). cbn. by eexists.
Qed.

Lemma commas_dot s : forallb dot (commas s) = true.
Proof.
  rewrite commas_scan. induction s as [[|c s] IH] using length_ind; [done|].
  rewrite (scan_replace_cons _ _ (run_head_match _)). cbn [run_head].
  destruct (is_digit c) eqn:Hc; cbn [negb].
  - cbn [forallb]. rewrite (IH s (le_n _)), andb_true_r.
    assert (c < N.of_nat 64)%N as Hlt.
    { unfold is_digit in Hc. apply andb_true_iff in Hc as [_ Hc]. apply N.leb_le in Hc. lia. }
    revert Hc. pattern c. revert c Hlt IH. intros c Hlt _. revert c Hlt. apply below_forall.
    repeat (constructor; [first [discriminate | reflexivity]|]); constructor.
  - rewrite forallb_app. rewrite IH; [reflexivity|]. rewrite length_drop. cbn [length]. lia.
Qed.

Lemma version_rx_match t u : forallb dot t = true → t ≠ [] → u = [] ∨ u = [44%N] →
  (u = [] → ∀ c t', t = c :: t' → c ≠ 44%N) →
  ∃ m, rx_match version_rx (u ++ t) = Some m ∧ m_group m 1 = Some t.
Proof.
  intros Ht Hne Hu Hstart.
  assert (∀ b k, (∀ c, k (Pos (reverse t ++ b) [], <[1%nat := t]> c) = Some (Pos (reverse t ++ b) [], <[1%nat := t]> c)) →
    rmatch (RGroup 1 (RPlus (RChar dot))) k (Pos b t, ∅)
    = Some (Pos (reverse t ++ b) [], <[1%nat := t]> ∅)) as Hgroup.
  { intros b k Hk. destruct t as [|c t]; [done|]. cbn [forallb] in Ht.
    apply andb_true_iff in Ht as [Hc Ht].
    assert (rmatch (RGroup 1 (RPlus (RChar dot))) k (Pos b (c :: t), ∅) =
      if dot c then rmatch (RStar true (RChar dot))
        (λ y, k (y.1, <[1%nat := consumed (Pos b (c :: t)) y.1]> y.2)) (Pos (c :: b) t, ∅) else None)
      as Hr by done.
    rewrite Hr, Hc. apply rmatch_star_full; [done|]. cbn [fst snd].
    rewrite (consumed_prefix _ _ (c :: t)) by (cbn; by rewrite app_nil_r).
    rewrite <- (Hk ∅). by rewrite reverse_cons, <- app_assoc. }
  assert (rmatch version_rx Some (Pos [] (u ++ t), ∅)
    = Some (Pos (reverse t ++ reverse u) [], <[1%nat := t]> ∅)) as Hr.
  { set (G := λ p, rmatch (RGroup 1 (RPlus (RChar dot)))
      (rmatch (ROpt (RLit 44) +++ REol)%rx Some) (p, ∅)).
    assert (∀ s, rmatch version_rx Some (Pos [] s, ∅) = or_else
      (match s with c :: s' => if (c =? 44)%N then G (Pos [c] s') else None | [] => None end)
      (λ _, G (Pos [] s))) as Hrun by by intros [|? ?].
    rewrite Hrun. unfold G. destruct Hu as [->| ->].
    - cbn [app]. destruct t as [|c t]; [done|].
      assert ((c =? 44)%N = false) as -> by (apply N.eqb_neq; by eapply Hstart).
      cbn [or_else]. by rewrite Hgroup.
    - cbn [app]. change (44 =? 44)%N with true. cbv iota.
      change (reverse [44%N]) with [44%N]. by rewrite Hgroup. }
  unfold rx_match. exists (MatchRes [] (u ++ t) [] (<[1%nat := t]> ∅)). split; [|by cbn; rewrite lookup_insert_eq].
  destruct (u ++ t) as [|c s] eqn:Hut; [by apply app_nil in Hut as [_ ?]|].
  cbn [exec_from]. rewrite Hr. cbn [fst snd after]. do 2 f_equal.
  apply consumed_prefix. cbn. by rewrite app_nil_r.
Qed.

(** [navigator]'s description, cut at its first digits. *)
Lemma version_of_first pre ds post :
  forallb (λ c, negb (is_digit c)) pre = true → ds ≠ [] → forallb is_digit ds = true →
  (∀ c s', post = c :: s' → is_digit c = false) →
  ∃ v rest, version_of (pre ++ ds ++ post) = Some v ∧ split v (js ",") = ds :: rest.
Proof.
  intros Hpre Hne Hds Hpost.
  assert (commas (ds ++ post) = ds ++ commas post) as Hc by by apply commas_digits.
  assert (∃ u, (u = [] ∨ u = [44%N]) ∧ commas (pre ++ ds ++ post) = u ++ ds ++ commas post) as (u & Hu & Hcom).
  { destruct pre as [|c pre].
    - exists []. split; [by left|done].
    - exists [44%N]. split; [by right|]. rewrite commas_other; [by rewrite Hc|done|done|].
      intros d v' Hv. destruct ds as [|d' ds]; [done|]. injection Hv as -> _.
      cbn in Hds. by apply andb_true_iff in Hds as [? _]. }
  destruct (version_rx_match (ds ++ commas post) u) as (m & Hm & Hg).
  - rewrite forallb_app, commas_dot, andb_true_r. revert Hds. rewrite !forallb_true_iff.
    intros Hds. eapply Forall_impl; [exact Hds|]. cbn. intros c Hc'.
    assert (c < N.of_nat 64)%N as Hlt.
    { unfold is_digit in Hc'. apply andb_true_iff in Hc' as [_ Hc']. apply N.leb_le in Hc'. lia. }
    revert Hc'. pattern c. revert c Hlt. apply below_forall.
    repeat (constructor; [first [discriminate | reflexivity]|]); constructor.
  - by destruct ds.
  - done.
  - intros _ c t' Hct ->. destruct ds as [|d ds]; [done|]. injection Hct as -> _. done.
  - assert (44%N ∉ ds) as Hnc.
    { intros Hin. rewrite forallb_true_iff, Forall_forall in Hds. by apply Hds in Hin. }
    unfold version_of. fold (commas (pre ++ ds ++ post)). rewrite Hcom, Hm. cbn [mbind option_bind].
    rewrite Hg. change (js ",") with [44%N].
    destruct (commas_post post Hpost) as [->|(s' & ->)].
    + exists ds, []. rewrite app_nil_r. split; [done|]. by apply split_none.
    + eexists _, _. split; [done|]. by apply split_app.
Qed.

(** When the description of the control found has a number, the page alerts
    exactly when its first number, the major version, is zero; a control whose
    property cannot be set counts as version 6. *)
Theorem checkFlashPlayer_spec (b : flash_env) (description pre ds post : jsstr) :
  (axo6 b ≠ Some false ∧ axo_version b = Some description ∨
   axo6 b ≠ Some false ∧ axo_version b = None ∧ enabledPlugin b = Some true ∧
   (plugin2 b = Some description ∨ plugin2 b = None ∧ plugin1 b = Some description)) →
  description = pre ++ ds ++ post →
  forallb (λ c, negb (is_digit c)) pre = true → ds ≠ [] → forallb is_digit ds = true →
  (∀ c s', post = c :: s' → is_digit c = false) →
  checkFlashPlayer b = true ↔ digits_val ds = 0.
Proof.
  intros Hb -> Hpre Hne Hds Hpost.
  destruct (version_of_first pre ds post Hpre Hne Hds Hpost) as (v & rest & Hv & Hsplit).
  assert (getFlashVersion b = v) as Hget.
  { unfold getFlashVersion. destruct Hb as [[H6 Hax]|(H6 & Hax & Hen & Hpl)]; rewrite Hax.
    - cbn. rewrite Hv. by destruct (axo6 b) as [[]|].
    - cbn. rewrite Hen. assert (match plugin2 b with Some d => Some d | None => plugin1 b end
        = Some (pre ++ ds ++ post)) as -> by (destruct Hpl as [->|[-> ->]]; done).
      cbn. rewrite Hv. by destruct (axo6 b) as [[]|]. }
  unfold checkFlashPlayer. rewrite Hget, Hsplit. cbn [head default].
  apply forallb_true_iff in Hds. rewrite to_number_digits by done.
  by apply num_of_Z_zero, digits_val_nonneg.
Qed.

Definition flash9 : flash_env := FlashEnv None (Some (js "WIN 9,0,124,0")) None None None.

Lemma checkFlashPlayer_spec_witness :
  forallb (λ c, negb (is_digit c)) (js "WIN ") = true ∧
  (checkFlashPlayer flash9 = true ↔ digits_val (js "9") = 0).
Proof.
  split; [reflexivity|].
  apply (checkFlashPlayer_spec flash9 (js "WIN 9,0,124,0") (js "WIN ") (js "9") (js ",0,124,0"));
    [left; done|reflexivity|reflexivity|done|reflexivity|].
  intros c s' [= <- _]. reflexivity.
Defined.
End Flash.

(** ** The hours of a graph *)

Module Hours.

(** The texts of the two labels of every slider, by element id, and the
    requests sent so far: the element updated on success and the address. *)
Record graph_page := GraphPage {
  labels : gmap jsstr jsstr;
  date : option jsstr;               (* the value of [$('date')] *)
  requests : list (jsstr * jsstr);
}.

(** [$j("#" + id).text(t)]: nothing happens when no element has the id. *)
Definition set_text (id t : jsstr) : JS graph_page () := js_modify (λ p,
  GraphPage (alter (λ _, t) id (labels p)) (date p) (requests p)).

(** The slider's values are whole hours. *)
Definition setToolTip (start_time end_time : Z) (count : jsstr) : JS graph_page () :=
  let a_name1 := count ++ js "1" in
  let a_name2 := count ++ js "2" in
  if (start_time <=? 0) && (start_time =? end_time)
  then set_text a_name1 (num_str start_time ++ js ":00") ;;
       set_text a_name2 (num_str end_time ++ js ":00")
  else if start_time =? end_time
  then set_text a_name1 (num_str (start_time - 1) ++ js ":59") ;;
       set_text a_name2 (num_str (end_time - 1) ++ js ":59")
  else set_text a_name1 (num_str start_time ++ js ":00") ;;
       set_text a_name2 (num_str (end_time - 1) ++ js ":59").

(** [new Ajax.Updater({success: target, ...}, address, ...)] *)
Definition updater (target address : jsstr) : JS graph_page () := js_modify (λ p,
  GraphPage (labels p) (date p) (requests p ++ [(target, address)])).

(** The graph ids tested, in order: the element updated, which has the same
    id, the path requested and whether the application's id is sent. *)
Definition graphs : list (jsstr * (jsstr * bool)) := [
  (js "server_cpu_usage_graph", (js "get_server_cpu_usage_graph", false));
  (js "server_memory_usage_graph", (js "get_server_memory_usage_graph", false));
  (js "percentage_db_usage_graph", (js "percentage_time_spent_in_db_layer", true));
  (js "avg_res_time_graph", (js "average_response_graph", true));
  (js "app_throughput_graph", (js "peak_requests_graph", true));
  (js "app_cpu_usage_graph", (js "percentage_cpu_usage_graph", true));
  (js "app_memory_usage_graph", (js "memory_usage_graph", true))].

Definition graph_address (path : jsstr) (with_app : bool) (app_id : Z) (graph_date : jsstr)
    (start_time end_time : Z) : jsstr :=
  js "/admin-panel/graph/" ++ path ++ js "?" ++
  (if with_app then js "app_id=" ++ num_str app_id ++ js "&" else []) ++
  js "date=" ++ graph_date ++ js "&start_time=" ++ num_str start_time ++
  js "&end_time=" ++ num_str end_time.

Definition setValue (start_time end_time app_id : Z) (graph_id count : jsstr) : JS graph_page () :=
  setToolTip start_time end_time count ;;
  o ← js_gets date;
  match o with
  | None => js_throw ETypeError
  | Some graph_date =>
      js_each graphs (λ '(id, (path, with_app)),
        js_when (bool_decide (graph_id = id))
          (updater id (graph_address path with_app app_id graph_date start_time end_time)))
  end.

(** The two labels for a range of hours. *)
Definition start_label (s e : Z) : jsstr :=
  if s =? e then (if s <=? 0 then num_str s ++ js ":00" else num_str (s - 1) ++ js ":59")
  else num_str s ++ js ":00".
Definition end_label (s e : Z) : jsstr :=
  if (s =? e) && (s <=? 0) then num_str e ++ js ":00" else num_str (e - 1) ++ js ":59".

Lemma setToolTip_run s e count p :
  setToolTip s e count p = (Ret (), GraphPage
    (alter (λ _, end_label s e) (count ++ js "2") (alter (λ _, start_label s e) (count ++ js "1") (labels p)))
    (date p) (requests p)).
Proof.
  unfold setToolTip, start_label, end_label.
  destruct (s <=? 0), (s =? e) eqn:E; cbn [andb]; try reflexivity.
Qed.

Lemma graph_requests g (f : jsstr → jsstr → bool → jsstr * jsstr) l p :
  NoDup l.*1 →
  js_each l (λ '(id, (path, b)), js_when (bool_decide (g = id)) (js_modify (λ p,
    GraphPage (labels p) (date p) (requests p ++ [f id path b])))) p
  = (Ret (), GraphPage (labels p) (date p)
      (requests p ++ match list_find (λ x, x.1 = g) l with
                     | Some (_, (id, (path, b))) => [f id path b] | None => [] end)).
Proof.
  revert p. induction l as [|[id [path b]] l IH]; intros p.
  { intros _. destruct p as [lb dt rq]. cbn. by rewrite app_nil_r. }
  cbn [fmap list_fmap fst]. intros Hnd%NoDup_cons. destruct Hnd as [Hni Hnd].
  cbn [js_each list_find fst]. unfold js_when.
  destruct (decide (g = id)) as [->|Hne].
  - rewrite bool_decide_true by done. rewrite js_bind_modify, IH by done. cbn [labels date requests].
    rewrite decide_True by done. f_equal. f_equal. rewrite <- app_assoc. f_equal.
    destruct (list_find (λ x, x.1 = id) l) as [[i x]|] eqn:Hf; [|by rewrite app_nil_r].
    exfalso. apply list_find_Some in Hf as (Hl & <- & _). apply Hni.
    apply list_elem_of_fmap. exists x. split; [done|]. by eapply list_elem_of_lookup_2.
  - rewrite bool_decide_false by done. rewrite js_bind_ret, IH by done.
    rewrite decide_False by done. destruct (list_find _ l) as [[i [? [? ?]]]|]; reflexivity.
Qed.

Lemma label_inj a b (m m' : jsstr) : length m = length m' →
  num_str a ++ m = num_str b ++ m' → a = b ∧ m = m'.
Proof. intros Hl H. apply app_inj_2 in H as [H ->]; [|done]. split; [by apply num_str_inj|done]. Qed.

(** The labels tell ranges of the slider apart. *)
Lemma labels_determine s e s' e' : 0 ≤ s ≤ e → 0 ≤ s' ≤ e' →
  start_label s e = start_label s' e' → end_label s e = end_label s' e' → s = s' ∧ e = e'.
Proof.
  unfold start_label, end_label. intros H H'.
  destruct (Z.eqb_spec s e), (Z.eqb_spec s' e'), (Z.leb_spec s 0), (Z.leb_spec s' 0); cbn [andb];
    intros L1 L2; apply label_inj in L1 as [L1 E1]; try reflexivity;
    apply label_inj in L2 as [L2 E2]; try reflexivity; try discriminate; lia.
Qed.

Lemma setValue_run s e app_id g count p dt : date p = Some dt →
  setValue s e app_id g count p = (Ret (), GraphPage
    (alter (λ _, end_label s e) (count ++ js "2") (alter (λ _, start_label s e) (count ++ js "1") (labels p)))
    (date p)
    (requests p ++ match list_find (λ x, x.1 = g) graphs with
                   | Some (_, (id, (path, b))) => [(id, graph_address path b app_id dt s e)]
                   | None => [] end)).
Proof.
  intros Hd. unfold setValue. rewrite (js_bind_Ret _ _ _ _ _ (setToolTip_run s e count p)).
  rewrite js_bind_gets. cbn [date]. rewrite Hd. unfold updater.
  rewrite (graph_requests g (λ id path b, (id, graph_address path b app_id dt s e)) graphs); [reflexivity|].
  apply (bool_decide_unpack _). vm_compute. exact I.
Qed.

(** C9. Moving a slider to the hours [s] to [e] asks once for the graph of the
    slider, with the chosen date and hours, and asks nothing for an id that is
    no graph's; the two labels, where the page has them, show the range, and
    no other range of the slider is shown the same way. *)
Theorem setValue_spec (s e app_id : Z) (g count : jsstr) (p : graph_page) (dt : jsstr) :
  0 ≤ s ≤ e → date p = Some dt →
  ∃ p', setValue s e app_id g count p = (Ret (), p') ∧
  (∀ i path b, graphs !! i = Some (g, (path, b)) →
    requests p' = requests p ++ [(g, graph_address path b app_id dt s e)]) ∧
  (g ∉ graphs.*1 → requests p' = requests p) ∧
  (is_Some (labels p !! (count ++ js "1")) → is_Some (labels p !! (count ++ js "2")) →
    labels p' !! (count ++ js "1") = Some (start_label s e) ∧
    labels p' !! (count ++ js "2") = Some (end_label s e)) ∧
  (∀ s' e', 0 ≤ s' ≤ e' → start_label s' e' = start_label s e →
    end_label s' e' = end_label s e → s' = s ∧ e' = e).
Proof.
  intros Hse Hd. eexists. split; [by apply setValue_run|]. cbn [requests labels].
  split; [|split; [|split; [|intros; by apply labels_determine]]].
  - intros i path b Hi.
    destruct (list_find_elem_of (λ x : jsstr * (jsstr * bool), x.1 = g) graphs (g, (path, b))) as [[j [id [pa bo]]] Hf];
      [by eapply list_elem_of_lookup_2|done|].
    rewrite Hf. f_equal. apply list_find_Some in Hf as (Hj & Heq & _). cbn in Heq. subst id.
    assert (NoDup graphs.*1) as Hnd by (apply (bool_decide_unpack _); vm_compute; exact I).
    assert (i = j) as ->.
    { eapply (NoDup_lookup graphs.*1 _ _ g Hnd); rewrite list_lookup_fmap; [by rewrite Hi|by rewrite Hj]. }
    rewrite Hi in Hj. by injection Hj as -> ->.
  - intros Hni. destruct (list_find _ graphs) as [[j x]|] eqn:Hf; [|by rewrite app_nil_r].
    exfalso. apply Hni. apply list_find_Some in Hf as (Hj & <- & _). apply list_elem_of_fmap.
    exists x. split; [done|]. by eapply list_elem_of_lookup_2.
  - intros [l1 H1] [l2 H2].
    rewrite lookup_alter_ne, !lookup_alter_eq, lookup_alter_ne, H1, H2
      by (intros ?%app_inv_head; discriminate). done.
Qed.

Definition sample_page : graph_page :=
  GraphPage {[ js "31" := js "0:00"; js "32" := js "23:59" ]} (Some (js "2010/01/15")) [].

Lemma setValue_spec_witness : ∃ p', setValue 9 17 4 (js "app_cpu_usage_graph") (js "3") sample_page = (Ret (), p') ∧
  requests p' = [(js "app_cpu_usage_graph",
    js "/admin-panel/graph/percentage_cpu_usage_graph?app_id=4&date=2010/01/15&start_time=9&end_time=17")].
Proof.
  destruct (setValue_spec 9 17 4 (js "app_cpu_usage_graph") (js "3") sample_page (js "2010/01/15"))
    as (p' & Hrun & Hreq & _); [lia|reflexivity|].
  exists p'. split; [exact Hrun|]. rewrite (Hreq 5%nat (js "percentage_cpu_usage_graph") true) by reflexivity.
  vm_compute. reflexivity.
Defined.
End Hours.

(** ** The check boxes of the exception list *)

Module CheckBoxes.

(** What [document.form_exception_list.exception_ids_] is: nothing, the only
    box, or the collection of the boxes, on which [checkAll] sets a property
    [checked] as well. *)
Inductive inputs :=
| NoInput
| OneInput (checked : bool)
| Inputs (boxes : list bool) (mark : option bool).

Record form := Form {
  main_checkbox : option bool;       (* the box [check_all] *)
  input_elements : inputs;
}.

Definition set_main (b : bool) : JS form () := λ f,
  match main_checkbox f with
  | Some _ => (Ret (), Form (Some b) (input_elements f))
  | None => (Throw ETypeError, f)
  end.

(** [for (...) if (checked) check = true; else { check = false; break; }] *)
Fixpoint check_loop (boxes : list bool) (check : bool) : bool :=
  match boxes with
  | [] => check
  | true :: boxes => check_loop boxes true
  | false :: _ => false
  end.

(** [element] is the box clicked; its state is [checked]. *)
Definition uncheckMain (checked : bool) : JS form () :=
  if checked then
    input ← js_gets input_elements;
    match input with
    | NoInput => js_throw ETypeError
    | OneInput c => set_main c
    | Inputs boxes mark =>
        let check := check_loop boxes false in
        set_main (if (length boxes =? 0)%nat then (if mark is Some true then true else check) else check)
    end
  else set_main false.

(** [element] is the value of [exception_ids_] when the main box is clicked. *)
Definition checkAll (self : bool) : JS form () := λ f,
  match input_elements f with
  | NoInput => (Throw ETypeError, f)
  | OneInput _ => (Ret (), Form (main_checkbox f) (OneInput self))
  | Inputs boxes _ =>
      (Ret (), Form (main_checkbox f) (Inputs ((λ _, self) <$> boxes) (Some self)))
  end.

(** The dialog shown and what the user answers to the question. *)
Inductive dialog := Alert (text : jsstr) | Confirm (text : jsstr).
Definition question (arg : jsstr) : dialog :=
  Confirm (js "Are you sure to " ++ arg ++ js " selected exception(s)?").
Definition nothing_selected : dialog := Alert (js "No exception selected...!").

Definition checkMarked (arg : jsstr) (answer : bool) (f : form) : dialog * bool :=
  match input_elements f with
  | NoInput => (nothing_selected, false)
  | OneInput true => (question arg, answer)
  | OneInput false => (nothing_selected, false)
  | Inputs boxes mark =>
      if existsb id boxes then (question arg, answer)
      else if mark is Some true then (question arg, answer)
      else (nothing_selected, false)
  end.

(** A click inverts a box, then the handler of its [onclick] runs. *)
Definition click_main : JS form () := λ f,
  match main_checkbox f with
  | Some b => checkAll (negb b) (Form (Some (negb b)) (input_elements f))
  | None => (Throw ETypeError, f)
  end.
Definition click_box (i : nat) : JS form () := λ f,
  match input_elements f with
  | OneInput c => uncheckMain (negb c) (Form (main_checkbox f) (OneInput (negb c)))
  | Inputs boxes mark =>
      match boxes !! i with
      | Some c => uncheckMain (negb c) (Form (main_checkbox f) (Inputs (<[i := negb c]> boxes) mark))
      | None => (Ret (), f)
      end
  | NoInput => (Ret (), f)
  end.

(** The page as the server sends it: [n] exceptions, nothing checked. *)
Definition initial (n : nat) : form :=
  Form (Some false) (match n with
                     | O => NoInput
                     | S O => OneInput false
                     | _ => Inputs (replicate n false) None
                     end).
Inductive click : form → form → Prop :=
| click_main_step f f' : click_main f = (Ret (), f') → click f f'
| click_box_step i f f' : click_box i f = (Ret (), f') → click f f'.

Definition all_checked (input : inputs) : bool :=
  match input with NoInput => false | OneInput c => c | Inputs boxes _ => forallb id boxes end.
Definition some_checked (input : inputs) : bool :=
  match input with NoInput => false | OneInput c => c | Inputs boxes _ => existsb id boxes end.
Definition several (input : inputs) : Prop :=
  match input with Inputs boxes _ => boxes ≠ [] | _ => True end.

Record consistent (f : form) : Prop := {
  main_is_all : main_checkbox f = Some (all_checked (input_elements f));
  never_empty : several (input_elements f);
}.

Lemma check_loop_all boxes b : boxes ≠ [] → check_loop boxes b = forallb id boxes.
Proof.
  revert b. induction boxes as [|[] boxes IH]; intros b Hne; [done| |done].
  cbn. destruct boxes as [|c boxes]; [done|]. by apply IH.
Qed.

Lemma insert_nonempty {A} i (x : A) l : l ≠ [] → <[i := x]> l ≠ [].
Proof. destruct l, i; done. Qed.

Lemma forallb_insert_false i (l : list bool) : (i < length l)%nat → forallb id (<[i := false]> l) = false.
Proof.
  revert i. induction l as [|b l IH]; intros [|i] Hi; cbn in *; [lia..|done|].
  rewrite IH by lia. by destruct b.
Qed.

Lemma forallb_fmap_const {A} (b : bool) (l : list A) : l ≠ [] → forallb id ((λ _, b) <$> l) = b.
Proof.
  destruct b.
  - intros _. induction l; done.
  - by destruct l.
Qed.

Lemma click_box_consistent i f f' : consistent f → click_box i f = (Ret (), f') → consistent f'.
Proof.
  intros [Hm Hne]. unfold click_box. destruct (input_elements f) as [|c|boxes mark] eqn:Hin.
  - intros [= <-]. split; by rewrite Hin.
  - destruct c; cbn; rewrite Hm; intros [= <-]; split; done.
  - destruct (boxes !! i) as [c|] eqn:Hi; [|intros [= <-]; split; by rewrite Hin].
    pose proof (lookup_lt_Some _ _ _ Hi) as Hlt.
    destruct c; cbn [negb uncheckMain].
    + unfold set_main. cbn [main_checkbox]. rewrite Hm. intros [= <-].
      split; cbn; [by rewrite forallb_insert_false|by apply insert_nonempty].
    + rewrite js_bind_gets. cbn [input_elements].
      destruct (Nat.eqb_spec (length (<[i:=true]> boxes)) 0) as [H0|_].
      { by apply length_zero_iff_nil in H0; apply insert_nonempty in H0. }
      rewrite check_loop_all by by apply insert_nonempty.
      unfold set_main. cbn [main_checkbox]. rewrite Hm. intros [= <-].
      split; cbn; [done|by apply insert_nonempty].
Qed.

Lemma click_main_consistent f f' : consistent f → click_main f = (Ret (), f') → consistent f'.
Proof.
  intros [Hm Hne]. unfold click_main, checkAll. rewrite Hm. cbn [input_elements main_checkbox].
  destruct (input_elements f) as [|c|boxes mark] eqn:Hin; intros [= <-]; split; cbn; try done.
  - by rewrite forallb_fmap_const.
  - by destruct boxes.
Qed.

Lemma initial_consistent n : consistent (initial n).
Proof. destruct n as [|[|n]]; split; done. Qed.

Lemma clicks_consistent n f : rtc click (initial n) f → consistent f.
Proof.
  assert (∀ f0, rtc click f0 f → consistent f0 → consistent f) as Hg.
  { induction 1 as [|f0 f1 f2 [] _ IH]; eauto using click_box_consistent, click_main_consistent. }
  intros H. by eapply Hg, initial_consistent.
Qed.

(** C8. Whatever boxes the user clicks, in any order, the main box is checked
    exactly when all the others are; no click throws unless the main box is
    clicked in an empty list; and an action is confirmed before it is carried
    out whenever something is selected. *)
Theorem check_boxes_spec (n : nat) (f : form) (arg : jsstr) (answer : bool) :
  rtc click (initial n) f →
  main_checkbox f = Some (all_checked (input_elements f)) ∧
  (∀ i, ∃ f', click_box i f = (Ret (), f')) ∧
  ((∃ f', click_main f = (Ret (), f')) ↔ input_elements f ≠ NoInput) ∧
  (some_checked (input_elements f) = true → checkMarked arg answer f = (question arg, answer)) ∧
  (checkMarked arg answer f = (nothing_selected, false) ∨ checkMarked arg answer f = (question arg, answer)).
Proof.
  intros Hf. destruct (clicks_consistent n f Hf) as [Hm Hne]. split; [done|]. split; [|split; [|split]].
  - intros i. unfold click_box. destruct (input_elements f) as [|c|boxes mark] eqn:Hin; [by eexists| |].
    + destruct c; cbn; rewrite Hm; by eexists.
    + destruct (boxes !! i) as [[]|]; [| |by eexists]; cbn [negb uncheckMain]; rewrite ?js_bind_gets;
        cbn [input_elements]; unfold set_main; cbn [main_checkbox]; rewrite Hm; by eexists.
  - unfold click_main, checkAll. rewrite Hm. cbn [input_elements main_checkbox].
    destruct (input_elements f); split; try done; try (by intros [? ?]); by eexists.
  - unfold checkMarked. destruct (input_elements f) as [|[]|boxes mark]; try done. cbn. by intros ->.
  - unfold checkMarked. destruct (input_elements f) as [|[]|boxes mark]; try by auto.
    destruct (existsb id boxes); [by right|]. destruct mark as [[]|]; auto.
Qed.

Lemma check_boxes_spec_witness :
  ∃ f, rtc click (initial 2) f ∧ main_checkbox f = Some (all_checked (input_elements f)) ∧
  checkMarked (js "Close") true f = (question (js "Close"), true).
Proof.
  assert (rtc click (initial 2) (Form (Some true) (Inputs [true; true] None))) as H.
  { apply (rtc_l _ _ (Form (Some false) (Inputs [true; false] None)));
      [apply (click_box_step 0); reflexivity|].
    apply rtc_once, (click_box_step 1). reflexivity. }
  exists (Form (Some true) (Inputs [true; true] None)). split; [exact H|].
  destruct (check_boxes_spec 2 _ (js "Close") true H) as (Hm & _ & _ & Hc & _).
  split; [exact Hm|]. by apply Hc.
Defined.

(** Once everything has been checked with the main box, an action is confirmed
    even if every box has been cleared again one by one. *)
Lemma checkMarked_stale : ∃ f, rtc click (initial 2) f ∧ some_checked (input_elements f) = false ∧
  ∀ arg answer, checkMarked arg answer f = (question arg, answer).
Proof.
  exists (Form (Some false) (Inputs [false; false] (Some true))). split; [|done].
  apply (rtc_l _ _ (Form (Some true) (Inputs [true; true] (Some true)))); [by apply click_main_step|].
  apply (rtc_l _ _ (Form (Some false) (Inputs [false; true] (Some true)))); [by apply (click_box_step 0)|].
  apply rtc_once. by apply (click_box_step 1).
Qed.
End CheckBoxes.
