(* ===== verification/Ajax.v ===== *)
(** * Ajax (prototype.js: Ajax.*, Try.these, PeriodicalExecuter)

    Requests run against a browser transport whose ready states are events of
    the page.  The callbacks of the page and the transport's own methods are
    computations over the whole state, parameters of the model, so that they
    may use this library or throw. *)

From Stdlib Require Import ZArith.
From S2P Require Import Prelude JsBase JsNum JsRegex JsReplace JsUri Enumerable Strings Hash.
#[local] Open Scope Z_scope.
#[local] Open Scope stdpp_scope.

(** ** Try.these *)

(** The first function that returns; [undefined] when they all throw. *)
Fixpoint these {S A} (lambdas : list (JS S A)) : JS S (option A) :=
  match lambdas with
  | [] => mret None
  | lambda :: lambdas => js_try (r ← lambda; mret (Some r)) (λ _, these lambdas)
  end.

(** ** PeriodicalExecuter *)

Module PeriodicalExecuter.
Record executer := Executer { currentlyExecuting : bool; timer : option nat }.

Section executer.
Context {U : Type} (callback : JS (executer * U) ()).

Definition execute : JS (executer * U) () := callback.
Definition set_executing (b : bool) : JS (executer * U) () := js_modify (λ s,
  (Executer b (timer s.1), s.2)).
(** Whether [clearInterval] is called, and for which timer. *)
Definition executer_stop : JS (executer * U) (option nat) := λ s,
  match timer s.1 with
  | None => (Ret None, s)
  | Some t => (Ret (Some t), (Executer (currentlyExecuting s.1) None, s.2))
  end.
Definition executer_onTimerEvent : JS (executer * U) () := λ s,
  if currentlyExecuting s.1 then (Ret (), s)
  else js_finally (set_executing true ;; execute) (set_executing false) s.
End executer.
End PeriodicalExecuter.

(** ** Options *)

Inductive eval_option := EvalOff | EvalOn | EvalForce.

(** The object given to a constructor: absent properties are [None].  The
    parameters may be a query string, a Hash or an object. *)
Inductive parameters_option := PString (s : jsstr) | PHash (h : Hash) | PObject (o : object).
(** The headers given: an array of alternating names and values, or an
    object. *)
Inductive headers_option := HArray (l : list jsstr) | HObject (o : object).

Record given_options := Given {
  g_method : option jsstr; g_asynchronous : option bool; g_contentType : option jsstr;
  g_encoding : option jsstr; g_parameters : option parameters_option;
  g_evalJSON : option eval_option; g_evalJS : option eval_option;
  g_postBody : option jsstr; g_requestHeaders : option headers_option; g_sanitizeJSON : bool;
}.
Record options := Options {
  o_method : jsstr; o_asynchronous : bool; o_contentType : jsstr;
  o_encoding : jsstr; o_parameters : object;
  o_evalJSON : eval_option; o_evalJS : eval_option;
  o_postBody : option jsstr; o_requestHeaders : option headers_option; o_sanitizeJSON : bool;
}.

(** [Ajax.Base.initialize]: the defaults, overridden by what is given. *)
Definition base_options {S} (g : given_options) : JS S options :=
  parameters ← match default (PString []) (g_parameters g) with
               | PString s => toQueryParams s []
               | PHash h => mret (toObject h)
               | PObject o => mret o
               end;
  mret (Options (toLowerCase (default (js "post") (g_method g)))
    (default true (g_asynchronous g))
    (default (js "application/x-www-form-urlencoded") (g_contentType g))
    (default (js "UTF-8") (g_encoding g)) parameters
    (default EvalOn (g_evalJSON g)) (default EvalOn (g_evalJS g))
    (g_postBody g) (g_requestHeaders g) (g_sanitizeJSON g)).

(** ** The state *)

(** A transport: [status] is [None] while reading it throws, a header is
    [None] when it is absent or reading it throws, [hooked] tells whether
    [onreadystatechange] is the request's handler. *)
Record transport := Transport {
  readyState : nat; t_status : option Z; t_statusText : option jsstr; t_responseText : jsstr;
  t_header : jsstr → option jsstr; t_responseXML : jsv; hooked : bool;
}.

Record request := Request {
  url : jsstr; method : jsstr; opts : options; parameters : object; body : option jsstr;
  sent_headers : list (jsstr * jsv); _complete : bool; deferred : bool; xhr : transport;
}.

Record response := Response {
  r_readyState : nat; status : Z; statusText : jsstr; responseText : option jsstr;
  headerJSON : jsv; responseXML : jsv; responseJSON : jsv;
}.

(** What a callback receives. *)
Inductive payload := AResponse (r : response) | AException (e : exn).

(** [responders] and [activeRequestCount] are the fields of [Ajax]; requests
    and responders are told apart by numbers; [user] is the rest of the page. *)
Record world (U : Type) := World {
  responders : list nat; activeRequestCount : Z; requests : gmap nat request; user : U;
}.
Arguments World {U} _ _ _ _.
Arguments responders {U} _.
Arguments activeRequestCount {U} _.
Arguments requests {U} _.
Arguments user {U} _.

(** What the code reads of the browser. *)
Record browser := Browser {
  userAgent : jsstr; is_IE : bool; overrideMimeType : bool;
  loc_protocol : jsstr; doc_domain : jsstr; loc_port : jsstr;
}.

(** *** Reading and changing one request *)
Section request_state.
Context {U : Type}.

Definition get_request (r : nat) : JS (world U) request := λ w,
  match requests w !! r with Some q => (Ret q, w) | None => (Throw ETypeError, w) end.
Definition change_request (r : nat) (f : request → request) : JS (world U) () := js_modify (λ w,
  World (responders w) (activeRequestCount w) (alter f r (requests w)) (user w)).
Definition count_requests (f : Z → Z) : JS (world U) () := js_modify (λ w,
  World (responders w) (f (activeRequestCount w)) (requests w) (user w)).

End request_state.

Definition set_hooked (b : bool) (q : request) : request :=
  let t := xhr q in
  Request (url q) (method q) (opts q) (parameters q) (body q) (sent_headers q) (_complete q) (deferred q)
    (Transport (readyState t) (t_status t) (t_statusText t) (t_responseText t) (t_header t) (t_responseXML t) b).
Definition set_complete (q : request) : request :=
  Request (url q) (method q) (opts q) (parameters q) (body q) (sent_headers q) true (deferred q) (xhr q).
Definition set_deferred (b : bool) (q : request) : request :=
  Request (url q) (method q) (opts q) (parameters q) (body q) (sent_headers q) (_complete q) b (xhr q).
Definition set_body (b : option jsstr) (q : request) : request :=
  Request (url q) (method q) (opts q) (parameters q) b (sent_headers q) (_complete q) (deferred q) (xhr q).
Definition set_headers (h : list (jsstr * jsv)) (q : request) : request :=
  Request (url q) (method q) (opts q) (parameters q) (body q) h (_complete q) (deferred q) (xhr q).
Definition set_xhr (t : transport) (q : request) : request :=
  Request (url q) (method q) (opts q) (parameters q) (body q) (sent_headers q) (_complete q) (deferred q) t.

(** ** Texts of requests and responses *)

(** [Prototype.JSONFilter]: the comment that keeps a response from being
    loaded as a script. *)
Definition json_filter : rx :=
  (RBol +++ RStr (js "/*-secure-") +++ RGroup 1 (RStar true (RChar (λ _, true))) +++
   RStr (js "*/") +++ RStar true (RChar is_space) +++ REol)%rx.
Definition unfilterJSON (s : jsstr) : jsstr :=
  default s (sub s json_filter (prepareReplacement 1 (js "#{1}")) 1).

(** The global function [escape]. *)
Definition escape_safe (c : N) : bool :=
  is_digit c || is_upper c || is_lower c || bool_decide (c ∈ js "@*_+-./").
Definition escape (s : jsstr) : jsstr := s ≫= λ c,
  if escape_safe c then [c]
  else if (c <? 256)%N then [37%N; hex_upper (c / 16); hex_upper (c mod 16)]
  else js "%u" ++ [hex_upper (c / 4096); hex_upper (c / 256 mod 16); hex_upper (c / 16 mod 16); hex_upper (c mod 16)].

(** [s.evalJSON(sanitize)] for the engine's [eval]. *)
Definition evalJSON {S} (eval_js : jsstr → JS S jsv) (s : jsstr) (sanitize : bool) : JS S jsv :=
  let json := unfilterJSON s in
  if negb sanitize || isJSON json
  then js_try (eval_js (js "(" ++ json ++ js ")")) (λ _, js_throw ESyntaxError)
  else js_throw ESyntaxError.

(** [/^\s*https?:\/\/[^\/]*/] *)
Definition origin_rx : rx :=
  (RBol +++ RStar true (RChar is_space) +++ RStr (js "http") +++ ROpt (RLit 115) +++
   RStr (js "://") +++ RStar true (RChar (none_of (js "/"))))%rx.
(** [isSameOrigin] of a request for [url] *)
Definition isSameOrigin (b : browser) (url : jsstr) : bool :=
  match rx_match origin_rx url with
  | None => true
  | Some m => bool_decide (Some (m_text m) = evaluate (js "#{protocol}//#{domain}#{port}") (VObj [
      (js "protocol", VStr (loc_protocol b)); (js "domain", VStr (doc_domain b));
      (js "port", VStr (if bool_decide (loc_port b = []) then [] else js ":" ++ loc_port b))]))
  end.

(** The content types of scripts: [text] or [application], a slash, an
    optional [x-], [javascript] or [ecmascript], then anything after a
    semicolon, in either case of the letters. *)
Definition script_type_rx : rx :=
  (RBol +++ RStar true (RChar is_space) +++
   RGroup 1 (ci_str (js "text") <|> ci_str (js "application")) +++ RLit 47 +++
   ROpt (RGroup 2 (ci_str (js "x-"))) +++ RGroup 3 (ci_str (js "java") <|> ci_str (js "ecma")) +++
   ci_str (js "script") +++ ROpt (RGroup 4 (RLit 59 +++ RStar true (RChar dot))) +++
   RStar true (RChar is_space) +++ REol)%rx.

(** [/Konqueror|Safari|KHTML/] and [/Gecko\/(\d{4})/] *)
Definition khtml_rx : rx := (RStr (js "Konqueror") <|> RStr (js "Safari") <|> RStr (js "KHTML"))%rx.
Definition gecko_rx : rx :=
  (RStr (js "Gecko/") +++ RGroup 1 (RChar is_digit +++ RChar is_digit +++ RChar is_digit +++ RChar is_digit))%rx.
(** [(userAgent.match(/Gecko\/(\d{4})/) || [0,2005])[1] < 2005] *)
Definition old_gecko (b : browser) : bool :=
  match rx_match gecko_rx (userAgent b) with
  | Some m => num_ltb (to_number (m_group_or_empty m 1)) (int 2005)
  | None => false
  end.

(** [s || null] *)
Definition nonempty (o : option jsstr) : option jsstr :=
  match o with Some (c :: s) => Some (c :: s) | _ => None end.
(** [Ajax.Request.getHeader], [getStatus], [success] and
    [Ajax.Response.getStatusText] read the transport. *)
Definition getHeader (t : transport) (name : jsstr) : option jsstr := nonempty (t_header t name).
Definition getStatus (t : transport) : Z := default 0 (t_status t).
Definition getStatusText (t : transport) : jsstr := default [] (t_statusText t).
Definition success (t : transport) : bool :=
  let status := getStatus t in (status =? 0) || ((200 <=? status) && (status <? 300)).

(** [Ajax.Request.Events[readyState]], concatenated after ['on']. *)
Definition Events : list jsstr :=
  [js "Uninitialized"; js "Loading"; js "Loaded"; js "Interactive"; js "Complete"].
Definition event_name (readyState : nat) : jsstr := js "on" ++ default (js "undefined") (Events !! readyState).

(** ** Requests *)

Section ajax.
Context {U : Type} (b : browser).
(** The functions of the options of request [r] and of the other responders
    by property name, the engine's [eval] and the transport's methods. *)
Context (callback : nat → jsstr → option (payload → JS (world U) ())).
Context (page_responder : nat → jsstr → option (nat → payload → JS (world U) ())).
Context (eval_js : jsstr → JS (world U) jsv).
Context (xhr_open : jsstr → jsstr → bool → JS (world U) ()) (xhr_send : option jsstr → JS (world U) ()).

(** Responder 0 is the one the library registers for itself. *)
Definition responder_callback (o : nat) (name : jsstr) : option (nat → payload → JS (world U) ()) :=
  match o with
  | O => if bool_decide (name = js "onCreate") then Some (λ _ _, count_requests (λ n, n + 1))
         else if bool_decide (name = js "onComplete") then Some (λ _ _, count_requests (λ n, n - 1))
         else None
  | _ => page_responder o name
  end.

(** *** Responders *)
Definition register (o : nat) : JS (world U) () :=
  l ← js_gets responders;
  found ← Enumerable.include l o;
  js_when (negb found) (js_modify (λ w, World (responders w ++ [o]) (activeRequestCount w) (requests w) (user w))).
Definition unregister (o : nat) : JS (world U) () :=
  l ← js_gets responders;
  l' ← without l [o];
  js_modify (λ w, World l' (activeRequestCount w) (requests w) (user w)).
(** [this.each] goes over the array of the moment: [push] does not change the
    length the loop has read, [without] makes another array. *)
Definition dispatch (name : jsstr) (r : nat) (arg : payload) : JS (world U) () :=
  l ← js_gets responders;
  _ ← each l (λ o _,
    match responder_callback o name with
    | Some f => js_try (f r arg) (λ _, mret ())
    | None => mret ()
    end);
  mret ().

(** [(f || Prototype.emptyFunction)(...)] *)
Definition call (f : option (payload → JS (world U) ())) (arg : payload) : JS (world U) () :=
  match f with Some f => f arg | None => mret () end.

Definition dispatchException (r : nat) (e : exn) : JS (world U) () :=
  call (callback r (js "onException")) (AException e) ;;
  dispatch (js "onException") r (AException e).

(** *** Responses *)
Definition getHeaderJSON (r : nat) (q : request) : JS (world U) jsv :=
  match getHeader (xhr q) (js "X-JSON") with
  | None => mret VNull
  | Some json =>
      json ← decode (escape json);
      js_try (evalJSON eval_js json (o_sanitizeJSON (opts q) || negb (isSameOrigin b (url q))))
        (λ e, dispatchException r e ;; mret VUndef)
  end.
Definition getResponseJSON (r : nat) (q : request) (text : jsstr) : JS (world U) jsv :=
  let o := opts q in
  let json_type := Strings.include (default [] (getHeader (xhr q) (js "Content-type"))) (js "application/json") in
  match o_evalJSON o with
  | EvalOff => mret VNull
  | force =>
      if (negb match force with EvalForce => true | _ => false end && negb json_type) || blank text
      then mret VNull
      else js_try (evalJSON eval_js text (o_sanitizeJSON o || negb (isSameOrigin b (url q))))
             (λ e, dispatchException r e ;; mret VUndef)
  end.
(** [new Ajax.Response(request)] *)
Definition new_response (r : nat) : JS (world U) response :=
  q ← get_request r;
  let t := xhr q in
  let n := readyState t in
  let text := t_responseText t in
  let seen := ((2 <? n)%nat && negb (is_IE b)) || (n =? 4)%nat in
  header ← (if seen then getHeaderJSON r q else mret VUndef);
  json ← (if (n =? 4)%nat then getResponseJSON r q text else mret VUndef);
  mret (Response n (if seen then getStatus t else 0) (if seen then getStatusText t else [])
    (if seen then Some text else None) header
    (if (n =? 4)%nat then (match t_responseXML t with VUndef => VNull | x => x end) else VUndef) json).

(** *** Ready states *)
Definition evalResponse (r : nat) : JS (world U) () :=
  q ← get_request r;
  js_try (eval_js (unfilterJSON (t_responseText (xhr q))) ;; mret ()) (dispatchException r).

(** [options['on' + status] || options['onSuccess' or 'onFailure']] *)
Definition complete_callback (r : nat) (resp : response) (ok : bool) : option (payload → JS (world U) ()) :=
  match callback r (js "on" ++ num_str (status resp)) with
  | Some f => Some f
  | None => callback r (js "on" ++ (if ok then js "Success" else js "Failure"))
  end.

Definition evaluates (q : request) : bool :=
  match o_evalJS (opts q) with
  | EvalForce => true
  | EvalOff => false
  | EvalOn => isSameOrigin b (url q) &&
      match getHeader (xhr q) (js "Content-type") with
      | Some contentType => rx_test script_type_rx contentType
      | None => false
      end
  end.

Definition respondToReadyState (r : nat) (n : nat) : JS (world U) () :=
  let name := event_name n in
  let complete := bool_decide (name = js "onComplete") in
  resp ← new_response r;
  js_when complete
    (js_try
       (change_request r set_complete ;;
        q ← get_request r;
        call (complete_callback r resp (success (xhr q))) (AResponse resp))
       (dispatchException r) ;;
     q ← get_request r;
     js_when (evaluates q) (evalResponse r)) ;;
  js_try
    (call (callback r name) (AResponse resp) ;; dispatch name r (AResponse resp))
    (dispatchException r) ;;
  js_when complete (change_request r (set_hooked false)).

Definition onStateChange (r : nat) : JS (world U) () :=
  q ← get_request r;
  let n := readyState (xhr q) in
  js_when ((1 <? n)%nat && negb ((n =? 4)%nat && _complete q)) (respondToReadyState r n).

(** *** Sending *)

(** [for (i = 0; i < length; i += 2) headers[extras[i]] = extras[i+1]] *)
Fixpoint array_headers (extras : list jsstr) (headers : object) : object :=
  match extras with
  | [] => headers
  | [name] => assoc_set name VUndef headers
  | name :: value :: extras => array_headers extras (assoc_set name (VStr value) headers)
  end.

Definition post_headers (q : request) (headers : object) : object :=
  if bool_decide (method q = js "post") then
    let o := opts q in
    let h := assoc_set (js "Content-type") (VStr (o_contentType o ++
      (if bool_decide (o_encoding o = []) then [] else js "; charset=" ++ o_encoding o))) headers in
    if overrideMimeType b && old_gecko b then assoc_set (js "Connection") (VStr (js "close")) h else h
  else headers.

(** The headers in the order [setRequestHeader] is called with them. *)
Definition request_headers (q : request) : object :=
  let headers := post_headers q [
    (js "X-Requested-With", VStr (js "XMLHttpRequest"));
    (js "X-Prototype-Version", VStr (js "1.6.0.3"));
    (js "Accept", VStr (js "text/javascript, text/html, application/xml, text/xml, */*"))] in
  match o_requestHeaders (opts q) with
  | None => headers
  | Some (HArray extras) => array_headers extras headers
  | Some (HObject extras) => object_extend headers extras
  end.
Definition setRequestHeaders (r : nat) : JS (world U) () :=
  change_request r (λ q, set_headers (sent_headers q ++ request_headers q) q).

(** The parameters, the method and the query string to send. *)
Definition simulate_method (o : options) : object * jsstr :=
  let params := object_clone (o_parameters o) in
  if bool_decide (o_method o ∈ [js "get"; js "post"]) then (params, o_method o)
  else (assoc_set (js "_method") (VStr (o_method o)) params, js "post").
Definition full_url (url method query : jsstr) : jsstr :=
  match query with
  | [] => url
  | _ => if bool_decide (method = js "get")
         then url ++ (if Strings.include url (js "?") then js "&" else js "?") ++ query
         else url
  end.
Definition post_query (method query : jsstr) : jsstr :=
  match query with
  | [] => []
  | _ => if bool_decide (method = js "get") then query
         else if rx_test khtml_rx (userAgent b) then query ++ js "&_=" else query
  end.

Definition set_prepared (url method : jsstr) (params : object) (q : request) : request :=
  Request url method (opts q) params (body q) (sent_headers q) (_complete q) (deferred q) (xhr q).

(** [request(url)] *)
Definition send_request (r : nat) (url0 : jsstr) : JS (world U) () :=
  q ← get_request r;
  let '(params, meth) := simulate_method (opts q) in
  query ← toQueryString (HashOf (object_clone params));
  let url := full_url url0 meth query in
  let asynchronous := o_asynchronous (opts q) in
  change_request r (set_prepared url meth params) ;;
  js_try
    (resp ← new_response r;
     call (callback r (js "onCreate")) (AResponse resp) ;;
     dispatch (js "onCreate") r (AResponse resp) ;;
     xhr_open (toUpperCase meth) url asynchronous ;;
     js_when asynchronous (change_request r (set_deferred true)) ;;
     change_request r (set_hooked true) ;;
     setRequestHeaders r ;;
     let body := if bool_decide (meth = js "post")
                 then Some (default (post_query meth query) (nonempty (o_postBody (opts q)))) else None in
     change_request r (set_body body) ;;
     xhr_send body ;;
     js_when (negb asynchronous && overrideMimeType b) (onStateChange r))
    (dispatchException r).

(** [new Ajax.Request(url, options)] with a fresh transport *)
Definition new_request (r : nat) (t : transport) (url : jsstr) (given : given_options) : JS (world U) () :=
  o ← base_options given;
  js_modify (λ w, World (responders w) (activeRequestCount w)
    (<[r := Request url (o_method o) o [] None [] false false t]> (requests w)) (user w)) ;;
  send_request r url.

(** *** What the browser does with a request

    The timer of [defer] runs, or the transport reaches another state and
    calls its [onreadystatechange]. *)
Definition deferred_event (r : nat) : JS (world U) () :=
  q ← get_request r;
  js_when (deferred q) (change_request r (set_deferred false) ;; respondToReadyState r 1).
Definition transport_event (r : nat) (f : transport → transport) : JS (world U) () :=
  change_request r (λ q, set_xhr (f (xhr q)) q) ;;
  q ← get_request r;
  js_when (hooked (xhr q)) (onStateChange r).
End ajax.

(** ** The count of active requests *)

(** What the count depends on: the responders, the count itself and which
    requests are complete. *)
Definition core {U} (w : world U) : list nat * Z * gmap nat bool :=
  (responders w, activeRequestCount w, _complete <$> requests w).
Abbreviation keeps := (keeps_of core).
Definition returns {U A} (m : JS (world U) A) : Prop := ∀ w, ∃ a w', m w = (Ret a, w').

Section keeps.
Context {S X : Type} (obs : S → X).

Lemma keeps_run_each {A} (f : A → Z → JS S ()) l i :
  (∀ x j, keeps_of obs (f x j)) → keeps_of obs (run_each f l i).
Proof. intros Hf. revert i. induction l as [|x l IH]; intros i; [done|]. by apply keeps_bind. Qed.

(** Loops that accumulate in a captured variable. *)
Lemma keeps_with_result {L C A} `{Iterable C A} (l : L) (this : C) (it : A → Z → JS (L * S) ()) :
  (∀ v i, keeps_of (obs ∘ snd) (it v i)) → keeps_of obs (with_result l this it).
Proof.
  intros Hit w. rewrite with_result_run. unfold loop_from, catch_break, js_try, finish.
  assert (∀ vs i, keeps_of (obs ∘ snd) (run_each it vs i)) as Hrun.
  { induction vs as [|v vs IH]; intros i; [done|]. intros s. cbn [run_each].
    unfold mbind, js_mbind. specialize (Hit v i s). destruct (it v i s) as [[[]|e] s1]; [|done].
    by rewrite IH. }
  specialize (Hrun (elements this) 0 (l, w)). destruct (run_each _ _ _ _) as [[[]|e] [l' w']]; [done|].
  by destruct (decide (e = EBreak)).
Qed.
End keeps.

Section keeps_loops.
Context {S X : Type} (obs : S → X) {C A : Type} `{Iterable C A}.

Lemma keeps_lift {L B} (m : JS S B) : keeps_of obs m → keeps_of (obs ∘ snd) (js_lift m : JS (L * S) B).
Proof. intros Hm s. unfold js_lift. specialize (Hm s.2). by destruct (m s.2). Qed.
Lemma keeps_inject {M} (this : C) (memo : M) (it : M → A → Z → JS S M) :
  (∀ m v i, keeps_of obs (it m v i)) → keeps_of obs (inject this memo it).
Proof.
  intros Hit. apply keeps_with_result. intros v i. apply keeps_bind; [done|].
  intros m. apply keeps_bind; [by apply keeps_lift|done].
Qed.
Lemma keeps_collect {B} (this : C) (it : A → Z → JS S B) :
  (∀ v i, keeps_of obs (it v i)) → keeps_of obs (collect this it).
Proof.
  intros Hit. apply keeps_with_result. intros v i. apply keeps_bind; [by apply keeps_lift|done].
Qed.
End keeps_loops.

Section keeps_query.
Context {S X : Type} (obs : S → X).

Lemma keeps_encode s : keeps_of obs (encode s : JS S jsstr).
Proof. unfold encode. by destruct (encodeURIComponent s). Qed.
Lemma keeps_decode s : keeps_of obs (decode s : JS S jsstr).
Proof. unfold decode. by destruct (decodeURIComponent s). Qed.
Lemma keeps_toQueryPair k v : keeps_of obs (toQueryPair k v : JS S jsstr).
Proof.
  unfold toQueryPair. apply keeps_if; [done|]. apply keeps_bind; [apply keeps_encode|done].
Qed.
Lemma keeps_toQueryString h : keeps_of obs (toQueryString h : JS S jsstr).
Proof.
  unfold toQueryString. apply keeps_bind; [|done]. apply keeps_inject. intros results p i.
  unfold query_step. apply keeps_bind; [apply keeps_encode|]. intros key.
  destruct p.2; try done; (apply keeps_bind; [|done]);
    first [apply keeps_toQueryPair | apply keeps_collect; intros v _; apply keeps_toQueryPair].
Qed.
Lemma keeps_toQueryParams s sep : keeps_of obs (toQueryParams s sep : JS S object).
Proof.
  unfold toQueryParams. destruct (rx_match _ _); [|done]. apply keeps_inject. intros hash p i.
  unfold add_pair. destruct (split p (js "=")) as [|[|c k] rest]; [done..|].
  apply keeps_bind; [apply keeps_decode|]. intros key. apply keeps_bind.
  - destruct rest; [done|]. apply keeps_bind; [apply keeps_decode|done].
  - intros v. by destruct (in_object key hash).
Qed.
Lemma keeps_base_options g : keeps_of obs (base_options g : JS S options).
Proof.
  unfold base_options. apply keeps_bind; [|done].
  destruct (default _ _); [apply keeps_toQueryParams|done..].
Qed.
End keeps_query.

Section keeps_requests.
Context {U : Type}.

Lemma each_Ret {A S} (f : A → Z → JS S ()) (l : list A) (s s' : S) :
  run_each f l 0 s = (Ret (), s') → each l f s = (Ret l, s').
Proof.
  intros H. rewrite each_run. unfold catch_break, js_try. cbn [elements array_iterable].
  unfold mbind, js_mbind. by rewrite H.
Qed.
Lemma js_bind_change {B} r f (k : JS (world U) B) w : (change_request r f ;; k) w =
  k (World (responders w) (activeRequestCount w) (alter f r (requests w)) (user w)).
Proof. reflexivity. Qed.
Lemma keeps_get_request {X} (obs : world U → X) r : keeps_of obs (get_request r : JS (world U) request).
Proof. intros w. unfold get_request. by destruct (requests w !! r). Qed.
Lemma keeps_change r f : (∀ q, _complete (f q) = _complete q) → keeps (change_request r f : JS (world U) ()).
Proof.
  intros Hf w. unfold core. cbn. f_equal. apply map_eq. intros i. rewrite !lookup_fmap.
  destruct (decide (i = r)) as [->|]; [|by rewrite lookup_alter_ne].
  rewrite lookup_alter_eq. destruct (requests w !! r) as [q|]; cbn; [by rewrite Hf|done].
Qed.
End keeps_requests.
#[export] Hint Resolve keeps_get_request keeps_decode : keeps.
#[export] Hint Extern 1 (keeps (change_request _ _)) => apply keeps_change; done : keeps.

Section counting.
Context {U : Type} (b : browser).
Context (callback : nat → jsstr → option (payload → JS (world U) ())).
Context (page_responder : nat → jsstr → option (nat → payload → JS (world U) ())).
Context (eval_js : jsstr → JS (world U) jsv).
Context (xhr_open : jsstr → jsstr → bool → JS (world U) ()) (xhr_send : option jsstr → JS (world U) ()).

(** The page's functions and the transport's methods may do anything except
    use this library; the callbacks that surround the counting return. *)
Record well_behaved : Prop := {
  callback_keeps : ∀ r n f p, callback r n = Some f → keeps (f p);
  responder_keeps : ∀ o n f r p, page_responder o n = Some f → keeps (f r p);
  eval_keeps : ∀ s, keeps (eval_js s);
  open_keeps : ∀ m u a, keeps (xhr_open m u a);
  send_keeps : ∀ body, keeps (xhr_send body);
  callback_returns : ∀ r n f p, n ∈ [js "onCreate"; js "onComplete"; js "onException"] →
    callback r n = Some f → returns (f p);
}.
Context (Hwb : well_behaved).

#[local] Abbreviation dispatch' := (dispatch page_responder).
#[local] Abbreviation dispatchException' := (dispatchException callback page_responder).
#[local] Abbreviation new_response' := (new_response b callback page_responder eval_js).
#[local] Abbreviation respond := (respondToReadyState b callback page_responder eval_js).

(** The name of the event that counts, and by how much. *)
Definition counts (name : jsstr) : Z :=
  if bool_decide (name = js "onCreate") then 1 else if bool_decide (name = js "onComplete") then -1 else 0.

(** How often the library's own responder is registered. *)
Definition own (l : list nat) : Z := Z.of_nat (length (filter (λ o, o = O) l)).

Lemma dispatch_loop name r arg l i w :
  ∃ w', run_each (λ (o : nat) (_ : Z), match responder_callback page_responder o name with
    | Some f => js_try (f r arg) (λ _, mret ()) | None => mret () end) l i w = (Ret (), w') ∧
  core w' = ((core w).1.1, (core w).1.2 + own l * counts name, (core w).2).
Proof.
  revert i w. induction l as [|o l IH]; intros i w.
  { exists w. split; [done|]. unfold own. cbn. rewrite Z.add_0_r. done. }
  cbn [run_each].
  set (m := match responder_callback page_responder o name with Some f => _ | None => _ end).
  assert (∃ w1, m w = (Ret (), w1) ∧ core w1 = ((core w).1.1,
    (core w).1.2 + (if decide (o = O) then counts name else 0), (core w).2)) as (w1 & Hm & Hw1).
  { subst m. unfold responder_callback, counts. destruct o as [|o].
    - rewrite decide_True by done.
      repeat case_bool_decide; eexists; (split; [reflexivity|]); unfold core; cbn; repeat f_equal; lia.
    - destruct (page_responder (S o) name) as [f|] eqn:Hf.
      + unfold js_try. pose proof (responder_keeps Hwb _ _ _ r arg Hf w) as Hk.
        destruct (f r arg w) as [[[]|e] w1]; eexists; (split; [reflexivity|]); cbn in Hk |- *; rewrite Hk, Z.add_0_r; done.
      + eexists. split; [reflexivity|]. rewrite decide_False by done. rewrite Z.add_0_r. done. }
  rewrite (js_bind_Ret _ _ _ _ _ Hm). destruct (IH (i + 1) w1) as (w' & Hr & Hw').
  exists w'. split; [done|]. rewrite Hw', Hw1. cbn [fst snd]. do 2 f_equal.
  unfold own. rewrite filter_cons. destruct (decide (o = O)); cbn [length]; lia.
Qed.

Lemma dispatch_core name r arg w :
  ∃ w', dispatch' name r arg w = (Ret (), w') ∧
  core w' = (responders w, activeRequestCount w + own (responders w) * counts name, _complete <$> requests w).
Proof.
  unfold dispatch. rewrite js_bind_gets.
  destruct (dispatch_loop name r arg (responders w) 0 w) as (w' & Hrun & Hcore).
  exists w'. split; [|exact Hcore]. by rewrite (js_bind_Ret _ _ _ _ _ (each_Ret _ _ _ _ Hrun)).
Qed.

Lemma keeps_dispatch name r arg : counts name = 0 → keeps (dispatch' name r arg).
Proof.
  intros Hc w. destruct (dispatch_core name r arg w) as (w' & -> & Hw').
  cbn [snd]. rewrite Hw', Hc, Z.mul_0_r, Z.add_0_r. done.
Qed.
Lemma keeps_call r n p : keeps (call (callback r n) p).
Proof. unfold call. destruct (callback r n) as [f|] eqn:Hf; [by eapply callback_keeps|done]. Qed.
Lemma returns_call r n p w : n ∈ [js "onCreate"; js "onComplete"; js "onException"] →
  ∃ w', call (callback r n) p w = (Ret (), w') ∧ core w' = core w.
Proof.
  intros Hn. unfold call. destruct (callback r n) as [f|] eqn:Hf; [|by eexists].
  destruct (callback_returns Hwb _ _ _ p Hn Hf w) as ([] & w' & Hw'). exists w'. split; [done|].
  pose proof (callback_keeps Hwb _ _ _ p Hf w) as Hk. by rewrite Hw' in Hk.
Qed.

Lemma dispatchException_run r e w :
  ∃ w', dispatchException' r e w = (Ret (), w') ∧ core w' = core w.
Proof.
  unfold dispatchException.
  destruct (returns_call r (js "onException") (AException e) w) as (w1 & H1 & Hw1); [set_solver|].
  rewrite (js_bind_Ret _ _ _ _ _ H1).
  destruct (dispatch_core (js "onException") r (AException e) w1) as (w' & -> & Hw').
  exists w'. split; [done|]. rewrite Hw', <- Hw1. unfold core. cbn. by rewrite Z.mul_0_r, Z.add_0_r.
Qed.
Lemma keeps_dispatchException r e : keeps (dispatchException' r e).
Proof. intros w. by destruct (dispatchException_run r e w) as (w' & -> & Hw'). Qed.

(** [try { m } catch (e) { this.dispatchException(e) }] always returns. *)
Lemma try_dispatch r (m : JS (world U) ()) w : ∃ w',
  js_try m (dispatchException' r) w = (Ret (), w') ∧ core w' = core (m w).2.
Proof.
  unfold js_try. destruct (m w) as [[[]|e] w1]; [by eexists|]. apply dispatchException_run.
Qed.

Lemma keeps_evalJSON s c : keeps (evalJSON eval_js s c).
Proof.
  unfold evalJSON. apply keeps_if; [|done]. apply keeps_try; [by eapply eval_keeps|done].
Qed.
#[local] Hint Resolve keeps_dispatchException keeps_evalJSON keeps_call : keeps.

Lemma keeps_new_response r : keeps (new_response' r).
Proof.
  unfold new_response. apply keeps_bind; [auto with keeps|]. intros q.
  assert (keeps (getHeaderJSON b callback page_responder eval_js r q)) as Hh.
  { unfold getHeaderJSON. destruct (getHeader _ _); eauto 8 with keeps. }
  assert (∀ s, keeps (getResponseJSON b callback page_responder eval_js r q s)) as Hj.
  { intros s. unfold getResponseJSON. destruct (o_evalJSON _); eauto 8 with keeps. }
  eauto 8 with keeps.
Qed.

Lemma get_request_core r w : is_Some ((core w).2 !! r) → ∃ q, (get_request r : JS (world U) request) w = (Ret q, w).
Proof.
  unfold core, get_request. cbn. rewrite lookup_fmap, fmap_is_Some. intros [q ->]. by exists q.
Qed.

Lemma event_name_complete n : bool_decide (event_name n = js "onComplete") = (n =? 4)%nat.
Proof. do 5 (destruct n as [|n]; [reflexivity|]). reflexivity. Qed.
Lemma event_name_counts n : counts (event_name n) = if (n =? 4)%nat then -1 else 0.
Proof. do 5 (destruct n as [|n]; [reflexivity|]). reflexivity. Qed.

Lemma keeps_respond r n : n ≠ 4%nat → keeps (respond r n).
Proof.
  intros Hn. unfold respondToReadyState. rewrite event_name_complete, (proj2 (Nat.eqb_neq n 4)) by done.
  apply keeps_bind; [apply keeps_new_response|]. intros resp. cbn [js_when].
  apply keeps_bind; [done|]. intros _. apply keeps_bind; [|done].
  apply keeps_try; [|apply keeps_dispatchException].
  apply keeps_bind; [apply keeps_call|]. intros _. apply keeps_dispatch.
  by rewrite event_name_counts, (proj2 (Nat.eqb_neq n 4)).
Qed.

Lemma set_complete_core r (w : world U) :
  core (World (responders w) (activeRequestCount w) (alter set_complete r (requests w)) (user w))
  = ((core w).1, alter (λ _, true) r (core w).2).
Proof.
  unfold core. cbn. f_equal. apply map_eq. intros i. rewrite lookup_fmap.
  destruct (decide (i = r)) as [->|]; [|by rewrite !lookup_alter_ne, lookup_fmap].
  rewrite !lookup_alter_eq, lookup_fmap. by destruct (requests w !! r).
Qed.

Lemma keeps_complete_callback r resp :
  keeps (q ← get_request r; call (complete_callback callback r resp (success (xhr q))) (AResponse resp)).
Proof.
  apply keeps_bind; [apply keeps_get_request|]. intros q. unfold complete_callback.
  destruct (callback r (js "on" ++ num_str (status resp))) as [f|] eqn:Hf; [|apply keeps_call].
  cbn. by eapply callback_keeps.
Qed.

Lemma evalResponse_run r w : is_Some ((core w).2 !! r) →
  ∃ w', evalResponse callback page_responder eval_js r w = (Ret (), w') ∧ core w' = core w.
Proof.
  intros Hr. destruct (get_request_core r w Hr) as [q Hq].
  unfold evalResponse. rewrite (js_bind_Ret _ _ _ _ _ Hq).
  edestruct (try_dispatch r) as (w' & Hrun & Hw'). exists w'. split; [exact Hrun|].
  rewrite Hw'. apply keeps_bind; [by eapply eval_keeps|done].
Qed.

(** The first part of completing a request: the flag, the callback for its
    outcome and the scripts it brings. *)
Lemma complete_part r resp w : is_Some ((core w).2 !! r) → ∃ w',
  (js_try (change_request r set_complete ;; q ← get_request r;
           call (complete_callback callback r resp (success (xhr q))) (AResponse resp)) (dispatchException' r) ;;
   q ← get_request r; js_when (evaluates b q) (evalResponse callback page_responder eval_js r)) w = (Ret (), w') ∧
  core w' = ((core w).1, alter (λ _, true) r (core w).2).
Proof.
  intros Hr. edestruct (try_dispatch r) as (w1 & Hrun & Hw1).
  rewrite (js_bind_Ret _ _ _ _ _ Hrun). rewrite js_bind_change, keeps_complete_callback, set_complete_core in Hw1.
  assert (is_Some ((core w1).2 !! r)) as Hr1 by (rewrite Hw1; cbn [snd]; by rewrite lookup_alter_eq, fmap_is_Some).
  destruct (get_request_core r w1 Hr1) as [q Hq]. rewrite (js_bind_Ret _ _ _ _ _ Hq).
  unfold js_when. destruct (evaluates b q); [|by eexists].
  destruct (evalResponse_run r w1 Hr1) as (w2 & H2 & Hw2). exists w2. split; [done|]. by rewrite Hw2.
Qed.

(** Completing a request: nothing happens when the response object cannot be
    made, otherwise the request is complete and counted off. *)
Lemma respond_complete r w : is_Some ((core w).2 !! r) → own (responders w) = 1 →
  (∃ e w', new_response' r w = (Throw e, w') ∧ respond r 4 w = (Throw e, w') ∧ core w' = core w) ∨
  (∃ resp w', (new_response' r w).1 = Ret resp ∧ respond r 4 w = (Ret (), w') ∧
    core w' = (responders w, activeRequestCount w - 1, alter (λ _, true) r (_complete <$> requests w))).
Proof.
  intros Hr Hown. pose proof (keeps_new_response r w) as Hk.
  unfold respondToReadyState. change (bool_decide (event_name 4 = js "onComplete")) with true.
  destruct (new_response' r w) as [[resp|e] w1] eqn:Hresp; cbn [fst snd] in Hk.
  2:{ left. exists e, w1. rewrite (js_bind_Throw _ _ _ _ _ Hresp). auto. }
  right. rewrite (js_bind_Ret _ _ _ _ _ Hresp). unfold js_when at 1.
  rewrite <- Hk in Hr. destruct (complete_part r resp w1 Hr) as (w2 & H2 & Hw2).
  rewrite (js_bind_Ret _ _ _ _ _ H2). rewrite Hk in Hw2.
  destruct (returns_call r (event_name 4) (AResponse resp) w2) as (w3 & H3 & Hw3); [set_solver|].
  destruct (dispatch_core (event_name 4) r (AResponse resp) w3) as (w4 & H4 & Hw4).
  assert (js_try (call (callback r (event_name 4)) (AResponse resp) ;;
            dispatch' (event_name 4) r (AResponse resp)) (dispatchException' r) w2 = (Ret (), w4)) as Hlast.
  { unfold js_try. by rewrite (js_bind_Ret _ _ _ _ _ H3), H4. }
  rewrite (js_bind_Ret _ _ _ _ _ Hlast). exists resp, (change_request r (set_hooked false) w4).2. split; [done|]. split; [reflexivity|].
  rewrite (keeps_change r (set_hooked false) (λ _, eq_refl) w4), Hw4, event_name_counts.
  change (responders w3) with (core w3).1.1. change (activeRequestCount w3) with (core w3).1.2.
  change (_complete <$> requests w3) with (core w3).2. rewrite Hw3, Hw2. cbn [fst snd]. f_equal. f_equal.
  cbn. rewrite Hown. lia.
Qed.

(** *** The invariant *)

Definition incomplete (m : gmap nat bool) : Z := Z.of_nat (base.size (filter (λ x, x.2 = false) m)).
Definition balanced (c : list nat * Z * gmap nat bool) : Prop :=
  own c.1.1 = 1 ∧ c.1.2 = incomplete c.2.

Lemma incomplete_finish m r : m !! r = Some false → incomplete (alter (λ _, true) r m) = incomplete m - 1.
Proof.
  intros Hr. unfold incomplete.
  assert (filter (λ x : nat * bool, x.2 = false) (alter (λ _, true) r m) = delete r (filter (λ x, x.2 = false) m)) as ->.
  { apply map_eq. intros i. destruct (decide (i = r)) as [->|Hi].
    - rewrite lookup_delete_eq. apply map_lookup_filter_None. right. intros x.
      rewrite lookup_alter_eq, Hr. by intros [= <-].
    - rewrite lookup_delete_ne by done. apply option_eq. intros x.
      rewrite !map_lookup_filter_Some, lookup_alter_ne by done. done. }
  assert (filter (λ x : nat * bool, x.2 = false) m !! r = Some false) as Hf by by apply map_lookup_filter_Some.
  rewrite map_size_delete_Some by by eexists.
  assert (base.size (filter (λ x : nat * bool, x.2 = false) m) ≠ O); [|lia].
  rewrite map_size_ne_0_lookup. by eauto.
Qed.

Lemma incomplete_start m r : m !! r = None → incomplete (<[r := false]> m) = incomplete m + 1.
Proof.
  intros Hr. unfold incomplete. rewrite map_filter_insert_True by done.
  rewrite map_size_insert_None; [lia|]. apply map_lookup_filter_None. by left.
Qed.

Lemma onStateChange_balanced r w : balanced (core w) →
  balanced (core (onStateChange b callback page_responder eval_js r w).2).
Proof.
  intros Hbal. unfold onStateChange. destruct (requests w !! r) as [q|] eqn:Hq.
  2:{ assert (get_request r w = (Throw ETypeError, w)) as Hg by (unfold get_request; by rewrite Hq).
      by rewrite (js_bind_Throw _ _ _ _ _ Hg). }
  assert (get_request r w = (Ret q, w)) as Hg by (unfold get_request; by rewrite Hq).
  rewrite (js_bind_Ret _ _ _ _ _ Hg). unfold js_when. case_goal; [|done].
  destruct (decide (readyState (xhr q) = 4%nat)) as [H4|H4]; [|by rewrite keeps_respond].
  rewrite H4 in *. assert ((core w).2 !! r = Some false) as Hr.
  { unfold core. cbn. rewrite lookup_fmap, Hq. cbn in *. by destruct (_complete q). }
  destruct Hbal as [Ho Hc].
  destruct (respond_complete r w) as [(e & w' & _ & -> & Hw')|(resp & w' & _ & -> & Hw')]; [by eexists|done|..].
  - cbn [snd]. by rewrite Hw'.
  - cbn [snd]. rewrite Hw'. split; [done|]. cbn in *. rewrite incomplete_finish by done. lia.
Qed.

(** From the dispatch of [onCreate] on, sending preserves the balance. *)
Definition balances {A} (m : JS (world U) A) : Prop := ∀ w, balanced (core w) → balanced (core (m w).2).
Lemma balances_keeps {A} (m : JS (world U) A) : keeps m → balances m.
Proof. intros Hm w. by rewrite Hm. Qed.
Lemma balances_bind {A B} (m : JS (world U) A) (f : A → JS (world U) B) :
  balances m → (∀ a, balances (f a)) → balances (m ≫= f).
Proof.
  intros Hm Hf w Hw. unfold mbind, js_mbind. specialize (Hm w Hw). destruct (m w) as [[a|e] w1]; [|done].
  by apply Hf.
Qed.
Lemma balances_when c (m : JS (world U) ()) : balances m → balances (js_when c m).
Proof. destruct c; [done|]. by intros _ w Hw. Qed.

Lemma new_response_unsent r w q : requests w !! r = Some q → readyState (xhr q) = O →
  ∃ resp, new_response' r w = (Ret resp, w).
Proof.
  intros Hq H0. unfold new_response.
  assert (get_request r w = (Ret q, w)) as Hg by (unfold get_request; by rewrite Hq).
  rewrite (js_bind_Ret _ _ _ _ _ Hg). cbv zeta. rewrite H0. by eexists.
Qed.

(** Once [onCreate] has been dispatched, the rest of [request] preserves the
    balance whatever it throws. *)
Lemma send_request_balanced r url0 w q w' :
  requests w !! r = Some q → readyState (xhr q) = O →
  own (responders w) = 1 → activeRequestCount w + 1 = incomplete (core w).2 →
  send_request b callback page_responder eval_js xhr_open xhr_send r url0 w = (Ret (), w') →
  balanced (core w').
Proof.
  intros Hq H0 Hown Hcount. unfold send_request.
  assert (get_request r w = (Ret q, w)) as Hg by (unfold get_request; by rewrite Hq).
  rewrite (js_bind_Ret _ _ _ _ _ Hg). destruct (simulate_method (opts q)) as [params meth].
  pose proof (keeps_toQueryString (S := world U) id (HashOf (object_clone params)) w) as Hid.
  unfold mbind at 1, js_mbind at 1. destruct (toQueryString _ w) as [[query|e] w1]; [|done].
  cbn in Hid. subst w1. cbv beta zeta. set (url := full_url url0 meth query).
  rewrite js_bind_change. set (w1 := World _ _ _ _).
  assert (core w1 = core w) as Hc1 by (apply (keeps_change r (set_prepared url meth params) (λ _, eq_refl) w)).
  assert (requests w1 !! r = Some (set_prepared url meth params q)) as Hq1.
  { subst w1. cbn. by rewrite lookup_alter_eq, Hq. }
  destruct (new_response_unsent r w1 _ Hq1 H0) as (resp & Hresp).
  destruct (returns_call r (js "onCreate") (AResponse resp) w1) as (w2 & H2 & Hw2); [set_solver|].
  destruct (dispatch_core (js "onCreate") r (AResponse resp) w2) as (w3 & H3 & Hw3).
  set (rest := xhr_open _ _ _ ≫= _).
  assert (balances rest) as Hrest.
  { subst rest. apply balances_bind; [by apply balances_keeps; eapply open_keeps|]. intros _.
    apply balances_bind; [by apply balances_when, balances_keeps, keeps_change|]. intros _.
    apply balances_bind; [by apply balances_keeps, keeps_change|]. intros _.
    apply balances_bind; [by apply balances_keeps, keeps_change|]. intros _.
    apply balances_bind; [by apply balances_keeps, keeps_change|]. intros _.
    apply balances_bind; [by apply balances_keeps; eapply send_keeps|]. intros _.
    apply balances_when. intros w4. apply onStateChange_balanced. }
  match goal with |- js_try ?m _ _ = _ → _ => assert (m w1 = rest w3) as Hm end.
  { rewrite (js_bind_Ret _ _ _ _ _ Hresp), (js_bind_Ret _ _ _ _ _ H2), (js_bind_Ret _ _ _ _ _ H3). done. }
  assert (balanced (core w3)) as Hb3.
  { rewrite Hw3. change (responders w2) with (core w2).1.1. change (activeRequestCount w2) with (core w2).1.2.
    change (_complete <$> requests w2) with (core w2).2. rewrite Hw2, Hc1. split; cbn; [done|].
    rewrite Hown. change (counts (js "onCreate")) with 1. cbn in Hcount. lia. }
  edestruct (try_dispatch r) as (w4 & -> & Hw4). intros [= <-]. rewrite Hw4, Hm. by apply Hrest.
Qed.

(** ** Runs *)

Inductive step : world U → world U → Prop :=
| step_new r t url given w w' :
    requests w !! r = None → readyState t = O →
    new_request b callback page_responder eval_js xhr_open xhr_send r t url given w = (Ret (), w') → step w w'
| step_transport r f w : step w (transport_event b callback page_responder eval_js r f w).2
| step_deferred r w : step w (deferred_event b callback page_responder eval_js r w).2
| step_register o w : o ≠ O → step w (register o w).2
| step_unregister o w : o ≠ O → step w (unregister o w).2.

Lemma new_request_balanced r t url given w w' :
  requests w !! r = None → readyState t = O → balanced (core w) →
  new_request b callback page_responder eval_js xhr_open xhr_send r t url given w = (Ret (), w') →
  balanced (core w').
Proof.
  intros Hr Ht [Hown Hcount]. unfold new_request.
  pose proof (keeps_base_options (S := world U) id given w) as Hid.
  unfold mbind at 1, js_mbind at 1. destruct (base_options given w) as [[o|e] w1]; [|done].
  cbn in Hid. subst w1. rewrite js_bind_modify. eapply send_request_balanced.
  - cbn. by rewrite lookup_insert_eq.
  - done.
  - done.
  - unfold core in *. cbn in *. rewrite fmap_insert, incomplete_start; [cbn; lia|]. by rewrite lookup_fmap, Hr.
Qed.

Lemma own_register o l : o ≠ O → own (l ++ [o]) = own l.
Proof. intros Ho. unfold own. rewrite filter_app, filter_cons, decide_False by done. cbn. rewrite app_nil_r. done. Qed.

Lemma own_unregister o l : o ≠ O → own (List.filter (λ x, negb (bool_decide (x ∈ [o]))) l) = own l.
Proof.
  intros Ho. unfold own. do 2 f_equal. induction l as [|x l IH]; [done|].
  cbn [List.filter]. rewrite (filter_cons _ x l).
  destruct (bool_decide_reflect (x ∈ [o])) as [->%list_elem_of_singleton|Hx]; cbn [negb].
  - by rewrite decide_False.
  - rewrite filter_cons, IH. done.
Qed.

Lemma register_balanced o (w : world U) : o ≠ O → balanced (core w) → balanced (core (register o w).2).
Proof.
  intros Ho [H1 H2]. unfold register. rewrite js_bind_gets.
  rewrite (js_bind_Ret _ _ _ _ _ (include_run _ _ _)). unfold js_when. case_goal; [|done].
  split; cbn; [by rewrite own_register|done].
Qed.
Lemma unregister_balanced o (w : world U) : o ≠ O → balanced (core w) → balanced (core (unregister o w).2).
Proof.
  intros Ho [H1 H2]. unfold unregister. rewrite js_bind_gets.
  rewrite (js_bind_Ret _ _ _ _ _ (without_run _ _ _)). split; cbn -[List.filter]; [|done].
  by rewrite own_unregister.
Qed.

Lemma step_balanced w w' : step w w' → balanced (core w) → balanced (core w').
Proof.
  intros [r t url given w1 w1' Hr Ht Hrun|r f w1|r w1|o w1 Ho|o w1 Ho] Hb.
  - by eapply new_request_balanced.
  - unfold transport_event. rewrite js_bind_change. set (w2 := World _ _ _ _).
    assert (core w2 = core w1) as Hc by (apply (keeps_change r (λ q, set_xhr (f (xhr q)) q) (λ _, eq_refl) w1)).
    rewrite <- Hc in Hb. revert Hb. generalize w2. apply balances_bind; [apply balances_keeps, keeps_get_request|].
    intros q. apply balances_when. intros w3. apply onStateChange_balanced.
  - revert Hb. unfold deferred_event. generalize w1.
    apply balances_bind; [apply balances_keeps, keeps_get_request|]. intros q. apply balances_when.
    apply balances_keeps, keeps_bind; [by apply keeps_change|]. intros _. by apply keeps_respond.
  - by apply register_balanced.
  - by apply unregister_balanced.
Qed.

(** The page as loaded: no request yet and only the library's responder. *)
Definition loaded (u : U) : world U := World [O] 0 ∅ u.

Lemma new_response_returns r w q : requests w !! r = Some q → t_header (xhr q) (js "X-JSON") = None →
  ∃ resp, (new_response' r w).1 = Ret resp.
Proof.
  intros Hq Hx. unfold new_response.
  assert (get_request r w = (Ret q, w)) as Hg by (unfold get_request; by rewrite Hq).
  rewrite (js_bind_Ret _ _ _ _ _ Hg). cbv zeta.
  set (n := readyState (xhr q)). set (seen := _ || _).
  assert ((if seen then getHeaderJSON b callback page_responder eval_js r q else mret VUndef) w
    = (Ret (if seen then VNull else VUndef), w)) as Hh.
  { destruct seen; [|done]. unfold getHeaderJSON, getHeader. by rewrite Hx. }
  rewrite (js_bind_Ret _ _ _ _ _ Hh).
  assert (∀ m : JS (world U) jsv, ∃ v w', js_try m (λ e, dispatchException' r e ;; mret VUndef) w = (Ret v, w')) as Htry.
  { intros m. unfold js_try. destruct (m w) as [[v|e] w1]; [by eexists _, _|].
    destruct (dispatchException_run r e w1) as (w2 & H2 & _).
    rewrite (js_bind_Ret _ _ _ _ _ H2). by eexists _, _. }
  assert (∃ v w', (if (n =? 4)%nat then getResponseJSON b callback page_responder eval_js r q (t_responseText (xhr q))
    else mret VUndef) w = (Ret v, w')) as (v & w' & Hj).
  { case_goal; [|by eexists _, _]. unfold getResponseJSON.
    destruct (o_evalJSON _); [by eexists _, _| |]; case_goal; first [apply Htry | by eexists _, _]. }
  rewrite (js_bind_Ret _ _ _ _ _ Hj). by eexists.
Qed.

Lemma steps_balanced u w : rtc step (loaded u) w → balanced (core w).
Proof.
  assert (∀ w0, rtc step w0 w → balanced (core w0) → balanced (core w)) as Hg.
  { induction 1 as [|w0 w1 w2 Hs _ IH]; eauto using step_balanced. }
  intros H. apply (Hg _ H). done.
Qed.
End counting.

Section active_requests.
Context {U : Type} (b : browser).
Context (callback : nat → jsstr → option (payload → JS (world U) ())).
Context (page_responder : nat → jsstr → option (nat → payload → JS (world U) ())).
Context (eval_js : jsstr → JS (world U) jsv).
Context (xhr_open : jsstr → jsstr → bool → JS (world U) ()) (xhr_send : option jsstr → JS (world U) ()).

(** C11. However requests are created, the page's responders come and go and the
    transports report their states, in any order and repeatedly, as long as the
    page's functions do not use this library themselves and its callbacks
    [onCreate], [onComplete] and [onException] return; whatever those for other
    events throw: [Ajax.activeRequestCount] is the number
    of requests not complete; a complete request does nothing when its
    transport reports completion again; and a request whose transport reports
    completion for the first time, with its handler in place and no header
    of its own to decode, becomes complete and is counted off. *)
Theorem active_requests_spec (u : U) (w : world U) :
  well_behaved callback page_responder eval_js xhr_open xhr_send →
  rtc (step b callback page_responder eval_js xhr_open xhr_send) (loaded u) w →
  activeRequestCount w = incomplete (_complete <$> requests w) ∧
  (∀ r q f, requests w !! r = Some q → readyState (f (xhr q)) = 4%nat →
    (_complete q = true →
      transport_event b callback page_responder eval_js r f w
      = change_request r (λ q, set_xhr (f (xhr q)) q) w) ∧
    (_complete q = false → hooked (f (xhr q)) = true → t_header (f (xhr q)) (js "X-JSON") = None →
      ∃ w', transport_event b callback page_responder eval_js r f w = (Ret (), w') ∧
      activeRequestCount w' = activeRequestCount w - 1 ∧
      _complete <$> requests w' !! r = Some true)).
Proof.
  intros Hwb Hrun. destruct (steps_balanced b _ _ _ _ _ Hwb u w Hrun) as [Hown Hcount]. split; [exact Hcount|].
  intros r q f Hq H4. unfold transport_event. rewrite js_bind_change. set (w1 := World _ _ _ _).
  assert (requests w1 !! r = Some (set_xhr (f (xhr q)) q)) as Hq1 by (subst w1; cbn; by rewrite lookup_alter_eq, Hq).
  assert (get_request r w1 = (Ret (set_xhr (f (xhr q)) q), w1)) as Hg by (unfold get_request; by rewrite Hq1).
  rewrite (js_bind_Ret _ _ _ _ _ Hg). unfold onStateChange. split.
  - intros Hc. unfold js_when. case_goal; [|done]. rewrite (js_bind_Ret _ _ _ _ _ Hg). cbn [xhr set_xhr _complete].
    by rewrite H4, Hc.
  - intros Hc Hh Hx. cbn [xhr set_xhr]. rewrite Hh. cbn [js_when]. rewrite (js_bind_Ret _ _ _ _ _ Hg).
    cbn [xhr set_xhr _complete]. rewrite H4, Hc. cbn [js_when Nat.ltb Nat.leb Nat.eqb andb negb].
    assert ((core w1).2 !! r = Some false) as Hr1 by (unfold core; cbn [snd]; rewrite lookup_fmap, Hq1; cbn; by rewrite Hc).
    destruct (respond_complete b _ _ _ _ _ Hwb r w1) as [(e & w' & He & _)|(resp & w' & _ & Hrun' & Hw')];
      [by eexists|done| |].
    { destruct (new_response_returns b _ _ _ _ _ Hwb r w1 _ Hq1 Hx) as (resp & Hresp).
      rewrite He in Hresp. done. }
    exists w'. split; [exact Hrun'|]. change (activeRequestCount w') with (core w').1.2.
    rewrite <- lookup_fmap. change (_complete <$> requests w') with (core w').2. rewrite Hw'. split; [done|].
    cbn [snd]. rewrite lookup_alter_eq, lookup_fmap, Hq1. done.
Qed.
End active_requests.

Section example.
Let b : browser := Browser (js "Opera") false false (js "http:") (js "localhost") (js "2000").
Let none : nat → jsstr → option (payload → JS (world ()) ()) := λ _ _, None.
Let unit_eval : jsstr → JS (world ()) jsv := λ _, mret VUndef.
Let t0 : transport := Transport 0 (Some 0) None [] (λ _, None) VNull false.
Let t4 (t : transport) : transport := Transport 4 (Some 200) None (js "ok") (λ _, None) VNull (hooked t).
Let given : given_options := Given (Some (js "get")) None None None None None None None None false.
Let sent : world () :=
  (new_request b none (λ _ _, None) unit_eval (λ _ _ _, mret ()) (λ _, mret ()) 1 t0 (js "/graph") given (loaded ())).2.

Lemma active_requests_spec_witness :
  activeRequestCount sent = incomplete (_complete <$> requests sent) ∧
  ∃ w', transport_event b none (λ _ _, None) unit_eval 1 t4 sent = (Ret (), w') ∧
    activeRequestCount w' = activeRequestCount sent - 1.
Proof.
  destruct (active_requests_spec b none (λ _ _, None) unit_eval (λ _ _ _, mret ()) (λ _, mret ()) () sent)
    as (Hcount & Hcomplete).
  - split; done.
  - apply rtc_once. eapply (step_new _ _ _ _ _ _ 1 t0 (js "/graph") given); [reflexivity..|].
    apply js_run_Ret. vm_compute. reflexivity.
  - split; [exact Hcount|].
    destruct (requests sent !! 1%nat) as [q|] eqn:Hq; [|vm_compute in Hq; discriminate].
    destruct (Hcomplete 1%nat q t4 Hq eq_refl) as [_ H].
    destruct H as (w' & Hw & Hc & _); [| |reflexivity|exists w'; by split];
      vm_compute in Hq; injection Hq as <-; reflexivity.
Defined.
End example.

(** A callback for completion that throws is reported, but the responders,
    the library's own among them, are then not told: the count stays up. *)
Lemma complete_throw_leaks :
  let b := Browser (js "Opera") false false (js "http:") (js "localhost") (js "2000") in
  let callback (r : nat) (name : jsstr) : option (payload → JS (world ()) ()) :=
    if bool_decide (name = js "onComplete") then Some (λ _, js_throw (EUser 1)) else None in
  let given := Given (Some (js "get")) None None None None None None None None false in
  let sent := (new_request b callback (λ _ _, None) (λ _, mret VUndef) (λ _ _ _, mret ()) (λ _, mret ())
    1 (Transport 0 (Some 0) None [] (λ _, None) VNull false) (js "/graph") given (loaded ())).2 in
  let w := (transport_event b callback (λ _ _, None) (λ _, mret VUndef) 1
    (λ _, Transport 4 (Some 200) None (js "ok") (λ _, None) VNull true) sent).2 in
  _complete <$> requests w !! 1%nat = Some true ∧ activeRequestCount w = 1.
Proof. vm_compute. split; reflexivity. Qed.

(** ** Updaters *)

(** What a function of the page receives for its [container]: an id, or an
    object with two of them; a property that is absent is replaced by the
    container itself, which is then no element. *)
Inductive container_option := COne (id : jsstr) | CBoth (success_ failure_ : option jsstr).
Inductive receiver := RId (id : jsstr) | RContainer | RNone.

Definition container_success (c : container_option) : receiver :=
  match c with
  | COne id => RId id
  | CBoth (Some id) _ => RId id
  | CBoth None _ => RContainer
  end.
Definition container_failure (c : container_option) : receiver :=
  match c with
  | COne id => RId id
  | CBoth _ (Some id) => RId id
  | CBoth (Some _) None => RNone
  | CBoth None None => RContainer
  end.

Section updater.
Context {U : Type}.
(** [receiver.update(text)] and whether [$(id)] finds an element; what is no
    element has no [update]. *)
Context (page_update : jsstr → jsstr → JS (world U) ()) (exists_id : jsstr → JS (world U) bool).

Definition updateContent (container : container_option) (evalScripts : bool)
    (insertion : option (jsstr → jsstr → JS (world U) ())) (ok : bool) (text : jsstr) : JS (world U) () :=
  let receiver := if ok then container_success container else container_failure container in
  let text := if evalScripts then text else stripScripts text in
  match receiver with
  | RNone => mret ()
  | RContainer => match insertion with Some _ => mret () | None => js_throw ETypeError end
  | RId id =>
      found ← exists_id id;
      js_when found (match insertion with Some f => f id text | None => page_update id text end)
  end.

(** The callbacks of an updater's request: its own [onComplete] updates the
    page, then runs the one given. *)
Definition updater_callback (container : container_option) (evalScripts : bool)
    (insertion : option (jsstr → jsstr → JS (world U) ()))
    (given : nat → jsstr → option (payload → JS (world U) ()))
    (r : nat) (name : jsstr) : option (payload → JS (world U) ()) :=
  if bool_decide (name = js "onComplete") then
    Some (λ arg,
      match arg with
      | AResponse resp =>
          q ← get_request r;
          updateContent container evalScripts insertion (success (xhr q)) (default [] (responseText resp)) ;;
          call (given r name) arg
      | AException _ => call (given r name) arg
      end)
  else given r name.
End updater.

(** *** PeriodicalUpdater *)

Module PeriodicalUpdater.
(** [options.frequency] and [options.decay] as given; the timer holds the
    delay in seconds of the next request. *)
Record updater := Updater {
  opt_decay : option num; frequency : num; decay : num;
  lastText : option jsstr; timer : option num; started : nat; stopped : bool;
}.

Definition truthy (x : num) : bool :=
  match x with NaN => false | x => negb (num_eqb x (int 0)) end.
Definition or_num (o : option num) (d : num) : num :=
  match o with Some x => if truthy x then x else d | None => d end.

(** [onTimerEvent] makes a new [Ajax.Updater]. *)
Definition onTimerEvent : JS updater () := js_modify (λ u,
  Updater (opt_decay u) (frequency u) (decay u) (lastText u) (timer u) (S (started u)) (stopped u)).
(** [initialize] and [start] *)
Definition new_updater (opt_frequency opt_decay : option num) : updater :=
  (onTimerEvent (Updater opt_decay (or_num opt_frequency (int 2)) (or_num opt_decay (int 1)) None None 0 false)).2.
Definition stop : JS updater () := js_modify (λ u,
  Updater (opt_decay u) (frequency u) (decay u) (lastText u) None (started u) true).
(** [updateComplete] *)
Definition updateComplete (text : jsstr) : JS updater () := js_modify (λ u,
  let used := match opt_decay u with Some d => truthy d | None => false end in
  let decay' := match opt_decay u with
                | Some d => if used then
                              (if bool_decide (Some text = lastText u) then num_mul (decay u) d else int 1)
                            else decay u
                | None => decay u
                end in
  Updater (opt_decay u) (frequency u) decay' (if used then Some text else lastText u)
    (Some (num_mul decay' (frequency u))) (started u) (stopped u)).
(** A response arrives, then its timer fires: the next request. *)
Definition round (text : jsstr) : JS updater () := updateComplete text ;; onTimerEvent.

(** Responses in the order they arrive. *)
Definition rounds (texts : list jsstr) (u : updater) : updater :=
  fold_left (λ u text, (round text u).2) texts u.

(** The decay after [k] repetitions. *)
Definition decayed (d : num) (k : nat) : num := Nat.iter k (λ x, num_mul x d) (int 1).
(** How often the last text has just been repeated. *)
Fixpoint repeats (text : jsstr) (older : list jsstr) : nat :=
  match older with
  | t :: older => if bool_decide (t = text) then S (repeats text older) else O
  | [] => O
  end.

Lemma rounds_fields texts u :
  opt_decay (rounds texts u) = opt_decay u ∧ frequency (rounds texts u) = frequency u ∧
  started (rounds texts u) = (started u + length texts)%nat.
Proof.
  revert u. induction texts as [|t texts IH]; intros u; cbn; [by rewrite Nat.add_0_r|].
  destruct (IH (round t u).2) as (H1 & H2 & H3). unfold rounds in *. rewrite H1, H2, H3.
  change (started (round t u).2) with (S (started u)). split_and!; [done..|lia].
Qed.

Lemma rounds_snoc texts text u : rounds (texts ++ [text]) u = (round text (rounds texts u)).2.
Proof. unfold rounds. by rewrite fold_left_app. Qed.

Lemma round_eq d text u : opt_decay u = Some d → truthy d = true →
  let decay' := if bool_decide (Some text = lastText u) then num_mul (decay u) d else int 1 in
  (round text u).2 = Updater (Some d) (frequency u) decay' (Some text)
    (Some (num_mul decay' (frequency u))) (S (started u)) (stopped u).
Proof. destruct u as [o ? ? ? ? ? ?]. cbn. intros -> Hd. unfold round. js_unfold. cbn. by rewrite Hd. Qed.

Lemma rounds_last d texts text f : truthy d = true →
  let u := rounds (texts ++ [text]) (new_updater f (Some d)) in
  lastText u = Some text ∧ decay u = decayed d (repeats text (reverse texts)).
Proof.
  intros Hd. revert text. induction texts as [|t texts IH] using rev_ind; intros text; cbv zeta.
  - unfold rounds. cbn [fold_left app]. by rewrite (round_eq d) by done.
  - rewrite rounds_snoc. destruct (IH t) as [Hl Hdec]. cbv zeta in Hl, Hdec.
    set (u := rounds (texts ++ [t]) _) in *.
    assert (opt_decay u = Some d) as Ho by (subst u; by rewrite (proj1 (rounds_fields _ _))).
    rewrite reverse_snoc, (round_eq d) by done. cbn. rewrite Hl, Hdec. split; [done|].
    destruct (bool_decide_reflect (Some text = Some t)) as [[= ->]|Hne].
    + rewrite bool_decide_true by done. reflexivity.
    + rewrite bool_decide_false by congruence. reflexivity.
Qed.

(** While the responses repeat each other the wait between requests grows by
    the factor [decay] each time, and it is the frequency again after a new
    text; every response leads to one more request. *)
Theorem periodical_updater_spec (f : option num) (d : num) (texts : list jsstr) (text : jsstr) :
  truthy d = true →
  let u := rounds (texts ++ [text]) (new_updater f (Some d)) in
  timer u = Some (num_mul (decayed d (repeats text (reverse texts))) (or_num f (int 2))) ∧
  (last texts ≠ Some text → decay u = int 1) ∧
  started u = S (S (length texts)).
Proof.
  intros Hd u. destruct (rounds_last d texts text f Hd) as [_ Hdec]. fold u in Hdec.
  destruct (rounds_fields (texts ++ [text]) (new_updater f (Some d))) as (_ & Hf & Hs). fold u in Hf, Hs.
  split; [|split].
  - transitivity (Some (num_mul (decay u) (frequency u))); [|by rewrite Hdec, Hf].
    subst u. rewrite rounds_snoc, (round_eq d); [done| |done]. by rewrite (proj1 (rounds_fields _ _)).
  - intros Hl. rewrite Hdec. destruct texts as [|t texts _] using rev_ind; [done|].
    rewrite last_snoc in Hl. rewrite reverse_snoc. cbn. rewrite bool_decide_false by congruence. done.
  - rewrite Hs, length_app. cbn. lia.
Qed.

Lemma periodical_updater_spec_witness :
  timer (rounds [js "a"; js "a"; js "a"] (new_updater None (Some (int 2)))) = Some (int 8) ∧
  started (rounds [js "a"; js "a"; js "a"] (new_updater None (Some (int 2)))) = 4%nat.
Proof.
  destruct (periodical_updater_spec None (int 2) [js "a"; js "a"] (js "a")) as (Ht & _ & Hs); [reflexivity|].
  split; [|exact Hs]. etransitivity; [exact Ht|]. vm_compute. reflexivity.
Defined.
End PeriodicalUpdater.

(** ** Origins *)

(** An address without a scheme is of the same origin; another is when it
    starts with exactly the page's protocol, domain and port, up to the next
    slash, white space before it included. *)
Lemma evaluate_origin protocol domain port :
  evaluate (js "#{protocol}//#{domain}#{port}") (VObj [
    (js "protocol", VStr protocol); (js "domain", VStr domain); (js "port", VStr port)])
  = Some (protocol ++ js "//" ++ domain ++ port).
Proof.
  transitivity (Some (protocol ++ js "//" ++ domain ++ port ++ [])); [vm_compute; reflexivity|].
  by rewrite app_nil_r.
Qed.

Definition absolute (s : jsstr) : bool := is_prefix (js "http://") s || is_prefix (js "https://") s.
(** White space and then no scheme. *)
Definition relative (url : jsstr) : Prop :=
  ∀ ws t, url = ws ++ t → forallb is_space ws = true → absolute t = false.

Lemma origin_rx_none url : relative url → rx_match origin_rx url = None.
Proof.
  intros Hrel. destruct (rx_match origin_rx url) as [m|] eqn:Hm; [exfalso|done].
  apply rx_match_sound in Hm as [Hurl Hmt]; [|done]. unfold origin_rx in Hmt.
  apply matches_seq_iff in Hmt as (x1 & [Hb ->]%matches_bol_iff & Hmt).
  apply matches_seq_iff in Hmt as (x2 & Hws & Hmt).
  apply matches_seq_iff in Hmt as (x3 & [H3 _]%matches_text & Hmt).
  apply matches_seq_iff in Hmt as (x4 & Hs & Hmt).
  apply matches_seq_iff in Hmt as (x5 & [H5 _]%matches_text & _).
  apply denotes_star_class in Hws as (ws & Hx2 & _ & Hws). cbn in Hb, Hx2.
  apply (f_equal reverse) in Hb. rewrite reverse_involutive in Hb. rewrite Hb in Hurl. cbn in Hurl.
  rewrite <- Hurl in Hx2.
  assert (absolute (after x2) = false) as Ha by (eapply Hrel; [exact Hx2|by apply forallb_true_iff]).
  unfold absolute in Ha. apply orb_false_iff in Ha as [H1 H2].
  apply not_true_iff_false in H1, H2. apply matches_alt_iff in Hs as [Hs|Hs].
  - apply matches_char_iff in Hs as (c & s & Hc & Hc5%N.eqb_eq & ->). cbn in H5. subst c s.
    apply H2, is_prefix_spec. exists (after x5). rewrite H3, Hc. reflexivity.
  - apply matches_eps_iff in Hs as ->. apply H1, is_prefix_spec. exists (after x5). rewrite H3, H5. reflexivity.
Qed.

Lemma rmatch_seq r1 r2 k x : rmatch (r1 +++ r2)%rx k x = rmatch r1 (rmatch r2 k) x.
Proof. reflexivity. Qed.

Lemma span_host host rest : forallb (none_of (js "/")) host = true →
  (∀ c s, rest = c :: s → c = 47%N) → span (none_of (js "/")) (host ++ rest) = (host, rest).
Proof.
  intros Hh Hr. induction host as [|c host IH].
  - destruct rest as [|c s]; [done|]. by rewrite (Hr c s eq_refl).
  - cbn [forallb] in Hh. apply andb_true_iff in Hh as [Hc Hh]. cbn [app span]. by rewrite Hc, IH.
Qed.

Lemma origin_rx_some (ssl : bool) host rest : forallb (none_of (js "/")) host = true →
  (∀ c s, rest = c :: s → c = 47%N) →
  let scheme := if ssl then js "https://" else js "http://" in
  ∃ m, rx_match origin_rx (scheme ++ host ++ rest) = Some m ∧ m_text m = scheme ++ host.
Proof.
  intros Hh Hr scheme.
  assert (∃ y, rmatch origin_rx Some (Pos [] (scheme ++ host ++ rest), ∅) = Some y ∧ after y.1 = rest) as (y & Hy & Ha).
  { unfold origin_rx. destruct (rmatch_star_all (none_of (js "/")) (reverse scheme) (host ++ rest) ∅) as (y & Hy & Ha).
    rewrite span_host in Ha by done. exists y. split; [|done].
    set (tail := rmatch (RStr (js "http") +++ ROpt (RLit 115) +++ RStr (js "://") +++
                         RStar true (RChar (none_of (js "/"))))%rx Some).
    transitivity (rmatch (RStar true (RChar is_space)) tail (Pos [] (scheme ++ host ++ rest), ∅)); [reflexivity|].
    rewrite rmatch_star_class.
    transitivity (tail (Pos [] (scheme ++ host ++ rest), ∅)); [by destruct ssl|].
    subst tail. rewrite rmatch_seq, rmatch_RStr.
    destruct ssl; subst scheme; rewrite <- Hy; [|reflexivity].
    transitivity (or_else (rmatch (RStar true (RChar (none_of (js "/")))) Some
      (Pos (reverse (js "https://")) (host ++ rest), ∅)) (λ _, None)); [reflexivity|by rewrite Hy]. }
  exists (MatchRes [] (consumed (Pos [] (scheme ++ host ++ rest)) y.1) (after y.1) y.2). split.
  - unfold rx_match. destruct (scheme ++ host ++ rest) as [|c s]; cbn [exec_from]; by rewrite Hy.
  - cbn [m_text]. unfold consumed. cbn [after].
    rewrite Ha, app_assoc, length_app, Nat.add_sub. apply take_app_length.
Qed.

(** A request to an address without a scheme is of the same origin; one with a
    scheme is when scheme and host, up to the first slash, are the page's
    protocol, domain and port. *)
Theorem isSameOrigin_spec (b : browser) :
  (∀ url, relative url → isSameOrigin b url = true) ∧
  (∀ (ssl : bool) host rest, forallb (none_of (js "/")) host = true →
    (∀ c s, rest = c :: s → c = 47%N) →
    let scheme := if ssl then js "https:" else js "http:" in
    isSameOrigin b (scheme ++ js "//" ++ host ++ rest) = true ↔
    scheme ++ js "//" ++ host = loc_protocol b ++ js "//" ++ doc_domain b ++
      (if bool_decide (loc_port b = []) then [] else js ":" ++ loc_port b)).
Proof.
  split.
  - intros url Hrel. unfold isSameOrigin. by rewrite origin_rx_none.
  - intros ssl host rest Hh Hr scheme. destruct (origin_rx_some ssl host rest Hh Hr) as (m & Hm & Ht).
    unfold isSameOrigin. replace (scheme ++ js "//" ++ host ++ rest)
      with ((if ssl then js "https://" else js "http://") ++ host ++ rest) by (subst scheme; by destruct ssl).
    rewrite Hm, Ht, evaluate_origin, bool_decide_eq_true.
    replace ((if ssl then js "https://" else js "http://") ++ host) with (scheme ++ js "//" ++ host)
      by (subst scheme; by destruct ssl).
    split; [by intros [=]|by intros ->].
Qed.

Lemma isSameOrigin_spec_witness :
  let b := Browser [] false false (js "http:") (js "localhost") (js "2000") in
  isSameOrigin b (js "/admin-panel/graph") = true ∧
  isSameOrigin b (js "http://localhost:2000/admin-panel") = true.
Proof.
  destruct (isSameOrigin_spec (Browser [] false false (js "http:") (js "localhost") (js "2000"))) as [Hr Ha].
  split.
  - apply Hr. intros ws t Hurl Hws. destruct ws as [|c ws]; [by cbn in Hurl; subst|].
    assert (c = 47%N) as -> by (by injection Hurl). done.
  - apply (Ha false (js "localhost:2000") (js "/admin-panel")); [reflexivity| |reflexivity].
    intros c s Hcs. by injection Hcs.
Defined.
