(* ===== verification/Form.v ===== *)
(** * Forms (prototype.js: Form, Form.Element, observers)

    A control is what the code reads and writes of a form element.  Values
    are JavaScript values: [null] for a control without one, a string, or the
    array of the selected values of a list. *)

From Stdlib Require Import ZArith.
From S2P Require Import Prelude JsBase JsNum JsRegex JsReplace Enumerable Strings Hash Ajax.
#[local] Open Scope Z_scope.
#[local] Open Scope stdpp_scope.

(** ** Controls *)

(** An option of a list: its [value] attribute if it has one. *)
Record opt := Opt { o_value : option jsstr; o_text : jsstr; o_selected : bool }.
Record control := Control {
  c_tag : jsstr;                (* tagName, lower case *)
  c_type : jsstr; c_name : jsstr; c_value : jsstr; c_checked : bool; c_disabled : bool;
  c_options : list opt;
  c_tabIndex : option Z;        (* when the attribute is present *)
}.

Definition set_value (v : jsstr) (c : control) : control :=
  Control (c_tag c) (c_type c) (c_name c) v (c_checked c) (c_disabled c) (c_options c) (c_tabIndex c).
Definition set_checked (b : bool) (c : control) : control :=
  Control (c_tag c) (c_type c) (c_name c) (c_value c) b (c_disabled c) (c_options c) (c_tabIndex c).
Definition set_disabled (b : bool) (c : control) : control :=
  Control (c_tag c) (c_type c) (c_name c) (c_value c) (c_checked c) b (c_options c) (c_tabIndex c).
Definition set_options (l : list opt) (c : control) : control :=
  Control (c_tag c) (c_type c) (c_name c) (c_value c) (c_checked c) (c_disabled c) l (c_tabIndex c).
Definition set_selected (b : bool) (o : opt) : opt := Opt (o_value o) (o_text o) b.

(** ** Form.Element.Serializers *)

(** [!!value] and [value == text] for the values a control can be given. *)
Definition js_true (v : jsv) : bool :=
  match v with
  | VUndef | VNull => false
  | VBool b => b
  | VNum z => negb (z =? 0)
  | VStr s => negb (bool_decide (s = []))
  | VArr _ | VObj _ | VFun _ => true
  end.

Definition optionValue (o : opt) : jsstr := default (o_text o) (o_value o).

(** [selectedIndex] *)
Definition selectedIndex (l : list opt) : option nat := fst <$> list_find (λ o, o_selected o = true) l.
Definition selectOne (c : control) : jsv :=
  match selectedIndex (c_options c) with
  | Some i => match c_options c !! i with Some o => VStr (optionValue o) | None => VNull end
  | None => VNull
  end.
(** The loop of [selectMany]. *)
Fixpoint selected_values (l : list opt) : list jsv :=
  match l with
  | [] => []
  | o :: l => if o_selected o then VStr (optionValue o) :: selected_values l else selected_values l
  end.
Definition selectMany (c : control) : jsv :=
  match c_options c with [] => VNull | l => VArr (selected_values l) end.

(** [opt.selected = true]: in a list of type [select-one] the browser clears
    the other options. *)
Definition choose (type : jsstr) (i : nat) (l : list opt) : list opt :=
  if bool_decide (type = js "select-one") then imap (λ j o, set_selected (bool_decide (j = i)) o) l
  else alter (set_selected true) i l.

(** [text == value] *)
Definition loosely_equals (text : jsstr) (value : jsv) : bool :=
  match value with
  | VUndef | VNull => false
  | VBool b => num_eqb (to_number text) (int (if b then 1 else 0))
  | VNum z => num_eqb (to_number text) (num_of_Z z)
  | v => bool_decide (text = string_of v)
  end.
(** The loop over the options for a value that is not an array: the first
    option that has the value is selected. *)
Fixpoint select_single (type : jsstr) (value : jsv) (l : list opt) (rest : list opt) (i : nat) : list opt :=
  match rest with
  | [] => l
  | o :: rest => if loosely_equals (optionValue o) value then choose type i l
                 else select_single type value l rest (S i)
  end.
Definition select_set (c : control) (value : jsv) : control :=
  match value with
  | VArr vs => set_options ((λ o, set_selected (existsb (λ v, strict_eq v (VStr (optionValue o))) vs) o) <$> c_options c) c
  | v => set_options (select_single (c_type c) v (c_options c) (c_options c) 0) c
  end.

Definition inputSelector_get (c : control) : jsv := if c_checked c then VStr (c_value c) else VNull.
Definition is_selector (c : control) : bool :=
  bool_decide (toLowerCase (c_type c) ∈ [js "checkbox"; js "radio"]).

(** [Form.Element.Serializers[tagName](element)] and with a value; a tag
    without a serializer throws. *)
Definition getValue {S} (c : control) : JS S jsv :=
  if bool_decide (c_tag c = js "input") then
    mret (if is_selector c then inputSelector_get c else VStr (c_value c))
  else if bool_decide (c_tag c = js "textarea") then mret (VStr (c_value c))
  else if bool_decide (c_tag c = js "select") then
    mret (if bool_decide (c_type c = js "select-one") then selectOne c else selectMany c)
  else js_throw ETypeError.
Definition setValue {S} (c : control) (value : jsv) : JS S control :=
  if bool_decide (c_tag c = js "input") then
    mret (if is_selector c then set_checked (js_true value) c else set_value (string_of value) c)
  else if bool_decide (c_tag c = js "textarea") then mret (set_value (string_of value) c)
  else if bool_decide (c_tag c = js "select") then mret (select_set c value)
  else js_throw ETypeError.

Definition clear (c : control) : control := set_value [] c.
Definition present (c : control) : bool := negb (bool_decide (c_value c = [])).
Definition enable (c : control) : control := set_disabled false c.
Definition disable (c : control) : control := set_disabled true c.

(** ** Serializing *)

(** [options.submit]: absent, [false], or the name of a button. *)
Inductive submit_option := SubmitAny | SubmitNone | SubmitName (name : jsstr).

(** Whether a control of type [submit] takes part, when none has so far. *)
Definition submits (submit : submit_option) (key : jsstr) : bool :=
  match submit with
  | SubmitAny => true
  | SubmitNone => false
  | SubmitName [] => true
  | SubmitName name => bool_decide (key = name)
  end.

(** [result[key]] gets one more value. *)
Definition add_value (key : jsstr) (value : jsv) (result : object) : object :=
  if in_object key result then
    let old := match object_lookup result key with VArr l => l | v => [v] end in
    assoc_set key (VArr (old ++ [value])) result
  else assoc_set key value result.

(** The iterator of [serializeElements] over the captured [submitted]. *)
Definition serialize_step {S} (submit : submit_option) (result : object) (element : control) (_ : Z) :
    JS (bool * S) object :=
  if c_disabled element || bool_decide (c_name element = []) then mret result
  else
    value ← getValue element;
    submitted ← js_local;
    if is_nullish value || bool_decide (c_type element = js "file") then mret result
    else if bool_decide (c_type element = js "submit") then
      if negb submitted && submits submit (c_name element)
      then js_set_local true ;; mret (add_value (c_name element) value result)
      else mret result
    else mret (add_value (c_name element) value result).

Definition serialize_data {S} (elements : list control) (submit : submit_option) : JS S object :=
  '(data, _) ← js_with_local false (inject elements [] (serialize_step submit));
  mret data.
Definition serializeElements {S} (elements : list control) (hash : bool) (submit : submit_option) :
    JS S (object + jsstr) :=
  data ← serialize_data elements submit;
  if hash : bool then mret (inl data) else s ← toQueryString (HashOf (object_clone data)); mret (inr s).

(** The controls among all the elements of a form. *)
Definition serializers : list jsstr :=
  [js "input"; js "inputSelector"; js "textarea"; js "select"; js "selectOne"; js "selectMany"; js "optionValue"].
Definition getElements {S} (form : list control) : JS S (list control) :=
  inject form [] (λ elements child _,
    mret (if bool_decide (c_tag child ∈ serializers) then elements ++ [child] else elements)).
Definition serialize {S} (form : list control) (hash : bool) (submit : submit_option) : JS S (object + jsstr) :=
  elements ← getElements form;
  serializeElements elements hash submit.
(** [Form.Element.serialize] *)
Definition element_serialize {S} (c : control) : JS S jsstr :=
  if c_disabled c || bool_decide (c_name c = []) then mret []
  else
    value ← getValue c;
    if is_nullish value then mret []
    else toQueryString (HashOf [(c_name c, value)]).

(** ** Form.Methods *)

(** The tests are on the properties of [input] elements. *)
Definition getInputs (form : list control) (typeName name : option jsstr) : list control :=
  List.filter (λ input,
    match typeName with Some t => bool_decide (t = []) || bool_decide (c_type input = t) | None => true end &&
    match name with Some n => bool_decide (n = []) || bool_decide (c_name input = n) | None => true end)
  (List.filter (λ c, bool_decide (c_tag c = js "input")) form).

(** [invoke('disable')] on the controls of the form, the others untouched. *)
Definition on_controls (f : control → control) (form : list control) : list control :=
  (λ c, if bool_decide (c_tag c ∈ serializers) then f c else c) <$> form.
Definition form_disable (form : list control) : list control := on_controls disable form.
Definition form_enable (form : list control) : list control := on_controls enable form.

(** The controls that can be focused are not hidden and not disabled; those
    with a non-negative [tabIndex] come first. *)
Definition focusable (c : control) : bool :=
  negb (bool_decide (c_type c = js "hidden")) && negb (c_disabled c).
Definition indexed (c : control) : bool :=
  match c_tabIndex c with Some i => 0 <=? i | None => false end.
Definition findFirstElement {S} (form : list control) : JS S (option control) :=
  controls ← getElements form;
  elements ← findAll controls (λ c _, mret (focusable c));
  byIndex ← findAll elements (λ c _, mret (indexed c));
  sorted ← sortBy byIndex (λ c _, mret (int (default 0 (c_tabIndex c))));
  match first sorted with
  | Some c => mret (Some c)
  | None => detect elements (λ c _, mret (bool_decide (c_tag c ∈ [js "input"; js "select"; js "textarea"])))
  end.

(** [activate]: what is called on the element; both calls may throw, which is
    caught. *)
Definition selects (c : control) : bool :=
  negb (bool_decide (c_tag c = js "input")) ||
  negb (bool_decide (c_type c ∈ [js "button"; js "reset"; js "submit"])).
Definition activate {S} (focus select : control → JS S ()) (has_select : control → bool) (c : control) : JS S () :=
  js_try (focus c ;; js_when (has_select c && selects c) (select c)) (λ _, mret ()).

(** [request]: the address and the options of the [Ajax.Request] it makes.
    [action] and [method] are the attributes of the form, [params] are the
    parameters of the options, a text or an object. *)
Definition form_request {S} (form : list control) (action method : option jsstr) (location : jsstr)
    (given : given_options) (params : option (jsstr + object)) : JS S (jsstr * given_options) :=
  let action := match action with Some a => if blank a then location else a | None => location end in
  own ← serialize_data (S := S) form SubmitAny;
  params ← match params with
           | None | Some (inl []) => mret []
           | Some (inl s) => toQueryParams s []
           | Some (inr o) => mret o
           end;
  mret (action,
    Given (match g_method given with
           | Some (c :: m) => Some (c :: m)
           | other => match method with Some m => Some m | None => other end
           end)
      (g_asynchronous given) (g_contentType given) (g_encoding given) (Some (PObject (object_extend own params)))
      (g_evalJSON given) (g_evalJS given) (g_postBody given) (g_requestHeaders given) (g_sanitizeJSON given)).

(** ** Observers *)

(** [value != lastValue] for two results of [getValue]: arrays are compared
    by identity, and every call makes a new one. *)
Definition loosely_differs (v w : jsv) : bool :=
  match v, w with
  | VArr _, VArr _ => true
  | _, _ => negb (strict_eq v w)
  end.

(** [Abstract.TimedObserver.execute]: texts are compared as such, other values
    by their texts; the state is [lastValue]. *)
Definition timed_differs (last value : jsv) : bool :=
  match last, value with
  | VStr a, VStr b => negb (bool_decide (a = b))
  | _, _ => negb (bool_decide (string_of last = string_of value))
  end.
Definition observer_execute {S} (callback : jsv → JS S ()) (value : jsv) : JS (jsv * S) () :=
  last ← js_local;
  js_when (timed_differs last value) (js_lift (callback value) ;; js_set_local value).
(** [Abstract.EventObserver.onElementEvent] *)
Definition onElementEvent {S} (callback : jsv → JS S ()) (value : jsv) : JS (jsv * S) () :=
  last ← js_local;
  js_when (loosely_differs last value) (js_lift (callback value) ;; js_set_local value).
(** The event [registerCallback] observes on a control, if it has a type. *)
Definition observed_event (c : control) : option jsstr :=
  if bool_decide (c_type c = []) then None
  else Some (if is_selector c then js "click" else js "change").
Definition registerFormCallbacks {S} (form : list control) : JS S (list (control * jsstr)) :=
  elements ← getElements form;
  mret (omap (λ c, e ← observed_event c; Some (c, e)) elements).

(** ** What is serialized *)

(** The value of a control that has a serializer. *)
Definition value_of (c : control) : jsv :=
  if bool_decide (c_tag c = js "input") then (if is_selector c then inputSelector_get c else VStr (c_value c))
  else if bool_decide (c_tag c = js "textarea") then VStr (c_value c)
  else if bool_decide (c_type c = js "select-one") then selectOne c else selectMany c.
Definition serializable (c : control) : Prop := c_tag c ∈ [js "input"; js "textarea"; js "select"].

Lemma getValue_run {S} c (s : S) : serializable c → getValue c s = (Ret (value_of c), s).
Proof.
  intros Hc. unfold getValue, value_of. repeat case_bool_decide; try done;
    unfold serializable in Hc; set_solver.
Qed.

(** A control with something to send, buttons aside. *)
Definition sends (c : control) : bool :=
  negb (c_disabled c) && negb (bool_decide (c_name c = [])) && negb (is_nullish (value_of c)) &&
  negb (bool_decide (c_type c = js "file")).
Definition is_submit (c : control) : bool := bool_decide (c_type c = js "submit").
(** The names and values sent, the first button admitted being the only one. *)
Fixpoint successful (submit : submit_option) (submitted : bool) (l : list control) : list (control * jsv) :=
  match l with
  | [] => []
  | c :: l =>
      if negb (sends c) then successful submit submitted l
      else if is_submit c then
        if negb submitted && submits submit (c_name c) then (c, value_of c) :: successful submit true l
        else successful submit submitted l
      else (c, value_of c) :: successful submit submitted l
  end.

Definition add_all (l : list (control * jsv)) (r : object) : object :=
  fold_left (λ r p, add_value (c_name p.1) p.2 r) l r.

Lemma no_break_serialize {S} submit r : no_break (serialize_step submit r : _ → _ → JS (bool * S) _).
Proof.
  apply no_break_never. intros c i. unfold serialize_step.
  assert (never_breaks (getValue c : JS (bool * S) jsv)) as Hv.
  { unfold getValue. repeat case_bool_decide; eauto with breaks. by apply never_breaks_throw. }
  destruct (_ || _); [eauto with breaks|]. apply never_breaks_bind; [done|]. intros v.
  apply never_breaks_bind; [done|]. intros sub.
  repeat case_goal; eauto with breaks. apply never_breaks_bind; eauto with breaks. by intros ? ?.
Qed.

Lemma serialize_loop {S} submit l i r sub (s : S) : Forall serializable l →
  ∃ sub', fold_loop (serialize_step submit) l i r (sub, s) = (Ret (add_all (successful submit sub l) r), (sub', s)).
Proof.
  intros Hl. revert i r sub. induction Hl as [|c l Hc _ IH]; intros i r sub; [by eexists|].
  cbn [fold_loop successful]. unfold serialize_step at 2, sends.
  destruct (c_disabled c); cbn [orb negb andb]; [apply IH|].
  destruct (bool_decide (c_name c = [])); cbn [negb andb]; [apply IH|].
  rewrite js_bind_assoc, (js_bind_Ret _ _ _ _ _ (getValue_run c (sub, s) Hc)).
  rewrite js_bind_assoc. unfold js_local at 1. cbn [fst].
  rewrite (js_bind_Ret _ _ _ sub (sub, s)) by done. unfold is_submit.
  destruct (is_nullish (value_of c)); cbn [orb negb andb]; [apply IH|].
  destruct (bool_decide (c_type c = js "file")); cbn [negb]; [apply IH|].
  destruct (bool_decide (c_type c = js "submit")); [|apply IH].
  destruct (negb sub && submits submit (c_name c)); [|apply IH].
  apply (IH _ _ true).
Qed.

Lemma serialize_data_run {S} l submit (s : S) : Forall serializable l →
  serialize_data l submit s = (Ret (add_all (successful submit false l) []), s).
Proof.
  intros Hl. unfold serialize_data, js_with_local. js_unfold.
  rewrite inject_run by apply no_break_serialize. cbn [elements array_iterable].
  by destruct (serialize_loop submit l 0 [] false s Hl) as [sub' ->].
Qed.

(** What an object holds for the values collected under one name: one value
    alone, or all in an array, which a first value that is an array itself
    begins. *)
Definition collected (vs : list jsv) : option jsv :=
  match vs with
  | [] => None
  | [v] => Some v
  | v :: vs => Some (VArr (match v with VArr l => l | v => [v] end ++ vs))
  end.
Definition values_of (k : jsstr) (l : list (control * jsv)) : list jsv :=
  (filter (λ p, c_name p.1 = k) l).*2.

Lemma add_value_get k name v r vs : name ∉ object_prototype → assoc_get name r = collected vs →
  assoc_get k (add_value name v r) = if decide (k = name) then collected (vs ++ [v]) else assoc_get k r.
Proof.
  intros Hp Hr. unfold add_value, in_object, object_lookup. rewrite (bool_decide_false (name ∈ _)) by done.
  rewrite orb_false_r, Hr. destruct vs as [|v1 [|v2 vs]]; cbn [collected].
  - rewrite bool_decide_false by (intros [? ?]; done). rewrite assoc_get_set. done.
  - rewrite bool_decide_true by done. rewrite assoc_get_set. by destruct v1.
  - rewrite bool_decide_true by done. rewrite assoc_get_set. case_decide; [|done]. cbn. by rewrite <- app_assoc.
Qed.

Lemma values_of_snoc k l c v : values_of k (l ++ [(c, v)]) =
  if decide (c_name c = k) then values_of k l ++ [v] else values_of k l.
Proof.
  unfold values_of. rewrite filter_app, filter_cons, filter_nil, fmap_app. cbn [fst].
  destruct (decide (c_name c = k)); cbn; [done|by rewrite app_nil_r].
Qed.

Lemma add_all_get l k : Forall (λ p, c_name p.1 ∉ object_prototype) l → assoc_get k (add_all l []) = collected (values_of k l).
Proof.
  revert k. induction l as [|[c v] l IH] using rev_ind; intros k Hn; [done|].
  apply Forall_app in Hn as [Hn [Hc _]%Forall_cons].
  unfold add_all. rewrite fold_left_app. cbn [fold_left fst snd]. fold (add_all l []).
  rewrite (add_value_get k (c_name c) v _ (values_of (c_name c) l)); [|done|by apply IH].
  rewrite values_of_snoc. destruct (decide (k = c_name c)) as [->|Hk].
  - by rewrite decide_True.
  - rewrite decide_False by congruence. by apply IH.
Qed.

(** The controls sent are named, enabled and have a value; one button at most
    is among them. *)
Lemma successful_sends submit sub l : Forall (λ p, sends p.1 = true ∧ p.2 = value_of p.1) (successful submit sub l).
Proof.
  revert sub. induction l as [|c l IH]; intros sub; [constructor|]. cbn.
  destruct (sends c) eqn:Hs; cbn [negb]; [|done].
  destruct (is_submit c); [|by constructor]. destruct (negb sub && _); [by constructor|done].
Qed.
Lemma successful_buttons submit sub l :
  (length (filter (λ p, is_submit p.1 = true) (successful submit sub l)) ≤ if sub then 0 else 1)%nat.
Proof.
  revert sub. induction l as [|c l IH]; intros sub; [cbn; destruct sub; lia|]. cbn.
  destruct (sends c); cbn [negb]; [|done].
  destruct (is_submit c) eqn:Hs; [destruct sub; cbn [negb andb]; [apply IH|destruct (submits _ _)]|].
  - rewrite filter_cons, decide_True by done. cbn. specialize (IH true). cbn in IH. lia.
  - apply IH.
  - rewrite filter_cons, decide_False by (cbn; congruence). done.
Qed.

(** C12. Serializing inputs, text areas and lists whose names are not names every
    object inherits, such as [constructor]: it gives, for every name, the value of the only
    successful control of that name, or the array of the values in document
    order when there are several.  The value of a list with several selections
    is the array of these, and when it is the first of its name the values of
    other controls are added to it.  A control that is disabled, has no name or
    no value or is a file is left out, and at most one button is sent. *)
Theorem serialize_spec {S} (elements : list control) (submit : submit_option) (s : S) :
  Forall serializable elements → Forall (λ c, c_name c ∉ object_prototype) elements →
  ∃ data, serialize_data elements submit s = (Ret data, s) ∧
  let sent := successful submit false elements in
  (∀ k, assoc_get k data = collected (values_of k sent)) ∧
  Forall (λ p, sends p.1 = true ∧ p.2 = value_of p.1) sent ∧
  (length (filter (λ p, is_submit p.1 = true) sent) ≤ 1)%nat ∧
  sublist sent.*1 elements.
Proof.
  intros Hser Hok. exists (add_all (successful submit false elements) []).
  split; [by apply serialize_data_run|]. cbv zeta.
  assert (sublist (successful submit false elements).*1 elements) as Hsub.
  { clear Hser Hok. generalize false. induction elements as [|c l IH]; intros sub; [constructor|]. cbn.
    destruct (sends c); cbn [negb]; [|by apply sublist_cons].
    destruct (is_submit c); [destruct (negb sub && _)|]; cbn; auto using sublist_skip, sublist_cons. }
  assert (Forall (λ p, c_name p.1 ∉ object_prototype) (successful submit false elements)) as Hall.
  { rewrite Forall_forall in Hok. apply Forall_forall. intros [c v] Hin. apply Hok. eapply sublist_subseteq; [exact Hsub|].
    apply list_elem_of_fmap. by exists (c, v). }
  split_and!; [intros k; by apply add_all_get|apply successful_sends|apply successful_buttons|done].
Qed.

Definition sample_form : list control := [
  Control (js "input") (js "text") (js "name") (js "a") false false [] None;
  Control (js "input") (js "checkbox") (js "ids") (js "1") true false [] None;
  Control (js "input") (js "checkbox") (js "ids") (js "2") false false [] None;
  Control (js "input") (js "checkbox") (js "ids") (js "3") true false [] None;
  Control (js "input") (js "submit") (js "save") (js "Save") false false [] None;
  Control (js "input") (js "submit") (js "drop") (js "Drop") false false [] None;
  Control (js "select") (js "select-multiple") (js "apps") [] false false
    [Opt (Some (js "1")) (js "one") true; Opt (Some (js "2")) (js "two") false; Opt (Some (js "3")) (js "three") true] None;
  Control (js "input") (js "text") (js "apps") (js "4") false false [] None].

Lemma serialize_spec_witness : ∃ data, serialize_data sample_form SubmitAny () = (Ret data, ()) ∧
  assoc_get (js "ids") data = Some (VArr [VStr (js "1"); VStr (js "3")]) ∧
  assoc_get (js "apps") data = Some (VArr [VStr (js "1"); VStr (js "3"); VStr (js "4")]) ∧
  assoc_get (js "drop") data = None.
Proof.
  destruct (serialize_spec sample_form SubmitAny ()) as (data & Hrun & Hget & _).
  - repeat (apply Forall_cons; split; [apply (bool_decide_unpack _); vm_compute; exact I|]). constructor.
  - repeat (apply Forall_cons; split; [apply (bool_decide_unpack _); vm_compute; exact I|]). constructor.
  - exists data. split; [exact Hrun|]. rewrite !Hget. repeat split; vm_compute; reflexivity.
Defined.

(** ** Reading back what was set *)

Lemma selected_values_set (p : opt → bool) l :
  selected_values ((λ o, set_selected (p o) o) <$> l) = (VStr ∘ optionValue) <$> List.filter p l.
Proof. induction l as [|o l IH]; [done|]. cbn. rewrite IH. by destruct (p o). Qed.

Lemma select_single_run type value rest pre :
  select_single type (VStr value) (pre ++ rest) rest (length pre) =
  match list_find (λ o, optionValue o = value) rest with
  | Some (j, _) => choose type (length pre + j) (pre ++ rest)
  | None => pre ++ rest
  end.
Proof.
  revert pre. induction rest as [|o rest IH]; intros pre; [done|]. cbn [select_single list_find loosely_equals string_of].
  destruct (decide (optionValue o = value)) as [He|Hne].
  - rewrite bool_decide_true by done. by rewrite Nat.add_0_r.
  - rewrite bool_decide_false by done. specialize (IH (pre ++ [o])).
    rewrite length_app, <- app_assoc in IH. cbn [length app] in IH.
    replace (length pre + 1)%nat with (S (length pre)) in IH by lia. rewrite IH.
    destruct (list_find _ rest) as [[j o1]|]; cbn; [f_equal; lia|done].
Qed.

Lemma choose_one j o l c : l !! j = Some o →
  selectOne (set_options (choose (js "select-one") j l) c) = VStr (optionValue o).
Proof.
  intros Hj. unfold choose. rewrite bool_decide_true by done.
  assert (list_find (λ o, o_selected o = true) (imap (λ j' o, set_selected (bool_decide (j' = j)) o) l)
    = Some (j, set_selected true o)) as Hf.
  { apply list_find_Some. rewrite list_lookup_imap, Hj. cbn. rewrite bool_decide_true by done.
    split_and!; [done..|]. intros j' o' Hl Hlt. rewrite list_lookup_imap in Hl.
    destruct (l !! j') as [o1|]; [|done]. injection Hl as <-. cbn. rewrite bool_decide_false by lia. done. }
  unfold selectOne, selectedIndex. cbn [set_options c_options]. rewrite Hf. cbn.
  rewrite list_lookup_imap, Hj. reflexivity.
Qed.

Lemma value_of_input c : c_tag c = js "input" →
  value_of c = if is_selector c then inputSelector_get c else VStr (c_value c).
Proof. intros H. unfold value_of. by rewrite bool_decide_true. Qed.
Lemma value_of_textarea c : c_tag c = js "textarea" → value_of c = VStr (c_value c).
Proof. intros H. unfold value_of. by rewrite H. Qed.
Lemma value_of_select c : c_tag c = js "select" →
  value_of c = if bool_decide (c_type c = js "select-one") then selectOne c else selectMany c.
Proof. intros H. unfold value_of. by rewrite H. Qed.

Lemma select_set_one c v : c_type c = js "select-one" →
  selectOne (select_set c (VStr v)) =
  if bool_decide (v ∈ optionValue <$> c_options c) then VStr v else selectOne c.
Proof.
  intros Ht. unfold select_set.
  pose proof (select_single_run (c_type c) v (c_options c) []) as Hrun. cbn [app length Nat.add] in Hrun.
  rewrite Hrun, Ht.
  destruct (list_find _ (c_options c)) as [[j o]|] eqn:Hf.
  - apply list_find_Some in Hf as (Hj & <- & _). rewrite (choose_one j o) by done.
    rewrite bool_decide_true; [done|]. apply list_elem_of_fmap. exists o. split; [done|].
    by eapply list_elem_of_lookup_2.
  - rewrite bool_decide_false; [by destruct c|]. intros (o & -> & Ho)%list_elem_of_fmap.
    destruct (list_find_elem_of (λ o', optionValue o' = optionValue o) (c_options c) o) as [? Hs]; [done..|].
    by rewrite Hf in Hs.
Qed.

Lemma select_set_many c vs : c_options c ≠ [] → selectMany (select_set c (VArr vs)) =
  VArr ((VStr ∘ optionValue) <$>
    List.filter (λ o, existsb (λ v, strict_eq v (VStr (optionValue o))) vs) (c_options c)).
Proof.
  intros Hne. rewrite <- selected_values_set. unfold selectMany, select_set. cbn [set_options c_options].
  by destruct (c_options c).
Qed.

(** What is set is read back: a text as it is; a check box or radio button
    gives its value when something true was set and [null] otherwise; a list
    with one choice gives the value when one of its options has it and is left
    alone when none has; a list with several choices gives the values of its
    options that were asked for, in the order of the list. *)
Theorem setValue_getValue {S} (c : control) (value : jsv) (s : S) : serializable c →
  ∃ c', setValue c value s = (Ret c', s) ∧ getValue c' s = (Ret (value_of c'), s) ∧
  (c_tag c = js "textarea" ∨ c_tag c = js "input" ∧ is_selector c = false → value_of c' = VStr (string_of value)) ∧
  (c_tag c = js "input" → is_selector c = true →
    value_of c' = if js_true value then VStr (c_value c) else VNull) ∧
  (∀ v, c_tag c = js "select" → c_type c = js "select-one" → value = VStr v →
    value_of c' = if bool_decide (v ∈ optionValue <$> c_options c) then VStr v else value_of c) ∧
  (∀ vs, c_tag c = js "select" → c_type c ≠ js "select-one" → c_options c ≠ [] → value = VArr vs →
    value_of c' = VArr ((VStr ∘ optionValue) <$>
      List.filter (λ o, existsb (λ v, strict_eq v (VStr (optionValue o))) vs) (c_options c))).
Proof.
  intros Hser. unfold setValue.
  assert (∀ c', c_tag c' = c_tag c → getValue c' s = (Ret (value_of c'), s)) as Hget.
  { intros c' Ht. apply getValue_run. unfold serializable. by rewrite Ht. }
  case_bool_decide as Hi; [|case_bool_decide as Ht; [|case_bool_decide as Hs]].
  - eexists. split; [reflexivity|]. split; [apply Hget; by destruct (is_selector c)|].
    rewrite Hi. split_and!; try done.
    + intros [? | [_ Hsel]]; [done|]. rewrite Hsel, value_of_input by done.
      change (is_selector (set_value _ c)) with (is_selector c). by rewrite Hsel.
    + intros _ Hsel. rewrite Hsel, value_of_input by done.
      change (is_selector (set_checked _ c)) with (is_selector c). by rewrite Hsel.
  - eexists. split; [reflexivity|]. split; [by apply Hget|]. rewrite Ht. split_and!; try done.
    intros _. by rewrite value_of_textarea.
  - assert (c_tag (select_set c value) = c_tag c ∧ c_type (select_set c value) = c_type c) as [Htag Htype]
      by (by destruct value).
    eexists. split; [reflexivity|]. split; [by apply Hget|].
    rewrite !value_of_select, Htype, Hs by (by rewrite ?Htag). split_and!; [by intros [? | [? _]]|done| |].
    + intros v _ Hone ->. rewrite Hone, bool_decide_true by done. by apply select_set_one.
    + intros vs _ Hmany Hne ->. rewrite bool_decide_false by done. by apply select_set_many.
  - exfalso. unfold serializable in Hser. set_solver.
Qed.

Definition sample_list : control := Control (js "select") (js "select-one") (js "level") [] false false
  [Opt (Some (js "1")) (js "Info") true; Opt None (js "Warn") false] None.

Lemma setValue_getValue_witness : ∃ c', setValue sample_list (VStr (js "Warn")) () = (Ret c', ()) ∧
  value_of c' = VStr (js "Warn") ∧ value_of sample_list = VStr (js "1").
Proof.
  destruct (setValue_getValue sample_list (VStr (js "Warn")) ()) as (c' & Hrun & _ & _ & _ & Hone & _).
  - apply (bool_decide_unpack _). vm_compute. exact I.
  - exists c'. split; [exact Hrun|]. split; [|vm_compute; reflexivity].
    rewrite (Hone (js "Warn")) by reflexivity. vm_compute. reflexivity.
Defined.
