(* ===== verification/JsFloat.v ===== *)
(** * Rounding errors

    How far [round_q] is from the exact value, and what follows for sums,
    products and quotients: they are finite and close as long as the values
    stay far below the largest double. *)

From Stdlib Require Import ZArith QArith Qreduction Qabs Lqa.
From S2P Require Import Prelude JsBase JsNum.
#[local] Open Scope Z_scope.
#[local] Open Scope stdpp_scope.

(** ** The error of one rounding *)

Lemma rne_error n d : 0 ≤ n → 0 < d → 2 * Z.abs (rne n d * d - n) ≤ d ∧ 0 ≤ rne n d.
Proof.
  intros Hn Hd. pose proof (Z.div_mod n d ltac:(lia)). pose proof (Z.mod_pos_bound n d Hd).
  pose proof (Z.div_pos n d Hn Hd). unfold rne.
  destruct (Z.ltb_spec (2 * (n mod d)) d); [nia|].
  destruct (Z.ltb_spec d (2 * (n mod d))); [nia|]. destruct (Z.even (n / d)); nia.
Qed.

(** [2^l ≤ n / d] without division. *)
Definition pow_le (d l n : Z) : Prop := (0 ≤ l → d * 2 ^ l ≤ n) ∧ (l < 0 → d ≤ n * 2 ^ (- l)).

Lemma pow_le_below n d : 0 < n → 0 < d → pow_le d (Z.log2 n - Z.log2 d - 1) n.
Proof.
  intros Hn Hd. pose proof (Z.log2_spec n Hn) as [Hn1 _]. pose proof (Z.log2_spec d Hd) as [_ Hd2].
  pose proof (Z.log2_nonneg n). pose proof (Z.log2_nonneg d).
  set (a := Z.log2 n) in *. set (c := Z.log2 d) in *. split; intros Hl.
  - transitivity (2 ^ Z.succ c * 2 ^ (a - c - 1)).
    + apply Z.mul_le_mono_nonneg_r; [apply Z.pow_nonneg; lia|lia].
    + rewrite <- Z.pow_add_r by lia. by replace (Z.succ c + (a - c - 1)) with a by lia.
  - transitivity (2 ^ a * 2 ^ (- (a - c - 1))).
    + rewrite <- Z.pow_add_r by lia. replace (a + - (a - c - 1)) with (Z.succ c) by lia. lia.
    + apply Z.mul_le_mono_nonneg_r; [apply Z.pow_nonneg; lia|lia].
Qed.

(** The unit in the last place is at most [2^-52] of the value, except for
    the smallest values. *)
Lemma ulp_exp_spec n d : 0 < n → 0 < d →
  ulp_exp n d = -1074 ∨ pow_le (d * 2 ^ 52) (ulp_exp n d) n.
Proof.
  intros Hn Hd. unfold ulp_exp. set (l0 := Z.log2 n - Z.log2 d).
  set (l := if 0 <=? l0 then _ else _). assert (pow_le d l n) as [Hp Hm].
  { pose proof (pow_le_below n d Hn Hd) as Hb. fold l0 in Hb. subst l.
    destruct (Z.leb_spec 0 l0); [destruct (Z.leb_spec (d * 2 ^ l0) n) | destruct (Z.leb_spec d (n * 2 ^ (- l0)))];
      try done; split; intros; lia. }
  clearbody l. destruct (Z.le_gt_cases (l - 52) (-1074)) as [|Hl]; [left; lia|right].
  rewrite Z.max_l by lia. split; intros He.
  - rewrite <- Z.mul_assoc, <- Z.pow_add_r by lia. replace (52 + (l - 52)) with l by lia. apply Hp. lia.
  - destruct (Z.le_gt_cases 0 l) as [Hl0|Hl0].
    + specialize (Hp Hl0). replace (2 ^ 52) with (2 ^ l * 2 ^ (- (l - 52))).
      * assert (0 < 2 ^ (- (l - 52))) by (apply Z.pow_pos_nonneg; lia). nia.
      * rewrite <- Z.pow_add_r by lia. f_equal. lia.
    + specialize (Hm Hl0). replace (- (l - 52)) with (- l + 52) by lia.
      rewrite Z.pow_add_r by lia. nia.
Qed.

Lemma round_frac_error n d a b : 0 < n → 0 < d → round_frac n d = (a, b) →
  0 < b ∧ 0 ≤ a ∧ (2 * 2 ^ 52 * Z.abs (a * d - n * b) ≤ n * b ∨ b = 2 ^ 1074 ∧ 2 * Z.abs (a * d - n * b) ≤ d).
Proof.
  intros Hn Hd. unfold round_frac. pose proof (ulp_exp_spec n d Hn Hd) as Hu.
  set (e := ulp_exp n d) in *. destruct (Z.leb_spec 0 e) as [He|He]; intros [= <- <-].
  - destruct Hu as [Hu|[Hu _]]; [lia|]. specialize (Hu He).
    assert (0 < 2 ^ e) by (apply Z.pow_pos_nonneg; lia).
    destruct (rne_error n (d * 2 ^ e)) as [Hr H0]; [lia|nia|]. set (m := rne n (d * 2 ^ e)) in *.
    split_and!; [lia|nia|]. left. replace (m * 2 ^ e * d - n * 1) with (m * (d * 2 ^ e) - n) by ring. lia.
  - assert (0 < 2 ^ (- e)) by (apply Z.pow_pos_nonneg; lia).
    destruct (rne_error (n * 2 ^ (- e)) d) as [Hr H0]; [nia|lia|]. set (m := rne (n * 2 ^ (- e)) d) in *.
    split_and!; [lia|lia|]. destruct Hu as [Hu|[_ Hu]].
    + right. rewrite Hu. split; [done|]. rewrite Hu in Hr. exact Hr.
    + left. specialize (Hu He). lia.
Qed.

(** ** Errors of rationals *)

(** The largest error for values of magnitude at most one. *)
Definition ulp : Q := 1 # 2 ^ 53.
Definition tiny : Q := 1 # 2 ^ 1074.

#[local] Open Scope Q_scope.

Lemma Qle_frac a b c d : (0 < b)%Z → (0 < d)%Z →
  (a # Z.to_pos b) <= (c # Z.to_pos d) ↔ (a * d ≤ c * b)%Z.
Proof. intros. unfold Qle. cbn [Qnum Qden]. by rewrite !Z2Pos.id. Qed.

Lemma Qabs_diff a b n d : (0 < b)%Z → (0 < d)%Z →
  Qabs ((a # Z.to_pos b) - (n # Z.to_pos d)) == (Z.abs (a * d - n * b) # Z.to_pos (b * d)).
Proof.
  intros Hb Hd. rewrite Z2Pos.inj_mul by done. unfold Qminus, Qplus, Qopp. cbn [Qnum Qden Qabs].
  rewrite !Z2Pos.id by done. replace (a * d + - n * b)%Z with (a * d - n * b)%Z by ring. reflexivity.
Qed.

Lemma tiny_pos : 0 <= tiny.
Proof. unfold tiny, Qle. cbn [Qnum Qden]. lia. Qed.

Lemma round_pos_error n d : (0 < n)%Z → (0 < d)%Z → (n ≤ 2 ^ 1000 * d)%Z →
  ∃ q, round_pos n d = Fin q ∧ Qabs (q - (n # Z.to_pos d)) <= (n # Z.to_pos d) * ulp + tiny.
Proof.
  intros Hn Hd Hle. unfold round_pos. destruct (round_frac n d) as [a b] eqn:Hr.
  destruct (round_frac_error n d a b Hn Hd Hr) as (Hb & Ha & Herr).
  assert (a < 2 ^ 1024 * b)%Z as Hfin.
  { assert (a * d ≤ 2 * (n * b) + d)%Z as Had by (destruct Herr as [H|[_ H]]; nia).
    assert (n * b ≤ 2 ^ 1000 * d * b)%Z by (apply Z.mul_le_mono_nonneg_r; lia).
    assert (a ≤ 2 * 2 ^ 1000 * b + 1)%Z as Hab.
    { apply (Z.mul_le_mono_pos_r _ _ d); [done|]. lia. }
    assert (2 * 2 ^ 1000 * b + 1 < 2 ^ 1024 * b)%Z; [|lia].
    assert (2 * 2 ^ 1000 + 1 < 2 ^ 1024)%Z as Hc by reflexivity.
    revert Hc. generalize (2 * 2 ^ 1000)%Z, (2 ^ 1024)%Z. intros. nia. }
  rewrite (proj2 (Z.leb_gt _ _)) by lia. exists (Qred (a # Z.to_pos b)). split; [done|].
  rewrite Qred_correct, Qabs_diff by done.
  assert (0 <= (n # Z.to_pos d) * ulp) as H0.
  { apply Qmult_le_0_compat; [unfold Qle; cbn; lia|]. unfold ulp, Qle. cbn [Qnum Qden]. lia. }
  destruct Herr as [H|[-> H]].
  - apply (Qle_trans _ ((n # Z.to_pos d) * ulp)); [|pose proof tiny_pos; lra].
    unfold ulp, Qmult. cbn [Qnum Qden].
    replace (Z.to_pos d * 2 ^ 53)%positive with (Z.to_pos (d * 2 ^ 53)) by (rewrite Z2Pos.inj_mul by lia; reflexivity).
    apply Qle_frac; [nia|nia|]. replace (2 * 2 ^ 52)%Z with (2 ^ 53)%Z in H by reflexivity.
    replace (Z.abs (a * d - n * b) * (d * 2 ^ 53))%Z with (2 ^ 53 * Z.abs (a * d - n * b) * d)%Z by ring.
    replace (n * 1 * (b * d))%Z with (n * b * d)%Z by ring. apply Z.mul_le_mono_nonneg_r; lia.
  - apply (Qle_trans _ tiny); [|lra]. unfold tiny.
    change (1 # 2 ^ 1074) with (1 # Z.to_pos (2 ^ 1074)). apply Qle_frac; [|reflexivity|].
    + apply Z.mul_pos_pos; [reflexivity|done].
    + assert (0 < 2 ^ 1074)%Z by reflexivity. revert H. generalize (Z.abs (a * d - n * 2 ^ 1074)). intros z Hz.
      generalize dependent (2 ^ 1074)%Z. intros. nia.
Qed.

(** Rounding a number far below the largest double is finite and off by at
    most [2^-53] of it. *)
Theorem round_q_error q : Qabs q <= inject_Z (2 ^ 1000) →
  ∃ r, round_q q = Fin r ∧ Qabs (r - q) <= Qabs q * ulp + tiny.
Proof.
  intros Hq. unfold round_q. destruct q as [[|p|p] d]; cbn [Qnum Qden].
  - exists 0. split; [done|]. assert (0 # d == 0) as -> by reflexivity.
    assert (Qabs (0 - 0) == 0) as -> by reflexivity. assert (Qabs 0 == 0) as -> by reflexivity.
    pose proof tiny_pos. lra.
  - apply (round_pos_error (Zpos p) (Zpos d)); [done|done|].
    unfold Qle in Hq. cbn [Qabs Qnum Qden inject_Z Z.abs] in Hq. lia.
  - destruct (round_pos_error (Zpos p) (Zpos d)) as (r & Hr & Herr); [done|done| |].
    + unfold Qle in Hq. cbn [Qabs Qnum Qden inject_Z Z.abs] in Hq. lia.
    + rewrite Hr. exists (Qred (- r)). split; [done|]. rewrite Qred_correct.
      cbn [Z.to_pos] in Herr.
      assert (- r - (Zneg p # d) == - (r - (Zpos p # d))) as ->.
      { assert (Zneg p # d == - (Zpos p # d)) as -> by reflexivity. ring. }
      rewrite Qabs_opp. exact Herr.
Qed.

(** ** Whole numbers *)

(** [x] is the number [k]. *)
Definition whole (x : num) (k : Z) : Prop := ∃ q, x = Fin q ∧ q == inject_Z k.

Lemma whole_int k : whole (int k) k.
Proof. by exists (inject_Z k). Qed.

Lemma rne_exact m d : (0 < d)%Z → rne (m * d) d = m.
Proof.
  intros Hd. unfold rne. rewrite Z.mod_mul, Z.div_mul by lia.
  destruct (Z.ltb_spec (2 * 0) d); [done|lia].
Qed.

Lemma round_frac_exact k d : (0 < k < 2 ^ 53)%Z → (0 < d)%Z →
  ∃ b, (0 < b)%Z ∧ round_frac (k * d) d = ((k * b)%Z, b).
Proof.
  intros Hk Hd. unfold round_frac. pose proof (ulp_exp_spec (k * d) d ltac:(nia) Hd) as Hu.
  set (e := ulp_exp (k * d) d) in *. clearbody e. destruct (Z.leb_spec 0 e) as [He|He].
  - destruct Hu as [Hu|[Hu _]]; [lia|]. specialize (Hu He).
    assert (e = 0)%Z as ->.
    { destruct (Z.eq_dec e 0%Z) as [|Hne]; [done|].
      assert (2 ^ 1 ≤ 2 ^ e)%Z as H1 by (apply Z.pow_le_mono_r; lia). exfalso.
      assert (d * 2 ^ 52 * 2 ^ 1 ≤ k * d)%Z as H2 by nia.
      assert (2 ^ 53 ≤ k)%Z; [|lia]. apply (Z.mul_le_mono_pos_r _ _ d); [done|].
      replace (2 ^ 53 * d)%Z with (d * 2 ^ 52 * 2 ^ 1)%Z by (change (2 ^ 53)%Z with (2 ^ 52 * 2 ^ 1)%Z; ring). done. }
    exists 1%Z. split; [done|]. rewrite Z.pow_0_r, !Z.mul_1_r, rne_exact by done. done.
  - exists (2 ^ (- e))%Z. split; [apply Z.pow_pos_nonneg; lia|].
    replace (k * d * 2 ^ (- e))%Z with (k * 2 ^ (- e) * d)%Z by ring. by rewrite rne_exact.
Qed.

(** Whole numbers below [2^53] are not rounded. *)
Lemma round_q_whole q k : (Z.abs k < 2 ^ 53)%Z → q == inject_Z k → whole (round_q q) k.
Proof.
  intros Hk Hq. unfold round_q. destruct q as [n d]. unfold Qeq in Hq. cbn [Qnum Qden inject_Z] in *.
  assert (∀ m, (0 < m < 2 ^ 53)%Z → whole (round_pos (m * Zpos d) (Zpos d)) m) as Hpos.
  { intros m Hm. unfold round_pos. destruct (round_frac_exact m (Zpos d) Hm) as (b & Hb & ->); [done|].
    rewrite (proj2 (Z.leb_gt _ _)).
    - eexists. split; [reflexivity|]. rewrite Qred_correct. unfold Qeq. cbn [Qnum Qden inject_Z].
      rewrite Z2Pos.id by done. lia.
    - assert (2 ^ 53 < 2 ^ 1024)%Z by reflexivity. nia. }
  destruct n as [|p|p].
  - exists 0. split; [done|]. assert (k = 0)%Z as -> by nia. reflexivity.
  - specialize (Hpos k ltac:(nia)). replace (k * Zpos d)%Z with (Zpos p) in Hpos by lia. done.
  - specialize (Hpos (- k)%Z ltac:(nia)). replace (- k * Zpos d)%Z with (Zpos p) in Hpos by lia.
    destruct Hpos as (r & -> & Hr). cbn [num_neg]. eexists. split; [reflexivity|].
    rewrite Qred_correct, Hr, <- inject_Z_opp, Z.opp_involutive. reflexivity.
Qed.

Lemma whole_add x y i j : whole x i → whole y j → (Z.abs (i + j) < 2 ^ 53)%Z → whole (num_add x y) (i + j).
Proof.
  intros (p & -> & Hp) (q & -> & Hq) Hb. cbn [num_add]. apply round_q_whole; [done|].
  by rewrite Hp, Hq, inject_Z_plus.
Qed.
Lemma whole_neg x i : whole x i → whole (num_neg x) (- i).
Proof.
  intros (p & -> & Hp). cbn [num_neg]. eexists. split; [reflexivity|].
  by rewrite Qred_correct, Hp, inject_Z_opp.
Qed.
Lemma whole_sub x y i j : whole x i → whole y j → (Z.abs (i - j) < 2 ^ 53)%Z → whole (num_sub x y) (i - j).
Proof. intros Hx Hy Hb. unfold num_sub. apply whole_add; [done|by apply whole_neg|done]. Qed.
Lemma whole_ltb x y i j : whole x i → whole y j → num_ltb x y = (i <? j)%Z.
Proof.
  intros (p & -> & Hp) (q & -> & Hq). apply bool_eq_iff.
  rewrite num_ltb_Fin, Hp, Hq, Z.ltb_lt, <- Zlt_Qlt. done.
Qed.
Lemma whole_eqb x y i j : whole x i → whole y j → num_eqb x y = (i =? j)%Z.
Proof.
  intros (p & -> & Hp) (q & -> & Hq). apply bool_eq_iff. cbn [num_eqb].
  rewrite Qeq_bool_iff, Hp, Hq, Z.eqb_eq. by rewrite inject_Z_injective.
Qed.
Lemma whole_clamp lo hi v a b k : whole lo a → whole hi b → whole v k → (a ≤ b)%Z →
  whole (num_clamp lo hi v) (Z.max a (Z.min b k)).
Proof.
  intros Ha Hb Hk Hab. unfold num_clamp, num_gtb. rewrite (whole_ltb v lo k a) by done.
  destruct (Z.ltb_spec k a).
  - rewrite (whole_ltb hi lo b a) by done. rewrite (proj2 (Z.ltb_ge b a)) by lia.
    by replace (Z.max a (Z.min b k)) with a by lia.
  - rewrite (whole_ltb hi v b k) by done. destruct (Z.ltb_spec b k).
    + by replace (Z.max a (Z.min b k)) with b by lia.
    + by replace (Z.max a (Z.min b k)) with k by lia.
Qed.

(** A number within a millionth of a whole one is that one to five places. *)
Lemma fixed_pos_near w k : (0 ≤ k ≤ 10 ^ 6)%Z → 0 <= w → Qabs (w - inject_Z k) <= 1 # 1000000 →
  whole (fixed_pos 5 w) k.
Proof.
  intros Hk Hw Hn. unfold fixed_pos. destruct w as [n d]. cbn [Qmult Qnum Qden inject_Z].
  set (den := (d * 1)%positive). assert (Zpos den = Zpos d) as Hden by lia.
  assert (10 * Z.abs (n * 10 ^ 5 - k * 10 ^ 5 * Zpos d) ≤ Zpos d)%Z as Hz.
  { unfold Qle in Hn. unfold Qminus, Qplus, Qopp, inject_Z in Hn. cbn [Qabs Qnum Qden] in Hn. lia. }
  replace ((2 * (n * 10 ^ 5) + Zpos den) / (2 * Zpos den))%Z with (k * 10 ^ 5)%Z.
  - apply round_q_whole; [lia|]. unfold Qeq. cbn [Qnum Qden inject_Z]. rewrite Z2Pos.id by reflexivity. ring.
  - apply (Z.div_unique_pos _ _ _ (2 * (n * 10 ^ 5) + Zpos den - 2 * Zpos den * (k * 10 ^ 5))); lia.
Qed.

Lemma to_fixed_near w k : (0 ≤ k ≤ 10 ^ 6)%Z → Qabs (w - inject_Z k) <= 1 # 1000000 →
  whole (to_fixed 5 (Fin w)) k.
Proof.
  intros Hk Hn. pose proof Hn as [Hl Hu]%Qabs_Qle_condition.
  assert (0 <= inject_Z k <= inject_Z (10 ^ 6)) as [Hk0 Hk1].
  { split; rewrite <- ?(Zle_Qle 0), <- ?Zle_Qle; lia. }
  unfold to_fixed.
  assert (Qle_bool (inject_Z (10 ^ 21)) w = false) as ->.
  { apply not_true_iff_false. rewrite Qle_bool_iff. intros H.
    assert (inject_Z (10 ^ 6) + 1 < inject_Z (10 ^ 21)) by reflexivity. lra. }
  assert (Qle_bool w (inject_Z (- 10 ^ 21)) = false) as ->.
  { apply not_true_iff_false. rewrite Qle_bool_iff. intros H.
    assert (inject_Z (- 10 ^ 21) < -1) by reflexivity. lra. }
  cbn [orb]. destruct (Z.ltb_spec (Qnum w) 0) as [Hs|Hs].
  - assert (w < 0) by (unfold Qlt; cbn; lia).
    assert (k = 0)%Z as ->.
    { assert (inject_Z k < inject_Z 1) as Hlt by (change (inject_Z 1) with 1; lra).
      rewrite <- Zlt_Qlt in Hlt. lia. }
    replace 0%Z with (- 0)%Z by lia. apply whole_neg, fixed_pos_near; [lia|lra|].
    rewrite <- Qabs_opp. assert (- (- w - inject_Z 0) == w - inject_Z 0) as -> by (change (inject_Z 0) with 0; ring).
    done.
  - apply fixed_pos_near; [done| |done]. unfold Qle. cbn. lia.
Qed.

(** Rounding numbers up to 64. *)
Definition eps : Q := 1 # 10000000.
Lemma round_q_near q : Qabs q <= 64 → ∃ r, round_q q = Fin r ∧ Qabs (r - q) <= eps.
Proof.
  intros Hq. destruct (round_q_error q) as (r & Hr & Herr).
  - apply (Qle_trans _ 64); [done|]. change 64 with (inject_Z 64). rewrite <- Zle_Qle. done.
  - exists r. split; [done|]. assert (Qabs q * ulp <= 64 * ulp) as H1.
    { apply Qmult_le_compat_r; [done|]. unfold ulp, Qle. cbn. lia. }
    assert (64 * ulp + tiny <= eps) by (unfold Qle; vm_compute; discriminate). lra.
Qed.
