(* ===== verification/Mouse.v ===== *)
(** * The mouse plugin (ui.core.js: $.ui.mouse)

    A widget supplies four methods; the plugin turns the events of the
    browser into calls of them. *)

From Stdlib Require Import ZArith.
From S2P Require Import Prelude JsBase JsNum.
#[local] Open Scope Z_scope.
#[local] Open Scope stdpp_scope.

(** A mouse event: the position, whether the left button caused it and one is
    pressed, the element below and whether another widget has handled it. *)
Record mouse_event := MouseEvent {
  pageX : Z; pageY : Z; is_left : bool; button : bool; target : nat; mouseHandled : bool;
}.

(** What a widget overrides. *)
Class MouseWidget (W : Type) := {
  mouse_capture : mouse_event → JS W bool;
  mouse_start : mouse_event → JS W bool;
  mouse_drag : mouse_event → JS W ();
  mouse_stop : mouse_event → JS W ();
}.

(** The calls of these methods, with what the first two return; a call of
    [_mouseCapture] that throws takes nothing, [None] is a [_mouseStart] that
    throws. *)
Inductive call := Capture (taken : bool) | Start (started : option bool) | Drag | Stop.

(** [_mouseMoveDelegate] and [_mouseUpDelegate] are functions made anew for
    each press: [delegate] is how many pairs were made, and the last of them is
    what the two properties hold; [bound] are the pairs bound to the document,
    in their order. *)
Record mouse := Mouse {
  mouseStarted : bool;
  mouseDownEvent : option mouse_event;
  mouseDelayMet : bool;
  delegate : nat;
  bound : list nat;
  preventClickEvent : bool;
  calls : list call;             (* the calls made so far *)
}.

(** The options [distance], [delay] and whether [cancel] excludes an element. *)
Record mouse_options := MouseOptions { distance : Z; delay : Z; cancels : nat → bool; msie : bool }.

Section mouse.
Context {W : Type} `{MouseWidget W} (o : mouse_options).

#[local] Abbreviation M := (JS (mouse * W)).

Definition change_mouse (f : mouse → mouse) : M () := js_modify (λ s, (f s.1, s.2)).
Definition set_started (b : bool) (m : mouse) : mouse :=
  Mouse b (mouseDownEvent m) (mouseDelayMet m) (delegate m) (bound m) (preventClickEvent m) (calls m).
Definition set_down (e : mouse_event) (m : mouse) : mouse :=
  Mouse (mouseStarted m) (Some e) (mouseDelayMet m) (delegate m) (bound m) (preventClickEvent m) (calls m).
Definition set_delay (b : bool) (m : mouse) : mouse :=
  Mouse (mouseStarted m) (mouseDownEvent m) b (delegate m) (bound m) (preventClickEvent m) (calls m).
Definition set_bound (k : nat) (l : list nat) (m : mouse) : mouse :=
  Mouse (mouseStarted m) (mouseDownEvent m) (mouseDelayMet m) k l (preventClickEvent m) (calls m).
Definition set_prevent (b : bool) (m : mouse) : mouse :=
  Mouse (mouseStarted m) (mouseDownEvent m) (mouseDelayMet m) (delegate m) (bound m) b (calls m).
Definition log_call (c : call) (m : mouse) : mouse :=
  Mouse (mouseStarted m) (mouseDownEvent m) (mouseDelayMet m) (delegate m) (bound m) (preventClickEvent m) (calls m ++ [c]).
(** A new pair of delegates is bound; the last pair is unbound, or all when
    there was none yet. *)
Definition bind_delegates (m : mouse) : mouse := set_bound (S (delegate m)) (bound m ++ [S (delegate m)]) m.
Definition unbind_delegates (m : mouse) : mouse :=
  set_bound (delegate m) (if (delegate m =? 0)%nat then [] else filter (λ i, i ≠ delegate m) (bound m)) m.

(** A method of the widget and the record of the call; a start is recorded
    with its outcome, a throw being none. *)
Definition widget {A} (record : res A → call) (m : JS W A) : M A := λ s,
  let '(r, w) := m s.2 in (r, (log_call (record r) s.1, w)).
Definition taken_by (r : res bool) : call := Capture (match r with Ret b => b | Throw _ => false end).
Definition started_by (r : res bool) : call := Start (match r with Ret b => Some b | Throw _ => None end).

Definition distance_met (m : mouse) (event : mouse_event) : bool :=
  match mouseDownEvent m with
  | Some down => distance o <=? Z.max (Z.abs (pageX down - pageX event)) (Z.abs (pageY down - pageY event))
  | None => false
  end.

Definition mouse_up (event : mouse_event) : M () :=
  change_mouse unbind_delegates ;;
  m ← js_gets fst;
  js_when (mouseStarted m)
    (change_mouse (set_started false) ;;
     change_mouse (set_prevent (match mouseDownEvent m with
                                | Some down => (target event =? target down)%nat
                                | None => false
                                end)) ;;
     widget (λ _, Stop) (mouse_stop event)).

(** [_mouseStarted = (_mouseStart(event) !== false)] *)
Definition start_now (event : mouse_event) : M bool :=
  b ← widget started_by (mouse_start event);
  change_mouse (set_started b) ;;
  mret b.

Definition mouse_down (event : mouse_event) : M () :=
  if mouseHandled event then mret ()
  else
    m ← js_gets fst;
    js_when (mouseStarted m) (mouse_up event) ;;
    change_mouse (set_down event) ;;
    if negb (is_left event) || cancels o (target event) then mret ()
    else
      captured ← widget taken_by (mouse_capture event);
      if negb captured then mret ()
      else
        change_mouse (set_delay (delay o =? 0)) ;;
        m ← js_gets fst;
        started ← (if distance_met m event && mouseDelayMet m then start_now event else mret true);
        js_when started (change_mouse bind_delegates).

Definition mouse_move (event : mouse_event) : M () :=
  m ← js_gets fst;
  if msie o && negb (button event) then mouse_up event
  else if mouseStarted m then widget (λ _, Drag) (mouse_drag event)
  else if distance_met m event && mouseDelayMet m then
    started ← start_now (default event (mouseDownEvent m));
    if started : bool then widget (λ _, Drag) (mouse_drag event) else mouse_up event
  else mret ().

(** The timer of [delay] runs. *)
Definition delay_timer : M () := change_mouse (set_delay true).

(** The click that follows a drag on one element is not passed on. *)
Definition mouse_click : M bool :=
  m ← js_gets fst;
  if preventClickEvent m then change_mouse (set_prevent false) ;; mret false else mret true.

(** ** Runs of events *)

(** Moves and releases reach the plugin through each pair bound, unless a pair
    before it has unbound it. *)
Fixpoint through (pairs : list nat) (handler : M ()) : M () :=
  match pairs with
  | [] => mret ()
  | i :: pairs => m ← js_gets fst; js_when (bool_decide (i ∈ bound m)) handler ;; through pairs handler
  end.
Inductive mouse_input := Down (e : mouse_event) | Move (e : mouse_event) | Up (e : mouse_event) | Timer | Click.
Definition mouse_step (i : mouse_input) : M () := λ s,
  match i with
  | Down e => mouse_down e s
  | Move e => through (bound s.1) (mouse_move e) s
  | Up e => through (bound s.1) (mouse_up e) s
  | Timer => delay_timer s
  | Click => (mouse_click ;; mret ()) s
  end.
(** An event whose handler throws leaves the state it reached. *)
Definition mouse_run (l : list mouse_input) (s : mouse * W) : mouse * W :=
  fold_left (λ s i, (mouse_step i s).2) l s.

End mouse.

(** The plugin before any event. *)
Definition idle_mouse : mouse := Mouse false None false 0 [] false [].

(** ** The protocol of the calls *)

(** [Armed]: the mouse was taken, and no drag is on. *)
Inductive phase := Idle | Armed | Dragging.
(** The calls a widget can expect: a drag starts after the mouse was taken and
    when none is on, moves and stops only when one is, and the mouse is
    captured only between drags.  The [strict] protocol wants the mouse taken
    for each drag, by the last press. *)
Definition protocol_step (strict : bool) (p : option phase) (c : call) : option phase :=
  match p, c with
  | Some Idle, Capture b => Some (if b then Armed else Idle)
  | Some Armed, Capture b => Some (if b || negb strict then Armed else Idle)
  | Some Armed, Start (Some true) => Some Dragging
  | Some Armed, Start (Some false) => Some (if strict then Idle else Armed)
  | Some Armed, Start None => Some Armed
  | Some Dragging, Drag => Some Dragging
  | Some Dragging, Stop => Some (if strict then Idle else Armed)
  | _, _ => None
  end.
Definition protocol (strict : bool) (l : list call) : option phase := fold_left (protocol_step strict) l (Some Idle).
#[global] Arguments protocol : simpl never.
Lemma protocol_snoc strict l c : protocol strict (l ++ [c]) = protocol_step strict (protocol strict l) c.
Proof. unfold protocol. by rewrite fold_left_app. Qed.

(** What a handler finds: the phase the calls are in; one with the handlers
    bound and no drag is [Armed]; strictly, no old pairs are bound. *)
Definition in_phase (strict : bool) (p : phase) (m : mouse) : Prop :=
  protocol strict (calls m) = Some p ∧ (p = Dragging ↔ mouseStarted m = true) ∧
  (strict = true → bound m = [] ∨ bound m = [delegate m] ∧ delegate m ≠ 0%nat).
Definition follows (strict : bool) (m : mouse) : Prop :=
  ∃ p, in_phase strict p m ∧ (mouseStarted m = false → bound m ≠ [] → p = Armed).

Section protocol.
Context {W : Type} `{MouseWidget W} (o : mouse_options) (strict : bool).

Definition ends_following {A} (m : JS (mouse * W) A) (s : mouse * W) : Prop := follows strict (m s).2.1.

Lemma bind_change {B} f (k : JS (mouse * W) B) s : (change_mouse f ;; k) s = k (f s.1, s.2).
Proof. reflexivity. Qed.
Lemma unbound p m : in_phase strict p m → strict = true → bound (unbind_delegates m) = [].
Proof.
  intros (_ & _ & Hb) Hs. cbn. destruct (Hb Hs) as [->|[-> Hd]]; [by destruct (_ =? _)%nat|].
  destruct (Nat.eqb_spec (delegate m) 0); [done|]. by rewrite filter_cons_False by auto.
Qed.
Lemma unbound_in p m : in_phase strict p m → in_phase strict p (unbind_delegates m).
Proof.
  intros Hp. pose proof (unbound p m Hp) as Hu. destruct Hp as (H1 & H2 & _). split_and!; [done|done|]. intros Hs. left. by apply Hu.
Qed.
Lemma some_unbound m : bound (unbind_delegates m) ≠ [] → bound m ≠ [].
Proof. cbn. intros Hu Hb. rewrite Hb in Hu. by destruct (_ =? _)%nat. Qed.

(** A release ends what there is, also of a drag that did not start. *)
Lemma mouse_up_follows e p s : in_phase strict p s.1 → (strict = false → mouseStarted s.1 = false → bound s.1 ≠ [] → p = Armed) →
  ends_following (mouse_up e) s ∧ mouseStarted (mouse_up e s).2.1 = false ∧ (strict = true → bound (mouse_up e s).2.1 = []).
Proof.
  destruct s as [m w]. cbn [fst]. intros Hp Ha. pose proof (unbound_in p m Hp) as Hp'. pose proof (unbound p m Hp) as Hu.
  unfold ends_following, mouse_up. rewrite bind_change, js_bind_gets. cbn [fst snd]. unfold js_when.
  change (mouseStarted (unbind_delegates m)) with (mouseStarted m). destruct (mouseStarted m) eqn:Hm.
  - rewrite !bind_change. unfold widget. cbn [fst snd]. destruct (mouse_stop e w) as [r w']. cbn [fst snd].
    destruct Hp' as (H1 & H2 & H3). destruct p; try by (destruct H2 as [_ H2]; specialize (H2 Hm)).
    split_and!; [|done|done]. exists (if strict then Idle else Armed). split.
    + split_and!; [|by destruct strict|done]. cbn [calls log_call set_prevent set_started]. rewrite protocol_snoc.
      by rewrite H1.
    + intros _ Hb. destruct strict; [by destruct Hb; apply Hu|done].
  - cbn [fst snd mret]. split_and!; [|done|done]. exists p. split; [done|]. intros _ Hb. destruct strict eqn:Hs.
    + by destruct Hb; apply Hu.
    + apply Ha; [done|done|]. by apply some_unbound.
Qed.
Lemma follows_up e s : follows strict s.1 → ends_following (mouse_up e) s ∧ mouseStarted (mouse_up e s).2.1 = false ∧
  (strict = true → bound (mouse_up e s).2.1 = []).
Proof. intros (p & Hp & Ha). apply (mouse_up_follows e p); [done|]. intros _. exact Ha. Qed.

(** A start with the mouse taken. *)
Lemma start_now_run e s : in_phase strict Armed s.1 → mouseStarted s.1 = false →
  let s' := (start_now e s).2 in bound s'.1 = bound s.1 ∧ delegate s'.1 = delegate s.1 ∧
  match (start_now e s).1 with
  | Ret true => in_phase strict Dragging s'.1
  | Ret false => in_phase strict (if strict then Idle else Armed) s'.1
  | Throw _ => in_phase strict Armed s'.1
  end.
Proof.
  destruct s as [m w]. cbn [fst]. intros (H1 & H2 & H3) Hm. unfold start_now, widget, change_mouse. js_unfold. cbn [fst snd].
  destruct (mouse_start e w) as [[[]|err] w'] eqn:He; cbn [fst snd]; (split; [done|]); (split; [done|]);
    (split_and!; [cbn; by rewrite protocol_snoc, H1| |done]); cbn; rewrite ?Hm; by destruct strict.
Qed.
Lemma drag_follows e s : in_phase strict Dragging s.1 → ends_following (widget (λ _, Drag) (mouse_drag e)) s.
Proof.
  destruct s as [m w]. cbn [fst]. intros (H1 & H2 & H3). unfold ends_following, widget. cbn [fst snd]. destruct (mouse_drag e w) as [r w'].
  exists Dragging. split; [split_and!; [cbn; by rewrite protocol_snoc, H1|done|done]|]. cbn. intros Hm.
  destruct H2 as [H2 _]. rewrite H2 in Hm by done. done.
Qed.
Lemma follows_bind {A B} (m : JS (mouse * W) A) (f : A → JS (mouse * W) B) s :
  ends_following m s → (∀ a s', m s = (Ret a, s') → ends_following (f a) s') → ends_following (m ≫= f) s.
Proof.
  unfold ends_following. intros Hm Hf. unfold mbind, js_mbind. destruct (m s) as [[a|e] s1] eqn:Hr; [|done]. by apply Hf.
Qed.

(** A move that reaches the plugin: a pair is bound. *)
Lemma mouse_move_follows e s : follows strict s.1 → bound s.1 ≠ [] → ends_following (mouse_move o e) s.
Proof.
  intros Hs Hb. unfold ends_following, mouse_move. rewrite js_bind_gets.
  destruct (msie o && negb (button e)); [by apply follows_up|].
  destruct Hs as (p & Hp & Ha). destruct (mouseStarted s.1) eqn:Hm.
  - apply drag_follows. replace Dragging with p; [done|]. apply Hp, Hm.
  - specialize (Ha eq_refl Hb). subst p. destruct (_ && _); [|by exists Armed].
    destruct (start_now_run (default e (mouseDownEvent s.1)) s Hp Hm) as (Hb' & Hd' & Hrun).
    unfold mbind, js_mbind. destruct (start_now _ s) as [[[]|err] s'] eqn:Hr; cbn [fst snd] in *.
    + by apply drag_follows.
    + apply (mouse_up_follows e _ s' Hrun). by intros ->.
    + by exists Armed.
Qed.

(** The press after the mouse was taken, with the last drag over. *)
Definition pressed (event : mouse_event) : JS (mouse * W) () :=
  change_mouse (set_delay (delay o =? 0)) ;;
  m ← js_gets fst;
  started ← (if distance_met o m event && mouseDelayMet m then start_now event else mret true);
  js_when started (change_mouse bind_delegates).
Lemma bound_new p m : in_phase strict p m → (strict = true → bound m = []) →
  in_phase strict p (bind_delegates m).
Proof.
  intros (H1 & H2 & _) Hb. split_and!; [done|done|]. intros Hs. right. cbn. by rewrite (Hb Hs).
Qed.
Lemma pressed_follows e s : in_phase strict Armed s.1 → mouseStarted s.1 = false → (strict = true → bound s.1 = []) →
  ends_following (pressed e) s.
Proof.
  intros Hp Hm Hb. unfold ends_following, pressed. rewrite bind_change, js_bind_gets. cbn [fst].
  set (s1 := (set_delay (delay o =? 0) s.1, s.2)). change (mouseStarted s1.1 = false) in Hm.
  assert (in_phase strict Armed s1.1) as Hp1 by exact Hp. change (strict = true → bound s1.1 = []) in Hb.
  change (set_delay _ s.1) with s1.1. clearbody s1. clear s Hp. destruct (_ && _).
  - destruct (start_now_run e s1 Hp1 Hm) as (Hb' & Hd' & Hrun).
    unfold mbind, js_mbind. destruct (start_now e s1) as [[[]|err] s'] eqn:Hr; cbn [fst snd] in *.
    + exists Dragging. split; [apply bound_new; [done|by rewrite Hb']|]. cbn. intros Hn.
      destruct Hrun as (_ & [H2 _] & _). rewrite H2 in Hn by done. done.
    + exists (if strict then Idle else Armed). split; [done|]. intros _ Hn. destruct strict; [|done]. cbn in Hn. by rewrite Hb', Hb in Hn.
    + by exists Armed.
  - exists Armed. split; [by apply bound_new|done].
Qed.

Lemma capture_phase p c m : in_phase strict p m → p ≠ Dragging → (strict = true → bound m = []) →
  ∃ p', in_phase strict p' (log_call (Capture c) m) ∧ p' ≠ Dragging ∧ (c = true → p' = Armed) ∧
    (strict = false → p = Armed → p' = Armed).
Proof.
  intros (H1 & H2 & H3) Hp Hb. assert (mouseStarted m ≠ true) as Hm by (rewrite <- H2; done).
  exists (if c || (match p with Armed => negb strict | _ => false end) then Armed else Idle). split_and!.
  - split_and!; [cbn; rewrite protocol_snoc, H1; by destruct p, c, strict| |done].
    cbn. by destruct c, p, strict.
  - by destruct c, p, strict.
  - by intros ->.
  - intros -> ->. by rewrite orb_true_r.
Qed.

Lemma mouse_down_follows e s : follows strict s.1 →
  (strict = true → mouseHandled e = true ∨ bound s.1 = [] ∨ mouseStarted s.1 = true) → ends_following (mouse_down o e) s.
Proof.
  intros Hs Ho. unfold mouse_down. destruct (mouseHandled e); [done|].
  unfold ends_following. rewrite js_bind_gets.
  destruct (follows_up e s Hs) as (Hf & Hn & Hu).
  set (rest := (change_mouse (set_down e) ;; _) : JS (mouse * W) ()).
  assert (∀ s', follows strict s'.1 → mouseStarted s'.1 = false → (strict = true → bound s'.1 = []) →
    ends_following rest s') as Hrest; [|destruct (mouseStarted s.1) eqn:Hm; cbn [js_when]].
  - clear. intros s (p & Hp & Ha) Hm Hb. subst rest. unfold ends_following. rewrite bind_change.
    destruct (_ || _); [by exists p|]. unfold widget at 1, mbind at 1, js_mbind at 1. cbn [fst snd].
    destruct (mouse_capture e s.2) as [r w'].
    assert (p ≠ Dragging) as Hd by (intros ->; destruct Hp as (_ & [H2 _] & _); rewrite H2 in Hm; done).
    destruct (capture_phase p (match r with Ret b => b | Throw _ => false end) (set_down e s.1) Hp Hd Hb)
      as (p' & Hp' & Hd' & Hc & Hk).
    assert (bound s.1 ≠ [] → p' = Armed) as Hk'.
    { intros Hne. destruct strict; [by rewrite Hb in Hne|]. apply Hk; [done|]. by apply Ha. }
    destruct r as [[]|err]; cbn [negb].
    + apply pressed_follows; [|done..]. by rewrite <- (Hc eq_refl).
    + exists p'. split; [done|]. intros _. exact Hk'.
    + exists p'. split; [done|]. intros _. exact Hk'.
  - apply follows_bind; [exact Hf|]. intros [] s' Hr.
    change (mouse_up e s = (Ret (), s')) in Hr. unfold ends_following in Hf. rewrite Hr in Hf, Hn, Hu. by apply Hrest.
  - change (ends_following rest s). apply Hrest; [done..|]. intros ->. destruct (Ho eq_refl) as [?|[?|?]]; congruence.
Qed.

Lemma through_follows (h : JS (mouse * W) ()) pairs s :
  (∀ s, follows strict s.1 → bound s.1 ≠ [] → ends_following h s) → follows strict s.1 → ends_following (through pairs h) s.
Proof.
  intros Hh. revert s. induction pairs as [|i pairs IH]; intros s Hs; [done|]. cbn [through].
  unfold ends_following. rewrite js_bind_gets. apply follows_bind.
  - destruct (bool_decide _) eqn:Hi; [|done]. apply bool_decide_eq_true in Hi. apply Hh; [done|]. intros Hb. rewrite Hb in Hi.
    by apply not_elem_of_nil in Hi.
  - intros [] s' Hr. apply IH. change (follows strict (Ret (A := ()) (), s').2.1). rewrite <- Hr.
    destruct (bool_decide _) eqn:Hi; [|by cbn in Hr; simplify_eq].
    apply bool_decide_eq_true in Hi. cbn [js_when]. apply Hh; [done|]. intros Hb. rewrite Hb in Hi. by apply not_elem_of_nil in Hi.
Qed.

(** No press comes while the handlers of one before it wait for a drag: its
    release was seen.  (A press handled by another widget does not count.) *)
Definition orderly_input (i : mouse_input) (m : mouse) : Prop :=
  match i with Down e => mouseHandled e = true ∨ bound m = [] ∨ mouseStarted m = true | _ => True end.
Fixpoint orderly (l : list mouse_input) (s : mouse * W) : Prop :=
  match l with
  | [] => True
  | i :: l => orderly_input i s.1 ∧ orderly l (mouse_step o i s).2
  end.

Lemma mouse_step_follows i s : follows strict s.1 → (strict = true → orderly_input i s.1) → follows strict (mouse_step o i s).2.1.
Proof.
  intros Hs Ho. destruct i as [e|e|e| |]; cbn [mouse_step].
  - by apply mouse_down_follows.
  - apply through_follows; [|done]. apply mouse_move_follows.
  - apply through_follows; [|done]. intros s' Hs' _. by apply follows_up.
  - done.
  - unfold mouse_click. rewrite js_bind_assoc, js_bind_gets. by destruct (preventClickEvent s.1).
Qed.
Lemma mouse_run_follows l s : follows strict s.1 → (strict = true → orderly l s) → follows strict (mouse_run o l s).1.
Proof.
  revert s. induction l as [|i l IH]; intros s Hs Ho; [done|]. apply IH.
  - apply mouse_step_follows; [done|]. intros ->. by apply Ho.
  - intros ->. by apply Ho.
Qed.
Lemma idle_follows : follows strict idle_mouse.
Proof. exists Idle. split; [split_and!; auto; done|done]. Qed.
End protocol.

(** C13. Whatever the events, whatever the methods of the widget answer or
    throw, they are called in the order of the protocol: the mouse is taken
    before a drag starts, a drag moves and stops only when it is on, only one
    is on at a time, and one is on exactly when [_mouseStarted] says so.  When
    no release of a press is missed, each drag has a press of its own, that
    the widget took after the drag before it.  (When one is missed a later
    drag may start without: see [missed_release].) *)
Theorem mouse_protocol {W : Type} `{MouseWidget W} (o : mouse_options) (l : list mouse_input) (w : W) :
  let m := (mouse_run o l (idle_mouse, w)).1 in
  (∃ p, protocol false (calls m) = Some p ∧ (p = Dragging ↔ mouseStarted m = true)) ∧
  (orderly o l (idle_mouse, w) → ∃ p, protocol true (calls m) = Some p ∧ (p = Dragging ↔ mouseStarted m = true)).
Proof.
  split; [destruct (mouse_run_follows o false l (idle_mouse, w)) as (p & (H1 & H2 & _) & _)|
    intros Ho; destruct (mouse_run_follows o true l (idle_mouse, w)) as (p & (H1 & H2 & _) & _)];
    try apply idle_follows; try done; by exists p.
Qed.

(** A widget that takes the mouse on its own element 1, and starts always. *)
Definition plain_widget : MouseWidget () := {|
  mouse_capture e := mret (target e =? 1)%nat; mouse_start _ := mret true; mouse_drag _ := mret (); mouse_stop _ := mret ();
|}.
Definition at_place (x : Z) (t : nat) : mouse_event := MouseEvent x 0 true true t false.
Definition plain_options : mouse_options := MouseOptions 5 0 (λ _, false) false.
Definition plain_run (l : list mouse_input) : mouse * () := mouse_run (H := plain_widget) plain_options l (idle_mouse, ()).

(** A drag, the press of another element, and another drag. *)
Definition two_drags : list mouse_input :=
  [Down (at_place 0 1); Move (at_place 3 1); Move (at_place 9 1); Up (at_place 9 1); Click;
   Down (at_place 0 2); Move (at_place 9 2); Up (at_place 9 2); Down (at_place 0 1); Move (at_place 9 1)].
Lemma mouse_protocol_witness :
  protocol true (calls (plain_run two_drags).1) = Some Dragging ∧
  ∃ p, protocol true (calls (plain_run two_drags).1) = Some p ∧ (p = Dragging ↔ mouseStarted (plain_run two_drags).1 = true).
Proof.
  split; [vm_compute; reflexivity|]. apply (mouse_protocol (H := plain_widget) plain_options two_drags ()).
  vm_compute. repeat (split; [tauto|]). tauto.
Defined.

(** A press whose release is missed outside the window, with no move before
    it, leaves its two handlers bound for ever when the next press comes: only
    the last pair is unbound, and moves start drags with no button down, again and again. *)
Example missed_release :
  bound (plain_run [Down (at_place 0 1); Down (at_place 0 1); Up (at_place 0 1)]).1 = [1%nat] ∧
  calls (plain_run [Down (at_place 0 1); Down (at_place 0 1); Up (at_place 0 1); Move (at_place 9 1);
    Up (at_place 9 1); Move (at_place 20 1)]).1 =
    [Capture true; Capture true; Start (Some true); Drag; Stop; Start (Some true); Drag].
Proof. vm_compute. split; reflexivity. Qed.

(** Drags come to an end: a release, or another press, stops the one that is
    on. *)
Lemma mouse_up_stops {W : Type} `{MouseWidget W} e (s : mouse * W) : mouseStarted (mouse_up e s).2.1 = false.
Proof.
  destruct s as [m w]. unfold mouse_up. rewrite bind_change, js_bind_gets. cbn [fst snd]. unfold js_when.
  change (mouseStarted (unbind_delegates m)) with (mouseStarted m). destruct (mouseStarted m) eqn:Hm; [|done].
  rewrite !bind_change. unfold widget. cbn [fst snd]. by destruct (mouse_stop e w).
Qed.
