(* ===== verification/Slider.v ===== *)
(** * The slider (ui.slider.js)

    The hour sliders of the graphs.  The widget keeps its options, among them
    the values, and what it shows; it is driven by the keyboard and, through
    the mouse plugin, by the mouse.  Values are JavaScript numbers. *)

From Stdlib Require Import ZArith.
From S2P Require Import Prelude JsBase JsNum Mouse.
#[local] Open Scope Z_scope.
#[local] Open Scope stdpp_scope.

(** ** State *)

Inductive range_option := RangeOff | RangeOn | RangeMin | RangeMax.

Record slider_options := SliderOptions {
  disabled : bool; max : num; min : num; step : num; vertical : bool;
  range : range_option; opt_value : num; opt_values : option (list num);
}.

(** What [_trigger] reports, with the index of the handle and the value. *)
Inductive slider_event :=
| EStart (index : option nat) (value : num)
| ESlide (index : nat) (value : num) (values : list num)
| EStop (index : option nat) (value : num)
| EChange (index : option nat) (value : num).

(** [shown]: the position of every handle in percent; [range_start] and
    [range_size]: what is set on the element of the range. *)
Record slider := Slider {
  options : slider_options;
  handles : nat;
  keySliding : bool;
  handleIndex : option nat;
  clickOffset : option (num * num);
  shown : list num;
  range_start : option num;
  range_size : option num;
  triggered : list slider_event;
}.

Definition set_options (o : slider_options) (s : slider) : slider :=
  Slider o (handles s) (keySliding s) (handleIndex s) (clickOffset s) (shown s) (range_start s) (range_size s) (triggered s).
Definition set_key (b : bool) (s : slider) : slider :=
  Slider (options s) (handles s) b (handleIndex s) (clickOffset s) (shown s) (range_start s) (range_size s) (triggered s).
Definition set_handle (i : option nat) (s : slider) : slider :=
  Slider (options s) (handles s) (keySliding s) i (clickOffset s) (shown s) (range_start s) (range_size s) (triggered s).
Definition set_click (c : option (num * num)) (s : slider) : slider :=
  Slider (options s) (handles s) (keySliding s) (handleIndex s) c (shown s) (range_start s) (range_size s) (triggered s).
Definition set_shown (l : list num) (a b : option num) (s : slider) : slider :=
  Slider (options s) (handles s) (keySliding s) (handleIndex s) (clickOffset s) l a b (triggered s).
Definition trigger (e : slider_event) (s : slider) : slider :=
  Slider (options s) (handles s) (keySliding s) (handleIndex s) (clickOffset s) (shown s) (range_start s) (range_size s)
    (triggered s ++ [e]).

Definition put_value (v : num) (o : slider_options) : slider_options :=
  SliderOptions (disabled o) (max o) (min o) (step o) (vertical o) (range o) v (opt_values o).
Definition put_values (l : option (list num)) (o : slider_options) : slider_options :=
  SliderOptions (disabled o) (max o) (min o) (step o) (vertical o) (range o) (opt_value o) l.
Definition put_disabled (b : bool) (o : slider_options) : slider_options :=
  SliderOptions b (max o) (min o) (step o) (vertical o) (range o) (opt_value o) (opt_values o).
Definition put_vertical (b : bool) (o : slider_options) : slider_options :=
  SliderOptions (disabled o) (max o) (min o) (step o) b (range o) (opt_value o) (opt_values o).

(** ** Values *)

(** [l[i] = v], extending the array when the index is past its end. *)
Definition set_at (i : nat) (v : num) (l : list num) : list num :=
  take i l ++ replicate (i - length l) NaN ++ [v] ++ drop (S i) l.
Definition raw_values (s : slider) : list num := default [] (opt_values (options s)).
(** [options.values && options.values.length] *)
Definition has_values (s : slider) : bool := negb (bool_decide (raw_values s = [])).

Definition valueMin (s : slider) : num := min (options s).
Definition valueMax (s : slider) : num := max (options s).
(** [_value()] and [_values(index)]: an element that does not exist is
    [undefined], which compares as [NaN] does. *)
Definition value (s : slider) : num := num_clamp (valueMin s) (valueMax s) (opt_value (options s)).
Definition values_at (s : slider) (index : nat) : num :=
  num_clamp (valueMin s) (valueMax s) (default NaN (raw_values s !! index)).
(** [this.values(index)] or [this.value()] *)
Definition current (s : slider) (index : nat) : num := if has_values s then values_at s index else value s.

(** ** Display *)

(** [(v - min) / (max - min) * 100] *)
Definition percent (s : slider) (v : num) : num :=
  num_mul (num_div (num_sub v (valueMin s)) (num_sub (valueMax s) (valueMin s))) (int 100).
Definition refreshValue (s : slider) : slider :=
  if has_values s then
    let l := (λ i, percent s (values_at s i)) <$> seq 0 (handles s) in
    match range (options s) with
    | RangeOn =>
        set_shown l
          (match l with p0 :: _ => Some p0 | [] => range_start s end)
          (match l with p0 :: p1 :: _ => Some (num_sub p1 p0) | _ => range_size s end) s
    | _ => set_shown l (range_start s) (range_size s) s
    end
  else
    let p := if num_eqb (valueMax s) (valueMin s) then int 0 else percent s (value s) in
    set_shown (match handles s with O => [] | _ => [p] end) (range_start s)
      (match range (options s) with
       | RangeMin => Some p
       | RangeMax => Some (num_sub (int 100) p)
       | _ => range_size s
       end) s.

(** ** Initialisation

    A slider with a range has two values, its first one twice when it was
    given another number of them. *)
Definition initial_values (o : slider_options) : option (list num) :=
  match range o with
  | RangeOn =>
      match opt_values o with
      | None => Some [min o; min o]
      | Some (v :: l) => Some (if (length l =? 1)%nat then v :: l else [v; v])
      | Some [] => Some []
      end
  | _ => opt_values o
  end.
Definition set_handles (n : nat) (s : slider) : slider :=
  Slider (options s) n (keySliding s) (handleIndex s) (clickOffset s) (shown s) (range_start s) (range_size s) (triggered s).
(** [_init], with the labels of the handles it makes: one when the element has
    no [existing] ones, then one for each value without a handle. *)
Definition init (existing : nat) : JS slider (list jsstr) := λ s,
  let s := set_handle None (set_key false s) in
  let s := set_options (put_values (initial_values (options s)) (options s)) s in
  match existing, opt_values (options s) with
  | O, None => (Throw ETypeError, s)
  | _, l =>
      let first := match existing, l with
        | O, Some (v :: _) => [number_str v ++ js ":00"]
        | O, _ => [js "undefined:00"]
        | _, _ => []
        end in
      let n := Nat.max existing 1 in
      let more := replicate (length (raw_values s) - n)
        (number_str (num_sub (parseInt (number_str (default NaN (raw_values s !! 1%nat)))) (int 1)) ++ js ":59") in
      (Ret (first ++ more), refreshValue (set_handles (Nat.max n (length (raw_values s))) s))
  end.

(** ** Operations

    The callback of the option [slide] may forbid a step: it is asked with
    the index, the new value and the values. *)
Section slider.
Context (allowed : nat → num → list num → bool).

Definition start_event (index : option nat) (s : slider) : slider :=
  trigger (EStart index (match index with Some i => current s i | None => if has_values s then NaN else value s end)) s.
Definition stop_event (index : option nat) (s : slider) : slider :=
  trigger (EStop index (match index with Some i => current s i | None => if has_values s then NaN else value s end)) s.
Definition change_event (index : option nat) (s : slider) : slider :=
  trigger (EChange index (match index with Some i => current s i | None => if has_values s then NaN else value s end)) s.

(** [values(index, newValue, animated, true)] *)
Definition store_value (index : nat) (v : num) (s : slider) : slider :=
  refreshValue (set_options (put_values (Some (set_at index v (raw_values s))) (options s)) s).

(** [_slide]: [newValues] is the array of the options itself, so the new value
    is in place before the callback is asked. *)
Definition slide (index : nat) (newVal : num) (s : slider) : slider :=
  if has_values s then
    let otherVal := values_at s (match index with O => 1%nat | _ => O end) in
    let newVal :=
      if (length (raw_values s) =? 2)%nat && match range (options s) with RangeOn => true | _ => false end &&
         (((index =? 0)%nat && num_gtb newVal otherVal) || ((index =? 1)%nat && num_ltb newVal otherVal))
      then otherVal else newVal in
    if num_eqb newVal (values_at s index) then s
    else
      let newValues := set_at index newVal (raw_values s) in
      let s := trigger (ESlide index newVal newValues) (set_options (put_values (Some newValues) (options s)) s) in
      if allowed index newVal newValues then store_value index newVal s else s
  else if num_eqb newVal (value s) then s
  else
    let s := trigger (ESlide index newVal []) s in
    if allowed index newVal [] then refreshValue (set_options (put_value newVal (options s)) s) else s.

(** [value(newValue)] and [values(index, newValue)], called by the page. *)
Definition set_value (v : num) (s : slider) : slider :=
  change_event (Some O) (refreshValue (set_options (put_value v (options s)) s)).
Definition set_values (index : nat) (v : num) (s : slider) : slider :=
  change_event (Some index) (store_value index v s).

(** [_setData('disabled', b)] falls through to the case of the orientation. *)
Definition set_disabled (b : bool) (s : slider) : slider :=
  refreshValue (set_options (put_disabled b (options s)) s).
Definition set_vertical (b : bool) (s : slider) : slider :=
  refreshValue (set_options (put_vertical b (options s)) s).

(** *** The keyboard *)
Inductive key := HOME | END | UP | RIGHT | DOWN | LEFT | OtherKey.
Definition moving (k : key) : bool := match k with OtherKey => false | _ => true end.
Definition keydown (index : nat) (k : key) (s : slider) : slider :=
  if disabled (options s) then s
  else
    let s := if moving k && negb (keySliding s) then start_event (Some index) (set_key true s) else s in
    let curVal := current s index in
    match k with
    | HOME => slide index (valueMin s) s
    | END => slide index (valueMax s) s
    | UP | RIGHT => if num_eqb curVal (valueMax s) then s else slide index (num_add curVal (step (options s))) s
    | DOWN | LEFT => if num_eqb curVal (valueMin s) then s else slide index (num_sub curVal (step (options s))) s
    | OtherKey => slide index curVal s
    end.
Definition keyup (index : nat) (s : slider) : slider :=
  if keySliding s then set_key false (change_event (Some index) (stop_event (Some index) s)) else s.
End slider.

(** *** The mouse *)

(** The layout: size and offset of the slider, and of the handles the offset,
    the size and the vertical borders and margin. *)
Record slider_layout := SliderLayout {
  size_width : num; size_height : num; offset_left : num; offset_top : num;
  handle_left : nat → num; handle_top : nat → num; handle_width : num; handle_height : num;
  border_top : num; border_bottom : num; margin_top : num;
  over_handle : nat → bool;       (* whether an element is inside a handle *)
}.

Section slider_mouse.
Context (allowed : nat → num → list num → bool) (layout : slider_layout).

(** The share of the track at a position, between 0 and 1. *)
Definition percentMouse (s : slider) (x y : num) : num :=
  let click_left := match clickOffset s with Some c => c.1 | None => int 0 end in
  let click_top := match clickOffset s with Some c => c.2 | None => int 0 end in
  let is_vertical := vertical (options s) in
  let pixelTotal := if is_vertical then size_height layout else size_width layout in
  let pixelMouse := if is_vertical then num_sub (num_sub y (offset_top layout)) click_top
                    else num_sub (num_sub x (offset_left layout)) click_left in
  let p := num_div pixelMouse pixelTotal in
  let p := if num_gtb p (int 1) then int 1 else p in
  let p := if num_ltb p (int 0) then int 0 else p in
  if is_vertical then num_sub (int 1) p else p.
(** The value there, moved to a step. *)
Definition snap (s : slider) (percent : num) : num :=
  let valueTotal := num_sub (valueMax s) (valueMin s) in
  let valueMouse := num_mul percent valueTotal in
  let valueMouseModStep := num_mod valueMouse (step (options s)) in
  let normValue := num_sub (num_add (valueMin s) valueMouse) valueMouseModStep in
  let normValue := if num_gtb valueMouseModStep (num_div (step (options s)) (int 2))
                   then num_add normValue (step (options s)) else normValue in
  to_fixed 5 normValue.
Definition normValueFromMouse (s : slider) (x y : num) : num := snap s (percentMouse s x y).

(** The handle nearest to a value: the loop over the handles, with the least
    distance so far and its handle. *)
Definition closest_step (s : slider) (norm : num) (acc : num * option nat) (i : nat) : num * option nat :=
  let d := num_abs (num_sub norm (current s i)) in
  if num_gtb acc.1 d then (d, Some i) else acc.
Definition closest (s : slider) (norm : num) : option nat :=
  (fold_left (closest_step s norm) (seq 0 (handles s))
    (num_add (num_sub (valueMax s) (valueMin s)) (int 1), None)).2.

(** [_mouseCapture].  Without a handle the code fails on the missing element,
    after [_start]. *)
Definition slider_capture (event : mouse_event) : JS slider bool := λ s,
  if disabled (options s) then (Ret false, s)
  else
    let x := int (pageX event) in
    let y := int (pageY event) in
    match closest s (normValueFromMouse s x y) with
    | None => (Throw ETypeError, set_handle None (start_event None s))
    | Some i =>
        let i := if (match range (options s) with RangeOn => true | _ => false end) &&
                    num_eqb (current s 1) (min (options s)) then S i else i in
        let s := set_handle (Some i) (start_event (Some i) s) in
        if (handles s <=? i)%nat then (Throw ETypeError, s) else
        let click :=
          if negb (over_handle layout (target event)) then (int 0, int 0)
          else (num_sub (num_sub x (handle_left layout i)) (num_div (handle_width layout) (int 2)),
                num_add (num_sub (num_sub (num_sub (num_sub y (handle_top layout i))
                  (num_div (handle_height layout) (int 2))) (border_top layout)) (border_bottom layout))
                  (margin_top layout)) in
        let s := set_click (Some click) s in
        (Ret true, slide allowed i (normValueFromMouse s x y) s)
    end.
(** A drag without a handle does not happen: see [started_has_handle] in
    SliderHours.v. *)
Definition slider_drag (event : mouse_event) : JS slider () := λ s,
  match handleIndex s with
  | Some i => (Ret (), slide allowed i (normValueFromMouse s (int (pageX event)) (int (pageY event))) s)
  | None => (Ret (), s)
  end.
Definition slider_stop (event : mouse_event) : JS slider () := λ s,
  (Ret (), set_click None (set_handle None (change_event (handleIndex s) (stop_event (handleIndex s) s)))).

#[export] Instance slider_widget : MouseWidget slider := {|
  mouse_capture := slider_capture;
  mouse_start := λ _, mret true;
  mouse_drag := slider_drag;
  mouse_stop := slider_stop;
|}.

(** The slider's options for the plugin. *)
Definition slider_mouse_options : mouse_options := MouseOptions 0 0 (λ _, false) false.
End slider_mouse.

(** ** Order and bounds of the values *)

Definition is_num (x : num) : Prop := x ≠ NaN.

(** A slider with a range of two values. *)
Record range_slider (s : slider) : Prop := {
  rs_handles : handles s = 2%nat;
  rs_range : range (options s) = RangeOn;
  rs_two : ∃ a b, opt_values (options s) = Some [a; b] ∧ is_num a ∧ is_num b;
  rs_min : is_num (min (options s));
  rs_max : is_num (max (options s));
  rs_le : num_ltb (max (options s)) (min (options s)) = false;
  rs_order : num_ltb (values_at s 1) (values_at s 0) = false;
}.

(** Both values read are between the bounds. *)
Lemma range_bounds s i : range_slider s →
  num_ltb (values_at s i) (valueMin s) = false ∧ num_ltb (valueMax s) (values_at s i) = false.
Proof. intros Hs. apply num_clamp_bounds. apply (rs_le s Hs). Qed.

Lemma refreshValue_options s : options (refreshValue s) = options s.
Proof. unfold refreshValue. by destruct (has_values s), (range (options s)). Qed.
Lemma refreshValue_handles s : handles (refreshValue s) = handles s.
Proof. unfold refreshValue. by destruct (has_values s), (range (options s)). Qed.

(** The order depends on the options only. *)
Lemma range_slider_same s s' : options s' = options s → handles s' = handles s → range_slider s → range_slider s'.
Proof.
  intros Ho Hh []. split; unfold values_at, valueMin, valueMax, raw_values in *; rewrite ?Hh, ?Ho; done.
Qed.

Lemma range_slider_store s s' a b : range_slider s → handles s' = 2%nat → is_num a → is_num b →
  options s' = put_values (Some [a; b]) (options s) →
  num_ltb (num_clamp (valueMin s) (valueMax s) b) (num_clamp (valueMin s) (valueMax s) a) = false →
  range_slider s'.
Proof.
  intros Hs Hh Ha Hb Ho Hord. destruct Hs. split; rewrite ?Ho; try done.
  - exists a, b. done.
  - unfold values_at, valueMin, valueMax, raw_values. rewrite Ho. exact Hord.
Qed.

Lemma set_at_0 v a b : set_at 0 v [a; b] = [v; b].
Proof. reflexivity. Qed.
Lemma set_at_1 v a b : set_at 1 v [a; b] = [a; v].
Proof. reflexivity. Qed.

(** Storing a value in a pair: both outcomes of the callback leave the same
    options. *)
Lemma slide_stores allowed i v s a b : (i < 2)%nat → opt_values (options s) = Some [a; b] →
  let other := values_at s (match i with O => 1%nat | _ => O end) in
  let v' := if (match range (options s) with RangeOn => true | _ => false end) &&
      (((i =? 0)%nat && num_gtb v other) || ((i =? 1)%nat && num_ltb v other)) then other else v in
  slide allowed i v s = s ∨
  options (slide allowed i v s) = put_values (Some (set_at i v' [a; b])) (options s) ∧
  handles (slide allowed i v s) = handles s.
Proof.
  intros Hi Hv other v'. unfold slide.
  assert (has_values s = true) as -> by (unfold has_values, raw_values; by rewrite Hv).
  assert (raw_values s = [a; b]) as Hraw by (unfold raw_values; by rewrite Hv).
  rewrite Hraw. cbn [length Nat.eqb andb]. fold other v'.
  destruct (num_eqb v' (values_at s i)); [by left|right].
  destruct (allowed _ _ _); [|done]. unfold store_value. rewrite refreshValue_options, refreshValue_handles.
  split; [|done]. destruct i as [|[|i]]; [reflexivity..|lia].
Qed.

(** Nothing else of the widget's state takes part. *)
Lemma refreshValue_frame s : handleIndex (refreshValue s) = handleIndex s ∧ clickOffset (refreshValue s) = clickOffset s.
Proof. unfold refreshValue. by destruct (has_values s), (range (options s)). Qed.
Lemma slide_frame allowed i v s :
  handleIndex (slide allowed i v s) = handleIndex s ∧ clickOffset (slide allowed i v s) = clickOffset s.
Proof.
  unfold slide, store_value. repeat case_match; try done.
  all: match goal with |- context [refreshValue ?x] => by destruct (refreshValue_frame x) as [-> ->] end.
Qed.

Lemma slide_range allowed i v s : (i < 2)%nat → is_num v → range_slider s → range_slider (slide allowed i v s).
Proof.
  intros Hi Hv Hs. pose proof Hs as [Hh Hr (a & b & Hab & Ha & Hb) Hmin Hmax Hle Hord].
  assert (values_at s 0 = num_clamp (valueMin s) (valueMax s) a ∧
          values_at s 1 = num_clamp (valueMin s) (valueMax s) b) as [H0 H1].
  { unfold values_at, raw_values. rewrite Hab. done. }
  destruct (slide_stores allowed i v s a b Hi Hab) as [-> | [Ho Hh']]; [done|].
  rewrite Hr in Ho. cbn [andb] in Ho. rewrite H0, H1 in Hord.
  destruct i as [|[|i]]; [| |lia]; cbn [Nat.eqb andb orb] in Ho.
  - rewrite set_at_0, orb_false_r, H1 in Ho. unfold num_gtb in Ho.
    destruct (num_ltb (num_clamp (valueMin s) (valueMax s) b) v) eqn:Hlt.
    + eapply (range_slider_store s _ _ b); [done|congruence| |done|exact Ho|].
      * by apply num_clamp_nan.
      * apply num_clamp_below; try done; [by apply num_clamp_nan|apply num_ltb_irrefl].
    + eapply (range_slider_store s _ v b); [done|congruence|done|done|exact Ho|].
      by apply num_clamp_below.
  - rewrite set_at_1, H0 in Ho.
    destruct (num_ltb v (num_clamp (valueMin s) (valueMax s) a)) eqn:Hlt.
    + eapply (range_slider_store s _ a _); [done|congruence|done| |exact Ho|].
      * by apply num_clamp_nan.
      * apply num_clamp_above; try done; [by apply num_clamp_nan|apply num_ltb_irrefl].
    + eapply (range_slider_store s _ a v); [done|congruence|done|done|exact Ho|].
      by apply num_clamp_above.
Qed.
