(* ===== verification/SliderHours.v ===== *)
(** * The hour sliders of the graphs

    The sliders of the pages go from 0 to 24 in whole hours.  Whatever is done
    with the mouse and the keyboard, their two values are whole hours in
    order, the floating-point arithmetic of the positions included. *)

From Stdlib Require Import ZArith QArith Qreduction Qabs Lqa.
From S2P Require Import Prelude JsBase JsNum JsFloat Mouse Slider.
#[local] Open Scope Z_scope.
#[local] Open Scope stdpp_scope.

(** The options of the sliders on the pages. *)
Definition hour_options (s : slider) : Prop :=
  valueMin s = int 0 ∧ valueMax s = int 24 ∧ step (options s) = int 1 ∧
  range (options s) = RangeOn ∧ vertical (options s) = false.

#[local] Open Scope Q_scope.

(** ** Snapping to hours *)

Lemma num_mod_one v : ∃ m, num_mod (Fin v) (int 1) = Fin m ∧
  m == v - inject_Z (Z.quot (Qnum v) (Zpos (Qden v))).
Proof.
  unfold num_mod, int. change (Qeq_bool (inject_Z 1) 0) with false. cbv zeta. cbn [Qnum Qden inject_Z].
  rewrite Z.mul_1_r, Z.mul_1_l. eexists. split; [reflexivity|].
  rewrite Qred_correct. by rewrite Qmult_1_r.
Qed.

(** The whole part of a number that is not below -1. *)
Lemma quot_bounds v : - (1) < v →
  let t := Z.quot (Qnum v) (Zpos (Qden v)) in
  (0 ≤ t)%Z ∧ (0 <= v → inject_Z t <= v < inject_Z t + 1) ∧ (v < 0 → t = 0%Z).
Proof.
  intros Hv t. destruct v as [n d]. cbn [Qnum Qden] in *.
  unfold Qlt, Qopp in Hv. cbn [Qnum Qden] in Hv. destruct (Z.le_gt_cases 0 n) as [Hn|Hn].
  - assert (t = n / Zpos d)%Z as Ht by (apply Z.quot_div_nonneg; lia).
    pose proof (Z.div_mod n (Zpos d) ltac:(lia)). pose proof (Z.mod_pos_bound n (Zpos d) ltac:(lia)).
    split; [rewrite Ht; apply Z.div_pos; lia|]. split; [|unfold Qlt; cbn; lia].
    intros _. rewrite Ht. unfold Qle, Qlt, Qplus, inject_Z. cbn [Qnum Qden]. nia.
  - assert (t = 0)%Z as Ht.
    { subst t. replace n with (- (- n))%Z by lia. rewrite Z.quot_opp_l, Z.quot_small by lia. done. }
    split; [lia|]. split; [unfold Qle; cbn; lia|done].
Qed.

(** Sums of small numbers are close to exact. *)
Lemma num_add_near a b : Qabs (a + b) <= 64 →
  ∃ r, num_add (Fin a) (Fin b) = Fin r ∧ - eps <= r - (a + b) <= eps.
Proof.
  intros H. destruct (round_q_near _ H) as (r & Hr & Herr). exists r. split; [done|].
  by apply Qabs_Qle_condition.
Qed.
Lemma num_sub_near a b : Qabs (a - b) <= 64 →
  ∃ r, num_sub (Fin a) (Fin b) = Fin r ∧ - eps <= r - (a - b) <= eps.
Proof.
  intros H. unfold num_sub, num_neg. destruct (num_add_near a (Qred (- b))) as (r & Hr & Herr).
  - by rewrite Qred_correct.
  - exists r. split; [done|]. by rewrite Qred_correct in Herr.
Qed.

(** The value at share [v / 24], split into hours and the rest of an hour. *)
Lemma snap_parts v : - eps <= v <= 24 + eps →
  ∃ t m w, num_mod (Fin v) (int 1) = Fin m ∧ num_sub (num_add (int 0) (Fin v)) (Fin m) = Fin w ∧
  (0 ≤ t ≤ 24)%Z ∧ m == v - inject_Z t ∧ - eps <= m < 1 ∧ (t = 24%Z → m <= eps) ∧
  - (2 * eps) <= w - inject_Z t <= 2 * eps.
Proof.
  intros Hv. assert (0 < eps < 1 # 100) as He by (split; reflexivity).
  destruct (num_mod_one v) as (m & Hm & Hmv). set (t := Z.quot (Qnum v) (Zpos (Qden v))) in *.
  destruct (quot_bounds v) as (Ht0 & Hge & Hlt); [lra|]. fold t in Ht0, Hge, Hlt.
  assert (- eps <= m < 1) as Hmb.
  { destruct (Qlt_le_dec v 0) as [Hn|Hn].
    - rewrite (Hlt Hn) in Hmv. change (inject_Z 0) with 0 in Hmv. lra.
    - specialize (Hge Hn). lra. }
  assert (inject_Z t < inject_Z 25) as Ht.
  { change (inject_Z 25) with 25. destruct (Qlt_le_dec v 0) as [Hn|Hn].
    - rewrite (Hlt Hn). reflexivity.
    - specialize (Hge Hn). lra. }
  rewrite <- Zlt_Qlt in Ht. unfold int at 2. change (inject_Z 0) with 0.
  destruct (num_add_near 0 v) as (v1 & Hv1 & Hv1e); [apply Qabs_Qle_condition; lra|].
  destruct (num_sub_near v1 m) as (w & Hw & Hwe); [apply Qabs_Qle_condition; lra|].
  exists t, m, w. rewrite Hv1. split_and!; try done; try lia; try lra.
  intros Ht24. rewrite Ht24 in Hmv. change (inject_Z 24) with 24 in Hmv. lra.
Qed.

Lemma snap_hour s p : hour_options s → 0 <= p <= 1 →
  ∃ k, (0 ≤ k ≤ 24)%Z ∧ whole (snap s (Fin p)) k ∧ Qabs (24 * p - inject_Z k) <= (1 # 2) + eps.
Proof.
  intros (Hmin & Hmax & Hstep & _ & _) Hp. unfold snap. rewrite Hmin, Hmax, Hstep.
  assert (0 < eps < 1 # 4000000) as He by (split; reflexivity).
  change (num_sub (int 24) (int 0)) with (Fin (24 # 1)). change (num_div (int 1) (int 2)) with (Fin (1 # 2)).
  cbn [num_mul]. destruct (round_q_near (p * (24 # 1))) as (v & -> & Hv).
  { apply Qabs_Qle_condition. change (24 # 1) with 24. lra. }
  apply Qabs_Qle_condition in Hv. change (24 # 1) with 24 in Hv.
  destruct (snap_parts v) as (t & m & w & -> & -> & Ht & Hm & Hmb & H24 & Hw); [lra|].
  unfold num_gtb. destruct (num_ltb (Fin (1 # 2)) (Fin m)) eqn:Hhalf.
  - apply num_ltb_Fin in Hhalf. assert (t ≠ 24%Z) by (intros ->; specialize (H24 eq_refl); lra).
    assert (inject_Z t <= inject_Z 23) as Ht23 by (rewrite <- Zle_Qle; lia).
    change (inject_Z 23) with 23 in Ht23. assert (0 <= inject_Z t) as Ht0 by (change 0 with (inject_Z 0); rewrite <- Zle_Qle; lia).
    destruct (num_add_near w (inject_Z 1)) as (w1 & Hw1 & Hw1e); [apply Qabs_Qle_condition; change (inject_Z 1) with 1; lra|].
    change (int 1) with (Fin (inject_Z 1)). rewrite Hw1. change (inject_Z 1) with 1 in Hw1e.
    assert (inject_Z (t + 1) == inject_Z t + 1) as Hinj by by rewrite inject_Z_plus.
    exists (t + 1)%Z. split; [lia|]. split.
    + apply to_fixed_near; [lia|]. apply Qabs_Qle_condition. lra.
    + apply Qabs_Qle_condition. lra.
  - apply not_true_iff_false in Hhalf. rewrite num_ltb_Fin in Hhalf. apply Qnot_lt_le in Hhalf.
    exists t. split; [lia|]. split.
    + apply to_fixed_near; [lia|]. apply Qabs_Qle_condition. lra.
    + apply Qabs_Qle_condition. lra.
Qed.

(** ** The position of the mouse *)

(** Numbers whose size is at most [2 ^ k]. *)
Definition below (k : Z) (x : num) : Prop := ∃ q, x = Fin q ∧ Qabs q <= inject_Z (2 ^ k).

Lemma below_round q k : (0 ≤ k ≤ 100)%Z → Qabs q <= inject_Z (2 ^ k) → below (k + 1) (round_q q).
Proof.
  intros Hk Hq. assert (inject_Z (2 ^ k) <= inject_Z (2 ^ 1000)).
  { rewrite <- Zle_Qle. apply Z.pow_le_mono_r; lia. }
  destruct (round_q_error q) as (r & -> & Herr); [lra|]. exists r. split; [done|].
  assert (inject_Z (2 ^ (k + 1)) == 2 * inject_Z (2 ^ k)) as ->.
  { rewrite Z.pow_add_r by lia. rewrite inject_Z_mult. change (inject_Z (2 ^ 1)) with 2. ring. }
  assert (1 <= inject_Z (2 ^ k)).
  { change 1 with (inject_Z 1). rewrite <- Zle_Qle. pose proof (Z.pow_pos_nonneg 2 k). lia. }
  assert (ulp <= 1 # 4) as Hu by (unfold ulp, Qle; vm_compute; discriminate).
  assert (tiny <= 1 # 4) as Htiny by (unfold tiny, Qle; vm_compute; discriminate).
  pose proof (Qmult_le_compat_r ulp (1 # 4) (Qabs q) Hu (Qabs_nonneg q)) as Hm.
  pose proof (Qabs_triangle (r - q) q) as Ht. assert (r - q + q == r) as Hr by ring. rewrite Hr in Ht. lra.
Qed.
Lemma below_sub x y k : (0 ≤ k ≤ 90)%Z → below k x → below k y → below (k + 2) (num_sub x y).
Proof.
  intros Hk (a & -> & Ha) (b & -> & Hb). unfold num_sub, num_neg, num_add.
  replace (k + 2)%Z with (k + 1 + 1)%Z by lia. apply below_round; [lia|].
  rewrite Qred_correct. assert (inject_Z (2 ^ (k + 1)) == 2 * inject_Z (2 ^ k)) as ->.
  { rewrite Z.pow_add_r by lia. rewrite inject_Z_mult. change (inject_Z (2 ^ 1)) with 2. ring. }
  pose proof (Qabs_triangle a (- b)) as Ht. rewrite Qabs_opp in Ht. lra.
Qed.
Lemma below_weak x k k' : (0 ≤ k ≤ k')%Z → below k x → below k' x.
Proof.
  intros Hk (q & -> & Hq). exists q. split; [done|]. eapply Qle_trans; [exact Hq|].
  rewrite <- Zle_Qle. apply Z.pow_le_mono_r; lia.
Qed.
Lemma below_int z k : (0 ≤ k)%Z → (Z.abs z ≤ 2 ^ k)%Z → below k (int z).
Proof.
  intros Hk Hz. exists (inject_Z z). split; [done|]. change (Qabs (inject_Z z)) with (inject_Z (Z.abs z)).
  by rewrite <- Zle_Qle.
Qed.
Lemma below_half x k : (0 ≤ k ≤ 90)%Z → below k x → below (k + 1) (num_div x (int 2)).
Proof.
  intros Hk (q & -> & Hq). unfold num_div, int. change (Qeq_bool (inject_Z 2) 0) with false. cbv iota.
  apply below_round; [lia|]. assert (q / inject_Z 2 == q * (1 # 2)) as -> by reflexivity.
  rewrite Qabs_Qmult. change (Qabs (1 # 2)) with (1 # 2). pose proof (Qabs_nonneg q). lra.
Qed.

(** A quotient that is a number, cut to between 0 and 1. *)
Definition in_unit (x : num) : Prop := ∃ p, x = Fin p ∧ 0 <= p <= 1.
Lemma cut_unit p : p ≠ NaN →
  let p1 := if num_gtb p (int 1) then int 1 else p in
  in_unit (if num_ltb p1 (int 0) then int 0 else p1).
Proof.
  intros Hp. cbv zeta. unfold num_gtb, int. change (inject_Z 1) with 1. change (inject_Z 0) with 0.
  destruct p as [| | |q]; [done|by exists 1|by exists 0|].
  destruct (num_ltb (Fin 1) (Fin q)) eqn:H1; [by exists 1|].
  apply not_true_iff_false in H1. rewrite num_ltb_Fin in H1. apply Qnot_lt_le in H1.
  destruct (num_ltb (Fin q) (Fin 0)) eqn:H0; [by exists 0|].
  apply not_true_iff_false in H0. rewrite num_ltb_Fin in H0. apply Qnot_lt_le in H0. by exists q.
Qed.
Lemma round_q_number q : round_q q ≠ NaN.
Proof.
  assert (∀ n d, round_pos n d ≠ NaN) as H by (intros n d; unfold round_pos; by repeat case_match).
  unfold round_q. destruct (Qnum q) as [|n|n]; [done|apply H|].
  pose proof (H (Zpos n) (Zpos (Qden q))). by destruct (round_pos _ _).
Qed.
Lemma num_div_number a t : ¬ t == 0 → num_div (Fin a) (Fin t) ≠ NaN.
Proof.
  intros Ht. unfold num_div. destruct (Qeq_bool t 0) eqn:H; [by apply Qeq_bool_iff in H|].
  apply round_q_number.
Qed.

Definition event_near (e : mouse_event) : Prop := (Z.abs (pageX e) ≤ 2 ^ 30)%Z.
Record layout_near (layout : slider_layout) : Prop := {
  near_width : ∃ w, size_width layout = Fin w ∧ ¬ w == 0;
  near_left : below 30 (offset_left layout);
  near_handle : ∀ i, below 30 (handle_left layout i);
  near_handle_width : below 30 (handle_width layout);
}.

Section hours.
Context (allowed : nat → num → list num → bool) (layout : slider_layout).
Context (Hlayout : layout_near layout).

Lemma percentMouse_unit s x y : vertical (options s) = false → (Z.abs x ≤ 2 ^ 30)%Z →
  (∀ c, clickOffset s = Some c → below 40 c.1) → in_unit (percentMouse layout s (int x) y).
Proof.
  intros Hv Hx Hc. unfold percentMouse. rewrite Hv. destruct (near_width _ Hlayout) as (w & -> & Hw).
  apply cut_unit. set (c := match clickOffset s with Some c => c.1 | None => int 0 end).
  assert (below 40 c) as Hc'.
  { subst c. destruct (clickOffset s); [by apply Hc|by apply below_int]. }
  assert (below 40 (num_sub (int x) (offset_left layout))) as Ha.
  { apply (below_weak _ 32); [lia|]. apply (below_sub _ _ 30); [lia|by apply below_int|apply Hlayout]. }
  destruct (below_sub _ c 40 ltac:(lia) Ha Hc') as (a & -> & _). by apply num_div_number.
Qed.
Lemma mouse_hour s e : hour_options s → event_near e → (∀ c, clickOffset s = Some c → below 40 c.1) →
  ∃ k, (0 ≤ k ≤ 24)%Z ∧ whole (normValueFromMouse layout s (int (pageX e)) (int (pageY e))) k.
Proof.
  intros Ho He Hc. unfold normValueFromMouse.
  destruct (percentMouse_unit s (pageX e) (int (pageY e))) as (p & -> & Hp); [apply Ho|done..|].
  destruct (snap_hour s p Ho Hp) as (k & Hk & Hw & _). by exists k.
Qed.

(** ** The invariant *)

(** The two values are the hours [i] and [j]. *)
Record hours (s : slider) (i j : Z) : Prop := {
  hours_options : hour_options s;
  hours_handles : handles s = 2%nat;
  hours_values : ∃ x y, opt_values (options s) = Some [x; y] ∧ whole x i ∧ whole y j;
  hours_order : (0 ≤ i ≤ j)%Z ∧ (j ≤ 24)%Z;
}.
Lemma values_hours s i j : hours s i j → whole (values_at s 0) i ∧ whole (values_at s 1) j.
Proof.
  intros [(Hmin & Hmax & _) _ (x & y & Hv & Hx & Hy) Hij].
  unfold values_at, raw_values. rewrite Hv, Hmin, Hmax. cbn.
  assert (∀ v k, whole v k → (0 ≤ k ≤ 24)%Z → whole (num_clamp (int 0) (int 24) v) k) as H.
  { intros v k Hw Hk. replace k with (Z.max 0 (Z.min 24 k)) by lia. apply whole_clamp; [apply whole_int..|done|lia]. }
  split; apply H; try done; lia.
Qed.
Lemma hours_raw s i j : hours s i j → has_values s = true.
Proof. intros [_ _ (x & y & Hv & _)]. unfold has_values, raw_values. by rewrite Hv. Qed.
Lemma current_hours s i j n : hours s i j → (n < 2)%nat → ∃ k, (0 ≤ k ≤ 24)%Z ∧ whole (current s n) k.
Proof.
  intros Hs Hn. unfold current. rewrite (hours_raw s i j Hs). destruct (values_hours s i j Hs) as [H0 H1].
  pose proof (hours_order _ _ _ Hs). destruct n as [|[|n]]; [exists i|exists j|lia]; (split; [lia|done]).
Qed.

Lemma hours_store s s' v i j n k : hours s i j → (n < 2)%nat → whole v k → (0 ≤ k ≤ 24)%Z →
  (n = 0%nat → (k ≤ j)%Z) → (n = 1%nat → (i ≤ k)%Z) → handles s' = handles s →
  (∀ x y, opt_values (options s) = Some [x; y] → options s' = put_values (Some (set_at n v [x; y])) (options s)) →
  ∃ i' j', hours s' i' j'.
Proof.
  intros [Ho Hh (x & y & Hv & Hx & Hy) [Hij Hj]] Hn Hw Hk H0 H1 Hh' Hs'.
  specialize (Hs' x y Hv). assert (hour_options s') as Ho'.
  { unfold hour_options, valueMin, valueMax in *. by rewrite Hs'. }
  destruct n as [|[|n]]; [exists k, j|exists i, k|lia]; (split; [done|congruence| |auto with lia]).
  - exists v, y. by rewrite Hs'.
  - exists x, v. by rewrite Hs'.
Qed.

Lemma hours_slide s i j n v k : hours s i j → (n < 2)%nat → whole v k → (0 ≤ k ≤ 24)%Z →
  ∃ i' j', hours (slide allowed n v s) i' j'.
Proof.
  intros Hs Hn Hw Hk. pose proof Hs as [(_ & _ & _ & Hr & _) _ (x & y & Hv & _) Hij].
  destruct (values_hours s i j Hs) as [H0 H1].
  destruct (slide_stores allowed n v s x y Hn Hv) as [-> | [Ho Hh]]; [by exists i, j|].
  rewrite Hr in Ho. cbn [andb] in Ho.
  destruct n as [|[|n]]; [| |lia]; cbn [Nat.eqb andb orb] in Ho; unfold num_gtb in Ho.
  - rewrite orb_false_r in Ho. rewrite (whole_ltb _ _ j k) in Ho by done. destruct (Z.ltb_spec j k).
    + eapply (hours_store s _ _ i j 0 j); try done; [lia..|]. intros x' y' Hxy. by simplify_eq.
    + eapply (hours_store s _ _ i j 0 k); try done; [lia..|]. intros x' y' Hxy. by simplify_eq.
  - rewrite (whole_ltb _ _ k i) in Ho by done. destruct (Z.ltb_spec k i).
    + eapply (hours_store s _ _ i j 1 i); try done; [lia..|]. intros x' y' Hxy. by simplify_eq.
    + eapply (hours_store s _ _ i j 1 k); try done; [lia..|]. intros x' y' Hxy. by simplify_eq.
Qed.

Lemma hours_same s s' i j : hours s i j → options s' = options s → handles s' = handles s → hours s' i j.
Proof.
  intros [Ho Hh Hv Hij] Heq Hh'. split; rewrite ?Heq; try done; [|congruence].
  unfold hour_options, valueMin, valueMax in *. by rewrite Heq.
Qed.

Lemma hours_keydown s i j n k : hours s i j → (n < 2)%nat → ∃ i' j', hours (keydown allowed n k s) i' j'.
Proof.
  intros Hs Hn. unfold keydown. destruct (disabled (options s)); [by exists i, j|].
  set (s1 := if _ && _ then _ else s). assert (hours s1 i j) as Hs1.
  { subst s1. destruct (_ && _); [|done]. by eapply hours_same. }
  clearbody s1. clear s Hs. rename s1 into s, Hs1 into Hs.
  destruct (current_hours s i j n Hs Hn) as (c & Hc & Hw).
  destruct (hours_options _ _ _ Hs) as (Hmin & Hmax & Hstep & _). rewrite Hmin, Hmax, Hstep.
  pose proof (whole_int 0). pose proof (whole_int 1). pose proof (whole_int 24).
  assert (num_eqb (current s n) (int 24) = (c =? 24)%Z) as -> by by apply whole_eqb.
  assert (num_eqb (current s n) (int 0) = (c =? 0)%Z) as -> by by apply whole_eqb.
  destruct k; try (eapply hours_slide; eauto; lia).
  all: case_match eqn:He; [by exists i, j|apply Z.eqb_neq in He].
  all: first [eapply (hours_slide _ _ _ _ _ (c + 1)); [done..|by apply whole_add; [..|lia]|lia]
             |eapply (hours_slide _ _ _ _ _ (c - 1)); [done..|by apply whole_sub; [..|lia]|lia]].
Qed.
Lemma hours_keyup s i j n : hours s i j → hours (keyup n s) i j.
Proof. intros Hs. unfold keyup. destruct (keySliding s); [|done]. by eapply hours_same. Qed.

(** ** The mouse *)

Lemma whole_abs x k : whole x k → whole (num_abs x) (Z.abs k).
Proof.
  intros Hx. unfold num_abs. rewrite (whole_ltb x (int 0) k 0) by (done || apply whole_int).
  destruct (Z.ltb_spec k 0); [replace (Z.abs k) with (- k)%Z by lia; by apply whole_neg|].
  by replace (Z.abs k) with k by lia.
Qed.

(** The handle nearest to an hour is the first one, unless the second is
    nearer. *)
Lemma closest_hours s i j v k : hours s i j → whole v k → (0 ≤ k ≤ 24)%Z →
  closest s v = Some (if (Z.abs (k - j) <? Z.abs (k - i))%Z then 1%nat else 0%nat).
Proof.
  intros Hs Hv Hk. pose proof Hs as [(Hmin & Hmax & _) Hh _ Hij]. destruct (values_hours s i j Hs) as [H0 H1].
  unfold closest. rewrite Hh, Hmin, Hmax. cbn [seq fold_left]. unfold closest_step at 2, current.
  rewrite (hours_raw s i j Hs). unfold num_gtb. cbn [fst].
  assert (whole (num_abs (num_sub v (values_at s 0))) (Z.abs (k - i))) as Hd0
    by (apply whole_abs, whole_sub; [done..|lia]).
  assert (whole (num_abs (num_sub v (values_at s 1))) (Z.abs (k - j))) as Hd1
    by (apply whole_abs, whole_sub; [done..|lia]).
  assert (whole (num_add (num_sub (int 24) (int 0)) (int 1)) 25) as Hm by by exists (25 # 1).
  rewrite (whole_ltb _ _ _ _ Hd0 Hm), (proj2 (Z.ltb_lt _ _)) by lia.
  unfold closest_step, current. rewrite (hours_raw s i j Hs). unfold num_gtb. cbn [fst].
  rewrite (whole_ltb _ _ _ _ Hd1 Hd0). by destruct (_ <? _)%Z.
Qed.

(** What holds between events. *)
Definition settled (s : slider) : Prop :=
  (∃ i j, hours s i j) ∧ (∀ n, handleIndex s = Some n → (n < 2)%nat) ∧
  (∀ c, clickOffset s = Some c → below 40 c.1).

Lemma settled_slide s n v k : settled s → (n < 2)%nat → whole v k → (0 ≤ k ≤ 24)%Z →
  settled (slide allowed n v s).
Proof.
  intros ((i & j & Hs) & Hi & Hc) Hn Hw Hk. unfold settled.
  destruct (slide_frame allowed n v s) as [-> ->]. split; [by eapply hours_slide|done].
Qed.

Lemma capture_settled e s : settled s → event_near e →
  let r := slider_capture allowed layout e s in
  settled r.2 ∧ (r.1 = Ret true ∧ is_Some (handleIndex r.2) ∨ r = (Ret false, s)).
Proof.
  intros ((i & j & Hs) & Hi & Hc) He. unfold slider_capture.
  destruct (disabled (options s)); [split; [|by right]; split; eauto|].
  destruct (mouse_hour s e (hours_options _ _ _ Hs) He Hc) as (k & Hk & Hw).
  rewrite (closest_hours s i j _ k Hs Hw Hk). destruct (values_hours s i j Hs) as [H0 H1].
  pose proof (hours_options _ _ _ Hs) as (Hmin & _ & _ & Hr & _).
  change (min (options s)) with (valueMin s).
  assert (current s 1 = values_at s 1) as -> by (unfold current; by rewrite (hours_raw s i j Hs)).
  rewrite Hr, Hmin, (whole_eqb _ _ j 0 H1 (whole_int 0)). cbn [andb].
  set (n := if (j =? 0)%Z then _ else _). assert (n < 2)%nat as Hn.
  { subst n. pose proof (hours_order _ _ _ Hs). destruct (Z.eqb_spec j 0).
    - rewrite (proj2 (Z.ltb_ge _ _)) by lia. lia.
    - destruct (_ <? _)%Z; lia. }
  clearbody n. cbn [start_event set_handle trigger handles]. rewrite (hours_handles _ _ _ Hs).
  rewrite (proj2 (Nat.leb_gt _ _)) by done. cbv zeta. set (click := if negb _ then _ else _).
  assert (below 40 click.1) as Hclick.
  { subst click. destruct (over_handle _ _); cbn [negb fst]; [|by apply below_int].
    apply (below_weak _ 35); [lia|]. apply (below_sub _ _ 33); [lia| |].
    - apply (below_weak _ 32); [lia|]. apply (below_sub _ _ 30); [lia|by apply below_int|apply Hlayout].
    - apply (below_weak _ 31); [lia|]. apply (below_half _ 30); [lia|apply Hlayout]. }
  clearbody click. set (s1 := set_click _ _).
  assert (hours s1 i j) as Hs1 by by eapply hours_same.
  assert (settled s1) as Hset.
  { split; [eauto|]. cbn. split; intros ? [= <-]; done. }
  destruct (mouse_hour s1 e (hours_options _ _ _ Hs1) He) as (k' & Hk' & Hw'); [apply Hset|].
  split; [by eapply settled_slide|left; split; [done|]].
  cbn [snd]. destruct (slide_frame allowed n (normValueFromMouse layout s1 (int (pageX e)) (int (pageY e))) s1) as [-> _].
  by exists n.
Qed.
Lemma drag_settled e s : settled s → event_near e → settled (slider_drag allowed layout e s).2.
Proof.
  intros Hs He. unfold slider_drag. destruct (handleIndex s) as [n|] eqn:Hn; [|done].
  pose proof Hs as ((i & j & Hh) & Hi & Hc).
  destruct (mouse_hour s e (hours_options _ _ _ Hh) He Hc) as (k & Hk & Hw).
  eapply settled_slide; eauto.
Qed.
Lemma stop_settled e s : settled s → settled (slider_stop e s).2.
Proof.
  intros ((i & j & Hs) & _). split; [|done]. exists i, j. by eapply hours_same.
Qed.

(** ** Runs of events *)

Inductive slider_input := Mouse_ (i : mouse_input) | KeyDown (handle : nat) (k : key) | KeyUp (handle : nat).
Definition input_near (i : slider_input) : Prop :=
  match i with
  | Mouse_ (Down e) | Mouse_ (Move e) | Mouse_ (Up e) => event_near e
  | Mouse_ _ => True
  | KeyDown n _ | KeyUp n => (n < 2)%nat
  end.
#[local] Existing Instance slider_widget.
Definition slider_step (i : slider_input) (s : mouse * slider) : mouse * slider :=
  match i with
  | Mouse_ i => (@mouse_step _ (slider_widget allowed layout) slider_mouse_options i s).2
  | KeyDown n k => (s.1, keydown allowed n k s.2)
  | KeyUp n => (s.1, keyup n s.2)
  end.
Definition slider_run (l : list slider_input) (s : mouse * slider) : mouse * slider :=
  fold_left (λ s i, slider_step i s) l s.

Record slider_ok (s : mouse * slider) : Prop := {
  ok_settled : settled s.2;
  ok_bound : bound s.1 = [] ∨ (bound s.1 = [delegate s.1] ∧ delegate s.1 ≠ 0%nat) ∧ mouseStarted s.1 = true;
  started_has_handle : mouseStarted s.1 = true → is_Some (handleIndex s.2);
}.

#[local] Abbreviation plugin_up := (@mouse_up _ (slider_widget allowed layout)).
#[local] Abbreviation plugin_down := (@mouse_down _ (slider_widget allowed layout) slider_mouse_options).
#[local] Abbreviation plugin_move := (@mouse_move _ (slider_widget allowed layout) slider_mouse_options).

Lemma unbind_ok s : slider_ok s → bound (unbind_delegates s.1) = [].
Proof.
  intros Hs. cbn. destruct (ok_bound _ Hs) as [->|[[-> Hd] _]]; [by destruct (_ =? _)%nat|].
  destruct (Nat.eqb_spec (delegate s.1) 0); [done|]. by rewrite filter_cons_False by auto.
Qed.
Lemma up_ok e s : slider_ok s →
  ∃ s', plugin_up e s = (Ret (), s') ∧ settled s'.2 ∧ mouseStarted s'.1 = false ∧ bound s'.1 = [].
Proof.
  intros Hok. pose proof (unbind_ok _ Hok) as Hu. pose proof (ok_settled _ Hok) as Hs. clear Hok.
  destruct s as [m w]. unfold mouse_up. rewrite bind_change, js_bind_gets. unfold js_when. cbn [fst snd] in *.
  change (mouseStarted (unbind_delegates m)) with (mouseStarted m). destruct (mouseStarted m) eqn:Hm.
  - rewrite !bind_change. unfold widget. cbn [fst snd mouse_stop slider_widget].
    pose proof (stop_settled e w Hs) as Hstop. unfold slider_stop in *. eexists. split; [reflexivity|].
    split; [exact Hstop|done].
  - eexists. split; [reflexivity|]. done.
Qed.

Lemma down_ok e s : slider_ok s → event_near e → slider_ok (plugin_down e s).2.
Proof.
  intros Hs He. unfold mouse_down. destruct (mouseHandled e); [done|]. rewrite js_bind_gets.
  set (rest := (change_mouse (set_down e) ;; _) : JS (mouse * slider) ()).
  assert (∀ s', settled s'.2 → mouseStarted s'.1 = false → bound s'.1 = [] → slider_ok (rest s').2) as Hrest.
  { clear s Hs. intros [m w] Hw Hm Hd. cbn [fst snd] in *. subst rest. rewrite bind_change.
    destruct (_ || _); [split; cbn; auto; congruence|]. unfold widget at 1. unfold mbind, js_mbind.
    cbn [fst snd mouse_capture slider_widget].
    destruct (capture_settled e w Hw He) as [Hset [[Hr Hh] | Hr]].
    - destruct (slider_capture allowed layout e w) as [r w']. cbn [fst snd] in *. subst r. cbn [negb].
      unfold change_mouse, js_modify. cbn [fst snd]. unfold js_gets. cbn [fst snd].
      unfold distance_met. cbn [set_delay set_down log_call mouseDownEvent mouseDelayMet].
      assert ((distance slider_mouse_options <=?
        Z.max (Z.abs (pageX e - pageX e)) (Z.abs (pageY e - pageY e)))%Z = true) as -> by (apply Z.leb_le; cbn; lia).
      cbv [start_now widget mbind js_mbind]. cbn -[Nat.eqb]. split; cbn -[Nat.eqb]; [done|right; by rewrite Hd|done].
    - rewrite Hr. cbn. split; cbn; auto; congruence. }
  destruct (mouseStarted s.1) eqn:Hm.
  - destruct (up_ok e s Hs) as (s' & Hup & Hs' & Hm' & Hd'). cbn [js_when].
    rewrite (js_bind_Ret _ _ _ _ _ Hup). by apply Hrest.
  - cbn [js_when]. apply Hrest; [apply Hs|done|]. destruct (ok_bound _ Hs) as [|[_ ?]]; [done|congruence].
Qed.

Lemma move_ok e s : slider_ok s → bound s.1 ≠ [] → event_near e → slider_ok (plugin_move e s).2.
Proof.
  intros Hs Hd He. unfold mouse_move. rewrite js_bind_gets. cbn [msie slider_mouse_options andb].
  assert (mouseStarted s.1 = true) as Hm by (destruct (ok_bound _ Hs) as [|[_ ?]]; done). rewrite Hm. destruct s as [m w]. unfold widget.
  cbn [fst snd mouse_drag slider_widget] in *. pose proof (drag_settled e w (ok_settled _ Hs) He) as Hset.
  pose proof (started_has_handle _ Hs Hm) as Hh. destruct (slider_drag allowed layout e w) as [r w'] eqn:Hdrag.
  split; [exact Hset|exact (ok_bound _ Hs)|]. intros _. cbn [snd]. unfold slider_drag in Hdrag. cbn [snd] in Hh.
  destruct (handleIndex w) as [n|] eqn:Hn; [|by apply is_Some_None in Hh]. injection Hdrag as _ <-.
  destruct (slide_frame allowed n (normValueFromMouse layout w (int (pageX e)) (int (pageY e))) w) as [-> _]. by rewrite Hn.
Qed.

Lemma through_ok h pairs s : (∀ s, slider_ok s → bound s.1 ≠ [] → slider_ok (h s).2) → slider_ok s →
  slider_ok (through pairs h s).2.
Proof.
  intros Hh. revert s. induction pairs as [|i pairs IH]; intros s Hs; [done|]. cbn [through]. rewrite js_bind_gets.
  destruct (bool_decide _) eqn:Hi; [|by apply IH]. apply bool_decide_eq_true in Hi. cbn [js_when].
  assert (slider_ok (h s).2) as Hs' by (apply Hh; [done|]; intros Hb; rewrite Hb in Hi; by apply not_elem_of_nil in Hi).
  unfold mbind, js_mbind. destruct (h s) as [[[]|err] s']; [by apply IH|done].
Qed.
Lemma keys_ok s w' : slider_ok s → settled w' → handleIndex w' = handleIndex s.2 → slider_ok (s.1, w').
Proof. intros [H1 H2 H3] Hw Hh. split; cbn; [done|done|]. by rewrite Hh. Qed.
Lemma keydown_frame n k s :
  handleIndex (keydown allowed n k s) = handleIndex s ∧ clickOffset (keydown allowed n k s) = clickOffset s.
Proof.
  unfold keydown. destruct (disabled _); [done|]. set (s1 := if _ && _ then _ else s).
  assert (handleIndex s1 = handleIndex s ∧ clickOffset s1 = clickOffset s) as [<- <-]
    by (subst s1; by destruct (_ && _)).
  destruct k; try apply slide_frame; case_match; done || apply slide_frame.
Qed.
Lemma keyup_frame n s : handleIndex (keyup n s) = handleIndex s ∧ clickOffset (keyup n s) = clickOffset s.
Proof. unfold keyup. by destruct (keySliding s). Qed.

Lemma step_ok i s : slider_ok s → input_near i → slider_ok (slider_step i s).
Proof.
  intros Hs Hi. pose proof (ok_settled _ Hs) as ((a & b & Hh) & Hidx & Hc).
  destruct i as [[e|e|e| |]|n k|n]; cbn [slider_step mouse_step input_near] in *.
  - by apply down_ok.
  - apply through_ok; [|done]. intros s' Hs' Hb. by apply move_ok.
  - apply through_ok; [|done]. intros s' Hs' _.
    destruct (up_ok e s' Hs') as (s2 & -> & Hs2 & Hm' & Hd'). split; cbn; [done|by left|congruence].
  - destruct Hs. split; done.
  - unfold mouse_click. rewrite js_bind_assoc, js_bind_gets. destruct (preventClickEvent s.1); [|done].
    destruct Hs. split; done.
  - destruct (keydown_frame n k s.2) as [H1 H2]. apply keys_ok; [done| |done].
    unfold settled. rewrite H1, H2. split; [by eapply hours_keydown|done].
  - destruct (keyup_frame n s.2) as [H1 H2]. apply keys_ok; [done| |done].
    unfold settled. rewrite H1, H2. split; [|done]. exists a, b. by apply hours_keyup.
Qed.
End hours.

Lemma init_hours s i j : hour_options s → (handles s ≤ 2)%nat → clickOffset s = None →
  (∃ x y, opt_values (options s) = Some [x; y] ∧ whole x i ∧ whole y j) → (0 ≤ i ≤ j)%Z ∧ (j ≤ 24)%Z →
  ∃ labels s', init (handles s) s = (Ret labels, s') ∧ settled s'.
Proof.
  intros Ho Hn Hc (x & y & Hv & Hx & Hy) Hij. unfold init. cbn [options set_handle set_key].
  assert (initial_values (options s) = Some [x; y]) as Hi.
  { unfold initial_values. pose proof Ho as (_ & _ & _ & -> & _). by rewrite Hv. }
  rewrite Hi. cbn [options set_options put_values opt_values]. unfold raw_values at 3. cbn [options set_options put_values opt_values default length].
  set (s1 := refreshValue _). exists (match handles s with O => [number_str x ++ js ":00"] | _ => [] end ++
    replicate (2 - Nat.max (handles s) 1) (number_str (num_sub (parseInt (number_str y)) (int 1)) ++ js ":59")), s1.
  split; [by destruct (handles s)|]. unfold settled. subst s1. match goal with |- context [refreshValue ?x] =>
    destruct (refreshValue_frame x) as [-> ->]; pose proof (refreshValue_options x) as Hro; pose proof (refreshValue_handles x) as Hrh end.
  cbn [handleIndex clickOffset set_handles set_options set_handle set_key]. rewrite Hc. split; [|done].
  exists i, j. cbn [options handles set_handles set_options] in Hro, Hrh. split.
  - unfold hour_options, valueMin, valueMax in *. by rewrite Hro.
  - rewrite Hrh. cbn. lia.
  - rewrite Hro. exists x, y. done.
  - done.
Qed.

(** C14. An hour slider made with two hours in order shows two hours in order
    for ever: whatever the events of the mouse and of the keyboard, whatever
    the callback [slide] answers and wherever the slider is on the page, its
    values are whole numbers, in order, between 0 and 24. *)
Theorem slider_hours_spec (allowed : nat → num → list num → bool) (layout : slider_layout)
    (l : list slider_input) (s : slider) (i j : Z) :
  layout_near layout → hour_options s → (handles s ≤ 2)%nat → clickOffset s = None →
  (∃ x y, opt_values (options s) = Some [x; y] ∧ whole x i ∧ whole y j) → (0 ≤ i ≤ j)%Z ∧ (j ≤ 24)%Z →
  Forall input_near l →
  ∃ labels i' j' x y, (init (handles s) s).1 = Ret labels ∧
    opt_values (options (slider_run allowed layout l (idle_mouse, (init (handles s) s).2)).2) = Some [x; y] ∧
    whole x i' ∧ whole y j' ∧ (0 ≤ i' ≤ j')%Z ∧ (j' ≤ 24)%Z.
Proof.
  intros Hlay Ho Hn Hc Hv Hij Hl. destruct (init_hours s i j Ho Hn Hc Hv Hij) as (labels & s1 & Hinit & Hs1).
  rewrite Hinit. cbn [fst snd].
  assert (slider_ok (slider_run allowed layout l (idle_mouse, s1))) as [((i' & j' & [_ _ (x & y & H) Hij']) & _) _ _].
  { assert (slider_ok (idle_mouse, s1)) as Hok by (split; [done|by left|done]).
    clear -Hlay Hok Hl. revert Hok. generalize (idle_mouse, s1). clear s1.
    induction Hl as [|input l Hi Hl IH]; intros s Hok; [done|]. apply IH. by apply step_ok. }
  exists labels, i', j', x, y. split; [done|]. split; [apply H|]. split; [apply H|]. split; [apply H|done].
Qed.

(** A slider at 6 to 18 hours, 240 pixels wide, whose handle is dragged. *)
Definition sample_slider : slider :=
  Slider (SliderOptions false (int 24) (int 0) (int 1) false RangeOn (int 0) (Some [int 6; int 18]))
    0 false None None [] None None [].
Definition sample_layout : slider_layout :=
  SliderLayout (int 240) (int 10) (int 100) (int 50) (λ _, int 160) (λ _, int 50) (int 12) (int 12)
    (int 1) (int 1) (int 0) (λ _, false).
Definition at_x (x : Z) : mouse_event := MouseEvent x 55 true true 1 false.
Definition sample_inputs : list slider_input :=
  [Mouse_ (Down (at_x 164)); Mouse_ (Move (at_x 197)); Mouse_ (Move (at_x 900)); Mouse_ (Up (at_x 900));
   KeyDown 1 DOWN; KeyDown 0 RIGHT; KeyDown 1 END].
Example sample_slider_run :
  opt_values (options (slider_run (λ _ _ _, true) sample_layout sample_inputs (idle_mouse, (init 0 sample_slider).2)).2) =
  Some [int 18; int 24].
Proof. vm_compute. reflexivity. Qed.

Example sample_slider_labels : (init 0 sample_slider).1 = Ret [js "6:00"; js "17:59"].
Proof. vm_compute. reflexivity. Qed.

Lemma slider_hours_spec_witness : ∃ labels i' j' x y, (init 0 sample_slider).1 = Ret labels ∧
  opt_values (options (slider_run (λ _ _ _, true) sample_layout sample_inputs (idle_mouse, (init 0 sample_slider).2)).2) =
    Some [x; y] ∧ whole x i' ∧ whole y j' ∧ (0 ≤ i' ≤ j')%Z ∧ (j' ≤ 24)%Z.
Proof.
  apply (slider_hours_spec (λ _ _ _, true) sample_layout sample_inputs sample_slider 6 18).
  - assert (∀ z, (Z.abs z ≤ 1000)%Z → below 30 (int z)) as H by (intros; apply below_int; lia).
    split; try (intros; apply H; lia). exists 240. split; [reflexivity|discriminate].
  - by repeat split.
  - cbn. lia.
  - reflexivity.
  - exists (int 6), (int 18). split; [reflexivity|]. split; apply whole_int.
  - lia.
  - unfold sample_inputs. do 7 (apply List.Forall_cons; [by (vm_compute; discriminate || lia)|]). apply List.Forall_nil.
Defined.
