(* ===== verification/Droppable.v ===== *)
(** * Droppables (dragdrop.js: Droppables; prototype.js: Position)

    The elements that a dragged element can be dropped on.  While an element
    is dragged at most one of them is active, and shows it by a class name. *)

From Stdlib Require Import ZArith.
From S2P Require Import Prelude JsBase JsNum Strings Dom.
#[local] Open Scope Z_scope.
#[local] Open Scope stdpp_scope.

(** ** State *)

(** The options object of a droppable; [d_id] is its identity, and callbacks
    are named by numbers. *)
Record drop := Drop {
  d_id : nat;
  d_element : nid;
  hoverclass : option jsstr;
  d_tree : bool;
  containers : option (list nid);
  accept : option (list jsstr);
  d_overlap : option jsstr;
  d_onHover : option nat;
  d_onDrop : option nat;
}.
#[export] Instance drop_eq_dec : EqDecision drop.
Proof. solve_decision. Defined.

(** The state of the droppables; [treeNode] is a property of elements, [rest]
    what the other parts of a page keep. *)
Record dnd (X : Type) := Dnd {
  page : dom;
  drops : list drop;
  last_active : option drop;
  treeNode : gmap nid nid;
  next_drop : nat;
  rest : X;
}.
Arguments Dnd {X}.
Arguments page {X}.
Arguments drops {X}.
Arguments last_active {X}.
Arguments treeNode {X}.
Arguments next_drop {X}.
Arguments rest {X}.

(** [Element.isParent(child, element)]: whether an element is above a node;
    [fuel] bounds the depth. *)
Fixpoint isParent (fuel : nat) (d : dom) (child element : nid) : bool :=
  match fuel with
  | O => false
  | S fuel =>
      match parent_of d child with
      | None => false
      | Some p =>
          if bool_decide (child = element) then false
          else if bool_decide (p = element) then true
          else isParent fuel d p element
      end
  end.
Definition is_parent (d : dom) (child element : nid) : bool := isParent (node_count d) d child element.

Section droppables.
Context {X : Type} (layout : dom → nid → geometry).
(** The page's callbacks: [onHover] gets the overlap, a fraction. *)
Context (on_hover : nat → nid → nid → num → JS (dnd X) ()) (on_drop : nat → nid → nid → JS (dnd X) ()).
#[local] Abbreviation M := (JS (dnd X)).

Definition on_page {A} (m : D A) : M A := λ w,
  let '(r, d) := m (page w) in (r, Dnd d (drops w) (last_active w) (treeNode w) (next_drop w) (rest w)).
Definition set_drops (l : list drop) (w : dnd X) : dnd X :=
  Dnd (page w) l (last_active w) (treeNode w) (next_drop w) (rest w).
Definition set_last_active (o : option drop) (w : dnd X) : dnd X :=
  Dnd (page w) (drops w) o (treeNode w) (next_drop w) (rest w).
Definition set_treeNode (t : gmap nid nid) (w : dnd X) : dnd X :=
  Dnd (page w) (drops w) (last_active w) t (next_drop w) (rest w).
Definition set_rest (x : X) (w : dnd X) : dnd X :=
  Dnd (page w) (drops w) (last_active w) (treeNode w) (next_drop w) x.

(** *** Position *)
(** [Position.within], the scroll offsets not included *)
Definition within (d : dom) (e : nid) (x y : Z) : bool :=
  let offset := (cumulativeOffset layout e d).1 in
  match offset with
  | Ret (ol, ot) =>
      (ot <=? y) && (y <? ot + offsetHeight (layout d e)) && (ol <=? x) && (x <? ol + offsetWidth (layout d e))
  | Throw _ => false
  end.
(** [Position.overlap], after [within] on the same element *)
Definition overlap (d : dom) (mode : option jsstr) (e : nid) (x y : Z) : num :=
  match (cumulativeOffset layout e d).1 with
  | Ret (ol, ot) =>
      let g := layout d e in
      if decide (mode = Some (js "vertical")) then num_div (int (ot + offsetHeight g - y)) (int (offsetHeight g))
      else if decide (mode = Some (js "horizontal")) then num_div (int (ol + offsetWidth g - x)) (int (offsetWidth g))
      else match mode with None | Some [] => int 0 | _ => NaN end
  | Throw _ => NaN
  end.

(** *** Droppables *)
(** [remove] *)
Definition drop_remove (e : nid) : M () :=
  js_modify (λ w, set_drops (filter (λ d, d_element d ≠ e) (drops w)) w).
(** [add], with the options given, the containers being elements; the number
    of the given options is replaced by a new one. *)
Definition drop_add (computed : dom → nid → jsstr → option jsstr) (options : drop) : M () :=
  on_page (makePositioned computed (d_element options)) ;;
  js_modify (λ w, Dnd (page w)
    (drops w ++ [Drop (next_drop w) (d_element options) (hoverclass options) (d_tree options) (containers options)
      (accept options) (d_overlap options) (d_onHover options) (d_onDrop options)])
    (last_active w) (treeNode w) (S (next_drop w)) (rest w)).

Definition findDeepestChild (d : dom) (first : drop) (others : list drop) : drop :=
  foldl (λ deepest x, if is_parent d (d_element x) (d_element deepest) then x else deepest) first others.

Definition isContained (w : dnd X) (element : nid) (c : list nid) (tree : bool) : bool :=
  let containmentNode := if tree then treeNode w !! element else parent_of (page w) element in
  match containmentNode with Some n => bool_decide (n ∈ c) | None => false end.
Definition isAffected (w : dnd X) (point : Z * Z) (element : nid) (d : drop) : bool :=
  bool_decide (d_element d ≠ element) &&
  match containers d with None => true | Some c => isContained w element c (d_tree d) end &&
  match accept d with
  | None => true
  | Some names => existsb (λ v, bool_decide (v ∈ names))
      (match page w !! element with Some n => class_names (className n) | None => [] end)
  end &&
  within (page w) (d_element d) point.1 point.2.

Definition drop_deactivate (d : drop) : M () :=
  match hoverclass d with
  | Some (c :: s) => on_page (removeClassName (d_element d) (c :: s))
  | _ => mret ()
  end ;;
  js_modify (set_last_active None).
Definition drop_activate (d : drop) : M () :=
  match hoverclass d with
  | Some (c :: s) => on_page (addClassName (d_element d) (c :: s))
  | _ => mret ()
  end ;;
  js_modify (set_last_active (Some d)).

(** The droppable at a point: the deepest of those affected. *)
Definition drop_at (w : dnd X) (point : Z * Z) (element : nid) : option drop :=
  match List.filter (isAffected w point element) (drops w) with
  | [] => None
  | first :: others => Some (findDeepestChild (page w) first others)
  end.
(** [show] *)
Definition drop_show (point : Z * Z) (element : nid) : M () :=
  w ← js_get;
  js_when (negb (bool_decide (drops w = [])))
    (let d := drop_at w point element in
     match last_active w with
     | Some last => js_when (negb (bool_decide (Some last = d))) (drop_deactivate last)
     | None => mret ()
     end ;;
     match d with
     | None => mret ()
     | Some d =>
         w ← js_get;
         match d_onHover d with
         | Some f => on_hover f element (d_element d) (overlap (page w) (d_overlap d) (d_element d) point.1 point.2)
         | None => mret ()
         end ;;
         w ← js_get;
         js_when (negb (bool_decide (last_active w = Some d))) (drop_activate d)
     end).
(** [fire], whether the element was dropped *)
Definition drop_fire (point : Z * Z) (element : nid) : M bool :=
  w ← js_get;
  match last_active w with
  | None => mret false
  | Some d =>
      if isAffected w point element d then
        match d_onDrop d with
        | Some f => on_drop f element (d_element d) ;; mret true
        | None => mret false
        end
      else mret false
  end.
(** [reset] *)
Definition drop_reset : M () :=
  w ← js_get;
  match last_active w with Some d => drop_deactivate d | None => mret () end.
End droppables.

(** Properties of the state that all parts of [show], [fire] and [reset] keep. *)
Section keeping.
Context {X : Type} (layout : dom → nid → geometry) (P : dnd X → Prop).
Context (on_hover : nat → nid → nid → num → JS (dnd X) ()) (on_drop : nat → nid → nid → JS (dnd X) ()).
Context (Hhover : ∀ f e1 e2 n, upholds P (on_hover f e1 e2 n)) (Hdrop : ∀ f e1 e2, upholds P (on_drop f e1 e2)).
Context (Hadd : ∀ e c, upholds P (on_page (addClassName e c))) (Hremove : ∀ e c, upholds P (on_page (removeClassName e c))).
Context (Hactive : ∀ o, upholds P (js_modify (set_last_active o))).

Lemma deactivate_upholds d : upholds P (drop_deactivate d).
Proof. unfold drop_deactivate. repeat case_match; auto with upholds. Qed.
Lemma activate_upholds d : upholds P (drop_activate d).
Proof. unfold drop_activate. repeat case_match; auto with upholds. Qed.
#[local] Hint Resolve deactivate_upholds activate_upholds : upholds.
Lemma show_upholds point e : upholds P (drop_show layout on_hover point e).
Proof.
  unfold drop_show, js_when. apply upholds_get. intros w. case_match; [|auto with upholds].
  apply upholds_bind; [repeat case_match; auto with upholds|]. intros _. case_match; [|auto with upholds].
  apply upholds_get. intros w1. apply upholds_bind; [case_match; auto with upholds|]. intros _.
  apply upholds_get. intros w2. case_match; auto with upholds.
Qed.
Lemma fire_upholds point e : upholds P (drop_fire layout on_drop point e).
Proof. unfold drop_fire. apply upholds_get. intros w. repeat case_match; auto with upholds. Qed.
Lemma reset_upholds : upholds P drop_reset.
Proof. unfold drop_reset. apply upholds_get. intros w. case_match; auto with upholds. Qed.
End keeping.

(** ** The deepest droppable *)

Section deepest.
Context (d : dom) (depth : nid → nat).
(** The document is a tree: parents are one level up, and there are fewer
    levels than nodes. *)
Definition rooted : Prop := ∀ x, (depth x < node_count d)%nat ∧
  match parent_of d x with Some p => depth x = S (depth p) | None => True end.
Context (Hrooted : rooted).

(** Strictly above. *)
Definition above (x a : nid) : Prop := tc (λ c p, parent_of d c = Some p) x a.
Lemma above_depth x a : above x a → (depth a < depth x)%nat.
Proof.
  induction 1 as [x a Ha|x y a Hy _ IH].
  - destruct (Hrooted x) as [_ Hx]. rewrite Ha in Hx. lia.
  - destruct (Hrooted x) as [_ Hx]. rewrite Hy in Hx. lia.
Qed.
Lemma isParent_above fuel x a : (depth x < fuel)%nat → isParent fuel d x a = true ↔ above x a.
Proof.
  revert x. induction fuel as [|fuel IH]; intros x Hf; [lia|]. cbn [isParent].
  destruct (Hrooted x) as [_ Hx]. destruct (parent_of d x) as [p|] eqn:Hp.
  - destruct (decide (x = a)) as [->|Hne].
    + rewrite bool_decide_eq_true_2 by done. split; [done|]. intros Ha%above_depth. lia.
    + rewrite (bool_decide_eq_false_2 (x = a)) by done. destruct (decide (p = a)) as [->|Hpa].
      * rewrite bool_decide_eq_true_2 by done. split; [|done]. intros _. by apply tc_once.
      * rewrite (bool_decide_eq_false_2 (p = a)), IH by (done || lia). split.
        -- intros Ha. eapply tc_l; [exact Hp|exact Ha].
        -- intros Ha. inversion Ha; subst; [congruence|]. unfold above. congruence.
  - split; [done|]. intros Ha. inversion Ha; congruence.
Qed.
Lemma is_parent_above x a : is_parent d x a = true ↔ above x a.
Proof. apply isParent_above, Hrooted. Qed.
Lemma above_trans x y z : above x y → above y z → above x z.
Proof. apply tc_transitive. Qed.

(** None of the droppables is inside the one found. *)
Lemma findDeepestChild_spec first others :
  let r := findDeepestChild d first others in
  r ∈ first :: others ∧ ∀ x, x ∈ first :: others → ¬ above (d_element x) (d_element r).
Proof.
  unfold findDeepestChild. cbv zeta. assert (∀ l seen deepest, deepest ∈ seen →
    (∀ x, x ∈ seen → ¬ above (d_element x) (d_element deepest)) →
    let r := foldl (λ deepest x, if is_parent d (d_element x) (d_element deepest) then x else deepest) deepest l in
    r ∈ seen ++ l ∧ ∀ x, x ∈ seen ++ l → ¬ above (d_element x) (d_element r)) as H.
  { induction l as [|y l IH]; intros seen deepest Hin Hseen; cbn [foldl]; [by rewrite app_nil_r|].
    rewrite (cons_middle y seen l), app_assoc. apply IH.
    - destruct (is_parent _ _ _); set_solver.
    - intros x Hx. destruct (is_parent d (d_element y) (d_element deepest)) eqn:Hy.
      + apply is_parent_above in Hy. intros Hxy. apply elem_of_app in Hx as [Hx| ->%list_elem_of_singleton].
        * apply (Hseen x Hx). by eapply above_trans.
        * apply above_depth in Hxy. lia.
      + apply elem_of_app in Hx as [Hx| ->%list_elem_of_singleton]; [by apply Hseen|].
        intros Ha%is_parent_above. congruence. }
  apply (H others [first] first); [by left|]. intros x ->%list_elem_of_singleton Ha%above_depth. lia.
Qed.
End deepest.

(** ** The mark of the active droppable *)

Definition hover_name (d : drop) : option jsstr :=
  match hoverclass d with Some (c :: s) => Some (c :: s) | _ => None end.
Definition tokens_of {X} (w : dnd X) (e : nid) : option (list jsstr) := (λ n, tokens (className n)) <$> page w !! e.
Definition occurrences (c : jsstr) (l : list jsstr) : nat := length (filter (λ t, t = c) l).

Section marks.
Context {X : Type} (layout : dom → nid → geometry).
Context (on_hover : nat → nid → nid → num → JS (dnd X) ()) (on_drop : nat → nid → nid → JS (dnd X) ()).
#[local] Abbreviation W := (dnd X).
#[local] Abbreviation M := (JS (dnd X)).

(** Callbacks that return and leave the droppables and the class names alone. *)
Definition keeps_marks (w w' : W) : Prop :=
  drops w' = drops w ∧ last_active w' = last_active w ∧ ∀ e, tokens_of w' e = tokens_of w e.
Definition discreet (m : M ()) : Prop := ∀ w, ∃ w', m w = (Ret (), w') ∧ keeps_marks w w'.

(** The droppables there have been: elements of their own, with class names
    that are single words. *)
Record droppables_ok (ds : list drop) : Prop := {
  ok_elements d1 d2 : d1 ∈ ds → d2 ∈ ds → d_element d1 = d_element d2 → d1 = d2;
  ok_names d c : d ∈ ds → hover_name d = Some c → class_token c;
}.
(** Each bears its class name once if it is [o], and not otherwise. *)
Definition bears (ds : list drop) (o : option drop) (w : W) : Prop :=
  ∀ d, d ∈ ds → ∃ l, tokens_of w (d_element d) = Some l ∧
    ∀ c, hover_name d = Some c → occurrences c l = if decide (o = Some d) then 1%nat else 0%nat.
(** The active one, and no other, bears its class name. *)
Definition marked (ds : list drop) (w : W) : Prop :=
  (∀ d, d ∈ drops w → d ∈ ds) ∧ (∀ d, last_active w = Some d → d ∈ ds) ∧ bears ds (last_active w) w.

Lemma occurrences_app c l1 l2 : occurrences c (l1 ++ l2) = (occurrences c l1 + occurrences c l2)%nat.
Proof. unfold occurrences. by rewrite filter_app, length_app. Qed.
Lemma occurrences_one c : occurrences c [c] = 1%nat.
Proof. unfold occurrences. by rewrite filter_cons_True. Qed.
Lemma occurrences_cons c l : occurrences c (c :: l) = S (occurrences c l).
Proof. change (c :: l) with ([c] ++ l). by rewrite occurrences_app, occurrences_one. Qed.
Lemma occurrences_in c l : occurrences c l = 0%nat ↔ c ∉ l.
Proof.
  unfold occurrences. rewrite length_zero_iff_nil. split.
  - intros Hf Hin. assert (c ∈ filter (λ t, t = c) l) as H by by apply list_elem_of_filter.
    rewrite Hf in H. by apply not_elem_of_nil in H.
  - intros Hn. destruct (filter _ l) as [|x k] eqn:Hf; [done|]. destruct Hn.
    assert (x ∈ filter (λ t, t = c) l) as [<- ?]%list_elem_of_filter; [rewrite Hf; by left|done].
Qed.

Lemma className_set c n : className (set_attrs (<[js "class" := c]> (attrs n)) n) = c.
Proof. unfold className. cbn. by rewrite lookup_insert_eq. Qed.

(** Changing the class name of an element. *)
Lemma class_run (f : jsstr → jsstr) (m : nid → D ()) (w : W) e l :
  (∀ d n, d !! e = Some n → m e d = (Ret (), <[e := set_attrs (<[js "class" := f (className n)]> (attrs n)) n]> d)) →
  tokens_of w e = Some l →
  ∃ w' n, on_page (m e) w = (Ret (), w') ∧ drops w' = drops w ∧ last_active w' = last_active w ∧
    tokens (className n) = l ∧ tokens_of w' e = Some (tokens (f (className n))) ∧
    ∀ i, i ≠ e → tokens_of w' i = tokens_of w i.
Proof.
  intros Hm Hl. unfold tokens_of in Hl. destruct (page w !! e) as [n|] eqn:Hn; [|done]. injection Hl as <-.
  eexists _, n. unfold on_page. rewrite (Hm _ _ Hn). split; [reflexivity|]. cbn. split_and!; try done.
  - unfold tokens_of. cbn. rewrite lookup_insert_eq. cbn. by rewrite className_set.
  - intros i Hi. unfold tokens_of. cbn. by rewrite lookup_insert_ne.
Qed.
Lemma removeClassName_run e c d n : d !! e = Some n →
  removeClassName e c d = (Ret (), <[e := set_attrs (<[js "class" := remove_class (className n) c]> (attrs n)) n]> d).
Proof. intros Hn. unfold removeClassName, set_className, update_node, get_node. js_unfold. by rewrite Hn, Hn. Qed.
Lemma addClassName_run e c d n : d !! e = Some n →
  addClassName e c d = (Ret (), <[e := set_attrs (<[js "class" := add_class (className n) c]> (attrs n)) n]> d).
Proof. intros Hn. unfold addClassName, set_className, update_node, get_node. js_unfold. by rewrite Hn, Hn. Qed.

(** Changing the class name of one droppable. *)
Lemma bears_change ds o o' d c (w : W) (f : jsstr → jsstr) (m : nid → D ()) :
  droppables_ok ds → d ∈ ds → bears ds o w → hover_name d = Some c →
  (∀ e dom n, dom !! e = Some n → m e dom = (Ret (), <[e := set_attrs (<[js "class" := f (className n)]> (attrs n)) n]> dom)) →
  (∀ k, occurrences c (tokens k) = (if decide (o = Some d) then 1 else 0)%nat →
    occurrences c (tokens (f k)) = if decide (o' = Some d) then 1%nat else 0%nat) →
  (∀ d', d' ≠ d → o = Some d' ↔ o' = Some d') →
  ∃ w', on_page (m (d_element d)) w = (Ret (), w') ∧ drops w' = drops w ∧ last_active w' = last_active w ∧ bears ds o' w'.
Proof.
  intros Hds Hd Hb Hc Hm Hf Ho. destruct (Hb d Hd) as (l & Hl & Hocc).
  destruct (class_run f m w (d_element d) l (Hm _) Hl) as (w' & n & Hr & Hdr & Hla & Hn & Ht & Hoth).
  exists w'. split_and!; [done..|]. intros d' Hd'. destruct (decide (d' = d)) as [->|Hne].
  - eexists. split; [exact Ht|]. intros c' Hc'. rewrite Hc in Hc'. injection Hc' as <-. apply Hf. rewrite Hn. by apply Hocc.
  - destruct (Hb d' Hd') as (l' & Hl' & Ho'). exists l'. split.
    + rewrite Hoth; [done|]. intros He. apply Hne. by apply (ok_elements _ Hds).
    + intros c' Hc'. rewrite (Ho' c' Hc'). specialize (Ho d' Hne). repeat case_decide; tauto.
Qed.
(** A droppable without a class name. *)
Lemma bears_nameless ds o o' d (w : W) : bears ds o w → hover_name d = None →
  (∀ d', d' ≠ d → o = Some d' ↔ o' = Some d') → bears ds o' w.
Proof.
  intros Hb Hn Ho d' Hd'. destruct (Hb d' Hd') as (l & Hl & Hocc). exists l. split; [done|]. intros c Hc.
  assert (d' ≠ d) as Hne by congruence. rewrite (Hocc c Hc). specialize (Ho d' Hne). repeat case_decide; tauto.
Qed.

(** [deactivate] and [activate] write the class name, if there is one, and
    then [last_active]. *)
Lemma named_run {A} (d : drop) (m : nid → jsstr → M A) (k : M A) :
  match hoverclass d with Some (c :: s) => m (d_element d) (c :: s) | _ => k end =
  match hover_name d with Some c => m (d_element d) c | None => k end.
Proof. unfold hover_name. by destruct (hoverclass d) as [[|]|]. Qed.

Lemma remove_occurrences c k : class_token c → occurrences c (tokens k) = 1%nat →
  occurrences c (tokens (remove_class k c)) = 0%nat.
Proof.
  intros Hc H1. pose proof (tokens_remove_class k c Hc) as Hrem. case_decide as Hin.
  - destruct Hrem as (l1 & l2 & H2 & ->). rewrite H2, occurrences_app, occurrences_cons in H1. rewrite occurrences_app. lia.
  - apply occurrences_in in Hin. lia.
Qed.
Lemma add_occurrences c k : class_token c → occurrences c (tokens k) = 0%nat →
  occurrences c (tokens (add_class k c)) = 1%nat.
Proof.
  intros Hc H0. rewrite (tokens_add_class k c Hc). pose proof H0 as Hin%occurrences_in.
  rewrite decide_False by done. rewrite occurrences_app, occurrences_one. lia.
Qed.

Lemma deactivate_run ds d (w : W) : droppables_ok ds → marked ds w → last_active w = Some d →
  ∃ w', drop_deactivate d w = (Ret (), w') ∧ drops w' = drops w ∧ last_active w' = None ∧ marked ds w'.
Proof.
  intros Hds (Hdr & Hla & Hb) Hact. pose proof (Hla d Hact) as Hd. rewrite Hact in Hb.
  unfold drop_deactivate. rewrite (named_run d (λ e c, on_page (removeClassName e c))).
  assert (∃ w1, match hover_name d with Some c => on_page (removeClassName (d_element d) c) | None => mret () end w =
    (Ret (), w1) ∧ drops w1 = drops w ∧ bears ds None w1) as (w1 & Hw1 & Hd1 & Hb1).
  { destruct (hover_name d) as [c|] eqn:Hc.
    - destruct (bears_change ds (Some d) None d c w (λ k, remove_class k c) (λ e, removeClassName e c)) as (w1 & ? & ? & _ & ?);
        try done; [intros; by apply removeClassName_run| |naive_solver|eauto].
      intros k. rewrite decide_True, decide_False by done. apply remove_occurrences. by eapply ok_names.
    - exists w. split_and!; [done..|]. eapply bears_nameless; [done..|]. naive_solver. }
  rewrite (js_bind_Ret _ _ _ _ _ Hw1). eexists. split; [reflexivity|]. split; [done|]. split; [done|].
  split_and!; cbn; [by rewrite Hd1|done|exact Hb1].
Qed.
Lemma activate_run ds d (w : W) : droppables_ok ds → marked ds w → last_active w = None → d ∈ ds →
  ∃ w', drop_activate d w = (Ret (), w') ∧ drops w' = drops w ∧ last_active w' = Some d ∧ marked ds w'.
Proof.
  intros Hds (Hdr & Hla & Hb) Hact Hd. rewrite Hact in Hb.
  unfold drop_activate. rewrite (named_run d (λ e c, on_page (addClassName e c))).
  assert (∃ w1, match hover_name d with Some c => on_page (addClassName (d_element d) c) | None => mret () end w =
    (Ret (), w1) ∧ drops w1 = drops w ∧ bears ds (Some d) w1) as (w1 & Hw1 & Hd1 & Hb1).
  { destruct (hover_name d) as [c|] eqn:Hc.
    - destruct (bears_change ds None (Some d) d c w (λ k, add_class k c) (λ e, addClassName e c)) as (w1 & ? & ? & _ & ?);
        try done; [intros; by apply addClassName_run| |naive_solver|eauto].
      intros k. rewrite decide_False, decide_True by done. apply add_occurrences. by eapply ok_names.
    - exists w. split_and!; [done..|]. eapply bears_nameless; [done..|]. naive_solver. }
  rewrite (js_bind_Ret _ _ _ _ _ Hw1). eexists. split; [reflexivity|]. split; [done|]. split; [done|].
  split_and!; cbn; [by rewrite Hd1|by intros ? [= ->]|exact Hb1].
Qed.

Lemma drop_at_in (w : W) point e d : drop_at layout w point e = Some d → d ∈ drops w ∧ isAffected layout w point e d = true.
Proof.
  unfold drop_at. destruct (List.filter _ _) as [|first others] eqn:Hf; [done|]. intros [= <-].
  assert (∀ x, x ∈ first :: others → x ∈ drops w ∧ isAffected layout w point e x = true) as Hall.
  { intros x Hx. rewrite <- Hf in Hx. by apply list_elem_of_In, List.filter_In in Hx as [?%list_elem_of_In ?]. }
  apply Hall. clear. unfold findDeepestChild. revert first. induction others as [|y l IH]; intros first; cbn; [by left|].
  case_match; [|specialize (IH first); set_solver]. right. apply IH.
Qed.

Context (Hhover : ∀ f e1 e2 n, discreet (on_hover f e1 e2 n)) (Hdrop : ∀ f e1 e2, discreet (on_drop f e1 e2)).

Lemma keeps_marked ds (w w' : W) : keeps_marks w w' → marked ds w → marked ds w'.
Proof.
  intros (Hd & Hl & Ht) (H1 & H2 & H3). unfold marked. rewrite Hd, Hl. split_and!; [done..|].
  intros d Hin. rewrite Ht. by apply H3.
Qed.

Lemma show_run ds point e (w : W) : droppables_ok ds → marked ds w →
  ∃ w', drop_show layout on_hover point e w = (Ret (), w') ∧ marked ds w' ∧ drops w' = drops w ∧
    last_active w' = if decide (drops w = []) then last_active w else drop_at layout w point e.
Proof.
  intros Hds Hm. unfold drop_show. rewrite js_bind_get. case_decide as Hnil.
  { rewrite bool_decide_eq_true_2 by done. eauto. }
  rewrite bool_decide_eq_false_2 by done. cbn [negb js_when].
  set (o := drop_at layout w point e).
  assert (∃ w1, match last_active w with
     | Some last => js_when (negb (bool_decide (Some last = o))) (drop_deactivate last)
     | None => mret ()
     end w = (Ret (), w1) ∧ marked ds w1 ∧ drops w1 = drops w ∧
     (last_active w1 = None ∨ last_active w1 = o)) as (w1 & Hw1 & Hm1 & Hd1 & Hl1).
  { destruct (last_active w) as [last|] eqn:Hlast; [|by exists w; auto].
    case_bool_decide as Heq; cbn [negb js_when]; [exists w; split_and!; auto; right; congruence|].
    destruct (deactivate_run ds last w Hds Hm Hlast) as (w1 & ? & ? & ? & ?). exists w1. auto. }
  rewrite (js_bind_Ret _ _ _ _ _ Hw1). destruct o as [d|] eqn:Ho.
  2: { exists w1. destruct Hl1; auto. }
  pose proof (drop_at_in _ _ _ _ Ho) as [Hin _]. assert (d ∈ ds) as Hd by (destruct Hm as [Hm _]; by apply Hm).
  assert (∃ w2, match d_onHover d with
     | Some f => on_hover f e (d_element d) (overlap layout (page w1) (d_overlap d) (d_element d) point.1 point.2)
     | None => mret () end w1 = (Ret (), w2) ∧ keeps_marks w1 w2) as (w2 & Hw2 & Hk).
  { destruct (d_onHover d); [apply Hhover|]. exists w1. by split_and!. }
  rewrite js_bind_get. rewrite (js_bind_Ret _ _ _ _ _ Hw2).
  pose proof (keeps_marked _ _ _ Hk Hm1) as Hm2. destruct Hk as (Hd2 & Hl2 & _).
  rewrite js_bind_get. case_bool_decide as Hact; cbn [negb js_when].
  - exists w2. split_and!; [done..|congruence|done].
  - destruct (activate_run ds d w2 Hds Hm2) as (w3 & ? & ? & ? & ?); [destruct Hl1; congruence|done|].
    exists w3. split_and!; [done..|congruence|done].
Qed.

Lemma fire_run ds point e (w : W) : marked ds w →
  ∃ b w', drop_fire layout on_drop point e w = (Ret b, w') ∧ marked ds w' ∧ drops w' = drops w ∧ last_active w' = last_active w.
Proof.
  intros Hm. unfold drop_fire. rewrite js_bind_get. destruct (last_active w) as [d|] eqn:Hl; [|eexists _, w; by rewrite Hl].
  destruct (isAffected _ _ _ _ _); [|eexists _, w; by rewrite Hl].
  destruct (d_onDrop d) as [f|]; [|eexists _, w; by rewrite Hl].
  destruct (Hdrop f e (d_element d) w) as (w' & Hr & Hk). rewrite (js_bind_Ret _ _ _ _ _ Hr).
  pose proof (keeps_marked _ _ _ Hk Hm). destruct Hk as (? & ? & _). eexists _, w'. split; [done|]. by rewrite <- Hl.
Qed.
Lemma reset_run ds (w : W) : droppables_ok ds → marked ds w →
  ∃ w', drop_reset w = (Ret (), w') ∧ marked ds w' ∧ drops w' = drops w ∧ last_active w' = None.
Proof.
  intros Hds Hm. unfold drop_reset. rewrite js_bind_get. destruct (last_active w) as [d|] eqn:Hl; [|eauto].
  destruct (deactivate_run ds d w Hds Hm Hl) as (w' & ? & ? & ? & ?). eauto.
Qed.
End marks.

(** What a drag does with the droppables: [show] as it moves, [fire] and
    [reset] when it ends. *)
Inductive drop_op := Show (point : Z * Z) (e : nid) | Fire (point : Z * Z) (e : nid) | Reset_drops.

Section runs.
Context {X : Type} (layout : dom → nid → geometry).
Context (on_hover : nat → nid → nid → num → JS (dnd X) ()) (on_drop : nat → nid → nid → JS (dnd X) ()).
Definition drop_step (o : drop_op) : JS (dnd X) () :=
  match o with
  | Show p e => drop_show layout on_hover p e
  | Fire p e => drop_fire layout on_drop p e ;; mret ()
  | Reset_drops => drop_reset
  end.
Fixpoint drop_run (os : list drop_op) : JS (dnd X) () :=
  match os with [] => mret () | o :: os => drop_step o ;; drop_run os end.
(** The droppable that is active after an operation. *)
Definition active_after (o : drop_op) (w : dnd X) : option drop :=
  match o with
  | Show p e => if decide (drops w = []) then last_active w else drop_at layout w p e
  | Fire _ _ => last_active w
  | Reset_drops => None
  end.

Context (Hhover : ∀ f e1 e2 n, discreet (on_hover f e1 e2 n)) (Hdrop : ∀ f e1 e2, discreet (on_drop f e1 e2)).
Lemma step_run ds o w : droppables_ok ds → marked ds w →
  ∃ w', drop_step o w = (Ret (), w') ∧ marked ds w' ∧ drops w' = drops w ∧ last_active w' = active_after o w.
Proof.
  intros Hds Hm. destruct o as [p e|p e|]; cbn [drop_step active_after].
  - by apply show_run.
  - destruct (fire_run layout on_drop Hdrop ds p e w Hm) as (b & w' & Hr & ? & ? & ?).
    rewrite (js_bind_Ret _ _ _ _ _ Hr). eauto.
  - by apply reset_run.
Qed.
Lemma run_marked ds os w : droppables_ok ds → marked ds w →
  ∃ w', drop_run os w = (Ret (), w') ∧ marked ds w' ∧ drops w' = drops w.
Proof.
  intros Hds. revert w. induction os as [|o os IH]; intros w Hm; cbn [drop_run]; [eauto|].
  destruct (step_run ds o w Hds Hm) as (w1 & Hr & Hm1 & Hd1 & _). rewrite (js_bind_Ret _ _ _ _ _ Hr).
  destruct (IH w1 Hm1) as (w2 & ? & ? & ?). exists w2. split_and!; [done..|congruence].
Qed.
End runs.

(** While elements are dragged over the page the droppables stay marked:
    for callbacks that return and leave the class names alone, and droppables
    of distinct elements whose hover classes are words, any sequence of show,
    fire and reset returns; after the last of them the droppable the code
    means to be active is the one in [last_active], the deepest affected one
    after show and none after reset, and every droppable bears its hover class
    exactly once if it is the active one, and does not bear it otherwise. *)
Theorem drop_marks_spec {X : Type} layout (on_hover : nat → nid → nid → num → JS (dnd X) ())
    (on_drop : nat → nid → nid → JS (dnd X) ()) ds os o w :
  (∀ f e1 e2 n, discreet (on_hover f e1 e2 n)) → (∀ f e1 e2, discreet (on_drop f e1 e2)) →
  droppables_ok ds → marked ds w →
  ∃ w1 w2, drop_run layout on_hover on_drop os w = (Ret (), w1) ∧ drop_step layout on_hover on_drop o w1 = (Ret (), w2) ∧
    drops w2 = drops w ∧ last_active w2 = active_after layout o w1 ∧
    ∀ d c, d ∈ ds → hover_name d = Some c → ∃ l, tokens_of w2 (d_element d) = Some l ∧
      occurrences c l = if decide (active_after layout o w1 = Some d) then 1%nat else 0%nat.
Proof.
  intros Hh Hdr Hds Hm. destruct (run_marked layout on_hover on_drop Hh Hdr ds os w Hds Hm) as (w1 & Hr & Hm1 & Hd1).
  destruct (step_run layout on_hover on_drop Hh Hdr ds o w1 Hds Hm1) as (w2 & Hs & (_ & _ & Hb) & Hd2 & Hl).
  exists w1, w2. split_and!; [done..|congruence|done|]. intros d c Hd Hc. destruct (Hb d Hd) as (l & Ht & Ho).
  exists l. split; [done|]. rewrite <- Hl. by apply Ho.
Qed.

(** The droppable at a point: there is one exactly when some droppable is
    affected, and it is an affected one inside whose element, in the tree of
    the document, no other affected droppable lies. *)
Theorem drop_at_spec {X : Type} layout (w : dnd X) point e depth :
  rooted (page w) depth →
  match drop_at layout w point e with
  | Some d => d ∈ drops w ∧ isAffected layout w point e d = true ∧
      ∀ x, x ∈ drops w → isAffected layout w point e x = true → ¬ above (page w) (d_element x) (d_element d)
  | None => ∀ x, x ∈ drops w → isAffected layout w point e x = false
  end.
Proof.
  intros Hroot. destruct (drop_at layout w point e) as [d|] eqn:Hd.
  - pose proof (drop_at_in layout w point e d Hd) as [Hin Haff]. split_and!; [done..|]. intros x Hx Hax.
    unfold drop_at in Hd. destruct (List.filter _ _) as [|first others] eqn:Hf; [done|]. injection Hd as <-.
    apply (findDeepestChild_spec (page w) depth Hroot first others). rewrite <- Hf.
    apply list_elem_of_In, List.filter_In. split; [by apply list_elem_of_In|done].
  - unfold drop_at in Hd. destruct (List.filter _ _) as [|first others] eqn:Hf; [|done]. intros x Hx.
    destruct (isAffected layout w point e x) eqn:Ha; [|done].
    assert (In x []) as []. rewrite <- Hf. apply List.filter_In. split; [by apply list_elem_of_In|done].
Qed.

(** ** Witnesses *)

(** A page with a box, a bin inside it, and an item that is dragged. *)
Definition box_page : dom := list_to_map [
  (0%nat, Node NDocument ∅ ∅ ∅ None [1%nat]);
  (1%nat, Node (NElement (js "DIV")) ∅ ∅ ∅ (Some 0%nat) [2%nat; 3%nat]);
  (2%nat, Node (NElement (js "DIV")) (<[js "class" := js "bin"]> ∅) ∅ ∅ (Some 1%nat) []);
  (3%nat, Node (NElement (js "DIV")) ∅ ∅ ∅ (Some 1%nat) [])].
Definition box_layout (_ : dom) (e : nid) : geometry :=
  match e with
  | 1%nat => Geometry 0 0 100 100 100 100 0 0 None
  | 2%nat => Geometry 10 10 20 20 20 20 0 0 (Some 1%nat)
  | _ => Geometry 50 50 10 10 10 10 0 0 (Some 1%nat)
  end.
Definition box_drop : drop := Drop 0 1 (Some (js "hover")) false None None None (Some 0%nat) None.
Definition bin_drop : drop := Drop 1 2 (Some (js "over")) false (Some [1%nat]) None (Some (js "vertical")) None (Some 0%nat).
Definition box_world : dnd (list jsstr) := Dnd box_page [box_drop; bin_drop] None ∅ 2 [].
Definition box_hover (_ : nat) (_ _ : nid) (_ : num) : JS (dnd (list jsstr)) () :=
  js_modify (λ w, set_rest (js "hover" :: rest w) w).
Definition box_ondrop (_ : nat) (_ _ : nid) : JS (dnd (list jsstr)) () :=
  js_modify (λ w, set_rest (js "drop" :: rest w) w).
Definition box_depth (x : nid) : nat := match x with 0%nat => 0 | 1%nat => 1 | 2%nat | 3%nat => 2 | _ => 0 end.

Lemma box_ok : droppables_ok [box_drop; bin_drop].
Proof.
  split.
  - intros d1 d2 H1 H2. apply elem_of_cons in H1 as [->| ->%list_elem_of_singleton];
      apply elem_of_cons in H2 as [->| ->%list_elem_of_singleton]; done.
  - intros d c Hd. apply elem_of_cons in Hd as [->| ->%list_elem_of_singleton]; intros [= <-];
      (split; [done|reflexivity]).
Qed.
Lemma box_marked : marked [box_drop; bin_drop] box_world.
Proof.
  split_and!; [done|done|]. intros d Hd. apply elem_of_cons in Hd as [->| ->%list_elem_of_singleton];
    (eexists; split; [vm_compute; reflexivity|]); intros c [= <-]; vm_compute; reflexivity.
Qed.
Lemma box_discreet (s : jsstr) : discreet (js_modify (λ w : dnd (list jsstr), set_rest (s :: rest w) w)).
Proof. intros w. eexists. split; [reflexivity|]. by split_and!. Qed.
Lemma box_rooted : rooted box_page box_depth.
Proof.
  intros x. unfold parent_of.
  assert (node_count box_page = 4%nat) as -> by (vm_compute; reflexivity).
  do 4 (destruct x as [|x]; [vm_compute; split; [lia|done]|]). split; [cbn; lia|].
  assert (box_page !! S (S (S (S x))) = None) as ->; [|done].
  unfold box_page. cbn. by rewrite !lookup_insert_ne by lia.
Qed.

Lemma drop_marks_spec_witness : ∃ w1 w2,
  drop_run box_layout box_hover box_ondrop [Show (60, 60)%Z 3%nat; Show (15, 15)%Z 3%nat; Fire (15, 15)%Z 3%nat] box_world = (Ret (), w1) ∧
  drop_step box_layout box_hover box_ondrop Reset_drops w1 = (Ret (), w2) ∧ last_active w1 = Some bin_drop ∧
  last_active w2 = None ∧ rest w2 = [js "drop"; js "hover"].
Proof.
  destruct (drop_marks_spec box_layout box_hover box_ondrop [box_drop; bin_drop]
    [Show (60, 60)%Z 3%nat; Show (15, 15)%Z 3%nat; Fire (15, 15)%Z 3%nat] Reset_drops box_world
    (λ _ _ _ _, box_discreet _) (λ _ _ _, box_discreet _) box_ok box_marked) as (w1 & w2 & H1 & H2 & _ & H3 & _).
  exists w1, w2. split; [exact H1|]. split; [exact H2|].
  vm_compute in H1. injection H1 as <-. split; [reflexivity|]. split; [exact H3|].
  vm_compute in H2. injection H2 as <-. reflexivity.
Defined.

Lemma drop_at_spec_witness : drop_at box_layout box_world (15, 15)%Z 3%nat = Some bin_drop ∧
  ¬ above box_page (d_element box_drop) (d_element bin_drop).
Proof.
  pose proof (drop_at_spec box_layout box_world (15, 15)%Z 3%nat box_depth box_rooted) as H.
  assert (drop_at box_layout box_world (15, 15)%Z 3%nat = Some bin_drop) as E by (vm_compute; reflexivity).
  rewrite E in H. split; [exact E|]. destruct H as (_ & _ & H). apply H; [by left|vm_compute; reflexivity].
Defined.
