(* ===== verification/Position.v ===== *)
(** * Positions of elements (prototype.js: absolutize, relativize, Position)

    Taking an element out of the flow of the page and putting it back, and the
    test of a point against an element with the scroll offsets included. *)

From Stdlib Require Import ZArith QArith Ascii.
From S2P Require Import Prelude JsBase JsNum JsFloat Strings Dom Droppable.
#[local] Open Scope Z_scope.
#[local] Open Scope stdpp_scope.

(** ** Definitions *)

(** [_originalLeft], [_originalTop], [_originalWidth] and [_originalHeight]:
    what [absolutize] keeps on the element. *)
Record original := Original { originalLeft : num; originalTop : num; originalWidth : jsstr; originalHeight : jsstr }.

(** [parseFloat(element.style[k] || 0)] *)
Definition style_number (n : node) (k : jsstr) : num :=
  match style_get n k with [] => int 0 | s => parseFloat s end.

Section positions.
Context (computed : dom → nid → jsstr → option jsstr) (layout : dom → nid → geometry).

(** The result is what is kept; of an element that is absolute, nothing. *)
Definition absolutize (e : nid) : D (option original) :=
  pos ← getStyle computed e (js "position");
  if bool_decide (pos = Some (js "absolute")) then mret None
  else
    offsets ← positionedOffset computed layout e;
    d ← js_get;
    let width := clientWidth (layout d e) in
    let height := clientHeight (layout d e) in
    n ← get_node e;
    let o := Original (num_sub (int offsets.1) (style_number n (js "left"))) (num_sub (int offsets.2) (style_number n (js "top")))
               (style_get n (js "width")) (style_get n (js "height")) in
    put_style e (js "position") (js "absolute") ;;
    put_style e (js "top") (px offsets.2) ;;
    put_style e (js "left") (px offsets.1) ;;
    put_style e (js "width") (px width) ;;
    put_style e (js "height") (px height) ;;
    mret (Some o).

(** [x || 0] *)
Definition num_or_zero (x : num) : num := match x with NaN => int 0 | _ => x end.
(** Of an element that was never made absolute there is no width or height to
    assign: the text [undefined] is none, and is ignored. *)
Definition relativize (e : nid) (o : option original) : D () :=
  pos ← getStyle computed e (js "position");
  if bool_decide (pos = Some (js "relative")) then mret ()
  else
    put_style e (js "position") (js "relative") ;;
    n ← get_node e;
    let was (f : original → num) := match o with Some o => num_or_zero (f o) | None => int 0 end in
    let top := num_sub (style_number n (js "top")) (was originalTop) in
    let left := num_sub (style_number n (js "left")) (was originalLeft) in
    put_style e (js "top") (number_str top ++ js "px") ;;
    put_style e (js "left") (number_str left ++ js "px") ;;
    match o with
    | Some o => put_style e (js "height") (originalHeight o) ;; put_style e (js "width") (originalWidth o)
    | None => mret ()
    end.

(** *** Position *)

(** The fields of [Position]: the offsets of the page when [prepare] was called
    last, and the point and offset [within] keeps for [overlap]. *)
Record position_state := PositionState {
  includeScrollOffsets : bool;
  deltas : option (Z * Z);
  comp : Z * Z;
  p_offset : Z * Z;
}.
(** [prepare]: the first of the window's and the nodes' own offsets that is not
    zero. *)
Definition first_nonzero (l : list Z) : Z := default 0 (head (filter (λ z, z ≠ 0) l)).
Definition prepare (pageOffset : Z * Z) (documentElement body : nid) (d : dom) (s : position_state) : position_state :=
  PositionState (includeScrollOffsets s)
    (Some (first_nonzero [pageOffset.1; scrollLeft (layout d documentElement); scrollLeft (layout d body)],
           first_nonzero [pageOffset.2; scrollTop (layout d documentElement); scrollTop (layout d body)]))
    (comp s) (p_offset s).
Definition offset_of (d : dom) (e : nid) : Z * Z :=
  match (cumulativeOffset layout e d).1 with Ret o => o | Throw _ => (0, 0) end.
Definition scroll_of (d : dom) (e : nid) : Z * Z :=
  match (cumulativeScrollOffset layout e d).1 with Ret o => o | Throw _ => (0, 0) end.
Definition inside (d : dom) (e : nid) (offset point : Z * Z) : bool :=
  (offset.2 <=? point.2) && (point.2 <? offset.2 + offsetHeight (layout d e)) &&
  (offset.1 <=? point.1) && (point.1 <? offset.1 + offsetWidth (layout d e)).
(** Without offsets read before, the point compared is [NaN], which is inside
    nothing; it is kept as the old one here, since nothing reads it then. *)
Definition withinIncludingScrolloffsets (d : dom) (e : nid) (x y : Z) (s : position_state) : bool * position_state :=
  let cache := scroll_of d e in
  match deltas s with
  | Some dl =>
      let c := (x + cache.1 - dl.1, y + cache.2 - dl.2) in
      (inside d e (offset_of d e) c, PositionState (includeScrollOffsets s) (deltas s) c (offset_of d e))
  | None => (false, PositionState (includeScrollOffsets s) None (comp s) (offset_of d e))
  end.
Definition position_within (d : dom) (e : nid) (x y : Z) (s : position_state) : bool * position_state :=
  if includeScrollOffsets s then withinIncludingScrolloffsets d e x y s
  else (inside d e (offset_of d e) (x, y), PositionState false (deltas s) (x, y) (offset_of d e)).
Definition position_overlap (mode : option jsstr) (d : dom) (e : nid) (s : position_state) : num :=
  match mode with
  | None | Some [] => int 0
  | Some m =>
      if decide (m = js "vertical") then num_div (int ((p_offset s).2 + offsetHeight (layout d e) - (comp s).2)) (int (offsetHeight (layout d e)))
      else if decide (m = js "horizontal") then num_div (int ((p_offset s).1 + offsetWidth (layout d e) - (comp s).1)) (int (offsetWidth (layout d e)))
      else NaN
  end.
End positions.

(** ** Integers printed and read *)

Lemma span_ends p s t : Forall (λ c, p c = true) s → match t with c :: _ => p c = false | [] => True end → span p (s ++ t) = (s, t).
Proof.
  intros Hs Ht. induction Hs as [|c s Hc _ IH]; cbn; [destruct t as [|c t]; [done|]; cbn; by rewrite Ht|]. by rewrite Hc, IH.
Qed.
Lemma first_digit s : s ≠ [] → Forall (λ c, is_digit c = true) s → ∃ c s', s = c :: s' ∧ is_digit c = true.
Proof. intros Hne Hs. destruct Hs as [|c s Hc]; [done|]. eauto. Qed.
Lemma trim_left_cons_ne c s : is_space c = false → trim_left (c :: s) = c :: s.
Proof. intros Hc. cbn [trim_left]. by rewrite Hc. Qed.
(** What [parseFloat] reads of a size in pixels. *)
Lemma parseFloat_px z : Z.abs z < 2 ^ 53 → whole (parseFloat (px z)) z.
Proof.
  intros Hz. destruct (num_str_digits z) as (ds & Hs & Hne & Hds & Hv). unfold px. rewrite Hs.
  destruct (first_digit ds Hne Hds) as (c & ds' & Hc & Hdc).
  assert (decimal_prefix (ds ++ js "px") = Some (inject_Z (Z.abs z), js "px")) as Hdec.
  { unfold decimal_prefix. js_lit. rewrite (span_ends is_digit ds [112%N; 120%N]) by done. rewrite Hc at 1.
    change (exponent_part [112%N; 120%N]) with (0, [112%N; 120%N]). cbn [length]. rewrite app_nil_r, Hv.
    unfold scale10. cbn. by rewrite Z.mul_1_r. }
  assert (is_prefix (js "Infinity") (ds ++ js "px") = false) as Hinf.
  { rewrite Hc. js_lit. cbn [is_prefix app]. destruct (N.eqb_spec 73 c) as [<-|]; [done|reflexivity]. }
  assert (is_space c = false) as Hsp by by apply digit_not_space.
  assert (whole (round_q (inject_Z (Z.abs z))) (Z.abs z)) as Hw by (apply round_q_whole; [lia|done]).
  unfold parseFloat, str_decimal_prefix. destruct (Z.ltb_spec z 0) as [Hneg|Hpos].
  - cbn [app]. rewrite trim_left_cons_ne by done. cbn [opt_sign]. rewrite Hinf, Hdec. cbn [signed].
    apply whole_neg in Hw. assert (- Z.abs z = z) as He by lia. by rewrite He in Hw.
  - change ([] ++ ds) with ds.
    assert (trim_left (ds ++ js "px") = ds ++ js "px") as -> by (rewrite Hc; exact (trim_left_cons_ne c (ds' ++ js "px") Hsp)).
    assert (opt_sign (ds ++ js "px") = (false, ds ++ js "px")) as ->.
    { rewrite Hc. cbn [app]. unfold opt_sign. repeat case_match; subst; done. }
    rewrite Hinf, Hdec. cbn [signed]. assert (Z.abs z = z) as He by lia. by rewrite He in *.
Qed.

(** ** There and back *)

Section back.
Context (computed : dom → nid → jsstr → option jsstr) (layout : dom → nid → geometry).

Lemma style_number_put n k k' v : style_number (style_put k v n) k' =
  if decide (k' = k) then match v with [] => int 0 | _ => parseFloat v end else style_number n k'.
Proof. unfold style_number. rewrite style_get_put. by destruct (decide (k' = k)), v. Qed.
Lemma px_cons z : ∃ c s, px z = c :: s.
Proof.
  destruct (num_str_digits z) as (ds & Hs & Hne & _). unfold px. rewrite Hs. destruct (z <? 0); [by eexists _, _|].
  destruct ds; [done|]. by eexists _, _.
Qed.
Lemma style_number_px n k z : Z.abs z < 2 ^ 53 → style_get n k = px z → whole (style_number n k) z.
Proof.
  intros Hz Hk. unfold style_number. rewrite Hk. pose proof (parseFloat_px z Hz) as Hw. destruct (px_cons z) as (c & s & Hc).
  by rewrite Hc in *.
Qed.
Lemma getStyle_set e k n d : d !! e = Some n → k ≠ js "float" → camelize k = k → style_get n k ≠ [] → style_get n k ≠ js "auto" →
  getStyle computed e k d = (Ret (Some (style_get n k)), d).
Proof.
  intros Hn Hk Hc H1 H2. unfold getStyle, get_node. unfold mbind, js_mbind, js_get, mret, js_mret. rewrite Hn.
  unfold style_name. rewrite (bool_decide_eq_false_2 (k = _)), Hc by done.
  rewrite (bool_decide_eq_false_2 (style_get n k = [])), (bool_decide_eq_false_2 (style_get n k = js "auto")) by done. cbn [orb].
  rewrite bool_decide_eq_false_2 by congruence. done.
Qed.

(** The node taken out of the flow at [ox], [oy] with its size. *)
Definition absolute_node (n : node) (ox oy w h : Z) : node :=
  style_put (js "height") (px h) (style_put (js "width") (px w) (style_put (js "left") (px ox) (style_put (js "top") (px oy)
    (style_put (js "position") (js "absolute") n)))).
Lemma absolutize_run e n d p ox oy : d !! e = Some n → getStyle computed e (js "position") d = (Ret p, d) → p ≠ Some (js "absolute") →
  (positionedOffset computed layout e d).1 = Ret (ox, oy) →
  absolutize computed layout e d =
    (Ret (Some (Original (num_sub (int ox) (style_number n (js "left"))) (num_sub (int oy) (style_number n (js "top")))
      (style_get n (js "width")) (style_get n (js "height")))),
     <[e := absolute_node n ox oy (clientWidth (layout d e)) (clientHeight (layout d e))]> d).
Proof.
  intros Hn Hp Hne Ho. unfold absolutize. rewrite (js_bind_Ret _ _ _ _ _ Hp), bool_decide_eq_false_2 by done.
  assert (positionedOffset computed layout e d = (Ret (ox, oy), d)) as Ho' by (unfold positionedOffset in *; cbn in *; by rewrite <- Ho).
  assert (get_node e d = (Ret n, d)) as Hg by (unfold get_node; by rewrite Hn).
  rewrite (js_bind_Ret _ _ _ _ _ Ho'), js_bind_get, (js_bind_Ret _ _ _ _ _ Hg).
  rewrite (js_bind_Ret _ _ _ _ _ (put_style_run e _ _ n d Hn)).
  do 4 (rewrite (js_bind_Ret _ _ _ _ _ (put_style_run e _ _ _ _ (lookup_insert_eq _ _ _))), insert_insert_eq).
  reflexivity.
Qed.

(** The node put back into the flow, moved by [x] and [y]. *)
Definition relative_node (n : node) (x y : num) : node :=
  style_put (js "left") (number_str x ++ js "px") (style_put (js "top") (number_str y ++ js "px")
    (style_put (js "position") (js "relative") n)).
Lemma restored_node n ox oy w h x y : style_ok n →
  style_put (js "width") (style_get n (js "width")) (style_put (js "height") (style_get n (js "height"))
    (relative_node (absolute_node n ox oy w h) x y)) = relative_node n x y.
Proof.
  intros Hn. apply node_eq; try done. apply map_eq. intros i. unfold relative_node, absolute_node.
  rewrite !style_put_lookup, !style_get_lookup by done. repeat case_decide; subst; done || congruence || discriminate.
Qed.

Lemma num_or_zero_whole x k : whole x k → num_or_zero x = x.
Proof. by intros (q & -> & _). Qed.
(** What comes back of a length: the text's number. *)
Lemma back_number n o z x k : whole x k → Z.abs k < 2 ^ 51 → Z.abs z < 2 ^ 51 → style_get n o = px z →
  whole (num_sub (style_number n o) (num_or_zero (num_sub (int z) x))) k.
Proof.
  intros Hx Hk Hz Ho. assert (whole (num_sub (int z) x) (z - k)) as Hs by (apply whole_sub; [apply whole_int|done|lia]).
  rewrite (num_or_zero_whole _ _ Hs). replace k with (z - (z - k)) by lia.
  apply whole_sub; [apply style_number_px; [lia|done]|by replace (z - (z - (z - k))) with (z - k) by lia|lia].
Qed.

(** Whatever its position was, an element in the flow that is made absolute and
    then relative has the sizes and the offsets it had, and is relative; no
    other style and no other element changes. *)
Theorem relativize_absolutize e n d p ox oy l t : d !! e = Some n → style_ok n →
  getStyle computed e (js "position") d = (Ret p, d) → p ≠ Some (js "absolute") →
  (positionedOffset computed layout e d).1 = Ret (ox, oy) →
  whole (style_number n (js "left")) l → whole (style_number n (js "top")) t →
  Forall (λ z, Z.abs z < 2 ^ 51) [ox; oy; l; t] →
  ∃ o d1 x y, absolutize computed layout e d = (Ret (Some o), d1) ∧
    d1 = <[e := absolute_node n ox oy (clientWidth (layout d e)) (clientHeight (layout d e))]> d ∧
    relativize computed e (Some o) d1 = (Ret (), <[e := relative_node n x y]> d) ∧ whole x l ∧ whole y t.
Proof.
  intros Hn Hok Hp Hne Ho Hl Ht Hb. rewrite !Forall_cons in Hb. destruct Hb as (Hox & Hoy & Hbl & Hbt & _).
  eexists _, _, _, _. split; [by eapply absolutize_run|]. split; [done|].
  set (m := absolute_node n ox oy _ _). unfold relativize.
  assert (style_get m (js "position") = js "absolute") as Hpos by (unfold m, absolute_node; by rewrite !style_get_put).
  assert (getStyle computed e (js "position") (<[e := m]> d) = (Ret (Some (js "absolute")), <[e := m]> d)) as Hg.
  { rewrite <- Hpos. apply getStyle_set; [by rewrite lookup_insert_eq|done|reflexivity|by rewrite Hpos|by rewrite Hpos]. }
  rewrite (js_bind_Ret _ _ _ _ _ Hg). rewrite bool_decide_eq_false_2 by done.
  rewrite (js_bind_Ret _ _ _ _ _ (put_style_run e _ _ _ _ (lookup_insert_eq _ _ _))), insert_insert_eq.
  set (m1 := style_put (js "position") (js "relative") m).
  assert (get_node e (<[e := m1]> d) = (Ret m1, <[e := m1]> d)) as Hg1 by (unfold get_node; by rewrite lookup_insert_eq).
  rewrite (js_bind_Ret _ _ _ _ _ Hg1).
  do 3 (rewrite (js_bind_Ret _ _ _ _ _ (put_style_run e _ _ _ _ (lookup_insert_eq _ _ _))), insert_insert_eq).
  rewrite (put_style_run e _ _ _ _ (lookup_insert_eq _ _ _)), insert_insert_eq. cbn [originalTop originalLeft originalHeight originalWidth].
  split; [unfold m1, m; by rewrite <- (restored_node n ox oy (clientWidth (layout d e)) (clientHeight (layout d e)) _ _ Hok)|].
  split; apply back_number; try done; unfold m1, m, absolute_node; by rewrite !style_get_put.
Qed.
End back.

(** ** A point and an element *)

Section points.
Context (layout : dom → nid → geometry).

Lemma offset_read d e : ∃ ol ot, (cumulativeOffset layout e d).1 = Ret (ol, ot).
Proof. unfold cumulativeOffset. cbn [js_gets fst]. destruct (sum_chain _ _ _ _ _) as [ol ot]. eauto. Qed.
(** Without the scroll offsets, the test and the overlap are those of
    Droppable.v. *)
Lemma within_plain d e x y mode s : includeScrollOffsets s = false →
  let '(b, s') := position_within layout d e x y s in
  b = within layout d e x y ∧ position_overlap layout mode d e s' = overlap layout d mode e x y ∧
  includeScrollOffsets s' = false ∧ deltas s' = deltas s.
Proof.
  intros Hs. unfold position_within. rewrite Hs. unfold within, overlap, inside, offset_of, position_overlap. cbn [comp p_offset fst snd].
  destruct (offset_read d e) as (ol & ot & ->). split; [done|]. split; [|done]. cbn [fst snd].
  destruct mode as [[|c m]|]; [by rewrite !decide_False by (intros [=])| |done]. repeat case_decide; congruence.
Qed.

(** With them, a point on the page, which [dx] and [dy] of the scrolled page
    are part of, is tested where the containers' scrolling puts it: of an
    element in containers scrolled by [sx] and [sy] in all, as the plain test
    tests the point moved by what the containers add. *)
Lemma within_scrolled d e x y s dx dy : includeScrollOffsets s = true → deltas s = Some (dx, dy) →
  let '(sx, sy) := scroll_of layout d e in
  (position_within layout d e x y s).1 = within layout d e (x + sx - dx) (y + sy - dy).
Proof.
  intros Hs Hd. destruct (scroll_of layout d e) as [sx sy] eqn:Hsc. unfold position_within, withinIncludingScrolloffsets. rewrite Hs, Hd, Hsc.
  unfold within, inside, offset_of. cbn [fst snd]. by destruct (offset_read d e) as (ol & ot & ->).
Qed.
Lemma within_unscrolled d e x y s : includeScrollOffsets s = true → deltas s = Some (scroll_of layout d e) →
  (position_within layout d e x y s).1 = within layout d e x y.
Proof.
  intros Hs Hd. destruct (scroll_of layout d e) as [sx sy] eqn:Hsc. pose proof (within_scrolled d e x y s sx sy Hs Hd) as H.
  rewrite Hsc in H. rewrite H. by replace (x + sx - sx) with x by lia; replace (y + sy - sy) with y by lia.
Qed.
End points.

(** ** Witness *)

Lemma relativize_absolutize_witness : ∃ o d1 x y,
  absolutize (λ _ _ _, Some []) box_layout 3 box_page = (Ret (Some o), d1) ∧
  relativize (λ _ _ _, Some []) 3 (Some o) d1 =
    (Ret (), <[3%nat := relative_node (Node (NElement (js "DIV")) ∅ ∅ ∅ (Some 1%nat) []) x y]> box_page) ∧ whole x 0 ∧ whole y 0.
Proof.
  destruct (relativize_absolutize (λ _ _ _, Some []) box_layout 3 (Node (NElement (js "DIV")) ∅ ∅ ∅ (Some 1%nat) []) box_page
    (Some []) 50 50 0 0) as (o & d1 & x & y & H1 & _ & H2 & Hx & Hy); try reflexivity.
  - intros k. cbn [style]. by rewrite lookup_empty.
  - done.
  - by exists 0%Q.
  - by exists 0%Q.
  - repeat constructor.
  - exists o, d1, x, y. done.
Defined.
