(* ===== verification/EffectCore.v ===== *)
(** * The effect engine (effects.js: Effect.ScopedQueue, Effect.Queues,
      Effect.Base)

    Effects are objects of a heap; queues hold references to them and run
    them from a timer.  What an effect does to the document, and what the
    callbacks of its options do, is behind the interface [EffectOps]: callbacks
    are named by values, so that they can use the engine themselves.  Times
    are JavaScript numbers. *)

From Stdlib Require Import ZArith.
From S2P Require Import Prelude JsBase JsNum JsFloat Enumerable.
#[local] Open Scope Z_scope.
#[local] Open Scope stdpp_scope.

(** ** Options *)

(** The option [queue]: a position, or an object with a position, the name of
    a queue and a limit. *)
Inductive queue_option := QString (position : jsstr) | QObject (position scope : option jsstr) (limit : option Z).
Definition queue_position (q : queue_option) : option jsstr :=
  match q with QString p => Some p | QObject p _ _ => p end.
Definition queue_scope (q : queue_option) : option jsstr :=
  match q with QString _ => Some (js "global") | QObject _ s _ => s end.
Definition queue_limit (q : queue_option) : option Z :=
  match q with QString _ => None | QObject _ _ l => l end.

(** The points at which an effect calls back. *)
Inductive fx_event := BeforeStart | BeforeSetup | AfterSetup | BeforeUpdate | AfterUpdate | BeforeFinish | AfterFinish.
#[export] Instance fx_event_eq_dec : EqDecision fx_event.
Proof. solve_decision. Defined.

(** A transition given as [false] stands for the linear one. *)
Inductive transition_option := TFalse | TFun (f : num → num).

(** The options a caller gives; a callback is that of an event, the internal
    one or the user's. *)
Record fx_given (H : Type) := Given {
  g_duration : option num; g_fps : option num; g_sync : option bool; g_from : option num; g_to : option num;
  g_delay : option num; g_queue : option queue_option; g_transition : option transition_option;
  g_hooks : fx_event → bool → option H;
}.
Arguments Given {H}.
Arguments g_duration {H}.
Arguments g_fps {H}.
Arguments g_sync {H}.
Arguments g_from {H}.
Arguments g_to {H}.
Arguments g_delay {H}.
Arguments g_queue {H}.
Arguments g_transition {H}.
Arguments g_hooks {H}.

Record fx_options (H : Type) := FxOptions {
  duration : num; fps : num; sync : bool; from : num; to : num;
  delay : num; queue : queue_option; transition : num → num;
  hooks : fx_event → bool → option H;
}.
Arguments FxOptions {H}.
Arguments duration {H}.
Arguments fps {H}.
Arguments sync {H}.
Arguments from {H}.
Arguments to {H}.
Arguments delay {H}.
Arguments queue {H}.
Arguments transition {H}.
Arguments hooks {H}.

(** [Object.extend(destination, source)] on options *)
Definition either {A} (source destination : option A) : option A :=
  match source with Some a => Some a | None => destination end.
Definition extend_given {H} (destination source : fx_given H) : fx_given H :=
  Given (either (g_duration source) (g_duration destination)) (either (g_fps source) (g_fps destination))
    (either (g_sync source) (g_sync destination)) (either (g_from source) (g_from destination))
    (either (g_to source) (g_to destination)) (either (g_delay source) (g_delay destination))
    (either (g_queue source) (g_queue destination)) (either (g_transition source) (g_transition destination))
    (λ e b, either (g_hooks source e b) (g_hooks destination e b)).
Definition no_options {H} : fx_given H := Given None None None None None None None None (λ _ _, None).

(** [Effect.DefaultOptions], [sinoidal] being the default transition *)
Definition with_defaults {H} (sinoidal : num → num) (g : fx_given H) : fx_options H :=
  FxOptions (default (int 1) (g_duration g)) (default (int 100) (g_fps g)) (default false (g_sync g))
    (default (int 0) (g_from g)) (default (int 1) (g_to g)) (default (int 0) (g_delay g))
    (default (QString (js "parallel")) (g_queue g))
    (match g_transition g with None => sinoidal | Some TFalse => (λ pos, pos) | Some (TFun f) => f end)
    (g_hooks g).

(** ** State *)

Inductive fx_state := Idle | Running | Finished.

Record effect (K H : Type) := Effect {
  kind : K;
  options : fx_options H;
  currentFrame : num;
  state : fx_state;
  startOn : num;
  finishOn : num;
  fromToDelta : num;
  totalTime : num;
  totalFrames : num;
  position : option num;
}.
Arguments Effect {K H}.
Arguments kind {K H}.
Arguments options {K H}.
Arguments currentFrame {K H}.
Arguments state {K H}.
Arguments startOn {K H}.
Arguments finishOn {K H}.
Arguments fromToDelta {K H}.
Arguments totalTime {K H}.
Arguments totalFrames {K H}.
Arguments position {K H}.

Record scoped_queue := ScopedQueue { members : list nat; interval : bool }.
Definition empty_queue : scoped_queue := ScopedQueue [] false.

(** What an effect has done; a setup or a finish is recorded for kinds without
    such a method as well. *)
Inductive fx_action := Did (e : fx_event) | DidSetup | DidUpdate (pos : num) | DidFinish.

Record fx (D K H : Type) := Fx {
  document : D;
  heap : list (effect K H);
  queues : gmap jsstr scoped_queue;
  clock : Z;
  history : list (nat * fx_action);
}.
Arguments Fx {D K H}.
Arguments document {D K H}.
Arguments heap {D K H}.
Arguments queues {D K H}.
Arguments clock {D K H}.
Arguments history {D K H}.

(** The interface of a kind of effects: its methods, on the effect of an
    index, and its callbacks. *)
Class EffectOps (D K H : Type) := {
  do_setup : nat → JS (fx D K H) ();
  do_update : nat → num → JS (fx D K H) ();
  do_finish : nat → JS (fx D K H) ();
  run_hook : H → nat → JS (fx D K H) ();
}.

Section engine.
Context {D K H : Type} `{EffectOps D K H} (sinoidal : num → num).
#[local] Abbreviation M := (JS (fx D K H)).

Definition get_effect (id : nat) : M (effect K H) := λ w,
  match heap w !! id with Some e => (Ret e, w) | None => (Throw ETypeError, w) end.
Definition set_heap (l : list (effect K H)) (w : fx D K H) : fx D K H :=
  Fx (document w) l (queues w) (clock w) (history w).
Definition change_effect (id : nat) (f : effect K H → effect K H) : M () :=
  js_modify (λ w, set_heap (alter f id (heap w)) w).
Definition set_queue (name : jsstr) (q : scoped_queue) (w : fx D K H) : fx D K H :=
  Fx (document w) (heap w) (<[name := q]> (queues w)) (clock w) (history w).
Definition log_action (id : nat) (a : fx_action) : M () :=
  js_modify (λ w, Fx (document w) (heap w) (queues w) (clock w) (history w ++ [(id, a)])).
(** The document is changed by the kinds. *)
Definition on_document {A} (m : JS D A) : M A := λ w,
  let '(r, d) := m (document w) in (r, Fx d (heap w) (queues w) (clock w) (history w)).

Definition put_state (s : fx_state) (e : effect K H) : effect K H :=
  Effect (kind e) (options e) (currentFrame e) s (startOn e) (finishOn e) (fromToDelta e) (totalTime e) (totalFrames e) (position e).
Definition put_position (p : num) (e : effect K H) : effect K H :=
  Effect (kind e) (options e) (currentFrame e) (state e) (startOn e) (finishOn e) (fromToDelta e) (totalTime e) (totalFrames e) (Some p).
Definition put_frame (n : num) (e : effect K H) : effect K H :=
  Effect (kind e) (options e) n (state e) (startOn e) (finishOn e) (fromToDelta e) (totalTime e) (totalFrames e) (position e).
Definition put_kind (k : K) (e : effect K H) : effect K H :=
  Effect k (options e) (currentFrame e) (state e) (startOn e) (finishOn e) (fromToDelta e) (totalTime e) (totalFrames e) (position e).
(** [startOn += t; finishOn += t] *)
Definition postpone (t : num) (e : effect K H) : effect K H :=
  Effect (kind e) (options e) (currentFrame e) (state e) (num_add (startOn e) t) (num_add (finishOn e) t)
    (fromToDelta e) (totalTime e) (totalFrames e) (position e).

(** ** Queues *)

(** [Effect.Queues.get]: a queue is made when it is first asked for. *)
Definition get_queue (name : jsstr) : M scoped_queue := λ w,
  match queues w !! name with
  | Some q => (Ret q, w)
  | None => (Ret empty_queue, set_queue name empty_queue w)
  end.
Definition queue_effects (l : list nat) : M (list (effect K H)) := js_gets (λ w, omap (λ id, heap w !! id) l).

(** [number || timestamp] *)
Definition or_else (n : option num) (timestamp : num) : num :=
  match n with
  | Some n => if num_eqb n (int 0) || negb (num_eqb n n) then timestamp else n
  | None => timestamp
  end.
Definition is_idle (e : effect K H) : bool := match state e with Idle => true | _ => false end.

(** [add], on the queue of a name *)
Definition queue_add (name : jsstr) (id : nat) : M () :=
  q ← get_queue name;
  now ← js_gets clock;
  effect ← get_effect id;
  let place := queue_position (queue (options effect)) in
  timestamp ← (
    if decide (place = Some (js "front")) then
      l ← js_gets (λ w, filter (λ i, is_idle <$> heap w !! i = Some true) (members q));
      js_each l (λ i, change_effect i (postpone (finishOn effect))) ;;
      mret (int now)
    else if decide (place = Some (js "with-last")) then
      effects ← queue_effects (members q);
      last ← max effects (λ e _, mret (startOn e));
      mret (or_else last (int now))
    else if decide (place = Some (js "end")) then
      effects ← queue_effects (members q);
      last ← max effects (λ e _, mret (finishOn e));
      mret (or_else last (int now))
    else mret (int now));
  change_effect id (postpone timestamp) ;;
  js_modify (λ w,
    let limited := match queue_limit (queue (options effect)) with
      | None => false
      | Some n => negb (n =? 0) && (n <=? Z.of_nat (length (members q)))
      end in
    set_queue name (ScopedQueue (if limited then members q else members q ++ [id]) true) w).

(** [remove] *)
Definition queue_remove (name : jsstr) (id : nat) : M () :=
  q ← get_queue name;
  let l := filter (λ i, i ≠ id) (members q) in
  js_modify (set_queue name (ScopedQueue l (if decide (l = []) then false else interval q))).

(** ** Effects *)

(** [event] and [dispatch]: the internal callback, then the user's *)
Definition event (id : nat) (name : fx_event) : M () :=
  log_action id (Did name) ;;
  e ← get_effect id;
  match hooks (options e) name true with Some h => run_hook h id | None => mret () end ;;
  e ← get_effect id;
  match hooks (options e) name false with Some h => run_hook h id | None => mret () end.

Definition queue_of (e : effect K H) : M jsstr :=
  match queue_scope (queue (options e)) with Some name => mret name | None => js_throw ETypeError end.

(** [start], on a new effect *)
Definition start (k : K) (given : fx_given H) : M nat :=
  let o := with_defaults sinoidal given in
  let startOn := num_mul (delay o) (int 1000) in
  let finishOn := num_add startOn (num_mul (duration o) (int 1000)) in
  let e := Effect k o (int 0) Idle startOn finishOn (num_sub (to o) (from o)) (num_sub finishOn startOn)
    (num_mul (fps o) (duration o)) None in
  id ← js_gets (λ w, length (heap w));
  js_modify (λ w, set_heap (heap w ++ [e]) w) ;;
  event id BeforeStart ;;
  e ← get_effect id;
  js_when (negb (sync (options e)))
    (name ← queue_of e;
     queue_add name id) ;;
  mret id.

(** [render] *)
Definition render (id : nat) (pos : num) : M () :=
  e ← get_effect id;
  js_when (match state e with Idle => true | _ => false end)
    (change_effect id (put_state Running) ;;
     event id BeforeSetup ;;
     log_action id DidSetup ;;
     do_setup id ;;
     event id AfterSetup) ;;
  e ← get_effect id;
  js_when (match state e with Running => true | _ => false end)
    (let pos := num_add (num_mul (transition (options e) pos) (fromToDelta e)) (from (options e)) in
     change_effect id (put_position pos) ;;
     event id BeforeUpdate ;;
     log_action id (DidUpdate pos) ;;
     do_update id pos ;;
     event id AfterUpdate).

(** [cancel] *)
Definition cancel (id : nat) : M () :=
  e ← get_effect id;
  js_when (negb (sync (options e)))
    (name ← queue_of e;
     queue_remove name id) ;;
  change_effect id (put_state Finished).

(** What ends an effect: in [loop], and in [Parallel] for each of its parts. *)
Definition complete (id : nat) : M () :=
  render id (int 1) ;;
  cancel id ;;
  event id BeforeFinish ;;
  log_action id DidFinish ;;
  do_finish id ;;
  event id AfterFinish.

(** [loop] of an effect *)
Definition loop (id : nat) (timePos : num) : M () :=
  e ← get_effect id;
  js_when (num_geb timePos (startOn e))
    (if num_geb timePos (finishOn e) then complete id
     else
       let pos := num_div (num_sub timePos (startOn e)) (totalTime e) in
       let frame := num_round (num_mul pos (totalFrames e)) in
       js_when (num_gtb frame (currentFrame e))
         (render id pos ;;
          change_effect id (put_frame frame))).

(** [loop] of a queue: an index goes over the members the queue has at each
    moment, up to the number it had at first. *)
Definition queue_loop_at (name : jsstr) (timePos : num) (i : nat) : M () :=
  q ← get_queue name;
  match members q !! i with Some id => loop id timePos | None => mret () end.
Definition queue_loop (name : jsstr) : M () :=
  timePos ← js_gets (λ w, int (clock w));
  q ← get_queue name;
  js_each (seq 0 (length (members q))) (queue_loop_at name timePos).

(** The timer of a queue, at a time. *)
Definition tick (name : jsstr) (time : Z) : M () :=
  js_modify (λ w, Fx (document w) (heap w) (queues w) time (history w)) ;;
  q ← js_gets (λ w, queues w !! name);
  js_when (default false (interval <$> q)) (queue_loop name).
End engine.

(** ** The life of an effect *)

Definition rank (s : fx_state) : nat := match s with Idle => 0 | Running => 1 | Finished => 2 end.
Definition is_setup (id : nat) (x : nat * fx_action) : bool :=
  match x with (i, DidSetup) => (i =? id)%nat | _ => false end.

Section life.
Context {D K H : Type}.
#[local] Abbreviation W := (fx D K H).

(** How often an effect was set up. *)
Definition setups (id : nat) (w : W) : nat := length (List.filter (is_setup id) (history w)).
Definition state_of (id : nat) (w : W) : option fx_state := state <$> heap w !! id.

(** An effect that has not begun was not set up, the others were at most once. *)
Definition fresh_or_once (w : W) : Prop := ∀ id,
  (setups id w ≤ 1)%nat ∧ (state_of id w = None ∨ state_of id w = Some Idle → setups id w = 0%nat).
(** Effects stay, their states only go forward, and one that has begun is not
    set up again. *)
Definition advances (w w' : W) : Prop := ∀ id s, state_of id w = Some s →
  (∃ s', state_of id w' = Some s' ∧ (rank s ≤ rank s')%nat) ∧ (s ≠ Idle → setups id w' = setups id w).
Definition lawful {A} (m : JS W A) : Prop := ∀ w, fresh_or_once w → fresh_or_once (m w).2 ∧ advances w (m w).2.

#[export] Instance advances_preorder : PreOrder advances.
Proof.
  split.
  - intros w id s Hs. split; [by exists s|done].
  - intros w1 w2 w3 H12 H23 id s Hs. destruct (H12 id s Hs) as [(s2 & Hs2 & Hr) Hn].
    destruct (H23 id s2 Hs2) as [(s3 & Hs3 & Hr') Hn']. split; [exists s3; split; [done|lia]|].
    intros Hi. rewrite <- (Hn Hi). apply Hn'. intros ->. destruct s; [done|cbn in Hr; lia..].
Qed.

Lemma lawful_ret {A} (a : A) : lawful (mret a).
Proof. by intros w Hw. Qed.
Lemma lawful_throw {A} (e : exn) : lawful (js_throw e : JS W A).
Proof. by intros w Hw. Qed.
Lemma lawful_bind {A B} (m : JS W A) (f : A → JS W B) : lawful m → (∀ a, lawful (f a)) → lawful (m ≫= f).
Proof.
  intros Hm Hf w Hw. destruct (Hm w Hw) as [H1 H2]. unfold mbind, js_mbind.
  destruct (m w) as [[a|e] w1]; [|done]. destruct (Hf a w1 H1) as [H3 H4]. split; [done|]. by trans w1.
Qed.
Lemma lawful_bind_at {A B} (m : JS W A) (f : A → JS W B) w0 w :
  fresh_or_once (m w).2 ∧ advances w0 (m w).2 →
  (∀ a w1, m w = (Ret a, w1) → fresh_or_once w1 → advances w0 w1 →
    fresh_or_once (f a w1).2 ∧ advances w0 (f a w1).2) →
  fresh_or_once ((m ≫= f) w).2 ∧ advances w0 ((m ≫= f) w).2.
Proof.
  intros [Hm Ha] Hf. unfold mbind, js_mbind. destruct (m w) as [[a|e] w1]; [|done]. by apply Hf.
Qed.
Lemma lawful_from {A} (m : JS W A) w0 w : lawful m → fresh_or_once w → advances w0 w →
  fresh_or_once (m w).2 ∧ advances w0 (m w).2.
Proof. intros Hm Hw H0. destruct (Hm w Hw). split; [done|by trans w]. Qed.
Lemma lawful_when b (m : JS W ()) : lawful m → lawful (js_when b m).
Proof. destruct b; [done|intros _; apply lawful_ret]. Qed.
Lemma lawful_each {A} (l : list A) (f : A → JS W ()) : (∀ a, lawful (f a)) → lawful (js_each l f).
Proof. intros Hf. induction l as [|a l IH]; [apply lawful_ret|]. apply lawful_bind; [apply Hf|done]. Qed.
(** Computations that leave the heap and the history. *)
Lemma lawful_same {A} (m : JS W A) : (∀ w, heap (m w).2 = heap w ∧ history (m w).2 = history w) → lawful m.
Proof.
  intros Hm w Hw. destruct (Hm w) as [Hh Hi]. unfold fresh_or_once, advances, setups, state_of in *.
  rewrite Hh, Hi. split; [done|]. intros id s Hs. split; [by exists s|done].
Qed.
Lemma lawful_gets {A} (f : W → A) : lawful (js_gets f).
Proof. by apply lawful_same. Qed.
End life.

Create HintDb lawful.
#[export] Hint Resolve lawful_ret lawful_throw lawful_bind lawful_when lawful_each lawful_gets : lawful.

(** The promise of a kind of effects: it acts on effects through the engine. *)
Class LawfulOps (D K H : Type) `{EffectOps D K H} : Prop := {
  setup_lawful id : lawful (do_setup id);
  update_lawful id pos : lawful (do_update id pos);
  finish_lawful id : lawful (do_finish id);
  hook_lawful h id : lawful (run_hook h id);
}.
#[export] Hint Resolve setup_lawful update_lawful finish_lawful hook_lawful : lawful.

Section engine_life.
Context {D K H : Type} `{LawfulOps D K H} (sinoidal : num → num).
#[local] Abbreviation M := (JS (fx D K H)).

Lemma get_effect_lawful id : lawful (get_effect id : M _).
Proof. apply lawful_same. intros w. unfold get_effect. by destruct (heap w !! id). Qed.
Lemma get_queue_lawful name : lawful (get_queue name : M _).
Proof. apply lawful_same. intros w. unfold get_queue. by destruct (queues w !! name). Qed.
Lemma change_lawful id f : (∀ e : effect K H, state (f e) = state e) → lawful (change_effect id f : M ()).
Proof.
  intros Hf w Hw. assert (∀ i, state_of i (set_heap (alter f id (heap w)) w) = state_of i w) as Hs.
  { intros i. unfold state_of. cbn. destruct (decide (i = id)) as [->|Hne].
    - rewrite list_lookup_alter_eq. destruct (heap w !! id); cbn; by rewrite ?Hf.
    - by rewrite list_lookup_alter_ne. }
  unfold change_effect, js_modify. cbn [snd]. split.
  - intros i. rewrite Hs. apply Hw.
  - intros i s Hi. rewrite Hs. split; [by exists s|done].
Qed.
(** An effect goes to a later state. *)
Lemma put_state_lawful id s : s ≠ Idle → ∀ w : fx D K H, fresh_or_once w →
  (∀ s0, state_of id w = Some s0 → (rank s0 ≤ rank s)%nat) →
  fresh_or_once (change_effect id (put_state s) w).2 ∧ advances w (change_effect id (put_state s) w).2.
Proof.
  intros Hs w Hw Hr. unfold change_effect, js_modify. cbn [snd]. set (w' := set_heap _ w).
  assert (∀ i, i ≠ id → state_of i w' = state_of i w) as Hne.
  { intros i Hi. unfold state_of. cbn. by rewrite list_lookup_alter_ne. }
  assert (state_of id w' = (λ _, s) <$> state_of id w) as Heq.
  { unfold state_of. cbn. rewrite list_lookup_alter_eq. by destruct (heap w !! id). }
  split; intros i; destruct (decide (i = id)) as [->|Hi].
  - split; [apply Hw|]. rewrite Heq. intros [Hn|Hn]; [|by destruct (state_of id w); cbn in Hn; congruence].
    apply (Hw id). left. by destruct (state_of id w).
  - rewrite (Hne i Hi). apply Hw.
  - intros s0 Hs0. rewrite Heq, Hs0. cbn. split; [exists s; split; [done|by apply Hr]|done].
  - intros s0 Hs0. rewrite (Hne i Hi). split; [by exists s0|done].
Qed.
Lemma finished_lawful id : lawful (change_effect id (put_state Finished) : M ()).
Proof. intros w Hw. apply put_state_lawful; [done..|]. intros []; cbn; lia. Qed.
Lemma log_lawful id a : a ≠ DidSetup → lawful (log_action id a : M ()).
Proof.
  intros Ha w Hw. unfold log_action, js_modify. cbn [snd]. set (w' := Fx _ _ _ _ _).
  assert (∀ i, setups i w' = setups i w) as Hs.
  { intros i. unfold setups. cbn. rewrite List.filter_app, length_app. cbn. destruct a; try done; cbn; lia. }
  split; intros i; [split; rewrite Hs; apply Hw|]. intros s Hi. rewrite Hs. split; [by exists s|done].
Qed.
Hint Resolve get_effect_lawful get_queue_lawful finished_lawful : lawful.

Lemma max_lawful {A} (l : list A) (f : A → num) : lawful (max l (λ a _, mret (f a)) : M _).
Proof.
  apply lawful_same. intros w. unfold max. rewrite with_result_run.
  generalize 0, (elements l), (@None num). intros i l'. revert i.
  induction l' as [|a l' IH]; intros i r; [done|]. rewrite loop_cons. js_unfold. cbn.
  destruct r as [r|]; [destruct (num_geb (f a) r)|]; apply IH.
Qed.
Hint Resolve max_lawful : lawful.

Lemma queue_add_lawful name id : lawful (queue_add name id : M ()).
Proof.
  unfold queue_add. apply lawful_bind; [apply get_queue_lawful|intros q].
  apply lawful_bind; [apply lawful_gets|intros now]. apply lawful_bind; [apply get_effect_lawful|intros e].
  cbv zeta. apply lawful_bind; [|intros t; apply lawful_bind; [by apply change_lawful|intros _; by apply lawful_same]].
  repeat case_decide; unfold queue_effects; eauto 10 with lawful.
  apply lawful_bind; [apply lawful_gets|]. intros l. apply lawful_bind; [|intros; apply lawful_ret].
  apply lawful_each. intros i. by apply change_lawful.
Qed.
Lemma queue_remove_lawful name id : lawful (queue_remove name id : M ()).
Proof. apply lawful_bind; [apply get_queue_lawful|]. intros q. by apply lawful_same. Qed.
Lemma event_lawful id name : lawful (event id name : M ()).
Proof.
  apply lawful_bind; [by apply log_lawful|intros _].
  apply lawful_bind; [apply get_effect_lawful|intros e].
  apply lawful_bind; [destruct (hooks _ _ _); auto with lawful|intros _].
  apply lawful_bind; [apply get_effect_lawful|intros e']. destruct (hooks _ _ _); auto with lawful.
Qed.
Lemma queue_of_lawful (e : effect K H) : lawful (queue_of e : M _).
Proof. unfold queue_of. destruct (queue_scope _); auto with lawful. Qed.
Hint Resolve queue_add_lawful queue_remove_lawful event_lawful queue_of_lawful : lawful.

Lemma cancel_lawful id : lawful (cancel id : M ()).
Proof. unfold cancel. auto 10 with lawful. Qed.

(** The part of [render] that sets an effect up. *)
Lemma set_up_lawful id (w : fx D K H) : fresh_or_once w → state_of id w = Some Idle →
  let m : M () := change_effect id (put_state Running) ;; event id BeforeSetup ;; log_action id DidSetup ;;
    do_setup id ;; event id AfterSetup in
  fresh_or_once (m w).2 ∧ advances w (m w).2.
Proof.
  intros Hw Hi m. subst m. apply lawful_bind_at.
  { apply put_state_lawful; [done..|]. intros s0. rewrite Hi. intros [= <-]. cbn. lia. }
  intros [] w1 [= <-] Hw1 H01. set (w1 := set_heap _ w) in *.
  assert (state_of id w1 = Some Running) as Hr.
  { unfold w1, state_of in *. cbn. rewrite list_lookup_alter_eq. by destruct (heap w !! id). }
  assert (setups id w1 = 0%nat) as Hz by (apply (Hw id); by right).
  apply lawful_bind_at; [by apply (lawful_from _ w w1 (event_lawful id BeforeSetup))|]. intros [] w2 Hw2e Hw2 H02.
  destruct (proj2 (event_lawful id BeforeSetup w1 Hw1) id Running Hr) as [(s2 & Hs2 & Hr2) Hsame].
  rewrite Hw2e in Hs2, Hsame. cbn [snd] in Hs2, Hsame. rewrite Hz in Hsame.
  assert (∀ i, setups i (log_action id DidSetup w2).2 = (setups i w2 + if (i =? id)%nat then 1 else 0)%nat) as Hset.
  { intros i. unfold setups. cbn. rewrite List.filter_app, length_app. cbn.
    rewrite (Nat.eqb_sym i id). by destruct (id =? i)%nat. }
  apply lawful_bind_at; [|intros [] w3 [= <-] Hw3 H03; apply lawful_from; auto with lawful].
  split; intros i; rewrite Hset.
  - destruct (Nat.eqb_spec i id) as [->|Hne]; [|rewrite Nat.add_0_r; apply Hw2].
    rewrite Hsame by done. split; [lia|]. change (state_of id _) with (state_of id w2). rewrite Hs2.
    intros [?|[= ->]]; [done|cbn in Hr2; lia].
  - intros s Hs. change (state_of i _) with (state_of i w2). destruct (Nat.eqb_spec i id) as [->|Hne].
    + rewrite Hi in Hs. injection Hs as <-. split; [|done]. exists s2. split; [done|cbn; lia].
    + rewrite Nat.add_0_r. by apply H02.
Qed.

Lemma render_lawful id pos : lawful (render id pos : M ()).
Proof.
  intros w Hw. unfold render. apply lawful_bind_at; [by apply get_effect_lawful|]. intros e w1 Heq Hw1 H01.
  assert (w1 = w ∧ heap w !! id = Some e) as [-> He] by (unfold get_effect in Heq; destruct (heap w !! id); split; congruence).
  match goal with |- context [(js_when _ _ ≫= ?f) w] => set (second := f) end.
  assert (∀ x, lawful (second x)) as Hsec.
  { intros x. apply lawful_bind; [apply get_effect_lawful|intros e2]. apply lawful_when. cbv zeta.
    apply lawful_bind; [by apply change_lawful|intros _]. apply lawful_bind; [apply event_lawful|intros _].
    apply lawful_bind; [by apply log_lawful|intros _]. auto with lawful. }
  apply lawful_bind_at; [|intros x w1 _ Hw' H02; by apply lawful_from].
  destruct (state e) eqn:Hst; [|split; [done|reflexivity]..]. apply set_up_lawful; [done|].
  unfold state_of. rewrite He. cbn. by rewrite Hst.
Qed.
Hint Resolve cancel_lawful render_lawful : lawful.

Lemma complete_lawful id : lawful (complete id : M ()).
Proof.
  unfold complete. apply lawful_bind; [apply render_lawful|intros _]. apply lawful_bind; [apply cancel_lawful|intros _].
  apply lawful_bind; [apply event_lawful|intros _]. apply lawful_bind; [by apply log_lawful|auto with lawful].
Qed.
Lemma loop_lawful id t : lawful (loop id t : M ()).
Proof.
  apply lawful_bind; [apply get_effect_lawful|intros e]. apply lawful_when.
  destruct (num_geb _ _); [apply complete_lawful|]. cbv zeta. apply lawful_when.
  apply lawful_bind; [apply render_lawful|intros _]. by apply change_lawful.
Qed.
Hint Resolve loop_lawful : lawful.
Lemma queue_loop_lawful name : lawful (queue_loop name : M ()).
Proof.
  apply lawful_bind; [apply lawful_gets|intros t]. apply lawful_bind; [apply get_queue_lawful|intros q].
  apply lawful_each. intros i. apply lawful_bind; [apply get_queue_lawful|intros q'].
  destruct (members q' !! i); auto with lawful.
Qed.
Lemma tick_lawful name t : lawful (tick name t : M ()).
Proof.
  apply lawful_bind; [by apply lawful_same|intros _]. apply lawful_bind; [apply lawful_gets|intros q].
  apply lawful_when, queue_loop_lawful.
Qed.
Lemma start_lawful k given : lawful (start sinoidal k given : M nat).
Proof.
  unfold start. cbv zeta. apply lawful_bind; [apply lawful_gets|intros id].
  apply lawful_bind; [|intros _; auto 10 with lawful].
  intros w Hw. unfold js_modify. cbn [snd]. set (e := Effect _ _ _ _ _ _ _ _ _ _).
  assert (∀ i, state_of i (set_heap (heap w ++ [e]) w) =
    match state_of i w with Some s => Some s | None => if decide (i = length (heap w)) then Some Idle else None end) as Hs.
  { intros i. unfold state_of. cbn. destruct (heap w !! i) as [e0|] eqn:He.
    - by rewrite (lookup_app_l_Some _ _ _ _ He).
    - rewrite lookup_app_r by (by apply lookup_ge_None). apply lookup_ge_None in He. case_decide as Hd.
      + subst i. by rewrite Nat.sub_diag.
      + rewrite lookup_ge_None_2; [done|cbn; lia]. }
  split; intros i; [|intros s Hi; rewrite Hs, Hi; split; [by exists s|done]].
  split; [apply Hw|]. rewrite Hs. intros Hor. apply (Hw i). destruct (state_of i w) as [s|]; [|by left].
  destruct Hor as [?|[= ->]]; [done|by right].
Qed.
End engine_life.
#[export] Hint Resolve get_effect_lawful get_queue_lawful finished_lawful queue_add_lawful queue_remove_lawful
  event_lawful queue_of_lawful cancel_lawful render_lawful complete_lawful loop_lawful queue_loop_lawful tick_lawful
  start_lawful : lawful.
