(* ===== verification/EffectQueue.v ===== *)
(** * The timelines of the effect queues

    What adding an effect promises about the order of effects, and that the
    timer of a queue empties it. *)

From Stdlib Require Import ZArith QArith_base.
From S2P Require Import Prelude JsBase JsNum JsFloat Enumerable EffectCore.
#[local] Open Scope Z_scope.
#[local] Open Scope stdpp_scope.

(** ** Quiet effects *)

Section quiet.
(** What the methods of the effects need of the document and of the kinds of
    all effects. *)
Context {D K H : Type} (needs : D → list K → Prop).
#[local] Abbreviation W := (fx D K H).
Definition ready (w : W) : Prop := needs (document w) (kind <$> heap w).

(** What the queues go by. *)
Definition schedule (e : effect K H) : fx_options H * num * num := (options e, startOn e, finishOn e).
Definition schedule_of (id : nat) (w : W) : option (fx_options H * num * num) := schedule <$> heap w !! id.

(** The queues and the schedules are left alone, and the states but that of
    the effects of [p]. *)
Record undisturbed (p : nat → Prop) (w w' : W) : Prop := {
  un_queues : queues w' = queues w;
  un_clock : clock w' = clock w;
  un_schedule id : schedule_of id w' = schedule_of id w;
  un_state id : ¬ p id → state_of id w' = state_of id w;
  un_ready : ready w → ready w';
}.
#[export] Instance undisturbed_preorder p : PreOrder (undisturbed p).
Proof.
  split; [by split|]. intros w1 w2 w3 [] []. split; try congruence; [|by auto].
  intros id Hid. rewrite un_state1, un_state0; done.
Qed.
Lemma undisturbed_weaken (p q : nat → Prop) w w' : (∀ i, p i → q i) → undisturbed p w w' → undisturbed q w w'.
Proof. intros Hpq []. split; auto. Qed.

Lemma undisturbed_exists p w w' id : undisturbed p w w' → is_Some (heap w !! id) → is_Some (heap w' !! id).
Proof.
  intros Hu [e He]. pose proof (un_schedule _ _ _ Hu id) as Hs. unfold schedule_of in Hs. rewrite He in Hs.
  destruct (heap w' !! id); [done|discriminate].
Qed.
End quiet.

#[local] Abbreviation nobody := (λ _ : nat, False).
(** Methods and callbacks that return, leave all effects alone and keep what
    the others need. *)
Definition quiet {D K H} (needs : D → list K → Prop) (m : JS (fx D K H) ()) : Prop :=
  ∀ w, ready needs w → ∃ w', m w = (Ret (), w') ∧ undisturbed needs nobody w w'.
(** An effect whose methods and callbacks are quiet. *)
Record calm {D K H} `{EffectOps D K H} (needs : D → list K → Prop) (id : nat) (o : fx_options H) : Prop := {
  setup_quiet : quiet needs (do_setup id);
  update_quiet pos : quiet needs (do_update id pos);
  finish_quiet : quiet needs (do_finish id);
  hook_quiet name b h : hooks o name b = Some h → quiet needs (run_hook h id);
}.

Create HintDb around.
Section run.
Context {D K H : Type} {ops : EffectOps D K H} (needs : D → list K → Prop).
#[local] Abbreviation M := (JS (fx D K H)).
#[local] Abbreviation quiet := (quiet needs).
#[local] Abbreviation undisturbed := (undisturbed needs).

Lemma quiet_ret : quiet (mret () : M ()).
Proof. intros w _. by exists w. Qed.
Lemma quiet_bind (m k : M ()) : quiet m → quiet k → quiet (m ;; k).
Proof.
  intros Hm Hk w Hw. destruct (Hm w Hw) as (w1 & Hw1 & H1). destruct (Hk w1) as (w2 & Hw2 & H2); [by apply H1|].
  exists w2. split; [by rewrite (js_bind_Ret _ _ _ _ _ Hw1)|by trans w1].
Qed.
Lemma quiet_log id a : quiet (log_action id a : M ()).
Proof. intros w _. eexists. split; [reflexivity|by split]. Qed.
Lemma kinds_alter (f : effect K H → effect K H) (id : nat) (l : list (effect K H)) : (∀ e, kind (f e) = kind e) → kind <$> alter f id l = kind <$> l.
Proof.
  intros Hf. apply list_eq. intros i. rewrite !list_lookup_fmap. destruct (decide (i = id)) as [->|Hne].
  - rewrite list_lookup_alter_eq. destruct (l !! id); cbn; by rewrite ?Hf.
  - by rewrite list_lookup_alter_ne.
Qed.
(** Changing what no schedule shows. *)
Lemma quiet_change id f : (∀ e : effect K H, schedule (f e) = schedule e ∧ state (f e) = state e ∧ kind (f e) = kind e) →
  quiet (change_effect id f : M ()).
Proof.
  intros Hf w _. eexists. split; [reflexivity|]. split; try done;
    [| |unfold ready; cbn; rewrite kinds_alter; [done|intros e; apply Hf]]; intros i; unfold schedule_of, state_of; cbn;
    (destruct (decide (i = id)) as [->|Hne]; [rewrite list_lookup_alter_eq|by rewrite list_lookup_alter_ne]).
  - destruct (heap w !! id) as [e|]; [|done]. exact (f_equal Some (proj1 (Hf e))).
  - intros _. destruct (heap w !! id) as [e|]; [|done]. exact (f_equal Some (proj1 (proj2 (Hf e)))).
Qed.

Lemma get_effect_some id (w : fx D K H) e : heap w !! id = Some e → get_effect id w = (Ret e, w).
Proof. intros He. unfold get_effect. by rewrite He. Qed.
Lemma quiet_hook o name b id : calm needs id o → quiet (match hooks o name b with Some h => run_hook h id | None => mret () end).
Proof. intros Ho. destruct (hooks o name b) eqn:Hh; [by eapply hook_quiet|apply quiet_ret]. Qed.

(** A world where the methods can run and the effect is calm. *)
Definition calm_at (id : nat) (w : fx D K H) : Prop := ready needs w ∧ ∃ o s f, schedule_of id w = Some (o, s, f) ∧ calm needs id o.
Lemma calm_undisturbed p id w w' : undisturbed p w w' → calm_at id w → calm_at id w'.
Proof.
  intros Hu (Hr & o & s & f & Ho & Hc). split; [by apply Hu|]. exists o, s, f. by rewrite (un_schedule _ _ _ _ Hu).
Qed.
Lemma calm_effect id w : calm_at id w → ready needs w ∧ ∃ e, heap w !! id = Some e ∧ calm needs id (options e).
Proof.
  intros (Hr & o & s & f & Ho & Hc). unfold schedule_of in Ho. destruct (heap w !! id) as [e|] eqn:He; [|done].
  injection Ho as <- <- <-. split; [done|by exists e].
Qed.

Lemma event_run id name (w : fx D K H) : calm_at id w →
  ∃ w', event id name w = (Ret (), w') ∧ undisturbed nobody w w'.
Proof.
  intros Hw. unfold event. destruct (quiet_log id (Did name) w (proj1 Hw)) as (w1 & Hw1 & H1).
  rewrite (js_bind_Ret _ _ _ _ _ Hw1). pose proof (calm_undisturbed _ _ _ _ H1 Hw) as Hc1.
  destruct (calm_effect _ _ Hc1) as (Hr1 & e1 & He1 & Ho1). rewrite (js_bind_Ret _ _ _ _ _ (get_effect_some _ _ _ He1)).
  destruct (quiet_hook (options e1) name true id Ho1 w1 Hr1) as (w2 & Hw2 & H2).
  rewrite (js_bind_Ret _ _ _ _ _ Hw2).
  destruct (calm_effect _ _ (calm_undisturbed _ _ _ _ H2 Hc1)) as (Hr2 & e2 & He2 & Ho2).
  rewrite (js_bind_Ret _ _ _ _ _ (get_effect_some _ _ _ He2)).
  destruct (quiet_hook (options e2) name false id Ho2 w2 Hr2) as (w3 & Hw3 & H3).
  exists w3. split; [done|]. trans w1; [done|]. by trans w2.
Qed.

(** Computations that disturb at most the state of an effect. *)
Definition around (id : nat) (m : M ()) : Prop := ∀ w, calm_at id w →
  ∃ w', m w = (Ret (), w') ∧ undisturbed (λ i, i = id) w w'.
Lemma around_quiet id (m : M ()) : quiet m → around id m.
Proof.
  intros Hm w Hc. destruct (Hm w (proj1 Hc)) as (w' & Hw & Hu). exists w'. split; [done|].
  by apply (undisturbed_weaken needs nobody).
Qed.
Lemma around_bind id (m k : M ()) : around id m → around id k → around id (m ;; k).
Proof.
  intros Hm Hk w Hw. destruct (Hm w Hw) as (w1 & Hw1 & H1).
  destruct (Hk w1 (calm_undisturbed _ _ _ _ H1 Hw)) as (w2 & Hw2 & H2).
  exists w2. split; [by rewrite (js_bind_Ret _ _ _ _ _ Hw1)|by trans w1].
Qed.
Lemma around_event id name : around id (event id name).
Proof.
  intros w Hw. destruct (event_run id name w Hw) as (w' & Hr & Hu). exists w'. split; [done|].
  by apply (undisturbed_weaken needs nobody).
Qed.
Lemma around_state id s : around id (change_effect id (put_state s) : M ()).
Proof.
  intros w _. eexists. split; [reflexivity|]. split; try done; [| |unfold ready; cbn; by rewrite kinds_alter];
    intros i; unfold schedule_of, state_of; cbn.
  - destruct (decide (i = id)) as [->|Hne]; [rewrite list_lookup_alter_eq; by destruct (heap w !! id)|].
    by rewrite list_lookup_alter_ne.
  - intros Hi. by rewrite list_lookup_alter_ne.
Qed.
Lemma around_get id (k : effect K H → M ()) : (∀ e, calm needs id (options e) → around id (k e)) →
  around id (e ← get_effect id; k e).
Proof.
  intros Hk w Hw. destruct (calm_effect _ _ Hw) as (_ & e & He & Ho).
  rewrite (js_bind_Ret _ _ _ _ _ (get_effect_some _ _ _ He)). by apply Hk.
Qed.
Lemma around_when id b m : around id m → around id (js_when b m).
Proof. destruct b; [done|]. intros _. apply around_quiet, quiet_ret. Qed.
#[local] Hint Resolve around_quiet around_event around_state quiet_log : around.
#[local] Hint Extern 2 (EffectQueue.quiet _ _) => eapply setup_quiet; eassumption : around.
#[local] Hint Extern 2 (EffectQueue.quiet _ _) => eapply update_quiet; eassumption : around.

Lemma render_run id pos : around id (render id pos).
Proof.
  unfold render. apply around_get. intros e He. apply around_bind.
  - apply around_when. repeat first [apply around_event|apply around_bind]; auto with around.
  - apply around_get. intros e2 He2. apply around_when. cbv zeta. repeat first [apply around_event|apply around_bind]; auto with around.
    apply around_quiet. by apply quiet_change.
Qed.

(** Cancelling takes an effect out of its queue. *)
Definition removed_from (id : nat) (q : scoped_queue) : scoped_queue :=
  let l := filter (λ i, i ≠ id) (members q) in ScopedQueue l (if decide (l = []) then false else interval q).

Lemma complete_run id name q (w : fx D K H) e : heap w !! id = Some e → sync (options e) = false →
  queue_scope (queue (options e)) = Some name → queues w !! name = Some q → ready needs w → calm needs id (options e) →
  ∃ w', complete id w = (Ret (), w') ∧ queues w' = <[name := removed_from id q]> (queues w) ∧ clock w' = clock w ∧
    (∀ i, schedule_of i w' = schedule_of i w) ∧ (∀ i, i ≠ id → state_of i w' = state_of i w) ∧
    state_of id w' = Some Finished ∧ ready needs w'.
Proof.
  intros He Hsync Hscope Hq Hr Hcalm. unfold complete.
  assert (calm_at id w) as Hcw.
  { split; [done|]. exists (options e), (startOn e), (finishOn e). unfold schedule_of. by rewrite He. }
  destruct (render_run id (int 1) w Hcw) as (w1 & Hw1 & H1). rewrite (js_bind_Ret _ _ _ _ _ Hw1).
  destruct (undisturbed_exists _ _ _ _ _ H1 (ex_intro _ _ He)) as [e1 He1].
  assert (options e1 = options e) as Ho.
  { pose proof (un_schedule _ _ _ _ H1 id) as Hs. unfold schedule_of in Hs. rewrite He, He1 in Hs. by injection Hs. }
  set (w2 := set_heap (alter (put_state Finished) id (heap w1)) (set_queue name (removed_from id q) w1)).
  assert (cancel id w1 = (Ret (), w2)) as Hw2.
  { unfold cancel. rewrite (js_bind_Ret _ _ _ _ _ (get_effect_some _ _ _ He1)). rewrite Ho, Hsync. cbn [negb js_when].
    unfold queue_of. rewrite Ho, Hscope. unfold queue_remove, get_queue. js_unfold. cbn.
    by rewrite (un_queues _ _ _ _ H1), Hq. }
  rewrite (js_bind_Ret _ _ _ _ _ Hw2).
  assert (calm_at id w2) as He2.
  { split; [unfold ready, w2; cbn; rewrite kinds_alter by done; by apply (un_ready _ _ _ _ H1)|].
    exists (options e1), (startOn e1), (finishOn e1). unfold schedule_of, w2. cbn. rewrite list_lookup_alter_eq, He1.
    split; [done|by rewrite Ho]. }
  assert (∃ w', (event id BeforeFinish ;; log_action id DidFinish ;; do_finish id ;; event id AfterFinish) w2 = (Ret (), w') ∧
    undisturbed nobody w2 w') as (w' & Hw' & H2').
  { destruct (event_run id BeforeFinish w2 He2) as (w3 & Hw3 & H3). rewrite (js_bind_Ret _ _ _ _ _ Hw3).
    pose proof (calm_undisturbed _ _ _ _ H3 He2) as Hc3.
    destruct (quiet_log id DidFinish w3 (proj1 Hc3)) as (w4 & Hw4 & H4). rewrite (js_bind_Ret _ _ _ _ _ Hw4).
    pose proof (calm_undisturbed _ _ _ _ H4 Hc3) as Hc4.
    destruct (finish_quiet _ _ _ Hcalm w4 (proj1 Hc4)) as (w5 & Hw5 & H5). rewrite (js_bind_Ret _ _ _ _ _ Hw5).
    assert (undisturbed nobody w2 w5) as H25 by (trans w3; [done|by trans w4]).
    destruct (event_run id AfterFinish w5) as (w6 & Hw6 & H6); [by apply (calm_undisturbed nobody _ w4)|].
    exists w6. split; [done|by trans w5]. }
  exists w'. split; [done|]. destruct H2' as [Hqs Hc Hsch Hst Hrd]. rewrite Hqs, Hc. cbn.
  rewrite (un_queues _ _ _ _ H1). split; [done|]. split; [by apply H1|].
  assert (∀ i, schedule_of i w2 = schedule_of i w1) as Hs2.
  { intros i. unfold schedule_of. cbn. destruct (decide (i = id)) as [->|Hne];
      [rewrite list_lookup_alter_eq; by rewrite He1|by rewrite list_lookup_alter_ne]. }
  split; [intros i; rewrite Hsch, Hs2; apply H1|]. split_and!; [| |by apply Hrd, He2].
  - intros i Hi. rewrite Hst by auto. unfold state_of. cbn. rewrite list_lookup_alter_ne by done.
    by apply (un_state _ _ _ _ H1 i).
  - rewrite Hst by auto. unfold state_of. cbn. by rewrite list_lookup_alter_eq, He1.
Qed.
End run.

(** ** Passes of the timer *)

Lemma num_geb_mono (a b : Z) x : a ≤ b → num_geb (int a) x = true → num_geb (int b) x = true.
Proof.
  intros Hab. destruct x as [| | |q]; try done. unfold num_geb, int, num_ltb. cbn [Qnum Qden inject_Z].
  rewrite !negb_true_iff, !Z.ltb_ge. intros Hq. nia.
Qed.

Lemma filter_delete (l : list nat) i id : NoDup l → l !! i = Some id → filter (λ j, j ≠ id) l = delete i l.
Proof.
  revert i. induction l as [|x l IH]; intros i Hnd Hi; [done|]. apply NoDup_cons in Hnd as [Hx Hnd].
  destruct i as [|i]; cbn in Hi.
  - injection Hi as ->. rewrite filter_cons_False by naive_solver. change (delete 0%nat (id :: l)) with l.
    clear IH Hnd. induction l as [|y l IH]; [done|]. rewrite filter_cons_True by set_solver. f_equal. apply IH. set_solver.
  - change (delete (S i) (x :: l)) with (x :: delete i l).
    rewrite filter_cons_True; [by rewrite (IH i)|]. intros ->. apply Hx. by eapply list_elem_of_lookup_2.
Qed.

(** A pass over the queue: the timer's index goes over a list from which the
    effect it has just run is gone, so that it jumps over the next one. *)
Fixpoint pass (k i : nat) (m : list nat) : list nat :=
  match k with O => m | S k => pass k (S i) (delete i m) end.

Lemma delete_beyond (m : list nat) i : (length m ≤ i)%nat → delete i m = m.
Proof. revert i. induction m as [|x m IH]; intros [|i] Hi; cbn in *; [done..|lia|]. f_equal. apply IH. lia. Qed.
Lemma delete_elem (m : list nat) i x : x ∈ delete i m → x ∈ m.
Proof. intros Hx. eapply elem_of_submseteq; [exact Hx|]. apply sublist_submseteq, sublist_delete. Qed.
Lemma pass_beyond k i m : (length m ≤ i)%nat → pass k i m = m.
Proof.
  revert i m. induction k as [|k IH]; intros i m Hi; [done|]. cbn. rewrite delete_beyond by done. apply IH. lia.
Qed.
Lemma pass_elem k i m x : x ∈ pass k i m → x ∈ m.
Proof. revert i m. induction k as [|k IH]; intros i m Hx; [done|]. by eapply delete_elem, IH. Qed.
Lemma pass_half k i m : (length m ≤ i + k)%nat → (i ≤ length m)%nat → (2 * length (pass k i m) ≤ length m + i)%nat.
Proof.
  revert i m. induction k as [|k IH]; intros i m Hk Hi; cbn [pass]; [lia|].
  destruct (decide (i < length m)%nat) as [Hlt|Hge]; [|rewrite pass_beyond; rewrite delete_beyond by lia; lia].
  assert (length (delete i m) = length m - 1)%nat as Hlen.
  { apply lookup_lt_is_Some in Hlt as [x Hx]. rewrite (length_delete m i); [done|by eexists]. }
  destruct (decide (S i ≤ length (delete i m))%nat); [|rewrite pass_beyond by lia; lia].
  specialize (IH (S i) (delete i m)). lia.
Qed.

Section drain.
Context {D K H : Type} {ops : EffectOps D K H} (needs : D → list K → Prop).
#[local] Abbreviation W := (fx D K H).
#[local] Abbreviation M := (JS (fx D K H)).

(** A calm effect of a queue whose time is over. *)
Definition over (name : jsstr) (t : Z) (w : W) (id : nat) : Prop := ∃ o s f,
  schedule_of id w = Some (o, s, f) ∧ sync o = false ∧ queue_scope (queue o) = Some name ∧
  num_geb (int t) s = true ∧ num_geb (int t) f = true ∧ calm needs id o.
Definition holds (name : jsstr) (m : list nat) (w : W) : Prop :=
  queues w !! name = Some (ScopedQueue m (bool_decide (m ≠ []))).

Lemma over_same name t w w' id : schedule_of id w' = schedule_of id w → over name t w id → over name t w' id.
Proof. intros Hs (o & s & f & Ho & Hrest). exists o, s, f. by rewrite Hs. Qed.
Lemma over_later name t t' w id : t ≤ t' → over name t w id → over name t' w id.
Proof.
  intros Ht (o & s & f & Ho & Hsy & Hsc & H1 & H2 & Hc). exists o, s, f. split_and!; try done; by eapply num_geb_mono.
Qed.

(** What a pass of the timer does to the queue, the schedules and the states. *)
Definition passed (name : jsstr) (m m' : list nat) (w w' : W) : Prop :=
  holds name m' w' ∧ ready needs w' ∧ clock w' = clock w ∧ (∀ i, schedule_of i w' = schedule_of i w) ∧
  (∀ i, i ∈ m → i ∉ m' → state_of i w' = Some Finished) ∧
  (∀ i, i ∉ m ∨ i ∈ m' → state_of i w' = state_of i w).

Lemma loop_at_run name t i m w : holds name m w → ready needs w → NoDup m → Forall (over name t w) m →
  ∃ w', queue_loop_at name (int t) i w = (Ret (), w') ∧ passed name m (delete i m) w w'.
Proof.
  intros Hq Hr Hnd Hm. unfold queue_loop_at. assert (get_queue name w = (Ret (ScopedQueue m (bool_decide (m ≠ []))), w)) as Hg
    by (unfold get_queue; by rewrite Hq).
  rewrite (js_bind_Ret _ _ _ _ _ Hg). cbn [members]. destruct (m !! i) as [id|] eqn:Hi.
  - destruct (proj1 (Forall_lookup _ _) Hm i id Hi) as (o & s & f & Ho & Hsync & Hsc & Hs & Hf & Hcalm).
    unfold schedule_of in Ho. destruct (heap w !! id) as [e|] eqn:He; [|done]. injection Ho as <- <- <-.
    unfold loop. rewrite (js_bind_Ret _ _ _ _ _ (get_effect_some _ _ _ He)), Hs, Hf. cbn [js_when].
    destruct (complete_run needs id name _ w e He Hsync Hsc Hq Hr Hcalm) as (w' & Hrun & Hqs & Hc & Hsch & Hst & Hfin & Hr').
    exists w'. split; [done|]. split_and!; try done.
    + unfold holds. rewrite Hqs, lookup_insert_eq. unfold removed_from. cbn [members interval].
      rewrite (filter_delete m i id Hnd Hi). f_equal. f_equal. repeat case_decide || case_bool_decide; try done.
      subst m. destruct i; done.
    + intros j Hj Hnj. destruct (decide (j = id)) as [->|Hne]; [done|]. destruct Hnj.
      rewrite <- (filter_delete m i id Hnd Hi). by apply list_elem_of_filter.
    + intros j Hj. apply Hst. intros ->. destruct Hj as [Hj|Hj].
      * apply Hj. by eapply list_elem_of_lookup_2.
      * rewrite <- (filter_delete m i id Hnd Hi) in Hj. apply list_elem_of_filter in Hj. naive_solver.
  - exists w. split; [done|]. rewrite delete_beyond by (by apply lookup_ge_None). by split_and!.
Qed.

Lemma passed_trans name m1 m2 m3 w1 w2 w3 : (∀ x, x ∈ m3 → x ∈ m2) → (∀ x, x ∈ m2 → x ∈ m1) →
  passed name m1 m2 w1 w2 → passed name m2 m3 w2 w3 → passed name m1 m3 w1 w3.
Proof.
  intros H32 H21 (_ & _ & Hc & Hs & Hf & Hst) (Hq' & Hr' & Hc' & Hs' & Hf' & Hst').
  split_and!; [done|done|congruence|congruence|..].
  - intros i Hi Hn. destruct (decide (i ∈ m2)); [by apply Hf'|]. rewrite Hst' by (by left). by apply Hf.
  - intros i Hi. rewrite Hst', Hst; naive_solver.
Qed.

Lemma loop_pass name t k i m w : holds name m w → ready needs w → NoDup m → Forall (over name t w) m →
  ∃ w', js_each (seq i k) (queue_loop_at name (int t)) w = (Ret (), w') ∧ passed name m (pass k i m) w w'.
Proof.
  revert i m w. induction k as [|k IH]; intros i m w Hq Hr Hnd Hm; cbn [seq js_each pass].
  - exists w. split; [done|]. by split_and!.
  - destruct (loop_at_run name t i m w Hq Hr Hnd Hm) as (w1 & Hw1 & Hp1). rewrite (js_bind_Ret _ _ _ _ _ Hw1).
    destruct (IH (S i) (delete i m) w1) as (w2 & Hw2 & Hp2).
    + apply Hp1.
    + apply Hp1.
    + eapply sublist_NoDup; [exact Hnd|apply sublist_delete].
    + apply Forall_forall. intros j Hj%delete_elem. apply (over_same _ _ w); [apply Hp1|].
      by eapply Forall_forall in Hm.
    + exists w2. split; [done|]. eapply passed_trans; [| |done..]; [apply pass_elem|apply delete_elem].
Qed.

Lemma tick_run name t m w : holds name m w → ready needs w → NoDup m → Forall (over name t w) m →
  ∃ w', tick name t w = (Ret (), w') ∧ holds name (pass (length m) 0 m) w' ∧ ready needs w' ∧
    (∀ i, schedule_of i w' = schedule_of i w) ∧
    (∀ i, i ∈ m → i ∉ pass (length m) 0 m → state_of i w' = Some Finished) ∧
    (∀ i, i ∉ m → state_of i w' = state_of i w).
Proof.
  intros Hq Hr Hnd Hm. unfold tick. rewrite js_bind_modify, js_bind_gets. set (w0 := Fx _ _ _ _ _).
  assert (holds name m w0) as Hq0 by done. change (queues w0) with (queues w). rewrite Hq. cbn [fmap option_fmap option_map default interval].
  destruct m as [|x m]; [exists w0; by split_and!|]. set (l := x :: m) in *.
  rewrite bool_decide_eq_true_2 by done. cbv [id js_when].
  unfold queue_loop. rewrite js_bind_gets.
  assert (get_queue name w0 = (Ret (ScopedQueue l (bool_decide (l ≠ []))), w0)) as Hg
    by (unfold get_queue; by rewrite Hq0).
  rewrite (js_bind_Ret _ _ _ _ _ Hg). cbn [members].
  destruct (loop_pass name t (length l) 0 l w0 Hq0 Hr Hnd) as (w' & Hw' & Hp); [exact Hm|].
  exists w'. split; [exact Hw'|]. destruct Hp as (Hq' & Hr' & _ & Hs & Hf & Hst). split_and!; try done.
  intros i Hi. rewrite Hst by (by left). done.
Qed.

Lemma pass_NoDup k i (m : list nat) : NoDup m → NoDup (pass k i m).
Proof.
  revert i m. induction k as [|k IH]; intros i m Hnd; [done|]. apply IH.
  eapply sublist_NoDup; [exact Hnd|apply sublist_delete].
Qed.

(** Each pass of the timer leaves every second effect of those that are over:
    of fewer than [2^k] calm ones none is left after [k] passes. *)
Lemma calm_queue_drains (name : jsstr) (t : Z) (times : list Z) (m : list nat) (w : fx D K H) :
  holds name m w → ready needs w → NoDup m → Forall (over name t w) m →
  Forall (λ t', t ≤ t') times → (length m < 2 ^ length times)%nat →
  ∃ w', js_each times (tick name) w = (Ret (), w') ∧ queues w' !! name = Some (ScopedQueue [] false) ∧
    Forall (λ i, state_of i w' = Some Finished) m ∧ (∀ i, i ∉ m → state_of i w' = state_of i w).
Proof.
  intros Hq Hr Hnd Hm Ht. revert m w Hq Hr Hnd Hm. induction Ht as [|t1 times Ht1 Ht IH]; intros m w Hq Hr Hnd Hm Hlen.
  - destruct m as [|x m]; [|cbn in Hlen; lia]. by exists w.
  - assert (Forall (over name t1 w) m) as Hm1 by (eapply Forall_impl; [exact Hm|]; intros; by eapply over_later).
    destruct (tick_run name t1 m w Hq Hr Hnd Hm1) as (w1 & Hw1 & Hq1 & Hr1 & Hs1 & Hf1 & Hst1).
    pose proof (pass_half (length m) 0 m ltac:(lia) ltac:(lia)) as Hhalf. cbn [length Nat.pow] in Hlen.
    set (m1 := pass (length m) 0 m) in *. assert (∀ i, i ∈ m1 → i ∈ m) as Hsub by (intros i; apply pass_elem).
    destruct (IH m1 w1 Hq1 Hr1 (pass_NoDup _ _ _ Hnd)) as (w2 & Hw2 & Hq2 & Hf2 & Hst2).
    + apply Forall_forall. intros i Hi%Hsub. apply (over_same _ _ w); [done|]. by eapply Forall_forall in Hm.
    + lia.
    + exists w2. cbn [js_each]. rewrite (js_bind_Ret _ _ _ _ _ Hw1). split_and!; [done|done|..].
      * apply Forall_forall. intros i Hi. destruct (decide (i ∈ m1)) as [Hi1|Hi1]; [by eapply Forall_forall in Hf2|].
        rewrite Hst2 by done. by apply Hf1.
      * intros i Hi. rewrite Hst2, Hst1; [done..|]. auto.
Qed.
End drain.

(** ** The plan of a queue

    The specification of [add]: a queue is a list of slots of time in
    milliseconds, in the order in which effects were added. *)

Record slot := Slot { slot_start : Z; slot_finish : Z; slot_idle : bool }.
Definition shift (t : Z) (s : slot) : slot := Slot (slot_start s + t) (slot_finish s + t) (slot_idle s).
Definition latest (now : Z) (times : list Z) : Z :=
  match times with [] => now | t :: times => foldr Z.max t times end.

(** The time from which the new effect counts, and the slots before it. *)
Definition plan_time (place : option jsstr) (now : Z) (plan : list slot) : Z :=
  if decide (place = Some (js "front")) then now
  else if decide (place = Some (js "with-last")) then latest now (slot_start <$> plan)
  else if decide (place = Some (js "end")) then latest now (slot_finish <$> plan)
  else now.
Definition plan_shift (place : option jsstr) (b : Z) (plan : list slot) : list slot :=
  if decide (place = Some (js "front")) then (λ s, if slot_idle s then shift b s else s) <$> plan else plan.
Definition plan_add (place : option jsstr) (limited : bool) (now a b : Z) (plan : list slot) : list slot :=
  let plan' := plan_shift place b plan in
  if limited then plan' else plan' ++ [shift (plan_time place now plan) (Slot a b true)].

Lemma latest_bound now (times : list Z) t : t ∈ times → t ≤ latest now times.
Proof.
  destruct times as [|t0 times]; [by intros ?%not_elem_of_nil|]. cbn [latest].
  assert (∀ t1, t0 ≤ foldr Z.max t0 t1 ∧ ∀ x, x ∈ t1 → x ≤ foldr Z.max t0 t1) as H.
  { induction t1 as [|y t1 [IH0 IH]]; cbn; [split; [lia|by intros ? ?%not_elem_of_nil]|].
    split; [lia|]. intros x [->|Hx]%elem_of_cons; [lia|]. specialize (IH x Hx). lia. }
  destruct (H times) as [H0 H1]. intros [->|Hx]%elem_of_cons; [done|by apply H1].
Qed.
Lemma latest_in now (times : list Z) : times ≠ [] → latest now times ∈ times.
Proof.
  destruct times as [|t0 times]; [done|]. intros _. cbn [latest].
  induction times as [|y times IH]; cbn; [by left|].
  destruct (Z.max_spec y (foldr Z.max t0 times)) as [[_ ->]|[_ ->]]; set_solver.
Qed.

Lemma Forall2_in {A B} (R : A → B → Prop) l k : Forall2 R l k → Forall2 (λ x y, x ∈ l ∧ y ∈ k ∧ R x y) l k.
Proof.
  intros Hl. apply Forall2_same_length_lookup. split; [by eapply Forall2_length|].
  intros i x y Hx Hy. split_and!; [by eapply list_elem_of_lookup_2..|]. by eapply Forall2_lookup_lr.
Qed.

Section plan.
Context {D K H : Type} {ops : EffectOps D K H}.
#[local] Abbreviation W := (fx D K H).
#[local] Abbreviation M := (JS (fx D K H)).

(** An effect of the heap takes the slot. *)
Definition takes (w : W) (id : nat) (s : slot) : Prop := ∃ e, heap w !! id = Some e ∧
  whole (startOn e) (slot_start s) ∧ whole (finishOn e) (slot_finish s) ∧ is_idle e = slot_idle s.
Definition slot_ok (s : slot) : Prop := 0 < slot_start s ≤ slot_finish s ∧ slot_finish s < 2 ^ 51.
(** The queue of a name follows a plan. *)
Definition follows_plan (name : jsstr) (w : W) (ids : list nat) (plan : list slot) : Prop :=
  members (default empty_queue (queues w !! name)) = ids ∧ Forall2 (takes w) ids plan.

Lemma num_geb_whole x y i j : whole x i → whole y j → num_geb x y = (j <=? i).
Proof.
  intros Hx Hy. pose proof (whole_ltb x y i j Hx Hy) as Hlt. destruct Hx as (p & -> & _), Hy as (q & -> & _).
  unfold num_geb. rewrite Hlt. by rewrite Z.leb_antisym.
Qed.

Lemma max_whole {A} (f : A → num) (l : list A) (ks : list Z) (w : W) : Forall2 (λ a k, whole (f a) k) l ks →
  ∃ r, max l (λ a _, mret (f a)) w = (Ret r, w) ∧
    match ks with [] => r = None | _ => ∃ x, r = Some x ∧ whole x (latest 0 ks) end.
Proof.
  intros Hl. unfold max. rewrite with_result_run. cbn [elements array_iterable]. generalize 0 at 1. intros i.
  assert (∀ l ks r r0 i, Forall2 (λ a k, whole (f a) k) l ks → whole r r0 → ∃ x,
    loop_from (λ value index, value ← js_lift (mret (f value)); result ← js_local;
      js_when (match result with None => true | Some r => num_geb value r end) (js_set_local (Some value)))
      l i (Some r, w) = (Ret (Some x), w) ∧ whole x (foldl Z.max r0 ks)) as Hloop.
  { clear. intros l ks r r0 i Hl. revert r r0 i. induction Hl as [|a k l ks Ha Hl IH]; intros r r0 i Hr.
    - exists r. done.
    - rewrite loop_cons. js_unfold. cbn [fst snd]. rewrite (num_geb_whole _ _ k r0 Ha Hr).
      destruct (Z.leb_spec r0 k); cbn [fst snd foldl].
      + rewrite Z.max_r by lia. by apply IH.
      + rewrite Z.max_l by lia. by apply IH. }
  destruct Hl as [|a k l ks Ha Hl]; [by exists None|]. rewrite loop_cons. js_unfold. cbn [fst snd].
  destruct (Hloop l ks (f a) k (i + 1) Hl Ha) as (x & Hx & Hw). exists (Some x). split; [exact Hx|].
  exists x. split; [done|]. cbn [latest]. replace (foldr Z.max k ks) with (foldl Z.max k ks); [done|].
  clear. revert k. induction ks as [|y ks IH]; intros k; [done|]. cbn. rewrite IH.
  clear. revert k y. induction ks as [|z ks IH]; intros k y; cbn; [lia|]. rewrite IH. lia.
Qed.

Lemma lookup_change (w : W) i j f : heap (change_effect i f w).2 !! j = if decide (j = i) then f <$> heap w !! j else heap w !! j.
Proof.
  cbn. case_decide as Hj; [subst; by rewrite list_lookup_alter_eq|by rewrite list_lookup_alter_ne].
Qed.

Lemma each_postpone l x (w : W) : NoDup l →
  ∃ w', js_each l (λ i, change_effect i (postpone x)) w = (Ret (), w') ∧ queues w' = queues w ∧ clock w' = clock w ∧
    ∀ i, heap w' !! i = if decide (i ∈ l) then postpone x <$> heap w !! i else heap w !! i.
Proof.
  intros Hnd. revert w. induction Hnd as [|j l Hj Hnd IH]; intros w.
  - exists w. split; [done|]. split; [done|]. split; [done|]. intros i. by rewrite decide_False by apply not_elem_of_nil.
  - destruct (IH (change_effect j (postpone x) w).2) as (w' & Hw' & Hq & Hc & Hh). exists w'. split; [exact Hw'|].
    split; [by rewrite Hq|]. split; [by rewrite Hc|]. intros i. rewrite Hh, lookup_change.
    destruct (decide (i = j)) as [->|Hne].
    + rewrite decide_False by done. by rewrite decide_True by (by left).
    + destruct (decide (i ∈ l)); [rewrite decide_True by (by right)|rewrite decide_False by set_solver]; done.
Qed.

Lemma takes_same w w' id s : heap w' !! id = heap w !! id → takes w id s → takes w' id s.
Proof. unfold takes. by intros ->. Qed.
Lemma takes_postponed w w' id s x t : heap w' !! id = postpone x <$> heap w !! id → whole x t → 0 ≤ t < 2 ^ 51 →
  slot_finish s < 2 ^ 52 → 0 ≤ slot_start s ≤ slot_finish s → takes w id s → takes w' id (shift t s).
Proof.
  intros Hh Hx Ht Hs Hs' (e & He & H1 & H2 & H3). exists (postpone x e). rewrite Hh, He. split; [done|].
  unfold shift. cbn. split; [apply whole_add; [done..|lia]|]. split; [apply whole_add; [done..|lia]|done].
Qed.

(** The effects of the members of a queue. *)
Lemma omap_takes w ids plan : Forall2 (takes w) ids plan →
  Forall2 (λ e s, whole (startOn e) (slot_start s) ∧ whole (finishOn e) (slot_finish s)) (omap (λ i, heap w !! i) ids) plan.
Proof. induction 1 as [|i s ids plan (e & He & H1 & H2 & _) _ IH]; cbn; [constructor|]. rewrite He. by constructor. Qed.

(** [max || timestamp] over the members. *)
Lemma latest_run (f : effect K H → num) (g : slot → Z) w ids plan now :
  (∀ e s, whole (startOn e) (slot_start s) ∧ whole (finishOn e) (slot_finish s) → whole (f e) (g s)) →
  Forall2 (takes w) ids plan → Forall (λ s, 0 < g s) plan →
  ∃ x, (effects ← queue_effects ids; last ← max effects (λ e _, mret (f e)); mret (or_else last (int now))) w = (Ret x, w) ∧
    whole x (latest now (g <$> plan)).
Proof.
  intros Hfg Hids Hpos. unfold queue_effects. rewrite js_bind_gets.
  assert (Forall2 (λ e k, whole (f e) k) (omap (λ i, heap w !! i) ids) (g <$> plan)) as Hw.
  { rewrite Forall2_fmap_r. eapply Forall2_impl; [by apply omap_takes|]. intros e s. apply Hfg. }
  destruct (max_whole f _ _ w Hw) as (r & Hr & Hcase). rewrite (js_bind_Ret _ _ _ _ _ Hr).
  exists (or_else r (int now)). split; [done|]. destruct plan as [|s plan]; cbn [fmap list_fmap] in *.
  - subst r. apply whole_int.
  - destruct Hcase as (x & -> & Hx). cbn [or_else]. change (latest now (g s :: (g <$> plan))) with (latest 0 (g s :: (g <$> plan))).
    assert (0 < latest 0 (g s :: (g <$> plan))) as Hl.
    { apply (Z.lt_le_trans _ (g s)); [by apply Forall_inv in Hpos|]. apply latest_bound. by left. }
    rewrite (whole_eqb x (int 0) _ 0 Hx (whole_int 0)), (whole_eqb x x _ _ Hx Hx), Z.eqb_refl.
    by rewrite (proj2 (Z.eqb_neq _ 0)) by lia.
Qed.

(** The time from which a new effect counts, found in the code's way. *)
Lemma timestamp_run w ids plan e id a b now (q : scoped_queue) :
  members q = ids → Forall2 (takes w) ids plan → Forall slot_ok plan → NoDup ids → id ∉ ids → heap w !! id = Some e →
  whole (finishOn e) b → 0 ≤ a ≤ b → b < 2 ^ 50 → 0 < now < 2 ^ 50 →
  let place := queue_position (queue (options e)) in
  ∃ x w', (if decide (place = Some (js "front")) then
      l ← js_gets (λ w, filter (λ i, is_idle <$> heap w !! i = Some true) (members q));
      js_each l (λ i, change_effect i (postpone (finishOn e))) ;;
      mret (int now)
    else if decide (place = Some (js "with-last")) then
      effects ← queue_effects (members q);
      last ← max effects (λ e _, mret (startOn e));
      mret (or_else last (int now))
    else if decide (place = Some (js "end")) then
      effects ← queue_effects (members q);
      last ← max effects (λ e _, mret (finishOn e));
      mret (or_else last (int now))
    else mret (int now)) w = (Ret x, w') ∧
    whole x (plan_time place now plan) ∧ queues w' = queues w ∧ Forall2 (takes w') ids (plan_shift place b plan) ∧
    (∀ i, i ∉ ids → heap w' !! i = heap w !! i).
Proof.
  intros <- Hids Hok Hnd Hid He Hb Hab Hb' Hnow place. subst place. unfold plan_time, plan_shift.
  destruct (decide (_ = Some (js "front"))) as [_|_]; [|destruct (decide (_ = Some (js "with-last"))) as [_|_];
    [|destruct (decide (_ = Some (js "end"))) as [_|_]]].
  - rewrite js_bind_gets. set (l := filter _ _).
    destruct (each_postpone l (finishOn e) w) as (w' & Hw' & Hq & Hc & Hh); [by apply list.NoDup_filter|].
    rewrite (js_bind_Ret _ _ _ _ _ Hw'). exists (int now), w'. split; [done|]. split; [apply whole_int|]. split; [done|].
    split; [|intros i Hi; rewrite Hh, decide_False; [done|]; intros [_ ?]%list_elem_of_filter; done].
    rewrite Forall2_fmap_r. eapply Forall2_impl; [exact (Forall2_in _ _ _ Hids)|]. cbv beta.
    intros i s (Hi & Hs & Ht). pose proof Ht as (ei & Hei & _ & _ & Hidle). pose proof (Hh i) as Hhi.
    assert (i ∈ l ↔ slot_idle s = true) as Hil.
    { unfold l. rewrite list_elem_of_filter, Hei, <- Hidle. cbn. split; [by intros [[= ?] _]|by intros ->]. }
    destruct (proj1 (Forall_forall _ _) Hok s Hs) as [Hs1 Hs2]. cbn. destruct (slot_idle s) eqn:Hsi.
    + rewrite decide_True in Hhi by by apply Hil. eapply takes_postponed; [exact Hhi|done|lia..|done].
    + rewrite decide_False in Hhi by naive_solver. by apply (takes_same w).
  - destruct (latest_run startOn slot_start w (members q) plan now) as (x & Hx & Hw); [by intros e' s []|done| |].
    { eapply Forall_impl; [exact Hok|]. intros s [Hs _]. lia. }
    by exists x, w.
  - destruct (latest_run finishOn slot_finish w (members q) plan now) as (x & Hx & Hw); [by intros e' s []|done| |].
    { eapply Forall_impl; [exact Hok|]. intros s [Hs _]. lia. }
    by exists x, w.
  - exists (int now), w. split; [done|]. split; [apply whole_int|]. done.
Qed.

Definition limited (n : nat) (q : queue_option) : bool :=
  match queue_limit q with None => false | Some k => negb (k =? 0) && (k <=? Z.of_nat n) end.

Lemma get_queue_run name (w : W) : ∃ w', get_queue name w = (Ret (default empty_queue (queues w !! name)), w') ∧
  heap w' = heap w ∧ clock w' = clock w ∧ queues w' !! name = Some (default empty_queue (queues w !! name)) ∧
  ∀ n, n ≠ name → queues w' !! n = queues w !! n.
Proof.
  unfold get_queue. destruct (queues w !! name) as [q|] eqn:Hq; [by exists w|].
  eexists. split; [reflexivity|]. cbn. split_and!; [done..|by rewrite lookup_insert_eq|].
  intros n Hn. by rewrite lookup_insert_ne.
Qed.

Lemma plan_time_bound place now plan : Forall slot_ok plan → 0 < now < 2 ^ 50 → 0 < plan_time place now plan < 2 ^ 51.
Proof.
  intros Hok Hnow. unfold plan_time. assert (∀ l : list Z, Forall (λ t, 0 < t < 2 ^ 51) l → 0 < latest now l < 2 ^ 51) as Hl.
  { intros l Hl. destruct l as [|t l]; [cbn; lia|]. pose proof (latest_in now (t :: l) ltac:(done)) as Hin.
    by apply (proj1 (Forall_forall _ _) Hl). }
  repeat case_decide; try lia; apply Hl; apply Forall_fmap; (eapply Forall_impl; [exact Hok|]); intros s []; cbn; lia.
Qed.

(** C15. Adding an effect to a queue is adding a slot to its plan: at the end
    the effect starts after all others have finished, with the last it starts
    with or after them, in front the effects that have not begun and were not
    due start after it has finished; otherwise it counts from now.  A queue
    that has reached its limit does not take it.  Effects of other queues and
    other queues are left alone, and the timer runs. *)
Theorem queue_add_refines (name : jsstr) (id : nat) (w : W) (e : effect K H) (ids : list nat) (plan : list slot) (a b : Z) :
  let now := clock w in let place := queue_position (queue (options e)) in
  let full := limited (length ids) (queue (options e)) in let T := plan_time place now plan in
  follows_plan name w ids plan → Forall slot_ok plan → NoDup ids → id ∉ ids →
  heap w !! id = Some e → state e = Idle → whole (startOn e) a → whole (finishOn e) b →
  0 ≤ a ≤ b → b < 2 ^ 50 → 0 < now < 2 ^ 50 →
  ∃ w', queue_add name id w = (Ret (), w') ∧
    follows_plan name w' (if full then ids else ids ++ [id]) (plan_add place full now a b plan) ∧
    takes w' id (Slot (a + T) (b + T) true) ∧
    (∀ i, i ∉ ids → i ≠ id → heap w' !! i = heap w !! i) ∧
    (∀ n, n ≠ name → queues w' !! n = queues w !! n) ∧
    interval <$> queues w' !! name = Some true ∧
    (place = Some (js "end") → Forall (λ s, slot_finish s ≤ a + T) plan) ∧
    (place = Some (js "with-last") → Forall (λ s, slot_start s ≤ a + T) plan) ∧
    (place = Some (js "front") → T = now ∧
      Forall (λ s, slot_idle s = true → now ≤ slot_start s → b + T ≤ slot_start (shift b s)) plan).
Proof.
  intros now place full T [Hids Hplan] Hok Hnd Hid He Hst Ha Hb Hab Hb' Hnow.
  destruct (get_queue_run name w) as (w1 & Hg & Hh1 & Hc1 & Hq1 & Hqn1). set (q := default empty_queue (queues w !! name)) in *.
  unfold queue_add. rewrite (js_bind_Ret _ _ _ _ _ Hg), js_bind_gets.
  assert (heap w1 !! id = Some e) as He1 by by rewrite Hh1.
  rewrite (js_bind_Ret _ _ _ _ _ (get_effect_some _ _ _ He1)). cbv zeta. rewrite Hc1.
  assert (Forall2 (takes w1) ids plan) as Hplan1.
  { eapply Forall2_impl; [exact Hplan|]. intros i s. apply takes_same. by rewrite Hh1. }
  destruct (timestamp_run w1 ids plan e id a b now q Hids Hplan1 Hok Hnd Hid He1 Hb Hab Hb' Hnow)
    as (x & w2 & Hx & HT & Hq2 & Hplan2 & Hout).
  rewrite (js_bind_Ret _ _ _ _ _ Hx). fold place in HT, Hplan2. fold T in HT.
  assert (heap w2 !! id = Some e) as He2 by by rewrite Hout.
  pose proof (plan_time_bound place now plan Hok Hnow) as HTb. fold T in HTb.
  eexists. split; [reflexivity|].
  set (w3 := (change_effect id (postpone x) w2).2).
  assert (takes w3 id (Slot (a + T) (b + T) true)) as Htake.
  { exists (postpone x e). unfold w3. rewrite lookup_change, decide_True by done. rewrite He2. split; [done|]. cbn.
    split; [apply whole_add; [done..|lia]|]. split; [apply whole_add; [done..|lia]|]. unfold is_idle. cbn. by rewrite Hst. }
  assert (∀ i, i ≠ id → heap w3 !! i = heap w2 !! i) as Hh3.
  { intros i Hi. unfold w3. by rewrite lookup_change, decide_False. }
  assert (Forall2 (takes w3) ids (plan_shift place b plan)) as Hplan3.
  { eapply Forall2_impl; [exact (Forall2_in _ _ _ Hplan2)|]. intros i s (Hi & _ & Ht).
    apply (takes_same w2); [|done]. apply Hh3. by intros ->. }
  split_and!.
  - unfold follows_plan. cbn. rewrite lookup_insert_eq. cbn. rewrite Hids. fold (limited (length ids) (queue (options e))). fold full.
    unfold plan_add. destruct full; [done|]. split; [done|]. apply Forall2_app; [exact Hplan3|].
    constructor; [|constructor]. unfold shift. cbn. fold T. exact Htake.
  - exact Htake.
  - intros i Hi Hne. change (heap w3 !! i = heap w !! i). by rewrite Hh3, Hout, Hh1.
  - intros n Hn. cbn. rewrite lookup_insert_ne by done. rewrite Hq2. by apply Hqn1.
  - cbn. by rewrite lookup_insert_eq.
  - intros Hp. subst T. unfold plan_time. rewrite Hp, !decide_False, decide_True by done.
    apply Forall_forall. intros s Hs. apply (Z.le_trans _ (latest now (slot_finish <$> plan))); [|lia].
    apply latest_bound. by apply list_elem_of_fmap_2.
  - intros Hp. subst T. unfold plan_time. rewrite Hp, decide_False, decide_True by done.
    apply Forall_forall. intros s Hs. apply (Z.le_trans _ (latest now (slot_start <$> plan))); [|lia].
    apply latest_bound. by apply list_elem_of_fmap_2.
  - intros Hp. assert (T = now) as HTn by (subst T; unfold plan_time; by rewrite Hp, decide_True).
    split; [done|]. apply Forall_forall. intros s _ _ Hs. cbn. lia.
Qed.
End plan.

(** ** Samples: effects that do nothing, as those of [Effect.Event] *)

#[local] Instance silent_ops : EffectOps () () Empty_set := {|
  do_setup _ := mret (); do_update _ _ := mret (); do_finish _ := mret (); run_hook _ _ := mret ();
|}.
Definition queued (place : jsstr) : fx_given Empty_set :=
  Given None None None None None None (Some (QString place)) None (λ _ _, None).
(** Three effects of a second, started at the time 1000. *)
Definition three_effects : fx () () Empty_set :=
  ((start (λ x, x) () (queued (js "end")) ;; start (λ x, x) () (queued (js "parallel")) ;;
    start (λ x, x) () (queued (js "end"))) (Fx () [] ∅ 1000 [])).2.
Example three_effects_times : (λ e, (startOn e, finishOn e)) <$> heap three_effects =
  [(int 1000, int 2000); (int 1000, int 2000); (int 2000, int 3000)].
Proof. vm_compute. reflexivity. Qed.
(** A pass jumps over the effect that follows one it has finished. *)
Example three_effects_pass :
  members <$> queues (tick (js "global") 3000 three_effects).2 !! js "global" = Some [1%nat].
Proof. vm_compute. reflexivity. Qed.

Lemma queue_add_refines_witness : ∃ e w', heap (set_heap (heap three_effects ++ [e]) three_effects) !! 3%nat = Some e ∧
  queue_add (js "global") 3 (set_heap (heap three_effects ++ [e]) three_effects) = (Ret (), w') ∧
  follows_plan (js "global") w' [0; 1; 2; 3]%nat
    [Slot 1000 2000 true; Slot 1000 2000 true; Slot 2000 3000 true; Slot 3500 4000 true].
Proof.
  set (e := Effect () (with_defaults (λ x, x) (queued (js "end"))) (int 0) Idle (int 500) (int 1000) (int 1) (int 500) (int 50) None).
  destruct (queue_add_refines (js "global") 3 (set_heap (heap three_effects ++ [e]) three_effects) e [0; 1; 2]%nat
    [Slot 1000 2000 true; Slot 1000 2000 true; Slot 2000 3000 true] 500 1000) as (w' & H1 & H2 & _).
  - split; [vm_compute; reflexivity|].
    repeat apply List.Forall2_cons; try apply List.Forall2_nil;
      (eexists; split; [vm_compute; reflexivity|]; split_and!; [apply whole_int|apply whole_int|reflexivity]).
  - repeat apply List.Forall_cons; try apply List.Forall_nil; (split; cbn; lia).
  - apply (bool_decide_unpack _). vm_compute. exact I.
  - apply (bool_decide_unpack _). vm_compute. exact I.
  - reflexivity.
  - reflexivity.
  - apply whole_int.
  - apply whole_int.
  - lia.
  - lia.
  - split; [reflexivity|]. vm_compute. reflexivity.
  - exists e, w'. split; [reflexivity|]. split; [exact H1|exact H2].
Defined.
