(* ===== verification/Color.v ===== *)
(** * Colours (effects.js: parseColor, and the colours of Effect.Highlight and
      Effect.Morph)

    Colours are strings; between two of them an effect computes with
    JavaScript numbers, rounding included. *)

From Stdlib Require Import ZArith QArith Qreduction Qround Qabs Lqa.
From S2P Require Import Prelude JsBase JsNum JsFloat Strings.
#[local] Open Scope Z_scope.
#[local] Open Scope stdpp_scope.

(** ** Definitions *)

(** [n.toString(16)] of a whole number *)
Fixpoint hex_digits (fuel : nat) (n : N) (acc : jsstr) : jsstr :=
  match fuel with
  | O => acc
  | S fuel => if (n <? 16)%N then hex_digit n :: acc
              else hex_digits fuel (n / 16)%N (hex_digit (n mod 16)%N :: acc)
  end.
Definition hex_of_Z (z : Z) : jsstr :=
  let n := Z.to_N (Z.abs z) in
  (if z <? 0 then js "-" else []) ++ hex_digits (S (N.to_nat (N.log2 n))) n [].
Definition toColorPart (x : num) : jsstr :=
  toPaddedString (match x with
    | NaN => js "NaN" | PInf => js "Infinity" | NInf => js "-Infinity"
    | Fin q => hex_of_Z (Qnum q / Zpos (Qden q))
    end) 2.

(** [parseColor(default)]; an element missing after [split] is [undefined]. *)
Definition parseColor (this : jsstr) (default_ : option jsstr) : jsstr :=
  let color :=
    if bool_decide (slice this 0 4 = js "rgb(") then
      let cols := split (slice this 4 (Z.of_nat (length this) - 1)) (js ",") in
      js "#" ++ ([0%nat; 1%nat; 2%nat] ≫= λ i, toColorPart (parseInt (default (js "undefined") (cols !! i))))
    else if bool_decide (slice this 0 1 = js "#") then
      if (length this =? 4)%nat then
        js "#" ++ ([1; 2; 3] ≫= λ i, toLowerCase (charAt this i ++ charAt this i))
      else if (length this =? 7)%nat then toLowerCase this
      else js "#"
    else js "#" in
  if (length color =? 7)%nat then color
  else match default_ with Some (c :: d) => c :: d | _ => this end.

(** [parseInt(color.slice(i*2+1,i*2+3), 16)] *)
Definition channel (color : jsstr) (i : Z) : num := parseInt16 (slice color (i * 2 + 1) (i * 2 + 3)).
Definition channels (color : jsstr) : list num := channel color <$> [0; 1; 2].
(** The color of [Effect.Highlight] at a position: [_base] and [_delta] are
    those of its two colours. *)
Definition color_step (base delta position : num) : num := num_round (num_add base (num_mul delta position)).
Definition color_at (base delta : list num) (position : num) : jsstr :=
  foldl (λ m p, m ++ toColorPart (color_step p.1 p.2 position)) (js "#") (zip base delta).
Definition deltas (base target : list num) : list num := zip_with num_sub target base.

(** The colour of an element's style, white when it has none: [Effect.Morph]. *)
Definition morph_color (color : option jsstr) : list num :=
  let color := match color with
    | None | Some [] => js "#ffffff"
    | Some c => if bool_decide (c ∈ [js "rgba(0, 0, 0, 0)"; js "transparent"]) then js "#ffffff" else c
    end in
  channels (parseColor color None).

(** ** Bytes *)

Definition byte (z : Z) : Prop := 0 ≤ z < 256.
Definition hex2 (z : Z) : jsstr := [hex_digit (Z.to_N (z / 16)); hex_digit (Z.to_N (z mod 16))].
Definition rgb_str (r g b : Z) : jsstr :=
  js "rgb(" ++ num_str r ++ js ", " ++ num_str g ++ js ", " ++ num_str b ++ js ")".

Lemma byte_forall (p : Z → bool) : forallb p (Z.of_nat <$> seq 0 256) = true → ∀ z, byte z → p z = true.
Proof.
  rewrite forallb_true_iff, Forall_fmap, Forall_forall. intros HP z [H0 H1]. specialize (HP (Z.to_nat z)). unfold compose in HP.
  rewrite Z2Nat.id in HP by done. apply HP. apply elem_of_seq. lia.
Qed.

#[local] Instance Q_eq_dec : EqDecision Q.
Proof. solve_decision. Defined.
#[local] Instance num_eq_dec : EqDecision num.
Proof. solve_decision. Defined.

(** What is checked on each byte. *)
Definition byte_ok (z : Z) : bool :=
  bool_decide (toPaddedString (hex_of_Z z) 2 = hex2 z) &&
  bool_decide (parseInt16 (hex2 z) = int z) &&
  bool_decide (parseInt (num_str z) = int z) && bool_decide (parseInt (js " " ++ num_str z) = int z) &&
  forallb (λ c, negb (c =? 44)%N) (num_str z).
Lemma byte_all : ∀ z, byte z → byte_ok z = true.
Proof.
  apply byte_forall. vm_compute. reflexivity.
Qed.

Lemma toColorPart_byte z : byte z → toColorPart (int z) = hex2 z.
Proof.
  intros Hz. pose proof (byte_all z Hz) as Hok. unfold byte_ok in Hok. rewrite !andb_true_iff, !bool_decide_eq_true in Hok.
  unfold toColorPart, int. cbn [Qnum Qden inject_Z]. rewrite Z.div_1_r. apply Hok.
Qed.
Lemma parseInt16_hex2 z : byte z → parseInt16 (hex2 z) = int z.
Proof.
  intros Hz. pose proof (byte_all z Hz) as Hok. unfold byte_ok in Hok. rewrite !andb_true_iff, !bool_decide_eq_true in Hok.
  apply Hok.
Qed.
Lemma parseInt_byte z : byte z → parseInt (num_str z) = int z ∧ parseInt (js " " ++ num_str z) = int z ∧ 44%N ∉ num_str z.
Proof.
  intros Hz. pose proof (byte_all z Hz) as Hok. unfold byte_ok in Hok. rewrite !andb_true_iff, !bool_decide_eq_true in Hok.
  destruct Hok as [[[_ H1] H2] H3]. split; [done|]. split; [done|]. intros Hin. apply forallb_true_iff in H3.
  apply (proj1 (Forall_forall _ _) H3) in Hin. discriminate.
Qed.

(** The text of three bytes and back. *)
Definition hex_color (r g b : Z) : jsstr := js "#" ++ hex2 r ++ hex2 g ++ hex2 b.
Lemma channels_hex r g b : byte r → byte g → byte b → channels (hex_color r g b) = [int r; int g; int b].
Proof.
  intros Hr Hg Hb. unfold channels, channel. cbn [fmap list_fmap].
  change (slice (hex_color r g b) _ _) with (hex2 r) at 1. change (slice (hex_color r g b) (1 * 2 + 1) (1 * 2 + 3)) with (hex2 g).
  change (slice (hex_color r g b) (2 * 2 + 1) (2 * 2 + 3)) with (hex2 b).
  change (slice (hex_color r g b) (0 * 2 + 1) (0 * 2 + 3)) with (hex2 r).
  by rewrite !parseInt16_hex2.
Qed.

Lemma parseColor_rgb r g b d : byte r → byte g → byte b → parseColor (rgb_str r g b) d = hex_color r g b.
Proof.
  intros Hr Hg Hb. destruct (parseInt_byte r Hr) as (Hr1 & _ & Hr3), (parseInt_byte g Hg) as (_ & Hg2 & Hg3),
    (parseInt_byte b Hb) as (_ & Hb2 & Hb3).
  unfold parseColor. rewrite bool_decide_eq_true_2 by reflexivity.
  set (inner := num_str r ++ js ", " ++ num_str g ++ js ", " ++ num_str b).
  assert (rgb_str r g b = js "rgb(" ++ inner ++ js ")") as Hs by (unfold rgb_str, inner; by rewrite !app_assoc).
  assert (slice (rgb_str r g b) 4 (Z.of_nat (length (rgb_str r g b)) - 1) = inner) as ->.
  { rewrite Hs. unfold slice, slice_end. rewrite !length_app. change (length (js "rgb(")) with 4%nat. change (length (js ")")) with 1%nat.
    rewrite (proj2 (Z.ltb_ge _ 0)) by lia. rewrite (proj2 (Z.ltb_ge _ 0)) by lia.
    replace (Nat.min (Z.to_nat 4) (4 + (length inner + 1)))%nat with 4%nat by lia.
    replace (_ - 4)%nat with (length inner) by lia. change (drop 4 (js "rgb(" ++ inner ++ js ")")) with (inner ++ js ")").
    by rewrite take_app_length. }
  assert (split inner (js ",") = [num_str r; js " " ++ num_str g; js " " ++ num_str b]) as ->.
  { change (js ",") with [44%N].
    assert (inner = num_str r ++ 44%N :: ((js " " ++ num_str g) ++ 44%N :: (js " " ++ num_str b))) as -> by reflexivity.
    rewrite split_app by done.
    rewrite split_app by (rewrite not_elem_of_app; split; [by intros ?%list_elem_of_singleton|done]).
    rewrite split_none; [done|]. rewrite not_elem_of_app; split; [by intros ?%list_elem_of_singleton|done]. }
  cbn [lookup list_lookup default from_option mbind list_bind app id]. rewrite Hr1, Hg2, Hb2, !toColorPart_byte by done. reflexivity.
Qed.

(** ** Between two colours *)

#[local] Open Scope Q_scope.

Definition eps : Q := 1 # 1000000.
Lemma round_q_close q : Qabs q <= 1000 → ∃ r, round_q q = Fin r ∧ Qabs (r - q) <= eps.
Proof.
  intros Hq. destruct (round_q_error q) as (r & Hr & Herr).
  - apply (Qle_trans _ 1000); [done|]. change 1000 with (inject_Z 1000). rewrite <- Zle_Qle. done.
  - exists r. split; [done|]. assert (Qabs q * ulp <= 1000 * ulp) as H1.
    { apply Qmult_le_compat_r; [done|]. unfold ulp, Qle. cbn. lia. }
    assert (1000 * ulp + tiny <= eps) by (unfold Qle; vm_compute; discriminate). lra.
Qed.

Lemma num_round_near q : ∃ k, num_round (Fin q) = int k ∧ inject_Z k <= q + (1 # 2) < inject_Z k + 1.
Proof.
  exists (Qfloor (q + (1 # 2))). split; [done|]. split; [apply Qfloor_le|].
  pose proof (Qlt_floor (q + (1 # 2))) as Hlt. rewrite inject_Z_plus in Hlt. exact Hlt.
Qed.

(** The share [p] of the way from [b] to [e]. *)
Lemma color_step_near x y b e p : whole x b → whole y e → byte b → byte e → 0 <= p <= 1 →
  ∃ k, color_step x (num_sub y x) (Fin p) = int k ∧
    Qabs (inject_Z k - (inject_Z b + inject_Z (e - b) * p)) <= (1 # 2) + 2 * eps.
Proof.
  intros Hx Hy Hb He Hp. unfold byte in *. destruct (whole_sub y x e b Hy Hx ltac:(lia)) as (d & -> & Hd).
  destruct Hx as (bq & -> & Hbq). unfold color_step. cbn [num_mul].
  assert (0 <= inject_Z b <= 255 /\ -(255) <= inject_Z (e - b) <= 255) as [Hb' Hd'].
  { change 255 with (inject_Z 255). change (- inject_Z 255) with (inject_Z (-255)). change 0 with (inject_Z 0).
    rewrite <- !Zle_Qle. lia. }
  assert (-(255) <= d * p <= 255) as Hdp by (rewrite Hd; nra).
  destruct (round_q_close (d * p)) as (r & -> & Hr); [apply Qabs_Qle_condition; lra|].
  apply Qabs_Qle_condition in Hr. cbn [num_add]. assert (0 < eps < 1 # 100) as Heps by (split; reflexivity).
  destruct (round_q_close (bq + r)) as (v & -> & Hv); [apply Qabs_Qle_condition; lra|].
  apply Qabs_Qle_condition in Hv. destruct (num_round_near v) as (k & -> & Hk). exists k. split; [done|].
  apply Qabs_Qle_condition. rewrite <- Hd. lra.
Qed.

Lemma color_step_between x y b e p : whole x b → whole y e → byte b → byte e → 0 <= p <= 1 →
  ∃ k, color_step x (num_sub y x) (Fin p) = int k ∧ (Z.min b e <= k <= Z.max b e)%Z ∧
    (p == 0 → k = b) ∧ (p == 1 → k = e).
Proof.
  intros Hx Hy Hb He Hp. destruct (color_step_near x y b e p Hx Hy Hb He Hp) as (k & Hk & Hn).
  apply Qabs_Qle_condition in Hn. assert (0 < eps < 1 # 100) as Heps by (split; reflexivity).
  assert (∀ m, inject_Z k - inject_Z m <= 3 # 4 → (k <= m)%Z) as Hle.
  { intros m Hm. assert (inject_Z k < inject_Z (m + 1)) as H by (rewrite inject_Z_plus; change (inject_Z 1) with 1; lra).
    rewrite <- Zlt_Qlt in H. lia. }
  assert (∀ m, -(3 # 4) <= inject_Z k - inject_Z m → (m <= k)%Z) as Hge.
  { intros m Hm. assert (inject_Z m < inject_Z (k + 1)) as H by (rewrite inject_Z_plus; change (inject_Z 1) with 1; lra).
    rewrite <- Zlt_Qlt in H. lia. }
  assert (inject_Z (e - b) == inject_Z e - inject_Z b) as Hsub.
  { unfold Zminus. rewrite inject_Z_plus, inject_Z_opp. ring. }
  rewrite Hsub in Hn. exists k. split; [done|]. split.
  - destruct (Z.le_ge_cases b e) as [Hbe|Hbe].
    + rewrite Z.min_l, Z.max_r by done. rewrite Zle_Qle in Hbe. split; [apply Hge|apply Hle]; nra.
    + rewrite Z.min_r, Z.max_l by done. rewrite Zle_Qle in Hbe. split; [apply Hge|apply Hle]; nra.
  - split; intros Hpe; rewrite Hpe in Hn; apply Z.le_antisymm; (apply Hle || apply Hge); lra.
Qed.

(** A colour given as three bytes is read, written in hexadecimal and
    split into the three bytes again; and what an effect shows at a share of
    the way between two colours is, rounding included, a colour of three bytes
    again, each between the two, the first colour at the start and the second
    at the end. *)
Theorem color_spec (r g b r' g' b' : Z) (p : Q) (d : option jsstr) :
  byte r → byte g → byte b → byte r' → byte g' → byte b' → 0 <= p <= 1 →
  let base := channels (parseColor (rgb_str r g b) d) in
  let target := channels (parseColor (rgb_str r' g' b') d) in
  base = [int r; int g; int b] ∧
  ∃ k1 k2 k3, color_at base (deltas base target) (Fin p) = hex_color k1 k2 k3 ∧
    (Z.min r r' <= k1 <= Z.max r r')%Z ∧ (Z.min g g' <= k2 <= Z.max g g')%Z ∧ (Z.min b b' <= k3 <= Z.max b b')%Z ∧
    (p == 0 → (k1, k2, k3) = (r, g, b)) ∧ (p == 1 → (k1, k2, k3) = (r', g', b')).
Proof.
  intros Hr Hg Hb Hr' Hg' Hb' Hp base target. subst base target. rewrite !parseColor_rgb, !channels_hex by done.
  split; [done|].
  destruct (color_step_between _ _ r r' p (whole_int r) (whole_int r') Hr Hr' Hp) as (k1 & H1 & Hk1 & Hs1 & He1).
  destruct (color_step_between _ _ g g' p (whole_int g) (whole_int g') Hg Hg' Hp) as (k2 & H2 & Hk2 & Hs2 & He2).
  destruct (color_step_between _ _ b b' p (whole_int b) (whole_int b') Hb Hb' Hp) as (k3 & H3 & Hk3 & Hs3 & He3).
  exists k1, k2, k3. split.
  - unfold color_at, deltas. cbn [zip_with foldl fst snd]. rewrite H1, H2, H3. unfold byte in *.
    rewrite !toColorPart_byte by (unfold byte; lia). unfold hex_color. by rewrite !app_assoc.
  - split_and!; try lia; intros Hpe; [by rewrite (Hs1 Hpe), (Hs2 Hpe), (Hs3 Hpe)|by rewrite (He1 Hpe), (He2 Hpe), (He3 Hpe)].
Qed.

Lemma color_spec_witness : ∃ k1 k2 k3,
  color_at (channels (parseColor (rgb_str 255 255 153) None))
    (deltas (channels (parseColor (rgb_str 255 255 153) None)) (channels (parseColor (rgb_str 0 16 255) None)))
    (Fin (1 # 3)) = hex_color k1 k2 k3 ∧ (0 <= k1 <= 255)%Z ∧ (16 <= k2 <= 255)%Z ∧ (153 <= k3 <= 255)%Z.
Proof.
  destruct (color_spec 255 255 153 0 16 255 (1 # 3) None) as (_ & k1 & k2 & k3 & H & H1 & H2 & H3 & _);
    try (split; [lia|reflexivity]); try (split; [discriminate|vm_compute; discriminate]).
  exists k1, k2, k3. split; [exact H|]. split; [exact H1|]. split; [exact H2|exact H3].
Defined.

(** Short and upper-case colours, and texts that are no colours. *)
Example parseColor_short : parseColor (js "#aB3") None = js "#aabb33".
Proof. vm_compute. reflexivity. Qed.
Example parseColor_other : parseColor (js "rgb(a, 2, 3)") (Some (js "#ffffff")) = js "#ffffff".
Proof. vm_compute. reflexivity. Qed.
Example parseColor_named : parseColor (js "red") None = js "red".
Proof. vm_compute. reflexivity. Qed.
