(* ===== verification/Effects.v ===== *)
(** * The effects (effects.js: core effects)

    The kinds of effects that change the document: what each of them does
    when it is set up, at every step and at the end.  Elements are nodes of the
    document; the callbacks of the combination effects are in
    EffectCombos.v. *)

From Stdlib Require Import ZArith QArith_base.
From S2P Require Import Prelude JsBase JsNum JsRegex Strings Enumerable Dom EffectCore Color.
#[local] Open Scope Z_scope.
#[local] Open Scope stdpp_scope.

(** ** Kinds *)

Inductive scale_mode := Box | Content | Given_size (originalHeight originalWidth : num).

(** The options of [Effect.Scale], and what its setup keeps. *)
Record scale_options := ScaleOptions {
  scaleX : bool; scaleY : bool; scaleContent : bool; scaleFromCenter : bool; scaleMode : scale_mode;
  scaleFrom : num; scaleTo : num; restoreAfterFinish : bool;
}.
Record scale_setup := ScaleSetup {
  elementPositioning : option jsstr;
  originalStyle : list (jsstr * jsstr);
  originalTop : num; originalLeft : num;
  fontSize : option (num * jsstr);      (* with [fontSizeType] *)
  factor : num;
  dims : num * num;
}.
Record highlight_options := HighlightOptions {
  startcolor : jsstr; endcolor : option jsstr; restorecolor : option jsstr; keepBackgroundImage : bool;
}.
(** A transform of [Effect.Morph]: colours, or a number with its unit. *)
Inductive transform :=
| TColor (name : jsstr) (originalValue targetValue : list num)
| TNumber (name : jsstr) (originalValue targetValue : num) (unit : option jsstr).

Inductive fx_kind :=
| Parallel (effects : list nat)
| Tween (method : nat)
| EventFx
| Opacity (element : nid)
| Move (element : nid) (x y : num) (absolute : bool) (original : num * num)
| Scale (element : nid) (o : scale_options) (s : option scale_setup)
| Highlight (element : nid) (o : highlight_options) (oldStyle : list (jsstr * jsstr)) (base delta : list num)
| Morph (element : nid) (style : list (jsstr * jsstr)) (transforms : list transform).

(** ** Styles *)

(** [number + 'px'] *)
Definition in_px (x : num) : jsstr := number_str x ++ js "px".
(** [value || default] on a style that may be [null] *)
Definition style_or (value : option jsstr) (default_ : jsstr) : jsstr :=
  match value with Some (c :: s) => c :: s | _ => default_ end.
Definition num_or (x default_ : num) : num := if num_eqb x (int 0) || negb (num_eqb x x) then default_ else x.
(** [x.toFixed(n)] *)
Definition fixed_digits (n : nat) (k : Z) : jsstr :=
  let ds := num_str k in
  let ds := replicate (S n - length ds) 48%N ++ ds in
  take (length ds - n) ds ++ js "." ++ drop (length ds - n) ds.
Definition toFixed (n : nat) (x : num) : jsstr :=
  match x with
  | Fin q =>
      let a := if Qnum q <? 0 then Qopp q else q in
      if Qle_bool (inject_Z (10 ^ 21)) a then number_str x
      else
        let t := Qmult a (inject_Z (10 ^ Z.of_nat n)) in
        let k := (2 * Qnum t + Zpos (Qden t)) / (2 * Zpos (Qden t)) in
        (if Qnum q <? 0 then js "-" else []) ++ fixed_digits n k
  | _ => number_str x
  end.

(** [/^(([\+\-]?[0-9\.]+)(em|ex|px|in|cm|mm|pt|pc|\%))|0$/] *)
Definition rx_number : rx := (ROpt (RChar (one_of (js "+-"))) +++ RPlus (RChar (λ c, is_digit c || (c =? 46)%N)))%rx.
Definition rx_units : rx :=
  foldr (λ u r, (RStr u <|> r)%rx) (RLit 37)
    [js "em"; js "ex"; js "px"; js "in"; js "cm"; js "mm"; js "pt"; js "pc"].
Definition css_length : rx := ((RBol +++ rx_number +++ rx_units) <|> (RLit 48 +++ REol))%rx.
(** A number and the rest of the text, both captured. *)
Definition rx_components : rx := (RBol +++ RGroup 1 rx_number +++ RGroup 2 (RStar true (RChar dot)) +++ REol)%rx.

Section effects.
Context (computed : dom → nid → jsstr → option jsstr) (layout : dom → nid → geometry).
(** [scrollHeight] and [scrollWidth]. *)
Context (scroll_size : dom → nid → Z * Z).
(** The functions that tweens call. *)
Context (tween_method : nat → num → D ()).
Context {H : Type}.
#[local] Abbreviation W := (fx dom fx_kind H).
#[local] Abbreviation M := (JS (fx dom fx_kind H)).
#[local] Abbreviation style_now := (Dom.getStyle computed).
#[local] Abbreviation dom_do := (@on_document dom fx_kind H _).

Definition layout_of (e : nid) : D geometry := js_gets (λ d, layout d e).

(** *** Scale *)
Definition font_size (size : jsstr) : option (num * jsstr) :=
  foldl (λ acc u, if 0 <? indexOf size u then Some (parseFloat size, u) else acc) None
    [js "em"; js "px"; js "%"; js "pt"].
Definition scale_dims (e : nid) (mode : scale_mode) : D (num * num) :=
  match mode with
  | Box => g ← layout_of e; mret (int (offsetHeight g), int (offsetWidth g))
  | Content => js_gets (λ d, (int (scroll_size d e).1, int (scroll_size d e).2))
  | Given_size h w => mret (h, w)
  end.
Definition scale_set_up (e : nid) (o : scale_options) : D scale_setup :=
  positioning ← style_now e (js "position");
  n ← get_node e;
  g ← layout_of e;
  size ← style_now e (js "font-size");
  dims ← scale_dims e (scaleMode o);
  mret (ScaleSetup positioning
    ((λ k, (k, style_get n k)) <$> [js "top"; js "left"; js "width"; js "height"; js "fontSize"])
    (int (offsetTop g)) (int (offsetLeft g)) (font_size (style_or size (js "100%")))
    (num_div (num_sub (scaleTo o) (scaleFrom o)) (int 100)) dims).
Definition setDimensions (e : nid) (o : scale_options) (s : scale_setup) (height width : num) : D () :=
  let topd := num_div (num_sub height (dims s).1) (int 2) in
  let leftd := num_div (num_sub width (dims s).2) (int 2) in
  let top := if bool_decide (elementPositioning s = Some (js "absolute")) then num_sub (originalTop s) topd else num_neg topd in
  let left := if bool_decide (elementPositioning s = Some (js "absolute")) then num_sub (originalLeft s) leftd else num_neg leftd in
  setStyle e
    ((if scaleX o then [(js "width", in_px (num_round width))] else []) ++
     (if scaleY o then [(js "height", in_px (num_round height))] else []) ++
     (if scaleFromCenter o && scaleY o then [(js "top", in_px top)] else []) ++
     (if scaleFromCenter o && scaleX o then [(js "left", in_px left)] else [])).
Definition scale_update (e : nid) (o : scale_options) (s : scale_setup) (position : num) : D () :=
  let currentScale := num_add (num_div (scaleFrom o) (int 100)) (num_mul (factor s) position) in
  match fontSize s with
  | Some (size, unit) =>
      js_when (scaleContent o && negb (num_eqb size (int 0)) && num_eqb size size)
        (setStyle e [(js "fontSize", number_str (num_mul size currentScale) ++ unit)])
  | None => mret ()
  end ;;
  setDimensions e o s (num_mul (dims s).1 currentScale) (num_mul (dims s).2 currentScale).

(** *** Highlight *)
(** The part of the setup after the test of the display, with the style to
    restore. *)
Definition highlight_set_up (e : nid) (o : highlight_options) : D (highlight_options * list (jsstr * jsstr)) :=
  oldStyle ← (if keepBackgroundImage o then mret []
              else (v ← style_now e (js "background-image");
                    setStyle e [(js "backgroundImage", js "none")] ;;
                    mret [(js "backgroundImage", default [] v)]));
  endcolor ← (match endcolor o with
              | Some (c :: s) => mret (c :: s)
              | _ => v ← style_now e (js "background-color");
                     match v with Some v => mret (parseColor v (Some (js "#ffffff"))) | None => js_throw ETypeError end
              end);
  restorecolor ← (match restorecolor o with
                  | Some (c :: s) => mret (c :: s)
                  | _ => v ← style_now e (js "background-color"); mret (default [] v)
                  end);
  mret (HighlightOptions (startcolor o) (Some endcolor) (Some restorecolor) (keepBackgroundImage o), oldStyle).

(** *** Morph *)
(** The target of a style and its unit; a text that only ends in a zero is no
    length, and its components are [null]. *)
Inductive morph_target := ToColor (c : jsstr) | ToNumber (n : num) (unit : option jsstr).
Definition morph_target_of (property value : jsstr) : option morph_target :=
  if negb (bool_decide (parseColor value (Some (js "#zzzzzz")) = js "#zzzzzz")) then Some (ToColor (parseColor value None))
  else if bool_decide (property = js "opacity") then Some (ToNumber (parseFloat value) None)
  else if rx_test css_length value then
    m ← rx_match rx_components value;
    Some (ToNumber (parseFloat (m_group_or_empty m 1)) (m_group m 2))
  else Some (ToNumber (to_number value) None).
(** The value of a property of the element now; an opacity is a number. *)
Definition morph_original (e : nid) (property : jsstr) : D num :=
  if bool_decide (property = js "opacity") then getOpacity computed e
  else v ← style_now e property; mret (parseFloat (style_or v (js "0"))).
Definition morph_transform (e : nid) (pair : jsstr * jsstr) : D transform :=
  match morph_target_of pair.1 pair.2 with
  | None => js_throw ETypeError
  | Some (ToColor c) =>
      v ← style_now e pair.1;
      mret (TColor (camelize pair.1) (morph_color v) (morph_color (Some c)))
  | Some (ToNumber n unit) =>
      o ← morph_original e pair.1;
      mret (TNumber (camelize pair.1) o n unit)
  end.
(** Two arrays of colours are different objects. *)
Definition is_trivial (t : transform) : bool :=
  match t with
  | TColor _ _ _ => false
  | TNumber _ o n _ => num_eqb o n || negb (num_eqb o o) || negb (num_eqb n n)
  end.
Definition transform_style (position : num) (t : transform) : jsstr * jsstr :=
  match t with
  | TColor name o n => (name, color_at o (deltas o n) position)
  | TNumber name o n unit =>
      (name, toFixed 3 (num_add o (num_mul (num_sub n o) position)) ++ default [] unit)
  end.

(** ** The methods of the kinds *)

Section methods.
(** The engine for the effects that an effect is made of. *)
Context (render_part : nat → num → M ()) (complete_part : nat → M ()).

Definition set_up_kind (id : nat) : M () :=
  fx ← get_effect id;
  match kind fx with
  | Move e x y absolute _ =>
      dom_do (makePositioned computed e) ;;
      left ← dom_do (style_now e (js "left"));
      top ← dom_do (style_now e (js "top"));
      let originalLeft := parseFloat (style_or left (js "0")) in
      let originalTop := parseFloat (style_or top (js "0")) in
      let x := if absolute : bool then num_sub x originalLeft else x in
      let y := if absolute : bool then num_sub y originalTop else y in
      change_effect id (put_kind (Move e x y absolute (originalLeft, originalTop)))
  | Scale e o _ =>
      s ← dom_do (scale_set_up e o);
      change_effect id (put_kind (Scale e o (Some s)))
  | Highlight e o _ _ _ =>
      display ← dom_do (style_now e (js "display"));
      if bool_decide (display = Some (js "none")) then cancel id
      else
        '(o, oldStyle) ← dom_do (highlight_set_up e o);
        let base := channels (startcolor o) in
        let target := channels (default [] (endcolor o)) in
        change_effect id (put_kind (Highlight e o oldStyle base (deltas base target)))
  | Morph e style _ =>
      transforms ← dom_do (collect style (λ pair _, morph_transform e pair));
      change_effect id (put_kind (Morph e style (List.filter (λ t, negb (is_trivial t)) transforms)))
  | _ => mret ()
  end.

Definition update_kind (id : nat) (position : num) : M () :=
  fx ← get_effect id;
  match kind fx with
  | Parallel effects => js_each effects (λ part, render_part part position)
  | Tween method => dom_do (tween_method method position)
  | EventFx => mret ()
  | Opacity e => dom_do (setOpacity e position)
  | Move e x y _ (originalLeft, originalTop) =>
      dom_do (setStyle e
        [(js "left", in_px (num_round (num_add (num_mul x position) originalLeft)));
         (js "top", in_px (num_round (num_add (num_mul y position) originalTop)))])
  | Scale e o (Some s) => dom_do (scale_update e o s position)
  | Scale e o None => js_throw ETypeError
  | Highlight e o _ base delta => dom_do (setStyle e [(js "backgroundColor", color_at base delta position)])
  | Morph e _ transforms => dom_do (setStyle e (transform_style position <$> reverse transforms))
  end.

Definition finish_kind (id : nat) : M () :=
  fx ← get_effect id;
  match kind fx with
  | Parallel effects => js_each effects complete_part
  | Scale e o (Some s) => js_when (restoreAfterFinish o) (dom_do (setStyle e (originalStyle s)))
  | Highlight e o oldStyle _ _ =>
      dom_do (setStyle e (oldStyle ++ [(js "backgroundColor", default [] (restorecolor o))]))
  | _ => mret ()
  end.
End methods.

(** ** Making effects *)

Section making.
(** [start] for a kind with the options given. *)
Context (begin : fx_kind → fx_given H → M nat).

(** [this.element = $(element); if (!this.element) throw] *)
Definition on_element {A} (e : nid) (m : M A) : M A :=
  d ← js_gets document;
  match d !! e with Some _ => m | None => js_throw EElementDoesNotExist end.

Definition from_to (a b : num) : fx_given H := Given None None None (Some a) (Some b) None None None (λ _ _, None).
Definition for_duration (s : num) : fx_given H := Given (Some s) None None None None None None None (λ _ _, None).

Definition new_Parallel (effects : list nat) (given : fx_given H) : M nat := begin (Parallel effects) given.
Definition new_Tween (method : nat) (a b : num) (given : fx_given H) : M nat :=
  begin (Tween method) (extend_given (from_to a b) given).
Definition new_Event (given : fx_given H) : M nat := begin EventFx (extend_given (for_duration (int 0)) given).
Definition new_Opacity (e : nid) (given : fx_given H) : M nat :=
  on_element e
    (o ← dom_do (getOpacity computed e);
     begin (Opacity e) (extend_given (from_to (num_or o (int 0)) (int 1)) given)).
Definition new_Move (e : nid) (x y : num) (absolute : bool) (given : fx_given H) : M nat :=
  on_element e (begin (Move e x y absolute (NaN, NaN)) given).
Definition new_MoveBy (e : nid) (toTop toLeft : num) (given : fx_given H) : M nat := new_Move e toLeft toTop false given.
Definition new_Scale (e : nid) (o : scale_options) (given : fx_given H) : M nat :=
  on_element e (begin (Scale e o None) given).
Definition scale_defaults (percent : num) : scale_options := ScaleOptions true true true false Box (int 100) percent false.
Definition new_Highlight (e : nid) (o : highlight_options) (given : fx_given H) : M nat :=
  on_element e (begin (Highlight e o [] [] []) given).
Definition highlight_defaults : highlight_options := HighlightOptions (js "#ffff99") None None false.
(** [Effect.Morph] with an object of styles *)
Definition new_Morph (e : nid) (style : list (jsstr * jsstr)) (given : fx_given H) : M nat :=
  on_element e (begin (Morph e style []) given).
End making.
End effects.
