(* ===== verification/EffectCombos.v ===== *)
(** * The combination effects (effects.js: combination effects, toggle,
      multiple)

    Combinations make effects whose callbacks show, hide and restore the
    element; the callbacks are the constructors of [hook].  The engine, the
    kinds and the callbacks use one another, down to the depth to which effects
    are made of effects. *)

From Stdlib Require Import ZArith QArith_base.
From S2P Require Import Prelude JsBase JsNum Strings Dom Position EffectCore Effects.
#[local] Open Scope Z_scope.
#[local] Open Scope stdpp_scope.

(** ** Callbacks *)

Definition style_list := list (jsstr * jsstr).
(** What [Effect.Grow] keeps for its second effect. *)
Record grow_plan := GrowPlan {
  grow_move : num * num; grow_height : num; grow_width : num;
  moveTransition : num → num; scaleTransition : num → num; opacityTransition : num → num;
  grow_oldStyle : style_list;
}.
#[warnings="-register-all"]
Inductive hook :=
| HUser (callback : nat)
| HFadeEnd (oldOpacity : jsstr)
| HAppearSetup | HAppearEnd
| HPuffSetup | HPuffEnd (oldStyle : style_list)
| HBlindUpEnd
| HBlindDownSetup | HBlindDownEnd
| HSwitchOffNext (oldOpacity : jsstr) | HSwitchOffSetup | HSwitchOffEnd (oldOpacity : jsstr)
| HDropOutSetup | HDropOutEnd (oldStyle : style_list)
| HShakeNext (moves : list (num * num)) (oldStyle : style_list)
| HSlideSetup (down : bool) | HSlideUpdate | HSlideEnd (up : bool) (oldInnerBottom : jsstr)
| HSquishSetup | HSquishEnd
| HGrowSetup | HGrowNext (plan : grow_plan) (options : fx_given hook) | HGrowParts | HGrowEnd (oldStyle : style_list)
| HShrinkStart | HShrinkEnd (oldStyle : style_list)
| HPulsateEnd (oldOpacity : jsstr)
| HFoldNext (oldStyle : style_list) | HFoldEnd (oldStyle : style_list)
| HMorphEnd (className : jsstr).

(** The option of one callback, the internal one or not. *)
Definition with_hook (name : fx_event) (internal : bool) (h : hook) (g : fx_given hook) : fx_given hook :=
  extend_given g (Given None None None None None None None None
    (λ e b, if decide (e = name ∧ b = internal) then Some h else None)).
Definition as_part (g : fx_given hook) : fx_given hook :=
  extend_given g (Given None None (Some true) None None None None None (λ _ _, None)).
Definition with_transition (f : num → num) (g : fx_given hook) : fx_given hook :=
  extend_given g (Given None None None None None None None (Some (TFun f)) (λ _ _, None)).

(** ** Transitions *)
Section transitions.
Context (cos exp : num → num).
Definition PI : num := lit (884279719003555 # 281474976710656).
Definition linear (pos : num) : num := pos.
Definition sinoidal (pos : num) : num := num_add (num_div (num_neg (cos (num_mul pos PI))) (int 2)) (lit (1 # 2)).
Definition reverse (pos : num) : num := num_sub (int 1) pos.
Definition flicker (random pos : num) : num :=
  let pos := num_add (num_add (num_div (num_neg (cos (num_mul pos PI))) (int 4)) (lit (3 # 4))) (num_div random (int 4)) in
  if num_gtb pos (int 1) then int 1 else pos.
Definition wobble (pos : num) : num :=
  num_add (num_div (num_neg (cos (num_mul (num_mul pos PI) (num_mul (int 9) pos)))) (int 2)) (lit (1 # 2)).
(** [pulses || 5] *)
Definition pulse (pulses : option num) (pos : num) : num :=
  let n := num_or (default (int 5) pulses) (int 5) in
  num_add (num_div (num_neg (cos (num_mul (num_mul (num_mul pos (num_sub n (lit (1 # 2)))) (int 2)) PI))) (int 2)) (lit (1 # 2)).
Definition spring (pos : num) : num :=
  num_sub (int 1) (num_mul (cos (num_mul (num_mul pos (lit (9 # 2))) PI)) (exp (num_mul (num_neg pos) (int 6)))).
Definition none (pos : num) : num := int 0.
Definition full (pos : num) : num := int 1.
(** The transition of [Effect.Pulsate], over another one. *)
Definition reverser (transition : num → num) (pulses : num) (pos : num) : num :=
  num_sub (int 1) (transition (num_add (num_div (num_neg (cos (num_mul (num_mul (num_mul pos (num_or pulses (int 5))) (int 2)) PI)))
    (int 2)) (lit (1 # 2)))).
End transitions.

Section combos.
Context (computed : dom → nid → jsstr → option jsstr) (layout : dom → nid → geometry).
Context (scroll_size : dom → nid → Z * Z) (tween_method : nat → num → D ()).
(** [Math.cos], and [Math.random] by the transition that draws it. *)
Context (cos : num → num) (flicker : num → num).
(** The callbacks that pages give, on the document. *)
Context (user_callback : nat → D ()).

#[local] Abbreviation M := (JS (fx dom fx_kind hook)).
#[local] Abbreviation style_now := (Dom.getStyle computed).
#[local] Abbreviation dom_do := (@on_document dom fx_kind hook _).
#[local] Abbreviation dimensions := (Dom.getDimensions computed layout).

Section made.
Context (begin : fx_kind → fx_given hook → M nat).
#[local] Abbreviation mk_Parallel := (@new_Parallel hook begin).
#[local] Abbreviation mk_Opacity := (@new_Opacity computed hook begin).
#[local] Abbreviation mk_Move := (@new_Move hook begin).
#[local] Abbreviation mk_Scale := (@new_Scale hook begin).

Definition getInlineOpacity (e : nid) : D jsstr := n ← get_node e; mret (style_get n (js "opacity")).
Definition inline (e : nid) (names : list jsstr) : D style_list :=
  n ← get_node e; mret ((λ k, (k, style_get n k)) <$> names).
(** [getStyle] for the styles to restore, [null] being restored as nothing *)
Definition current_style (e : nid) (k : jsstr) : D jsstr := v ← style_now e k; mret (default [] v).
Definition forget {A} (m : M A) : M () := m ;; mret ().

(** *** The combinations *)

Definition Fade (e : nid) (options : fx_given hook) : M nat :=
  oldOpacity ← dom_do (getInlineOpacity e);
  o ← dom_do (getOpacity computed e);
  mk_Opacity e (extend_given
    (with_hook AfterFinish true (HFadeEnd oldOpacity) (from_to (num_or o (int 1)) (int 0))) options).

Definition Appear (e : nid) (options : fx_given hook) : M nat :=
  display ← dom_do (style_now e (js "display"));
  from ← (if bool_decide (display = Some (js "none")) then mret (int 0)
          else o ← dom_do (getOpacity computed e); mret (num_or o (int 0)));
  mk_Opacity e (extend_given
    (with_hook BeforeSetup false HAppearSetup (with_hook AfterFinish true HAppearEnd (from_to from (int 1)))) options).

(** The options of the caller that concern the kind are not modelled. *)
Definition Puff (e : nid) (options : fx_given hook) : M nat :=
  opacity ← dom_do (getInlineOpacity e);
  position ← dom_do (current_style e (js "position"));
  sizes ← dom_do (inline e [js "top"; js "left"; js "width"; js "height"]);
  scale ← mk_Scale e (ScaleOptions true true true true Box (int 100) (int 200) true) (as_part no_options);
  fade ← mk_Opacity e (as_part (Given None None None None (Some (int 0)) None None None (λ _ _, None)));
  mk_Parallel [scale; fade] (extend_given (with_hook BeforeSetup true HPuffSetup
    (with_hook AfterFinish true (HPuffEnd ((js "opacity", opacity) :: (js "position", position) :: sizes)) (for_duration (int 1)))) options).

Definition vertical (mode : scale_mode) (from to : num) : scale_options :=
  ScaleOptions false true false false mode from to true.
Definition BlindUp (e : nid) (options : fx_given hook) : M nat :=
  dom_do (makeClipping computed e) ;;
  mk_Scale e (vertical Box (int 100) (int 0)) (extend_given (with_hook AfterFinish true HBlindUpEnd no_options) options).
Definition BlindDown (e : nid) (options : fx_given hook) : M nat :=
  wh ← dom_do (dimensions e);
  mk_Scale e (vertical (Given_size (int wh.2) (int wh.1)) (int 0) (int 100))
    (extend_given (with_hook AfterSetup false HBlindDownSetup (with_hook AfterFinish true HBlindDownEnd no_options)) options).

Definition SwitchOff (e : nid) (options : fx_given hook) : M nat :=
  oldOpacity ← dom_do (getInlineOpacity e);
  Appear e (extend_given (with_hook AfterFinish true (HSwitchOffNext oldOpacity)
    (Given (Some (lit (4 # 10))) None None (Some (int 0)) None None None (Some (TFun flicker)) (λ _ _, None))) options).

Definition DropOut (e : nid) (options : fx_given hook) : M nat :=
  top ← dom_do (current_style e (js "top"));
  left ← dom_do (current_style e (js "left"));
  oldOpacity ← dom_do (getInlineOpacity e);
  let oldStyle := [(js "top", top); (js "left", left); (js "opacity", oldOpacity)] in
  move ← mk_Move e (int 0) (int 100) false (as_part no_options);
  fade ← mk_Opacity e (as_part (Given None None None None (Some (int 0)) None None None (λ _ _, None)));
  mk_Parallel [move; fade] (extend_given
    (with_hook BeforeSetup false HDropOutSetup (with_hook AfterFinish true (HDropOutEnd oldStyle) (for_duration (lit (1 # 2)))))
    options).

(** One move of a shake, with the ones that follow. *)
Definition shake_move (e : nid) (x duration : num) (rest : list (num * num)) (oldStyle : style_list) : M nat :=
  mk_Move e x (int 0) false (with_hook AfterFinish true (HShakeNext rest oldStyle) (for_duration duration)).
Definition Shake (e : nid) (distance duration : num) : M nat :=
  let split := num_div duration (int 10) in
  top ← dom_do (current_style e (js "top"));
  left ← dom_do (current_style e (js "left"));
  let d2 := num_mul distance (int 2) in
  let l2 := num_mul (num_neg distance) (int 2) in
  let s2 := num_mul split (int 2) in
  shake_move e distance split [(l2, s2); (d2, s2); (l2, s2); (d2, s2); (num_neg distance, split)]
    [(js "top", top); (js "left", left)].

Definition first_down (e : nid) : D nid :=
  o ← down e None; match o with Some x => mret x | None => js_throw ETypeError end.
Definition slide_effect (goes_down : bool) (e : nid) (options : fx_given hook) : M nat :=
  dom_do (cleanWhitespace e) ;;
  inner ← dom_do (first_down e);
  oldInnerBottom ← dom_do (current_style inner (js "bottom"));
  wh ← dom_do (dimensions e);
  let mode := Given_size (int wh.2) (int wh.1) in
  mk_Scale e (if goes_down then vertical mode (int 1) (int 100) else vertical mode (int 100) (int 1))
    (extend_given (with_hook AfterSetup false (HSlideSetup goes_down) (with_hook AfterUpdate true HSlideUpdate
      (with_hook AfterFinish true (HSlideEnd (negb goes_down) oldInnerBottom) no_options))) options).
Definition SlideDown : nid → fx_given hook → M nat := slide_effect true.
Definition SlideUp : nid → fx_given hook → M nat := slide_effect false.

Definition Squish (e : nid) : M nat :=
  mk_Scale e (ScaleOptions true true true false Box (int 100) (int 0) true)
    (with_hook BeforeSetup false HSquishSetup (with_hook AfterFinish true HSquishEnd no_options)).

(** *** Grow and shrink *)
Inductive direction := TopLeft | TopRight | BottomLeft | BottomRight | Center.
Definition half (x : num) : num := num_div x (int 2).
(** [initialMoveX], [initialMoveY] and [moveX], [moveY] *)
Definition grow_moves (d : direction) (width height : num) : num * num * (num * num) :=
  match d with
  | TopLeft => (int 0, int 0, (int 0, int 0))
  | TopRight => (width, int 0, (num_neg width, int 0))
  | BottomLeft => (int 0, height, (int 0, num_neg height))
  | BottomRight => (width, height, (num_neg width, num_neg height))
  | Center => (half width, half height, (num_div (num_neg width) (int 2), num_div (num_neg height) (int 2)))
  end.
Definition box_style : list jsstr := [js "top"; js "left"; js "height"; js "width"; js "opacity"].
Definition Grow (e : nid) (d : direction) (options : fx_given hook) : M nat :=
  oldStyle ← dom_do (inline e box_style);
  wh ← dom_do (dimensions e);
  let '(x, y, move) := grow_moves d (int wh.1) (int wh.2) in
  let plan := GrowPlan move (int wh.2) (int wh.1) (sinoidal cos) (sinoidal cos) full oldStyle in
  mk_Move e x y false (with_hook BeforeSetup false HGrowSetup
    (with_hook AfterFinish true (HGrowNext plan options) (for_duration (lit (1 # 100))))).
(** The second effect of [Grow]. *)
Definition grow_parts (e : nid) (plan : grow_plan) (options : fx_given hook) : M nat :=
  fade ← mk_Opacity e (as_part (with_transition (opacityTransition plan) (from_to (int 0) (int 1))));
  move ← mk_Move e (grow_move plan).1 (grow_move plan).2 false (as_part (with_transition (moveTransition plan) no_options));
  scale ← mk_Scale e (ScaleOptions true true true false (Given_size (grow_height plan) (grow_width plan)) (int 0) (int 100) true)
    (as_part (with_transition (scaleTransition plan) no_options));
  mk_Parallel [fade; move; scale] (extend_given (with_hook BeforeSetup false HGrowParts
    (with_hook AfterFinish true (HGrowEnd (grow_oldStyle plan)) no_options)) options).

Definition shrink_move (d : direction) (width height : num) : num * num :=
  match d with
  | TopLeft => (int 0, int 0)
  | TopRight => (width, int 0)
  | BottomLeft => (int 0, height)
  | BottomRight => (width, height)
  | Center => (half width, half height)
  end.
Definition Shrink (e : nid) (d : direction) (options : fx_given hook) : M nat :=
  oldStyle ← dom_do (inline e box_style);
  wh ← dom_do (dimensions e);
  let '(x, y) := shrink_move d (int wh.1) (int wh.2) in
  fade ← mk_Opacity e (as_part (with_transition none (from_to (int 1) (int 0))));
  scale ← mk_Scale e (ScaleOptions true true true false Box (int 100) (int 0) true)
    (as_part (with_transition (sinoidal cos) no_options));
  move ← mk_Move e x y false (as_part (with_transition (sinoidal cos) no_options));
  mk_Parallel [fade; scale; move] (extend_given (with_hook BeforeStart true HShrinkStart
    (with_hook AfterFinish true (HShrinkEnd oldStyle) no_options)) options).

Definition Pulsate (e : nid) (pulses : option num) (options : fx_given hook) : M nat :=
  oldOpacity ← dom_do (getInlineOpacity e);
  let transition := match g_transition options with Some (TFun f) => f | _ => linear end in
  mk_Opacity e (with_transition (reverser cos transition (default (int 5) pulses))
    (extend_given (with_hook AfterFinish true (HPulsateEnd oldOpacity)
      (Given (Some (int 2)) None None (Some (int 0)) None None None None (λ _ _, None))) options)).

Definition Fold (e : nid) (options : fx_given hook) : M nat :=
  oldStyle ← dom_do (inline e [js "top"; js "left"; js "width"; js "height"]);
  dom_do (makeClipping computed e) ;;
  mk_Scale e (ScaleOptions false true false false Box (int 100) (int 5) false)
    (extend_given (with_hook AfterFinish true (HFoldNext oldStyle) no_options) options).

(** *** The callbacks run *)

(** [transform.style] *)
Definition transform_name (t : transform) : jsstr := match t with TColor name _ _ | TNumber name _ _ _ => name end.

(** [effect.element], and [effect.effects[0].element] of a parallel effect *)
Definition element_of (id : nat) : M nid :=
  fx ← get_effect id;
  match kind fx with
  | Opacity e | Move e _ _ _ _ | Scale e _ _ | Highlight e _ _ _ _ | Morph e _ _ => mret e
  | _ => js_throw ETypeError
  end.
Definition part_element (id : nat) : M nid :=
  fx ← get_effect id;
  match kind fx with
  | Parallel (part :: _) => element_of part
  | _ => js_throw ETypeError
  end.

Definition scale_new_dims (id : nat) : M (num * num) :=
  fx ← get_effect id;
  match kind fx with Scale _ _ (Some s) => mret (dims s) | _ => js_throw ETypeError end.

(** [forceRerendering] adds an empty text and takes it away again. *)
Definition hook_run (h : hook) (id : nat) : M () :=
  match h with
  | HUser n => dom_do (user_callback n)
  | HFadeEnd oldOpacity =>
      fx ← get_effect id;
      js_when (num_eqb (to (options fx)) (int 0))
        (e ← element_of id; dom_do (hide e ;; setStyle e [(js "opacity", oldOpacity)]))
  | HAppearSetup =>
      fx ← get_effect id;
      e ← element_of id; dom_do (setOpacity e (from (options fx)) ;; show e)
  | HAppearEnd => e ← element_of id; mret ()
  | HPuffSetup => e ← part_element id; dom_do (absolutize computed layout e ;; mret ())
  | HPuffEnd oldStyle => e ← part_element id; dom_do (hide e ;; setStyle e oldStyle)
  | HBlindUpEnd | HSquishEnd => e ← element_of id; dom_do (hide e ;; undoClipping e)
  | HBlindDownSetup =>
      e ← element_of id; dom_do (makeClipping computed e ;; setStyle e [(js "height", js "0px")] ;; show e)
  | HBlindDownEnd => e ← element_of id; dom_do (undoClipping e)
  | HSwitchOffNext oldOpacity =>
      e ← element_of id;
      forget (mk_Scale e (ScaleOptions false true false true Box (int 100) (int 1) true)
        (with_hook BeforeSetup false HSwitchOffSetup
          (with_hook AfterFinish true (HSwitchOffEnd oldOpacity) (for_duration (lit (3 # 10))))))
  | HSwitchOffSetup => e ← element_of id; dom_do (makePositioned computed e ;; makeClipping computed e)
  | HSwitchOffEnd oldOpacity =>
      e ← element_of id;
      dom_do (hide e ;; undoClipping e ;; undoPositioned e ;; setStyle e [(js "opacity", oldOpacity)])
  | HDropOutSetup => e ← part_element id; dom_do (makePositioned computed e)
  | HDropOutEnd oldStyle => e ← part_element id; dom_do (hide e ;; undoPositioned e ;; setStyle e oldStyle)
  | HShakeNext [] oldStyle => e ← element_of id; dom_do (undoPositioned e ;; setStyle e oldStyle)
  | HShakeNext ((x, duration) :: rest) oldStyle => e ← element_of id; forget (shake_move e x duration rest oldStyle)
  | HSlideSetup goes_down =>
      e ← element_of id;
      dom_do (makePositioned computed e ;;
        inner ← first_down e; makePositioned computed inner ;;
        makeClipping computed e ;;
        js_when goes_down (setStyle e [(js "height", js "0px")]) ;;
        show e)
  | HSlideUpdate =>
      e ← element_of id;
      wh ← scale_new_dims id;
      dom_do (inner ← first_down e;
        g ← layout_of layout e;
        setStyle inner [(js "bottom", in_px (num_sub wh.1 (int (clientHeight g))))])
  | HSlideEnd up oldInnerBottom =>
      e ← element_of id;
      dom_do (js_when up (hide e) ;; undoClipping e ;; undoPositioned e ;;
        inner ← first_down e; undoPositioned inner ;; setStyle inner [(js "bottom", oldInnerBottom)])
  | HSquishSetup => e ← element_of id; dom_do (makeClipping computed e)
  | HGrowSetup => e ← element_of id; dom_do (hide e ;; makeClipping computed e ;; makePositioned computed e)
  | HGrowNext plan given => e ← element_of id; forget (grow_parts e plan given)
  | HGrowParts => e ← part_element id; dom_do (setStyle e [(js "height", js "0px")] ;; show e)
  | HGrowEnd oldStyle => e ← part_element id; dom_do (undoClipping e ;; undoPositioned e ;; setStyle e oldStyle)
  | HShrinkStart => e ← part_element id; dom_do (makePositioned computed e ;; makeClipping computed e)
  | HShrinkEnd oldStyle =>
      e ← part_element id; dom_do (hide e ;; undoClipping e ;; undoPositioned e ;; setStyle e oldStyle)
  | HPulsateEnd oldOpacity => e ← element_of id; dom_do (setStyle e [(js "opacity", oldOpacity)])
  | HFoldNext oldStyle =>
      e ← element_of id;
      forget (mk_Scale e (ScaleOptions true false false false Box (int 100) (int 1) false)
        (with_hook AfterFinish true (HFoldEnd oldStyle) no_options))
  | HFoldEnd oldStyle => e ← element_of id; dom_do (hide e ;; undoClipping e ;; setStyle e oldStyle)
  | HMorphEnd name =>
      e ← element_of id;
      fx ← get_effect id;
      dom_do (addClassName e name ;;
        js_each (match kind fx with Morph _ _ transforms => transforms | _ => [] end) (λ t, put_style e (transform_name t) []))
  end.

(** *** [toggle] and [multiple] *)
Inductive toggle_pair := Slide | Blind | Appearing.
(** [Effect.PAIRS], on the name in lower case *)
Definition pair_of (name : jsstr) : option toggle_pair :=
  let name := toLowerCase name in
  if bool_decide (name = js "slide") then Some Slide
  else if bool_decide (name = js "blind") then Some Blind
  else if bool_decide (name = js "appear") then Some Appearing else None.
Definition effect_toggle (e : nid) (name : jsstr) (options : fx_given hook) : M nat :=
  n ← dom_do (get_node e);
  let id := default [] (attrs n !! js "id") in
  let queue := QObject (Some (js "end")) (Some (match id with [] => js "global" | _ => id end)) (Some 1) in
  let options := extend_given (Given None None None None None None (Some queue) None (λ _ _, None)) options in
  shown ← dom_do (visible e);
  match pair_of (match name with [] => js "appear" | _ => name end), shown with
  | Some Slide, false => SlideDown e options
  | Some Slide, true => SlideUp e options
  | Some Blind, false => BlindDown e options
  | Some Blind, true => BlindUp e options
  | Some Appearing, false => Appear e options
  | Some Appearing, true => Fade e options
  | None, _ => js_throw ETypeError
  end.
(** [multiple]: the effects of a list of elements start one after the other. *)
Definition multiple (elements : list nid) (effect : nid → fx_given hook → M nat) (speed masterDelay : num)
    (options : fx_given hook) : M () :=
  js_each (imap pair elements) (λ p,
    forget (effect p.2 (extend_given options
      (Given None None None None None (Some (num_add (num_mul (int (Z.of_nat p.1)) speed) masterDelay)) None None (λ _ _, None))))).
End made.

(** ** The knot

    An effect made of effects, or whose callback makes one, uses the engine
    for these: [depth] levels of it.  The combinations need two: parts are
    not made of parts, and the callbacks make effects whose callbacks at the
    start change the document only. *)
Definition ops_with (begin : fx_kind → fx_given hook → M nat) (render_part : nat → num → M ()) (complete_part : nat → M ()) :
    EffectOps dom fx_kind hook := {|
  do_setup := set_up_kind computed layout scroll_size;
  do_update := update_kind tween_method render_part;
  do_finish := finish_kind complete_part;
  run_hook := hook_run begin;
|}.
Fixpoint effect_ops (depth : nat) : EffectOps dom fx_kind hook :=
  match depth with
  | O => ops_with (λ _ _, js_throw (EUser 0)) (λ _ _, js_throw (EUser 0)) (λ _, js_throw (EUser 0))
  | S depth =>
      let ops := effect_ops depth in
      ops_with (@start _ _ _ ops (sinoidal cos)) (@render _ _ _ ops) (@complete _ _ _ ops)
  end.
End combos.
