(* ===== verification/EffectLife.v ===== *)
(** * The life of the effects

    The kinds and the callbacks of the library keep the promise of the engine's
    interface, so that every run of the engine does: an effect is set up at
    most once, goes from idle to running to finished and never back, and once
    finished it is rendered no more. *)

From Stdlib Require Import ZArith QArith_base.
From S2P Require Import Prelude JsBase JsNum Strings Dom EffectCore Effects EffectCombos.
#[local] Open Scope Z_scope.
#[local] Open Scope stdpp_scope.

Section life.
Context (computed : dom → nid → jsstr → option jsstr) (layout : dom → nid → geometry).
Context (scroll_size : dom → nid → Z * Z) (tween_method : nat → num → D ()).
Context (cos flicker : num → num) (user_callback : nat → D ()).
#[local] Abbreviation M := (JS (fx dom fx_kind hook)).

Lemma document_lawful {A} (m : D A) : lawful (on_document m : M A).
Proof. apply lawful_same. intros w. unfold on_document. by destruct (m (document w)). Qed.
Lemma put_kind_lawful id k : lawful (change_effect id (put_kind k) : M ()).
Proof. by apply change_lawful. Qed.
#[local] Hint Resolve document_lawful put_kind_lawful : lawful.

(** Splits a computation down to the steps the hints know. *)
Ltac lawful_steps :=
  repeat match goal with
  | |- lawful (mbind _ _) => apply lawful_bind; [|intros ?]
  | |- lawful (let '(_, _) := ?p in _) => destruct p
  | |- lawful (js_when _ _) => apply lawful_when
  | |- lawful (js_each _ _) => apply lawful_each; intros ?
  | |- lawful (if ?b then _ else _) => destruct b
  | |- lawful (match ?x with _ => _ end) => destruct x
  | _ => progress auto with lawful
  end.

Lemma set_up_kind_lawful id : lawful (set_up_kind computed layout scroll_size id : M ()).
Proof. unfold set_up_kind. cbv zeta. lawful_steps. Qed.
Lemma update_kind_lawful render_part id pos : (∀ i p, lawful (render_part i p : M ())) →
  lawful (update_kind tween_method render_part id pos : M ()).
Proof. intros Hr. unfold update_kind. lawful_steps. Qed.
Lemma finish_kind_lawful complete_part id : (∀ i, lawful (complete_part i : M ())) →
  lawful (finish_kind complete_part id : M ()).
Proof. intros Hc. unfold finish_kind. lawful_steps. Qed.

Section making.
Context (begin : fx_kind → fx_given hook → M nat) (Hbegin : ∀ k g, lawful (begin k g)).

Lemma on_element_lawful {A} e (m : M A) : lawful m → lawful (on_element e m).
Proof. intros Hm. unfold on_element. lawful_steps. Qed.
Lemma new_Opacity_lawful e g : lawful (new_Opacity computed begin e g).
Proof. apply on_element_lawful. lawful_steps. Qed.
Lemma new_Move_lawful e x y a g : lawful (new_Move begin e x y a g).
Proof. by apply on_element_lawful. Qed.
Lemma new_Scale_lawful e o g : lawful (new_Scale begin e o g).
Proof. by apply on_element_lawful. Qed.
Lemma new_Parallel_lawful l g : lawful (new_Parallel begin l g).
Proof. apply Hbegin. Qed.
#[local] Hint Resolve new_Opacity_lawful new_Move_lawful new_Scale_lawful new_Parallel_lawful : lawful.

Lemma element_of_lawful id : lawful (element_of id : M nid).
Proof. unfold element_of. lawful_steps. Qed.
#[local] Hint Resolve element_of_lawful : lawful.
Lemma part_element_lawful id : lawful (part_element id : M nid).
Proof. unfold part_element. lawful_steps. Qed.
Lemma scale_new_dims_lawful id : lawful (scale_new_dims id : M _).
Proof. unfold scale_new_dims. lawful_steps. Qed.
#[local] Hint Resolve part_element_lawful scale_new_dims_lawful : lawful.

Lemma shake_move_lawful e x t l o : lawful (shake_move begin e x t l o).
Proof. apply new_Move_lawful. Qed.
Lemma grow_parts_lawful e p g : lawful (grow_parts computed begin e p g).
Proof. unfold grow_parts. lawful_steps. Qed.
#[local] Hint Resolve shake_move_lawful grow_parts_lawful : lawful.

Lemma hook_run_lawful h id : lawful (hook_run computed layout user_callback begin h id).
Proof. unfold hook_run, forget. destruct h; lawful_steps. Qed.
End making.

#[local] Abbreviation ops := (effect_ops computed layout scroll_size tween_method cos user_callback).
Lemma effect_ops_lawful depth : @LawfulOps _ _ _ (ops depth).
Proof.
  induction depth as [|depth IH]; split; intros; cbn [effect_ops ops_with do_setup do_update do_finish run_hook];
    first [apply set_up_kind_lawful|apply update_kind_lawful; intros|apply finish_kind_lawful; intros
      |apply hook_run_lawful; intros]; auto with lawful.
Qed.

(** ** Runs *)

(** What pages and timers ask for. *)
Inductive combo :=
| CFade (e : nid) | CAppear (e : nid) | CBlindUp (e : nid) | CBlindDown (e : nid) | CSwitchOff (e : nid) | CDropOut (e : nid)
| CSlideDown (e : nid) | CSlideUp (e : nid) | CGrow (e : nid) (d : direction) | CShrink (e : nid) (d : direction)
| CPulsate (e : nid) (pulses : option num) | CFold (e : nid) | CPuff (e : nid) | CToggle (e : nid) (name : jsstr).
Definition run_combo (begin : fx_kind → fx_given hook → M nat) (c : combo) : fx_given hook → M nat :=
  match c with
  | CFade e => Fade computed begin e
  | CAppear e => Appear computed begin e
  | CBlindUp e => BlindUp computed begin e
  | CBlindDown e => BlindDown computed layout begin e
  | CSwitchOff e => SwitchOff computed flicker begin e
  | CDropOut e => DropOut computed begin e
  | CSlideDown e => SlideDown computed layout begin e
  | CSlideUp e => SlideUp computed layout begin e
  | CGrow e d => Grow computed layout cos begin e d
  | CShrink e d => Shrink computed layout cos begin e d
  | CPulsate e p => Pulsate computed cos begin e p
  | CFold e => Fold computed begin e
  | CPuff e => Puff computed begin e
  | CToggle e name => effect_toggle computed layout begin e name
  end.

Lemma run_combo_lawful begin c given : (∀ k g, lawful (begin k g)) → lawful (run_combo begin c given).
Proof.
  intros Hb. pose proof (new_Opacity_lawful begin Hb). pose proof (new_Move_lawful begin Hb).
  pose proof (new_Scale_lawful begin Hb). pose proof (new_Parallel_lawful begin Hb).
  unfold run_combo, SwitchOff, effect_toggle, SlideDown, SlideUp.
  destruct c; unfold Fade, Appear, BlindUp, BlindDown, DropOut, slide_effect, Grow, Shrink, Pulsate, Fold, Puff; lawful_steps.
Qed.

Inductive fx_call :=
| CallStart (k : fx_kind) (given : fx_given hook)
| CallCombo (c : combo) (given : fx_given hook)
| CallTick (name : jsstr) (time : Z)
| CallRender (id : nat) (pos : num)
| CallCancel (id : nat)
| CallDocument (m : D ()).

Context (depth : nat).
#[local] Abbreviation fx_start := (@start _ _ _ (ops depth) (sinoidal cos)).
#[local] Abbreviation fx_render := (@render _ _ _ (ops depth)).
Definition fx_step (c : fx_call) : M () :=
  match c with
  | CallStart k given => forget (fx_start k given)
  | CallCombo c given => forget (run_combo fx_start c given)
  | CallTick name time => @tick _ _ _ (ops depth) name time
  | CallRender id pos => fx_render id pos
  | CallCancel id => cancel id
  | CallDocument m => on_document m
  end.
(** A call that throws leaves the state it reached. *)
Definition fx_run (l : list fx_call) (w : fx dom fx_kind hook) : fx dom fx_kind hook :=
  fold_left (λ w c, (fx_step c w).2) l w.
Definition no_effects (d : dom) : fx dom fx_kind hook := Fx d [] ∅ 0 [].

Lemma fx_step_lawful c : lawful (fx_step c).
Proof.
  pose proof (effect_ops_lawful depth) as Hops. destruct c; cbn [fx_step]; unfold forget.
  - apply lawful_bind; [apply start_lawful|intros; apply lawful_ret].
  - apply lawful_bind; [apply run_combo_lawful; intros; apply start_lawful|intros; apply lawful_ret].
  - apply tick_lawful.
  - apply render_lawful.
  - apply cancel_lawful.
  - apply document_lawful.
Qed.
Lemma fx_run_lawful l w : fresh_or_once w → fresh_or_once (fx_run l w) ∧ advances w (fx_run l w).
Proof.
  revert w. induction l as [|c l IH]; intros w Hw; [split; [done|reflexivity]|].
  destruct (fx_step_lawful c w Hw) as [H1 H2]. destruct (IH _ H1) as [H3 H4]. split; [done|].
  cbn [fx_run fold_left]. by trans (fx_step c w).2.
Qed.

(** C17. In every run of the engine - effects and combinations started with
    whatever options, timers, renderings, cancellations and changes of the
    document in any order, calls that throw included - an effect is set up at
    most once; its state only goes from idle to running to finished; it is not
    set up again once it has begun; and rendering an effect that is finished
    changes nothing, then or at any later time.  (Its finish callbacks run after
    the state is set, and the parts of a parallel effect are ended again by the
    effect; of these nothing is said.) *)
Theorem effect_life (l1 l2 : list fx_call) (d : dom) (id : nat) :
  let w1 := fx_run l1 (no_effects d) in
  let w2 := fx_run l2 w1 in
  (setups id w1 ≤ 1)%nat ∧ (state_of id w1 = Some Idle → setups id w1 = 0%nat) ∧
  (∀ s, state_of id w1 = Some s →
    ∃ s', state_of id w2 = Some s' ∧ (rank s ≤ rank s')%nat ∧ (s ≠ Idle → setups id w2 = setups id w1)) ∧
  (state_of id w1 = Some Finished → ∀ pos, fx_render id pos w2 = (Ret (), w2)).
Proof.
  intros w1 w2. assert (fresh_or_once (no_effects d)) as H0 by (intros i; split; [cbn; lia|done]).
  destruct (fx_run_lawful l1 _ H0) as [H1 _]. fold w1 in H1.
  destruct (fx_run_lawful l2 _ H1) as [_ H12]. fold w2 in H12.
  split; [apply H1|]. split; [intros Hi; apply (H1 id); by right|]. split.
  - intros s Hs. destruct (H12 id s Hs) as [(s' & Hs' & Hr) Hn]. by exists s'.
  - intros Hf pos. destruct (H12 id _ Hf) as [(s' & Hs' & Hr) _]. unfold state_of in Hs'.
    destruct (heap w2 !! id) as [e|] eqn:He; [|done]. injection Hs' as Hs'.
    assert (state e = Finished) as Hse by (subst s'; destruct (state e); cbn [rank] in Hr; lia || done).
    unfold render. assert (get_effect id w2 = (Ret e, w2)) as Hg by (unfold get_effect; by rewrite He).
    rewrite (js_bind_Ret _ _ _ _ _ Hg), Hse. cbn [js_when].
    rewrite js_bind_ret, (js_bind_Ret _ _ _ _ _ Hg), Hse. done.
Qed.
End life.
