(* ===== verification/EffectDrain.v ===== *)
(** * The end of the effects of a queue

    The timer of a queue (effects.js: Effect.ScopedQueue.loop) finishes the
    library's own effects: those on one element whose callbacks start no
    further effects. *)

From Stdlib Require Import ZArith QArith_base.
From S2P Require Import Prelude JsBase JsNum JsFloat Enumerable Strings Dom EffectCore EffectQueue Effects EffectCombos.
#[local] Open Scope Z_scope.
#[local] Open Scope stdpp_scope.

(** ** Computations on an element *)

(** It returns wherever the element exists, and removes no node. *)
Definition runs_on {A} (e : nid) (m : D A) : Prop := ∀ d : dom, is_Some (d !! e) →
  ∃ a d', m d = (Ret a, d') ∧ ∀ x, is_Some (d !! x) → is_Some (d' !! x).
Create HintDb runs_on.

Lemma runs_ret {A} e (a : A) : runs_on e (mret a).
Proof. intros d _. by exists a, d. Qed.
Lemma runs_gets {A} e (f : dom → A) : runs_on e (js_gets f).
Proof. intros d _. by exists (f d), d. Qed.
Lemma runs_get e : runs_on e (js_get : D dom).
Proof. intros d _. by exists d, d. Qed.
Lemma runs_bind {A B} e (m : D A) (f : A → D B) : runs_on e m → (∀ a, runs_on e (f a)) → runs_on e (m ≫= f).
Proof.
  intros Hm Hf d Hd. destruct (Hm d Hd) as (a & d1 & H1 & Hk1). destruct (Hf a d1 (Hk1 e Hd)) as (b & d2 & H2 & Hk2).
  exists b, d2. split; [by rewrite (js_bind_Ret _ _ _ _ _ H1)|auto].
Qed.
Lemma runs_when e b (m : D ()) : runs_on e m → runs_on e (js_when b m).
Proof. destruct b; [done|]. intros _. apply runs_ret. Qed.
Lemma runs_each {A} e (l : list A) (f : A → D ()) : (∀ a, runs_on e (f a)) → runs_on e (js_each l f).
Proof. intros Hf. induction l as [|a l IH]; [apply runs_ret|]. apply runs_bind; [apply Hf|done]. Qed.
Lemma runs_get_node e : runs_on e (get_node e).
Proof. intros d [n Hn]. exists n, d. unfold get_node. by rewrite Hn. Qed.
Lemma runs_update e f : runs_on e (update_node e f).
Proof.
  intros d [n Hn]. unfold update_node. rewrite Hn. eexists _, _. split; [done|]. intros x Hx.
  destruct (decide (x = e)) as [->|Hne]; [by rewrite lookup_insert_eq|by rewrite lookup_insert_ne].
Qed.
#[export] Hint Resolve runs_bind runs_when runs_each runs_ret runs_gets runs_get runs_get_node runs_update : runs_on.

(** Splits a computation on an element down to the steps the hints know. *)
Ltac runs_steps :=
  repeat match goal with
  | |- ∀ _, _ => intros ?
  | |- runs_on _ (mbind _ _) => apply runs_bind; [|intros ?]
  | |- runs_on _ (js_when _ _) => apply runs_when
  | |- runs_on _ (js_each _ _) => apply runs_each; intros ?
  | |- runs_on _ (if ?b then _ else _) => destruct b
  | |- runs_on _ (match ?x with _ => _ end) => destruct x
  | _ => progress auto with runs_on
  end.

Section runs.
Context (computed : dom → nid → jsstr → option jsstr) (layout : dom → nid → geometry).
Context (scroll_size : dom → nid → Z * Z).

Lemma runs_put_style e k v : runs_on e (put_style e k v).
Proof. apply runs_update. Qed.
Lemma runs_put_expando e k v : runs_on e (put_expando e k v).
Proof. apply runs_update. Qed.
#[local] Hint Resolve runs_put_style runs_put_expando : runs_on.
Lemma runs_getStyle e k : runs_on e (getStyle computed e k).
Proof. unfold getStyle. cbv zeta. runs_steps. Qed.
Lemma runs_setStyle e l : runs_on e (setStyle e l).
Proof. unfold setStyle, setOpacity. runs_steps. Qed.
#[local] Hint Resolve runs_getStyle runs_setStyle : runs_on.
Lemma runs_makePositioned e : runs_on e (makePositioned computed e).
Proof. unfold makePositioned. runs_steps. Qed.
Lemma runs_undoPositioned e : runs_on e (undoPositioned e).
Proof. unfold undoPositioned. runs_steps. Qed.
Lemma runs_makeClipping e : runs_on e (makeClipping computed e).
Proof. unfold makeClipping. cbv zeta. runs_steps. Qed.
Lemma runs_undoClipping e : runs_on e (undoClipping e).
Proof. unfold undoClipping. runs_steps. Qed.
Lemma runs_scale_set_up e o : runs_on e (scale_set_up computed layout scroll_size e o).
Proof. unfold scale_set_up, scale_dims, layout_of. runs_steps. Qed.
Lemma runs_scale_update e o s p : runs_on e (scale_update e o s p).
Proof. unfold scale_update, setDimensions. cbv zeta. runs_steps. Qed.
End runs.
#[export] Hint Resolve runs_put_style runs_put_expando runs_getStyle runs_setStyle runs_makePositioned
  runs_undoPositioned runs_makeClipping runs_undoClipping runs_scale_set_up runs_scale_update : runs_on.

(** ** The effects on one element *)

(** The element of a kind, [Some None] for the kinds without one; effects made
    of effects, those not set up that need it, and those whose setup may throw
    or cancel are left out. *)
Definition lone_kind (k : fx_kind) : option (option nid) :=
  match k with
  | EventFx => Some None
  | Opacity e | Move e _ _ _ _ | Scale e _ (Some _) => Some (Some e)
  | _ => None
  end.
(** A callback that starts no effect and needs the element only; a page's own
    must return and remove no node. *)
Definition lone_hook (user_callback : nat → D ()) (element : option nid) (h : hook) : Prop :=
  match h with
  | HUser n => ∀ d, ∃ d', user_callback n d = (Ret (), d') ∧ ∀ x, is_Some (d !! x) → is_Some (d' !! x)
  | HFadeEnd _ | HAppearSetup | HAppearEnd | HBlindUpEnd | HSquishEnd | HBlindDownSetup | HBlindDownEnd
  | HSwitchOffSetup | HSwitchOffEnd _ | HShakeNext [] _ | HSquishSetup | HGrowSetup | HPulsateEnd _ | HFoldEnd _ => is_Some element
  | _ => False
  end.

Section drain.
Context (computed : dom → nid → jsstr → option jsstr) (layout : dom → nid → geometry).
Context (scroll_size : dom → nid → Z * Z) (tween_method : nat → num → D ()).
Context (cos : num → num) (user_callback : nat → D ()).
#[local] Abbreviation W := (fx dom fx_kind hook).
#[local] Abbreviation M := (JS (fx dom fx_kind hook)).
#[local] Abbreviation ops := (effect_ops computed layout scroll_size tween_method cos user_callback).

(** The effects of a list are on elements of the document. *)
Definition on_elements (l : list (nat * option nid)) (d : dom) (kinds : list fx_kind) : Prop :=
  Forall (λ p, (k ← kinds !! p.1; lone_kind k) = Some p.2 ∧ ∀ e, p.2 = Some e → is_Some (d !! e)) l.

Section member.
Context (l : list (nat * option nid)) (id : nat) (element : option nid) (Hl : (id, element) ∈ l).
#[local] Abbreviation undisturbed := (undisturbed (on_elements l) (λ _ : nat, False)).
#[local] Abbreviation ready := (ready (H := hook) (on_elements l)).

Lemma ready_effect (w : W) : ready w →
  ∃ fx, heap w !! id = Some fx ∧ lone_kind (kind fx) = Some element ∧ ∀ e, element = Some e → is_Some (document w !! e).
Proof.
  intros Hw. destruct (proj1 (Forall_forall _ _) Hw _ Hl) as [Hk He]. cbn [fst snd] in *. rewrite list_lookup_fmap in Hk.
  destruct (heap w !! id) as [fx|] eqn:Hfx; [|done]. by exists fx.
Qed.

(** Computations of the engine that return and disturb nothing. *)
Definition smooth {A} (m : M A) : Prop := ∀ w, ready w → ∃ a w', m w = (Ret a, w') ∧ undisturbed w w'.
Lemma smooth_ret {A} (a : A) : smooth (mret a).
Proof. intros w _. by exists a, w. Qed.
Lemma smooth_bind {A B} (m : M A) (f : A → M B) : smooth m → (∀ a, smooth (f a)) → smooth (m ≫= f).
Proof.
  intros Hm Hf w Hw. destruct (Hm w Hw) as (a & w1 & H1 & U1). destruct (Hf a w1) as (b & w2 & H2 & U2); [by apply U1|].
  exists b, w2. split; [by rewrite (js_bind_Ret _ _ _ _ _ H1)|by trans w1].
Qed.
Lemma smooth_when b (m : M ()) : smooth m → smooth (js_when b m).
Proof. destruct b; [done|]. intros _. apply smooth_ret. Qed.
Lemma smooth_effect {A} (f : effect fx_kind hook → M A) : (∀ fx, lone_kind (kind fx) = Some element → smooth (f fx)) →
  smooth (fx ← get_effect id; f fx).
Proof.
  intros Hf w Hw. destruct (ready_effect w Hw) as (fx & Hfx & Hk & _).
  rewrite (js_bind_Ret _ _ _ _ _ (get_effect_some _ _ _ Hfx)). by apply Hf.
Qed.
Lemma smooth_document {A} (m : D A) : (∀ d, (∀ e, element = Some e → is_Some (d !! e)) →
    ∃ a d', m d = (Ret a, d') ∧ ∀ x, is_Some (d !! x) → is_Some (d' !! x)) → smooth (on_document m : M A).
Proof.
  intros Hm w Hw. destruct (ready_effect w Hw) as (_ & _ & _ & He). destruct (Hm _ He) as (a & d' & Hr & Hk).
  unfold on_document. rewrite Hr. eexists _, _. split; [done|]. split; try done. intros Hready.
  eapply Forall_impl; [exact Hready|]. intros p [H1 H2]. split; [done|]. intros e ?. apply Hk. by apply H2.
Qed.
Lemma smooth_element {A} e (m : D A) : element = Some e → runs_on e m → smooth (on_document m : M A).
Proof. intros He Hm. apply smooth_document. intros d Hd. by apply Hm, Hd. Qed.
Lemma smooth_of {A} e (f : nid → M A) : element = Some e → smooth (f e) → smooth (x ← element_of id; f x).
Proof.
  intros He Hf. unfold element_of. intros w Hw. destruct (ready_effect w Hw) as (fx & Hfx & Hk & _).
  rewrite js_bind_assoc, (js_bind_Ret _ _ _ _ _ (get_effect_some _ _ _ Hfx)).
  assert (match kind fx with Opacity e | Move e _ _ _ _ | Scale e _ _ | Highlight e _ _ _ _ | Morph e _ _ => Some e | _ => None end = Some e) as Hx.
  { subst element. destruct (kind fx) as [| | | | |? ? []| |]; try discriminate; by injection Hk as ->. }
  destruct (kind fx); try discriminate; injection Hx as ->; by apply Hf.
Qed.
Lemma gentle_put_kind k : lone_kind k = Some element → smooth (change_effect id (put_kind k) : M ()).
Proof.
  intros Hk w _. eexists _, _. split; [reflexivity|]. unfold change_effect, js_modify. cbn [snd].
  split; try done; [intros i; unfold schedule_of; cbn|intros i _; unfold state_of; cbn|].
  - destruct (decide (i = id)) as [->|Hne]; [rewrite list_lookup_alter_eq; by destruct (heap w !! id)|by rewrite list_lookup_alter_ne].
  - destruct (decide (i = id)) as [->|Hne]; [rewrite list_lookup_alter_eq; by destruct (heap w !! id)|by rewrite list_lookup_alter_ne].
  - intros Hw. apply Forall_forall. intros p Hp. destruct (proj1 (Forall_forall _ _) Hw _ Hp) as [H1 H2]. split; [|done].
    cbn. rewrite list_lookup_fmap in *. destruct (decide (p.1 = id)) as [Hid|Hne]; [|by rewrite list_lookup_alter_ne].
    destruct (ready_effect w Hw) as (fx & Hfx & Hfk & _). rewrite Hid in *. rewrite list_lookup_alter_eq, Hfx in *. cbn in *. congruence.
Qed.
Lemma smooth_quiet (m : M ()) : smooth m → quiet (on_elements l) m.
Proof. intros Hm w Hw. destruct (Hm w Hw) as ([] & w' & Hr & U). by exists w'. Qed.

#[local] Ltac smooth_steps :=
  repeat match goal with
  | |- smooth (get_effect id ≫= _) => apply smooth_effect; intros ? ?
  | |- smooth (element_of id ≫= _) => eapply smooth_of; [eassumption|]
  | |- smooth (mret _) => apply smooth_ret
  | |- smooth (mbind _ _) => apply smooth_bind; [|intros ?]
  | |- smooth (js_when _ _) => apply smooth_when
  | |- smooth (on_document _) => eapply smooth_element; [eassumption|runs_steps]
  end.

Lemma set_up_gentle : smooth (set_up_kind computed layout scroll_size id : M ()).
Proof.
  unfold set_up_kind. apply smooth_effect. intros fx Hk. destruct (kind fx) eqn:Hkind; try discriminate; try apply smooth_ret.
  - injection Hk as Hk. symmetry in Hk. cbv zeta. smooth_steps. apply gentle_put_kind. cbn. congruence.
  - destruct s; [|discriminate]. injection Hk as Hk. symmetry in Hk. smooth_steps. apply gentle_put_kind. cbn. congruence.
Qed.
Lemma update_gentle render_part pos : smooth (update_kind tween_method render_part id pos : M ()).
Proof.
  unfold update_kind. apply smooth_effect. intros fx Hk. destruct (kind fx) as [| | |e|e x y a []|e o []| |]; try discriminate;
    try apply smooth_ret; injection Hk as Hk; symmetry in Hk; smooth_steps.
  unfold setOpacity. runs_steps.
Qed.
Lemma finish_gentle complete_part : smooth (finish_kind complete_part id : M ()).
Proof.
  unfold finish_kind. apply smooth_effect. intros fx Hk. destruct (kind fx) as [| | |e|e x y a []|e o []| |]; try discriminate;
    try apply smooth_ret; injection Hk as Hk; symmetry in Hk; smooth_steps.
Qed.
Lemma hook_gentle begin h : lone_hook user_callback element h → smooth (hook_run computed layout user_callback begin h id : M ()).
Proof.
  assert (∀ e, runs_on e (hide e)) as Hhide by (intros; apply runs_update).
  assert (∀ e, runs_on e (show e)) as Hshow by (intros; apply runs_update).
  assert (∀ e v, runs_on e (setOpacity e v)) as Hop by (intros; apply runs_update).
  intros Hh. destruct h; try destruct moves; cbn in Hh; try done; cbn [hook_run];
    [|destruct Hh as [e He]; smooth_steps; auto with runs_on..].
  apply smooth_document. intros d _. destruct (Hh d) as (d' & Hd & Hk). by exists (), d'.
Qed.
End member.

(** ** The queues *)

(** An effect whose time is over, on an element of the document, whose
    callbacks start no effect. *)
Definition due (name : jsstr) (t : Z) (w : W) (id : nat) : Prop := ∃ fx element,
  heap w !! id = Some fx ∧ lone_kind (kind fx) = Some element ∧ (∀ e, element = Some e → is_Some (document w !! e)) ∧
  (∀ event internal h, hooks (options fx) event internal = Some h → lone_hook user_callback element h) ∧
  sync (options fx) = false ∧ queue_scope (queue (options fx)) = Some name ∧
  num_geb (int t) (startOn fx) = true ∧ num_geb (int t) (finishOn fx) = true.

(** The elements of the members of a queue. *)
Definition with_elements (m : list nat) (w : W) : list (nat * option nid) :=
  omap (λ id, fx ← heap w !! id; pair id <$> lone_kind (kind fx)) m.
Lemma with_elements_in id element m w : (id, element) ∈ with_elements m w ↔
  id ∈ m ∧ ∃ fx, heap w !! id = Some fx ∧ lone_kind (kind fx) = Some element.
Proof.
  unfold with_elements. rewrite list_elem_of_omap. split.
  - intros (i & Hi & Hx). destruct (heap w !! i) as [fx|] eqn:Hfx; [|done]. cbn in Hx.
    destruct (lone_kind (kind fx)) as [x|] eqn:Hk; [|done]. injection Hx as -> ->. split; [done|by exists fx].
  - intros (Hi & fx & Hfx & Hk). exists id. split; [done|]. rewrite Hfx. cbn. by rewrite Hk.
Qed.

Lemma lone_calm depth l id element o : (id, element) ∈ l →
  (∀ event internal h, hooks o event internal = Some h → lone_hook user_callback element h) →
  @calm _ _ _ (ops depth) (on_elements l) id o.
Proof.
  intros Hl Hh. split; destruct depth; cbn [effect_ops ops_with do_setup do_update do_finish run_hook]; intros;
    eapply smooth_quiet; eauto using set_up_gentle, update_gentle, finish_gentle, hook_gentle.
Qed.

(** C16. The timer of a queue finishes the effects of the library whose time
    is over, though each of its passes leaves every second one.  Take a queue
    whose members are all due: opacity, move and event effects, and scalings
    already set up, on elements of the document, whose callbacks - those of
    the combinations that start no further effect, and a page's own that
    return and remove no element - need the element only.  If there are fewer
    than [2^k] of them, none is left after [k] passes, all have finished, the
    timer is stopped, no pass throws, and the states of all other effects are
    as before. *)
Theorem queue_drains (depth : nat) (name : jsstr) (t : Z) (times : list Z) (m : list nat) (w : W) :
  queues w !! name = Some (ScopedQueue m (bool_decide (m ≠ []))) → NoDup m → Forall (due name t w) m →
  Forall (λ t', t ≤ t') times → (length m < 2 ^ length times)%nat →
  ∃ w', js_each times (@tick _ _ _ (ops depth) name) w = (Ret (), w') ∧ queues w' !! name = Some (ScopedQueue [] false) ∧
    Forall (λ i, state_of i w' = Some Finished) m ∧ (∀ i, i ∉ m → state_of i w' = state_of i w).
Proof.
  intros Hq Hnd Hm Ht Hlen.
  apply (calm_queue_drains (ops := ops depth) (on_elements (with_elements m w)) name t times m w); try done.
  - apply Forall_forall. intros [id element] Hid. apply with_elements_in in Hid as (Hid & fx & Hfx & Hk). cbn [fst snd].
    rewrite list_lookup_fmap, Hfx. cbn. split; [done|]. rewrite Forall_forall in Hm.
    destruct (Hm _ Hid) as (fx' & element' & Hfx' & Hk' & He & _). by simplify_eq.
  - apply Forall_forall. intros id Hid. pose proof (proj1 (Forall_forall _ _) Hm _ Hid) as
      (fx & element & Hfx & Hk & He & Hh & Hsync & Hscope & Hs & Hf).
    exists (options fx), (startOn fx), (finishOn fx). unfold schedule_of. rewrite Hfx. split_and!; try done.
    apply (lone_calm depth _ id element); [|done]. apply with_elements_in. split; [done|by exists fx].
Qed.
End drain.

(** ** A sample: a fade, a move and a blind, half a second under way *)

Definition sample_computed (d : dom) (e : nid) (k : jsstr) : option jsstr := Some (js "0px").
Definition sample_layout (d : dom) (e : nid) : geometry := Geometry 0 0 100 50 100 50 0 0 None.
#[local] Abbreviation sample_ops := (effect_ops sample_computed sample_layout (λ _ _, (50, 100)) (λ _ _, mret ()) (λ _, int 0) (λ _, mret ()) 2).
#[local] Abbreviation sample_start := (@start _ _ _ sample_ops (sinoidal (λ _, int 0))).
Definition three_under_way : fx dom fx_kind hook :=
  ((Fade sample_computed sample_start 2 no_options ;;
    new_Move sample_start 4 (int 30) (int 40) false no_options ;;
    BlindUp sample_computed sample_start 4 no_options ;;
    @tick _ _ _ sample_ops (js "global") 1500) (Fx sample_dom [] ∅ 1000 [])).2.
Example three_under_way_styles :
  (λ e, default ∅ (style <$> document three_under_way !! e) !! js "opacity") <$> [2%nat] = [Some (js "0.5")] ∧
  (λ e, default ∅ (style <$> document three_under_way !! e) !! js "left") <$> [4%nat] = [Some (js "15px")].
Proof. vm_compute. split; reflexivity. Qed.

Lemma queue_drains_witness : ∃ w',
  js_each [2000; 2015] (@tick _ _ _ sample_ops (js "global")) three_under_way = (Ret (), w') ∧
  queues w' !! js "global" = Some (ScopedQueue [] false) ∧ Forall (λ i, state_of i w' = Some Finished) [0; 1; 2]%nat.
Proof.
  destruct (queue_drains sample_computed sample_layout (λ _ _, (50, 100)) (λ _ _, mret ()) (λ _, int 0) (λ _, mret ())
    2 (js "global") 2000 [2000; 2015] [0; 1; 2]%nat three_under_way) as (w' & H1 & H2 & H3 & _).
  - vm_compute. reflexivity.
  - apply (bool_decide_unpack _). vm_compute. exact I.
  - repeat apply List.Forall_cons; try apply List.Forall_nil.
    all: eexists _, _; split; [vm_compute; reflexivity|]; split; [reflexivity|].
    all: split; [intros e [= <-]; vm_compute; by eexists|].
    all: split; [intros [] [] h; vm_compute; intros [= <-]; by eexists|].
    all: split_and!; vm_compute; reflexivity.
  - repeat apply List.Forall_cons; try apply List.Forall_nil; lia.
  - cbn. lia.
  - exists w'. split; [exact H1|]. split; [exact H2|exact H3].
Defined.
