(* ===== verification/Drag.v ===== *)
(** * Dragging (dragdrop.js: Draggables, Draggable)

    The elements that can be dragged, and the handlers on the document that
    turn presses, moves, releases and the escape key into drags.  What the
    options [ghosting] and [scroll] add at the steps of a drag is the class
    [DragExtras]: nothing, by default, or DragScroll.v. *)

From Stdlib Require Import ZArith QArith.
From S2P Require Import Prelude JsBase JsNum Strings Dom Droppable.
#[local] Open Scope Z_scope.
#[local] Open Scope stdpp_scope.

(** ** State *)

(** What a draggable notifies. *)
Inductive note := OnStart | OnDrag | OnEnd.
#[export] Instance note_eq_dec : EqDecision note.
Proof. solve_decision. Defined.

(** A value of the option [revert]: [false], [true], ['failure'] or a function. *)
Inductive revert_value := RevertNo | RevertYes | RevertFailure.
Inductive revert_option := Revert (v : revert_value) | RevertBy (f : nat).
Inductive snap_option := SnapNo | SnapTo (x y : num) | SnapBy (f : nat).
(** An effect: the default one or a function of the page. *)
Inductive drag_effect := DefaultEffect | PageEffect (f : nat).
(** [constraint]; functions of the page are named by numbers. *)
Record drag_options := DragOptions {
  zindex : Z;
  revert : revert_option;
  quiet : bool;
  snap : snap_option;
  constraint : option jsstr;
  drag_delay : Z;
  starteffect : option drag_effect;
  endeffect : option drag_effect;
  reverteffect : option drag_effect;
  note_option : note → option nat;
  change : option nat;
  onDropped : option nat;
}.
Definition drag_defaults (endeffect_given : bool) : drag_options :=
  DragOptions 1000 (Revert RevertNo) false SnapNo None 0 (if endeffect_given then None else Some DefaultEffect)
    (Some DefaultEffect) (Some DefaultEffect) (λ _, None) None None.

Record draggable := Draggable {
  g_element : nid;
  g_handle : nid;
  g_options : drag_options;
  dragging : bool;
  delta : option (num * num);
  g_offset : Z * Z;
  originalZ : option num;
}.
Definition set_dragging (b : bool) (g : draggable) : draggable :=
  Draggable (g_element g) (g_handle g) (g_options g) b (delta g) (g_offset g) (originalZ g).
Definition set_delta (d : num * num) (g : draggable) : draggable :=
  Draggable (g_element g) (g_handle g) (g_options g) (dragging g) (Some d) (g_offset g) (originalZ g).
Definition set_offset (o : Z * Z) (g : draggable) : draggable :=
  Draggable (g_element g) (g_handle g) (g_options g) (dragging g) (delta g) o (originalZ g).
Definition set_originalZ (z : num) (g : draggable) : draggable :=
  Draggable (g_element g) (g_handle g) (g_options g) (dragging g) (delta g) (g_offset g) (Some z).

(** An observer: its element and its callbacks. *)
Record drag_observer := DragObserver { o_element : nid; o_call : note → option nat }.

(** The state of dragging: the draggables there are, by their numbers; those
    registered; [notes] is the record of all notifications. *)
Record drag_core := DragCore {
  objects : gmap nat draggable;
  drags : list nat;
  observing : bool;               (* the handlers on the document are bound *)
  activeDraggable : option nat;
  lastPointer : option (Z * Z);
  timeout : option nat;           (* the draggable a timer will activate_drag *)
  observers : list drag_observer;
  counts : note → nat;
  notes : list (nat * note);
}.
(** [busy] is [Draggable._dragging], whose keys are the texts of elements;
    [opacities] the property [_opacity] of elements. *)
Record drag_state (X : Type) := DragState {
  core : drag_core;
  busy : gmap jsstr bool;
  opacities : gmap nid num;
  others : X;
}.
Arguments DragState {X}.
Arguments core {X}.
Arguments busy {X}.
Arguments opacities {X}.
Arguments others {X}.

Definition set_objects (m : gmap nat draggable) (c : drag_core) : drag_core :=
  DragCore m (drags c) (observing c) (activeDraggable c) (lastPointer c) (timeout c) (observers c) (counts c) (notes c).
Definition set_drags (l : list nat) (b : bool) (c : drag_core) : drag_core :=
  DragCore (objects c) l b (activeDraggable c) (lastPointer c) (timeout c) (observers c) (counts c) (notes c).
Definition set_active (o : option nat) (c : drag_core) : drag_core :=
  DragCore (objects c) (drags c) (observing c) o (lastPointer c) (timeout c) (observers c) (counts c) (notes c).
Definition set_lastPointer (p : option (Z * Z)) (c : drag_core) : drag_core :=
  DragCore (objects c) (drags c) (observing c) (activeDraggable c) p (timeout c) (observers c) (counts c) (notes c).
Definition set_timeout (o : option nat) (c : drag_core) : drag_core :=
  DragCore (objects c) (drags c) (observing c) (activeDraggable c) (lastPointer c) o (observers c) (counts c) (notes c).
Definition set_observers (l : list drag_observer) (n : note → nat) (c : drag_core) : drag_core :=
  DragCore (objects c) (drags c) (observing c) (activeDraggable c) (lastPointer c) (timeout c) l n (notes c).
Definition add_note (d : nat) (n : note) (c : drag_core) : drag_core :=
  DragCore (objects c) (drags c) (observing c) (activeDraggable c) (lastPointer c) (timeout c) (observers c) (counts c)
    (notes c ++ [(d, n)]).

(** ** Operations *)

(** The calls of a page's functions. *)
Inductive page_call :=
| ObserverCall (f : nat) (n : note) (d : nat)
| DragCall (f : nat) (d : nat)              (* onStart, onDrag, onEnd, change *)
| ElementCall (f : nat) (e : nid)           (* starteffect, endeffect, onDropped *)
| RevertCall (f : nat) (e : nid) (top left : num).

(** What dragging needs of the effects: [new Effect.Opacity] with its
    duration, start and end, and [new Effect.Move] with its offsets and
    duration. *)
Class DragEffects (W : Type) := {
  new_opacity_effect : nid → num → num → num → JS W ();
  new_move_effect : nid → num → num → num → JS W ();
}.

(** What the options [ghosting] and [scroll] do at the steps of a drag: the
    offsets of the page are read again, a drag starts, moves, is drawn (what the
    position of the element is corrected by, before and after its styles),
    ends, and is released. *)
Class DragExtras (W : Type) := {
  position_prepare : JS W ();
  ghost_start : nat → JS W ();
  scroll_origin : nat → JS W ();
  ghost_shift : nat → num * num → JS W (num * num);
  scroll_shift : nat → num * num → JS W (num * num);
  autoscroll : nat → Z * Z → JS W ();
  ghost_end : nat → JS W ();
  release_scroll : nat → JS W ();
}.
Definition no_extras (W : Type) : DragExtras W :=
  Build_DragExtras W (mret ()) (λ _, mret ()) (λ _, mret ()) (λ _, mret) (λ _, mret) (λ _ _, mret ()) (λ _, mret ()) (λ _, mret ()).

(** A mouse event: the pointer, whether it is the left button and the name of
    the tag below. *)
Record press := Press { p_pointer : Z * Z; p_left : bool; p_tag : jsstr }.

(** [a ^ 2] of numbers: on their 32-bit integers *)
Definition to_int32 (x : num) : Z :=
  match x with
  | Fin q => let z := Z.quot (Qnum q) (Zpos (Qden q)) in (z + 2 ^ 31) mod 2 ^ 32 - 2 ^ 31
  | _ => 0
  end.
Definition num_xor (x : num) (z : Z) : num := int (Z.lxor (to_int32 x) z).
(** [Math.sqrt] of integers, as here: the root of the number scaled by [2^160] is cut off; if
    it is not exact half a unit is added, which is on the same side of every
    midpoint of two doubles as the root. *)
Definition num_sqrt (x : num) : num :=
  match x with
  | Fin q =>
      if Qnum q <? 0 then NaN
      else
        let t := (Qnum q * 2 ^ 160) / Zpos (Qden q) in
        let s := Z.sqrt t in
        if (s * s =? t) && (t * Zpos (Qden q) =? Qnum q * 2 ^ 160) then round_q (s # (2 ^ 80))
        else round_q ((2 * s + 1) # (2 ^ 81))
  | PInf => PInf
  | _ => NaN
  end.

Section drags.
Context {X : Type} (computed : dom → nid → jsstr → option jsstr) (layout : dom → nid → geometry).
#[local] Abbreviation W := (dnd (drag_state X)).
#[local] Abbreviation M := (JS W).
Context `{DragEffects W, DragExtras W}.
(** The page's functions, and the text of an element as a key. *)
Context (on_hover : nat → nid → nid → num → M ()) (on_drop : nat → nid → nid → M ()).
Context (call_page : page_call → M ()) (revert_by : nat → nid → M revert_value)
  (snap_by : nat → num → num → nat → M (num * num)).
Context (element_key : nid → jsstr).

Definition core_of (w : W) : drag_core := core (rest w).
Definition change_core (f : drag_core → drag_core) : M () := js_modify (λ w,
  set_rest (DragState (f (core_of w)) (busy (rest w)) (opacities (rest w)) (others (rest w))) w).
Definition set_busy (e : nid) (b : bool) : M () := js_modify (λ w,
  set_rest (DragState (core_of w) (<[element_key e := b]> (busy (rest w))) (opacities (rest w)) (others (rest w))) w).
Definition set_opacity_of (e : nid) (x : num) : M () := js_modify (λ w,
  set_rest (DragState (core_of w) (busy (rest w)) (<[e := x]> (opacities (rest w))) (others (rest w))) w).
Definition get_drag (d : nat) : M draggable := λ w,
  match objects (core_of w) !! d with Some g => (Ret g, w) | None => (Throw ETypeError, w) end.
Definition change_drag (d : nat) (f : draggable → draggable) : M () :=
  change_core (λ c, set_objects (alter f d (objects c)) c).
Definition call_option {A} (o : option A) (m : A → M ()) : M () :=
  match o with Some f => m f | None => mret () end.

(** *** Draggables *)
Definition register_drag (d : nat) : M () :=
  change_core (λ c, set_drags (drags c ++ [d]) (if decide (drags c = []) then true else observing c) c).
Definition unregister_drag (d : nat) : M () :=
  change_core (λ c, let l := filter (λ i, i ≠ d) (drags c) in set_drags l (if decide (l = []) then false else observing c) c).
(** [activate_drag]; the timer runs [activate_timer]. *)
Definition activate_drag (d : nat) : M () :=
  g ← get_drag d;
  change_core (if drag_delay (g_options g) =? 0 then set_active (Some d) else set_timeout (Some d)).
Definition activate_timer : M () :=
  w ← js_get;
  call_option (timeout (core_of w)) (λ d, change_core (λ c, set_active (Some d) (set_timeout None c))).
Definition deactivate_drag : M () := change_core (set_active None).
Definition cacheObserverCallbacks (l : list drag_observer) : note → nat :=
  λ n, length (filter (λ o, is_Some (o_call o n)) l).
Definition addObserver (o : drag_observer) : M () :=
  change_core (λ c, let l := observers c ++ [o] in set_observers l (cacheObserverCallbacks l) c).
Definition removeObserver (e : nid) : M () :=
  change_core (λ c, let l := filter (λ o, o_element o ≠ e) (observers c) in set_observers l (cacheObserverCallbacks l) c).
Definition notify (n : note) (d : nat) : M () :=
  change_core (add_note d n) ;;
  w ← js_get;
  js_when (0 <? counts (core_of w) n)%nat
    (js_each (observers (core_of w)) (λ o, call_option (o_call o n) (λ f, call_page (ObserverCall f n d)))) ;;
  g ← get_drag d;
  call_option (note_option (g_options g) n) (λ f, call_page (DragCall f d)).

(** *** Draggable *)
(** [initialize] and [destroy], the handle being found by the caller. *)
Definition new_draggable (d : nat) (e : nid) (handle : option nid) (options : drag_options) : M () :=
  on_page (makePositioned computed e) ;;
  change_core (λ c, set_objects (<[d := Draggable e (default e handle) options false None (0, 0) None]> (objects c)) c) ;;
  register_drag d.
Definition destroy_drag (d : nat) : M () := unregister_drag d.

Definition px_value (e : nid) (style : jsstr) : M num :=
  v ← on_page (getStyle computed e style);
  mret (parseInt (match v with Some (c :: s) => c :: s | _ => js "0" end)).
Definition currentDelta (e : nid) : M (num * num) :=
  left ← px_value e (js "left");
  top ← px_value e (js "top");
  mret (left, top).

Definition form_tags : list jsstr := [js "INPUT"; js "SELECT"; js "OPTION"; js "BUTTON"; js "TEXTAREA"].
(** Whether a press starts anything. *)
Definition accepts (w : W) (e : nid) (p : press) : bool :=
  negb (default false (busy (rest w) !! element_key e)) && p_left p &&
  negb (bool_decide (toUpperCase (p_tag p) ∈ form_tags)).
Definition initDrag (d : nat) (p : press) : M () :=
  g ← get_drag d;
  w ← js_get;
  js_when (accepts w (g_element g) p)
    (pos ← on_page (cumulativeOffset layout (g_element g));
     change_drag d (set_offset ((p_pointer p).1 - pos.1, (p_pointer p).2 - pos.2)) ;;
     activate_drag d).

Definition default_starteffect (e : nid) : M () :=
  o ← on_page (getOpacity computed e);
  set_opacity_of e o ;;
  set_busy e true ;;
  new_opacity_effect e (lit (1 # 5)) o (lit (7 # 10)).
(** What runs when the effect has finished is [effect_done]. *)
Definition default_endeffect (e : nid) : M () :=
  w ← js_get;
  new_opacity_effect e (lit (1 # 5)) (lit (7 # 10)) (default (int 1) (opacities (rest w) !! e)).
Definition effect_done (e : nid) : M () := set_busy e false.
Definition default_reverteffect (e : nid) (top_offset left_offset : num) : M () :=
  let dur := num_mul (num_sqrt (num_add (num_abs (num_xor top_offset 2)) (num_abs (num_xor left_offset 2)))) (lit (1 # 50)) in
  new_move_effect e (num_neg left_offset) (num_neg top_offset) dur.
Definition run_effect (o : option drag_effect) (m : M ()) (page_call : nat → M ()) : M () :=
  call_option o (λ f, match f with DefaultEffect => m | PageEffect f => page_call f end).

Definition startDrag (d : nat) : M () :=
  change_drag d (set_dragging true) ;;
  g ← get_drag d;
  let e := g_element g in
  js_when (bool_decide (delta g = None)) (v ← currentDelta e; change_drag d (set_delta v)) ;;
  js_when (negb (zindex (g_options g) =? 0))
    (z ← px_value e (js "z-index");
     change_drag d (set_originalZ z) ;;
     on_page (put_style e (js "zIndex") (number_str (int (zindex (g_options g)))))) ;;
  ghost_start d ;;
  scroll_origin d ;;
  notify OnStart d ;;
  run_effect (starteffect (g_options g)) (default_starteffect e) (λ f, call_page (ElementCall f e)).

Definition snap_point (s : snap_option) (d : nat) (p : num * num) : M (num * num) :=
  let to (v s : num) := num_mul (num_round (num_div v s)) s in
  match s with
  | SnapNo => mret p
  | SnapTo x y => mret (to p.1 x, to p.2 y)
  | SnapBy f => snap_by f p.1 p.2 d
  end.
Definition draw (d : nat) (point : num * num) : M () :=
  g ← get_drag d;
  let e := g_element g in
  pos ← on_page (cumulativeOffset layout e);
  pos ← ghost_shift d (int pos.1, int pos.2);
  cur ← currentDelta e;
  pos ← scroll_shift d (num_sub pos.1 cur.1, num_sub pos.2 cur.2);
  let at_ (p q : num) (o : Z) := num_sub (num_sub p q) (int o) in
  p ← snap_point (snap (g_options g)) d (at_ point.1 pos.1 (g_offset g).1, at_ point.2 pos.2 (g_offset g).2);
  let c := constraint (g_options g) in
  js_when (bool_decide (c = None ∨ c = Some (js "horizontal"))) (on_page (put_style e (js "left") (number_str p.1 ++ js "px"))) ;;
  js_when (bool_decide (c = None ∨ c = Some (js "vertical"))) (on_page (put_style e (js "top") (number_str p.2 ++ js "px"))) ;;
  n ← on_page (get_node e);
  js_when (bool_decide (style_get n (js "visibility") = js "hidden")) (on_page (put_style e (js "visibility") [])).

Definition drag_to (d : nat) (point : Z * Z) : M () :=
  g ← get_drag d;
  js_when (negb (dragging g)) (startDrag d) ;;
  js_when (negb (quiet (g_options g))) (position_prepare ;; drop_show layout on_hover point (g_element g)) ;;
  notify OnDrag d ;;
  draw d (int point.1, int point.2) ;;
  call_option (change (g_options g)) (λ f, call_page (DragCall f d)) ;;
  autoscroll d point.

Definition revert_of (g : draggable) : M revert_value :=
  match revert (g_options g) with Revert v => mret v | RevertBy f => revert_by f (g_element g) end.
(** Put back, or keep the position as the one a drag starts from; [this.delta]
    of a draggable that was never dragged is [undefined]. *)
Definition settle (d : nat) (dropped : bool) : M () :=
  g ← get_drag d;
  let e := g_element g in
  r ← revert_of g;
  cur ← currentDelta e;
  match r, reverteffect (g_options g) with
  | (RevertYes | RevertFailure) as r, Some f =>
      js_when (negb dropped || match r with RevertFailure => false | _ => true end)
        match delta g with
        | None => js_throw ETypeError
        | Some old =>
            let top := num_sub cur.2 old.2 in let left := num_sub cur.1 old.1 in
            run_effect (Some f) (default_reverteffect e top left) (λ f, call_page (RevertCall f e top left))
        end
  | _, _ => change_drag d (set_delta cur)
  end.
(** [finishDrag] up to the call of [Draggables.deactivate]. *)
Definition finish_work (d : nat) (point : Z * Z) (success : bool) : M () :=
  change_drag d (set_dragging false) ;;
  g ← get_drag d;
  let e := g_element g in
  js_when (quiet (g_options g)) (position_prepare ;; drop_show layout on_hover point e) ;;
  ghost_end d ;;
  dropped ← (if success then drop_fire layout on_drop point e else mret false);
  js_when dropped (call_option (onDropped (g_options g)) (λ f, call_page (ElementCall f e))) ;;
  notify OnEnd d ;;
  settle d dropped ;;
  js_when (negb (zindex (g_options g) =? 0))
    match originalZ g with
    | Some z => on_page (put_style e (js "zIndex") (number_str z))
    | None => mret ()           (* no style of that name is assigned *)
    end ;;
  run_effect (endeffect (g_options g)) (default_endeffect e) (λ f, call_page (ElementCall f e)).
Definition finishDrag (d : nat) (point : Z * Z) (success : bool) : M () :=
  finish_work d point success ;; deactivate_drag ;; drop_reset.

(** *** The handlers on the document *)
Definition updateDrag (point : Z * Z) : M () :=
  w ← js_get;
  call_option (activeDraggable (core_of w)) (λ d,
    js_when (bool_decide (lastPointer (core_of w) ≠ Some point))
      (change_core (set_lastPointer (Some point)) ;; drag_to d point)).
Definition end_active (d : nat) (point : Z * Z) : M () :=
  g ← get_drag d;
  js_when (dragging g) (release_scroll d ;; finishDrag d point true).
Definition endDrag (point : Z * Z) : M () :=
  change_core (set_timeout None) ;;
  w ← js_get;
  call_option (activeDraggable (core_of w)) (λ d,
    change_core (set_lastPointer None) ;;
    end_active d point ;;
    change_core (set_active None)).
Definition keyPress (escape : bool) (point : Z * Z) : M () :=
  w ← js_get;
  call_option (activeDraggable (core_of w)) (λ d, js_when escape (finishDrag d point false)).

Inductive drag_event :=
| MouseDown (d : nat) (p : press)
| MouseMove (point : Z * Z)
| MouseUp (point : Z * Z)
| Key (escape : bool) (point : Z * Z)
| DelayOver
| EffectOver (e : nid).
Definition drag_step (ev : drag_event) : M () :=
  match ev with
  | MouseDown d p => w ← js_get; js_when (bool_decide (d ∈ drags (core_of w))) (initDrag d p)
  | MouseMove p => w ← js_get; js_when (observing (core_of w)) (updateDrag p)
  | MouseUp p => w ← js_get; js_when (observing (core_of w)) (endDrag p)
  | Key esc p => w ← js_get; js_when (observing (core_of w)) (keyPress esc p)
  | DelayOver => activate_timer
  | EffectOver e => effect_done e
  end.
(** A page goes on after a handler that throws. *)
Definition drag_run (evs : list drag_event) (w : W) : W := foldl (λ w ev, (drag_step ev w).2) w evs.
End drags.

(** ** A state machine for drags *)

Inductive phase := Idle | Waiting (d : nat) | Pressed (d : nat) | Moving (d : nat).
#[export] Instance phase_eq_dec : EqDecision phase.
Proof. solve_decision. Defined.
(** The phase, the point of the last move and the draggables with a position
    to go back to. *)
Record plan := Plan { a_phase : phase; a_last : option (Z * Z); a_measured : gset nat }.

Section machine.
(** Which draggables wait for their delay, and which go back. *)
Context (delayed reverting : nat → bool).

(** One event: the outcome of the handler, the next state and what is
    notified; [taken] says whether a press is accepted. *)
Definition plan_step (taken : bool) (ev : drag_event) (a : plan) : res () * plan * list (nat * note) :=
  let quiet a := (Ret (), a, []) in
  match ev, a_phase a with
  | MouseDown d _, Idle =>
      quiet (if taken then Plan (if delayed d then Waiting d else Pressed d) (a_last a) (a_measured a) else a)
  | MouseMove p, Pressed d =>
      if decide (a_last a = Some p) then quiet a
      else (Ret (), Plan (Moving d) (Some p) ({[d]} ∪ a_measured a), [(d, OnStart); (d, OnDrag)])
  | MouseMove p, Moving d =>
      if decide (a_last a = Some p) then quiet a
      else (Ret (), Plan (Moving d) (Some p) (a_measured a), [(d, OnDrag)])
  | MouseUp _, Waiting d => quiet (Plan Idle (a_last a) (a_measured a))
  | MouseUp _, Pressed d => quiet (Plan Idle None (a_measured a))
  | MouseUp _, Moving d => (Ret (), Plan Idle None (a_measured a), [(d, OnEnd)])
  | Key true _, Pressed d =>
      if reverting d && negb (bool_decide (d ∈ a_measured a)) then (Throw ETypeError, a, [(d, OnEnd)])
      else (Ret (), Plan Idle (a_last a) ({[d]} ∪ a_measured a), [(d, OnEnd)])
  | Key true _, Moving d => (Ret (), Plan Idle (a_last a) (a_measured a), [(d, OnEnd)])
  | DelayOver, Waiting d => quiet (Plan (Pressed d) (a_last a) (a_measured a))
  | _, _ => quiet a
  end.
(** A run: events with what is taken of them. *)
Fixpoint plan_run (evs : list (drag_event * bool)) (a : plan) : plan * list (nat * note) :=
  match evs with
  | [] => (a, [])
  | (ev, taken) :: evs =>
      let '(_, a1, out) := plan_step taken ev a in let '(a2, out') := plan_run evs a1 in (a2, out ++ out')
  end.
End machine.

(** Notifications in order: a start only between drags, [OnDrag] only of the
    draggable that has started, [OnEnd] of that one; or, of a press that the
    escape key undoes, [OnEnd] alone. [o] is the draggable started before. *)
Fixpoint in_order (o : option nat) (ns : list (nat * note)) : option (option nat) :=
  match ns with
  | [] => Some o
  | (d, OnStart) :: ns => if decide (o = None) then in_order (Some d) ns else None
  | (d, OnDrag) :: ns => if decide (o = Some d) then in_order o ns else None
  | (d, OnEnd) :: ns => if decide (o = Some d ∨ o = None) then in_order None ns else None
  end.
Definition started (a : plan) : option nat := match a_phase a with Moving d => Some d | _ => None end.

Lemma in_order_app o ns ns' : in_order o (ns ++ ns') = in_order o ns ≫= λ o', in_order o' ns'.
Proof.
  revert o. induction ns as [|[d n] ns IH]; intros o; [done|].
  cbn [in_order app]. destruct n; case_decide; cbn [mbind option_bind]; auto.
Qed.
Lemma plan_step_in_order delayed reverting taken ev a :
  let '(_, a', out) := plan_step delayed reverting taken ev a in in_order (started a) out = Some (started a').
Proof.
  destruct a as [ph last ms]. unfold plan_step, started.
  destruct ev as [d p|p|p|[] p| |e], ph as [|d'|d'|d']; cbn; try done;
    repeat (case_decide || case_match); simplify_eq/=; try done; repeat case_decide; naive_solver.
Qed.
Lemma plan_run_in_order delayed reverting evs a :
  let '(a', out) := plan_run delayed reverting evs a in in_order (started a) out = Some (started a').
Proof.
  revert a. induction evs as [|[ev taken] evs IH]; intros a; [done|]. cbn [plan_run].
  pose proof (plan_step_in_order delayed reverting taken ev a) as Hs.
  destruct (plan_step _ _ _ _ _) as [[r a1] out1]. specialize (IH a1).
  destruct (plan_run _ _ evs a1) as [a2 out2]. by rewrite in_order_app, Hs.
Qed.

(** ** The handlers follow the machine *)

Create HintDb drag.

Section simulation.
Context {X : Type} (computed : dom → nid → jsstr → option jsstr) (layout : dom → nid → geometry).
#[local] Abbreviation W := (dnd (drag_state X)).
#[local] Abbreviation M := (JS W).
Context `{DragEffects W, DragExtras W}.
Context (on_hover : nat → nid → nid → num → M ()) (on_drop : nat → nid → nid → M ()).
Context (call_page : page_call → M ()) (revert_by : nat → nid → M revert_value)
  (snap_by : nat → num → num → nat → M (num * num)) (element_key : nid → jsstr).

(** Functions of the page and effects that return and leave the state of
    dragging, the droppables and the class names alone. *)
Definition polite {A} (m : M A) (good : A → Prop) : Prop :=
  ∀ w, ∃ a w', m w = (Ret a, w') ∧ good a ∧ core_of w' = core_of w ∧ keeps_marks w w'.
Record polite_page (reverts : nat → nid → revert_value) : Prop := {
  polite_hover f e1 e2 n : polite (on_hover f e1 e2 n) (λ _, True);
  polite_drop f e1 e2 : polite (on_drop f e1 e2) (λ _, True);
  polite_call c : polite (call_page c) (λ _, True);
  polite_revert f e : polite (revert_by f e) (λ r, r = reverts f e);
  polite_snap f x y d : polite (snap_by f x y d) (λ _, True);
  polite_opacity e x y z : polite (new_opacity_effect e x y z) (λ _, True);
  polite_move e x y z : polite (new_move_effect e x y z) (λ _, True);
  polite_prepare : polite position_prepare (λ _, True);
  polite_ghost_start d : polite (ghost_start d) (λ _, True);
  polite_scroll_origin d : polite (scroll_origin d) (λ _, True);
  polite_ghost_shift d p : polite (ghost_shift d p) (λ _, True);
  polite_scroll_shift d p : polite (scroll_shift d p) (λ _, True);
  polite_autoscroll d p : polite (autoscroll d p) (λ _, True);
  polite_ghost_end d : polite (ghost_end d) (λ _, True);
  polite_release d : polite (release_scroll d) (λ _, True);
}.
Context (reverts : nat → nid → revert_value) (Hpage : polite_page reverts).
Context (ds : list drop) (Hds : droppables_ok ds).

(** *** One draggable *)
Section one.
Context (d : nat) (e : nid) (o : drag_options).

Definition shape (g : draggable) : bool * bool := (dragging g, bool_decide (is_Some (delta g))).
Record at_shape (s : bool * bool) (w : W) : Prop := {
  at_object : ∃ g, objects (core_of w) !! d = Some g ∧ g_element g = e ∧ g_options g = o ∧ shape g = s;
  at_element : is_Some (page w !! e);
  at_marked : marked ds w;
}.
(** What the operations on one draggable leave as it was. *)
Record frame (ns : list (nat * note)) (w w' : W) : Prop := {
  frame_objects : delete d (objects (core_of w')) = delete d (objects (core_of w));
  frame_drags : drags (core_of w') = drags (core_of w);
  frame_observing : observing (core_of w') = observing (core_of w);
  frame_active : activeDraggable (core_of w') = activeDraggable (core_of w);
  frame_last : lastPointer (core_of w') = lastPointer (core_of w);
  frame_timeout : timeout (core_of w') = timeout (core_of w);
  frame_notes : notes (core_of w') = notes (core_of w) ++ ns;
  frame_page i : is_Some (page w !! i) → is_Some (page w' !! i);
}.
Lemma frame_refl w : frame [] w w.
Proof. split; try done. by rewrite app_nil_r. Qed.
Lemma frame_trans ns1 ns2 w1 w2 w3 : frame ns1 w1 w2 → frame ns2 w2 w3 → frame (ns1 ++ ns2) w1 w3.
Proof. intros [] []. split; try congruence; [|auto]. rewrite app_assoc. congruence. Qed.

(** A computation that returns, takes the draggable from one shape to another
    and notifies [ns]. *)
Definition triple {A} (s : bool * bool) (m : M A) (ns : list (nat * note)) (s' : bool * bool) (good : A → Prop) : Prop :=
  ∀ w, at_shape s w → ∃ a w', m w = (Ret a, w') ∧ good a ∧ at_shape s' w' ∧ frame ns w w'.
Definition anything {A} (_ : A) : Prop := True.

Lemma triple_ret {A} (a : A) s : triple s (mret a) [] s anything.
Proof. intros w Hw. exists a, w. split_and!; [done..|apply frame_refl]. Qed.
Lemma triple_ret_eq {A} (a : A) s : triple s (mret a) [] s (λ x, x = a).
Proof. intros w Hw. exists a, w. split_and!; [done..|apply frame_refl]. Qed.
Lemma triple_bind {A B} (m : M A) (k : A → M B) s1 s2 s3 ns1 ns2 (good : A → Prop) (good' : B → Prop) :
  triple s1 m ns1 s2 good → (∀ a, good a → triple s2 (k a) ns2 s3 good') → triple s1 (m ≫= k) (ns1 ++ ns2) s3 good'.
Proof.
  intros Hm Hk w Hw. destruct (Hm w Hw) as (a & w1 & Hr & Ha & Hw1 & Hf1). rewrite (js_bind_Ret _ _ _ _ _ Hr).
  destruct (Hk a Ha w1 Hw1) as (b & w2 & Hr2 & Hb & Hw2 & Hf2). exists b, w2. split_and!; [done..|by eapply frame_trans].
Qed.
(** A part that notifies nothing, first or last. *)
Lemma triple_quiet {A B} (m : M A) (k : A → M B) s1 s2 s3 ns (good : A → Prop) (good' : B → Prop) :
  triple s1 m [] s2 good → (∀ a, good a → triple s2 (k a) ns s3 good') → triple s1 (m ≫= k) ns s3 good'.
Proof. apply (triple_bind m k s1 s2 s3 [] ns). Qed.
Lemma triple_get {A} (k : W → M A) s ns s' (good : A → Prop) :
  (∀ w, at_shape s w → triple s (k w) ns s' good) → triple s (js_get ≫= k) ns s' good.
Proof. intros Hk w Hw. apply (Hk w Hw w Hw). Qed.
Lemma triple_drag {A} (k : draggable → M A) s ns s' (good : A → Prop) :
  (∀ g, g_element g = e → g_options g = o → shape g = s → triple s (k g) ns s' good) →
  triple s (get_drag d ≫= k) ns s' good.
Proof.
  intros Hk w Hw. pose proof Hw as [(g & Hg & He & Ho & Hs) _ _].
  assert (get_drag d w = (Ret g, w)) as Hr by (unfold get_drag; by rewrite Hg).
  rewrite (js_bind_Ret _ _ _ _ _ Hr). by apply Hk.
Qed.
Lemma triple_when b (m : M ()) s ns s' :
  (b = true → triple s m ns s' anything) → (b = false → ns = [] ∧ s' = s) → triple s (js_when b m) ns s' anything.
Proof. destruct b; intros Ht Hf; [by apply Ht|]. destruct (Hf eq_refl) as [-> ->]. apply triple_ret. Qed.
Lemma triple_option {A} (x : option A) (m : A → M ()) s : (∀ a, triple s (m a) [] s anything) → triple s (call_option x m) [] s anything.
Proof. intros Hm. destruct x; [apply Hm|apply triple_ret]. Qed.
Lemma triple_each {A} (l : list A) (m : A → M ()) s : (∀ a, triple s (m a) [] s anything) → triple s (js_each l m) [] s anything.
Proof.
  intros Hm. induction l as [|x l IH]; [apply triple_ret|]. cbn [js_each].
  eapply triple_quiet; [apply Hm|]. intros _ _. exact IH.
Qed.

Lemma triple_polite {A} (m : M A) good s : polite m good → triple s m [] s good.
Proof.
  intros Hm w [Ho He Hk]. destruct (Hm w) as (a & w' & Hr & Ha & Hc & Hkm). exists a, w'. split_and!; [done..| |].
  - split; [by rewrite Hc| |by eapply keeps_marked].
    destruct Hkm as (_ & _ & Ht). specialize (Ht e). unfold tokens_of in Ht.
    destruct (page w !! e); [|by destruct He]. by destruct (page w' !! e).
  - split; rewrite ?Hc; try done; [by rewrite app_nil_r|]. intros i.
    destruct Hkm as (_ & _ & Ht). specialize (Ht i). unfold tokens_of in Ht. intros Hi.
    destruct (page w !! i); [|by destruct Hi]. by destruct (page w' !! i).
Qed.

(** Computations on the page that keep the class names. *)
Definition harmless {A} (m : D A) : Prop := ∀ dm, is_Some (dm !! e) →
  ∃ a dm', m dm = (Ret a, dm') ∧ ∀ i : nid, className <$> dm' !! i = className <$> dm !! i.
Lemma triple_page {A} (m : D A) s : harmless m → triple s (on_page m) [] s anything.
Proof.
  intros Hm w [Ho He Hk]. destruct (Hm (page w) He) as (a & dm & Hr & Hc).
  eexists a, _. split; [unfold on_page; by rewrite Hr|]. split; [done|].
  assert (∀ i, is_Some (page w !! i) → is_Some (dm !! i)) as Hex.
  { intros i Hi. specialize (Hc i). destruct (page w !! i); [|by destruct Hi]. by destruct (dm !! i). }
  split; [split; [done|by apply Hex|]|].
  - eapply keeps_marked; [|exact Hk]. split_and!; [done..|]. intros i. unfold tokens_of. cbn.
    specialize (Hc i). destruct (page w !! i), (dm !! i); simplify_eq/=; congruence.
  - split; try done. by rewrite app_nil_r.
Qed.
Lemma harmless_bind {A B} (m : D A) (k : A → D B) : harmless m → (∀ a, harmless (k a)) → harmless (m ≫= k).
Proof.
  intros Hm Hk dm He. destruct (Hm dm He) as (a & d1 & Hr & Hc). rewrite (js_bind_Ret _ _ _ _ _ Hr).
  destruct (Hk a d1) as (b & d2 & Hr2 & Hc2).
  - specialize (Hc e). destruct (dm !! e); [|by destruct He]. by destruct (d1 !! e).
  - exists b, d2. split; [done|]. intros i. by rewrite Hc2.
Qed.
Lemma harmless_ret {A} (a : A) : harmless (mret a).
Proof. intros dm _. by exists a, dm. Qed.
Lemma harmless_gets {A} (f : dom → A) : harmless (js_gets f).
Proof. intros dm _. by exists (f dm), dm. Qed.
Lemma harmless_get_node : harmless (get_node e).
Proof. intros dm [n Hn]. exists n, dm. unfold get_node. by rewrite Hn. Qed.
Lemma harmless_put_style k v : harmless (put_style e k v).
Proof.
  intros dm [n Hn]. eexists tt, _. split; [by apply put_style_run|]. intros i. destruct (decide (i = e)) as [->|].
  - rewrite lookup_insert_eq, Hn. reflexivity.
  - by rewrite lookup_insert_ne.
Qed.
Lemma harmless_getStyle k : harmless (getStyle computed e k).
Proof.
  apply harmless_bind; [apply harmless_get_node|]. intros n. apply (harmless_bind js_get); [apply (harmless_gets (λ x, x))|].
  intros dm. apply harmless_ret.
Qed.
Lemma harmless_getOpacity : harmless (getOpacity computed e).
Proof.
  apply harmless_bind; [apply harmless_get_node|]. intros n. apply (harmless_bind js_get); [apply (harmless_gets (λ x, x))|].
  intros dm. apply harmless_ret.
Qed.

Lemma triple_core s f ns :
  (∀ c, objects (f c) = objects c ∧ drags (f c) = drags c ∧ observing (f c) = observing c ∧
    activeDraggable (f c) = activeDraggable c ∧ lastPointer (f c) = lastPointer c ∧ timeout (f c) = timeout c ∧
    notes (f c) = notes c ++ ns) → triple s (change_core f) ns s anything.
Proof.
  intros Hf w [Ho He Hk]. eexists tt, _. split; [reflexivity|]. split; [done|].
  destruct (Hf (core_of w)) as (H1 & H2 & H3 & H4 & H5 & H6 & H7). split.
  - split; [cbn; by rewrite H1|done|exact Hk].
  - split; cbn; rewrite ?H1; done.
Qed.
Lemma triple_change s s' f :
  (∀ g, shape g = s → g_element (f g) = g_element g ∧ g_options (f g) = g_options g ∧ shape (f g) = s') →
  triple s (change_drag d f) [] s' anything.
Proof.
  intros Hf w [(g & Hg & He & Ho & Hs) Hel Hk]. eexists tt, _. split; [reflexivity|]. split; [done|].
  destruct (Hf g Hs) as (H1 & H2 & H3). split.
  - split; [|done|exact Hk]. exists (f g). cbn. rewrite lookup_alter_eq, Hg. cbn. split_and!; congruence.
  - split; try done; cbn; [by rewrite delete_alter_eq|by rewrite app_nil_r].
Qed.
Lemma triple_notify n s : triple s (notify call_page n d) [(d, n)] s anything.
Proof.
  unfold notify. rewrite <- (app_nil_r [(d, n)]). eapply triple_bind; [by apply triple_core|]. intros _ _.
  apply triple_get. intros w Hw. eapply triple_quiet.
  - apply triple_when; [|done]. intros _. apply triple_each. intros ob. apply triple_option. intros f.
    apply triple_polite, Hpage.
  - intros _ _. apply triple_drag. intros g _ _ _. apply triple_option. intros f. apply triple_polite, Hpage.
Qed.

(** The droppables: what they change is seen by [marked] alone. *)
Lemma triple_drops {A} (m : M A) s :
  (∀ w, marked ds w → ∃ a w', m w = (Ret a, w') ∧ marked ds w') →
  (∀ P : W → Prop, (∀ f e1 e2 n, upholds P (on_hover f e1 e2 n)) → (∀ f e1 e2, upholds P (on_drop f e1 e2)) →
    (∀ i c, upholds P (on_page (addClassName i c))) → (∀ i c, upholds P (on_page (removeClassName i c))) →
    (∀ x, upholds P (js_modify (set_last_active x))) → upholds P m) →
  triple s m [] s anything.
Proof.
  intros Hm Hup w [Ho He Hk]. destruct (Hm w Hk) as (a & w' & Hr & Hk').
  assert (core_of w' = core_of w ∧ ∀ i, is_Some (page w !! i) → is_Some (page w' !! i)) as [Hc Hex].
  { assert (∀ {B} (n : M B) good, polite n good → upholds (λ w' : W, core_of w' = core_of w ∧
        ∀ i, is_Some (page w !! i) → is_Some (page w' !! i)) n) as Hpol.
    { intros B n good Hn w1 [H1 H2]. destruct (Hn w1) as (b & w2 & Hr2 & _ & Hc2 & _ & _ & Ht). rewrite Hr2. cbn.
      split; [congruence|]. intros i Hi%H2. specialize (Ht i). unfold tokens_of in Ht.
      destruct (page w1 !! i); [|by destruct Hi]. by destruct (page w2 !! i). }
    assert (∀ f i, upholds (λ w' : W, core_of w' = core_of w ∧ ∀ i, is_Some (page w !! i) → is_Some (page w' !! i))
      (on_page (update_node i f))) as Hnode.
    { intros f i w1 [H1 H2]. unfold on_page, update_node. destruct (page w1 !! i) eqn:Hi; [|done]. cbn. split; [done|].
      intros j Hj. destruct (decide (j = i)) as [->|]; [rewrite lookup_insert_eq; eauto|].
      rewrite lookup_insert_ne by done. by apply H2. }
    assert (∀ f (g : node → jsstr) i, upholds (λ w' : W, core_of w' = core_of w ∧ ∀ i, is_Some (page w !! i) → is_Some (page w' !! i))
      (on_page (n ← get_node i; update_node i (f (g n))))) as Hchange.
    { intros f g i w1 H1. specialize (Hnode (λ n, f (g n) n) i w1 H1). revert Hnode.
      unfold on_page, mbind, js_mbind, get_node, update_node. destruct (page w1 !! i) eqn:Hi; [by rewrite Hi|done]. }
    replace w' with (m w).2 by by rewrite Hr.
    apply Hup; [..|split; [done|auto]].
    - intros. eapply Hpol, Hpage.
    - intros. eapply Hpol, Hpage.
    - intros i c. apply (Hchange (λ k n, set_attrs (<[js "class" := k]> (attrs n)) n) (λ n, add_class (className n) c)).
    - intros i c. apply (Hchange (λ k n, set_attrs (<[js "class" := k]> (attrs n)) n) (λ n, remove_class (className n) c)).
    - by intros x w1. }
  exists a, w'. split_and!; [done..| |].
  - split; [by rewrite Hc|by apply Hex|done].
  - split; rewrite ?Hc; try done. by rewrite app_nil_r.
Qed.

(** *** The operations of a draggable *)
#[local] Hint Resolve harmless_getStyle harmless_getOpacity harmless_put_style harmless_get_node harmless_gets : drag.
#[local] Hint Resolve triple_page triple_ret triple_option : drag.
Lemma triple_page_call c s : triple s (call_page c) [] s anything.
Proof. apply triple_polite, Hpage. Qed.
Lemma triple_px_value k s : triple s (px_value computed e k) [] s anything.
Proof. eapply triple_quiet; [auto with drag|]. intros v _. auto with drag. Qed.
Lemma triple_currentDelta s : triple s (currentDelta computed e) [] s anything.
Proof.
  eapply triple_quiet; [apply triple_px_value|]. intros l _. eapply triple_quiet; [apply triple_px_value|]. auto with drag.
Qed.
Lemma triple_set_opacity_of i x s : triple s (set_opacity_of i x) [] s anything.
Proof. apply triple_polite. intros w. eexists tt, _. split; [reflexivity|]. by split_and!. Qed.
Lemma triple_set_busy i b s : triple s (set_busy element_key i b) [] s anything.
Proof. apply triple_polite. intros w. eexists tt, _. split; [reflexivity|]. by split_and!. Qed.
Lemma triple_opacity_effect i x y z s : triple s (new_opacity_effect i x y z) [] s anything.
Proof. apply triple_polite, Hpage. Qed.
Lemma triple_move_effect i x y z s : triple s (new_move_effect i x y z) [] s anything.
Proof. apply triple_polite, Hpage. Qed.
(** The hooks of [DragExtras]. *)
Lemma triple_hook {A} (m : M A) s : polite m (λ _, True) → triple s m [] s anything.
Proof. apply triple_polite. Qed.
Ltac hook := apply triple_hook, Hpage.
#[local] Hint Resolve triple_page_call triple_px_value triple_currentDelta triple_set_opacity_of triple_set_busy
  triple_opacity_effect triple_move_effect triple_notify : drag.
Lemma triple_run_effect x m f s : triple s m [] s anything → (∀ i, triple s (f i) [] s anything) → triple s (run_effect x m f) [] s anything.
Proof. intros Hm Hf. apply triple_option. intros [|i]; auto. Qed.
Lemma triple_starteffect s : triple s (default_starteffect computed element_key e) [] s anything.
Proof.
  eapply triple_quiet; [auto with drag|]. intros x _. eapply triple_quiet; [auto with drag|]. intros _ _.
  eapply triple_quiet; auto with drag.
Qed.
Lemma triple_endeffect s : triple s (default_endeffect e) [] s anything.
Proof. apply triple_get. intros w _. auto with drag. Qed.
#[local] Hint Resolve triple_run_effect triple_starteffect triple_endeffect : drag.

Lemma triple_startDrag m :
  triple (false, m) (startDrag computed call_page element_key d) [(d, OnStart)] (true, true) anything.
Proof.
  eapply triple_quiet. { apply triple_change. intros g [= Hd Hm]. split_and!; try done. unfold shape. cbn. by rewrite Hm. }
  intros _ _. apply triple_drag. intros g He Ho Hs. rewrite He, Ho.
  eapply triple_quiet with (s2 := (true, true)).
  { apply triple_when.
    - intros _. eapply triple_quiet; [auto with drag|]. intros v _. apply triple_change. intros g' [= Hd _].
      split_and!; try done. unfold shape. cbn. by rewrite Hd.
    - intros Hb. split; [done|]. injection Hs as Hd <-. apply bool_decide_eq_false in Hb. f_equal. symmetry.
      apply bool_decide_eq_true_2. by destruct (delta g). }
  intros _ _. eapply triple_quiet.
  { apply triple_when; [|done]. intros _. eapply triple_quiet; [auto with drag|]. intros z _.
    eapply triple_quiet; [by apply triple_change|]. intros _ _. auto with drag. }
  intros _ _. do 2 (eapply triple_quiet; [hook|intros _ _]). rewrite <- (app_nil_r [(d, OnStart)]). eapply triple_bind; [auto with drag|]. intros _ _. auto with drag.
Qed.

Lemma triple_draw point s : triple s (draw computed layout snap_by d point) [] s anything.
Proof.
  apply triple_drag. intros g He Ho Hs. rewrite He, Ho. eapply triple_quiet; [unfold cumulativeOffset; auto with drag|].
  intros pos _. eapply triple_quiet; [hook|]. intros pos' _. eapply triple_quiet; [auto with drag|]. intros cur _.
  eapply triple_quiet; [hook|]. intros at_ _. eapply triple_quiet with (good := anything).
  { unfold snap_point. case_match; auto with drag. apply triple_polite, Hpage. }
  intros p _. eapply triple_quiet; [apply triple_when; auto with drag|]. intros _ _.
  eapply triple_quiet; [apply triple_when; auto with drag|]. intros _ _.
  eapply triple_quiet; [auto with drag|]. intros n _. apply triple_when; auto with drag.
Qed.

Lemma discreet_hover f e1 e2 n : discreet (on_hover f e1 e2 n).
Proof. intros w. destruct (polite_hover _ Hpage f e1 e2 n w) as ([] & w' & ? & _ & _ & ?). eauto. Qed.
Lemma discreet_drop f e1 e2 : discreet (on_drop f e1 e2).
Proof. intros w. destruct (polite_drop _ Hpage f e1 e2 w) as ([] & w' & ? & _ & _ & ?). eauto. Qed.
Lemma triple_show point s : triple s (drop_show layout on_hover point e) [] s anything.
Proof.
  apply triple_drops; [|intros; by apply show_upholds]. intros w Hw.
  destruct (show_run layout on_hover discreet_hover ds point e w Hds Hw) as (w' & ? & ? & _). eauto.
Qed.
Lemma triple_fire point s : triple s (drop_fire layout on_drop point e) [] s anything.
Proof.
  apply triple_drops; [|intros; by apply fire_upholds]. intros w Hw.
  destruct (fire_run layout on_drop discreet_drop ds point e w Hw) as (b & w' & ? & ? & _). eauto.
Qed.
Lemma triple_reset s : triple s drop_reset [] s anything.
Proof.
  apply triple_drops; [|intros; by apply reset_upholds]. intros w Hw.
  destruct (reset_run ds w Hds Hw) as (w' & ? & ? & _). eauto.
Qed.
Lemma triple_prepared (m : M ()) s : triple s m [] s anything → triple s (position_prepare ;; m) [] s anything.
Proof. intros Hm. eapply triple_quiet; [hook|]. by intros _ _. Qed.
#[local] Hint Resolve triple_draw triple_show triple_fire triple_reset : drag.

Lemma triple_drag_to point b m : (b = true → m = true) →
  triple (b, m) (drag_to computed layout on_hover call_page snap_by element_key d point)
    (if b then [(d, OnDrag)] else [(d, OnStart); (d, OnDrag)]) (true, true) anything.
Proof.
  intros Hm. apply triple_drag. intros g He Ho Hs. rewrite He, Ho. injection Hs as Hb _. rewrite Hb.
  assert (∀ ns, (if b then [(d, OnDrag)] else [(d, OnStart); (d, OnDrag)]) = (if b then [] else [(d, OnStart)]) ++ ns ↔
    ns = [(d, OnDrag)]) as Hns by (intros ns; destruct b; cbn; naive_solver).
  rewrite (proj2 (Hns _) eq_refl). clear Hns.
  apply triple_bind with (s2 := (true, true)) (good := anything).
  { destruct b; [rewrite Hm by done; apply triple_ret|exact (triple_startDrag m)]. }
  intros _ _. eapply triple_quiet; [apply triple_when; [intros _; apply triple_prepared; auto with drag|done]|]. intros _ _.
  rewrite <- (app_nil_r [(d, OnDrag)]). eapply triple_bind; [auto with drag|]. intros _ _.
  eapply triple_quiet; [auto with drag|]. intros _ _. eapply triple_quiet; [auto with drag|]. intros _ _. hook.
Qed.

(** Whether the draggable goes back to where its drag began. *)
Definition revert_result : revert_value := match revert o with Revert v => v | RevertBy f => reverts f e end.
Definition goes_back : bool :=
  match reverteffect o, revert_result with None, _ | _, RevertNo => false | _, _ => true end.
Lemma triple_revert_of g s : g_element g = e → g_options g = o → triple s (revert_of revert_by g) [] s (λ r, r = revert_result).
Proof.
  intros He Ho. unfold revert_of, revert_result. rewrite Ho, He. destruct (revert o).
  - apply triple_ret_eq.
  - apply triple_polite, Hpage.
Qed.
Lemma triple_settle m dropped : (goes_back = true → m = true) →
  triple (false, m) (settle computed call_page revert_by d dropped) [] (false, true) anything.
Proof.
  intros Hm. apply triple_drag. intros g He Ho Hs. rewrite He, Ho. injection Hs as Hd Hm'.
  eapply triple_quiet; [by apply triple_revert_of|]. intros r ->. eapply triple_quiet; [auto with drag|]. intros cur _.
  assert (∀ v, triple (false, m) (change_drag d (set_delta v)) [] (false, true) anything) as Hset.
  { intros v. apply triple_change. intros g' [= Hd' _]. split_and!; try done. unfold shape. cbn. by rewrite Hd'. }
  unfold goes_back in Hm. destruct revert_result; [apply Hset| |]; (destruct (reverteffect o) as [f|]; [|apply Hset]);
    rewrite (Hm eq_refl) in *; apply bool_decide_eq_true in Hm' as [old ->]; cbv zeta; apply triple_when; auto with drag;
    intros _; apply triple_run_effect; unfold default_reverteffect; auto with drag.
Qed.
Lemma triple_finish_work point success b m : (goes_back = true → m = true) →
  triple (b, m) (finish_work computed layout on_hover on_drop call_page revert_by d point success) [(d, OnEnd)] (false, true) anything.
Proof.
  intros Hm. eapply triple_quiet with (s2 := (false, m)).
  { apply triple_change. intros g [= _ Hd]. split_and!; try done. unfold shape. cbn. by rewrite Hd. }
  intros _ _. apply triple_drag. intros g He Ho Hs. rewrite He, Ho.
  eapply triple_quiet; [apply triple_when; [intros _; apply triple_prepared; auto with drag|done]|]. intros _ _.
  eapply triple_quiet; [hook|]. intros _ _.
  eapply triple_quiet; [destruct success; auto with drag|]. intros dropped _.
  eapply triple_quiet; [apply triple_when; auto with drag|]. intros _ _.
  rewrite <- (app_nil_r [(d, OnEnd)]). eapply triple_bind; [auto with drag|]. intros _ _.
  eapply triple_quiet; [by apply triple_settle|]. intros _ _.
  eapply triple_quiet; [apply triple_when; [intros _; destruct (originalZ g)|]; auto with drag|]. intros _ _. auto with drag.
Qed.

(** A computation that throws a TypeError, having notified [ns]. *)
Definition fails {A} (s : bool * bool) (m : M A) (ns : list (nat * note)) (s' : bool * bool) : Prop :=
  ∀ w, at_shape s w → ∃ w', m w = (Throw ETypeError, w') ∧ at_shape s' w' ∧ frame ns w w'.
Lemma fails_first {A B} (m : M A) (k : A → M B) s ns s' : fails s m ns s' → fails s (m ≫= k) ns s'.
Proof. intros Hm w Hw. destruct (Hm w Hw) as (w' & Hr & ?). exists w'. by rewrite (js_bind_Throw _ _ _ _ _ Hr). Qed.
Lemma fails_then {A B} (m : M A) (k : A → M B) s1 s2 s3 ns1 ns2 (good : A → Prop) :
  triple s1 m ns1 s2 good → (∀ a, good a → fails s2 (k a) ns2 s3) → fails s1 (m ≫= k) (ns1 ++ ns2) s3.
Proof.
  intros Hm Hk w Hw. destruct (Hm w Hw) as (a & w1 & Hr & Ha & Hw1 & Hf1). rewrite (js_bind_Ret _ _ _ _ _ Hr).
  destruct (Hk a Ha w1 Hw1) as (w2 & Hr2 & Hw2 & Hf2). exists w2. split_and!; [done..|by eapply frame_trans].
Qed.
Lemma fails_quiet {A B} (m : M A) (k : A → M B) s1 s2 s3 ns (good : A → Prop) :
  triple s1 m [] s2 good → (∀ a, good a → fails s2 (k a) ns s3) → fails s1 (m ≫= k) ns s3.
Proof. apply (fails_then m k s1 s2 s3 [] ns). Qed.
Lemma fails_drag {A} (k : draggable → M A) s ns s' :
  (∀ g, g_element g = e → g_options g = o → shape g = s → fails s (k g) ns s') → fails s (get_drag d ≫= k) ns s'.
Proof.
  intros Hk w Hw. pose proof Hw as [(g & Hg & He & Ho & Hs) _ _].
  assert (get_drag d w = (Ret g, w)) as Hr by (unfold get_drag; by rewrite Hg).
  rewrite (js_bind_Ret _ _ _ _ _ Hr). by apply Hk.
Qed.
(** Going back from a press that moved nothing, of a draggable that was never
    dragged. *)
Lemma fails_settle : goes_back = true → fails (false, false) (settle computed call_page revert_by d false) [] (false, false).
Proof.
  intros Hg. apply fails_drag. intros g He Ho Hs. rewrite He, Ho. injection Hs as Hd Hdl%bool_decide_eq_false.
  eapply fails_quiet; [by apply triple_revert_of|]. intros r ->. eapply fails_quiet; [auto with drag|]. intros cur _.
  unfold goes_back in Hg. destruct (reverteffect o) as [f|]; [|done]. destruct (delta g) as [v|]; [by destruct Hdl|].
  destruct revert_result; [done| |]; (intros w Hw; exists w; split_and!; [done..|apply frame_refl]).
Qed.
Lemma fails_finishDrag point : goes_back = true →
  fails (false, false) (finishDrag computed layout on_hover on_drop call_page revert_by d point false) [(d, OnEnd)] (false, false).
Proof.
  intros Hg. apply fails_first. eapply fails_quiet with (s2 := (false, false)).
  { apply triple_change. intros g [= _ Hd]. split_and!; try done. unfold shape. cbn. by rewrite Hd. }
  intros _ _. apply fails_drag. intros g He Ho Hs. rewrite He, Ho.
  eapply fails_quiet; [apply triple_when; [intros _; apply triple_prepared; auto with drag|done]|]. intros _ _.
  eapply fails_quiet; [hook|]. intros _ _.
  eapply fails_quiet; [apply (triple_ret_eq false)|]. intros dropped ->.
  eapply fails_quiet; [apply triple_ret|]. intros _ _. rewrite <- (app_nil_r [(d, OnEnd)]).
  eapply fails_then; [auto with drag|]. intros _ _. by apply fails_first, fails_settle.
Qed.

(** The active draggable is forgotten after the work of [finishDrag]. *)
Definition forget_active (w : W) : W := (deactivate_drag w).2.
Lemma at_shape_forget s w : at_shape s w → at_shape s (forget_active w).
Proof. by intros [? ? ?]. Qed.
Lemma frame_forget ns w w' : frame ns w w' → frame ns (forget_active w) (forget_active w').
Proof. by intros []. Qed.
Lemma finish_run point success b m w : (goes_back = true → m = true) → at_shape (b, m) w →
  ∃ w', finishDrag computed layout on_hover on_drop call_page revert_by d point success w = (Ret (), w') ∧
    at_shape (false, true) w' ∧ frame [(d, OnEnd)] (forget_active w) w'.
Proof.
  intros Hm Hw. destruct (triple_finish_work point success b m Hm w Hw) as ([] & w1 & Hr1 & _ & Hw1 & Hf1).
  destruct (triple_reset (false, true) (forget_active w1) (at_shape_forget _ _ Hw1)) as ([] & w2 & Hr2 & _ & Hw2 & Hf2).
  exists w2. split_and!; [|done|].
  - unfold finishDrag. rewrite (js_bind_Ret _ _ _ _ _ Hr1). exact Hr2.
  - apply (frame_trans [(d, OnEnd)] [] _ (forget_active w1)); [by apply frame_forget|done].
Qed.
End one.

(** *** All of them *)
Section all.
(** The elements and options of the draggables, which do not change. *)
Context (table : gmap nat (nid * drag_options)).
Definition delayed (d : nat) : bool := match table !! d with Some (_, o) => negb (drag_delay o =? 0) | None => false end.
Definition reverting (d : nat) : bool := match table !! d with Some (e, o) => goes_back e o | None => false end.

(** The draggables agree with a plan ... *)
Record tracks (w : W) (a : plan) : Prop := {
  tracks_table : (λ g, (g_element g, g_options g)) <$> objects (core_of w) = table;
  tracks_shape d g : objects (core_of w) !! d = Some g →
    shape g = (bool_decide (a_phase a = Moving d), bool_decide (d ∈ a_measured a));
  tracks_page d e o : table !! d = Some (e, o) → is_Some (page w !! e);
  tracks_drags d : d ∈ drags (core_of w) → is_Some (table !! d);
  tracks_observing : observing (core_of w) = true;
  tracks_marked : marked ds w;
  tracks_measured d : a_phase a = Moving d → d ∈ a_measured a;
  tracks_phase : match a_phase a with Idle => True | Waiting d | Pressed d | Moving d => is_Some (table !! d) end;
}.
(** ... and so do the active one, the timer and the last point. *)
Record follows (w : W) (a : plan) : Prop := {
  follows_tracks : tracks w a;
  follows_active : activeDraggable (core_of w) = match a_phase a with Pressed d | Moving d => Some d | _ => None end;
  follows_timeout : timeout (core_of w) = match a_phase a with Waiting d => Some d | _ => None end;
  follows_last : lastPointer (core_of w) = a_last a;
}.

Lemma tracks_at w a d e o : tracks w a → table !! d = Some (e, o) →
  at_shape d e o (bool_decide (a_phase a = Moving d), bool_decide (d ∈ a_measured a)) w.
Proof.
  intros Ha Hd. pose proof (tracks_table _ _ Ha) as Ht. rewrite <- Ht, lookup_fmap in Hd.
  destruct (objects (core_of w) !! d) as [g|] eqn:Hg; [|done]. injection Hd as <- <-. split.
  - exists g. split_and!; [done..|]. by apply (tracks_shape _ _ Ha).
  - apply (tracks_page _ _ Ha d _ (g_options g)). by rewrite <- Ht, lookup_fmap, Hg.
  - apply (tracks_marked _ _ Ha).
Qed.
(** After an operation on one draggable, with what the plan says of it then. *)
Lemma tracks_frame w w' a a' d e o ns : tracks w a → table !! d = Some (e, o) → frame d ns w w' →
  at_shape d e o (bool_decide (a_phase a' = Moving d), bool_decide (d ∈ a_measured a')) w' →
  (∀ d', d' ≠ d → (a_phase a = Moving d' ↔ a_phase a' = Moving d') ∧ (d' ∈ a_measured a ↔ d' ∈ a_measured a')) →
  (∀ d', a_phase a' = Moving d' → d' ∈ a_measured a') →
  match a_phase a' with Idle => True | Waiting d | Pressed d | Moving d => is_Some (table !! d) end →
  tracks w' a'.
Proof.
  intros [Ht Hs Hp Hdr Ho _ _ _] Hd [Fo Fd Fob _ _ _ _ Fp] [(g & Hg & Hge & Hgo & Hgs) _ Hmk] Hoth Hms Hph.
  assert (∀ d', d' ≠ d → objects (core_of w') !! d' = objects (core_of w) !! d') as Hobj.
  { intros d' Hne. rewrite <- (lookup_delete_ne (objects (core_of w')) d d') by done. by rewrite Fo, lookup_delete_ne. }
  split; try done; try congruence.
  - apply map_eq. intros i. rewrite <- Ht, !lookup_fmap. destruct (decide (i = d)) as [->|Hne]; [|by rewrite Hobj].
    rewrite Hg, <- lookup_fmap, Ht, Hd. cbn. by rewrite Hge, Hgo.
  - intros i g' Hg'. destruct (decide (i = d)) as [->|Hne]; [congruence|]. rewrite Hobj in Hg' by done.
    rewrite (Hs i g' Hg'). destruct (Hoth i Hne). f_equal; by apply bool_decide_ext.
  - intros i e' o' Hi. apply Fp. by eapply Hp.
  - intros i Hi. apply Hdr. congruence.
Qed.
Lemma tracks_core w a f : tracks w a →
  (∀ c, objects (f c) = objects c ∧ drags (f c) = drags c ∧ observing (f c) = observing c) →
  tracks (change_core f w).2 a.
Proof.
  intros [Ht Hs Hp Hdr Ho Hm Hms Hph] Hf. destruct (Hf (core_of w)) as (H1 & H2 & H3).
  split; cbn; rewrite ?H1, ?H2, ?H3; done.
Qed.
Lemma tracks_phase_change w a a' : tracks w a → a_measured a' = a_measured a →
  (∀ d, a_phase a' = Moving d ↔ a_phase a = Moving d) →
  match a_phase a' with Idle => True | Waiting d | Pressed d | Moving d => is_Some (table !! d) end → tracks w a'.
Proof.
  intros [Ht Hs Hp Hdr Ho Hm Hms Hph] Hmeas Hmov Hph'. split; try done.
  - intros d g Hg. rewrite (Hs d g Hg), Hmeas. f_equal. by apply bool_decide_ext.
  - intros d Hd. rewrite Hmeas. by apply Hms, Hmov.
Qed.

(** A hook between the parts of a handler. *)
Lemma follows_polite {A} (m : M A) d e o w a : polite m (λ _, True) → table !! d = Some (e, o) → follows w a →
  ∃ r w', m w = (Ret r, w') ∧ follows w' a ∧ notes (core_of w') = notes (core_of w).
Proof.
  intros Hm Hd [Ht Hact Htime Hlast].
  destruct (triple_hook d e o m _ Hm w (tracks_at _ _ _ _ _ Ht Hd)) as (r & w' & Hr & _ & Hw' & Hf).
  exists r, w'. split; [done|]. pose proof Hf as [_ _ _ Fa Fl Ft Fn _]. rewrite app_nil_r in Fn. split; [|done].
  split; [|congruence..]. eapply (tracks_frame w w' a a); [done..|apply Ht|apply Ht].
Qed.

(** *** The steps *)
Lemma get_drag_run d e o s w : at_shape d e o s w →
  ∃ g, get_drag d w = (Ret g, w) ∧ g_element g = e ∧ g_options g = o ∧ shape g = s.
Proof. intros [(g & Hg & ?) _ _]. exists g. split; [|done]. unfold get_drag. by rewrite Hg. Qed.

(** Whether a press is accepted. *)
Definition taken (w : W) (ev : drag_event) : bool :=
  match ev with
  | MouseDown d p =>
      match table !! d with
      | Some (e, _) => bool_decide (d ∈ drags (core_of w)) && accepts element_key w e p
      | None => false
      end
  | _ => false
  end.
(** What a handler does when the plan says [x]. *)
Definition goes (m : M ()) (w : W) (x : res () * plan * list (nat * note)) : Prop :=
  ∃ w', m w = (x.1.1, w') ∧ follows w' x.1.2 ∧ notes (core_of w') = notes (core_of w) ++ x.2.
Lemma goes_quiet w a : follows w a → goes (mret ()) w (Ret (), a, []).
Proof. intros Ha. exists w. split_and!; [done..|by rewrite app_nil_r]. Qed.

Lemma initDrag_goes d p w a e o : follows w a → a_phase a = Idle → table !! d = Some (e, o) → accepts element_key w e p = true →
  goes (initDrag layout element_key d p) w (Ret (), Plan (if delayed d then Waiting d else Pressed d) (a_last a) (a_measured a), []).
Proof.
  intros [Ht Hact Htime Hlast] Hidle Hd Hacc. pose proof (tracks_at _ _ _ _ _ Ht Hd) as Hw.
  destruct (get_drag_run _ _ _ _ _ Hw) as (g & Hg & He & Ho & _).
  assert (triple d e o (bool_decide (a_phase a = Moving d), bool_decide (d ∈ a_measured a))
    (pos ← on_page (cumulativeOffset layout e); change_drag d (set_offset ((p_pointer p).1 - pos.1, (p_pointer p).2 - pos.2)))
    [] (bool_decide (a_phase a = Moving d), bool_decide (d ∈ a_measured a)) anything) as Htr.
  { eapply triple_quiet; [apply triple_page, harmless_gets|]. intros pos _. by apply triple_change. }
  destruct (Htr w Hw) as ([] & w1 & Hr1 & _ & Hw1 & Hf1).
  assert (tracks w1 a) as Ht1.
  { eapply (tracks_frame w w1 a a); [done..|apply Ht|apply Ht]. }
  destruct (get_drag_run _ _ _ _ _ Hw1) as (g1 & Hg1 & He1 & Ho1 & _).
  set (f := if drag_delay o =? 0 then set_active (Some d) else set_timeout (Some d)).
  set (a' := Plan (if delayed d then Waiting d else Pressed d) (a_last a) (a_measured a)).
  assert (delayed d = negb (drag_delay o =? 0)) as Hdel by (unfold delayed; by rewrite Hd).
  assert (tracks (change_core f w1).2 a') as Ht2.
  { refine (tracks_phase_change _ a a' (tracks_core w1 a f Ht1 _) eq_refl _ _); subst f a'; cbn; rewrite ?Hdel.
    - intros c. by destruct (_ =? 0).
    - intros d'. rewrite Hidle. by destruct (_ =? 0).
    - destruct (_ =? 0); cbn; eauto. }
  unfold goes, initDrag. rewrite (js_bind_Ret _ _ _ _ _ Hg), js_bind_get, He, Hacc. cbn [js_when].
  rewrite <- js_bind_assoc, (js_bind_Ret _ _ _ _ _ Hr1). unfold activate_drag. rewrite (js_bind_Ret _ _ _ _ _ Hg1), Ho1.
  eexists. split; [reflexivity|]. destruct Hf1 as [_ _ _ Fa Fl Ft Fn _]. split; [split; [exact Ht2|..]|];
    subst f a'; cbn; rewrite ?Hdel; destruct (drag_delay o =? 0); cbn;
    rewrite ?Fa, ?Ft, ?Fl, ?Fn, ?Hact, ?Htime, ?Hidle, ?app_nil_r; done.
Qed.

Lemma bind_core {A} f (k : M A) (w : W) : (change_core f ;; k) w = k (change_core f w).2.
Proof. reflexivity. Qed.
(** The active draggable of a plan. *)
Definition plan_active (a : plan) : option nat := match a_phase a with Pressed d | Moving d => Some d | _ => None end.
Lemma plan_active_table w a d : tracks w a → plan_active a = Some d → ∃ e o, table !! d = Some (e, o).
Proof.
  intros Ht Hd. pose proof (tracks_phase _ _ Ht) as Hp. unfold plan_active in Hd.
  destruct (a_phase a); try done; injection Hd as ->; destruct Hp as [[e o] ?]; eauto.
Qed.
Lemma plan_active_moving a d d' : plan_active a = Some d → d' ≠ d → a_phase a ≠ Moving d'.
Proof. unfold plan_active. intros Ha Hne Hm. rewrite Hm in Ha. congruence. Qed.
Lemma tracks_at_core f w a d e o : tracks w a → table !! d = Some (e, o) →
  (∀ c, objects (f c) = objects c ∧ drags (f c) = drags c ∧ observing (f c) = observing c) →
  at_shape d e o (bool_decide (a_phase a = Moving d), bool_decide (d ∈ a_measured a)) (change_core f w).2.
Proof. intros Ha Hd Hf. apply tracks_at; [by apply tracks_core|done]. Qed.

Lemma move_goes d point w a : follows w a → plan_active a = Some d → a_last a ≠ Some point →
  goes (updateDrag computed layout on_hover call_page snap_by element_key point) w
    (Ret (), Plan (Moving d) (Some point) ({[d]} ∪ a_measured a),
     if decide (a_phase a = Moving d) then [(d, OnDrag)] else [(d, OnStart); (d, OnDrag)]).
Proof.
  intros [Ht Hact Htime Hlast] Had Hne. destruct (plan_active_table _ _ _ Ht Had) as (e & o & Hd).
  pose proof (tracks_at_core (set_lastPointer (Some point)) w a d e o Ht Hd ltac:(done)) as Hw1.
  pose proof (tracks_core w a (set_lastPointer (Some point)) Ht ltac:(done)) as Ht1.
  destruct (triple_drag_to d e o point (bool_decide (a_phase a = Moving d)) (bool_decide (d ∈ a_measured a))) with
    (2 := Hw1) as ([] & w2 & Hr & _ & Hw2 & Hf).
  { intros Hm%bool_decide_eq_true. apply bool_decide_eq_true_2. by apply (tracks_measured _ _ Ht). }
  assert (tracks w2 (Plan (Moving d) (Some point) ({[d]} ∪ a_measured a))) as Ht2.
  { eapply (tracks_frame _ w2 a); [exact Ht1|done|exact Hf|..]; cbn.
    - rewrite !bool_decide_eq_true_2 by set_solver. exact Hw2.
    - intros d' Hne'. pose proof (plan_active_moving a d d' Had Hne'). split; [|set_solver]. split; [done|congruence].
    - set_solver.
    - eauto. }
  unfold goes, updateDrag. rewrite js_bind_get, Hact. fold (plan_active a). rewrite Had, Hlast. cbn [call_option].
  rewrite bool_decide_eq_true_2 by done. cbn [js_when]. rewrite bind_core. exists w2. split; [exact Hr|].
  destruct Hf as [_ _ _ Fa Fl Ft Fn _]. cbn in *. split.
  - split; [done|..]; rewrite ?Fa, ?Fl, ?Ft; cbn; [by rewrite Hact; fold (plan_active a)| |done].
    rewrite Htime. unfold plan_active in Had. by destruct (a_phase a).
  - rewrite Fn. cbn. f_equal. by case_decide; case_bool_decide.
Qed.

(** The end of a drag, by a release or the escape key. *)
Lemma finish_goes d point success w a : follows w a → plan_active a = Some d →
  (reverting d = true → d ∈ a_measured a) →
  ∃ w', finishDrag computed layout on_hover on_drop call_page revert_by d point success w = (Ret (), w') ∧
    follows w' (Plan Idle (a_last a) ({[d]} ∪ a_measured a)) ∧ notes (core_of w') = notes (core_of w) ++ [(d, OnEnd)].
Proof.
  intros [Ht Hact Htime Hlast] Had Hrev. destruct (plan_active_table _ _ _ Ht Had) as (e & o & Hd).
  pose proof (tracks_at _ _ _ _ _ Ht Hd) as Hw.
  destruct (finish_run d e o point success (bool_decide (a_phase a = Moving d)) (bool_decide (d ∈ a_measured a)) w) as
    (w' & Hr & Hw' & Hf); [|done|].
  { intros Hg. apply bool_decide_eq_true_2, Hrev. unfold reverting. by rewrite Hd. }
  exists w'. split; [done|]. pose proof (tracks_core w a (set_active None) Ht ltac:(done)) as Ht1. split.
  - pose proof Hf as [_ _ _ Fa Fl Ft Fn _]. cbn in *. split; cbn; rewrite ?Fa, ?Fl, ?Ft; [|done| |done].
    + eapply (tracks_frame _ w' a); [exact Ht1|done|exact Hf|..]; cbn; [|..|set_solver|done].
      * rewrite bool_decide_eq_false_2, bool_decide_eq_true_2 by set_solver. exact Hw'.
      * intros d' Hne. pose proof (plan_active_moving a d d' Had Hne). split; [|set_solver]. split; done.
    + rewrite Htime. unfold plan_active in Had. by destruct (a_phase a).
  - by destruct Hf as [_ _ _ _ _ _ -> _].
Qed.

Lemma release_moving d point w a : follows w a → a_phase a = Moving d →
  ∃ w', (change_core (set_lastPointer None) ;;
         end_active computed layout on_hover on_drop call_page revert_by d point ;;
         change_core (set_active None)) (change_core (set_timeout None) w).2 = (Ret (), w') ∧
    follows w' (Plan Idle None (a_measured a)) ∧ notes (core_of w') = notes (core_of w) ++ [(d, OnEnd)].
Proof.
  intros [Ht Hact Htime Hlast] Hph. pose proof (tracks_measured _ _ Ht d Hph) as Hms.
  pose proof (tracks_core _ _ (set_timeout None) Ht ltac:(done)) as Ht1.
  pose proof (tracks_core _ _ (set_lastPointer None) Ht1 ltac:(done)) as Ht2. rewrite bind_core.
  set (w2 := (change_core (set_lastPointer None) (change_core (set_timeout None) w).2).2) in *.
  assert (follows w2 (Plan (Moving d) None (a_measured a))) as Hf2.
  { split; cbn; [|by rewrite Hact, Hph|done..]. apply (tracks_phase_change _ a); [done..| |]; cbn.
    - intros d'. by rewrite Hph.
    - pose proof (tracks_phase _ _ Ht) as Hp. by rewrite Hph in Hp. }
  pose proof (tracks_phase _ _ Ht2) as Hp. rewrite Hph in Hp. destruct Hp as [[e o] Hd].
  destruct (get_drag_run _ _ _ _ _ (tracks_at _ _ _ _ _ Ht2 Hd)) as (g & Hg & _ & _ & [= Hdr _]).
  destruct (follows_polite (release_scroll d) d e o w2 _ (polite_release _ Hpage d) Hd Hf2) as (r & w2' & Hrel & Hf2' & Hn2).
  destruct (finish_goes d point true w2' _ Hf2' eq_refl (λ _, Hms)) as (w3 & Hr & [Ht3 Hact3 Htime3 Hlast3] & Hn).
  rewrite Hn2 in Hn.
  assert (end_active computed layout on_hover on_drop call_page revert_by d point w2 = (Ret (), w3)) as He.
  { unfold end_active. rewrite (js_bind_Ret _ _ _ _ _ Hg), Hdr, bool_decide_eq_true_2 by done. cbn [js_when].
    rewrite (js_bind_Ret _ _ _ _ _ Hrel). exact Hr. }
  eexists. split; [rewrite (js_bind_Ret _ _ _ _ _ He); reflexivity|]. cbn in *.
  assert ({[d]} ∪ a_measured a = a_measured a) as Hu by set_solver. rewrite Hu in *. split; [|exact Hn].
  split; [by apply (tracks_core w3 (Plan Idle None (a_measured a)) (set_active None))|done..].
Qed.

Lemma release_goes point w a : follows w a →
  goes (endDrag computed layout on_hover on_drop call_page revert_by point) w (plan_step delayed reverting false (MouseUp point) a).
Proof.
  intros [Ht Hact Htime Hlast]. unfold goes, endDrag. rewrite bind_core, js_bind_get. cbn. rewrite Hact.
  pose proof (tracks_core w a (set_timeout None) Ht ltac:(done)) as Ht1.
  destruct a as [[|d|d|d] last ms]; cbn [a_phase a_last a_measured call_option fst snd] in *.
  - eexists. split; [reflexivity|]. split; [split; [exact Ht1|done..]|by rewrite app_nil_r].
  - eexists. split; [reflexivity|]. split; [|by rewrite app_nil_r]. split; [|done..].
    by apply (tracks_phase_change _ _ (Plan Idle last ms) Ht1).
  - destruct (tracks_phase _ _ Ht) as [[e o] Hd]. rewrite bind_core.
    pose proof (tracks_core _ _ (set_lastPointer None) Ht1 ltac:(done)) as Ht2.
    destruct (get_drag_run _ _ _ _ _ (tracks_at _ _ _ _ _ Ht2 Hd)) as (g & Hg & _ & _ & Hs).
    assert (end_active computed layout on_hover on_drop call_page revert_by d point
      (change_core (set_lastPointer None) (change_core (set_timeout None) w).2).2 =
      (Ret (), (change_core (set_lastPointer None) (change_core (set_timeout None) w).2).2)) as Hr.
    { unfold end_active. rewrite (js_bind_Ret _ _ _ _ _ Hg). injection Hs as -> _. done. }
    eexists. split; [rewrite (js_bind_Ret _ _ _ _ _ Hr); reflexivity|]. split; [|by rewrite app_nil_r]. split; [|done..].
    by apply (tracks_phase_change _ _ (Plan Idle None ms) (tracks_core _ _ (set_active None) Ht2 ltac:(done))).
  - by apply (release_moving d point w (Plan (Moving d) last ms)).
Qed.

Lemma escape_fails d point w a : follows w a → a_phase a = Pressed d → reverting d = true → d ∉ a_measured a →
  ∃ w', finishDrag computed layout on_hover on_drop call_page revert_by d point false w = (Throw ETypeError, w') ∧
    follows w' a ∧ notes (core_of w') = notes (core_of w) ++ [(d, OnEnd)].
Proof.
  intros [Ht Hact Htime Hlast] Hph Hrev Hms. unfold reverting in Hrev. destruct (table !! d) as [[e o]|] eqn:Hd; [|done].
  pose proof (tracks_at _ _ _ _ _ Ht Hd) as Hw. rewrite Hph, !bool_decide_eq_false_2 in Hw by done.
  destruct (fails_finishDrag d e o point Hrev w Hw) as (w' & Hr & Hw' & Hf). exists w'. split; [done|].
  pose proof Hf as [_ _ _ Fa Fl Ft Fn _]. split; [|done]. split; rewrite ?Fa, ?Fl, ?Ft; [|done..].
  eapply (tracks_frame w w' a a); [done..| |done|apply Ht|apply Ht]. by rewrite Hph, !bool_decide_eq_false_2.
Qed.
Lemma key_goes escape point w a : follows w a →
  goes (keyPress computed layout on_hover on_drop call_page revert_by escape point) w
    (plan_step delayed reverting false (Key escape point) a).
Proof.
  intros Hfo. pose proof (follows_active _ _ Hfo) as Hact. unfold goes, keyPress. rewrite js_bind_get, Hact.
  destruct a as [[|d|d|d] last ms]; cbn [a_phase call_option]; try by destruct escape; apply goes_quiet.
  - destruct escape; [|by apply goes_quiet]. cbn [js_when plan_step a_phase a_measured a_last].
    destruct (reverting d) eqn:Hrev; [case_bool_decide as Hms|]; cbn [andb negb].
    + by apply (finish_goes d point false w _ Hfo eq_refl).
    + by apply escape_fails.
    + apply (finish_goes d point false w _ Hfo eq_refl). congruence.
  - destruct escape; [|by apply goes_quiet]. cbn [js_when plan_step a_phase a_measured a_last].
    pose proof (tracks_measured _ _ (follows_tracks _ _ Hfo) d eq_refl) as Hms. cbn in Hms.
    destruct (finish_goes d point false w _ Hfo eq_refl (λ _, Hms)) as (w' & Hr & Hfo' & Hn). cbn in Hfo'.
    replace ({[d]} ∪ ms) with ms in Hfo' by set_solver. by exists w'.
Qed.
Lemma timer_goes w a : follows w a → goes activate_timer w (plan_step delayed reverting false DelayOver a).
Proof.
  intros [Ht Hact Htime Hlast]. unfold goes, activate_timer. rewrite js_bind_get, Htime.
  destruct a as [[|d|d|d] last ms]; cbn [a_phase call_option]; try by apply goes_quiet.
  eexists. split; [reflexivity|]. split; [|by rewrite app_nil_r]. split; [|done..].
  by apply (tracks_phase_change _ _ (Plan (Pressed d) last ms)
    (tracks_core w (Plan (Waiting d) last ms) (λ c, set_active (Some d) (set_timeout None c)) Ht ltac:(done))), (tracks_phase _ _ Ht).
Qed.
Lemma effect_goes i w a : follows w a → goes (effect_done element_key i) w (plan_step delayed reverting false (EffectOver i) a).
Proof.
  intros [[] ? ? ?]. eexists. split; [reflexivity|]. split; [by split|]. cbn. by rewrite app_nil_r.
Qed.

Lemma step_goes ev w a : follows w a → (∀ d p, ev = MouseDown d p → a_phase a = Idle) →
  goes (drag_step computed layout on_hover on_drop call_page revert_by snap_by element_key ev) w
    (plan_step delayed reverting (taken w ev) ev a).
Proof.
  intros Hfo Hidle. pose proof (follows_tracks _ _ Hfo) as Ht. pose proof (tracks_observing _ _ Ht) as Hobs.
  destruct ev as [d p|p|p|esc p| |i]; cbn [drag_step taken]; unfold goes; rewrite ?js_bind_get, ?Hobs;
    [| |by apply release_goes|by apply key_goes|by apply timer_goes|by apply effect_goes].
  - specialize (Hidle d p eq_refl). unfold plan_step. rewrite Hidle.
    destruct (bool_decide (d ∈ drags (core_of w))) eqn:Hin; cbn [js_when].
    + apply bool_decide_eq_true in Hin. destruct (tracks_drags _ _ Ht d Hin) as [[e o] Hd]. rewrite Hd. cbn [andb].
      destruct (accepts element_key w e p) eqn:Hacc; [by eapply initDrag_goes|].
      destruct (get_drag_run _ _ _ _ _ (tracks_at _ _ _ _ _ Ht Hd)) as (g & Hg & He & _).
      unfold initDrag. rewrite (js_bind_Ret _ _ _ _ _ Hg), js_bind_get, He, Hacc. by apply goes_quiet.
    + replace (match table !! d with Some (e, _) => false && accepts element_key w e p | None => false end) with false
        by by destruct (table !! d) as [[]|]. by apply goes_quiet.
  - destruct (plan_active a) as [d|] eqn:Had.
    + pose proof (move_goes d p w a Hfo Had) as Hmove. cbn [js_when].
      destruct (decide (a_last a = Some p)) as [Heq|Hne].
      * unfold updateDrag. rewrite js_bind_get, (follows_active _ _ Hfo), (follows_last _ _ Hfo). fold (plan_active a).
        rewrite Had. cbn [call_option]. rewrite bool_decide_eq_false_2 by auto.
        destruct a as [[|?|?|?] last ms]; try done; cbn in *; rewrite decide_True by done; by apply goes_quiet.
      * specialize (Hmove Hne). destruct a as [[|?|?|?] last ms]; try done; injection Had as ->; cbn in *;
          rewrite decide_False by done; [rewrite decide_False in Hmove by done; exact Hmove|].
        rewrite decide_True in Hmove by done. pose proof (tracks_measured _ _ Ht d eq_refl) as Hms. cbn in Hms.
        by replace ({[d]} ∪ ms) with ms in Hmove by set_solver.
    + cbn [js_when]. unfold updateDrag. rewrite js_bind_get, (follows_active _ _ Hfo). fold (plan_active a). rewrite Had.
      destruct a as [[|?|?|?] last ms]; try done; by apply goes_quiet.
Qed.

(** *** Runs *)
(** The events with what is taken of them. *)
Fixpoint with_taken (evs : list drag_event) (w : W) : list (drag_event * bool) :=
  match evs with
  | [] => []
  | ev :: evs => (ev, taken w ev) ::
      with_taken evs (drag_step computed layout on_hover on_drop call_page revert_by snap_by element_key ev w).2
  end.
(** The button is pressed when it is up. *)
Fixpoint orderly (down : bool) (evs : list drag_event) : bool :=
  match evs with
  | [] => true
  | MouseDown _ _ :: evs => negb down && orderly true evs
  | MouseUp _ :: evs => orderly false evs
  | _ :: evs => orderly down evs
  end.
Definition down_after (down : bool) (ev : drag_event) : bool :=
  match ev with MouseDown _ _ => true | MouseUp _ => false | _ => down end.
Lemma orderly_cons down ev evs : orderly down (ev :: evs) = true →
  orderly (down_after down ev) evs = true ∧ ∀ d p, ev = MouseDown d p → down = false.
Proof. destruct ev; cbn; [intros [Hd ?]%andb_prop; split; [done|by destruct down]|..]; intros ?; split; done. Qed.
Lemma plan_step_idle taken ev a down : (down = false → a_phase a = Idle) → down_after down ev = false →
  a_phase (plan_step delayed reverting taken ev a).1.2 = Idle.
Proof.
  intros Hd Hafter. destruct a as [ph last ms]. destruct ev as [d p|p|p|[] p| |i]; cbn in *; try done;
    try (rewrite (Hd Hafter); done). destruct ph; done.
Qed.

Lemma run_goes evs down w a : follows w a → (down = false → a_phase a = Idle) → orderly down evs = true →
  let w' := drag_run computed layout on_hover on_drop call_page revert_by snap_by element_key evs w in
  let x := plan_run delayed reverting (with_taken evs w) a in
  follows w' x.1 ∧ notes (core_of w') = notes (core_of w) ++ x.2.
Proof.
  revert down w a. induction evs as [|ev evs IH]; intros down w a Hfo Hdown Hord.
  { split; [done|]. cbn. by rewrite app_nil_r. }
  apply orderly_cons in Hord as [Hord Hpress].
  destruct (step_goes ev w a Hfo) as (w1 & Hr & Hfo1 & Hn1). { intros d p He. by eapply Hdown, Hpress. }
  pose proof (plan_step_idle (taken w ev) ev a down Hdown) as Hidle.
  cbn [drag_run foldl with_taken plan_run]. rewrite Hr. cbn [snd].
  destruct (plan_step _ _ _ _ _) as [[r a1] out]. cbn in Hfo1, Hn1, Hidle.
  destruct (IH (down_after down ev) w1 a1 Hfo1 Hidle Hord) as [H1 H2]. fold (drag_run (X := X)) in *.
  unfold drag_run in H1, H2. destruct (plan_run _ _ _ a1) as [a2 out']. cbn in *.
  split; [done|]. by rewrite H2, Hn1, app_assoc.
Qed.

(** C18. The handlers on the document refine the state machine of drags: on a
    page whose functions return and leave the state of dragging alone, in any
    sequence of presses, moves, releases, keys, timers and ended effects in
    which the button is pressed only when it is up, the state after each run
    is the one the machine reaches and exactly the machine's notifications are
    sent; and these are in order, at most one draggable being dragged at a
    time, from its start over its drags to its end. *)
Theorem drag_refines evs w a :
  follows w a → a_phase a = Idle → orderly false evs = true →
  let w' := drag_run computed layout on_hover on_drop call_page revert_by snap_by element_key evs w in
  ∃ a' ns, plan_run delayed reverting (with_taken evs w) a = (a', ns) ∧ follows w' a' ∧
    notes (core_of w') = notes (core_of w) ++ ns ∧ in_order None ns = Some (started a').
Proof.
  intros Hfo Hidle Hord w'. destruct (run_goes evs false w a Hfo (λ _, Hidle) Hord) as [H1 H2].
  pose proof (plan_run_in_order delayed reverting (with_taken evs w) a) as Hin.
  destruct (plan_run _ _ _ a) as [a' ns]. exists a', ns. split_and!; [done..|].
  unfold started in Hin at 1. by rewrite Hidle in Hin.
Qed.

(** C19. On a page whose functions, and the effects and options behind the
    interfaces, always return and leave the state of dragging alone, a handler
    throws in one case only, and always then: the escape key is pressed after
    a press and before any move, on a draggable that goes back and was never
    dragged.  It then throws a TypeError, after the end of a drag was notified
    that never started, and the draggable stays active.  (With the option
    ghosting the page is not of that kind: the same key throws for every
    draggable, [limit_escape_ghost] of DragScroll.v.) *)
Theorem drag_errors ev w a :
  follows w a → (∀ d p, ev = MouseDown d p → a_phase a = Idle) →
  let x := drag_step computed layout on_hover on_drop call_page revert_by snap_by element_key ev w in
  match x.1 with
  | Ret _ => ∀ d p, ev = Key true p → a_phase a = Pressed d → reverting d = true → d ∈ a_measured a
  | Throw err => err = ETypeError ∧ ∃ d p, ev = Key true p ∧ a_phase a = Pressed d ∧ reverting d = true ∧
      (d ∉ a_measured a) ∧ notes (core_of x.2) = notes (core_of w) ++ [(d, OnEnd)] ∧
      activeDraggable (core_of x.2) = Some d
  end.
Proof.
  intros Hfo Hidle. destruct (step_goes ev w a Hfo Hidle) as (w' & Hr & Hfo' & Hn). cbv zeta. rewrite Hr. cbn [fst snd].
  pose proof (follows_active _ _ Hfo') as Hact. destruct a as [ph last ms].
  destruct ev as [d p|p|p|[] p| |i], ph as [|d'|d'|d']; cbn in *; try done; try (case_decide; done).
  destruct (reverting d') eqn:Hrev; [case_bool_decide as Hms|]; cbn in *; [|by split; [|exists d', p]|];
    intros d1 p1 _ [= <-]; [done|congruence].
Qed.
End all.
End simulation.

(** ** Witnesses *)

(** The item of the box can be dragged, and goes back. *)
Definition item_options : drag_options :=
  DragOptions 1000 (Revert RevertYes) false (SnapTo (int 5) (int 5)) None 0 (Some DefaultEffect) (Some (PageEffect 1))
    (Some DefaultEffect) (λ n, match n with OnDrag => Some 2%nat | _ => None end) None None.
#[local] Abbreviation item_page := (drag_state (list nat)).
Definition say (n : nat) : JS (dnd item_page) () := js_modify (λ w,
  set_rest (DragState (core_of w) (busy (rest w)) (opacities (rest w)) (n :: others (rest w))) w).
#[export] Instance say_extras : DragExtras (dnd item_page) := no_extras _.
#[export] Instance say_effects : DragEffects (dnd item_page) :=
  { new_opacity_effect _ _ _ _ := say 10; new_move_effect _ _ _ _ := say 11 }.
Definition item_call (c : page_call) : JS (dnd item_page) () :=
  match c with ObserverCall f _ _ | DragCall f _ | ElementCall f _ | RevertCall f _ _ _ => say f end.
Definition item_snap (_ : nat) (x y : num) (_ : nat) : JS (dnd item_page) (num * num) := mret (x, y).
Definition item_revert (_ : nat) (_ : nid) : JS (dnd item_page) revert_value := mret RevertNo.
Definition item_key (_ : nid) : jsstr := js "[object HTMLDivElement]".
Definition item_drag : draggable := Draggable 3 3 item_options false None (0, 0) None.
Definition item_world : dnd item_page :=
  Dnd box_page [box_drop; bin_drop] None ∅ 2
    (DragState (DragCore {[0%nat := item_drag]} [0%nat] true None None None [] (λ _, 0%nat) []) ∅ ∅ []).
Definition item_table : gmap nat (nid * drag_options) := {[0%nat := (3%nat, item_options)]}.
Definition no_style (_ : dom) (_ : nid) (_ : jsstr) : option jsstr := Some [].

Lemma polite_say n : polite (say n) (λ _, True).
Proof. intros w. eexists tt, _. split; [reflexivity|]. by split_and!. Qed.
Lemma polite_ret {A} (a : A) (good : A → Prop) : good a → polite (X := list nat) (mret a) good.
Proof. intros Ha w. by exists a, w. Qed.
Lemma item_polite : polite_page (X := list nat) (λ _ _ _ _, say 0) (λ _ _ _, say 1) item_call item_revert item_snap (λ _ _, RevertNo).
Proof.
  split; intros; try apply polite_say; try by apply polite_ret.
  destruct c; apply polite_say.
Qed.
Lemma item_follows : follows [box_drop; bin_drop] item_table item_world (Plan Idle None ∅).
Proof.
  split; [|done..]. split; try done.
  - intros d g Hg. cbn in Hg. apply lookup_singleton_Some in Hg as [<- <-]. reflexivity.
  - intros d e o Hd. unfold item_table in Hd. apply lookup_singleton_Some in Hd as [_ [= <- <-]]. eexists. vm_compute. reflexivity.
  - intros d ->%list_elem_of_singleton. by eexists.
  - split_and!; [done|done|]. intros d Hd. apply elem_of_cons in Hd as [->| ->%list_elem_of_singleton];
      (eexists; split; [vm_compute; reflexivity|]); intros c [= <-]; vm_compute; reflexivity.
Qed.
Definition item_press : drag_event := MouseDown 0 (Press (52, 52) true (js "div")).
Definition item_events : list drag_event := [item_press; MouseMove (15, 15); MouseMove (17, 19); MouseUp (17, 19)].

Lemma drag_refines_witness : ∃ w', w' = drag_run no_style box_layout (λ _ _ _ _, say 0) (λ _ _ _, say 1) item_call item_revert
    item_snap item_key item_events item_world ∧
  notes (core_of w') = [(0%nat, OnStart); (0%nat, OnDrag); (0%nat, OnDrag); (0%nat, OnEnd)] ∧
  others (rest w') = [1; 11; 1; 2; 2; 10]%nat ∧ last_active w' = None.
Proof.
  destruct (drag_refines no_style box_layout (λ _ _ _ _, say 0) (λ _ _ _, say 1) item_call item_revert item_snap item_key
    (λ _ _, RevertNo) item_polite [box_drop; bin_drop] box_ok item_table item_events item_world (Plan Idle None ∅)
    item_follows eq_refl eq_refl) as (a' & ns & H1 & _ & H2 & _).
  eexists. split; [reflexivity|]. rewrite H2. vm_compute in H1. injection H1 as <- <-.
  split; [reflexivity|]. split; vm_compute; reflexivity.
Defined.

Lemma drag_errors_witness : ∃ w1 w2,
  drag_run no_style box_layout (λ _ _ _ _, say 0) (λ _ _ _, say 1) item_call item_revert item_snap item_key
    [item_press] item_world = w1 ∧
  drag_step no_style box_layout (λ _ _ _ _, say 0) (λ _ _ _, say 1) item_call item_revert item_snap item_key
    (Key true (52, 52)) w1 = (Throw ETypeError, w2) ∧
  activeDraggable (core_of w2) = Some 0%nat.
Proof.
  destruct (run_goes no_style box_layout (λ _ _ _ _, say 0) (λ _ _ _, say 1) item_call item_revert item_snap item_key
    (λ _ _, RevertNo) item_polite [box_drop; bin_drop] box_ok item_table [item_press] false item_world (Plan Idle None ∅)
    item_follows (λ _, eq_refl) eq_refl) as [Hfo _].
  set (w1 := drag_run _ _ _ _ _ _ _ _ _ _) in *.
  set (a := (plan_run _ _ _ _).1) in Hfo. assert (a = Plan (Pressed 0%nat) None ∅) as Ha by (vm_compute; reflexivity).
  rewrite Ha in Hfo. exists w1.
  pose proof (drag_errors no_style box_layout (λ _ _ _ _, say 0) (λ _ _ _, say 1) item_call item_revert item_snap item_key
    (λ _ _, RevertNo) item_polite [box_drop; bin_drop] box_ok item_table (Key true (52, 52)) w1 _ Hfo ltac:(done)) as H.
  destruct (drag_step _ _ _ _ _ _ _ _ (Key true (52, 52)) w1) as [[[]|err] w2] eqn:E.
  - exfalso. specialize (H 0%nat (52, 52) eq_refl eq_refl eq_refl). revert H. vm_compute. done.
  - destruct H as [-> (d & p & _ & [= <-] & _ & _ & _ & H)]. exists w2. split; [reflexivity|]. split; [reflexivity|exact H].
Defined.
