(* ===== verification/Tree.v ===== *)
(** * Moving nodes in the document

    The methods of the browser that put a node at a place, on documents that
    are trees: parents and children agree, and no node is above itself. *)

From S2P Require Import Prelude JsBase Dom Droppable.
#[local] Open Scope stdpp_scope.

(** Parents are on a lower level. *)
Definition acyclic (d : dom) : Prop := ∃ depth : nid → nat, ∀ x p, parent_of d x = Some p → (depth p < depth x)%nat.

(** [child] put before [ref], or last. *)
Fixpoint put_before (e : nid) (ref : option nid) (l : list nid) : list nid :=
  match l with
  | [] => [e]
  | x :: l => if decide (ref = Some x) then e :: x :: l else x :: put_before e ref l
  end.
(** [parent.insertBefore(child, ref)]: what is not a child of the parent, and
    what is above the parent or the parent itself, is an error of the browser. *)
Definition insertBefore (p e : nid) (ref : option nid) : D () :=
  d ← js_get;
  if bool_decide (e = p) || is_parent d p e then js_throw (EUser 2)
  else if match ref with Some r => bool_decide (parent_of d r ≠ Some p) | None => false end then js_throw (EUser 1)
  else
    let ref := if bool_decide (ref = Some e) then nextSibling d e else ref in
    match parent_of d e with Some q => removeChild q e | None => mret () end ;;
    update_node p (λ n, set_children (put_before e ref (childNodes n)) n) ;;
    update_node e (set_parent (Some p)).
Definition appendChild (p e : nid) : D () := insertBefore p e None.

(** ** Above in a tree *)

Lemma above_lower d (depth : nid → nat) : (∀ x p, parent_of d x = Some p → (depth p < depth x)%nat) →
  ∀ x a, above d x a → (depth a < depth x)%nat.
Proof. intros Hd x a. induction 1 as [x a Ha|x y a Hy _ IH]; [by apply Hd|]. specialize (Hd _ _ Hy). lia. Qed.
Lemma acyclic_above d x : acyclic d → ¬ above d x x.
Proof. intros [depth Hd] Ha. pose proof (above_lower d depth Hd x x Ha). lia. Qed.

(** With as much fuel as nodes the way up ends. *)
Lemma isParent_fuel d fuel x a seen : acyclic d → a ≠ x → NoDup seen → (∀ y, y ∈ seen → is_Some (d !! y) ∧ above d y x) →
  (node_count d ≤ fuel + length seen)%nat → isParent fuel d x a = true ↔ above d x a.
Proof.
  intros Hac. revert x seen. induction fuel as [|fuel IH]; intros x seen Hne Hnd Hseen Hf.
  - split; [done|]. intros Ha. assert (is_Some (d !! x)) as Hx.
    { inversion Ha as [? y Hy|? y ? Hy]; subst; unfold parent_of in Hy; by destruct (d !! x). }
    assert (length (x :: seen) ≤ node_count d)%nat; [|cbn in *; lia]. apply nodes_bounded.
    + apply NoDup_cons. split; [|done]. intros Hin. destruct (Hseen x Hin) as [_ Hxx]. by apply (acyclic_above d x).
    + intros y [->|Hy]%elem_of_cons; [done|]. by apply Hseen.
  - cbn [isParent]. destruct (parent_of d x) as [p|] eqn:Hp.
    2: { split; [done|]. intros Ha. inversion Ha; congruence. }
    rewrite bool_decide_eq_false_2 by done. destruct (decide (p = a)) as [->|Hpa].
    { rewrite bool_decide_eq_true_2 by done. split; [|done]. intros _. by apply tc_once. }
    rewrite bool_decide_eq_false_2 by done. rewrite (IH p (x :: seen)).
    + split; [intros Ha; by eapply tc_l|]. intros Ha. inversion Ha; subst; [congruence|]. unfold above. congruence.
    + done.
    + apply NoDup_cons. split; [|done]. intros Hx. destruct (Hseen x Hx) as [_ Ha]. by apply (acyclic_above d x).
    + intros y [->|Hy]%elem_of_cons.
      * split; [unfold parent_of in Hp; by destruct (d !! x)|by apply tc_once].
      * destruct (Hseen y Hy) as [? Ha]. split; [done|]. eapply tc_transitive; [exact Ha|by apply tc_once].
    + cbn. lia.
Qed.

Lemma is_parent_iff d x a : acyclic d → is_parent d x a = true ↔ above d x a.
Proof.
  intros Hac. unfold is_parent. destruct (decide (x = a)) as [->|Hne].
  - split; [|by intros ?%acyclic_above]. intros H. exfalso. destruct (node_count d); cbn in H; [done|].
    destruct (parent_of d a); [|done]. by rewrite bool_decide_eq_true_2 in H.
  - apply (isParent_fuel d (node_count d) x a []); [done|done|constructor|by intros y ?%not_elem_of_nil|cbn; lia].
Qed.

(** ** Where the nodes are *)

(** The document with parents [po] and children [ch]. *)
Definition placed (d : dom) (po : nid → option nid) (ch : nid → list nid) : Prop :=
  (∀ x, parent_of d x = po x) ∧ ∀ q, child_list d (Some q) = ch q.
Lemma placed_refl d : placed d (parent_of d) (λ q, child_list d (Some q)).
Proof. done. Qed.

(** Changes that keep every node's place. *)
Lemma update_placed e f d n : d !! e = Some n → (∀ n, parentNode (f n) = parentNode n ∧ childNodes (f n) = childNodes n) →
  placed (<[e := f n]> d) (parent_of d) (λ q, child_list d (Some q)).
Proof.
  intros Hn Hf. destruct (Hf n) as [H1 H2]. split; intros x; unfold parent_of; cbn; destruct (decide (x = e)) as [->|];
    rewrite ?lookup_insert_eq, ?lookup_insert_ne by done; cbn; by rewrite ?Hn.
Qed.

Lemma put_before_elem e ref (l : list nid) x : x ∈ put_before e ref l ↔ x = e ∨ x ∈ l.
Proof. induction l as [|y l IH]; cbn; [set_solver|]. case_decide; rewrite !elem_of_cons; [tauto|]. rewrite IH. tauto. Qed.
Lemma put_before_nodup e ref l : e ∉ l → NoDup l → NoDup (put_before e ref l).
Proof.
  intros He Hl. induction Hl as [|y l Hy Hl IH]; cbn; [by repeat constructor|].
  apply not_elem_of_cons in He as [Hne He]. case_decide.
  - apply NoDup_cons. split; [set_solver|]. by apply NoDup_cons.
  - apply NoDup_cons. split; [|by apply IH]. rewrite put_before_elem. set_solver.
Qed.
Lemma put_before_at e r l1 l2 : r ∉ l1 → put_before e (Some r) (l1 ++ r :: l2) = l1 ++ e :: r :: l2.
Proof.
  induction l1 as [|y l1 IH]; cbn; intros Hr; [by rewrite decide_True|].
  apply not_elem_of_cons in Hr as [Hne Hr]. rewrite decide_False by congruence. by rewrite IH.
Qed.
Lemma put_before_end e l : put_before e None l = l ++ [e].
Proof. induction l as [|y l IH]; cbn; [done|]. by rewrite IH. Qed.

(** What a node holds besides its place. *)
Definition content (n : node) : node := set_children [] (set_parent None n).
Definition same_content (d d' : dom) : Prop := ∀ x : nid, content <$> d' !! x = content <$> d !! x.
Lemma same_content_trans d1 d2 d3 : same_content d1 d2 → same_content d2 d3 → same_content d1 d3.
Proof. intros H1 H2 x. by rewrite H2. Qed.
Lemma same_content_dom d d' x : same_content d d' → is_Some (d !! x) → is_Some (d' !! x).
Proof. intros Hc Hx. specialize (Hc x). destruct (d !! x); [|by destruct Hx]. by destruct (d' !! x). Qed.
Lemma insert_content (d : dom) e n n' : d !! e = Some n → content n' = content n → same_content d (<[e := n']> d).
Proof.
  intros Hn Hc x. destruct (decide (x = e)) as [->|]; [|by rewrite lookup_insert_ne].
  rewrite lookup_insert_eq, Hn. cbn. by rewrite Hc.
Qed.

Lemma filter_absent {A} `{EqDecision A} (e : A) (l : list A) : e ∉ l → filter (λ c, c ≠ e) l = l.
Proof.
  induction l as [|x l IH]; [done|]. intros [Hx Hl]%not_elem_of_cons.
  rewrite filter_cons_True by congruence. by rewrite IH.
Qed.

Definition detach (e : nid) : D () :=
  d ← js_get; match parent_of d e with Some q => removeChild q e | None => mret () end.
Lemma detach_run d e : dom_ok d → acyclic d →
  ∃ d', detach e d = (Ret (), d') ∧ same_content d d' ∧
    placed d' (λ x, if decide (x = e) then None else parent_of d x)
      (λ q, filter (λ c, c ≠ e) (child_list d (Some q))).
Proof.
  intros Hd Hac. unfold detach. rewrite js_bind_get. destruct (parent_of d e) as [q|] eqn:Hq.
  - assert (is_Some (d !! e)) as He by (unfold parent_of in Hq; by destruct (d !! e)).
    assert (q ≠ e) as Hne by (intros ->; by apply (acyclic_above d e); [|apply tc_once]).
    destruct (removeChild_run q e d (ok_parent d Hd e q Hq) He Hne) as (np & ne & Hp & Hn & Hrun).
    eexists. split; [exact Hrun|]. split.
    + eapply same_content_trans; [|eapply insert_content; [rewrite lookup_insert_ne by done; exact Hn|done]].
      by eapply insert_content.
    + split; intros x.
      * unfold parent_of. destruct (decide (x = e)) as [->|Hx]; [by rewrite lookup_insert_eq|].
        rewrite lookup_insert_ne by done. destruct (decide (x = q)) as [->|]; [by rewrite lookup_insert_eq, Hp|].
        by rewrite lookup_insert_ne.
      * assert (x ≠ q → filter (λ c, c ≠ e) (child_list d (Some x)) = child_list d (Some x)) as Hothers.
        { intros Hx. apply filter_absent. intros Hin%(ok_child d Hd). congruence. }
        cbn in *. destruct (decide (x = e)) as [->|Hx].
        -- rewrite lookup_insert_eq. cbn. rewrite Hn in *. by rewrite Hothers.
        -- rewrite lookup_insert_ne by done. destruct (decide (x = q)) as [->|Hxq]; [by rewrite lookup_insert_eq, Hp|].
           rewrite lookup_insert_ne by done. by rewrite Hothers.
  - exists d. split; [done|]. split; [done|]. split; intros x; [by case_decide; subst|].
    symmetry. apply filter_absent. intros Hin%(ok_child d Hd). congruence.
Qed.

(** The places after a node is put below [p]. *)
Definition moved_parent (d : dom) (e p : nid) (x : nid) : option nid := if decide (x = e) then Some p else parent_of d x.
Definition moved_children (d : dom) (e p : nid) (ref : option nid) (q : nid) : list nid :=
  let rest := filter (λ c, c ≠ e) (child_list d (Some q)) in if decide (q = p) then put_before e ref rest else rest.

Lemma attach_run d e p ref : is_Some (d !! p) → is_Some (d !! e) → p ≠ e →
  ∃ d', (update_node p (λ n, set_children (put_before e ref (childNodes n)) n) ;; update_node e (set_parent (Some p))) d =
    (Ret (), d') ∧ same_content d d' ∧
    placed d' (λ x, if decide (x = e) then Some p else parent_of d x)
      (λ q, if decide (q = p) then put_before e ref (child_list d (Some q)) else child_list d (Some q)).
Proof.
  intros [np Hp] [ne Hn] Hne. unfold update_node. js_unfold. rewrite Hp, lookup_insert_ne, Hn by done.
  eexists. split; [reflexivity|]. split.
  - eapply same_content_trans; [|eapply insert_content; [by rewrite lookup_insert_ne|done]]. by eapply insert_content.
  - split; intros x; unfold parent_of; cbn.
    + destruct (decide (x = e)) as [->|Hx]; [by rewrite lookup_insert_eq|]. rewrite lookup_insert_ne by done.
      destruct (decide (x = p)) as [->|]; [by rewrite lookup_insert_eq, Hp|]. by rewrite lookup_insert_ne.
    + destruct (decide (x = e)) as [->|Hx].
      * rewrite lookup_insert_eq, decide_False by done. cbn. by rewrite Hn.
      * rewrite lookup_insert_ne by done. destruct (decide (x = p)) as [->|]; [by rewrite lookup_insert_eq, Hp|].
        by rewrite lookup_insert_ne.
Qed.

Lemma moved_ok d d' e p ref : dom_ok d → acyclic d → e ≠ p → ¬ above d p e → is_Some (d !! p) →
  placed d' (moved_parent d e p) (moved_children d e p ref) → dom_ok d' ∧ acyclic d'.
Proof.
  intros Hd [depth Hdepth] Hne Hab Hp [Hpo Hch]. split.
  - split.
    + intros q c. rewrite Hch, Hpo. unfold moved_children, moved_parent. intros Hc.
      assert (c = e ∧ q = p ∨ c ≠ e ∧ c ∈ child_list d (Some q)) as [[-> ->]|[Hce Hin]].
      { case_decide; [apply put_before_elem in Hc as [->|Hc]; [auto|]|]; apply list_elem_of_filter in Hc; tauto. }
      * by rewrite decide_True.
      * rewrite decide_False by done. by apply (ok_child d Hd).
    + intros c q. rewrite Hch, Hpo. unfold moved_children, moved_parent. intros Hc. case_decide as Hce.
      * injection Hc as <-. rewrite decide_True by done. apply put_before_elem. by left.
      * apply (ok_parent d Hd) in Hc. assert (c ∈ filter (λ c, c ≠ e) (child_list d (Some q))) by by apply list_elem_of_filter.
        case_decide; [apply put_before_elem; by right|done].
    + intros q. rewrite Hch. unfold moved_children.
      assert (NoDup (filter (λ c, c ≠ e) (child_list d (Some q)))) by apply NoDup_filter, ok_nodup, Hd.
      case_decide; [|done]. apply put_before_nodup; [|done]. by intros [? _]%list_elem_of_filter.
  - exists (λ x, if decide (x = e ∨ is_parent d x e = true) then depth x + S (depth p) else depth x)%nat.
    assert (acyclic d) as Hac by by exists depth. intros x q. rewrite Hpo. unfold moved_parent.
    assert (¬ (p = e ∨ is_parent d p e = true)) as Hpe by (rewrite is_parent_iff by done; naive_solver).
    destruct (decide (x = e)) as [->|Hx].
    + intros [= <-]. rewrite (decide_False (P := p = e ∨ _)), (decide_True (P := e = e ∨ _)) by (done || by left). lia.
    + intros Hq. specialize (Hdepth x q Hq).
      assert (q = e ∨ is_parent d q e = true ↔ x = e ∨ is_parent d x e = true) as Hiff.
      { rewrite !is_parent_iff by done. split.
        - intros [->|Hqe]; right; [by apply tc_once|]. by eapply tc_l.
        - intros [?|Hxe]; [done|]. inversion Hxe as [? y Hy|? y ? Hy]; subst; rewrite Hq in Hy; injection Hy as <-; auto. }
      repeat case_decide; tauto || lia.
Qed.

(** The place before the node itself is the place before the next node. *)
Definition place_before (d : dom) (e : nid) (ref : option nid) : option nid :=
  if bool_decide (ref = Some e) then nextSibling d e else ref.
Lemma after_in_elem e (l : list nid) r : NoDup l → after_in e l = Some r → r ∈ l ∧ r ≠ e.
Proof.
  induction 1 as [|x l Hx Hl IH]; cbn; [done|]. case_decide as He.
  - subst. destruct l as [|y l]; cbn; [done|]. intros [= <-]. split; [set_solver|]. set_solver.
  - intros Hr. destruct (IH Hr). split; [by right|done].
Qed.
Lemma place_before_ok d p e ref : dom_ok d → match ref with Some r => parent_of d r = Some p | None => True end →
  match place_before d e ref with Some r => parent_of d r = Some p ∧ r ≠ e | None => True end.
Proof.
  intros Hd Href. unfold place_before. case_bool_decide as He; [subst ref|].
  - unfold nextSibling. rewrite Href. destruct (after_in e (child_list d (Some p))) as [r|] eqn:Hr; [|done].
    apply after_in_elem in Hr as [Hr ?]; [|apply ok_nodup, Hd]. split; [|done]. by apply (ok_child d Hd).
  - destruct ref; [|done]. split; [done|congruence].
Qed.

(** [insertBefore] where it is no error: the node, and what is below it, is at
    the new place and everything else where it was; it is still a tree. *)
Lemma insertBefore_run d p e ref : dom_ok d → acyclic d → is_Some (d !! p) → is_Some (d !! e) → e ≠ p → ¬ above d p e →
  match ref with Some r => parent_of d r = Some p | None => True end →
  ∃ d', insertBefore p e ref d = (Ret (), d') ∧ same_content d d' ∧ dom_ok d' ∧ acyclic d' ∧
    placed d' (moved_parent d e p) (moved_children d e p (place_before d e ref)).
Proof.
  intros Hd Hac Hp He Hne Hab Href. set (ref' := place_before d e ref). destruct (detach_run d e Hd Hac) as (d1 & Hr1 & Hc1 & Hpo1 & Hch1).
  destruct (attach_run d1 e p ref') as (d2 & Hr2 & Hc2 & Hpo2 & Hch2); [by eapply same_content_dom..|done|].
  assert (placed d2 (moved_parent d e p) (moved_children d e p ref')) as Hpl.
  { split; intros x.
    - rewrite Hpo2. unfold moved_parent. case_decide; [done|]. rewrite Hpo1. by rewrite decide_False.
    - rewrite Hch2. unfold moved_children. by rewrite Hch1. }
  exists d2. destruct (moved_ok d d2 e p ref' Hd Hac Hne Hab Hp Hpl). split_and!; try done; [|by eapply same_content_trans].
  unfold insertBefore. rewrite js_bind_get, bool_decide_eq_false_2 by done.
  destruct (is_parent d p e) eqn:Hpe; [by apply is_parent_iff in Hpe|]. cbn [orb].
  replace (match ref with Some r => bool_decide (parent_of d r ≠ Some p) | None => false end) with false
    by (destruct ref as [r|]; [|done]; rewrite Href; by rewrite bool_decide_eq_false_2 by naive_solver).
  cbv zeta. fold (place_before d e ref). fold ref'.
  unfold detach in Hr1. rewrite js_bind_get in Hr1. by rewrite (js_bind_Ret _ _ _ _ _ Hr1).
Qed.
