(* ===== verification/Sortable.v ===== *)
(** * Sortable lists (dragdrop.js: Sortable, SortableObserver)

    Lists whose items change their places while one of them is dragged over
    the others.  Sortables are made of draggables and droppables; hovering is
    a callback of the droppables. *)

From Stdlib Require Import ZArith.
From S2P Require Import Prelude JsBase JsNum JsRegex Strings Hash Dom Droppable Drag Tree.
#[local] Open Scope Z_scope.
#[local] Open Scope stdpp_scope.

(** ** State *)

(** [SERIALIZE_RULE]: a first character other than _ and -, then letters,
    digits, - and _ as many as can be, the last of them _, and the captured
    rest of the line. *)
Definition rule_char (c : N) : bool := is_word c || (c =? 45)%N.
Definition SERIALIZE_RULE : rx :=
  (RBol +++ RChar (none_of (js "_-")) +++ RStar true (RChar rule_char) +++ RLit 95 +++ RGroup 1 (RStar true (RChar dot)) +++ REol)%rx.

(** The options of a sortable, with what [create] adds to them. *)
Record sortable := Sortable {
  s_element : nid;
  s_tag : jsstr;
  s_dropOnEmpty : bool;
  s_tree : bool;
  s_treeTag : jsstr;
  s_overlap : jsstr;
  s_constraint : option jsstr;
  s_containment : option (list nid);
  s_only : option (list jsstr);
  s_delay : Z;
  s_hoverclass : option jsstr;
  s_ghosting : bool;
  s_quiet : bool;
  s_zindex : Z;
  s_starteffect : option drag_effect;
  s_reverteffect : option drag_effect;
  s_endeffect : option drag_effect;
  s_format : rx;
  s_onChange : option nat;
  s_onUpdate : option nat;
  s_draggables : list nat;
  s_droppables : list nid;
}.
(** The defaults of [create]. *)
Definition sortable_defaults (e : nid) : sortable :=
  Sortable e (js "li") false false (js "ul") (js "vertical") (Some (js "vertical")) (Some [e]) None 0 None false false 0
    None None None SERIALIZE_RULE None None [] [].

(** The sortables by the ids of their elements, the marker, and [lastValue] of
    the observers by their elements. *)
Record sort_state (Y : Type) := SortState {
  sortables : gmap jsstr sortable;
  marker : option nid;
  lastValue : gmap nid jsstr;
  user : Y;
}.
Arguments SortState {Y}.
Arguments sortables {Y}.
Arguments marker {Y}.
Arguments lastValue {Y}.
Arguments user {Y}.

(** ** Finding elements *)

Definition element_id (d : dom) (e : nid) : jsstr := default [] (attr_of d e (js "id")).
Definition child_matches (d : dom) (only : option (list jsstr)) (tag : jsstr) (c : nid) : bool :=
  match d !! c with
  | Some n =>
      is_element n && bool_decide (toUpperCase (tagName n) = toUpperCase tag) &&
      match only with
      | None => true
      | Some names => existsb (λ v, bool_decide (v ∈ names)) (class_names (className n))
      end
  | None => false
  end.
(** [Element.findChildren]: [None] is [null]; [fuel] bounds the depth. *)
Fixpoint find_children (fuel : nat) (d : dom) (e : nid) (only : option (list jsstr)) (recursive : bool) (tag : jsstr) :
    option (list nid) :=
  match fuel, child_list d (Some e) with
  | O, _ | _, [] => None
  | S fuel, l => Some (l ≫= λ c,
      (if child_matches d only tag c then [c] else []) ++
      (if recursive then default [] (find_children fuel d c only recursive tag) else []))
  end.
Definition findChildren (d : dom) (e : nid) (only : option (list jsstr)) (recursive : bool) (tag : jsstr) : option (list nid) :=
  find_children (S (node_count d)) d e only recursive tag.
Definition findElements (d : dom) (e : nid) (s : sortable) : option (list nid) :=
  findChildren d e (s_only s) (s_tree s) (s_tag s).
Definition findTreeElements (d : dom) (e : nid) (s : sortable) : option (list nid) :=
  findChildren d e (s_only s) (s_tree s) (s_treeTag s).
(** [item.id.match(options.format)[1]] *)
Definition item_ident (d : dom) (s : sortable) (item : nid) : option jsstr :=
  (λ m, m_group_or_empty m 1) <$> rx_match (s_format s) (element_id d item).
Definition offsetSize (layout : dom → nid → geometry) (d : dom) (e : nid) (type : jsstr) : Z :=
  if bool_decide (type = js "vertical") || bool_decide (type = js "height")
  then offsetHeight (layout d e) else offsetWidth (layout d e).

(** [_findRootElement]; an element without a parent, or the document, is not
    met below the body. *)
Fixpoint find_root (fuel : nat) (d : dom) (known : jsstr → bool) (e : nid) : res (option nid) :=
  match fuel, d !! e with
  | S fuel, Some n =>
      if negb (is_element n) then Throw ETypeError
      else if bool_decide (toUpperCase (tagName n) = js "BODY") then Ret None
      else if negb (bool_decide (element_id d e = [])) && known (element_id d e) then Ret (Some e)
      else match parentNode n with Some p => find_root fuel d known p | None => Throw ETypeError end
  | _, _ => Throw ETypeError
  end.

Section sortables.
Context {Y : Type} (computed : dom → nid → jsstr → option jsstr) (layout : dom → nid → geometry).
#[local] Abbreviation W := (dnd (drag_state (sort_state Y))).
#[local] Abbreviation M := (JS W).
(** The functions [onChange] and [onUpdate] of the page. *)
Context (call_sort : nat → nid → M ()).

Definition sort_of (w : W) : sort_state Y := others (rest w).
Definition change_sort (f : sort_state Y → sort_state Y) : M () := js_modify (λ w,
  set_rest (DragState (core_of w) (busy (rest w)) (opacities (rest w)) (f (sort_of w))) w).
Definition set_sortables (m : gmap jsstr sortable) (s : sort_state Y) : sort_state Y :=
  SortState m (marker s) (lastValue s) (user s).
Definition set_marker (o : option nid) (s : sort_state Y) : sort_state Y :=
  SortState (sortables s) o (lastValue s) (user s).
Definition set_lastValue (e : nid) (v : jsstr) (s : sort_state Y) : sort_state Y :=
  SortState (sortables s) (marker s) (<[e := v]> (lastValue s)) (user s).

(** [Sortable.options] *)
Definition sort_options (e : nid) : M (option sortable) := λ w,
  match find_root (node_count (page w)) (page w) (λ id, bool_decide (is_Some (sortables (sort_of w) !! id))) e with
  | Ret (Some r) => (Ret (sortables (sort_of w) !! element_id (page w) r), w)
  | Ret None => (Ret None, w)
  | Throw x => (Throw x, w)
  end.
(** [Sortable.options(element)] where its properties are read *)
Definition sort_options_of (e : nid) : M sortable :=
  o ← sort_options e;
  match o with Some s => mret s | None => js_throw ETypeError end.
Definition changed (s : sortable) (e : nid) : M () := call_option (s_onChange s) (λ f, call_sort f e).

(** *** The order of the items *)
Definition sequence (e : nid) : M (list jsstr) :=
  s ← sort_options_of e;
  d ← js_gets page;
  mret ((λ item, default [] (item_ident d s item)) <$> default [] (findElements d e s)).

(** [nodeMap]: the items by what identifies them, the last of them for one
    identifier, and their parents. *)
Definition node_map := list (jsstr * (nid * nid)).
Definition take_item (s : sortable) (nodes : node_map) (item : nid) : M node_map :=
  d ← js_gets page;
  match parent_of d item with
  | None => js_throw ETypeError
  | Some p => on_page (removeChild p item) ;;
      mret (match item_ident d s item with Some i => assoc_set i (item, p) nodes | None => nodes end)
  end.
Fixpoint take_items (s : sortable) (nodes : node_map) (items : list nid) : M node_map :=
  match items with
  | [] => mret nodes
  | item :: items => nodes ← take_item s nodes item; take_items s nodes items
  end.
(** An identifier that objects inherit finds a function without a parent. *)
Fixpoint put_items (nodes : node_map) (idents : list jsstr) : M () :=
  match idents with
  | [] => mret ()
  | i :: idents =>
      match assoc_get i nodes with
      | Some (item, p) => on_page (appendChild p item) ;; put_items (assoc_del i nodes) idents
      | None => if bool_decide (i ∈ object_prototype) then js_throw ETypeError else put_items nodes idents
      end
  end.
Definition setSequence (e : nid) (new_sequence : list jsstr) : M () :=
  s ← sort_options_of e;
  d ← js_gets page;
  match findElements d e s with
  | None => js_throw ETypeError
  | Some items => nodes ← take_items s [] items; put_items nodes new_sequence
  end.

(** *** Serialising *)
(** The items of a tree, with their positions among those with identifiers. *)
#[warnings="-register-all"]
Inductive tree_item := TreeItem (id : jsstr) (position : nat) (children : list tree_item).
(** [element.down(tag)] *)
Definition first_below (d : dom) (tag : jsstr) (e : nid) : option nid :=
  head (List.filter (λ c, match d !! c with Some n => bool_decide (toUpperCase (tagName n) = toUpperCase tag) | None => false end)
    (descendants_of d e)).
(** [_tree], on the children of [container]; [fuel] bounds the depth. *)
Fixpoint build_tree (fuel : nat) (s : sortable) (container : nid) : M (list tree_item) :=
  match fuel with
  | O => mret []
  | S fuel =>
      d ← js_gets page;
      (fix build (items : list nid) (position : nat) : M (list tree_item) :=
        match items with
        | [] => mret []
        | item :: items =>
            match item_ident d s item with
            | None => build items position
            | Some i =>
                id ← encode i;
                kids ← match first_below d (s_treeTag s) item with Some c => build_tree fuel s c | None => mret [] end;
                others ← build items (S position);
                mret (TreeItem id position kids :: others)
            end
        end) (default [] (findChildren d container (s_only s) false (s_tag s))) O
  end.
Definition sort_tree (e : nid) : M (list tree_item) :=
  s ← sort_options_of e;
  d ← js_gets page;
  build_tree (S (node_count d)) s e.
Definition serialize_each {A} (f : A → M (list jsstr)) : list A → M (list jsstr) :=
  fix each (l : list A) : M (list jsstr) :=
    match l with
    | [] => mret []
    | c :: l => x ← f c; y ← each l; mret (x ++ y)
    end.
(** The texts of an item and those below it; [index] is the [_constructIndex]
    of the parent. *)
Fixpoint serialize_item (name index : jsstr) (item : tree_item) : M (list jsstr) :=
  let '(TreeItem id position children) := item in
  let index := index ++ (if bool_decide (id = []) then [] else js "[" ++ num_str (Z.of_nat position) ++ js "]") in
  v ← encode id;
  below ← serialize_each (serialize_item name index) children;
  mret ((name ++ index ++ js "[id]=" ++ v) :: below).
Definition sort_serialize (e : nid) : M jsstr :=
  o ← sort_options e;
  d ← js_gets page;
  name ← encode (element_id d e);
  match o with
  | None => js_throw ETypeError
  | Some s =>
      parts ← (if s_tree s
               then items ← sort_tree e; serialize_each (serialize_item name []) items
               else items ← sequence e; serialize_each (λ i, v ← encode i; mret [name ++ js "[]=" ++ v]) items);
      mret (join (js "&") parts)
  end.

(** *** The marker *)
Definition unmark : M () :=
  w ← js_get;
  match marker (sort_of w) with Some m => on_page (hide m) | None => mret () end.
Definition find_body (d : dom) : option nid := head (List.filter (is_body d) (descendants_of d document)).
Definition new_div : D nid := λ d,
  let i := fresh (base.dom d : gset nat) in (Ret i, <[i := Node (NElement (js "DIV")) ∅ ∅ ∅ None []]> d).
Definition make_marker : M nid :=
  d ← js_gets page;
  m ← match getElementById d (js "dropmarker") with Some m => mret m | None => on_page new_div end;
  on_page (hide m ;; addClassName m (js "dropmarker") ;; setStyle m [(js "position", js "absolute")]) ;;
  change_sort (set_marker (Some m)) ;;
  d ← js_gets page;
  match find_body d with Some b => on_page (appendChild b m) | None => js_throw ETypeError end ;;
  mret m.
Definition mark (dropon : nid) (after : bool) : M () :=
  d ← js_gets page;
  match parent_of d dropon with
  | None => js_throw ETypeError
  | Some p =>
      o ← sort_options p;
      if match o with Some s => negb (s_ghosting s) | None => false end then mret ()
      else
        w ← js_get;
        m ← match marker (sort_of w) with Some m => mret m | None => make_marker end;
        offsets ← on_page (cumulativeOffset layout dropon);
        on_page (setStyle m [(js "left", px offsets.1); (js "top", px offsets.2)]) ;;
        d ← js_gets page;
        js_when after
          match o with
          | None => js_throw ETypeError
          | Some s =>
              on_page (if bool_decide (s_overlap s = js "horizontal")
                       then setStyle m [(js "left", px (offsets.1 + clientWidth (layout d dropon)))]
                       else setStyle m [(js "top", px (offsets.2 + clientHeight (layout d dropon)))])
          end ;;
        on_page (show m)
  end.

(** *** Hovering *)
(** The element is moved before [ref], the children of [p] being reordered, and
    [onChange] is called. *)
Definition move_item (element p : nid) (ref : option nid) : M () :=
  d ← js_gets page;
  let oldParentNode := parent_of d element in
  on_page (put_style element (js "visibility") (js "hidden")) ;;
  on_page (insertBefore p element ref) ;;
  js_when (bool_decide (oldParentNode ≠ Some p))
    match oldParentNode with
    | Some q => s ← sort_options_of q; changed s element
    | None => js_throw ETypeError
    end ;;
  s ← sort_options_of p;
  changed s element.
(** In the middle of an item of a tree. *)
Definition in_middle (dropon : nid) (overlap : num) : M bool :=
  if num_gtb overlap (lit (QArith_base.Qmake 33 100)) && num_ltb overlap (lit (QArith_base.Qmake 66 100))
  then s ← sort_options_of dropon; mret (s_tree s) else mret false.
Definition onHover (element dropon : nid) (overlap : num) : M () :=
  d ← js_gets page;
  if is_parent d dropon element then mret ()
  else
    middle ← in_middle dropon overlap;
    if middle : bool then mret ()
    else if num_gtb overlap (lit (QArith_base.Qmake 1 2)) then
      mark dropon false ;;
      d ← js_gets page;
      js_when (bool_decide (previousSibling d dropon ≠ Some element))
        match parent_of d dropon with
        | Some p => move_item element p (Some dropon)
        | None => js_throw ETypeError
        end
    else
      mark dropon true ;;
      d ← js_gets page;
      js_when (bool_decide (nextSibling d dropon ≠ Some element))
        match parent_of d dropon with
        | Some p => move_item element p (nextSibling d dropon)
        | None => js_throw ETypeError
        end.
(** [x >= 0] *)
Definition not_negative (x : num) : bool := num_gtb x (int 0) || num_eqb x (int 0).
(** The child before which an element is put, [offset] into the list. *)
Fixpoint empty_place (d : dom) (type : jsstr) (children : list nid) (offset : num) : option nid :=
  match children with
  | [] => None
  | c :: rest =>
      let sz := int (offsetSize layout d c type) in
      if not_negative (num_sub offset sz) then empty_place d type rest (num_sub offset sz)
      else if not_negative (num_sub offset (num_div sz (int 2))) then head rest
      else Some c
  end.
Definition onEmptyHover (element dropon : nid) (overlap : num) : M () :=
  d ← js_gets page;
  let oldParentNode := parent_of d element in
  o ← sort_options dropon;
  js_when (negb (is_parent d dropon element))
    match o with
    | None => js_throw ETypeError
    | Some s =>
        let child := match findChildren d dropon (s_only s) false (s_tag s) with
          | None => None
          | Some l => empty_place d (s_overlap s) l
              (num_mul (int (offsetSize layout d dropon (s_overlap s))) (num_sub (int 1) overlap))
          end in
        on_page (insertBefore dropon element child) ;;
        match oldParentNode with
        | Some q => s ← sort_options_of q; changed s element
        | None => js_throw ETypeError
        end ;;
        changed s element
    end.

(** *** Making and unmaking *)
(** SortableObserver: [lastValue] is read when it is made and when a drag
    starts, and compared when it ends. *)
Definition remember (e : nid) : M () := v ← sort_serialize e; change_sort (set_lastValue e v).
Definition observer_end (e : nid) (onUpdate : option nat) : M () :=
  unmark ;;
  w ← js_get;
  v ← sort_serialize e;
  js_when (bool_decide (lastValue (sort_of w) !! e ≠ Some v)) (call_option onUpdate (λ f, call_sort f e)).

(** The options of the draggables; the reverting effect numbered 0 is the one
    [create] makes for ghosts, which puts [left] and [top] to 0. *)
Definition options_for_draggable (s : sortable) : drag_options :=
  let d := drag_defaults (bool_decide (is_Some (s_endeffect s))) in
  DragOptions (if s_zindex s =? 0 then zindex d else s_zindex s) (Revert RevertYes) (s_quiet s) (snap d) (s_constraint s)
    (s_delay s) (match s_starteffect s with Some f => Some f | None => starteffect d end)
    (match s_endeffect s with Some f => Some f | None => endeffect d end)
    (match s_reverteffect s with Some f => Some f
     | None => if s_ghosting s then Some (PageEffect 0) else reverteffect d end)
    (note_option d) (change d) (onDropped d).
Definition hover_item : nat := 0.
Definition hover_empty : nat := 1.
Definition options_for_droppable (s : sortable) (e : nid) : drop :=
  Drop 0 e (s_hoverclass s) (s_tree s) (s_containment s) None (Some (s_overlap s)) (Some hover_item) None.
Definition options_for_tree (s : sortable) (e : nid) : drop :=
  Drop 0 e (s_hoverclass s) false (s_containment s) None (Some (s_overlap s)) (Some hover_empty) None.
Definition with_parts (s : sortable) (g : list nat) (d : list nid) : sortable :=
  Sortable (s_element s) (s_tag s) (s_dropOnEmpty s) (s_tree s) (s_treeTag s) (s_overlap s) (s_constraint s) (s_containment s)
    (s_only s) (s_delay s) (s_hoverclass s) (s_ghosting s) (s_quiet s) (s_zindex s) (s_starteffect s) (s_reverteffect s)
    (s_endeffect s) (s_format s) (s_onChange s) (s_onUpdate s) g d.

Definition sort_destroy (e : nid) : M () :=
  w ← js_get;
  match sortables (sort_of w) !! element_id (page w) e with
  | None => mret ()
  | Some s =>
      removeObserver (s_element s) ;;
      js_each (s_droppables s) drop_remove ;;
      js_each (s_draggables s) destroy_drag ;;
      w ← js_get;
      change_sort (set_sortables (delete (element_id (page w) (s_element s)) (sortables (sort_of w))))
  end.
Definition set_tree_node (e root : nid) : M () := js_modify (λ w, set_treeNode (<[e := root]> (treeNode w)) w).
(** The items of a list become draggables, which are returned, and droppables. *)
Fixpoint make_items (s : sortable) (items : list nid) : M (list nat) :=
  match items with
  | [] => mret []
  | e :: items =>
      w ← js_get;
      let g := fresh (base.dom (objects (core_of w)) : gset nat) in
      new_draggable computed g e None (options_for_draggable s) ;;
      drop_add computed (options_for_droppable s e) ;;
      js_when (s_tree s) (set_tree_node e (s_element s)) ;;
      gs ← make_items s items;
      mret (g :: gs)
  end.
(** [create], each item being its own handle; the observer calls [OnStart] and
    [OnEnd] by the number of the element. *)
Definition sort_create (e : nid) (options : sortable → sortable) : M () :=
  let s := options (sortable_defaults e) in
  sort_destroy e ;;
  on_page (cleanWhitespace e) ;;
  let empty := s_dropOnEmpty s || s_tree s in
  js_when empty (drop_add computed (options_for_tree s e)) ;;
  d ← js_gets page;
  let items := default [] (findElements d e s) in
  gs ← make_items s items;
  d ← js_gets page;
  let lists := if s_tree s then default [] (findTreeElements d e s) else [] in
  js_each lists (λ l, drop_add computed (options_for_tree s l) ;; set_tree_node l e) ;;
  w ← js_get;
  change_sort (set_sortables (<[element_id (page w) e :=
    with_parts s gs ((if empty then [e] else []) ++ items ++ lists)]> (sortables (sort_of w)))) ;;
  remember e ;;
  addObserver (DragObserver e (λ n, match n with OnStart | OnEnd => Some e | OnDrag => None end)).

(** *** The callbacks of dragging *)
Definition sort_hover (user_hover : nat → nid → nid → num → M ()) (f : nat) : nid → nid → num → M () :=
  match f with
  | O => onHover
  | S O => onEmptyHover
  | S (S f) => user_hover f
  end.
Definition sort_page_call (user_call : page_call → M ()) (c : page_call) : M () :=
  match c with
  | ObserverCall e OnStart _ => remember e
  | ObserverCall e OnEnd _ =>
      w ← js_get;
      observer_end e (sortables (sort_of w) !! element_id (page w) e ≫= s_onUpdate)
  | RevertCall O e _ _ => on_page (put_style e (js "top") (js "0") ;; put_style e (js "left") (js "0"))
  | c => user_call c
  end.
End sortables.

(** ** Lookups do not depend on where other nodes are *)

(** The kind and the attributes of every node are the same. *)
Definition same_labels (d d' : dom) : Prop :=
  ∀ x : nid, (λ n, (kind n, attrs n)) <$> d' !! x = (λ n, (kind n, attrs n)) <$> d !! x.
Lemma same_labels_trans d1 d2 d3 : same_labels d1 d2 → same_labels d2 d3 → same_labels d1 d3.
Proof. intros H1 H2 x. by rewrite H2. Qed.
Lemma content_labels d d' : same_content d d' → same_labels d d'.
Proof.
  intros Hc x. specialize (Hc x). destruct (d !! x) as [n|], (d' !! x) as [n'|]; cbn in *; try done.
  injection Hc as Hk Ha _ _. congruence.
Qed.
Lemma labels_node d d' x n : same_labels d d' → d !! x = Some n → ∃ n', d' !! x = Some n' ∧ kind n' = kind n ∧ attrs n' = attrs n.
Proof. intros Hl Hn. specialize (Hl x). rewrite Hn in Hl. destruct (d' !! x) as [n'|]; [|done]. injection Hl as ??. eauto. Qed.
Lemma labels_none d d' x : same_labels d d' → d !! x = None → d' !! x = None.
Proof. intros Hl Hn. specialize (Hl x). rewrite Hn in Hl. by destruct (d' !! x). Qed.
Lemma labels_id d d' x : same_labels d d' → element_id d' x = element_id d x.
Proof.
  intros Hl. unfold element_id, attr_of. destruct (d !! x) as [n|] eqn:Hn.
  - destruct (labels_node _ _ _ _ Hl Hn) as (n' & -> & _ & Ha). cbn. by rewrite Ha.
  - by rewrite (labels_none _ _ _ Hl Hn).
Qed.
Lemma labels_ident d d' s x : same_labels d d' → item_ident d' s x = item_ident d s x.
Proof. intros Hl. unfold item_ident. by rewrite (labels_id _ _ _ Hl). Qed.
Lemma labels_matches d d' only tag x : same_labels d d' → child_matches d' only tag x = child_matches d only tag x.
Proof.
  intros Hl. unfold child_matches. destruct (d !! x) as [n|] eqn:Hn.
  - destruct (labels_node _ _ _ _ Hl Hn) as (n' & -> & Hk & Ha). unfold is_element, tagName, className. by rewrite Hk, Ha.
  - by rewrite (labels_none _ _ _ Hl Hn).
Qed.
Lemma labels_count d d' : same_labels d d' → node_count d' = node_count d.
Proof.
  intros Hl. unfold node_count. assert (∀ (m : dom), base.size m = base.size ((λ n, (kind n, attrs n)) <$> m)) as Hs
    by (intros m; by rewrite map_size_fmap).
  rewrite (Hs d), (Hs d'). f_equal. apply map_eq. intros x. rewrite !lookup_fmap. apply Hl.
Qed.

(** The root is found over nodes that are where they were. *)
Lemma find_root_agree fuel d d' known e : same_labels d d' →
  (∀ x, x = e ∨ above d e x → parent_of d' x = parent_of d x) → find_root fuel d' known e = find_root fuel d known e.
Proof.
  intros Hl. revert e. induction fuel as [|fuel IH]; intros e Hpar; [done|]. cbn [find_root].
  pose proof (Hpar e (or_introl eq_refl)) as Hpe. unfold parent_of in Hpe.
  destruct (d !! e) as [n|] eqn:Hn; [|by rewrite (labels_none _ _ _ Hl Hn)].
  destruct (labels_node _ _ _ _ Hl Hn) as (n' & Hn' & Hk & _). rewrite Hn' in *. cbn in Hpe.
  unfold is_element, tagName. rewrite Hk, (labels_id _ _ e Hl), Hpe. repeat case_match; try done.
  all: apply IH; intros x [->|Hx]; apply Hpar; right; [apply tc_once|eapply tc_l; [|exact Hx]];
    unfold parent_of; by rewrite Hn.
Qed.
Section lookups.
Context {Y : Type}.
#[local] Abbreviation W := (dnd (drag_state (sort_state Y))).
Lemma sort_options_agree (w w' : W) e o : same_labels (page w) (page w') →
  sortables (sort_of w') = sortables (sort_of w) →
  (∀ x, x = e ∨ above (page w) e x → parent_of (page w') x = parent_of (page w) x) →
  sort_options e w = (Ret o, w) → sort_options e w' = (Ret o, w').
Proof.
  intros Hl Hs Hpar. unfold sort_options. rewrite (labels_count _ _ Hl), Hs, (find_root_agree _ _ _ _ _ Hl Hpar).
  destruct (find_root _ _ _ _) as [[r|]|]; intros [= <-]; [|done]. by rewrite (labels_id _ _ _ Hl).
Qed.
Lemma sort_options_of_run (w : W) e s : sort_options e w = (Ret (Some s), w) → sort_options_of e w = (Ret s, w).
Proof. intros Hr. unfold sort_options_of. by rewrite (js_bind_Ret _ _ _ _ _ Hr). Qed.
End lookups.

(** ** The place of a node among the children *)

Lemma child_split d p x : dom_ok d → parent_of d x = Some p →
  ∃ a b, child_list d (Some p) = a ++ x :: b ∧ (x ∉ a) ∧ (x ∉ b) ∧ nextSibling d x = head b ∧ previousSibling d x = last a.
Proof.
  intros Hd Hp. pose proof (ok_parent d Hd x p Hp) as Hin. pose proof (ok_nodup d Hd p) as Hnd.
  apply list_elem_of_split in Hin as (a & b & Hab). rewrite Hab in Hnd.
  assert ((x ∉ a) ∧ (x ∉ b)) as [Ha Hb].
  { apply NoDup_app in Hnd as (_ & H1 & H2). split; [|by apply NoDup_cons in H2 as [? _]].
    intros Hx. apply (H1 x Hx). by left. }
  exists a, b. split_and!; [done..| |].
  - unfold nextSibling. rewrite Hp, Hab. by apply after_in_app.
  - unfold previousSibling. rewrite Hp, Hab, reverse_app, reverse_cons, <- app_assoc. cbn [app].
    rewrite after_in_app by by rewrite elem_of_reverse. apply head_reverse.
Qed.
Lemma filter_split (e x : nid) a b : x ≠ e →
  filter (λ c, c ≠ e) (a ++ x :: b) = filter (λ c, c ≠ e) a ++ x :: filter (λ c, c ≠ e) b.
Proof. intros Hne. by rewrite filter_app, filter_cons_True. Qed.

(** An item is put next to another: everything else is where it was. *)
Record item_moved (d d' : dom) (element dropon p : nid) (after : bool) : Prop := {
  moved_tree : dom_ok d' ∧ acyclic d';
  moved_labels : same_labels d d';
  moved_parents (x : nid) : parent_of d' x = if decide (x = element) then Some p else parent_of d x;
  moved_others (q : nid) : q ≠ p → child_list d' (Some q) = filter (λ c, c ≠ element) (child_list d (Some q));
  moved_place : ∃ l1 l2 : list nid, filter (λ c, c ≠ element) (child_list d (Some p)) = l1 ++ dropon :: l2 ∧
    child_list d' (Some p) = if after then l1 ++ dropon :: element :: l2 else l1 ++ element :: dropon :: l2;
}.

Section moving.
Context (d : dom) (element dropon p : nid) (Hd : dom_ok d) (Hac : acyclic d) (Hne : element ≠ dropon)
  (Hp : parent_of d dropon = Some p).

(** Nothing is done when the item is there already. *)
Lemma there_already (after : bool) :
  (if after then nextSibling d dropon else previousSibling d dropon) = Some element → item_moved d d element dropon p after.
Proof.
  destruct (child_split d p dropon Hd Hp) as (a & b & Hab & Ha & Hb & Hnext & Hprev). intros Hsib.
  assert (∃ l1 l2 : list nid, child_list d (Some p) = if after then l1 ++ dropon :: element :: l2 else l1 ++ element :: dropon :: l2)
    as (l1 & l2 & Hl).
  { destruct after.
    - rewrite Hnext in Hsib. destruct b as [|x b]; [done|]. injection Hsib as ->. eauto.
    - rewrite Hprev in Hsib. apply last_Some in Hsib as [a' ->]. exists a', b. by rewrite Hab, <- app_assoc. }
  pose proof (ok_nodup d Hd p) as Hnd.
  assert (parent_of d element = Some p) as Hpar by (apply (ok_child d Hd); rewrite Hl; destruct after; set_solver).
  split; [done|done| | |].
  - intros x. by case_decide; subst.
  - intros q Hq. symmetry. apply filter_absent. intros Hin%(ok_child d Hd). congruence.
  - exists l1, l2. split; [|done]. rewrite Hl in *.
    assert ((element ∉ l1) ∧ (element ∉ l2)) as [H1 H2].
    { destruct after; apply NoDup_app in Hnd as (_ & Hx & Hy); rewrite !NoDup_cons in Hy; set_solver. }
    destruct after; rewrite !filter_app; cbn [app].
    + rewrite filter_cons_True, filter_cons_False, !filter_absent by (done || naive_solver). done.
    + rewrite filter_cons_False, filter_cons_True, !filter_absent by (done || naive_solver). done.
Qed.

(** Put before an item, or before the one that follows it. *)
Lemma insert_moved (after : bool) : is_Some (d !! element) → ¬ above d dropon element →
  (if after then nextSibling d dropon else previousSibling d dropon) ≠ Some element →
  ∃ d', insertBefore p element (if after then nextSibling d dropon else Some dropon) d = (Ret (), d') ∧
    item_moved d d' element dropon p after.
Proof.
  intros He Hab Hsib. destruct (child_split d p dropon Hd Hp) as (a & b & Hl & Ha & Hb & Hnext & Hprev).
  assert (element ≠ p) as Hep by (intros ->; apply Hab; by apply tc_once).
  assert (¬ above d p element) as Habp by (intros Hx; apply Hab; by eapply tc_l).
  assert (is_Some (d !! p)) as Hpd.
  { destruct (d !! p) as [n|] eqn:Hn; [eauto|]. cbn in Hl. rewrite Hn in Hl. by destruct a. }
  set (ref := if after then nextSibling d dropon else Some dropon).
  assert (ref ≠ Some element) as Href by (subst ref; destruct after; congruence).
  destruct (insertBefore_run d p element ref Hd Hac Hpd He Hep Habp) as (d' & Hr & Hc & Hok & Hac' & Hpo & Hch).
  { subst ref. destruct after; [|done]. rewrite Hnext. destruct b as [|r b]; [done|]. cbn. apply (ok_child d Hd).
    rewrite Hl. set_solver. }
  exists d'. split; [done|]. unfold place_before in Hch. rewrite bool_decide_eq_false_2 in Hch by done.
  split; [done|by apply content_labels|done| |].
  - intros q Hq. rewrite Hch. unfold moved_children. by rewrite decide_False.
  - exists (filter (λ c, c ≠ element) a), (filter (λ c, c ≠ element) b).
    rewrite Hch. unfold moved_children. rewrite decide_True, Hl, filter_split by done. split; [done|].
    assert (dropon ∉ filter (λ c, c ≠ element) a) as Hfa by (intros [_ ?]%list_elem_of_filter; done).
    subst ref. destruct after; [|by apply put_before_at]. rewrite Hnext in Href |- *. destruct b as [|r b]; cbn [head] in *.
    + rewrite put_before_end, <- app_assoc. done.
    + rewrite filter_cons_True by congruence. rewrite cons_middle, app_assoc, put_before_at.
      * by rewrite <- app_assoc.
      * pose proof (ok_nodup d Hd p) as Hnd. rewrite Hl in Hnd. apply NoDup_app in Hnd as (_ & Hx & Hy).
        intros [[_ Hin]%list_elem_of_filter|Hin%list_elem_of_singleton]%elem_of_app; [|set_solver].
        apply (Hx r Hin). set_solver.
Qed.
End moving.

(** Setting a style moves nothing. *)
Lemma placed_above d d' x a : (∀ y, parent_of d' y = parent_of d y) → above d' x a → above d x a.
Proof. intros Hp. induction 1 as [x y Hy|x y z Hy _ IH]; [apply tc_once|eapply tc_l; [|exact IH]]; congruence. Qed.
Record same_places (d d' : dom) : Prop := {
  same_parents x : parent_of d' x = parent_of d x;
  same_children q : child_list d' (Some q) = child_list d (Some q);
  same_places_labels : same_labels d d';
}.
Lemma same_places_tree d d' : same_places d d' → dom_ok d → acyclic d → dom_ok d' ∧ acyclic d'.
Proof.
  intros [Hp Hc _] [H1 H2 H3] [depth Hdep]. split; [split|exists depth]; intros *; rewrite ?Hp, ?Hc; auto.
Qed.
Lemma same_places_next d d' x : same_places d d' → nextSibling d' x = nextSibling d x.
Proof. intros [Hp Hc _]. unfold nextSibling. rewrite Hp. destruct (parent_of d x); [by rewrite Hc|done]. Qed.
Lemma same_places_previous d d' x : same_places d d' → previousSibling d' x = previousSibling d x.
Proof. intros [Hp Hc _]. unfold previousSibling. rewrite Hp. destruct (parent_of d x); [by rewrite Hc|done]. Qed.
Lemma style_places d e k v n : d !! e = Some n → same_places d (<[e := style_put k v n]> d).
Proof.
  intros Hn. destruct (update_placed e (style_put k v) d n Hn ltac:(done)) as [Hp Hc]. split; [done|done|].
  intros x. destruct (decide (x = e)) as [->|]; [by rewrite lookup_insert_eq, Hn|by rewrite lookup_insert_ne].
Qed.
Lemma same_places_moved d d1 d2 element dropon p after :
  same_places d d1 → item_moved d1 d2 element dropon p after → item_moved d d2 element dropon p after.
Proof.
  intros [Hp Hc Hl] [Ht Hlab Hpar Hoth Hpl]. split; [done|by eapply same_labels_trans| | |].
  - intros x. by rewrite Hpar, Hp.
  - intros q Hq. by rewrite Hoth, Hc.
  - by rewrite <- Hc.
Qed.

Section hover.
Context {Y : Type} (layout : dom → nid → geometry).
#[local] Abbreviation W := (dnd (drag_state (sort_state Y))).
#[local] Abbreviation M := (JS W).
Context (call_sort : nat → nid → M ()).
(** [onChange] returns, and leaves the document and the sortables alone. *)
Definition leaves_page (m : M ()) : Prop :=
  ∀ w, ∃ w', m w = (Ret (), w') ∧ page w' = page w ∧ sortables (sort_of w') = sortables (sort_of w).
Context (Hcall : ∀ f e, leaves_page (call_sort f e)).

Lemma changed_run s e : leaves_page (changed call_sort s e).
Proof. unfold changed. destruct (s_onChange s); [apply Hcall|]. intros w. by exists w. Qed.

(** The lists an element and the item below the pointer are in. *)
Record in_lists (w : W) (element dropon p q : nid) (sp sq sd : sortable) : Prop := {
  lists_tree : dom_ok (page w) ∧ acyclic (page w);
  lists_ne : element ≠ dropon;
  lists_dropon : parent_of (page w) dropon = Some p;
  lists_element : parent_of (page w) element = Some q;
  lists_p : sort_options p w = (Ret (Some sp), w);
  lists_q : sort_options q w = (Ret (Some sq), w);
  lists_d : sort_options dropon w = (Ret (Some sd), w);
  lists_plain : s_ghosting sp = false;
}.

Lemma mark_run (w : W) element dropon p q sp sq sd after : in_lists w element dropon p q sp sq sd →
  mark layout dropon after w = (Ret (), w).
Proof.
  intros [_ _ Hd _ Hp _ _ Hg]. unfold mark. rewrite js_bind_gets, Hd, (js_bind_Ret _ _ _ _ _ Hp), Hg. done.
Qed.

(** The lists outside the element that was moved are found as before. *)
Lemma options_after (w w2 : W) element dropon p after y s : item_moved (page w) (page w2) element dropon p after →
  sortables (sort_of w2) = sortables (sort_of w) → y ≠ element → ¬ above (page w) y element →
  sort_options y w = (Ret (Some s), w) → sort_options_of y w2 = (Ret s, w2).
Proof.
  intros Hm Hs2 Hy Hay Hs. apply sort_options_of_run. eapply sort_options_agree; [..|exact Hs].
  - apply (moved_labels _ _ _ _ _ _ Hm).
  - done.
  - intros x Hx. rewrite (moved_parents _ _ _ _ _ _ Hm). apply decide_False. intros ->. naive_solver.
Qed.
Lemma move_item_run (w : W) element dropon p q sp sq sd (after : bool) : in_lists w element dropon p q sp sq sd →
  ¬ above (page w) dropon element →
  (if after then nextSibling (page w) dropon else previousSibling (page w) dropon) ≠ Some element →
  ∃ w', move_item call_sort element p (if after then nextSibling (page w) dropon else Some dropon) w = (Ret (), w') ∧
    item_moved (page w) (page w') element dropon p after.
Proof.
  intros [[Hd Hac] Hne Hp Hq Hsp Hsq _ _] Hab Hsib.
  assert (∃ n, page w !! element = Some n) as [n Hn] by (unfold parent_of in Hq; destruct (page w !! element); eauto; done).
  set (d1 := <[element := style_put (js "visibility") (js "hidden") n]> (page w)).
  pose proof (style_places (page w) element (js "visibility") (js "hidden") n Hn) as Hpl. fold d1 in Hpl.
  destruct (same_places_tree _ _ Hpl Hd Hac) as [Hd1 Hac1].
  destruct (insert_moved d1 element dropon p Hd1 Hac1 Hne) with (after := after) as (d2 & Hr & Hm).
  { by rewrite (same_parents _ _ Hpl). }
  { subst d1. rewrite lookup_insert_eq. eauto. }
  { intros Hx. apply Hab. eapply placed_above; [|exact Hx]. apply (same_parents _ _ Hpl). }
  { by rewrite (same_places_next _ _ _ Hpl), (same_places_previous _ _ _ Hpl). }
  rewrite (same_places_next _ _ _ Hpl) in Hr. apply (same_places_moved (page w)) in Hm; [|done].
  assert (∀ (w2 : W) y s, page w2 = d2 → sortables (sort_of w2) = sortables (sort_of w) → y ≠ element →
    ¬ above (page w) y element → sort_options y w = (Ret (Some s), w) → sort_options_of y w2 = (Ret s, w2)) as Hopt
    by (intros w2 y s <-; by apply (options_after w w2 element dropon p after)).
  assert (q ≠ element ∧ ¬ above (page w) q element) as [Hqe Hqa].
  { split; [intros ->; by apply (acyclic_above (page w) element), tc_once|].
    intros Hx. apply (acyclic_above (page w) element Hac). by eapply tc_l. }
  assert (p ≠ element ∧ ¬ above (page w) p element) as [Hpe Hpa].
  { split; [intros ->; by apply Hab, tc_once|]. intros Hx. apply Hab. by eapply tc_l. }
  unfold move_item. rewrite js_bind_gets, Hq.
  assert (on_page (put_style element (js "visibility") (js "hidden")) w =
    (Ret (), Dnd d1 (drops w) (last_active w) (treeNode w) (next_drop w) (rest w))) as Hr1
    by (unfold on_page; by rewrite (put_style_run _ _ _ _ _ Hn)).
  rewrite (js_bind_Ret _ _ _ _ _ Hr1).
  set (w1 := Dnd d1 _ _ _ _ _) in *. set (w2 := Dnd d2 (drops w) (last_active w) (treeNode w) (next_drop w) (rest w)).
  assert (on_page (insertBefore p element (if after then nextSibling (page w) dropon else Some dropon)) w1 = (Ret (), w2)) as Hr2.
  { unfold on_page. cbn [page w1]. by rewrite Hr. }
  rewrite (js_bind_Ret _ _ _ _ _ Hr2).
  assert (∃ w3, js_when (bool_decide (Some q ≠ Some p)) (s ← sort_options_of q; changed call_sort s element) w2 = (Ret (), w3) ∧
    page w3 = d2 ∧ sortables (sort_of w3) = sortables (sort_of w)) as (w3 & Hr3 & Hp3 & Hs3).
  { case_bool_decide; cbn [js_when]; [|by exists w2].
    rewrite (js_bind_Ret _ _ _ _ _ (Hopt w2 q sq eq_refl eq_refl Hqe Hqa Hsq)).
    destruct (changed_run sq element w2) as (w3 & ? & ? & ?). eauto. }
  rewrite (js_bind_Ret _ _ _ _ _ Hr3), (js_bind_Ret _ _ _ _ _ (Hopt w3 p sp Hp3 Hs3 Hpe Hpa Hsp)).
  destruct (changed_run sp element w3) as (w4 & Hr4 & Hp4 & _). exists w4. split; [done|]. by rewrite Hp4, Hp3.
Qed.

(** C20. Hovering over an item of a sortable list. When the item lies inside the
    dragged element, or is in a tree and hovered in its middle, nothing
    happens. Otherwise the element is put directly before the item, when they
    overlap by more than half, or directly after it; it leaves its old list,
    every other node keeps its parent and its order among the others, nothing
    is lost, and the document is still a tree. *)
Theorem sort_hover_spec (w : W) element dropon overlap p q sp sq sd :
  in_lists w element dropon p q sp sq sd →
  ∃ w', onHover layout call_sort element dropon overlap w = (Ret (), w') ∧
    if is_parent (page w) dropon element ||
       (num_gtb overlap (lit (QArith_base.Qmake 33 100)) && num_ltb overlap (lit (QArith_base.Qmake 66 100)) && s_tree sd)
    then w' = w
    else item_moved (page w) (page w') element dropon p (negb (num_gtb overlap (lit (QArith_base.Qmake 1 2)))).
Proof.
  intros Hin. pose proof Hin as [[Hd Hac] Hne Hp Hq Hsp Hsq Hsd Hg]. unfold onHover. rewrite js_bind_gets.
  destruct (is_parent (page w) dropon element) eqn:Hpar; cbn [orb]; [by exists w|].
  assert (¬ above (page w) dropon element) as Hab by (rewrite <- is_parent_iff, Hpar; done).
  assert (in_middle dropon overlap w = (Ret (num_gtb overlap (lit (QArith_base.Qmake 33 100)) &&
    num_ltb overlap (lit (QArith_base.Qmake 66 100)) && s_tree sd), w)) as Hmid.
  { unfold in_middle. destruct (num_gtb overlap _ && num_ltb overlap _); cbn [andb]; [|done].
    by rewrite (js_bind_Ret _ _ _ _ _ (sort_options_of_run _ _ _ Hsd)). }
  rewrite (js_bind_Ret _ _ _ _ _ Hmid). destruct (num_gtb _ _ && num_ltb _ _ && s_tree sd); [by exists w|].
  assert (∀ after : bool, ∃ w', js_when (bool_decide ((if after then nextSibling (page w) dropon
      else previousSibling (page w) dropon) ≠ Some element))
      (move_item call_sort element p (if after then nextSibling (page w) dropon else Some dropon)) w = (Ret (), w') ∧
    item_moved (page w) (page w') element dropon p after) as Hmove.
  { intros after. case_bool_decide as Hsib; cbn [js_when].
    - by eapply move_item_run.
    - exists w. split; [done|]. apply there_already; try done. }
  destruct (num_gtb overlap (lit (QArith_base.Qmake 1 2))); cbn [negb].
  - rewrite (js_bind_Ret _ _ _ _ _ (mark_run _ _ _ _ _ _ _ _ false Hin)), js_bind_gets, Hp. apply (Hmove false).
  - rewrite (js_bind_Ret _ _ _ _ _ (mark_run _ _ _ _ _ _ _ _ true Hin)), js_bind_gets, Hp. apply (Hmove true).
Qed.
End hover.

(** ** Setting the order *)

Lemma flat_items d e s : s_tree s = false →
  default [] (findElements d e s) = List.filter (child_matches d (s_only s) (s_tag s)) (child_list d (Some e)).
Proof.
  intros Ht. unfold findElements, findChildren. rewrite Ht. cbn [find_children].
  assert (∀ l : list nid, (l ≫= λ c, (if child_matches d (s_only s) (s_tag s) c then [c] else []) ++ []) =
    List.filter (child_matches d (s_only s) (s_tag s)) l) as Hl.
  { induction l as [|c l IH]; [done|]. rewrite bind_cons, IH. cbn. by destruct (child_matches _ _ _ c). }
  destruct (child_list d (Some e)) as [|c l] eqn:E; [done|]. apply (Hl (c :: l)).
Qed.

Section items.
Context {A : Type} (ident : A → jsstr) {B : Type} (value : A → B).
Lemma assoc_get_items (l : list A) i :
  match assoc_get i ((λ x, (ident x, value x)) <$> l) with
  | Some v => ∃ x, x ∈ l ∧ ident x = i ∧ v = value x
  | None => i ∉ ident <$> l
  end.
Proof.
  induction l as [|x l IH]; [apply not_elem_of_nil|]. rewrite !fmap_cons, assoc_get_cons. case_decide as Hx.
  - exists x. split_and!; [by left|done|done].
  - destruct (assoc_get _ _) as [v|]; [|by apply not_elem_of_cons].
    destruct IH as (y & Hy & ? & ?). exists y. split_and!; [by right|done|done].
Qed.
Lemma assoc_del_items (l : list A) i : NoDup (ident <$> l) →
  assoc_del i ((λ x, (ident x, value x)) <$> l) = (λ x, (ident x, value x)) <$> filter (λ x, ident x ≠ i) l.
Proof.
  induction l as [|x l IH]; [done|]. rewrite !fmap_cons, NoDup_cons. intros [Hx Hl]. cbn [assoc_del]. case_decide as Hi.
  - rewrite filter_cons_False by tauto. f_equal. symmetry. clear IH Hl.
    induction l as [|y l IH]; [done|]. rewrite fmap_cons in Hx. apply not_elem_of_cons in Hx as [Hxy Hx].
    rewrite filter_cons_True by congruence. f_equal. by apply IH.
  - rewrite filter_cons_True by done. cbn. f_equal. by apply IH.
Qed.
Lemma assoc_set_items (l : list A) x : ident x ∉ ident <$> l →
  assoc_set (ident x) (value x) ((λ x, (ident x, value x)) <$> l) = (λ x, (ident x, value x)) <$> (l ++ [x]).
Proof.
  induction l as [|y l IH]; cbn; [done|]. intros [Hy Hl]%not_elem_of_cons. rewrite decide_False by congruence.
  by rewrite IH.
Qed.
End items.

Section arranging.
Context (d0 : dom) (e : nid) (items : list nid).
Context (Hok0 : dom_ok d0) (Hac0 : acyclic d0) (Hitems : ∀ x, x ∈ items → parent_of d0 x = Some e).

(** The document while the items of [e] are taken out and put back: [l] are
    the children of [e]. *)
Record arranged (d : dom) (l : list nid) : Prop := {
  ar_labels : same_labels d0 d;
  ar_ok : dom_ok d;
  ar_children : child_list d (Some e) = l;
  ar_parent x : parent_of d x =
    if decide (x ∈ items) then (if decide (x ∈ l) then Some e else None) else parent_of d0 x;
}.
Lemma arranged_start : arranged d0 (child_list d0 (Some e)).
Proof.
  split; try done. intros x. case_decide as Hx; [|done]. rewrite decide_True; [by apply Hitems|].
  by apply (ok_parent d0 Hok0), Hitems.
Qed.
Lemma arranged_parent d l x p : arranged d l → parent_of d x = Some p → parent_of d0 x = Some p.
Proof. intros Ha. rewrite (ar_parent _ _ Ha). repeat case_decide; try done. intros [= <-]. by apply Hitems. Qed.
Lemma arranged_above d l x a : arranged d l → above d x a → above d0 x a.
Proof.
  intros Ha. induction 1 as [x y Hy|x y z Hy _ IH].
  - apply tc_once. by eapply arranged_parent.
  - eapply tc_l; [|exact IH]. by eapply arranged_parent.
Qed.
Lemma arranged_acyclic d l : arranged d l → acyclic d.
Proof. intros Ha. destruct Hac0 as [depth Hd]. exists depth. intros x p Hp. eapply Hd, arranged_parent; done. Qed.
Lemma item_not_above x : x ∈ items → e ≠ x ∧ ¬ above d0 e x.
Proof.
  intros Hx. specialize (Hitems x Hx). split.
  - intros <-. by apply (acyclic_above d0 e), tc_once.
  - intros Ha. apply (acyclic_above d0 x Hac0). by eapply tc_l.
Qed.
Lemma item_there d l x : arranged d l → x ∈ items → is_Some (d !! x) ∧ is_Some (d !! e).
Proof.
  intros Ha Hx. pose proof (ar_labels _ _ Ha) as Hl. pose proof (Hitems x Hx) as Hp.
  pose proof (ok_parent d0 Hok0 _ _ Hp) as Hin. unfold parent_of in Hp.
  assert (∀ y, is_Some (d0 !! y) → is_Some (d !! y)) as Hy.
  { intros y [n Hn]. destruct (labels_node _ _ _ _ Hl Hn) as (n' & -> & _). eauto. }
  split; apply Hy.
  - by destruct (d0 !! x).
  - cbn in Hin. destruct (d0 !! e); [eauto|by apply not_elem_of_nil in Hin].
Qed.

Lemma arranged_remove d l x : arranged d l → x ∈ items → x ∈ l →
  ∃ d', removeChild e x d = (Ret (), d') ∧ arranged d' (filter (λ c, c ≠ x) l).
Proof.
  intros Ha Hx Hl. pose proof (ar_ok _ _ Ha) as Hok. destruct (item_there _ _ _ Ha Hx) as [[n Hn] _].
  assert (parent_of d x = Some e) as Hp by (rewrite (ar_parent _ _ Ha), !decide_True by done; done).
  destruct (detach_run d x Hok (arranged_acyclic _ _ Ha)) as (d' & Hr & Hc & Hpo & Hch).
  unfold detach in Hr. rewrite js_bind_get, Hp in Hr.
  destruct (remove_ok d x e Hok Hp) as (d'' & Hr2 & Hok' & _); [apply not_eq_sym, not_eq_sym; by apply item_not_above|].
  assert (d'' = d') as ->.
  { unfold remove in Hr2. assert (get_node x d = (Ret n, d)) as Hg by (unfold get_node; by rewrite Hn).
    rewrite (js_bind_Ret _ _ _ _ _ Hg) in Hr2. unfold parent_of in Hp. rewrite Hn in Hp. cbn in Hp. rewrite Hp in Hr2. congruence. }
  exists d'. split; [done|]. split; [|done| |].
  - eapply same_labels_trans; [apply (ar_labels _ _ Ha)|by apply content_labels].
  - by rewrite Hch, (ar_children _ _ Ha).
  - intros y. rewrite Hpo, (ar_parent _ _ Ha). destruct (decide (y = x)) as [->|Hy].
    + rewrite decide_True by done. rewrite decide_False; [done|]. by intros [? _]%list_elem_of_filter.
    + case_decide; [|done]. repeat case_decide; try done; rewrite list_elem_of_filter in *; tauto.
Qed.
Lemma arranged_append d l x : arranged d l → x ∈ items → x ∉ l →
  ∃ d', appendChild e x d = (Ret (), d') ∧ arranged d' (l ++ [x]).
Proof.
  intros Ha Hx Hl. destruct (item_there _ _ _ Ha Hx) as [Hxd Hed]. destruct (item_not_above x Hx) as [Hne Hab].
  destruct (insertBefore_run d e x None (ar_ok _ _ Ha) (arranged_acyclic _ _ Ha) Hed Hxd) as
    (d' & Hr & Hc & Hok & _ & Hpo & Hch); [done|intros ?; by eapply Hab, arranged_above|done|].
  exists d'. split; [exact Hr|]. split; [|done| |].
  - eapply same_labels_trans; [apply (ar_labels _ _ Ha)|by apply content_labels].
  - rewrite Hch. unfold moved_children, place_before. rewrite decide_True, bool_decide_eq_false_2 by done.
    by rewrite (ar_children _ _ Ha), filter_absent, put_before_end.
  - intros y. rewrite Hpo. unfold moved_parent. rewrite (ar_parent _ _ Ha). destruct (decide (y = x)) as [->|Hy].
    + rewrite !decide_True by (done || set_solver). done.
    + case_decide; [|done]. repeat case_decide; try done; set_solver.
Qed.
End arranging.

Section sequences.
Context {Y : Type}.
#[local] Abbreviation W := (dnd (drag_state (sort_state Y))).
Context (d0 : dom) (e : nid) (s : sortable) (items : list nid).
Context (Hok0 : dom_ok d0) (Hac0 : acyclic d0) (Hitems : ∀ x, x ∈ items → parent_of d0 x = Some e).
Definition ident_of (x : nid) : jsstr := default [] (item_ident d0 s x).
Context (Hident : ∀ x, x ∈ items → is_Some (item_ident d0 s x)) (Hdistinct : NoDup (ident_of <$> items)).

Definition at_page (w : W) (d : dom) : W := Dnd d (drops w) (last_active w) (treeNode w) (next_drop w) (rest w).
Lemma on_page_run {A} (m : D A) (w : W) d a d' : m d = (Ret a, d') → on_page m (at_page w d) = (Ret a, at_page w d').
Proof. intros Hr. unfold on_page. cbn. by rewrite Hr. Qed.
Lemma ident_run x d : x ∈ items → same_labels d0 d → item_ident d s x = Some (ident_of x).
Proof. intros Hx Hl. rewrite (labels_ident _ _ _ _ Hl). unfold ident_of. by destruct (Hident x Hx) as [i ->]. Qed.

Lemma take_items_run (w : W) (its seen : list nid) d l : arranged d0 e items d l →
  items = seen ++ its → (∀ x, x ∈ its → x ∈ l) →
  ∃ d', take_items s ((λ x, (ident_of x, (x, e))) <$> seen) its (at_page w d) =
      (Ret ((λ x, (ident_of x, (x, e))) <$> items), at_page w d') ∧
    arranged d0 e items d' (filter (λ c, c ∉ its) l).
Proof.
  revert seen d l. induction its as [|x its IH]; intros seen d l Ha Hsplit Hin; cbn [take_items].
  { exists d. rewrite app_nil_r in Hsplit. subst. split; [done|].
    replace (filter _ l) with l; [done|]. clear. induction l; [done|].
    rewrite filter_cons_True by apply not_elem_of_nil. by f_equal. }
  assert (x ∈ items) as Hx by set_solver. pose proof (Hin x (list_elem_of_here _ _)) as Hxl.
  destruct (arranged_remove d0 e items Hok0 Hac0 Hitems d l x Ha Hx Hxl) as (d1 & Hr & Ha1).
  assert (NoDup items) as Hnd by by eapply NoDup_fmap_1.
  assert (take_item s ((λ x, (ident_of x, (x, e))) <$> seen) x (at_page w d) =
    (Ret ((λ x, (ident_of x, (x, e))) <$> (seen ++ [x])), at_page w d1)) as Htake.
  { unfold take_item. rewrite js_bind_gets. cbn [page at_page].
    rewrite (ar_parent _ _ _ _ _ Ha), !decide_True by done.
    rewrite (js_bind_Ret _ _ _ _ _ (on_page_run _ w _ _ _ Hr)), (ident_run x d Hx (ar_labels _ _ _ _ _ Ha)).
    rewrite <- (assoc_set_items ident_of (λ x, (x, e))); [done|]. intros Hin'.
    rewrite Hsplit, fmap_app, fmap_cons in Hdistinct. apply NoDup_app in Hdistinct as (_ & Hd & _).
    apply (Hd _ Hin'). by left. }
  rewrite (js_bind_Ret _ _ _ _ _ Htake).
  destruct (IH (seen ++ [x]) d1 _ Ha1) as (d2 & Hr2 & Ha2).
  - by rewrite <- app_assoc.
  - intros y Hy. apply list_elem_of_filter. split; [|by apply Hin; right]. intros ->.
    rewrite Hsplit in Hnd. apply NoDup_app in Hnd as (_ & _ & Hnd). by apply NoDup_cons in Hnd as [? _].
  - exists d2. split; [done|]. rewrite list_filter_filter in Ha2.
    erewrite list_filter_iff; [exact Ha2|]. intros y. cbn. set_solver.
Qed.

Lemma put_items_run (w : W) (ns : list jsstr) (its : list nid) d l : arranged d0 e items d l →
  (∀ x, x ∈ its → x ∈ items ∧ (x ∉ l)) → NoDup (ident_of <$> its) → NoDup ns →
  Forall (λ i, i ∈ ident_of <$> its ∨ i ∉ object_prototype) ns →
  ∃ d' back, put_items ((λ x, (ident_of x, (x, e))) <$> its) ns (at_page w d) = (Ret (), at_page w d') ∧
    arranged d0 e items d' (l ++ back) ∧ back ⊆ its ∧ ident_of <$> back = filter (λ i, i ∈ ident_of <$> its) ns.
Proof.
  revert its d l. induction ns as [|i ns IH]; intros its d l Ha Hits Hnd Hns Hknown; cbn [put_items].
  { exists d, []. rewrite app_nil_r. split_and!; [done|done|apply list_subseteq_nil|done]. }
  apply NoDup_cons in Hns as [Hi Hns]. apply Forall_cons in Hknown as [Hik Hknown].
  pose proof (assoc_get_items ident_of (λ x, (x, e)) its i) as Hget. destruct (assoc_get i _) as [v|].
  - destruct Hget as (x & Hx & Hxi & ->). destruct (Hits x Hx) as [Hxit Hxl].
    destruct (arranged_append d0 e items Hok0 Hac0 Hitems d l x Ha Hxit Hxl) as (d1 & Hr & Ha1).
    rewrite (js_bind_Ret _ _ _ _ _ (on_page_run _ w _ _ _ Hr)), (assoc_del_items ident_of (λ x, (x, e))) by done.
    set (its' := filter (λ y, ident_of y ≠ i) its).
    assert (∀ j, j ∈ ident_of <$> its' ↔ j ∈ ident_of <$> its ∧ j ≠ i) as Hidents.
    { intros j. rewrite !list_elem_of_fmap. unfold its'. setoid_rewrite list_elem_of_filter. naive_solver. }
    destruct (IH its' d1 (l ++ [x]) Ha1) as (d2 & back & Hr2 & Ha2 & Hsub & Hback).
    + intros y [Hyi Hy]%list_elem_of_filter. destruct (Hits y Hy) as [? Hyl]. split; [done|].
      intros [?| ->%list_elem_of_singleton]%elem_of_app; congruence.
    + unfold its'. apply (sublist_NoDup _ (ident_of <$> its)); [done|apply fmap_sublist, sublist_filter].
    + done.
    + rewrite Forall_forall in Hknown |- *. intros j Hj. destruct (Hknown j Hj) as [?|?]; [left|by right].
      apply Hidents. split; [done|congruence].
    + exists d2, (x :: back). split_and!; [done|by rewrite <- app_assoc in Ha2| |].
      * intros y [->|Hy]%elem_of_cons; [done|]. apply Hsub, list_elem_of_filter in Hy. tauto.
      * rewrite fmap_cons, Hxi, Hback, filter_cons_True by (apply list_elem_of_fmap; eauto). f_equal.
        rewrite <- (filter_absent i ns Hi) at 2. rewrite list_filter_filter. apply list_filter_iff, Hidents.
  - rewrite bool_decide_eq_false_2 by tauto. destruct (IH its d l Ha Hits Hnd Hns Hknown) as (d1 & back & ? & ? & ? & ?).
    exists d1, back. split_and!; [done..|]. by rewrite filter_cons_False.
Qed.
End sequences.

Lemma bool_filter_elem {A} (f : A → bool) (l : list A) x : x ∈ List.filter f l ↔ x ∈ l ∧ f x = true.
Proof. by rewrite !list_elem_of_In, List.filter_In. Qed.
Lemma bool_filter_all {A} (f : A → bool) (l : list A) : (∀ x, x ∈ l → f x = true) → List.filter f l = l.
Proof.
  induction l as [|x l IH]; [done|]. intros Hf. cbn. rewrite (Hf x) by left. f_equal. apply IH. intros y Hy. apply Hf. by right.
Qed.
Lemma bool_filter_none {A} (f : A → bool) (l : list A) : (∀ x, x ∈ l → f x = false) → List.filter f l = [].
Proof.
  induction l as [|x l IH]; [done|]. intros Hf. cbn. rewrite (Hf x) by left. apply IH. intros y Hy. apply Hf. by right.
Qed.

Lemma nodup_fmap_inj {A B} (f : A → B) l x y : NoDup (f <$> l) → x ∈ l → y ∈ l → f x = f y → x = y.
Proof.
  intros Hnd [i Hi]%list_elem_of_lookup [j Hj]%list_elem_of_lookup Hf.
  assert (i = j) as ->; [|congruence]. eapply (NoDup_lookup (f <$> l)); [done| |].
  - rewrite list_lookup_fmap, Hi. reflexivity.
  - rewrite list_lookup_fmap, Hj. cbn. by rewrite Hf.
Qed.

Section set_sequence.
Context {Y : Type}.
#[local] Abbreviation W := (dnd (drag_state (sort_state Y))).
Lemma sequence_run (w : W) e s : sort_options e w = (Ret (Some s), w) →
  sequence e w = (Ret (ident_of (page w) s <$> default [] (findElements (page w) e s)), w).
Proof. intros Hs. unfold sequence. by rewrite (js_bind_Ret _ _ _ _ _ (sort_options_of_run _ _ _ Hs)), js_bind_gets. Qed.

(** C21. [setSequence] and [sequence] of a list that is not a tree, whose items
    have distinct identifiers by its format: after the order is set,
    [sequence] reads the given order back, less the identifiers no item has;
    the items whose identifiers are not given are taken out of the document,
    and other nodes keep their parents. *)
Theorem set_sequence_roundtrip (w : W) e s ns :
  let items := default [] (findElements (page w) e s) in
  dom_ok (page w) → acyclic (page w) → sort_options e w = (Ret (Some s), w) → s_tree s = false →
  child_list (page w) (Some e) ≠ [] → (∀ x, x ∈ items → is_Some (item_ident (page w) s x)) →
  NoDup (ident_of (page w) s <$> items) → NoDup ns →
  Forall (λ i, i ∈ ident_of (page w) s <$> items ∨ i ∉ object_prototype) ns →
  ∃ w', setSequence e ns w = (Ret (), w') ∧ dom_ok (page w') ∧
    sequence e w' = (Ret (filter (λ i, i ∈ ident_of (page w) s <$> items) ns), w') ∧
    ∀ x, parent_of (page w') x =
      if decide (x ∈ items ∧ ident_of (page w) s x ∉ ns) then None else parent_of (page w) x.
Proof.
  intros items Hok Hac Hs Htree Hne Hident Hdist Hns Hknown. set (d0 := page w) in *.
  assert (items = List.filter (child_matches d0 (s_only s) (s_tag s)) (child_list d0 (Some e))) as Hflat by by apply flat_items.
  assert (∀ x, x ∈ items → parent_of d0 x = Some e) as Hitems.
  { intros x. rewrite Hflat, bool_filter_elem. intros [Hx _]. by apply (ok_child d0 Hok). }
  assert (∀ x, x ∈ items → x ∈ child_list d0 (Some e)) as Hin by (intros x Hx; by apply (ok_parent d0 Hok), Hitems).
  destruct (take_items_run d0 e s items Hok Hac Hitems Hident Hdist w items [] d0 _ (arranged_start d0 e items Hok Hitems)
    eq_refl Hin) as (d1 & Hr1 & Ha1).
  destruct (put_items_run d0 e s items Hok Hac Hitems w ns items d1 _ Ha1) as (d2 & back & Hr2 & Ha2 & Hsub & Hback);
    [|done..|].
  { intros x Hx. split; [done|]. by intros [? _]%list_elem_of_filter. }
  pose proof (ar_parent _ _ _ _ _ Ha2) as Hpar. pose proof (ar_labels _ _ _ _ _ Ha2) as Hlab.
  exists (at_page w d2). split_and!.
  - unfold setSequence. rewrite (js_bind_Ret _ _ _ _ _ (sort_options_of_run _ _ _ Hs)), js_bind_gets. fold d0.
    assert (findElements d0 e s = Some items) as ->.
    { subst items. unfold findElements, findChildren. cbn [find_children]. by destruct (child_list d0 (Some e)). }
    assert (at_page w d0 = w) as Hw by by destruct w. rewrite Hw in Hr1. by rewrite (js_bind_Ret _ _ _ _ _ Hr1).
  - apply (ar_ok _ _ _ _ _ Ha2).
  - rewrite (sequence_run _ e s).
    + cbn [page at_page]. do 2 f_equal. rewrite flat_items, (ar_children _ _ _ _ _ Ha2), List.filter_app by done.
      rewrite bool_filter_none, bool_filter_all.
      * rewrite <- Hback. apply list_fmap_ext. intros _ x _. unfold ident_of. by rewrite (labels_ident _ _ _ _ Hlab).
      * intros x Hx%Hsub. rewrite (labels_matches _ _ _ _ _ Hlab). rewrite Hflat in Hx. by apply bool_filter_elem in Hx as [_ ?].
      * intros x [Hx Hl]%list_elem_of_filter. rewrite (labels_matches _ _ _ _ _ Hlab).
        apply not_true_is_false. intros Hm. apply Hx. rewrite Hflat. by apply bool_filter_elem.
    + eapply sort_options_agree; [exact Hlab|done| |exact Hs]. intros x Hx. cbn. rewrite Hpar, decide_False; [done|].
      intros Hxi. destruct (item_not_above d0 e items Hac Hitems x Hxi). naive_solver.
  - intros x. cbn [page at_page]. rewrite Hpar. destruct (decide (x ∈ items)) as [Hx|Hx].
    2: { rewrite decide_False; [done|tauto]. }
    assert (x ∈ filter (λ c, c ∉ items) (child_list d0 (Some e)) ++ back ↔ ident_of d0 s x ∈ ns) as Hiff.
    { rewrite elem_of_app, list_elem_of_filter. transitivity (ident_of d0 s x ∈ ident_of d0 s <$> back).
      - split; [intros [[? _]|?]; [done|by apply list_elem_of_fmap_2]|].
        intros (y & Hxy & Hy)%list_elem_of_fmap. right. by rewrite (nodup_fmap_inj _ _ x y Hdist Hx (Hsub y Hy) Hxy).
      - rewrite Hback, list_elem_of_filter. split; [tauto|]. split; [by apply list_elem_of_fmap_2|done]. }
    rewrite (Hitems x Hx). repeat case_decide; tauto.
Qed.
End set_sequence.

(** ** Witnesses *)

(** A list of three items, and a fourth in a list of its own. *)
Definition with_id (id : string) : gmap jsstr jsstr := <[js "id" := js id]> ∅.
Definition list_page : dom := list_to_map [
  (0%nat, Node NDocument ∅ ∅ ∅ None [1%nat]);
  (1%nat, Node (NElement (js "BODY")) ∅ ∅ ∅ (Some 0%nat) [2%nat; 6%nat]);
  (2%nat, Node (NElement (js "UL")) (with_id "list") ∅ ∅ (Some 1%nat) [3%nat; 4%nat; 5%nat]);
  (3%nat, Node (NElement (js "LI")) (with_id "item_a") ∅ ∅ (Some 2%nat) []);
  (4%nat, Node (NElement (js "LI")) (with_id "item_b") ∅ ∅ (Some 2%nat) []);
  (5%nat, Node (NElement (js "LI")) (with_id "item_c") ∅ ∅ (Some 2%nat) []);
  (6%nat, Node (NElement (js "UL")) (with_id "other") ∅ ∅ (Some 1%nat) [7%nat]);
  (7%nat, Node (NElement (js "LI")) (with_id "item_d") ∅ ∅ (Some 6%nat) [])].
Definition list_sort (e : nid) : sortable := sortable_defaults e.
Definition list_world : dnd (drag_state (sort_state (list nid))) :=
  Dnd list_page [] None ∅ 0 (DragState (DragCore ∅ [] false None None None [] (λ _, 0%nat) []) ∅ ∅
    (SortState (<[js "list" := list_sort 2]> (<[js "other" := list_sort 6]> ∅)) None ∅ [])).
Definition list_call (_ : nat) (e : nid) : JS (dnd (drag_state (sort_state (list nid)))) () := js_modify (λ w,
  set_rest (DragState (core_of w) (busy (rest w)) (opacities (rest w))
    (SortState (sortables (sort_of w)) (marker (sort_of w)) (lastValue (sort_of w)) (e :: user (sort_of w)))) w).
Definition list_depth (x : nid) : nat :=
  match x with 0%nat => 0 | 1%nat => 1 | 2%nat | 6%nat => 2 | _ => 3 end.

Lemma list_tree : dom_ok list_page ∧ acyclic list_page.
Proof.
  split; [apply dom_ok_check, (bool_decide_unpack _); vm_compute; exact I|].
  exists list_depth. intros x p.
  do 8 (destruct x as [|x]; [vm_compute; first [done|intros [= <-]; lia]|]).
  unfold parent_of. assert (list_page !! S (S (S (S (S (S (S (S x))))))) = None) as ->; [|done].
  unfold list_page. cbn. by rewrite !lookup_insert_ne by lia.
Qed.
Lemma list_leaves f e : leaves_page (list_call f e).
Proof. intros w. eexists. by split. Qed.

Lemma sort_hover_spec_witness : ∃ w',
  onHover box_layout list_call 7 4 (lit (QArith_base.Qmake 7 10)) list_world = (Ret (), w') ∧
  child_list (page w') (Some 2%nat) = [3; 7; 4; 5]%nat ∧ child_list (page w') (Some 6%nat) = [].
Proof.
  destruct (sort_hover_spec box_layout list_call list_leaves list_world 7 4 (lit (QArith_base.Qmake 7 10)) 2 6
    (list_sort 2) (list_sort 6) (list_sort 2)) as (w' & Hr & Hm).
  - split; [exact list_tree|lia|vm_compute; reflexivity..].
  - exists w'. split; [exact Hr|].
    assert (is_parent (page list_world) 4 7 = false) as Hp by (vm_compute; reflexivity). rewrite Hp in Hm.
    assert (num_gtb (lit (QArith_base.Qmake 7 10)) (lit (QArith_base.Qmake 33 100)) &&
      num_ltb (lit (QArith_base.Qmake 7 10)) (lit (QArith_base.Qmake 66 100)) && s_tree (list_sort 2) = false) as Hb by (vm_compute; reflexivity).
    rewrite Hb in Hm. cbn [orb] in Hm.
    assert (negb (num_gtb (lit (QArith_base.Qmake 7 10)) (lit (QArith_base.Qmake 1 2))) = false) as Ha by (vm_compute; reflexivity).
    rewrite Ha in Hm. destruct Hm as [_ _ _ Ho (l1 & l2 & H1 & H2)]. split.
    + rewrite H2. assert (filter (λ c, c ≠ 7%nat) (child_list (page list_world) (Some 2%nat)) = [3; 4; 5]%nat) as Hf
        by (vm_compute; reflexivity). rewrite Hf in H1.
      clear - H1. destruct l1 as [|x l1]; [discriminate H1|]. injection H1 as <- H1.
      destruct l1 as [|y l1]; [injection H1 as <-; reflexivity|]. injection H1 as <- H1.
      destruct l1 as [|z l1]; [discriminate H1|]. injection H1 as <- H1. destruct l1; discriminate H1.
    + rewrite Ho by lia. vm_compute. reflexivity.
Defined.

Lemma set_sequence_roundtrip_witness : ∃ w',
  setSequence 2 [js "c"; js "x"; js "a"] list_world = (Ret (), w') ∧
  sequence 2 w' = (Ret [js "c"; js "a"], w') ∧ parent_of (page w') 4%nat = None.
Proof.
  destruct (set_sequence_roundtrip list_world 2 (list_sort 2) [js "c"; js "x"; js "a"]) as (w' & H1 & _ & H2 & H3).
  - apply list_tree.
  - apply list_tree.
  - vm_compute. reflexivity.
  - reflexivity.
  - vm_compute. discriminate.
  - intros x Hx. assert (default [] (findElements (page list_world) 2 (list_sort 2)) = [3; 4; 5]%nat) as E by (vm_compute; reflexivity).
    rewrite E in Hx. repeat (apply elem_of_cons in Hx as [->|Hx]; [eexists; vm_compute; reflexivity|]). by apply not_elem_of_nil in Hx.
  - apply (bool_decide_unpack _). vm_compute. exact I.
  - apply (bool_decide_unpack _). vm_compute. exact I.
  - apply (bool_decide_unpack _). vm_compute. exact I.
  - exists w'. split; [exact H1|]. split; [rewrite H2; vm_compute; reflexivity|].
    rewrite H3, decide_True; [done|]. split; apply (bool_decide_unpack _); vm_compute; exact I.
Defined.
