(* ===== verification/Walks.v ===== *)
(** * Walks in the document (prototype.js: Element.Methods)

    What the walks of Element.Methods reach on documents that are trees: the
    ancestors, the descendants and the siblings of a node, and how these
    relations invert each other. *)

From S2P Require Import Prelude JsBase Dom Droppable Tree.
#[local] Open Scope stdpp_scope.

(** ** Up and down *)

(** The first [fuel] nodes above [e]. *)
Fixpoint chain (fuel : nat) (d : dom) (e : nid) : list nid :=
  match fuel with
  | O => []
  | S fuel => match parent_of d e with None => [] | Some p => p :: chain fuel d p end
  end.

Lemma has_ancestor_chain fuel d x a : has_ancestor fuel d x a = bool_decide (a ∈ chain fuel d x).
Proof.
  revert x. induction fuel as [|fuel IH]; intros x; cbn [has_ancestor chain].
  { by rewrite bool_decide_eq_false_2 by apply not_elem_of_nil. }
  destruct (parent_of d x) as [p|]; [|by rewrite bool_decide_eq_false_2 by apply not_elem_of_nil].
  rewrite IH. apply bool_eq_iff. rewrite orb_true_iff, !bool_decide_eq_true, elem_of_cons. naive_solver.
Qed.

Lemma collect_parents fuel d x : collect_from fuel d parent_of x = List.filter (element_at d) (chain fuel d x).
Proof.
  revert x. induction fuel as [|fuel IH]; intros x; [done|]. cbn [collect_from chain].
  destruct (parent_of d x) as [p|]; [|done]. rewrite IH. cbn [List.filter]. by destruct (element_at d p).
Qed.

Lemma chain_above fuel d x a : a ∈ chain fuel d x → above d x a.
Proof.
  revert x. induction fuel as [|fuel IH]; intros x; cbn [chain]; [by intros ?%not_elem_of_nil|].
  destruct (parent_of d x) as [p|] eqn:Hp; [|by intros ?%not_elem_of_nil].
  intros [->|Ha]%elem_of_cons; [by apply tc_once|]. eapply tc_l; [exact Hp|by apply IH].
Qed.

Lemma chain_fuel d fuel x a seen : acyclic d → NoDup seen → (∀ y, y ∈ seen → is_Some (d !! y) ∧ above d y x) →
  (node_count d ≤ fuel + length seen)%nat → above d x a → a ∈ chain fuel d x.
Proof.
  intros Hac. revert x seen. induction fuel as [|fuel IH]; intros x seen Hnd Hseen Hf Ha;
    (assert (is_Some (d !! x)) as Hx
      by (inversion Ha as [? y Hy|? y ? Hy]; subst; unfold parent_of in Hy; by destruct (d !! x)));
    (assert (x ∉ seen) as Hxs by (intros Hin; destruct (Hseen x Hin) as [_ Hxx]; by apply (acyclic_above d x))).
  - assert (length (x :: seen) ≤ node_count d)%nat; [|cbn in *; lia]. apply nodes_bounded.
    + by apply NoDup_cons.
    + intros y [->|Hy]%elem_of_cons; [done|]. by apply Hseen.
  - cbn [chain]. assert (is_Some (parent_of d x)) as [p Hp] by (by inversion Ha; subst; eexists).
    rewrite Hp. apply elem_of_cons. inversion Ha as [? y Hy|? y ? Hy Hya]; subst; [left; congruence|right].
    assert (y = p) as -> by congruence. apply (IH p (x :: seen)); [by apply NoDup_cons| |cbn; lia|done].
    intros y [->|Hin]%elem_of_cons; [by split; [|apply tc_once]|].
    destruct (Hseen y Hin) as [? Hy']. split; [done|]. eapply tc_transitive; [exact Hy'|by apply tc_once].
Qed.

Lemma elem_of_chain d x a : acyclic d → a ∈ chain (node_count d) d x ↔ above d x a.
Proof.
  intros Hac. split; [apply chain_above|]. apply (chain_fuel d _ x a []); [done|constructor| |cbn; lia].
  by intros y ?%not_elem_of_nil.
Qed.

Lemma has_ancestor_above d x a : acyclic d → has_ancestor (node_count d) d x a = true ↔ above d x a.
Proof. intros Hac. by rewrite has_ancestor_chain, bool_decide_eq_true, elem_of_chain. Qed.

Lemma elem_of_ancestors d x a : acyclic d →
  a ∈ collect_from (node_count d) d parent_of x ↔ element_at d a = true ∧ above d x a.
Proof. intros Hac. rewrite collect_parents, list_elem_of_In, filter_In, <- list_elem_of_In, elem_of_chain; tauto. Qed.

(** *** Down *)

Lemma chain_snoc fuel d x a : a ∈ chain (S fuel) d x ↔
  ∃ c, parent_of d c = Some a ∧ (c = x ∨ c ∈ chain fuel d x).
Proof.
  revert x. induction fuel as [|fuel IH]; intros x.
  - cbn. destruct (parent_of d x) as [p|] eqn:Hp.
    + rewrite list_elem_of_singleton. split; [intros ->; exists x; auto|].
      intros (c & Hc & [->|[]%not_elem_of_nil]); congruence.
    + split; [by intros ?%not_elem_of_nil|]. intros (c & Hc & [->|[]%not_elem_of_nil]); congruence.
  - change (chain (S (S fuel)) d x) with (match parent_of d x with None => [] | Some p => p :: chain (S fuel) d p end).
    destruct (parent_of d x) as [p|] eqn:Hp.
    + rewrite elem_of_cons, IH. split.
      * intros [->|(c & Hc & Hin)]; [exists x; auto|]. exists c. split; [done|]. right.
        cbn [chain]. rewrite Hp, elem_of_cons. naive_solver.
      * intros (c & Hc & [->|Hin]); [left; congruence|]. right. exists c. split; [done|].
        cbn [chain] in Hin. rewrite Hp, elem_of_cons in Hin. naive_solver.
    + split; [by intros ?%not_elem_of_nil|]. intros (c & Hc & [->|Hin]); [congruence|].
      cbn [chain] in Hin. rewrite Hp in Hin. by apply not_elem_of_nil in Hin.
Qed.

Lemma elem_of_subtree fuel d x a : dom_ok d → x ∈ subtree fuel d a ↔ a ∈ chain fuel d x.
Proof.
  intros Hok. revert a. induction fuel as [|fuel IH]; intros a.
  { cbn. split; by intros ?%not_elem_of_nil. }
  rewrite chain_snoc. cbn [subtree]. rewrite list_elem_of_bind. split.
  - intros (c & Hin & Hc). apply (ok_child d Hok) in Hc. exists c. split; [done|].
    rewrite elem_of_cons, IH in Hin. naive_solver.
  - intros (c & Hc & Hin). apply (ok_parent d Hok) in Hc. exists c. split; [|done].
    rewrite elem_of_cons, IH. naive_solver.
Qed.

Lemma elem_of_descendants d x a : dom_ok d → acyclic d →
  x ∈ descendants_of d a ↔ element_at d x = true ∧ above d x a.
Proof.
  intros Hok Hac. unfold descendants_of.
  rewrite list_elem_of_In, filter_In, <- list_elem_of_In, elem_of_subtree, elem_of_chain by done. tauto.
Qed.

Lemma above_step d x p a : parent_of d x = Some p → above d x a → a = p ∨ above d p a.
Proof.
  intros Hp Ha. inversion Ha as [? q Hq|? q ? Hq Hqa]; subst; [left; congruence|right].
  assert (q = p) as -> by congruence. exact Hqa.
Qed.
(** The nodes above a node are above one another. *)
Lemma above_linear d z x y : above d z x → above d z y → x = y ∨ above d x y ∨ above d y x.
Proof.
  intros Hx Hy. induction Hx as [z p Hp|z p x Hp Hpx IH]; destruct (above_step d z p y Hp Hy) as [->|Hpy]; auto.
Qed.
Lemma sibling_not_above d x y p : acyclic d → parent_of d x = Some p → parent_of d y = Some p → ¬ above d x y.
Proof.
  intros Hac Hx Hy Ha. apply (acyclic_above d p Hac).
  destruct (above_step d x p y Hx Ha) as [->|Hp]; [by apply tc_once|]. eapply tc_transitive; [exact Hp|by apply tc_once].
Qed.

Lemma NoDup_subtree fuel d a : dom_ok d → acyclic d → NoDup (subtree fuel d a).
Proof.
  intros Hok Hac. revert a. induction fuel as [|fuel IH]; intros a; [constructor|]. cbn [subtree].
  assert (∀ l, (∀ y, y ∈ l → parent_of d y = Some a) → NoDup l → NoDup (l ≫= λ c, c :: subtree fuel d c)) as H;
    [|apply H; [intros y; apply (ok_child d Hok)|apply ok_nodup, Hok]].
  assert (∀ y z, z ∈ subtree fuel d y → above d z y) as Hbel.
  { intros y z Hz. eapply chain_above. by apply elem_of_subtree. }
  induction l as [|c l IHl]; intros Hl Hnd; [constructor|]. apply NoDup_cons in Hnd as [Hc Hnd].
  assert (∀ z, z = c ∨ above d z c → z ∉ (l ≫= λ c, c :: subtree fuel d c)) as Hapart.
  { intros z Hz Hin. apply list_elem_of_bind in Hin as (y & Hy & Hyl).
    assert (c ≠ y) as Hcy by (by intros ->).
    assert (z = y ∨ above d z y) as Hzy by (apply elem_of_cons in Hy as [->|Hy]; auto).
    assert (¬ above d c y ∧ ¬ above d y c) as [H1 H2].
    { split; apply (sibling_not_above _ _ _ a Hac); apply Hl; set_solver. }
    destruct Hz as [->|Hz], Hzy as [->|Hzy]; [done..|].
    destruct (above_linear d z c y Hz Hzy) as [|[|]]; done. }
  cbn [mbind list_bind app]. apply NoDup_cons. split; [|apply NoDup_app; split; [apply IH|split]].
  - intros [Hin|Hin]%elem_of_app; [by apply (acyclic_above d c), Hbel|]. apply (Hapart c); auto.
  - intros z Hz. apply Hapart. right. by apply Hbel.
  - apply IHl; [|done]. intros y Hy. apply Hl. by right.
Qed.
Lemma NoDup_descendants d a : dom_ok d → acyclic d → NoDup (descendants_of d a).
Proof. intros Hok Hac. apply NoDup_ListNoDup, List.NoDup_filter, NoDup_ListNoDup. by apply NoDup_subtree. Qed.

(** ** Sideways *)

(** The walk of [nextElementSibling] is the first of the next siblings. *)
Lemma next_element_head d e : nextElementSibling d e = head (collect_from (node_count d) d nextSibling e).
Proof.
  unfold nextElementSibling. generalize (node_count d) as fuel. intros fuel. revert e.
  induction fuel as [|fuel IH]; intros e; [done|]. cbn [collect_from].
  destruct (nextSibling d e) as [x|]; [|done]. by destruct (element_at d x).
Qed.
Lemma previous_element_head d e : previousElementSibling d e = head (collect_from (node_count d) d previousSibling e).
Proof.
  unfold previousElementSibling. generalize (node_count d) as fuel. intros fuel. revert e.
  induction fuel as [|fuel IH]; intros e; [done|]. cbn [collect_from].
  destruct (previousSibling d e) as [x|]; [|done]. by destruct (element_at d x).
Qed.

Section sideways.
Context (d : dom) (Hok : dom_ok d).

Lemma next_at p l1 e l2 : child_list d (Some p) = l1 ++ e :: l2 →
  collect_from (node_count d) d nextSibling e = List.filter (element_at d) l2.
Proof.
  intros Hl. eapply next_collect; [done..|]. pose proof (children_bounded d p Hok) as Hb.
  rewrite Hl, length_app in Hb. cbn in Hb. lia.
Qed.
Lemma previous_at p l1 e l2 : child_list d (Some p) = l1 ++ e :: l2 →
  collect_from (node_count d) d previousSibling e = List.filter (element_at d) (reverse l1).
Proof.
  intros Hl. eapply previous_collect; [done..|]. pose proof (children_bounded d p Hok) as Hb.
  rewrite Hl, length_app in Hb. cbn in Hb. lia.
Qed.

(** A node without parent has no siblings. *)
Lemma no_siblings fuel e : parent_of d e = None →
  collect_from fuel d nextSibling e = [] ∧ collect_from fuel d previousSibling e = [].
Proof. intros Hp. destruct fuel; [done|]. cbn [collect_from]. unfold nextSibling, previousSibling. by rewrite Hp. Qed.

(** [a] comes before [b] among the children of one node. *)
Definition before_in (a b : nid) : Prop := ∃ p l1 l2 l3, child_list d (Some p) = l1 ++ a :: l2 ++ b :: l3.

Lemma elem_of_next e x : x ∈ collect_from (node_count d) d nextSibling e ↔ element_at d x = true ∧ before_in e x.
Proof.
  split.
  - destruct (parent_of d e) as [p|] eqn:Hp; [|by rewrite (proj1 (no_siblings _ e Hp)); intros ?%not_elem_of_nil].
    apply (ok_parent d Hok) in Hp. apply list_elem_of_split in Hp as (l1 & l2 & Hl).
    rewrite (next_at p l1 e l2 Hl), list_elem_of_In, filter_In, <- list_elem_of_In. intros [Hx ?]. split; [done|].
    apply list_elem_of_split in Hx as (m1 & m2 & ->). by exists p, l1, m1, m2.
  - intros (Hx & p & l1 & l2 & l3 & Hl). rewrite (next_at _ _ _ _ Hl), list_elem_of_In, filter_In, <- list_elem_of_In.
    split; [|done]. set_solver.
Qed.
Lemma elem_of_previous e x : x ∈ collect_from (node_count d) d previousSibling e ↔ element_at d x = true ∧ before_in x e.
Proof.
  split.
  - destruct (parent_of d e) as [p|] eqn:Hp; [|by rewrite (proj2 (no_siblings _ e Hp)); intros ?%not_elem_of_nil].
    apply (ok_parent d Hok) in Hp. apply list_elem_of_split in Hp as (l1 & l2 & Hl).
    rewrite (previous_at p l1 e l2 Hl), list_elem_of_In, filter_In, <- list_elem_of_In, elem_of_reverse.
    intros [Hx ?]. split; [done|]. apply list_elem_of_split in Hx as (m1 & m2 & ->).
    exists p, m1, m2, l2. by rewrite Hl, <- app_assoc.
  - intros (Hx & p & l1 & l2 & l3 & Hl). rewrite (previous_at p (l1 ++ x :: l2) e l3) by (by rewrite <- app_assoc).
    rewrite list_elem_of_In, filter_In, <- list_elem_of_In, elem_of_reverse. split; [|done]. set_solver.
Qed.

Lemma before_parent a b : before_in a b → ∃ p, parent_of d a = Some p ∧ parent_of d b = Some p.
Proof.
  intros (p & l1 & l2 & l3 & Hl). exists p. split; apply (ok_child d Hok); rewrite Hl; set_solver.
Qed.

(** Adjacent elements: next and previous invert each other. *)
Definition adjacent_in (a b : nid) : Prop := ∃ p l1 l2 l3,
  child_list d (Some p) = l1 ++ a :: l2 ++ b :: l3 ∧ List.filter (element_at d) l2 = [].

Lemma head_filter (p : nid → bool) l x : head (List.filter p l) = Some x ↔
  ∃ l1 l2, l = l1 ++ x :: l2 ∧ p x = true ∧ List.filter p l1 = [].
Proof.
  induction l as [|y l IH]; cbn.
  { split; [done|]. intros ([|? ?] & ? & ? & _); done. }
  destruct (p y) eqn:Hy.
  - split; [intros [= ->]; by exists [], l|]. intros ([|z l1] & l2 & Heq & Hx & Hf); injection Heq as -> ->; [done|].
    cbn in Hf. by rewrite Hy in Hf.
  - rewrite IH. split.
    + intros (l1 & l2 & -> & Hx & Hf). exists (y :: l1), l2. cbn. by rewrite Hy.
    + intros ([|z l1] & l2 & Heq & Hx & Hf); injection Heq as -> ->; [congruence|]. exists l1, l2.
      cbn in Hf. by rewrite Hy in Hf.
Qed.

Lemma next_element_spec a b : nextElementSibling d a = Some b ↔ element_at d b = true ∧ adjacent_in a b.
Proof.
  rewrite next_element_head. split.
  - destruct (parent_of d a) as [p|] eqn:Hp; [|by rewrite (proj1 (no_siblings _ a Hp))].
    apply (ok_parent d Hok) in Hp. apply list_elem_of_split in Hp as (l1 & l2 & Hl).
    rewrite (next_at p l1 a l2 Hl), head_filter. intros (m1 & m2 & -> & Hb & Hf). split; [done|]. by exists p, l1, m1, m2.
  - intros (Hb & p & l1 & l2 & l3 & Hl & Hf). rewrite (next_at _ _ _ _ Hl), head_filter. by exists l2, l3.
Qed.
Lemma previous_element_spec a b : previousElementSibling d b = Some a ↔ element_at d a = true ∧ adjacent_in a b.
Proof.
  rewrite previous_element_head.
  assert (∀ l, List.filter (element_at d) (reverse l) = [] ↔ List.filter (element_at d) l = []) as Hrev.
  { intros l. split; intros Hf; apply elem_of_nil_inv; intros x; rewrite list_elem_of_In, filter_In, <- list_elem_of_In;
      intros [Hx Hx']; assert (x ∈ (@nil nid)) as []%not_elem_of_nil; rewrite <- Hf, list_elem_of_In, filter_In, <- list_elem_of_In;
      [by rewrite elem_of_reverse|by rewrite elem_of_reverse in Hx]. }
  split.
  - destruct (parent_of d b) as [p|] eqn:Hp; [|by rewrite (proj2 (no_siblings _ b Hp))].
    apply (ok_parent d Hok) in Hp. apply list_elem_of_split in Hp as (l1 & l2 & Hl).
    rewrite (previous_at p l1 b l2 Hl), head_filter. intros (m1 & m2 & Hm & Ha & Hf). split; [done|].
    apply (f_equal reverse) in Hm. rewrite reverse_involutive, reverse_app, reverse_cons, <- app_assoc in Hm. subst l1.
    exists p, (reverse m2), (reverse m1), l2. split; [by rewrite Hl, <- app_assoc|by apply Hrev].
  - intros (Ha & p & l1 & l2 & l3 & Hl & Hf). rewrite (previous_at p (l1 ++ a :: l2) b l3) by (by rewrite <- app_assoc).
    rewrite head_filter, reverse_app, reverse_cons, <- app_assoc. exists (reverse l2), (reverse l1).
    split; [done|]. split; [done|by apply Hrev].
Qed.
Lemma next_previous a b : element_at d a = true → element_at d b = true →
  nextElementSibling d a = Some b ↔ previousElementSibling d b = Some a.
Proof. intros Ha Hb. rewrite next_element_spec, previous_element_spec. tauto. Qed.
Lemma adjacent_before a b : adjacent_in a b → before_in a b.
Proof. intros (p & l1 & l2 & l3 & Hl & _). by exists p, l1, l2, l3. Qed.
End sideways.
