(* ===== verification/SelectorText.v ===== *)
(** * Selector expressions (prototype.js: Selector, the textual part)

    How an expression is cut into tokens, what a token becomes in the compiled
    matcher and in the XPath expression, and the splitting of a list of
    expressions at commas. *)

From Stdlib Require Import ZArith.
From S2P Require Import Prelude JsBase JsNum JsRegex JsReplace Strings.
#[local] Open Scope Z_scope.
#[local] Open Scope stdpp_scope.

(** ** Tokens *)

(** The keys of [Selector.patterns]. *)
Inductive combinator := LaterSibling | Child | Adjacent | Descendant.
Inductive token :=
| Combinator (c : combinator) | TagName | Id | ClassName | Pseudo | AttrPresence | Attr.

#[export] Instance combinator_eq_dec : EqDecision combinator.
Proof. solve_decision. Defined.
#[export] Instance token_eq_dec : EqDecision token.
Proof. solve_decision. Defined.

Definition sp : rx := RStar true (RChar is_space).
(** [[\w\-]] and [[\w\-\*]] *)
Definition name_char (c : N) : bool := is_word c || (c =? 45)%N.
Definition star_char (c : N) : bool := name_char c || (c =? 42)%N.
(** [(\b|$)]; only the groups the code reads are numbered as in the code. *)
Definition edge : rx := (RWordB <|> REol)%rx.
Definition words_rx (l : list jsstr) : rx :=
  match l with
  | [] => REps
  | w :: l => foldl (λ r w, r <|> RStr w)%rx (RStr w) l
  end.

Definition laterSibling_rx : rx := (RBol +++ sp +++ RLit 126 +++ sp)%rx.
Definition child_rx : rx := (RBol +++ sp +++ RLit 62 +++ sp)%rx.
Definition adjacent_rx : rx := (RBol +++ sp +++ RLit 43 +++ sp)%rx.
Definition descendant_rx : rx := (RBol +++ RChar is_space)%rx.
(** An optional group that can only match nothing is skipped when it fails. *)
Definition tagName_rx : rx :=
  (RBol +++ sp +++ RGroup 1 (RLit 42 <|> RPlus (RChar name_char)) +++ ROpt edge)%rx.
Definition id_rx : rx := (RBol +++ RLit 35 +++ RGroup 1 (RPlus (RChar star_char)) +++ edge)%rx.
Definition className_rx : rx := (RBol +++ RLit 46 +++ RGroup 1 (RPlus (RChar star_char)) +++ edge)%rx.
Definition pseudo_rx : rx :=
  (RBol +++ RLit 58 +++
   RGroup 1 (words_rx [js "first"; js "last"; js "nth"; js "nth-last"; js "only"] +++
               words_rx [js "-child"; js "-of-type"] <|>
             RStr (js "empty") <|> RStr (js "checked") <|>
             words_rx [js "en"; js "dis"] +++ RStr (js "abled") <|> RStr (js "not")) +++
   ROpt (RGroup 5 (RLit 40 +++ RGroup 6 (RStar false (RChar dot)) +++ RLit 41)) +++
   (RWordB <|> REol <|> RLook (RChar (λ c, is_space c || one_of (js ":+~>") c) )))%rx.
Definition attrPresence_rx : rx :=
  (RBol +++ RLit 91 +++
   RGroup 1 (ROpt (RPlus (RChar is_word) +++ RLit 58) +++ RPlus (RChar is_word)) +++ RLit 93)%rx.
(** Not anchored.  In a class, [\4] is the character of code 4. *)
Definition attr_rx : rx :=
  (RLit 91 +++
   RGroup 1 (ROpt (RStar true (RChar name_char) +++ RLit 58) +++ RPlus (RChar name_char)) +++
   sp +++
   ROpt (RGroup 2 (ROpt (RChar (one_of (js "!^$*~|"))) +++ RLit 61) +++ sp +++
         RGroup 3 (RGroup 4 (RChar (one_of (js "'" ++ dq))) +++
                   RGroup 5 (RStar false (RChar (none_of [4%N]))) +++ RBack 4 <|>
                   RGroup 6 (RChar (none_of (js "'" ++ dq)) +++
                             RStar false (RChar (none_of (js "]")))))) +++
   RLit 93)%rx.

(** [Selector.patterns], in the order a [for in] loop visits them *)
Definition patterns : list (token * rx) :=
  [(Combinator LaterSibling, laterSibling_rx); (Combinator Child, child_rx);
   (Combinator Adjacent, adjacent_rx); (Combinator Descendant, descendant_rx); (TagName, tagName_rx); (Id, id_rx); (ClassName, className_rx);
   (Pseudo, pseudo_rx); (AttrPresence, attrPresence_rx); (Attr, attr_rx)].

(** The [for in] loop up to its [break]. *)
Fixpoint first_match (ps : list (token * rx)) (e : jsstr) : option (token * match_res) :=
  match ps with
  | [] => None
  | (i, p) :: ps => match rx_match p e with Some m => Some (i, m) | None => first_match ps e end
  end.

(** [e.replace(text, '')]: the first occurrence of a text *)
Definition cut_text (text e : jsstr) : jsstr := replace_first (RStr text) (λ _, []) e.

(** [/\S/.test(e)] *)
Definition has_text (e : jsstr) : bool := rx_test (RChar (λ c, negb (is_space c))) e.

(** The condition of the [while] loops: [e && le != e && (/\S/).test(e)] *)
Definition goes_on (le : option jsstr) (e : jsstr) : bool :=
  negb (bool_decide (e = [])) && negb (bool_decide (le = Some e)) && has_text e.

(** The loop of [compileMatcher] and [compileXPathMatcher]; it ends within as
    many rounds as the expression is long, plus two. *)
Fixpoint token_loop (fuel : nat) (le : option jsstr) (e : jsstr) : list (token * match_res) :=
  match fuel with
  | O => []
  | S fuel =>
      if goes_on le e then
        match first_match patterns e with
        | Some (i, m) => (i, m) :: token_loop fuel (Some e) (cut_text (m_text m) e)
        | None => token_loop fuel (Some e) e
        end
      else []
  end.
Definition tokenize (e : jsstr) : list (token * match_res) := token_loop (S (S (length e))) None e.

(** ** The statements of the compiled matcher *)

(** The lines pushed on [this.matcher]; the texts are those between the
    double quotes of the generated line. *)
Inductive stmt :=
| SCombinator (c : combinator)
| STag (tag : jsstr)
| SId (id : jsstr)
| SClass (name : jsstr)
| SAttrPresence (attr : jsstr)
| SAttr (attr value operator : jsstr)
| SPseudo (name value : jsstr).

(** [m[i] || m[j]], inserted in a template *)
Definition group_or (m : match_res) (i j : nat) : jsstr :=
  match m_group_or_empty m i with [] => m_group_or_empty m j | s => s end.

(** [m[6].replace(/"/g, '\\"')] *)
Definition escape_quotes (s : jsstr) : jsstr := s ≫= λ c, if (c =? 34)%N then [92%N; c] else [c].

(** [Selector.criteria] *)
Definition criteria (i : token) (m : match_res) : stmt :=
  let m1 := m_group_or_empty m 1 in
  match i with
  | TagName => STag m1
  | ClassName => SClass m1
  | Id => SId m1
  | AttrPresence => SAttrPresence m1
  | Attr => SAttr m1 (group_or m 5 6) (m_group_or_empty m 2)
  | Pseudo => SPseudo m1 (escape_quotes (m_group_or_empty m 6))
  | Combinator c => SCombinator c
  end.

(** What [eval] reads between two double quotes: the characters and escapes
    of a string literal.  [None]: the text ends the literal, so that the
    source is not the intended one. *)
Definition hex_value (c : N) : option N :=
  if is_digit c then Some (c - 48)%N
  else if (97 <=? c)%N && (c <=? 102)%N then Some (c - 87)%N
  else if (65 <=? c)%N && (c <=? 70)%N then Some (c - 55)%N else None.
Definition hex_number (s : jsstr) : option N :=
  foldl (λ a c, a ← a; v ← hex_value c; Some (16 * a + v)%N) (Some 0%N) s.
Definition simple_escape (c : N) : N :=
  if (c =? 98)%N then 8%N else if (c =? 116)%N then 9%N else if (c =? 110)%N then 10%N
  else if (c =? 118)%N then 11%N else if (c =? 102)%N then 12%N else if (c =? 114)%N then 13%N else c.
Fixpoint string_literal (s : jsstr) : option jsstr :=
  match s with
  | [] => Some []
  | c :: rest =>
      if (c =? 92)%N then
        match rest with
        | [] => None
        | c :: rest =>
            if (c =? 120)%N then                                   (* \xHH *)
              match rest with
              | a :: b :: rest => v ← hex_number [a; b]; cons v <$> string_literal rest
              | _ => None
              end
            else if (c =? 117)%N then                              (* \uHHHH *)
              match rest with
              | a :: b :: d :: e :: rest => v ← hex_number [a; b; d; e]; cons v <$> string_literal rest
              | _ => None
              end
            else if is_digit c then                                (* \0; octal escapes are not modelled *)
              if (c =? 48)%N && negb (match rest with d :: _ => is_digit d | [] => false end)
              then cons 0%N <$> string_literal rest else None
            else if is_line_term c then string_literal rest        (* line continuation *)
            else cons (simple_escape c) <$> string_literal rest
        end
      else if ((c =? 34) || (c =? 10) || (c =? 13))%N then None
      else cons c <$> string_literal rest
  end.

Definition eval_stmt (p : stmt) : option stmt :=
  match p with
  | SCombinator c => Some (SCombinator c)
  | STag t => STag <$> string_literal t
  | SId t => SId <$> string_literal t
  | SClass t => SClass <$> string_literal t
  | SAttrPresence t => SAttrPresence <$> string_literal t
  | SAttr a v o => a ← string_literal a; v ← string_literal v; o ← string_literal o; Some (SAttr a v o)
  | SPseudo n v => n ← string_literal n; v ← string_literal v; Some (SPseudo n v)
  end.

(** The matcher [compileMatcher] evaluates: its statements before
    [return h.unique(n);]. *)
Definition program_of (e : jsstr) : option (list stmt) :=
  mapM (λ im, eval_stmt (criteria im.1 im.2)) (tokenize e).

(** ** The XPath expression *)

(** [Selector.xpath.operators]; the value and the name as the templates
    insert them.  Any other operator throws. *)
Definition xpath_operator (o name v : jsstr) : option jsstr :=
  if bool_decide (o = js "=") then Some (mjoin [js "[@"; name; js "='"; v; js "']"])
  else if bool_decide (o = js "!=") then Some (mjoin [js "[@"; name; js "!='"; v; js "']"])
  else if bool_decide (o = js "^=") then Some (mjoin [js "[starts-with(@"; name; js ", '"; v; js "')]"])
  else if bool_decide (o = js "$=") then
    Some (mjoin [js "[substring(@"; name; js ", (string-length(@"; name; js ") - string-length('"; v;
                 js "') + 1))='"; v; js "']"])
  else if bool_decide (o = js "*=") then Some (mjoin [js "[contains(@"; name; js ", '"; v; js "')]"])
  else if bool_decide (o = js "~=") then
    Some (mjoin [js "[contains(concat(' ', @"; name; js ", ' '), ' "; v; js " ')]"])
  else if bool_decide (o = js "|=") then
    Some (mjoin [js "[contains(concat('-', @"; name; js ", '-'), '-"; v; js "-')]"])
  else None.

(** The expressions of [nth]: digits only, and [an+b]. *)
Definition number_rx : rx := (RBol +++ RGroup 1 (RPlus (RChar is_digit)) +++ REol)%rx.
Definition nth_rx : rx :=
  (RBol +++ ROpt (RGroup 1 (ROpt (RLit 45) +++ RStar true (RChar is_digit))) +++ RLit 110 +++
   ROpt (RGroup 2 (RGroup 3 (RChar (one_of (js "+-"))) +++ RGroup 4 (RPlus (RChar is_digit)))))%rx.
(** [Number(s)] of an optional sign and digits *)
Definition signed_val (s : jsstr) : Z :=
  match s with
  | 45%N :: s => - digits_val s
  | 43%N :: s => digits_val s
  | s => digits_val s
  end.
(** A formula: a number or [an+b]; the numbers stay below 2^53. *)
Inductive formula := FNumber (k : Z) | FLinear (a b : Z).
Definition expand_formula (f : jsstr) : jsstr :=
  if bool_decide (f = js "even") then js "2n+0" else if bool_decide (f = js "odd") then js "2n+1" else f.
Definition read_linear (m : match_res) : Z * Z :=
  let m1 := m_group_or_empty m 1 in let m2 := m_group_or_empty m 2 in
  (if bool_decide (m1 = js "-") then -1 else if bool_decide (m1 = []) then 1 else signed_val m1,
   if bool_decide (m2 = []) then 0 else signed_val m2).
Definition read_formula (f : jsstr) : option formula :=
  let f := expand_formula f in
  match rx_match number_rx f with
  | Some m => Some (FNumber (digits_val f))
  | None => match rx_match nth_rx f with
            | Some m => let '(a, b) := read_linear m in Some (FLinear a b)
            | None => None
            end
  end.

(** [Selector.xpath.pseudos.nth]; a formula that cannot be read gives
    [undefined]. *)
Definition xpath_nth (fragment f : jsstr) : option jsstr :=
  let f := expand_formula f in
  match rx_match number_rx f with
  | Some m => Some (mjoin [js "["; fragment; js "= "; m_group_or_empty m 1; js "]"])
  | None =>
      match rx_match nth_rx f with
      | Some m =>
          let '(a, b) := read_linear m in
          Some (mjoin [js "[(("; fragment; js " - "; num_str b; js ") mod "; num_str a; js " = 0) and ((";
                       fragment; js " - "; num_str b; js ") div "; num_str a; js " >= 0)]"])
      | None => None
      end
  end.

(** What [Selector.xpath[i]] makes of a match: a text, [undefined]
    ([Ret None]) or an exception. *)
Section xpath.
(** [xpath.pseudos.not], on a shorter text *)
Context (not_ : jsstr → res jsstr).

(** [m[6]] may be [undefined]: for [nth] this throws. *)
Definition nth_of (fragment : jsstr) (m6 : option jsstr) : res (option jsstr) :=
  match m6 with Some f => Ret (xpath_nth fragment f) | None => Throw ETypeError end.

Definition preceding : jsstr := js "(count(./preceding-sibling::*) + 1) ".
Definition following : jsstr := js "(count(./following-sibling::*) + 1) ".
Definition from_last : jsstr := js "(last() + 1 - position()) ".

(** [Selector.xpath.pseudos] *)
Definition xpath_pseudo (name : jsstr) (m6 : option jsstr) : res (option jsstr) :=
  if bool_decide (name = js "first-child") then Ret (Some (js "[not(preceding-sibling::*)]"))
  else if bool_decide (name = js "last-child") then Ret (Some (js "[not(following-sibling::*)]"))
  else if bool_decide (name = js "only-child") then
    Ret (Some (js "[not(preceding-sibling::* or following-sibling::*)]"))
  else if bool_decide (name = js "empty") then
    Ret (Some (js "[count(*) = 0 and (count(text()) = 0)]"))
  else if bool_decide (name = js "checked") then Ret (Some (js "[@checked]"))
  else if bool_decide (name = js "disabled") then Ret (Some (js "[(@disabled) and (@type!='hidden')]"))
  else if bool_decide (name = js "enabled") then Ret (Some (js "[not(@disabled) and (@type!='hidden')]"))
  else if bool_decide (name = js "not") then
    match not_ (default [] m6) with Ret s => Ret (Some s) | Throw e => Throw e end
  else if bool_decide (name = js "nth-child") then nth_of preceding m6
  else if bool_decide (name = js "nth-last-child") then nth_of following m6
  else if bool_decide (name = js "nth-of-type") then nth_of (js "position() ") m6
  else if bool_decide (name = js "nth-last-of-type") then nth_of from_last m6
  else if bool_decide (name = js "first-of-type") then nth_of (js "position() ") (Some (js "1"))
  else if bool_decide (name = js "last-of-type") then nth_of from_last (Some (js "1"))
  else if bool_decide (name = js "only-of-type") then
    Ret (a ← xpath_nth (js "position() ") (js "1"); b ← xpath_nth from_last (js "1"); Some (a ++ b))
  else Ret (Some []).

(** [Selector.xpath] *)
Definition xpath (i : token) (m : match_res) : res (option jsstr) :=
  let m1 := m_group_or_empty m 1 in
  match i with
  | Combinator Descendant => Ret (Some (js "//*"))
  | Combinator Child => Ret (Some (js "/*"))
  | Combinator Adjacent => Ret (Some (js "/following-sibling::*[1]"))
  | Combinator LaterSibling => Ret (Some (js "/following-sibling::*"))
  | TagName =>
      if bool_decide (m1 = js "*") then Ret (Some [])
      else Ret (Some (mjoin [js "[local-name()='"; toLowerCase m1; js "' or local-name()='";
                             toUpperCase m1; js "']"]))
  | ClassName => Ret (Some (mjoin [js "[contains(concat(' ', @class, ' '), ' "; m1; js " ')]"]))
  | Id => Ret (Some (mjoin [js "[@id='"; m1; js "']"]))
  | AttrPresence => Ret (Some (mjoin [js "[@"; toLowerCase m1; js "]"]))
  | Attr =>
      match xpath_operator (m_group_or_empty m 2) (toLowerCase m1) (group_or m 5 6) with
      | Some s => Ret (Some s)
      | None => Throw ETypeError
      end
  | Pseudo => xpath_pseudo m1 (m_group m 6)
  end.

(** The loop of [compileXPathMatcher] after the cutting: the texts of the
    matches; the first exception ends it. *)
Fixpoint xpath_parts (l : list (token * match_res)) : res (list (option jsstr)) :=
  match l with
  | [] => Ret []
  | (i, m) :: l =>
      match xpath i m with
      | Throw e => Throw e
      | Ret v => match xpath_parts l with Ret vs => Ret (v :: vs) | Throw e => Throw e end
      end
  end.
End xpath.

(** The body of [xpath.pseudos.not]: [v.substring(1, v.length - 1)] of each
    part, on which [undefined] throws. *)
Definition exclusion (v : option jsstr) : option jsstr :=
  v ← v; Some (js "(" ++ substring v 1 (Z.of_nat (length v) - 1) ++ js ")").
Fixpoint xpath_not (fuel : nat) (e : jsstr) : res jsstr :=
  match fuel with
  | O => Ret []
  | S fuel =>
      match xpath_parts (xpath_not fuel) (tokenize e) with
      | Throw x => Throw x
      | Ret vs => match mapM exclusion vs with
                  | Some l => Ret (mjoin [js "[not("; join (js " and ") l; js ")]"])
                  | None => Throw ETypeError
                  end
      end
  end.
(** [compileXPathMatcher]; [join] writes [undefined] as the empty text.  The
    argument of each [:not] is shorter than the expression it is in. *)
Definition xpath_of (e : jsstr) : res jsstr :=
  match xpath_parts (xpath_not (length e)) (tokenize e) with
  | Ret vs => Ret (js ".//*" ++ mjoin (default [] <$> vs))
  | Throw x => Throw x
  end.

(** ** Lists of expressions *)

(** [/(([\w#:.~>+()\s-]+|\*|\[.*?\])+)\s*(,|$)/] *)
Definition split_char (c : N) : bool := is_word c || one_of (js "#:.~>+()-") c || is_space c.
Definition split_rx : rx :=
  (RGroup 1 (RPlus (RPlus (RChar split_char) <|> RLit 42 <|>
                    RLit 91 +++ RStar false (RChar dot) +++ RLit 93)) +++
   sp +++ (RLit 44 <|> REol))%rx.
(** The iterator of [Selector.split]; [scan] keeps the text it returns. *)
Definition split_collect (m : match_res) (expressions : list jsstr) : jsstr * list jsstr :=
  ([], expressions ++ [strip (m_group_or_empty m 1)]).
Definition selector_split (expression : jsstr) : list jsstr :=
  match scan expression split_rx split_collect [] with Some (_, l) => l | None => [] end.
