(* ===== verification/Selector.v ===== *)
(** * Selectors (prototype.js: Selector)

    The matcher of an expression: its statements run one after another over
    the nodes selected so far.  Nodes are marked while they are counted; marks,
    the positions noted on nodes and the cache of matchers are part of the
    state.  What the browser computes is the class [SelectorHost]. *)

From Stdlib Require Import ZArith.
From S2P Require Import Prelude JsBase JsNum JsRegex JsReplace Enumerable Strings Hash Dom SelectorText.
#[local] Open Scope Z_scope.
#[local] Open Scope stdpp_scope.

(** [Prototype.BrowserFeatures] and what the browser answers.  [query_ok]: the
    test [Selector._div.querySelector(expression)] does not throw.
    [inherited_matcher]: the nodes that a function every object inherits gives,
    called as a matcher, [None] when it throws a TypeError; [inherited_text]: such
    a function as a text. *)
Class SelectorHost := {
  XPath : bool;
  SelectorsAPI : bool;
  WebKit : bool;
  query_ok : jsstr → bool;
  querySelectorAll : dom → nid → jsstr → list nid;
  document_evaluate : jsstr → dom → nid → res (list nid);
  inherited_matcher : jsstr → dom → nid → option (list nid);
  inherited_text : jsstr → jsstr;
  prop_disabled : dom → nid → bool;
  prop_checked : dom → nid → bool;
  prop_type : dom → nid → jsstr;          (* empty when it has none *)
}.

(** [this.matcher], the function, and [this.xpath]; either is a function of
    [Object.prototype] when the expression is the name of one. *)
Inductive compiled := Matcher (p : list stmt) | XPathText (s : jsstr) | Inherited (name : jsstr).

(** [counted]: the nodes with [_countedByPrototype]; [nodeIndex]: that
    property of nodes; [id_counter]: the counter of [identify]. *)
Record sel := Sel {
  sdom : dom;
  counted : gset nid;
  nodeIndex : gmap nid Z;
  _cache : gmap jsstr compiled;
  id_counter : Z;
}.
Abbreviation X := (JS sel).

Definition set_counted (c : gset nid) (s : sel) : sel :=
  Sel (sdom s) c (nodeIndex s) (_cache s) (id_counter s).
Definition set_nodeIndex (i : gmap nid Z) (s : sel) : sel :=
  Sel (sdom s) (counted s) i (_cache s) (id_counter s).
Definition set_cache (c : gmap jsstr compiled) (s : sel) : sel :=
  Sel (sdom s) (counted s) (nodeIndex s) c (id_counter s).
Definition set_sdom (d : dom) (s : sel) : sel :=
  Sel d (counted s) (nodeIndex s) (_cache s) (id_counter s).
Definition set_id_counter (k : Z) (s : sel) : sel :=
  Sel (sdom s) (counted s) (nodeIndex s) (_cache s) k.

(** Reading the document; a method of [Element] on it. *)
Definition reading {A} (f : dom → A) : X A := js_gets (λ s, f (sdom s)).
Definition on_dom {A} (m : D A) : X A := λ s, let '(r, d) := m (sdom s) in (r, set_sdom d s).

(** ** Selector.handlers: utility functions *)

Definition mark_node (n : nid) : X () := js_modify (λ s, set_counted ({[n]} ∪ counted s) s).
Definition unmark_node (n : nid) : X () := js_modify (λ s, set_counted (counted s ∖ {[n]}) s).
Definition is_counted (n : nid) : X bool := js_gets (λ s, bool_decide (n ∈ counted s)).
Definition mark_nodes (nodes : list nid) : X () := js_each nodes mark_node.
Definition unmark_nodes (nodes : list nid) : X () := js_each nodes unmark_node.

(** The loops of [index]: [j] numbers the children that count. *)
Fixpoint index_loop (ofType : bool) (nodes : list nid) (j : Z) : X () :=
  match nodes with
  | [] => mret ()
  | node :: nodes =>
      s ← js_get;
      if element_at (sdom s) node && (negb ofType || bool_decide (node ∈ counted s)) then
        js_put (set_nodeIndex (<[node := j]> (nodeIndex s)) s) ;; index_loop ofType nodes (j + 1)
      else index_loop ofType nodes j
  end.
Definition index_children (parentNode : nid) (reversed ofType : bool) : X () :=
  mark_node parentNode ;;
  kids ← reading (λ d, child_list d (Some parentNode));
  index_loop ofType (if reversed then reverse kids else kids) 1.

(** [unique] and its loop *)
Fixpoint unique_loop (nodes results : list nid) : X (list nid) :=
  match nodes with
  | [] => mret results
  | n :: nodes =>
      b ← is_counted n;
      if b : bool then unique_loop nodes results
      else mark_node n ;; unique_loop nodes (results ++ [n])
  end.
Definition unique (nodes : list nid) : X (list nid) :=
  match nodes with
  | [] => mret []
  | _ => results ← unique_loop nodes []; unmark_nodes results ;; mret results
  end.

(** ** Combinators *)

(** [node.getElementsByTagName(name)]: names of HTML elements match in any case. *)
Definition tag_of (d : dom) (e : nid) : jsstr := match d !! e with Some n => tagName n | None => [] end.
Definition getElementsByTagName (d : dom) (e : nid) (name : jsstr) : list nid :=
  if bool_decide (name = js "*") then descendants_of d e
  else List.filter (λ x, bool_decide (tag_of d x = toUpperCase name)) (descendants_of d e).

Definition h_descendant (d : dom) (nodes : list nid) : list nid :=
  nodes ≫= λ node, getElementsByTagName d node (js "*").
Definition h_child (d : dom) (nodes : list nid) : list nid :=
  nodes ≫= λ node, List.filter (λ c, element_at d c && negb (bool_decide (tag_of d c = js "!")))
                     (child_list d (Some node)).
Definition h_adjacent (d : dom) (nodes : list nid) : list nid := omap (nextElementSibling d) nodes.
Definition next_siblings (d : dom) (e : nid) : list nid := collect_from (node_count d) d nextSibling e.
Definition h_laterSibling (d : dom) (nodes : list nid) : list nid := nodes ≫= next_siblings d.
(** [this[combinator](nodes)] *)
Definition combine (c : combinator) (d : dom) (nodes : list nid) : list nid :=
  match c with
  | Descendant => h_descendant d nodes
  | Child => h_child d nodes
  | Adjacent => h_adjacent d nodes
  | LaterSibling => h_laterSibling d nodes
  end.

(** ** Token functions

    [nodes] is [None] while the variable [n] of the matcher is undefined;
    [c] is its variable [c], [None] for [false]. *)

Definition has_tag (d : dom) (name : jsstr) (e : nid) : bool :=
  bool_decide (toUpperCase (tag_of d e) = toUpperCase name).
Definition h_tagName (d : dom) (nodes : option (list nid)) (root : nid) (name : jsstr)
    (c : option combinator) : list nid :=
  match nodes with
  | None => getElementsByTagName d root name
  | Some nodes =>
      match c with
      | Some Descendant => nodes ≫= λ node, getElementsByTagName d node name
      | Some c => let nodes := combine c d nodes in
                  if bool_decide (name = js "*") then nodes else List.filter (has_tag d name) nodes
      | None => List.filter (has_tag d name) nodes
      end
  end.

(** With [child], [descendant] and [adjacent] the loops fall through to the
    test whether the element is among the nodes itself. *)
Definition only_if (b : bool) (e : nid) : list nid := if b then [e] else [].
Definition h_id (d : dom) (nodes : option (list nid)) (root : nid) (id : jsstr)
    (c : option combinator) : list nid :=
  match getElementById d id with
  | None => []
  | Some targetNode =>
      match nodes with
      | None =>
          if bool_decide (root = document) then [targetNode]
          else only_if (has_ancestor (node_count d) d targetNode root) targetNode
      | Some nodes =>
          match c with
          | Some Child =>
              only_if (existsb (λ node, bool_decide (parent_of d targetNode = Some node)) nodes ||
                       bool_decide (targetNode ∈ nodes)) targetNode
          | Some Descendant =>
              only_if (existsb (λ node, has_ancestor (node_count d) d targetNode node) nodes ||
                       bool_decide (targetNode ∈ nodes)) targetNode
          | Some Adjacent =>
              only_if (existsb (λ node, bool_decide (previousElementSibling d targetNode = Some node)) nodes ||
                       bool_decide (targetNode ∈ nodes)) targetNode
          | Some c => only_if (bool_decide (targetNode ∈ combine c d nodes)) targetNode
          | None => only_if (bool_decide (targetNode ∈ nodes)) targetNode
          end
      end
  end.

Definition combined (c : option combinator) (d : dom) (nodes : list nid) : list nid :=
  match c with Some c => combine c d nodes | None => nodes end.

Definition class_of (d : dom) (e : nid) : jsstr := match d !! e with Some n => className n | None => [] end.
Definition class_test (d : dom) (name : jsstr) (e : nid) : bool :=
  let nodeClassName := class_of d e in
  negb (bool_decide (nodeClassName = [])) &&
  (bool_decide (nodeClassName = name) || include (js " " ++ nodeClassName ++ js " ") (js " " ++ name ++ js " ")).
Definition byClassName (d : dom) (nodes : option (list nid)) (root : nid) (name : jsstr) : list nid :=
  List.filter (class_test d name) (match nodes with None => h_descendant d [root] | Some l => l end).
Definition h_className (d : dom) (nodes : option (list nid)) (root : nid) (name : jsstr)
    (c : option combinator) : list nid :=
  byClassName d (combined c d <$> nodes) root name.

(** The nodes the remaining functions start from. *)
Definition start_nodes (d : dom) (nodes : option (list nid)) (root : nid) (c : option combinator) : list nid :=
  match nodes with None => getElementsByTagName d root (js "*") | Some l => combined c d l end.

Definition hasAttribute (d : dom) (name : jsstr) (e : nid) : bool := bool_decide (is_Some (attr_of d e name)).
Definition h_attrPresence (d : dom) (nodes : option (list nid)) (root : nid) (name : jsstr)
    (c : option combinator) : list nid :=
  List.filter (hasAttribute d name) (start_nodes d nodes root c).

(** [Selector.operators]; the later entries for [$=] and [*=] replace the
    earlier ones.  An unknown operator is [undefined]. *)
Definition operator (o : jsstr) : option (jsstr → jsstr → bool) :=
  if bool_decide (o = js "=") then Some (λ nv v, bool_decide (nv = v))
  else if bool_decide (o = js "!=") then Some (λ nv v, bool_decide (nv ≠ v))
  else if bool_decide (o = js "^=") then
    Some (λ nv v, bool_decide (nv = v) || negb (bool_decide (nv = [])) && startsWith nv v)
  else if bool_decide (o = js "$=") then Some endsWith
  else if bool_decide (o = js "*=") then Some include
  else if bool_decide (o = js "~=") then
    Some (λ nv v, include (js " " ++ nv ++ js " ") (js " " ++ v ++ js " "))
  else if bool_decide (o = js "|=") then
    Some (λ nv v, include (js "-" ++ toUpperCase nv ++ js "-") (js "-" ++ toUpperCase v ++ js "-"))
  else None.

(** The loop of [attr]; calling [undefined] throws. *)
Fixpoint attr_loop (d : dom) (name value : jsstr) (handler : option (jsstr → jsstr → bool))
    (nodes results : list nid) : res (list nid) :=
  match nodes with
  | [] => Ret results
  | node :: nodes =>
      match attr_of d node name with
      | None => attr_loop d name value handler nodes results
      | Some nodeValue =>
          match handler with
          | None => Throw ETypeError
          | Some f => attr_loop d name value handler nodes
                        (if f nodeValue value then results ++ [node] else results)
          end
      end
  end.
Definition h_attr (d : dom) (nodes : option (list nid)) (root : nid) (name value o : jsstr)
    (c : option combinator) : res (list nid) :=
  attr_loop d name value (operator o) (start_nodes d nodes root c) [].

(** ** Selector.pseudos *)

Definition is_none {A} (o : option A) : bool := match o with None => true | Some _ => false end.
Definition p_first_child (d : dom) (nodes : list nid) : list nid :=
  List.filter (λ n, is_none (previousElementSibling d n)) nodes.
Definition p_last_child (d : dom) (nodes : list nid) : list nid :=
  List.filter (λ n, is_none (nextElementSibling d n)) nodes.
Definition p_only_child (d : dom) (nodes : list nid) : list nid :=
  List.filter (λ n, is_none (previousElementSibling d n) && is_none (nextElementSibling d n)) nodes.
Definition p_empty (d : dom) (nodes : list nid) : list nid :=
  List.filter (λ n, negb (bool_decide (tag_of d n = js "!") || negb (is_none (firstChild d n)))) nodes.

(** [getIndices]: the condition [(i - b) / a >= 0] is tested on multiples
    of [a] only, where the quotient is exact. *)
Definition index_test (a b i : Z) : bool := (Z.rem (i - b) a =? 0) && (0 <=? Z.quot (i - b) a).
Definition getIndices (a b total : Z) : X (list Z) :=
  if a =? 0 then mret (if 0 <? b then [b] else [])
  else inject (Range 1 total false) [] (λ memo i _, mret (if index_test a b i then memo ++ [i] else memo)).

(** The first loop of [nth]: the parents that were indexed. *)
Fixpoint index_parents (reversed ofType : bool) (nodes indexed : list nid) : X (list nid) :=
  match nodes with
  | [] => mret indexed
  | node :: nodes =>
      o ← reading (λ d, parent_of d node);
      match o with
      | None => js_throw ETypeError
      | Some p =>
          b ← is_counted p;
          if b : bool then index_parents reversed ofType nodes indexed
          else index_children p reversed ofType ;; index_parents reversed ofType nodes (indexed ++ [p])
      end
  end.

(** The loops that collect: a node is pushed for each index it has. *)
Definition with_index (index : gmap nid Z) (indices : list Z) (nodes : list nid) : list nid :=
  nodes ≫= λ node, (λ _, node) <$> List.filter (λ j, bool_decide (index !! node = Some j)) indices.

Definition p_nth (nodes : list nid) (f : jsstr) (reversed ofType : bool) : X (list nid) :=
  match nodes with
  | [] => mret []
  | _ =>
      mark_nodes nodes ;;
      indexed ← index_parents reversed ofType nodes [];
      index ← js_gets nodeIndex;
      results ← match read_formula f with
                | Some (FNumber k) => mret (with_index index [k] nodes)
                | Some (FLinear a b) =>
                    indices ← getIndices a b (Z.of_nat (length nodes));
                    mret (with_index index indices nodes)
                | None => mret []
                end;
      unmark_nodes nodes ;;
      unmark_nodes indexed ;;
      mret results
  end.

Section engine.
Context `{SelectorHost}.
(** [new Selector(expression).findElements(root)] for the argument of [:not] *)
Context (find : jsstr → nid → X (list nid)).

Definition p_not (nodes : list nid) (selector : jsstr) (root : nid) : X (list nid) :=
  exclusions ← find selector root;
  mark_nodes exclusions ;;
  s ← js_get;
  unmark_nodes exclusions ;;
  mret (List.filter (λ n, negb (bool_decide (n ∈ counted s))) nodes).

Definition p_enabled (d : dom) (nodes : list nid) : list nid :=
  List.filter (λ n, negb (prop_disabled d n) &&
                    (bool_decide (prop_type d n = []) || negb (bool_decide (prop_type d n = js "hidden")))) nodes.
Definition p_disabled (d : dom) (nodes : list nid) : list nid := List.filter (prop_disabled d) nodes.
Definition p_checked (d : dom) (nodes : list nid) : list nid := List.filter (prop_checked d) nodes.

(** [Selector.pseudos[name](nodes, value, root)] *)
Definition pseudos (name : jsstr) (nodes : list nid) (value : jsstr) (root : nid) : X (list nid) :=
  if bool_decide (name = js "first-child") then reading (λ d, p_first_child d nodes)
  else if bool_decide (name = js "last-child") then reading (λ d, p_last_child d nodes)
  else if bool_decide (name = js "only-child") then reading (λ d, p_only_child d nodes)
  else if bool_decide (name = js "nth-child") then p_nth nodes value false false
  else if bool_decide (name = js "nth-last-child") then p_nth nodes value true false
  else if bool_decide (name = js "nth-of-type") then p_nth nodes value false true
  else if bool_decide (name = js "nth-last-of-type") then p_nth nodes value true true
  else if bool_decide (name = js "first-of-type") then p_nth nodes (js "1") false true
  else if bool_decide (name = js "last-of-type") then p_nth nodes (js "1") true true
  else if bool_decide (name = js "only-of-type") then
    firsts ← p_nth nodes (js "1") false true; p_nth firsts (js "1") true true
  else if bool_decide (name = js "empty") then reading (λ d, p_empty d nodes)
  else if bool_decide (name = js "not") then p_not nodes value root
  else if bool_decide (name = js "enabled") then reading (λ d, p_enabled d nodes)
  else if bool_decide (name = js "disabled") then reading (λ d, p_disabled d nodes)
  else if bool_decide (name = js "checked") then reading (λ d, p_checked d nodes)
  else js_throw ETypeError.
Definition h_pseudo (nodes : option (list nid)) (name value : jsstr) (root : nid)
    (c : option combinator) : X (list nid) :=
  nodes ← reading (λ d, start_nodes d nodes root c);
  pseudos name nodes value root.

(** ** The matcher *)

(** A statement [n = h.f(n, r, ..., c); c = false;] or [c = "...";] *)
Definition run_stmt (root : nid) (p : stmt) (nodes : option (list nid)) (c : option combinator)
    : X (option (list nid) * option combinator) :=
  match p with
  | SCombinator c => mret (nodes, Some c)
  | STag name => l ← reading (λ d, h_tagName d nodes root name c); mret (Some l, None)
  | SId id => l ← reading (λ d, h_id d nodes root id c); mret (Some l, None)
  | SClass name => l ← reading (λ d, h_className d nodes root name c); mret (Some l, None)
  | SAttrPresence name => l ← reading (λ d, h_attrPresence d nodes root name c); mret (Some l, None)
  | SAttr name value o =>
      r ← reading (λ d, h_attr d nodes root name value o c);
      match r with Ret l => mret (Some l, None) | Throw e => js_throw e end
  | SPseudo name value => l ← h_pseudo nodes name value root c; mret (Some l, None)
  end.
Fixpoint run_stmts (root : nid) (p : list stmt) (nodes : option (list nid)) (c : option combinator)
    : X (option (list nid)) :=
  match p with
  | [] => mret nodes
  | q :: p => nc ← run_stmt root q nodes c; run_stmts root p nc.1 nc.2
  end.
(** [this.matcher(root)]; [unique] of [undefined] throws. *)
Definition matcher (p : list stmt) (root : nid) : X (list nid) :=
  n ← run_stmts root p None None;
  match n with Some l => unique l | None => js_throw ETypeError end.
End engine.

(** ** Selector objects *)

Inductive selector_mode := ModeAPI | ModeXPath | ModeNormal.
Record selector := Selector_ {
  expression : jsstr; mode : selector_mode; compiled_as : option compiled }.

(** [/(\[[\w-]*?:|:checked)/] *)
Definition no_xpath_rx : rx :=
  (RLit 91 +++ RStar false (RChar name_char) +++ RLit 58 <|> RStr (js ":checked"))%rx.

Section selector.
Context `{SelectorHost}.

Definition shouldUseXPath (e : jsstr) : bool :=
  XPath &&
  negb (WebKit && (include e (js "-of-type") || include e (js ":empty"))) &&
  negb (rx_test no_xpath_rx e).
Definition shouldUseSelectorsAPI (e : jsstr) : bool := SelectorsAPI && query_ok e.

(** [Selector._cache[e]], of an object that inherits. *)
Definition cached (s : sel) (e : jsstr) : option compiled :=
  match _cache s !! e with
  | Some m => Some m
  | None => if bool_decide (e ∈ object_prototype) then Some (Inherited e) else None
  end.
Definition compileMatcher (e : jsstr) : X compiled :=
  s ← js_get;
  match cached s e with
  | Some m => mret m
  | None =>
      match program_of e with
      | Some p => js_modify (set_cache (<[e := Matcher p]> (_cache s))) ;; mret (Matcher p)
      | None => js_throw ESyntaxError
      end
  end.
Definition compileXPathMatcher (e : jsstr) : X compiled :=
  s ← js_get;
  match cached s e with
  | Some m => mret m
  | None =>
      match xpath_of e with
      | Ret x => js_modify (set_cache (<[e := XPathText x]> (_cache s))) ;; mret (XPathText x)
      | Throw x => js_throw x
      end
  end.

(** [new Selector(expression)] *)
Definition new_selector (expression : jsstr) : X selector :=
  let e := strip expression in
  if shouldUseSelectorsAPI e then mret (Selector_ e ModeAPI None)
  else if shouldUseXPath e then x ← compileXPathMatcher e; mret (Selector_ e ModeXPath (Some x))
  else m ← compileMatcher e; mret (Selector_ e ModeNormal (Some m)).

(** [findElements] in the mode of the selectors API: [root.id] is the empty
    text when there is no such attribute. *)
Definition find_by_api (e : jsstr) (root : nid) : X (list nid) :=
  if bool_decide (root = document) then reading (λ d, querySelectorAll d root e)
  else
    oldId ← reading (λ d, default [] (attr_of d root (js "id")));
    s ← js_get;
    ik ← on_dom (identify root (id_counter s));
    js_modify (set_id_counter ik.2) ;;
    results ← reading (λ d, querySelectorAll d root (js "#" ++ ik.1 ++ js " " ++ e));
    on_dom (writeAttribute root [(js "id", AText oldId)]) ;;
    mret results.

Definition asked (answer : dom → res (list nid)) : X (list nid) :=
  r ← reading answer; match r with Ret l => mret l | Throw e => js_throw e end.
Definition run_selector (find : jsstr → nid → X (list nid)) (this : selector) (root : nid) : X (list nid) :=
  match mode this, compiled_as this with
  | ModeAPI, _ => find_by_api (expression this) root
  | ModeXPath, Some (XPathText x) => asked (λ d, document_evaluate x d root)
  | ModeXPath, Some (Inherited name) => asked (λ d, document_evaluate (inherited_text name) d root)
  | ModeNormal, Some (Inherited name) => asked (λ d, match inherited_matcher name d root with Some l => Ret l | None => Throw ETypeError end)
  | ModeNormal, Some (Matcher p) => matcher find p root
  | _, _ => js_throw ETypeError
  end.

(** [new Selector(e).findElements(root)].  [:not] evaluates its argument,
    which is shorter than the expression: [fuel] exceeds the length.  Without
    fuel the error is one nothing else throws or catches. *)
Fixpoint find_with (fuel : nat) (e : jsstr) (root : nid) : X (list nid) :=
  match fuel with
  | O => js_throw ERangeError
  | S fuel => this ← new_selector e; run_selector (find_with fuel) this root
  end.
Definition findElements_of (this : selector) (root : nid) : X (list nid) :=
  run_selector (find_with (S (length (expression this)))) this root.
Definition select_all (e : jsstr) (root : nid) : X (list nid) :=
  this ← new_selector e; findElements_of this root.

(** ** Class methods *)

(** The loop of [findChildElements] over the expressions. *)
Fixpoint select_each (expressions : list jsstr) (element : nid) (results : list nid) : X (list nid) :=
  match expressions with
  | [] => mret results
  | e :: expressions =>
      l ← select_all (strip e) element;
      select_each expressions element (results ++ l)
  end.
Definition findChildElements (element : nid) (expressions : list jsstr) : X (list nid) :=
  let expressions := selector_split (join (js ",") expressions) in
  results ← select_each expressions element [];
  if (1 <? length expressions)%nat then unique results else mret results.

(** [$$(...)] *)
Definition dollar_dollar (expressions : list jsstr) : X (list nid) := findChildElements document expressions.

Definition matchElements (elements : list nid) (expression : jsstr) : X (list nid) :=
  matches ← dollar_dollar [expression];
  mark_nodes matches ;;
  s ← js_get;
  unmark_nodes matches ;;
  mret (List.filter (λ e, bool_decide (e ∈ counted s)) elements).

(** [Selector.findElement(elements, expression, index)]: an empty or missing
    expression stands for every element. *)
Definition findElement (elements : list nid) (expression : jsstr) (index : nat) : X (option nid) :=
  l ← matchElements elements (if bool_decide (expression = []) then js "*" else expression);
  mret (l !! index).

(** ** Selector.match *)

(** [Selector.assertions]; [None]: there is none for this token. *)
Definition assertion (i : token) : option (nid → match_res → D bool) :=
  match i with
  | TagName => Some (λ e m, d ← js_get; mret (bool_decide (toUpperCase (m_group_or_empty m 1) = toUpperCase (tag_of d e))))
  | ClassName => Some (λ e m, hasClassName e (m_group_or_empty m 1))
  | Id => Some (λ e m, d ← js_get; mret (bool_decide (default [] (attr_of d e (js "id")) = m_group_or_empty m 1)))
  | AttrPresence => Some (λ e m, d ← js_get; mret (hasAttribute d (m_group_or_empty m 1) e))
  | Attr => Some (λ e m,
      nodeValue ← readAttribute e (m_group_or_empty m 1);
      match default [] nodeValue with
      | [] => mret false
      | nv => match operator (m_group_or_empty m 2) with
              | Some f => mret (f nv (group_or m 5 6))
              | None => js_throw ETypeError
              end
      end)
  | Combinator _ | Pseudo => None
  end.

(** One pass of the [for in] loop, which has no [break]: the expression left
    and the tokens, or [None] when a token has no assertion. *)
Abbreviation tokens_ := (list (token * match_res)).
Fixpoint match_pass (ps : list (token * rx)) (e : jsstr) (acc : tokens_) : option (jsstr * tokens_) :=
  match ps with
  | [] => Some (e, acc)
  | (i, p) :: ps =>
      match rx_match p e with
      | None => match_pass ps e acc
      | Some m => if is_none (assertion i) then None
                  else match_pass ps (cut_text (m_text m) e) (acc ++ [(i, m)])
      end
  end.
Fixpoint match_loop (fuel : nat) (le : option jsstr) (e : jsstr) (acc : tokens_) : option tokens_ :=
  match fuel with
  | O => Some acc
  | S fuel =>
      if goes_on le e then
        '(e', acc') ← match_pass patterns e acc;
        match_loop fuel (Some e) e' acc'
      else Some acc
  end.
Definition match_tokens (e : jsstr) : option tokens_ := match_loop (S (S (length e))) None e [].

(** The loop over the assertions stops at the first that fails. *)
Fixpoint assert_all (element : nid) (l : tokens_) : D bool :=
  match l with
  | [] => mret true
  | (i, m) :: l =>
      match assertion i with
      | Some a => b ← a element m; if b : bool then assert_all element l else mret false
      | None => js_throw ETypeError
      end
  end.

(** [selector.match(element)] *)
Definition selector_match (this : selector) (element : nid) : X bool :=
  match match_tokens (expression this) with
  | Some l => on_dom (assert_all element l)
  | None => l ← findElements_of this document; mret (bool_decide (element ∈ l))
  end.

(** ** Element.Methods that take expressions *)

(** [element.match(expression)] *)
Definition element_match (element : nid) (expression : jsstr) : X bool :=
  this ← new_selector expression; selector_match this element.
Definition select (element : nid) (args : list jsstr) : X (list nid) := findChildElements element args.
Definition h_adjacent_elements (element : nid) (args : list jsstr) : X (list nid) :=
  o ← reading (λ d, parent_of d element);
  l ← findChildElements (default document o) args;
  without l [element].
Definition up_by (element : nid) (expression : jsstr) (index : nat) : X (option nid) :=
  l ← on_dom (ancestors element); findElement l expression index.
Definition down_by (element : nid) (expression : jsstr) (index : nat) : X (option nid) :=
  l ← select element [expression]; mret (l !! index).
Definition previous_by (element : nid) (expression : jsstr) (index : nat) : X (option nid) :=
  l ← on_dom (previousSiblings element); findElement l expression index.
Definition next_by (element : nid) (expression : jsstr) (index : nat) : X (option nid) :=
  l ← on_dom (nextSiblings element); findElement l expression index.
End selector.
