(* ===== verification/SelectorSpec.v ===== *)
(** * Correctness of the selector engine (prototype.js: Selector)

    The engine runs the tokens of an expression from left to right over lists
    of nodes that it marks and filters.  The reference matches from right to
    left: an element is selected when its last compound fits and what the
    combinators ask of its ancestors and siblings holds. *)

From Stdlib Require Import ZArith.
From S2P Require Import Prelude JsBase JsNum JsRegex JsReplace Enumerable Strings Hash Dom Droppable Tree Walks SelectorText Selector.
#[local] Open Scope Z_scope.
#[local] Open Scope stdpp_scope.

(** ** Lists *)

Lemma elem_of_filter_bool {A} (p : A → bool) l x : x ∈ List.filter p l ↔ x ∈ l ∧ p x = true.
Proof. by rewrite !list_elem_of_In, filter_In. Qed.
Lemma existsb_elem {A} (p : A → bool) l : existsb p l = true ↔ ∃ x, x ∈ l ∧ p x = true.
Proof. rewrite existsb_exists. by setoid_rewrite list_elem_of_In. Qed.

Lemma and_iff_compat_l_strong (A B C : Prop) : (A → B ↔ C) → (A ∧ B) ↔ (A ∧ C).
Proof. tauto. Qed.
Lemma exist_proper {A} (P Q : A → Prop) : (∀ x, P x ↔ Q x) → (∃ x, P x) ↔ ∃ x, Q x.
Proof. intros Hx. by setoid_rewrite Hx. Qed.

(** ** The reference *)

(** The tokens with the combinator before each. *)
Fixpoint steps (p : list stmt) (c : option combinator) : list (option combinator * stmt) :=
  match p with
  | [] => []
  | SCombinator c :: p => steps p (Some c)
  | q :: p => (c, q) :: steps p None
  end.

Section reference.
Context `{SelectorHost} (d : dom) (root : nid).
(** What the argument of a [:not] selects. *)
Context (excluded : jsstr → option (list nid)).

(** The nodes at the other end of a combinator. *)
Definition candidates (c : combinator) (x : nid) : list nid :=
  match c with
  | Child => List.filter (element_at d) (option_list (parent_of d x))
  | Descendant => collect_from (node_count d) d parent_of x
  | Adjacent => option_list (previousElementSibling d x)
  | LaterSibling => collect_from (node_count d) d previousSibling x
  end.

(** The pseudo-classes decided by the node and its neighbours. *)
Definition local_pseudo (name : jsstr) : option (nid → bool) :=
  if bool_decide (name = js "first-child") then Some (λ x, is_none (previousElementSibling d x))
  else if bool_decide (name = js "last-child") then Some (λ x, is_none (nextElementSibling d x))
  else if bool_decide (name = js "only-child") then
    Some (λ x, is_none (previousElementSibling d x) && is_none (nextElementSibling d x))
  else if bool_decide (name = js "empty") then Some (λ x, is_none (firstChild d x))
  else if bool_decide (name = js "enabled") then
    Some (λ x, negb (prop_disabled d x) && negb (bool_decide (prop_type d x = js "hidden")))
  else if bool_decide (name = js "disabled") then Some (prop_disabled d)
  else if bool_decide (name = js "checked") then Some (prop_checked d)
  else None.

(** The test of one token; [None] when the reference does not say. *)
Definition token_test (q : stmt) : option (nid → bool) :=
  match q with
  | SCombinator _ => None
  | STag name => Some (λ x, bool_decide (name = js "*") || bool_decide (tag_of d x = toUpperCase name))
  | SId id => Some (λ x, bool_decide (getElementById d id = Some x))
  | SClass name => Some (class_test d name)
  | SAttrPresence name => Some (hasAttribute d name)
  | SAttr name v o =>
      f ← operator o; Some (λ x, match attr_of d x name with Some nv => f nv v | None => false end)
  | SPseudo name v =>
      if bool_decide (name = js "not") then l ← excluded v; Some (λ x, negb (bool_decide (x ∈ l)))
      else local_pseudo name
  end.
Definition test (q : stmt) (x : nid) : bool := match token_test q with Some f => f x | None => false end.

(** An id after one of these combinators is also accepted when the element
    is itself selected by what precedes the combinator. *)
Definition or_itself (c : combinator) (q : stmt) : bool :=
  match q, c with SId _, (Child | Descendant | Adjacent) => true | _, _ => false end.

(** The steps, last first. *)
Fixpoint sat (p : list (option combinator * stmt)) (x : nid) : bool :=
  match p with
  | [] => has_ancestor (node_count d) d x root
  | (c, q) :: p' =>
      test q x &&
      match p', c with
      | _ :: _, Some c => existsb (sat p') (candidates c x) || or_itself c q && sat p' x
      | _, _ => sat p' x
      end
  end.

(** The universal tag names nothing unless it begins a compound. *)
Definition supported_step (first : bool) (cq : option combinator * stmt) : bool :=
  negb (is_none (token_test cq.2)) &&
  match cq.2, cq.1 with
  | STag name, None => first || negb (bool_decide (name = js "*"))
  | _, _ => true
  end.
Fixpoint supported_steps (first : bool) (p : list (option combinator * stmt)) : bool :=
  match p with [] => true | cq :: p => supported_step first cq && supported_steps false p end.

Definition reference_program (p : list stmt) : option (list nid) :=
  let l := steps p None in
  if negb (bool_decide (length l = 0%nat)) && supported_steps true l
  then Some (List.filter (sat (reverse l)) (descendants_of d root)) else None.
End reference.

(** What an expression selects below [root], in document order.  It says
    nothing of the names every object inherits. *)
Fixpoint reference `{SelectorHost} (fuel : nat) (d : dom) (root : nid) (e : jsstr) : option (list nid) :=
  match fuel with
  | O => None
  | S fuel =>
      if bool_decide (strip e ∈ object_prototype) then None
      else p ← program_of (strip e); reference_program d root (reference fuel d root) p
  end.

(** Documents of HTML: trees whose tag names are upper case. *)
Record html_ok (d : dom) : Prop := {
  html_tree : dom_ok d;
  html_acyclic : acyclic d;
  html_tags x : toUpperCase (tag_of d x) = tag_of d x;
  html_no_comment x : tag_of d x ≠ js "!";
}.

(** A host without XPath and without the selectors API. *)
Definition plain_host (H : SelectorHost) : Prop := XPath = false ∧ SelectorsAPI = false.

(** ** Combinators *)

Section combinators.
Context (d : dom) (Hd : html_ok d).

Lemma elem_of_all x a : x ∈ getElementsByTagName d a (js "*") ↔ element_at d x = true ∧ above d x a.
Proof.
  unfold getElementsByTagName. rewrite bool_decide_eq_true_2 by done.
  apply elem_of_descendants; [apply html_tree|apply html_acyclic]; done.
Qed.
Lemma elem_of_tagged x a name : x ∈ getElementsByTagName d a name ↔
  element_at d x = true ∧ above d x a ∧ bool_decide (name = js "*") || bool_decide (tag_of d x = toUpperCase name) = true.
Proof.
  unfold getElementsByTagName. case_bool_decide.
  - rewrite elem_of_descendants by (apply html_tree || apply html_acyclic; done). tauto.
  - rewrite elem_of_filter_bool, elem_of_descendants by (apply html_tree || apply html_acyclic; done).
    rewrite orb_false_l. tauto.
Qed.

Lemma combine_spec c l x : (∀ y, y ∈ l → element_at d y = true) →
  x ∈ combine c d l ↔ element_at d x = true ∧ ∃ y, y ∈ l ∧ y ∈ candidates d c x.
Proof.
  intros Hl. pose proof (html_tree d Hd) as Hok. pose proof (html_acyclic d Hd) as Hac. destruct c; cbn [combine candidates].
  - unfold h_laterSibling, next_siblings. rewrite list_elem_of_bind. split.
    + intros (y & Hx & Hy). apply (elem_of_next d Hok) in Hx as [Hx Hb]. split; [done|]. exists y. split; [done|].
      apply (elem_of_previous d Hok). split; [by apply Hl|done].
    + intros [Hx (y & Hy & [_ Hb]%(elem_of_previous d Hok))]. exists y. split; [|done]. by apply (elem_of_next d Hok).
  - unfold h_child. rewrite list_elem_of_bind. setoid_rewrite elem_of_filter_bool. split.
    + intros (y & [Hx Ht] & Hy). apply andb_true_iff in Ht as [He _]. apply (ok_child d Hok) in Hx.
      split; [done|]. exists y. split; [done|]. rewrite Hx. split; [|by apply Hl]. cbn. by left.
    + intros [Hx (y & Hy & Hin & _)]. exists y. split; [|done].
      destruct (parent_of d x) as [p|] eqn:Hp; [|by apply not_elem_of_nil in Hin].
      cbn in Hin. apply list_elem_of_singleton in Hin as ->. split; [by apply (ok_parent d Hok)|].
      rewrite Hx, bool_decide_eq_false_2; [done|]. apply (html_no_comment d Hd).
  - unfold h_adjacent. rewrite list_elem_of_omap. split.
    + intros (y & Hy & Hx). pose proof Hx as [Hex _]%(next_element_spec d Hok). split; [done|]. exists y. split; [done|].
      apply (next_previous d Hok) in Hx; [|by apply Hl|done]. rewrite Hx. by left.
    + intros [Hx (y & Hy & Hin)]. exists y. split; [done|].
      destruct (previousElementSibling d x) as [z|] eqn:Hz; [|by apply not_elem_of_nil in Hin].
      cbn in Hin. apply list_elem_of_singleton in Hin as ->. apply (next_previous d Hok); [by apply Hl|done..].
  - unfold h_descendant. rewrite list_elem_of_bind. setoid_rewrite elem_of_all.
    setoid_rewrite (elem_of_ancestors d x _ Hac). split.
    + intros (y & [Hx Hy] & Hyl). split; [done|]. exists y. split; [done|]. split; [by apply Hl|done].
    + intros [Hx (y & Hy & _ & Hab)]. by exists y.
Qed.

(** Combinators stay below a node. *)
Lemma candidates_below c x y a : y ∈ candidates d c x → above d y a → above d x a.
Proof.
  pose proof (html_tree d Hd) as Hok. pose proof (html_acyclic d Hd) as Hac.
  intros Hy Ha. assert (before_in d y x → above d x a) as Hsib.
  { intros (p & Hyp & Hxp)%(before_parent d Hok). destruct (above_step d y p a Hyp Ha) as [->|Hp]; [by apply tc_once|].
    by eapply tc_l. }
  destruct c; cbn [candidates] in Hy.
  - apply (elem_of_previous d Hok) in Hy as [_ Hb]. by apply Hsib.
  - apply elem_of_filter_bool in Hy as [Hy _]. destruct (parent_of d x) as [p|] eqn:Hp; [|by apply not_elem_of_nil in Hy].
    cbn in Hy. apply list_elem_of_singleton in Hy as ->. by eapply tc_l.
  - destruct (previousElementSibling d x) as [z|] eqn:Hz; [|by apply not_elem_of_nil in Hy].
    cbn in Hy. apply list_elem_of_singleton in Hy as ->.
    apply (previous_element_spec d Hok) in Hz as [_ Hz]. by apply Hsib, adjacent_before.
  - apply (elem_of_ancestors d x y Hac) in Hy as [_ Hxy]. eapply tc_transitive; [exact Hxy|exact Ha].
Qed.
Lemma candidates_element c x y : y ∈ candidates d c x → element_at d y = true.
Proof.
  pose proof (html_tree d Hd) as Hok. pose proof (html_acyclic d Hd) as Hac. destruct c; cbn [candidates].
  - by intros [? _]%(elem_of_previous d Hok).
  - by intros [_ ?]%elem_of_filter_bool.
  - destruct (previousElementSibling d x) as [z|] eqn:Hz; [|by intros ?%not_elem_of_nil].
    cbn. intros ->%list_elem_of_singleton. by apply (previous_element_spec d Hok) in Hz as [? _].
  - by intros [? _]%(elem_of_ancestors d x y Hac).
Qed.
End combinators.

(** Decide the equations between constant texts. *)
Ltac decide_texts :=
  repeat match goal with
  | |- context [bool_decide (js ?a = js ?b)] =>
      let v := eval vm_compute in (bool_decide (js a = js b)) in change (bool_decide (js a = js b)) with v
  end; cbv iota beta.

(** ** Marks *)

Lemma set_counted_same s c : counted s = c → set_counted c s = s.
Proof. intros <-. by destruct s. Qed.
Lemma mark_node_run n s : mark_node n s = (Ret (), set_counted ({[n]} ∪ counted s) s).
Proof. done. Qed.
Lemma unmark_node_run n s : unmark_node n s = (Ret (), set_counted (counted s ∖ {[n]}) s).
Proof. done. Qed.
Lemma mark_nodes_run l s : mark_nodes l s = (Ret (), set_counted (list_to_set l ∪ counted s) s).
Proof.
  revert s. induction l as [|n l IH]; intros s.
  - cbn. rewrite (set_counted_same s) by set_solver. done.
  - unfold mark_nodes in *. cbn [js_each]. rewrite (js_bind_Ret _ _ _ _ _ (mark_node_run n s)), IH.
    unfold set_counted. cbn. do 2 f_equal. set_solver.
Qed.
Lemma unmark_nodes_run l s : unmark_nodes l s = (Ret (), set_counted (counted s ∖ list_to_set l) s).
Proof.
  revert s. induction l as [|n l IH]; intros s.
  - cbn. rewrite (set_counted_same s) by set_solver. done.
  - unfold unmark_nodes in *. cbn [js_each]. rewrite (js_bind_Ret _ _ _ _ _ (unmark_node_run n s)), IH.
    unfold set_counted. cbn. do 2 f_equal. set_solver.
Qed.

(** What [unique] keeps: the first of each node not marked before. *)
Lemma unique_loop_run l acc s : (∀ x, x ∈ acc → x ∈ counted s) → NoDup acc → ∃ r, unique_loop l acc s = (Ret r, set_counted (list_to_set r ∪ counted s) s) ∧
  NoDup r ∧ ∀ x, x ∈ r ↔ x ∈ acc ∨ (x ∈ l ∧ x ∉ counted s).
Proof.
  revert acc s. induction l as [|n l IH]; intros acc s Hacc Hnd; cbn [unique_loop].
  - exists acc. split_and!; [|done|set_solver]. rewrite (set_counted_same s) by set_solver. done.
  - unfold is_counted. rewrite js_bind_gets. case_bool_decide as Hn.
    + destruct (IH acc s Hacc Hnd) as (r & Hr & Hndr & Hin). exists r. split_and!; [done..|].
      intros x. rewrite Hin, elem_of_cons. split; [tauto|]. intros [?|[[->|?] ?]]; [by left|done|by right].
    + unfold mark_node. rewrite js_bind_modify.
      destruct (IH (acc ++ [n]) (set_counted ({[n]} ∪ counted s) s)) as (r & Hr & Hndr & Hin); cbn.
      * set_solver.
      * apply NoDup_app. split; [done|]. split; [|by repeat constructor; intros ?%not_elem_of_nil].
        intros x Hx ->%list_elem_of_singleton. by apply Hn, Hacc.
      * exists r. rewrite Hr. cbn. split_and!.
        -- unfold set_counted. cbn. do 2 f_equal. assert (n ∈ r) by (apply Hin; set_solver). set_solver.
        -- done.
        -- intros x. rewrite Hin. cbn. destruct (decide (x = n)) as [->|]; set_solver.
Qed.
Lemma unique_run l s : counted s = ∅ → ∃ r, unique l s = (Ret r, s) ∧ NoDup r ∧ ∀ x, x ∈ r ↔ x ∈ l.
Proof.
  intros Hs. destruct l as [|n l].
  { exists []. split_and!; [done|constructor|done]. }
  unfold unique. destruct (unique_loop_run (n :: l) [] s) as (r & Hr & Hnd & Hin); [by intros x ?%not_elem_of_nil|constructor|].
  exists r. rewrite (js_bind_Ret _ _ _ _ _ Hr), (js_bind_Ret _ _ _ _ _ (unmark_nodes_run _ _)).
  split_and!; [|done|].
  - unfold mret, js_mret. f_equal. destruct s as [d c i k n']; cbn in *. subst c. unfold set_counted. cbn. f_equal. set_solver.
  - intros x. rewrite Hin, Hs. set_solver.
Qed.

(** ** One statement *)

Section run.
Context `{SelectorHost} (d : dom) (root : nid) (Hd : html_ok d).
Context (find : jsstr → nid → X (list nid)) (E : jsstr → option (list nid)) (ready : sel → Prop).
Context (Hready : ∀ s, ready s → sdom s = d ∧ counted s = ∅).
(** The search of the argument of [:not]. *)
Context (Hfind : ∀ v l s, E v = Some l → ready s → ∃ l' s', find v root s = (Ret l', s') ∧ ready s' ∧ ∀ x, x ∈ l' ↔ x ∈ l).

#[local] Abbreviation sat_ := (sat d root E).
#[local] Abbreviation test_ := (test d E).

(** The nodes are those the steps so far select. *)
Definition picks (pre : list (option combinator * stmt)) (nodes : option (list nid)) : Prop :=
  match nodes with
  | None => pre = []
  | Some l => pre ≠ [] ∧ ∀ x, x ∈ l ↔ element_at d x = true ∧ sat_ pre x = true
  end.

Lemma sat_below pre x : sat_ pre x = true → above d x root.
Proof.
  revert x. induction pre as [|[c q] pre IH]; intros x; cbn [sat].
  { apply has_ancestor_above, Hd. }
  intros [_ Hs]%andb_true_iff. destruct pre as [|cq pre]; [by apply IH|]. destruct c as [c|]; [|by apply IH].
  apply orb_true_iff in Hs as [Hs|[_ Hs]%andb_true_iff]; [|by apply IH].
  apply existsb_elem in Hs as (y & Hy & Hs). eapply (candidates_below d Hd); [exact Hy|by apply IH].
Qed.

(** The nodes a token with its combinator starts from. *)
Lemma start_spec pre nodes c x : picks pre nodes →
  x ∈ start_nodes d nodes root c ↔ element_at d x = true ∧
    match pre, c with
    | _ :: _, Some c => existsb (sat_ pre) (candidates d c x) = true
    | _, _ => sat_ pre x = true
    end.
Proof.
  intros Hs. unfold start_nodes. destruct nodes as [l|]; cbn [picks] in Hs.
  - destruct Hs as [Hpre Hl]. destruct pre as [|cq pre]; [done|]. destruct c as [c|]; [|apply Hl].
    cbn [combined]. rewrite (combine_spec d Hd) by (intros y Hy; by apply Hl). rewrite existsb_elem.
    split; intros [Hx (y & Hy & Hc)]; (split; [done|]); exists y.
    + split; [done|]. by apply Hl.
    + split; [|done]. apply Hl. split; [by eapply candidates_element|done].
  - subst pre. rewrite (elem_of_all d Hd). cbn [sat]. rewrite has_ancestor_above by apply Hd. tauto.
Qed.

(** A token whose function filters these nodes. *)
Lemma filtered pre nodes c q (f : nid → bool) l : picks pre nodes → (∀ x, element_at d x = true → test_ q x = f x) →
  (∀ c', or_itself c' q = false) →
  (∀ x, x ∈ l ↔ x ∈ start_nodes d nodes root c ∧ f x = true) → picks ((c, q) :: pre) (Some l).
Proof.
  intros Hs Hf Hor Hl. split; [done|]. intros x. rewrite Hl, (start_spec pre nodes c x Hs). cbn [sat].
  rewrite andb_true_iff. destruct (element_at d x) eqn:Hx; [|split; intros [? ?]; naive_solver]. rewrite (Hf x Hx).
  destruct pre as [|cq pre], c as [c|]; rewrite ?Hor, ?andb_false_l, ?orb_false_r; tauto.
Qed.

Lemma tag_test name x : has_tag d name x = bool_decide (tag_of d x = toUpperCase name).
Proof. unfold has_tag. by rewrite (html_tags d Hd). Qed.

Lemma tag_step pre nodes c name : picks pre nodes → supported_step d E (is_none nodes) (c, STag name) = true →
  picks ((c, STag name) :: pre) (Some (h_tagName d nodes root name c)).
Proof.
  intros Hs Hsup. apply (filtered pre nodes c (STag name)
    (λ x, bool_decide (name = js "*") || bool_decide (tag_of d x = toUpperCase name))); [done|done|by intros []|].
  intros x. destruct nodes as [l|]; cbn [h_tagName start_nodes].
  - assert (name = js "*" → c ≠ None) as Hstar.
    { intros -> ->. cbn in Hsup. done. }
    destruct c as [c|]; cbn [combined].
    + assert (x ∈ combine c d l → element_at d x = true) as Hel.
      { intros Hx. apply (combine_spec d Hd) in Hx as [? _]; [done|]. intros y Hy. by apply Hs. }
      destruct c; try (case_bool_decide; rewrite ?elem_of_filter_bool, ?tag_test; cbn; tauto).
      cbn [combine]. unfold h_descendant. rewrite !list_elem_of_bind.
      setoid_rewrite (elem_of_all d Hd). setoid_rewrite (elem_of_tagged d Hd). naive_solver.
    + rewrite elem_of_filter_bool, tag_test, (bool_decide_eq_false_2 (name = js "*")); [done|]. intros ->. by apply Hstar.
  - rewrite (elem_of_tagged d Hd), (elem_of_all d Hd). tauto.
Qed.

(** The loops over the selected nodes look for one at the other end. *)
Lemma over_candidates pre l c x : picks pre (Some l) → existsb (sat_ pre) (candidates d c x) = true ↔
  ∃ y, y ∈ l ∧ y ∈ candidates d c x.
Proof.
  intros [_ Hl]. rewrite existsb_elem. split; intros (y & Hy & Hc); exists y.
  - split; [|done]. apply Hl. split; [by eapply candidates_element|done].
  - split; [done|]. by apply Hl.
Qed.
Lemma elem_of_only_if b e x : x ∈ only_if b e ↔ x = e ∧ b = true.
Proof. destruct b; cbn; [rewrite list_elem_of_singleton; tauto|]. split; [by intros ?%not_elem_of_nil|by intros [_ ?]]. Qed.
Lemma getElementById_below id e : getElementById d id = Some e → element_at d e = true ∧ above d e document.
Proof.
  unfold getElementById. intros ([i x] & Hf & ->)%fmap_Some. apply list_find_Some in Hf as (Hx & _ & _).
  apply list_elem_of_lookup_2 in Hx. by apply elem_of_descendants in Hx; [|apply Hd..].
Qed.

Lemma id_candidates c l t : (∀ y, y ∈ l → element_at d y = true) → c ≠ LaterSibling → existsb (λ node,
    match c with
    | Child => bool_decide (parent_of d t = Some node)
    | Adjacent => bool_decide (previousElementSibling d t = Some node)
    | _ => has_ancestor (node_count d) d t node
    end) l = true ↔ ∃ y, y ∈ l ∧ y ∈ candidates d c t.
Proof.
  intros Hl Hc. rewrite existsb_elem. apply exist_proper. intros y. apply and_iff_compat_l_strong. intros Hy.
  destruct c; [done|..]; cbn [candidates].
  - rewrite bool_decide_eq_true, elem_of_filter_bool. destruct (parent_of d t) as [p|]; cbn.
    + rewrite list_elem_of_singleton. naive_solver.
    + split; [done|]. by intros [?%not_elem_of_nil _].
  - rewrite bool_decide_eq_true. destruct (previousElementSibling d t) as [p|]; cbn.
    + rewrite list_elem_of_singleton. naive_solver.
    + split; [done|]. by intros ?%not_elem_of_nil.
  - rewrite has_ancestor_above, elem_of_ancestors by apply Hd. naive_solver.
Qed.

Lemma id_step pre nodes c id : picks pre nodes →
  picks ((c, SId id) :: pre) (Some (h_id d nodes root id c)).
Proof.
  intros Hs. split; [done|]. intros x. cbn [sat]. unfold test at 1. cbn [token_test]. unfold h_id.
  destruct (getElementById d id) as [t|] eqn:Ht.
  2: { rewrite bool_decide_eq_false_2 by done. split; [by intros ?%not_elem_of_nil|by intros [_ ?]]. }
  apply getElementById_below in Ht as [Het Hat]. rewrite andb_true_iff, bool_decide_eq_true.
  destruct nodes as [l|].
  - pose proof Hs as [Hpre Hl]. destruct pre as [|cq pre]; [done|]. set (pre' := cq :: pre) in *.
    assert (∀ y, y ∈ l → element_at d y = true) as Hle by (intros y Hy; by apply Hl).
    assert (∀ c', c' ≠ LaterSibling → or_itself c' (SId id) = true) as Hor by (by intros []).
    assert (∀ y, bool_decide (y ∈ l) = true ↔ element_at d y = true ∧ sat_ pre' y = true) as Hbl
      by (intros y; by rewrite bool_decide_eq_true, Hl).
    destruct c as [c|]; [destruct (decide (c = LaterSibling)) as [->|Hc]|].
    + rewrite elem_of_only_if, bool_decide_eq_true, (combine_spec d Hd) by done.
      rewrite <- (over_candidates pre' l) by done. cbn [or_itself]. rewrite andb_false_l, orb_false_r. naive_solver.
    + rewrite Hor, andb_true_l, orb_true_iff, (over_candidates pre' l) by done.
      pose proof (id_candidates c l t Hle Hc) as Hic. pose proof (Hbl t) as Ht.
      destruct c; [done|..]; rewrite elem_of_only_if, orb_true_iff, Hic, Ht; clear -Het; naive_solver.
    + rewrite elem_of_only_if, Hbl. naive_solver.
  - cbn in Hs. subst pre. cbn [sat]. case_bool_decide as Hroot.
    + rewrite list_elem_of_singleton, has_ancestor_above by apply Hd. subst root. naive_solver.
    + rewrite elem_of_only_if. naive_solver.
Qed.

Lemma filter_step pre nodes c q (f : nid → bool) : picks pre nodes →
  token_test d E q = Some f → (∀ c', or_itself c' q = false) →
  picks ((c, q) :: pre) (Some (List.filter f (start_nodes d nodes root c))).
Proof.
  intros Hs Hf Hor. apply (filtered pre nodes c q f); [done| |done|intros x; by rewrite elem_of_filter_bool].
  intros x _. unfold test. by rewrite Hf.
Qed.

Lemma class_step pre nodes c name : picks pre nodes →
  picks ((c, SClass name) :: pre) (Some (h_className d nodes root name c)).
Proof.
  intros Hs. replace (h_className d nodes root name c) with (List.filter (class_test d name) (start_nodes d nodes root c)).
  { by apply filter_step. }
  destruct nodes as [l|]; [done|]. cbn. unfold byClassName. cbn. by rewrite app_nil_r.
Qed.

Lemma attr_loop_run name v f l acc :
  attr_loop d name v (Some f) l acc =
    Ret (acc ++ List.filter (λ x, match attr_of d x name with Some nv => f nv v | None => false end) l).
Proof.
  revert acc. induction l as [|n l IH]; intros acc; cbn; [by rewrite app_nil_r|].
  destruct (attr_of d n name) as [nv|]; rewrite IH; [|done]. destruct (f nv v); [|done]. by rewrite <- app_assoc.
Qed.

Lemma p_not_run nodes v l s : E v = Some l → ready s → ∃ r s', p_not find nodes v root s = (Ret r, s') ∧ ready s' ∧
  r = List.filter (λ x, negb (bool_decide (x ∈ l))) nodes.
Proof.
  intros Hv Hs. destruct (Hfind v l s Hv Hs) as (l' & s' & Hrun & Hs' & Hin). unfold p_not.
  rewrite (js_bind_Ret _ _ _ _ _ Hrun), (js_bind_Ret _ _ _ _ _ (mark_nodes_run _ _)), js_bind_get.
  rewrite (js_bind_Ret _ _ _ _ _ (unmark_nodes_run _ _)). cbn. destruct (Hready s' Hs') as [_ Hc].
  eexists _, s'. split_and!; [|done|].
  - unfold mret, js_mret. f_equal. destruct s' as [d' c i k n']; cbn in *. subst c. unfold set_counted. cbn. f_equal. set_solver.
  - apply List.filter_ext. intros x. f_equal. apply bool_decide_ext. rewrite Hc, elem_of_union, elem_of_list_to_set, Hin. set_solver.
Qed.

Lemma pseudos_not nodes v : pseudos find (js "not") nodes v root = p_not find nodes v root.
Proof. unfold pseudos. by decide_texts. Qed.
Lemma local_pseudo_run name f nodes v s : local_pseudo d name = Some f → ready s →
  pseudos find name nodes v root s = (Ret (List.filter f nodes), s).
Proof.
  intros Hf Hs. destruct (Hready s Hs) as [Hds _].
  unfold local_pseudo in Hf.
  repeat match type of Hf with
  | (if bool_decide ?P then _ else _) = _ => destruct (bool_decide_reflect P) as [Hn|_]; [subst name; injection Hf as <-|]
  end; [..|done];
    unfold pseudos, reading, js_gets; decide_texts; rewrite Hds; try reflexivity.
  - unfold p_empty. do 2 f_equal. apply List.filter_ext. intros x.
    rewrite bool_decide_eq_false_2 by apply (html_no_comment d Hd). cbn. apply negb_involutive.
  - unfold p_enabled. do 2 f_equal. apply List.filter_ext. intros x. f_equal.
    case_bool_decide as Ht; [|done]. by rewrite Ht, bool_decide_eq_false_2.
Qed.

(** Every supported token, with any combinator, selects what the steps say. *)
Lemma stmt_step pre nodes c q s : picks pre nodes → ready s → supported_step d E (is_none nodes) (c, q) = true →
  ∃ l s', run_stmt find root q nodes c s = (Ret (Some l, None), s') ∧ ready s' ∧ picks ((c, q) :: pre) (Some l).
Proof.
  intros Hs Hr Hsup. destruct (Hready s Hr) as [Hds _].
  destruct q as [c'|name|id|name|name|name v o|name v]; cbn [run_stmt]; unfold reading; rewrite ?js_bind_gets, ?Hds.
  - done.
  - eexists _, s. split_and!; [done..|]. by apply tag_step.
  - eexists _, s. split_and!; [done..|]. by apply id_step.
  - eexists _, s. split_and!; [done..|]. by apply class_step.
  - eexists _, s. split_and!; [done..|]. by apply filter_step.
  - unfold h_attr. cbn -[operator] in Hsup. destruct (operator o) as [f|] eqn:Ho.
    2: { unfold supported_step in Hsup. cbn -[operator] in Hsup. by rewrite Ho in Hsup. }
    rewrite attr_loop_run. eexists _, s. split_and!; [done..|]. apply filter_step; [done| |done]. cbn -[operator]. by rewrite Ho.
  - unfold h_pseudo, reading. rewrite js_bind_assoc, js_bind_gets, Hds.
    unfold supported_step in Hsup. apply andb_true_iff in Hsup as [Hsup _]. cbn [fst snd] in Hsup.
    destruct (token_test d E (SPseudo name v)) as [f|] eqn:Hf; [|done]. pose proof Hf as Hf'. cbn -[js] in Hf.
    destruct (bool_decide_reflect (name = js "not")) as [Hn|Hn].
    + subst name. destruct (E v) as [l|] eqn:Hv; [|done].
      destruct (p_not_run (start_nodes d nodes root c) v l s Hv Hr) as (r & s' & Hrun & Hr' & ->).
      rewrite pseudos_not, (js_bind_Ret _ _ _ _ _ Hrun). eexists _, s'. split_and!; [done..|].
      injection Hf as <-. by apply filter_step.
    + rewrite (js_bind_Ret _ _ _ _ _ (local_pseudo_run name f _ v s Hf Hr)). eexists _, s. split_and!; [done..|].
      by apply filter_step.
Qed.

Lemma steps_cons q : (∃ c, q = SCombinator c) ∨ ∀ p c, steps (q :: p) c = (c, q) :: steps p None.
Proof. destruct q as [c| | | | | |]; [left; by exists c|by right..]. Qed.

(** The statements one after another. *)
Lemma stmts_run p pre nodes c s : picks pre nodes → ready s →
  supported_steps d E (is_none nodes) (steps p c) = true → (nodes = None → steps p c ≠ []) →
  ∃ l s', run_stmts find root p nodes c s = (Ret (Some l), s') ∧ ready s' ∧
    picks (reverse (steps p c) ++ pre) (Some l).
Proof.
  revert pre nodes c s. induction p as [|q p IH]; intros pre nodes c s Hs Hr Hsup Hne; cbn [run_stmts].
  - destruct nodes as [l|]; [|by destruct Hne]. by exists l, s.
  - destruct (steps_cons q) as [[c' ->]|Hq].
    + cbn [run_stmt steps] in *. rewrite js_bind_ret. cbn [fst snd]. by apply IH.
    + rewrite Hq in *. cbn [supported_steps] in Hsup. apply andb_true_iff in Hsup as [Hsup Hsup'].
      destruct (stmt_step pre nodes c q s Hs Hr Hsup) as (l & s1 & Hrun & Hr1 & Hs1).
      rewrite (js_bind_Ret _ _ _ _ _ Hrun). cbn [fst snd].
      destruct (IH ((c, q) :: pre) (Some l) None s1) as (l' & s2 & Hrun' & Hr2 & Hs2); [done..|].
      exists l', s2. split_and!; [done..|]. by rewrite reverse_cons, <- app_assoc.
Qed.

(** The matcher returns each node the reference selects once. *)
Lemma matcher_run p l s : ready s → reference_program d root E p = Some l →
  ∃ r s', matcher find p root s = (Ret r, s') ∧ ready s' ∧ r ≡ₚ l.
Proof.
  intros Hr Hp. unfold reference_program in Hp. cbv zeta in Hp.
  destruct (negb _ && _) eqn:Hsup; [|done]. injection Hp as <-. apply andb_true_iff in Hsup as [Hne Hsup].
  rewrite negb_true_iff, bool_decide_eq_false, length_zero_iff_nil in Hne.
  destruct (stmts_run p [] None None s) as (l & s1 & Hrun & Hr1 & _ & Hs1); [done..|].
  unfold matcher. rewrite (js_bind_Ret _ _ _ _ _ Hrun). destruct (Hready s1 Hr1) as [_ Hc].
  destruct (unique_run l s1 Hc) as (r & Hu & Hnd & Hin). exists r, s1. split_and!; [done..|].
  apply NoDup_Permutation; [done| |].
  - apply NoDup_ListNoDup, List.NoDup_filter, NoDup_ListNoDup. by apply NoDup_descendants; apply Hd.
  - intros x. rewrite Hin, Hs1, app_nil_r, elem_of_filter_bool, elem_of_descendants by apply Hd.
    split; [intros [? Hx]; split_and!; [done|by eapply sat_below|done]|tauto].
Qed.
End run.

(** ** The cache and selector objects *)

Section selectors.
Context `{SelectorHost}.

(** What is compiled for an expression is what its mode asks for. *)
Definition compiled_ok (e : jsstr) (m : compiled) : Prop :=
  match m with
  | Inherited _ => False
  | XPathText x => shouldUseXPath e = true ∧ xpath_of e = Ret x
  | Matcher p => shouldUseXPath e = false ∧ program_of e = Some p
  end.
Definition cache_ok (s : sel) : Prop := ∀ e m, _cache s !! e = Some m → compiled_ok e m.
Definition selector_ok (this : selector) : Prop :=
  match mode this, compiled_as this with
  | ModeAPI, None => shouldUseSelectorsAPI (expression this) = true
  | ModeXPath, Some (XPathText x) => compiled_ok (expression this) (XPathText x)
  | ModeNormal, Some (Matcher p) => compiled_ok (expression this) (Matcher p)
  | ModeXPath, Some (Inherited name) => name = expression this ∧ name ∈ object_prototype ∧ shouldUseXPath name = true
  | ModeNormal, Some (Inherited name) => name = expression this ∧ name ∈ object_prototype ∧ shouldUseXPath name = false
  | _, _ => False
  end.

Lemma cached_ok e s m : cache_ok s → cached s e = Some m → compiled_ok e m ∨ m = Inherited e ∧ e ∈ object_prototype.
Proof.
  intros Hs. unfold cached. destruct (_cache s !! e) as [m'|] eqn:Hm; [intros [= <-]; left; by apply Hs|].
  case_bool_decide; [|done]. intros [= <-]. by right.
Qed.
Lemma compileMatcher_ok e s r s' : shouldUseXPath e = false → cache_ok s → compileMatcher e s = (r, s') →
  cache_ok s' ∧ (∃ c, s' = set_cache c s) ∧ ∀ m, r = Ret m → (∃ p, m = Matcher p ∧ program_of e = Some p) ∨ m = Inherited e ∧ e ∈ object_prototype.
Proof.
  intros He Hs. unfold compileMatcher. rewrite js_bind_get. destruct (cached s e) as [m|] eqn:Hm.
  - intros [= <- <-]. split; [done|]. split; [by exists (_cache s); destruct s|]. intros m' [= <-].
    apply cached_ok in Hm as [Hm|Hm]; [left|by right|done]. destruct m as [p|x|x]; [by exists p; destruct Hm|destruct Hm; congruence|done].
  - destruct (program_of e) as [p|] eqn:Hp.
    + rewrite js_bind_modify. intros [= <- <-]. split; [|split; [by eexists|intros m [= <-]; left; by exists p]].
      intros e' m. cbn. destruct (decide (e' = e)) as [->|]; rewrite ?lookup_insert_eq, ?lookup_insert_ne by done.
      * by intros [= <-].
      * apply Hs.
    + intros [= <- <-]. split; [done|]. by split; [by exists (_cache s); destruct s|].
Qed.
Lemma compileXPathMatcher_ok e s r s' : shouldUseXPath e = true → cache_ok s → compileXPathMatcher e s = (r, s') →
  cache_ok s' ∧ ∀ m, r = Ret m → (∃ x, m = XPathText x ∧ xpath_of e = Ret x) ∨ m = Inherited e ∧ e ∈ object_prototype.
Proof.
  intros He Hs. unfold compileXPathMatcher. rewrite js_bind_get. destruct (cached s e) as [m|] eqn:Hm.
  - intros [= <- <-]. split; [done|]. intros m' [= <-].
    apply cached_ok in Hm as [Hm|Hm]; [left|by right|done]. destruct m as [p|x|x]; [destruct Hm; congruence|by exists x; destruct Hm|done].
  - destruct (xpath_of e) as [x|] eqn:Hp.
    + rewrite js_bind_modify. intros [= <- <-]. split; [|intros m [= <-]; left; by exists x].
      intros e' m. cbn. destruct (decide (e' = e)) as [->|]; rewrite ?lookup_insert_eq, ?lookup_insert_ne by done.
      * by intros [= <-].
      * apply Hs.
    + by intros [= <- <-].
Qed.
Lemma new_selector_ok e s r s' : cache_ok s → new_selector e s = (r, s') →
  cache_ok s' ∧ ∀ this, r = Ret this → expression this = strip e ∧ selector_ok this.
Proof.
  intros Hs. unfold new_selector. destruct (shouldUseSelectorsAPI (strip e)) eqn:Hapi.
  { intros [= <- <-]. split; [done|]. by intros this [= <-]. }
  destruct (shouldUseXPath (strip e)) eqn:Hx; unfold mbind, js_mbind.
  - destruct (compileXPathMatcher (strip e) s) as [r1 s1] eqn:Hc.
    apply compileXPathMatcher_ok in Hc as [Hs1 Hr1]; [|done..]. destruct r1 as [m|]; intros [= <- <-]; split; [done| |done..].
    intros this [= <-]. by destruct (Hr1 m eq_refl) as [(x & -> & ?)|[-> ?]].
  - destruct (compileMatcher (strip e) s) as [r1 s1] eqn:Hc.
    apply compileMatcher_ok in Hc as (Hs1 & _ & Hr1); [|done..]. destruct r1 as [m|]; intros [= <- <-]; split; [done| |done..].
    intros this [= <-]. by destruct (Hr1 m eq_refl) as [(x & -> & ?)|[-> ?]].
Qed.

(** *** On a host without XPath and selectors API *)

Context (Hplain : plain_host _).
Lemma plain_modes e : shouldUseSelectorsAPI e = false ∧ shouldUseXPath e = false.
Proof. destruct Hplain as [H1 H2]. unfold shouldUseSelectorsAPI, shouldUseXPath. by rewrite H1, H2. Qed.

Definition ready (d : dom) (s : sel) : Prop := sdom s = d ∧ counted s = ∅ ∧ cache_ok s.

Lemma new_selector_plain d e p s : ready d s → strip e ∉ object_prototype → program_of (strip e) = Some p →
  ∃ s', new_selector e s = (Ret (Selector_ (strip e) ModeNormal (Some (Matcher p))), s') ∧ ready d s'.
Proof.
  intros (Hd & Hc & Hs) Hown Hp. unfold new_selector. destruct (plain_modes (strip e)) as [-> Hx]. rewrite Hx.
  unfold mbind, js_mbind. destruct (compileMatcher (strip e) s) as [r s'] eqn:Hrun.
  pose proof Hrun as (Hs' & [c ->] & Hr)%compileMatcher_ok; [|done..]. destruct r as [m|x].
  - destruct (Hr m eq_refl) as [(p' & -> & Hp')|[_ ?]]; [|done]. replace p' with p by congruence. by eexists.
  - exfalso. unfold compileMatcher in Hrun. rewrite js_bind_get in Hrun.
    destruct (cached s (strip e)); [done|]. by rewrite Hp in Hrun.
Qed.

Lemma run_selector_plain d root p find E e s : html_ok d → ready d s →
  (∀ v l s, E v = Some l → ready d s → ∃ l' s', find v root s = (Ret l', s') ∧ ready d s' ∧ ∀ x, x ∈ l' ↔ x ∈ l) →
  ∀ l, reference_program d root E p = Some l →
  ∃ r s', run_selector find (Selector_ e ModeNormal (Some (Matcher p))) root s = (Ret r, s') ∧ ready d s' ∧ r ≡ₚ l.
Proof.
  intros Hd Hs Hfind l Hl. unfold run_selector. cbn [mode compiled_as].
  apply (matcher_run d root Hd find E (ready d)); [|done..]. by intros s' (? & ? & _).
Qed.

Lemma find_with_plain d root : html_ok d → ∀ fuel e l s, reference fuel d root e = Some l → ready d s →
  ∃ r s', find_with fuel e root s = (Ret r, s') ∧ ready d s' ∧ r ≡ₚ l.
Proof.
  intros Hd. induction fuel as [|fuel IH]; intros e l s; [done|]. cbn [reference find_with].
  case_bool_decide as Hown; [done|]. destruct (program_of (strip e)) as [p|] eqn:Hp; [|done]. cbn. intros Hl Hs.
  destruct (new_selector_plain d e p s Hs Hown Hp) as (s1 & Hrun & Hs1). rewrite (js_bind_Ret _ _ _ _ _ Hrun).
  apply (run_selector_plain d root p _ (reference fuel d root)); [done..| |done].
  intros v l' s' Hv Hs'. destruct (IH v l' s' Hv Hs') as (r & s'' & Hr & Hs'' & Hp'). exists r, s''.
  split_and!; [done..|]. intros x. by rewrite Hp'.
Qed.

(** What [new Selector(e).findElements(root)] is to return. *)
Definition selection (d : dom) (root : nid) (e : jsstr) : option (list nid) :=
  reference (S (S (length (strip e)))) d root e.

Lemma select_all_plain d root e l s : html_ok d → selection d root e = Some l → ready d s →
  ∃ r s', select_all e root s = (Ret r, s') ∧ ready d s' ∧ r ≡ₚ l.
Proof.
  intros Hd. unfold selection. cbn [reference]. case_bool_decide as Hown; [done|]. destruct (program_of (strip e)) as [p|] eqn:Hp; [|done].
  cbn [mbind option_bind]. intros Hl Hs. unfold select_all.
  destruct (new_selector_plain d e p s Hs Hown Hp) as (s1 & Hrun & Hs1). rewrite (js_bind_Ret _ _ _ _ _ Hrun).
  unfold findElements_of. cbn [expression].
  apply (run_selector_plain d root p _ (reference (S (length (strip e))) d root)); [done..| |exact Hl].
  intros v l' s' Hv Hs'. destruct (find_with_plain d root Hd _ v l' s' Hv Hs') as (r & s'' & Hr & Hs'' & Hp').
  exists r, s''. split_and!; [done..|]. intros x. by rewrite Hp'.
Qed.

Lemma select_each_plain d root es ls acc s : html_ok d → ready d s →
  mapM (λ e, selection d root (strip e)) es = Some ls →
  ∃ r s', select_each es root acc s = (Ret (acc ++ r), s') ∧ ready d s' ∧ r ≡ₚ mjoin ls.
Proof.
  intros Hd. revert ls acc s. induction es as [|e es IH]; intros ls acc s Hs Hls; cbn [select_each].
  - injection Hls as <-. exists [], s. by rewrite app_nil_r.
  - apply mapM_Some in Hls. inversion Hls as [|? l ? ls' Hl Hls']; subst.
    destruct (select_all_plain d root (strip e) l s Hd Hl Hs) as (r & s1 & Hrun & Hs1 & Hr).
    rewrite (js_bind_Ret _ _ _ _ _ Hrun).
    destruct (IH ls' (acc ++ r) s1 Hs1) as (r' & s2 & Hrun' & Hs2 & Hr'); [by apply mapM_Some|].
    exists (r ++ r'), s2. split_and!; [by rewrite Hrun', <- app_assoc|done|]. cbn. by rewrite Hr, Hr'.
Qed.

Lemma selection_NoDup d root e l : html_ok d → selection d root e = Some l → NoDup l.
Proof.
  intros Hd. unfold selection. cbn [reference]. case_bool_decide; [done|]. destruct (program_of _) as [p|]; [|done]. cbn.
  unfold reference_program. destruct (_ && _); [|done]. intros [= <-].
  apply NoDup_ListNoDup, List.NoDup_filter, NoDup_ListNoDup. by apply NoDup_descendants; apply Hd.
Qed.

Lemma findChildElements_run d root es ls s : html_ok d → ready d s →
  mapM (λ e, selection d root (strip e)) (selector_split (join (js ",") es)) = Some ls →
  ∃ r s', findChildElements root es s = (Ret r, s') ∧ ready d s' ∧ NoDup r ∧ ∀ x, x ∈ r ↔ ∃ l, l ∈ ls ∧ x ∈ l.
Proof.
  intros Hd Hs Hls. unfold findChildElements.
  destruct (select_each_plain d root _ ls [] s Hd Hs Hls) as (r & s1 & Hrun & Hs1 & Hr).
  rewrite (js_bind_Ret _ _ _ _ _ Hrun). cbn [app].
  assert (∀ x, x ∈ r ↔ ∃ l, l ∈ ls ∧ x ∈ l) as Hin.
  { intros x. rewrite Hr, list_elem_of_join. naive_solver. }
  case_goal.
  - destruct Hs1 as (Hd1 & Hc1 & Ho1). destruct (unique_run r s1 Hc1) as (u & Hu & Hnd & Huin).
    exists u, s1. split_and!; [done..|]. intros x. by rewrite Huin, Hin.
  - exists r, s1. split_and!; [done..| |done]. rewrite Hr. apply Nat.ltb_ge in Heqb.
    pose proof (Forall2_length _ _ _ (mapM_Some_1 _ _ _ Hls)) as Hlen. destruct ls as [|l [|l' ls]]; [constructor| |cbn in *; lia].
    cbn. rewrite app_nil_r. destruct (selector_split _) as [|e [|]]; try (cbn in *; lia).
    cbn -[selection strip] in Hls. destruct (selection d root (strip e)) as [l0|] eqn:Hl; [|done]. injection Hls as <-.
    by eapply selection_NoDup.
Qed.

Lemma matchElements_run d elements e ls s : html_ok d → ready d s →
  mapM (λ e, selection d document (strip e)) (selector_split (join (js ",") [e])) = Some ls →
  ∃ s', matchElements elements e s =
    (Ret (List.filter (λ x, existsb (λ l, bool_decide (x ∈ l)) ls) elements), s') ∧ ready d s'.
Proof.
  intros Hd Hs Hls. unfold matchElements, dollar_dollar.
  destruct (findChildElements_run d document [e] ls s Hd Hs Hls) as (r & s1 & Hrun & (Hd1 & Hc1 & Ho1) & _ & Hin).
  rewrite (js_bind_Ret _ _ _ _ _ Hrun), (js_bind_Ret _ _ _ _ _ (mark_nodes_run _ _)), js_bind_get,
    (js_bind_Ret _ _ _ _ _ (unmark_nodes_run _ _)).
  cbn. exists s1. split; [|done]. unfold mret, js_mret. f_equal.
  - f_equal. apply List.filter_ext. intros x. apply bool_eq_iff.
    rewrite bool_decide_eq_true, elem_of_union, elem_of_list_to_set, Hin, existsb_elem, Hc1.
    setoid_rewrite bool_decide_eq_true. set_solver.
  - destruct s1 as [d' c i k n']; cbn in *. subst c. unfold set_counted. cbn. f_equal. set_solver.
Qed.
End selectors.

(** ** Positions *)

Lemma getIndices_run a b total s : getIndices a b total s =
  (Ret (if a =? 0 then if 0 <? b then [b] else [] else List.filter (index_test a b) (seqZ 1 total)), s).
Proof.
  unfold getIndices. case_goal; [done|]. rewrite inject_run by (intros m; apply no_break_pure).
  cbn [elements range_iterable]. rewrite range_list_spec. cbn [start end_ exclusive].
  replace (total - 1 + 1) with total by lia. generalize (seqZ 1 total), 0. intros l i.
  assert (∀ acc, fold_loop (λ memo i0 _, mret (if index_test a b i0 then memo ++ [i0] else memo)) l i acc s =
    (Ret (acc ++ List.filter (index_test a b) l), s)) as Hacc; [|apply (Hacc [])].
  revert i. induction l as [|v l IH]; intros i acc; cbn [fold_loop List.filter]; [by rewrite app_nil_r|].
  rewrite js_bind_ret, IH. destruct (index_test a b v); [by rewrite <- app_assoc|done].
Qed.

(** ** What keeps the cache typed *)

Create HintDb cache discriminated.
Section cache.
Context `{SelectorHost}.

Lemma caches_gets {A} (f : sel → A) : upholds cache_ok (js_gets f).
Proof. by intros s. Qed.
Lemma keeps_reading {A} (f : dom → A) : upholds cache_ok (reading f).
Proof. by intros s. Qed.
Lemma caches_throw {A} e : upholds cache_ok (js_throw e : X A).
Proof. by intros s. Qed.
Lemma keeps_on_dom {A} (m : D A) : upholds cache_ok (on_dom m).
Proof. intros s Hs. unfold on_dom. by destruct (m (sdom s)). Qed.
Lemma keeps_mark_node n : upholds cache_ok (mark_node n).
Proof. by intros s. Qed.
Lemma keeps_is_counted n : upholds cache_ok (is_counted n).
Proof. by intros s. Qed.
Lemma keeps_mark l : upholds cache_ok (mark_nodes l).
Proof. intros s Hs. by rewrite mark_nodes_run. Qed.
Lemma keeps_unmark l : upholds cache_ok (unmark_nodes l).
Proof. intros s Hs. by rewrite unmark_nodes_run. Qed.
Lemma keeps_counter k : upholds cache_ok (js_modify (set_id_counter k)).
Proof. by intros s. Qed.
Lemma keeps_indices a b total : upholds cache_ok (getIndices a b total).
Proof. intros s Hs. by rewrite getIndices_run. Qed.
#[local] Hint Resolve upholds_ret caches_gets keeps_reading caches_throw keeps_on_dom keeps_mark_node keeps_is_counted keeps_mark
  keeps_unmark keeps_counter keeps_indices : cache.
(** Follow the computation to its parts. *)
#[local] Ltac keeps :=
  repeat first
    [ progress intros
    | solve [auto 1 with cache nocore]
    | match goal with
      | |- upholds _ (js_get ≫= _) => apply upholds_get
      | |- upholds _ (_ ≫= _) => apply upholds_bind
      | |- upholds _ (match _ with _ => _ end) => case_goal
      end ].

Lemma keeps_index_loop ofType l j : upholds cache_ok (index_loop ofType l j).
Proof.
  revert j. induction l as [|n l IH]; intros j; cbn [index_loop]; [keeps|]. intros s Hs. rewrite js_bind_get.
  case_goal; [|by apply IH]. apply (IH (j + 1)). exact Hs.
Qed.
Lemma keeps_index_parents reversed ofType l acc : upholds cache_ok (index_parents reversed ofType l acc).
Proof.
  revert acc. induction l as [|n l IH]; intros acc; cbn [index_parents]; unfold index_children; keeps; auto using keeps_index_loop.
Qed.
#[local] Hint Resolve keeps_index_parents : cache.
Lemma keeps_nth nodes f reversed ofType : upholds cache_ok (p_nth nodes f reversed ofType).
Proof. unfold p_nth. keeps. Qed.
Lemma keeps_unique l : upholds cache_ok (unique l).
Proof.
  assert (∀ acc, upholds cache_ok (unique_loop l acc)) as Hloop.
  { induction l as [|n l IH]; intros acc; cbn [unique_loop]; keeps; auto. }
  unfold unique. keeps.
Qed.
#[local] Hint Resolve keeps_nth keeps_unique : cache.

Section engine.
Context (find : jsstr → nid → X (list nid)) (Hfind : ∀ e root, upholds cache_ok (find e root)).
Lemma keeps_pseudos name nodes v root : upholds cache_ok (pseudos find name nodes v root).
Proof using Hfind. unfold pseudos, p_not. keeps; apply Hfind. Qed.
Lemma keeps_matcher p root : upholds cache_ok (matcher find p root).
Proof using Hfind.
  assert (∀ nodes c, upholds cache_ok (run_stmts find root p nodes c)) as Hrun.
  { induction p as [|q p IH]; intros nodes c; cbn [run_stmts]; [keeps|]. apply upholds_bind; [|intros nc; apply IH].
    destruct q; cbn [run_stmt]; unfold h_pseudo; keeps; apply keeps_pseudos. }
  unfold matcher. keeps.
Qed.
Lemma keeps_run_selector this root : upholds cache_ok (run_selector find this root).
Proof using Hfind.
  unfold run_selector, find_by_api, asked. keeps; auto using keeps_matcher.
Qed.
End engine.

Lemma keeps_new_selector e : upholds cache_ok (new_selector e).
Proof. intros s Hs. destruct (new_selector e s) as [r s'] eqn:Hr. by apply new_selector_ok in Hr as [? _]. Qed.
Lemma keeps_find_with fuel e root : upholds cache_ok (find_with fuel e root).
Proof.
  revert e root. induction fuel as [|fuel IH]; intros e root; cbn [find_with]; [keeps|].
  apply upholds_bind; [apply keeps_new_selector|]. intros this. by apply keeps_run_selector.
Qed.
Lemma keeps_findElements_of this root : upholds cache_ok (findElements_of this root).
Proof. apply keeps_run_selector. intros. apply keeps_find_with. Qed.
Lemma keeps_select_all e root : upholds cache_ok (select_all e root).
Proof. unfold select_all. apply upholds_bind; [apply keeps_new_selector|]. intros. apply keeps_findElements_of. Qed.
#[local] Hint Resolve keeps_new_selector keeps_findElements_of keeps_select_all : cache.
Lemma keeps_findChildElements root es : upholds cache_ok (findChildElements root es).
Proof.
  assert (∀ l acc, upholds cache_ok (select_each l root acc)) as Heach.
  { induction l as [|e l IH]; intros acc; cbn [select_each]; keeps; auto. }
  unfold findChildElements. keeps.
Qed.
Lemma keeps_matchElements l e : upholds cache_ok (matchElements l e).
Proof. unfold matchElements, dollar_dollar. keeps. apply keeps_findChildElements. Qed.
Lemma keeps_element_match x e : upholds cache_ok (element_match x e).
Proof. unfold element_match, selector_match. keeps. Qed.
End cache.

(** ** Concrete documents *)

Definition html_node_ok (d : dom) (x : nid) (n : node) : Prop :=
  node_ok d x n ∧ match parentNode n with Some q => (q < x)%nat | None => True end ∧
  toUpperCase (tagName n) = tagName n ∧ tagName n ≠ js "!".
#[export] Instance html_node_ok_dec d x n : Decision (html_node_ok d x n).
Proof. unfold html_node_ok. destruct (parentNode n); apply _. Defined.

(** A document whose nodes are numbered from the root down is checked node
    by node. *)
Lemma html_ok_check d : map_Forall (html_node_ok d) d → html_ok d.
Proof.
  intros H. split.
  - apply dom_ok_check. intros x n Hn. by apply (H x n Hn).
  - exists (λ x, x). intros x p Hp. unfold parent_of in Hp. destruct (d !! x) as [n|] eqn:Hn; [|done].
    destruct (H x n Hn) as (_ & Hlt & _). cbn in Hp. by rewrite Hp in Hlt.
  - intros x. unfold tag_of. destruct (d !! x) as [n|] eqn:Hn; [|done]. by apply (H x n Hn).
  - intros x. unfold tag_of. destruct (d !! x) as [n|] eqn:Hn; [|done]. by apply (H x n Hn).
Qed.

Definition plain_browser : SelectorHost := {|
  XPath := false; SelectorsAPI := false; WebKit := false; query_ok _ := false;
  querySelectorAll _ _ _ := []; document_evaluate _ _ _ := Ret []; inherited_matcher _ _ _ := Some []; inherited_text name := name;
  prop_disabled _ _ := false; prop_checked _ _ := false; prop_type _ _ := [] |}.
Lemma plain_browser_plain : plain_host plain_browser.
Proof. done. Qed.

Definition element (tag : jsstr) (attributes : list (jsstr * jsstr)) (parent : nid) (children : list nid) : node :=
  Node (NElement tag) (list_to_map attributes) ∅ ∅ (Some parent) children.
(** A body with a paragraph, a DIV with two paragraphs, and a paragraph. *)
Definition article : dom :=
  {[ 0%nat := Node NDocument ∅ ∅ ∅ None [1%nat];
     1%nat := element (js "BODY") [] 0 [2; 3; 7]%nat;
     2%nat := element (js "P") [(js "class", js "b")] 1 [];
     3%nat := element (js "DIV") [(js "class", js "a"); (js "id", js "d")] 1 [4; 5; 6]%nat;
     4%nat := element (js "P") [] 3 [];
     5%nat := Node (NText (js " ")) ∅ ∅ ∅ (Some 3%nat) [];
     6%nat := element (js "P") [(js "class", js "b c"); (js "title", js "x-y")] 3 [];
     7%nat := element (js "P") [] 1 [] ]}.
Lemma article_html : html_ok article.
Proof. apply html_ok_check, (bool_decide_unpack _). vm_compute. exact I. Qed.
Definition page_state (d : dom) : sel := Sel d ∅ ∅ ∅ 1.
Lemma page_ready d : ready (H := plain_browser) d (page_state d).
Proof. done. Qed.

(** ** Properties *)

(** C23. On a document of HTML, and in a browser without XPath and selectors
    API, [findChildElements] returns every element once that one of the
    expressions selects by the reference, which matches from right to left,
    leaves the document as it was and no node marked, and keeps the cache
    typed.  The expressions may use names, ids, classes, attributes, all
    combinators, [:not] and the pseudo-classes other than the [nth] ones; none
    is a name every object inherits, such as [constructor]. *)
Theorem findChildElements_correct (H : SelectorHost) (d : dom) (root : nid) (es : list jsstr)
    (ls : list (list nid)) (s : sel) :
  plain_host H → html_ok d → ready d s →
  mapM (λ e, selection d root (strip e)) (selector_split (join (js ",") es)) = Some ls →
  ∃ r s', findChildElements root es s = (Ret r, s') ∧ ready d s' ∧
    NoDup r ∧ ∀ x, x ∈ r ↔ ∃ l, l ∈ ls ∧ x ∈ l.
Proof. intros Hp Hd Hs Hls. by apply (findChildElements_run Hp). Qed.

(** [matchElements] keeps the elements the expression selects in the
    document, in their order, and [findElement] returns the one at the index. *)
Theorem findElement_correct (H : SelectorHost) (d : dom) (elements : list nid) (e : jsstr) (index : nat)
    (ls : list (list nid)) (s : sel) :
  plain_host H → html_ok d → ready d s → e ≠ [] →
  mapM (λ e, selection d document (strip e)) (selector_split (join (js ",") [e])) = Some ls →
  ∃ s', findElement elements e index s =
    (Ret (List.filter (λ x, existsb (λ l, bool_decide (x ∈ l)) ls) elements !! index), s') ∧ ready d s'.
Proof.
  intros Hp Hd Hs He Hls. unfold findElement. rewrite bool_decide_eq_false_2 by done.
  destruct (matchElements_run Hp d elements e ls s Hd Hs Hls) as (s' & Hrun & Hs').
  exists s'. by rewrite (js_bind_Ret _ _ _ _ _ Hrun).
Qed.

(** C25. In every browser, the cache holds for each expression what its mode
    asks for, the statements or the XPath text of that expression: each
    operation on selectors keeps it so, also when it throws, and a selector
    object holds what its own mode needs.  The exception is an expression that
    is a name every object inherits: its selector holds the function inherited
    under that name, which is never put in the cache. *)
Theorem selector_cache_typed (H : SelectorHost) (s : sel) (e : jsstr) (es : list jsstr) (root : nid) (l : list nid) :
  cache_ok s →
  cache_ok (select_all e root s).2 ∧ cache_ok (findChildElements root es s).2 ∧
  cache_ok (matchElements l e s).2 ∧ cache_ok (element_match root e s).2 ∧
  ∀ this s', new_selector e s = (Ret this, s') → expression this = strip e ∧ selector_ok this.
Proof.
  intros Hs. split_and!; [by apply keeps_select_all|by apply keeps_findChildElements|by apply keeps_matchElements
    |by apply keeps_element_match|].
  intros this s' Hr. destruct (new_selector_ok e s _ s' Hs Hr) as [_ Hthis]. by apply Hthis.
Qed.

(** ** Witnesses *)

Lemma findChildElements_correct_witness :
  ∃ r s', findChildElements (H := plain_browser) document [js "div > p:not(:first-child)"; js "body > p.b"] (page_state article) = (Ret r, s') ∧
    NoDup r ∧ ∀ x, x ∈ r ↔ ∃ l, l ∈ [[6%nat]; [2%nat]] ∧ x ∈ l.
Proof.
  destruct (findChildElements_correct plain_browser article document [js "div > p:not(:first-child)"; js "body > p.b"]
    [[6%nat]; [2%nat]] (page_state article) plain_browser_plain article_html (page_ready article)) as (r & s' & Hr & _ & Hnd & Hin).
  { vm_compute. reflexivity. }
  exists r, s'. split; [exact Hr|]. split; [exact Hnd|exact Hin].
Defined.
Lemma findElement_correct_witness :
  ∃ s', findElement (H := plain_browser) [7; 6; 4; 2]%nat (js "p.b") 1 (page_state article) = (Ret (Some 2%nat), s').
Proof.
  destruct (findElement_correct plain_browser article [7; 6; 4; 2]%nat (js "p.b") 1 [[2; 6]%nat] (page_state article)
    plain_browser_plain article_html (page_ready article)) as (s' & Hr & _).
  { discriminate. }
  { vm_compute. reflexivity. }
  exists s'. exact Hr.
Defined.
Lemma selector_cache_typed_witness : cache_ok (H := plain_browser) (select_all (H := plain_browser) (js "div p") document (page_state article)).2.
Proof.
  exact (proj1 (selector_cache_typed plain_browser (page_state article) (js "div p") [] document []
    (proj2 (proj2 (page_ready article))))).
Defined.

(** ** Where selection differs from CSS *)

(** An element named as something every object inherits is not found: the
    cache is taken to hold a matcher for the name. *)
Lemma inherited_name : program_of (js "constructor") = Some [STag (js "constructor")] ∧
  (new_selector (H := plain_browser) (js "constructor") (page_state article)).1 =
    Ret (Selector_ (js "constructor") ModeNormal (Some (Inherited (js "constructor")))).
Proof. vm_compute. split; reflexivity. Qed.

(** So it is before an attribute, whose presence is then read as a comparison
    without operator. *)
Lemma not_with_attribute : program_of (js "p:not(.b)[title]") = Some [STag (js "p"); SPseudo (js "not") []; SAttr (js "title") [] []].
Proof. vm_compute. reflexivity. Qed.

(** An argument followed by a class, an id or an attribute is not read: [:not]
    is then given the empty expression. *)
Lemma not_with_class :
  program_of (js "p:not(.b).c") = Some [STag (js "p"); SPseudo (js "not") []] ∧
  (select_all (H := plain_browser) (js "p:not(.b).c") document (page_state article)).1 = Throw ETypeError.
Proof. vm_compute. split; reflexivity. Qed.

(** The presence of an attribute with a hyphen in its name is read as a
    comparison without operator. *)
Lemma hyphen_presence :
  program_of (js "[data-x]") = Some [SAttr (js "data-x") [] []] ∧
  h_attr {[ 1%nat := element (js "P") [(js "data-x", js "1")] 0 [] ]} (Some [1%nat]) document (js "data-x") [] [] None = Throw ETypeError.
Proof. vm_compute. split; reflexivity. Qed.

(** The DIV with the id has no DIV above it. *)
Lemma id_itself :
  (select_all (H := plain_browser) (js "div #d") document (page_state article)).1 = Ret [3%nat].
Proof. vm_compute. reflexivity. Qed.

(** A value with a double quote ends the literal of the generated source. *)
Lemma quoted_value_breaks :
  program_of (js "p[title='" ++ dq ++ js "x" ++ dq ++ js "']") = None.
Proof. vm_compute. reflexivity. Qed.

(** [match] compares the universal name with the name of the element. *)
Lemma match_universal :
  (element_match (H := plain_browser) 2 (js "*") (page_state article)).1 = Ret false ∧
  (select_all (H := plain_browser) (js "*") document (page_state article)).1 = Ret [1; 2; 3; 4; 6; 7]%nat.
Proof. vm_compute. split; reflexivity. Qed.
