(* ===== verification/SelectorNth.v ===== *)
(** * Counting pseudo-classes (prototype.js: Selector.pseudos.nth)

    The positions [nth] notes on the children of the parents it visits, what
    it selects by them, and where counting goes wrong. *)

From Stdlib Require Import ZArith.
From S2P Require Import Prelude JsBase JsNum JsRegex JsReplace Enumerable Strings Dom Droppable Tree Walks SelectorText Selector SelectorSpec.
#[local] Open Scope Z_scope.
#[local] Open Scope stdpp_scope.

(** ** Positions *)

(** [an+b] for a number of at least nought. *)
Lemma index_test_spec a b i : a ≠ 0 → index_test a b i = true ↔ ∃ m, 0 ≤ m ∧ i = a * m + b.
Proof.
  intros Ha. unfold index_test. rewrite andb_true_iff, Z.eqb_eq, Z.leb_le. split.
  - intros [Hr Hq]. exists (Z.quot (i - b) a). split; [done|]. pose proof (Z.quot_rem' (i - b) a). lia.
  - intros (m & Hm & ->). replace (a * m + b - b) with (m * a) by lia.
    rewrite Z.rem_mul, Z.quot_mul by done. done.
Qed.

(** The number of a node among the element children of its parent, from
    either end. *)
Definition position (d : dom) (reversed : bool) (n : nid) : Z :=
  1 + Z.of_nat (length (if reversed then next_siblings d n else collect_from (node_count d) d previousSibling n)).

(** What a formula asks of a position; [getIndices] stops at the number of
    nodes. *)
Definition wanted (f : option formula) (total i : Z) : bool :=
  match f with
  | Some (FNumber k) => i =? k
  | Some (FLinear a b) => if a =? 0 then (0 <? b) && (i =? b) else (1 <=? i) && (i <=? total) && index_test a b i
  | None => false
  end.

Lemma index_loop_run kids j s : NoDup kids → ∃ i, index_loop false kids j s = (Ret (), set_nodeIndex i s) ∧
  (∀ l1 x l2, kids = l1 ++ x :: l2 → element_at (sdom s) x = true →
    i !! x = Some (j + Z.of_nat (length (List.filter (element_at (sdom s)) l1)))) ∧
  (∀ x, x ∉ kids → i !! x = nodeIndex s !! x).
Proof.
  revert j s. induction kids as [|k kids IH]; intros j s Hnd; cbn [index_loop].
  { exists (nodeIndex s). split; [by destruct s|]. split; [by intros []|done]. }
  apply NoDup_cons in Hnd as [Hk Hnd]. rewrite js_bind_get. cbn [negb orb]. rewrite andb_true_r.
  destruct (element_at (sdom s) k) eqn:He.
  - destruct (IH (j + 1) (set_nodeIndex (<[k := j]> (nodeIndex s)) s) Hnd) as (i & Hrun & Hin & Hout).
    exists i. split; [exact Hrun|]. split.
    + intros [|y l1] x l2 Heq Hx; injection Heq as -> ->.
      * rewrite Hout by done. cbn. rewrite lookup_insert_eq. f_equal. lia.
      * rewrite (Hin l1 x l2 eq_refl Hx). cbn [sdom set_nodeIndex List.filter]. rewrite He. cbn [length]. f_equal. lia.
    + intros x [Hxk Hx]%not_elem_of_cons. rewrite Hout by done. cbn. by rewrite lookup_insert_ne.
  - destruct (IH j s Hnd) as (i & Hrun & Hin & Hout). exists i. split; [exact Hrun|]. split.
    + intros [|y l1] x l2 Heq Hx; injection Heq as -> ->; [congruence|].
      rewrite (Hin l1 x l2 eq_refl Hx). cbn [List.filter]. by rewrite He.
    + intros x [Hxk Hx]%not_elem_of_cons. by apply Hout.
Qed.

Section nth.
Context (d : dom) (Hok : dom_ok d) (reversed : bool).

Lemma children_of x p : parent_of d x = Some p → ∃ l1 l2,
  (if reversed then reverse (child_list d (Some p)) else child_list d (Some p)) = l1 ++ x :: l2 ∧
  position d reversed x = 1 + Z.of_nat (length (List.filter (element_at d) l1)).
Proof using Hok.
  intros Hp. apply (ok_parent d Hok) in Hp. apply list_elem_of_split in Hp as (l1 & l2 & Hl). unfold position, next_siblings.
  assert (∀ l, length (List.filter (element_at d) (reverse l)) = length (List.filter (element_at d) l)) as Hlen.
  { induction l as [|y l IH]; [done|]. rewrite reverse_cons, List.filter_app, length_app, IH. cbn.
    destruct (element_at d y); cbn; lia. }
  destruct reversed.
  - exists (reverse l2), (reverse l1). split; [by rewrite Hl, reverse_app, reverse_cons, <- app_assoc|].
    by rewrite (next_at d Hok p l1 x l2 Hl), Hlen.
  - exists l1, l2. split; [done|]. by rewrite (previous_at d Hok p l1 x l2 Hl), Hlen.
Qed.

(** The children of the visited parents have their positions. *)
Definition positioned (indexed : list nid) (s : sel) : Prop := ∀ p x, p ∈ indexed → parent_of d x = Some p →
  element_at d x = true → nodeIndex s !! x = Some (position d reversed x).

Lemma index_children_run p indexed s : sdom s = d → positioned indexed s →
  ∃ i, index_children p reversed false s = (Ret (), set_nodeIndex i (set_counted ({[p]} ∪ counted s) s)) ∧
    positioned (indexed ++ [p]) (set_nodeIndex i s).
Proof using Hok.
  intros Hd Hn. unfold index_children. rewrite (js_bind_Ret _ _ _ _ _ (mark_node_run p s)). unfold reading. rewrite js_bind_gets.
  cbn [sdom set_counted]. rewrite Hd.
  set (kids := if reversed then reverse (child_list d (Some p)) else child_list d (Some p)).
  assert (NoDup kids ∧ ∀ x, x ∈ kids ↔ parent_of d x = Some p) as [Hnd Hin].
  { unfold kids. split.
    - destruct reversed; [rewrite reverse_Permutation|]; apply (ok_nodup d Hok).
    - intros x. destruct reversed; rewrite ?elem_of_reverse; split; first [apply (ok_child d Hok)|apply (ok_parent d Hok)]. }
  destruct (index_loop_run kids 1 (set_counted ({[p]} ∪ counted s) s) Hnd) as (i & Hrun & Hset & Hkeep).
  exists i. split; [exact Hrun|]. intros q x Hq Hx He. cbn [nodeIndex set_nodeIndex].
  destruct (decide (q = p)) as [->|Hqp].
  - destruct (children_of x p Hx) as (l1 & l2 & Hl & ->). fold kids in Hl. cbn [sdom set_counted] in Hset. rewrite Hd in Hset.
    by rewrite (Hset l1 x l2 Hl He).
  - rewrite Hkeep; [|rewrite Hin; congruence]. apply (Hn q); [|done..].
    apply elem_of_app in Hq as [?|Hq]; [done|]. by apply list_elem_of_singleton in Hq.
Qed.

Lemma index_parents_run nodes l indexed s : sdom s = d → counted s = list_to_set nodes ∪ list_to_set indexed →
  positioned indexed s → (∀ n, n ∈ l → ∃ p, parent_of d n = Some p ∧ p ∉ nodes) →
  ∃ indexed' s', index_parents reversed false l indexed s = (Ret indexed', s') ∧
    (∃ i, s' = set_nodeIndex i (set_counted (list_to_set nodes ∪ list_to_set indexed') s)) ∧ positioned indexed' s' ∧
    (∀ p, p ∈ indexed → p ∈ indexed') ∧ (∀ n p, n ∈ l → parent_of d n = Some p → p ∈ indexed').
Proof using Hok.
  revert indexed s. induction l as [|n l IH]; intros indexed s Hd Hc Hn Hl; cbn [index_parents].
  - exists indexed, s. split; [done|]. split; [exists (nodeIndex s); rewrite <- Hc; by destruct s|].
    split_and!; [done..|]. by intros n p ?%not_elem_of_nil.
  - destruct (Hl n) as (p & Hp & Hpn); [left|]. unfold reading. rewrite js_bind_gets, Hd, Hp.
    unfold is_counted. rewrite js_bind_gets.
    assert (∀ x, x ∈ l → ∃ p, parent_of d x = Some p ∧ p ∉ nodes) as Hl' by (intros x Hx; apply Hl; by right).
    case_bool_decide as Hcount.
    + destruct (IH indexed s Hd Hc Hn Hl') as (ix & s' & Hrun & Hs' & Hn' & Hsub & Hall).
      exists ix, s'. split_and!; [done..|]. intros x q [->|Hx]%elem_of_cons Hq; [|by eapply Hall].
      apply Hsub. replace q with p by congruence. rewrite Hc in Hcount. set_solver.
    + destruct (index_children_run p indexed s Hd Hn) as (i & Hrun1 & Hn1). rewrite (js_bind_Ret _ _ _ _ _ Hrun1).
      destruct (IH (indexed ++ [p]) (set_nodeIndex i (set_counted ({[p]} ∪ counted s) s))) as (ix & s' & Hrun & (i' & ->) & Hn' & Hsub & Hall);
        [done|cbn; rewrite Hc; set_solver|exact Hn1|done|].
      exists ix, (set_nodeIndex i' (set_counted (list_to_set nodes ∪ list_to_set ix) s)).
      split_and!; [exact Hrun|by exists i'|exact Hn'|intros q Hq; apply Hsub; set_solver|].
      intros x q [->|Hx]%elem_of_cons Hq; [|by eapply Hall]. apply Hsub. replace q with p by congruence. set_solver.
Qed.
End nth.

(** A node is pushed once when its position is among the indices. *)
Lemma with_index_filter index (indices : list Z) nodes : NoDup indices →
  with_index index indices nodes =
    List.filter (λ n, existsb (λ j, bool_decide (index !! n = Some j)) indices) nodes.
Proof.
  intros Hnd. unfold with_index. induction nodes as [|n nodes IH]; [done|]. cbn [mbind list_bind List.filter]. rewrite IH.
  assert ((λ _, n) <$> List.filter (λ j, bool_decide (index !! n = Some j)) indices =
    if existsb (λ j, bool_decide (index !! n = Some j)) indices then [n] else []) as ->; [|by case_match].
  clear IH. induction Hnd as [|j l Hj Hnd IHl]; [done|]. cbn [List.filter existsb].
  case_bool_decide as Hij; [|exact IHl]. cbn. f_equal.
  assert (List.filter (λ k, bool_decide (index !! n = Some k)) l = []) as ->; [|done].
  apply elem_of_nil_inv. intros k. rewrite elem_of_filter_bool, bool_decide_eq_true. intros [Hk Hik]. congruence.
Qed.

Lemma existsb_filter_seq index (x : option Z) a b total : x = Some index →
  existsb (λ j, bool_decide (x = Some j)) (List.filter (index_test a b) (seqZ 1 total)) =
  (1 <=? index) && (index <=? total) && index_test a b index.
Proof.
  intros ->. apply bool_eq_iff. rewrite existsb_elem, !andb_true_iff, !Z.leb_le.
  setoid_rewrite elem_of_filter_bool. setoid_rewrite elem_of_seqZ. split.
  - intros (j & [Hj Ht] & Hij). apply bool_decide_eq_true in Hij. injection Hij as <-. split; [lia|done].
  - intros [Hr Ht]. exists index. split; [|by apply bool_decide_eq_true]. split; [lia|done].
Qed.

(** The indices a formula stands for select the wanted positions. *)
Lemma nth_select (f : option formula) index (nodes : list nid) total (pos : nid → Z) s :
  (∀ n, n ∈ nodes → index !! n = Some (pos n)) →
  match f with
  | Some (FNumber k) => mret (with_index index [k] nodes)
  | Some (FLinear a b) => indices ← getIndices a b total; mret (with_index index indices nodes)
  | None => mret []
  end s = (Ret (List.filter (λ n, wanted f total (pos n)) nodes), s : sel).
Proof.
  intros Hpos. assert (∀ (p q : nid → bool), (∀ n, n ∈ nodes → p n = q n) → List.filter p nodes = List.filter q nodes) as Hext.
  { clear. intros p q Hpq. induction nodes as [|n l IH]; [done|]. cbn. rewrite (Hpq n) by left. rewrite IH; [done|].
    intros x Hx. apply Hpq. by right. }
  destruct f as [[k|a b]|].
  - rewrite with_index_filter by (apply NoDup_singleton). unfold mret, js_mret. do 2 f_equal. apply Hext. intros n Hn.
    cbn. rewrite (Hpos n Hn), orb_false_r. apply bool_eq_iff. rewrite bool_decide_eq_true, Z.eqb_eq. naive_solver.
  - rewrite (js_bind_Ret _ _ _ _ _ (getIndices_run a b total s)). cbn [wanted]. destruct (a =? 0) eqn:Ha.
    + rewrite with_index_filter by (destruct (0 <? b); [apply NoDup_singleton|constructor]).
      unfold mret, js_mret. do 2 f_equal. apply Hext. intros n Hn. rewrite (Hpos n Hn). destruct (0 <? b); [|done].
      cbn. rewrite orb_false_r. apply bool_eq_iff. rewrite bool_decide_eq_true, Z.eqb_eq. naive_solver.
    + rewrite with_index_filter by (apply NoDup_ListNoDup, List.NoDup_filter, NoDup_ListNoDup, NoDup_seqZ).
      unfold mret, js_mret. do 2 f_equal. apply Hext. intros n Hn. by apply existsb_filter_seq, Hpos.
  - unfold mret, js_mret. do 2 f_equal. symmetry. clear. by induction nodes.
Qed.

(** C24. When no selected element is the parent of another, [:nth-child] and
    [:nth-last-child] keep the elements whose position among the element
    children of their parent, from the front or from the back, is what the
    formula asks; an [an+b] formula stands for the positions [a*m+b] up to
    the number of selected elements.  The marks and the document are left as
    they were. *)
Theorem nth_correct (d : dom) (nodes : list nid) (f : jsstr) (reversed : bool) (s : sel) :
  html_ok d → sdom s = d → counted s = ∅ →
  (∀ n, n ∈ nodes → element_at d n = true ∧ ∃ p, parent_of d n = Some p ∧ p ∉ nodes) →
  (∃ i, p_nth nodes f reversed false s = (Ret (List.filter (λ n,
    wanted (read_formula f) (Z.of_nat (length nodes)) (position d reversed n)) nodes), set_nodeIndex i s)) ∧
  ∀ a b i, a ≠ 0 → index_test a b i = true ↔ ∃ m, 0 ≤ m ∧ i = a * m + b.
Proof.
  intros Hd Hs Hc Hnodes. split; [|apply index_test_spec]. destruct nodes as [|n0 nodes].
  { exists (nodeIndex s). by destruct s. }
  set (l := n0 :: nodes) in *. unfold p_nth. fold l. change (match l with [] => ?a | _ :: _ => ?b end) with b.
  rewrite (js_bind_Ret _ _ _ _ _ (mark_nodes_run l s)).
  destruct (index_parents_run d (html_tree d Hd) reversed l l [] (set_counted (list_to_set l ∪ counted s) s))
    as (ix & s1 & Hrun & (i & ->) & Hnum & _ & Hall).
  - done.
  - cbn. rewrite Hc. set_solver.
  - by intros p x ?%not_elem_of_nil.
  - intros n Hn. by apply Hnodes.
  - rewrite (js_bind_Ret _ _ _ _ _ Hrun), js_bind_gets. cbn [nodeIndex set_nodeIndex].
    assert (∀ n, n ∈ l → i !! n = Some (position d reversed n)) as Hpos.
    { intros n Hn. destruct (Hnodes n Hn) as (He & p & Hp & _). by apply (Hnum p n); [eapply Hall|..]. }
    erewrite js_bind_Ret; [|by apply (nth_select _ i l _ (position d reversed))].
    rewrite (js_bind_Ret _ _ _ _ _ (unmark_nodes_run _ _)), (js_bind_Ret _ _ _ _ _ (unmark_nodes_run _ _)).
    exists i. unfold mret, js_mret. f_equal. destruct s as [d' c ni k n']; cbn in *. subst c.
    unfold set_nodeIndex, set_counted. cbn. f_equal. set_solver.
Qed.
Lemma nth_correct_witness : (p_nth [2; 3; 7]%nat (js "odd") false false (page_state article)).1 = Ret [2; 7]%nat.
Proof.
  destruct (nth_correct article [2; 3; 7]%nat (js "odd") false (page_state article)) as [[i ->] _].
  - exact article_html.
  - reflexivity.
  - reflexivity.
  - intros n Hn. repeat (apply elem_of_cons in Hn as [->|Hn]; [split; [reflexivity|exists 1%nat; split;
      [reflexivity|intros Hin; apply (bool_decide_pack _) in Hin; exact Hin]]|]). by apply not_elem_of_nil in Hn.
  - vm_compute. reflexivity.
Defined.

(** ** Where counting goes wrong *)

(** A parent counted for another child is taken for one of the elements when
    the elements of its own parent are numbered: here the DIV, so that the
    first paragraph after it is not the first of its type. *)
Definition two_sections : dom :=
  {[ 0%nat := Node NDocument ∅ ∅ ∅ None [1%nat];
     1%nat := element (js "BODY") [] 0 [2; 4]%nat;
     2%nat := element (js "DIV") [] 1 [3%nat];
     3%nat := element (js "P") [] 2 [];
     4%nat := element (js "P") [] 1 [] ]}.
Lemma first_of_type_missed :
  (select_all (H := plain_browser) (js "p:first-of-type") document (page_state two_sections)).1 = Ret [3%nat].
Proof. vm_compute. reflexivity. Qed.

(** An element whose parent is selected too is not numbered. *)
Definition nested_divs : dom :=
  {[ 0%nat := Node NDocument ∅ ∅ ∅ None [1%nat];
     1%nat := element (js "BODY") [] 0 [2%nat];
     2%nat := element (js "DIV") [] 1 [3%nat];
     3%nat := element (js "DIV") [] 2 [] ]}.
Lemma nested_nth_missed :
  (select_all (H := plain_browser) (js "div:nth-child(1)") document (page_state nested_divs)).1 = Ret [2%nat].
Proof. vm_compute. reflexivity. Qed.

(** The indices of a formula stop at the number of selected elements: the DIV
    is the second child, but the only element selected. *)
Lemma late_nth_missed :
  (select_all (H := plain_browser) (js "body > div:nth-child(n+1)") document (page_state article)).1 = Ret [].
Proof. vm_compute. reflexivity. Qed.
