(* ===== verification/SelectorParse.v ===== *)
(** * Reading selector expressions (prototype.js: Selector)

    The loop over the tokens ends and the argument of [:not] is shorter than
    the expression it is in, so selection terminates; what is printed from a
    structured selector is read back. *)

From Stdlib Require Import ZArith.
From S2P Require Import Prelude JsBase JsNum JsRegex JsReplace Enumerable Strings Dom SelectorText Selector SelectorSpec.
#[local] Open Scope nat_scope.
#[local] Open Scope stdpp_scope.

(** ** Captures are no longer than what was left *)

Definition bounded (B : nat) (x : st) : Prop :=
  length (after x.1) ≤ B ∧ ∀ n u, x.2 !! n = Some u → length u ≤ B.

Lemma clear_caps_lookup ns (c : captures) n u : clear_caps ns c !! n = Some u → c !! n = Some u.
Proof.
  induction ns as [|m ns IH]; cbn; [done|]. destruct (decide (m = n)) as [->|].
  - by rewrite lookup_delete_eq.
  - rewrite lookup_delete_ne by done. apply IH.
Qed.

Definition capturing (r : rx) : Prop := ∀ B k x res, bounded B x →
  rmatch r k x = Some res → ∃ y, bounded B y ∧ k y = Some res.

Lemma star_loop_captures r g ns k n B x res : capturing r → bounded B x →
  star_loop (rmatch r) g ns k n x = Some res → ∃ y, bounded B y ∧ k y = Some res.
Proof.
  intros Hr. revert x res. induction n as [|n IH]; intros x res Hx; cbn.
  - destruct g; cbn; [|intros [H|[_ H]]%or_else_Some; [|done]]; eauto.
  - assert (∀ res', rmatch r (λ y, if length (after y.1) <? length (after x.1)
              then star_loop (rmatch r) g ns k n y else None) (x.1, clear_caps ns x.2)
              = Some res' → ∃ y, bounded B y ∧ k y = Some res') as Hstep.
    { intros res' Hm. apply (Hr B) in Hm as (y & Hy & Hk).
      - destruct (length (after y.1) <? length (after x.1)); [|done]. by apply IH in Hk.
      - destruct Hx as [H1 H2]. split; [done|]. intros m u Hu. by eapply H2, clear_caps_lookup. }
    destruct g; rewrite or_else_Some; intros [H|[_ H]]; eauto.
Qed.

Lemma rmatch_captures r : capturing r.
Proof.
  induction r as [|p|r1 IH1 r2 IH2|r1 IH1 r2 IH2|g r IH|n r IH|n| | | |r IH]; intros B k [[b s] c] res Hx; cbn.
  - eauto.
  - destruct s as [|d s]; [done|]. case_match; [|done]. intros Hk. eexists; split; [|exact Hk].
    destruct Hx as [H1 H2]. split; [cbn in *; lia|done].
  - intros (y & Hy & Hk)%(IH1 B); [|done]. by apply (IH2 B) in Hk.
  - rewrite or_else_Some. intros [H|[_ H]]; [by apply (IH1 B) in H|by apply (IH2 B) in H].
  - intros H. by apply (star_loop_captures _ _ _ _ _ B) in H.
  - intros (y & Hy & Hk)%(IH B); [|done]. eexists; split; [|exact Hk]. destruct Hx as [H1 _], Hy as [H2 H3].
    split; [done|]. intros m u. cbn [snd]. destruct (decide (n = m)) as [->|].
    + rewrite lookup_insert_eq. intros [= <-]. unfold consumed. rewrite length_take. cbn in *. lia.
    + rewrite lookup_insert_ne by done. apply H3.
  - destruct (c !! n) as [u|]; [|eauto]. case_match; [|done]. intros Hk. eexists; split; [|exact Hk].
    destruct Hx as [H1 H2]. split; [|done]. cbn in *. rewrite length_drop. lia.
  - destruct b; [|done]. eauto.
  - destruct s; [|done]. eauto.
  - case_match; [|done]. eauto.
  - destruct (rmatch r Some _) as [y|] eqn:Hy; [|done]. intros Hk. apply (IH B) in Hy as (z & Hz & [= ->]); [|done].
    eexists; split; [|exact Hk]. destruct Hx as [H1 _], Hz as [_ H3]. by split.
Qed.

(** The match of an anchored expression is at the beginning. *)
Lemma rx_match_anchored r s m : rx_match (RBol +++ r)%rx s = Some m →
  ∃ y, rmatch r Some (Pos [] s, ∅) = Some y ∧ m_caps m = y.2 ∧ m_before m = [].
Proof.
  unfold rx_match. intros Hm. assert (∀ s, exec_from (RBol +++ r)%rx [] s = Some m →
    ∃ y, rmatch (RBol +++ r)%rx Some (Pos [] s, ∅) = Some y ∧ m_caps m = y.2 ∧ m_before m = []) as H.
  { intros [|c t]; cbn -[rmatch consumed]; destruct (rmatch _ _ _) as [y|] eqn:Hy; try done.
    - intros [= <-]. by exists y.
    - intros [= <-]. by exists y.
    - rewrite exec_from_anchored by done. done. }
  apply H in Hm as (y & Hy & Hc & Hb). exists y. split; [|done]. exact Hy.
Qed.

(** What is captured after a first character is shorter than the text. *)
Lemma group_shorter c r e m n u : rx_match (RBol +++ RLit c +++ r)%rx e = Some m →
  m_group m (S n) = Some u → S (length u) ≤ length e.
Proof.
  intros (y & Hy & Hc & _)%rx_match_anchored. cbn [m_group]. rewrite Hc. intros Hu.
  cbn in Hy. destruct e as [|d e]; [done|]. destruct (N.eqb d c); [|done].
  apply (rmatch_captures _ (length e)) in Hy as (z & [_ Hz] & [= ->]); [by apply Hz in Hu; cbn; lia|].
  split; [done|]. intros k v Hv. cbn in Hv. by rewrite lookup_empty in Hv.
Qed.

(** ** The token loop *)

Lemma cut_text_head t r : cut_text t (t ++ r) = r.
Proof.
  unfold cut_text, replace_first, rx_match. destruct (t ++ r) as [|c s] eqn:Htr.
  - apply app_nil in Htr as [-> ->]. done.
  - cbn [exec_from]. rewrite rmatch_RStr, <- Htr, (proj2 (is_prefix_spec t (t ++ r))) by (by eexists).
    cbn [m_before m_rest fst after]. rewrite reverse_nil, drop_app_length. done.
Qed.
Lemma no_back_text t : no_back (RStr t) = true.
Proof. by induction t. Qed.
Lemma min_len_text t : min_len (RStr t) = length t.
Proof. induction t as [|c t IH]; [done|]. cbn [RStr foldr]. fold (RStr t). cbn [min_len]. rewrite IH. done. Qed.
Lemma cut_text_length t a r : length (cut_text t (a ++ t ++ r)) + length t ≤ length (a ++ t ++ r).
Proof.
  unfold cut_text, replace_first. destruct (rx_match (RStr t) (a ++ t ++ r)) as [m|] eqn:Hm.
  - pose proof (rx_match_len _ _ _ Hm) as Hlen. rewrite min_len_text in Hlen. apply rx_match_cut in Hm. rewrite Hm, !length_app. cbn. lia.
  - exfalso. assert (rx_test (RStr t) (a ++ t ++ r) = true) as Ht.
    { apply rx_test_spec; [apply no_back_text|]. exists a, (t ++ r), (Pos (reverse t ++ reverse a) r). split; [done|].
      by apply matches_text. }
    unfold rx_test in Ht. by rewrite Hm in Ht.
Qed.
Lemma rx_match_shorter r e m : 1 ≤ min_len r → rx_match r e = Some m → length (cut_text (m_text m) e) < length e.
Proof.
  intros Hr Hm. pose proof (rx_match_len r e m Hm) as Hlen. pose proof (rx_match_cut r e m Hm) as Hcut.
  pose proof (cut_text_length (m_text m) (m_before m) (m_rest m)) as Hl. rewrite <- Hcut in Hl. lia.
Qed.

Lemma patterns_consume i p : (i, p) ∈ patterns → 1 ≤ min_len p.
Proof.
  assert (Forall (λ ip, Nat.leb 1 (min_len ip.2) = true) patterns) as H by (repeat constructor).
  rewrite Forall_forall in H. intros Hin. apply Nat.leb_le. by apply (H _ Hin).
Qed.
Lemma first_match_Some ps e i m : first_match ps e = Some (i, m) → ∃ p, (i, p) ∈ ps ∧ rx_match p e = Some m.
Proof.
  induction ps as [|[j p] ps IH]; [done|]. cbn. destruct (rx_match p e) as [m'|] eqn:Hm.
  - intros [= -> ->]. exists p. split; [left|done].
  - intros (p' & Hp & ?)%IH. exists p'. split; [by right|done].
Qed.

Lemma token_loop_in fuel le e i m : (i, m) ∈ token_loop fuel le e →
  ∃ e' p, length e' ≤ length e ∧ (i, p) ∈ patterns ∧ rx_match p e' = Some m.
Proof.
  revert le e. induction fuel as [|fuel IH]; intros le e; cbn [token_loop]; [by intros ?%not_elem_of_nil|].
  case_goal; [|by intros ?%not_elem_of_nil]. destruct (first_match patterns e) as [[j m']|] eqn:Hf; [|apply IH].
  apply first_match_Some in Hf as (p & Hp & Hm). intros [[= -> ->]|Hin]%elem_of_cons; [by exists e, p|].
  apply IH in Hin as (e' & p' & He & Hp' & Hm'). exists e', p'. split; [|done].
  apply (rx_match_shorter p) in Hm; [lia|]. by eapply patterns_consume.
Qed.

(** The loop has ended after as many rounds as the text is long, plus two. *)
Lemma token_loop_ends n1 n2 le e : length e + 2 ≤ n1 → length e + 2 ≤ n2 → token_loop n1 le e = token_loop n2 le e.
Proof.
  revert n2 le e. induction n1 as [|n1 IH]; intros n2 le e H1 H2; [lia|]. destruct n2 as [|n2]; [lia|].
  cbn [token_loop]. destruct (goes_on le e); [|done].
  destruct (first_match patterns e) as [[i m]|] eqn:Hf.
  - apply first_match_Some in Hf as (p & Hp & Hm). apply (rx_match_shorter p) in Hm; [|by eapply patterns_consume].
    f_equal. apply IH; lia.
  - assert (∀ n, token_loop n (Some e) e = []) as Hstop; [|by rewrite !Hstop].
    intros [|n]; [done|]. cbn [token_loop]. unfold goes_on.
    by rewrite (bool_decide_eq_true_2 (Some e = Some e)), andb_false_r.
Qed.

(** ** String literals *)

Definition quotes (s : jsstr) : nat := length (List.filter (N.eqb 34) s).
Lemma quotes_cons c s : quotes (c :: s) = (if N.eqb 34 c then 1 else 0) + quotes s.
Proof. unfold quotes. cbn. by destruct c as [|[]]; repeat case_match. Qed.
Lemma escape_quotes_length s : length (escape_quotes s) = length s + quotes s ∧ quotes (escape_quotes s) = quotes s.
Proof.
  induction s as [|c s [IH1 IH2]]; [done|]. unfold escape_quotes in *. cbn [mbind list_bind].
  rewrite length_app, quotes_cons. destruct (N.eqb_spec c 34) as [->|Hc]; cbn [app length].
  - rewrite !quotes_cons, IH1, IH2, N.eqb_refl. change (34 =? 92)%N with false. split; lia.
  - rewrite quotes_cons, IH1, IH2. rewrite (proj2 (N.eqb_neq 34 c)) by congruence. split; lia.
Qed.
Lemma hex_number_quotes l v : hex_number l = Some v → quotes l = 0.
Proof.
  unfold hex_number. assert (∀ a, foldl (λ a c, a ← a; v ← hex_value c; Some (16 * a + v)%N) a l = Some v → quotes l = 0) as H;
    [|apply H].
  induction l as [|c l IH]; intros a; [done|]. cbn [foldl]. intros Hf. pose proof (IH _ Hf) as Hl. rewrite quotes_cons, Hl.
  destruct (N.eqb_spec 34 c) as [<-|]; [|done]. exfalso. destruct a as [a|]; cbn in Hf; clear -Hf; by induction l.
Qed.

#[local] Ltac by_literal IH :=
  intros (w & Hw & ->)%fmap_Some; apply IH in Hw; cbn [length] in *; lia.

(** A quotation mark needs a backslash before it. *)
Lemma string_literal_length s v : string_literal s = Some v → length v + quotes s ≤ length s.
Proof.
  revert v. induction s as [s IH] using length_ind. intros v. destruct s as [|c s]; [by intros [= <-]|].
  cbn [string_literal]. rewrite quotes_cons. destruct (N.eqb_spec c 92) as [->|Hc].
  - change (34 =? 92)%N with false. destruct s as [|c s]; [done|]. rewrite quotes_cons.
    destruct (N.eqb_spec c 120) as [->|Hx]; [|destruct (N.eqb_spec c 117) as [->|Hu]].
    + change (34 =? 120)%N with false. destruct s as [|a [|b s]]; [done..|]. destruct (hex_number [a; b]) as [n|] eqn:Hn; [|done].
      apply hex_number_quotes in Hn. rewrite !quotes_cons in *. cbn [mbind option_bind]. by_literal IH.
    + change (34 =? 117)%N with false. destruct s as [|a [|b [|d [|e s]]]]; [done..|]. destruct (hex_number [a; b; d; e]) as [n|] eqn:Hn; [|done].
      apply hex_number_quotes in Hn. rewrite !quotes_cons in *. cbn [mbind option_bind]. by_literal IH.
    + destruct (N.eqb_spec 34 c) as [<-|Hq]; [cbn [is_digit is_line_term]|].
      * change (is_digit 34) with false. change (is_line_term 34) with false. cbv iota. by_literal IH.
      * destruct (is_digit c); [case_goal; [by_literal IH|done]|]. destruct (is_line_term c); [|by_literal IH].
        intros Hs. apply IH in Hs; cbn; lia.
  - destruct (N.eqb_spec c 34) as [->|Hq]; [done|]. rewrite (proj2 (N.eqb_neq 34 c)) by congruence. cbn [orb].
    case_goal; [done|]. by_literal IH.
Qed.

(** The argument of [:not] is shorter than the expression. *)
Lemma argument_shorter e p name v : program_of e = Some p → SPseudo name v ∈ p → S (length v) ≤ length e ∨ v = [].
Proof.
  intros Hp Hin. unfold program_of in Hp. apply mapM_Some_1 in Hp.
  apply list_elem_of_lookup in Hin as [k Hk]. destruct (Forall2_lookup_r _ _ _ _ _ Hp Hk) as ([i m] & Him & Hq).
  apply list_elem_of_lookup_2 in Him. apply token_loop_in in Him as (e' & r & He' & Hr & Hm). cbn [fst snd] in Hq.
  assert (i = Pseudo ∧ string_literal (escape_quotes (m_group_or_empty m 6)) = Some v) as [-> Hv].
  { destruct i; cbn [criteria eval_stmt] in Hq; try by (apply fmap_Some in Hq as (? & _ & ?)).
    - discriminate.
    - split; [done|]. destruct (string_literal (m_group_or_empty m 1)) as [n|]; [|done]. cbn [mbind option_bind] in Hq.
      destruct (string_literal (escape_quotes _)) as [w|]; [|done]. cbn [mbind option_bind] in Hq. by injection Hq as _ ->.
    - by destruct (string_literal (m_group_or_empty m 1)), (string_literal (group_or m 5 6)),
        (string_literal (m_group_or_empty m 2)). }
  assert (r = pseudo_rx) as -> by (clear -Hr; unfold patterns in Hr; set_solver).
  unfold m_group_or_empty in Hv. destruct (m_group m 6) as [u|] eqn:Hu; cbn [default id] in Hv.
  - left. apply string_literal_length in Hv. destruct (escape_quotes_length u) as [H1 H2].
    assert (S (length u) ≤ length e') by (by eapply group_shorter). lia.
  - right. cbn in Hv. congruence.
Qed.

(** ** Selection ends *)

Section ends.
Context `{SelectorHost} (Heval : ∀ x d r, document_evaluate x d r ≠ Throw ERangeError).

(** A computation that does not run out of fuel and keeps the cache typed. *)
Definition ends {A} (m : X A) : Prop := ∀ s, cache_ok s → (m s).1 ≠ Throw ERangeError ∧ cache_ok (m s).2.

Lemma ends_bind {A B} (m : X A) (k : A → X B) : ends m → (∀ a, ends (k a)) → ends (m ≫= k).
Proof.
  intros Hm Hk s Hs. destruct (Hm s Hs) as [H1 H2]. unfold mbind, js_mbind. destruct (m s) as [[a|e] s']; [by apply Hk|].
  split; [|done]. cbn in *. congruence.
Qed.
Lemma ends_ret {A} (a : A) : ends (mret a).
Proof. by intros s. Qed.
Lemma ends_gets {A} (f : sel → A) : ends (js_gets f).
Proof. by intros s. Qed.
Lemma ends_reading {A} (f : dom → A) : ends (reading f).
Proof. by intros s. Qed.
Lemma ends_type_error {A} : ends (js_throw ETypeError : X A).
Proof. by intros s. Qed.
Lemma ends_get {B} (k : sel → X B) : (∀ s, ends (k s)) → ends (js_get ≫= k).
Proof. intros Hk s. apply Hk. Qed.
Lemma ends_mark_node n : ends (mark_node n).
Proof. by intros s. Qed.
Lemma ends_is_counted n : ends (is_counted n).
Proof. by intros s. Qed.
Lemma ends_counter k : ends (js_modify (set_id_counter k)).
Proof. by intros s. Qed.
Lemma ends_mark l : ends (mark_nodes l).
Proof. intros s Hs. by rewrite mark_nodes_run. Qed.
Lemma ends_unmark l : ends (unmark_nodes l).
Proof. intros s Hs. by rewrite unmark_nodes_run. Qed.
Lemma ends_indices a b total : ends (getIndices a b total).
Proof. intros s Hs. by rewrite getIndices_run. Qed.
Lemma ends_on_dom {A} (m : D A) : (∀ d, (m d).1 ≠ Throw ERangeError) → ends (on_dom m).
Proof. intros Hm s Hs. unfold on_dom. specialize (Hm (sdom s)). by destruct (m (sdom s)). Qed.
Lemma ends_identify e k : ends (on_dom (identify e k)).
Proof.
  apply ends_on_dom. intros d. unfold identify, readAttribute, writeAttribute, get_node, update_node. js_unfold.
  destruct (d !! e) as [n|] eqn:Hn; [|done]. cbn [fst]. destruct (attrs n !! js "id") as [[|]|]; [|done|];
    destruct (fresh_id _ _ _); cbn; js_unfold; by rewrite Hn.
Qed.
Lemma ends_writeAttribute e a : ends (on_dom (writeAttribute e [a])).
Proof.
  apply ends_on_dom. intros d. unfold writeAttribute, update_node. cbn. js_unfold. by destruct (d !! e).
Qed.

Create HintDb ends discriminated.
#[local] Hint Resolve ends_ret ends_gets ends_reading ends_type_error ends_mark_node ends_is_counted ends_counter ends_mark
  ends_unmark ends_indices ends_identify ends_writeAttribute : ends.
#[local] Ltac ending :=
  repeat first
    [ progress intros
    | solve [auto 1 with ends nocore]
    | match goal with
      | |- ends (js_get ≫= _) => apply ends_get
      | |- ends (_ ≫= _) => apply ends_bind
      | |- ends (match _ with _ => _ end) => case_goal
      end ].

Lemma ends_index_loop ofType l j : ends (index_loop ofType l j).
Proof.
  revert j. induction l as [|n l IH]; intros j; cbn [index_loop]; [ending|]. intros s Hs. rewrite js_bind_get.
  case_goal; [|by apply IH]. apply (IH (j + 1)%Z). exact Hs.
Qed.
Lemma ends_nth nodes f reversed ofType : ends (p_nth nodes f reversed ofType).
Proof.
  assert (∀ l acc, ends (index_parents reversed ofType l acc)) as Hp.
  { induction l as [|n l IH]; intros acc; cbn [index_parents]; unfold index_children; ending; auto using ends_index_loop. }
  unfold p_nth. ending.
Qed.
Lemma ends_unique l : ends (unique l).
Proof.
  assert (∀ acc, ends (unique_loop l acc)) as Hloop.
  { induction l as [|n l IH]; intros acc; cbn [unique_loop]; ending; auto. }
  unfold unique. ending.
Qed.
#[local] Hint Resolve ends_nth ends_unique : ends.

Lemma ends_attr d nodes root name v o c e : h_attr d nodes root name v o c = Throw e → e ≠ ERangeError.
Proof.
  unfold h_attr. generalize (start_nodes d nodes root c) as l, (@nil nid) as acc.
  intros l. induction l as [|n l IH]; intros acc; cbn; [done|].
  destruct (attr_of d n name); [|apply IH]. destruct (operator o); [apply IH|]. by intros [= <-].
Qed.

Lemma ends_matcher (find : jsstr → nid → X (list nid)) root p :
  (∀ name v, SPseudo name v ∈ p → ends (find v root)) → ends (matcher find p root).
Proof.
  intros Hfind. assert (∀ nodes c, ends (run_stmts find root p nodes c)) as Hrun; [|unfold matcher; ending].
  induction p as [|q p IH]; intros nodes c; cbn [run_stmts]; [ending|].
  apply ends_bind; [|intros nc; apply IH; intros; eapply Hfind; by right].
  destruct q; cbn [run_stmt]; try by ending.
  - unfold reading. intros s Hs. rewrite js_bind_gets. destruct (h_attr _ _ _ _ _ _ _) as [l|e] eqn:He; [done|].
    apply ends_attr in He. split; [|done]. cbn. congruence.
  - unfold h_pseudo, pseudos, p_not. ending. eapply Hfind. by left.
Qed.

Lemma xpath_of_error e x : xpath_of e = Throw x → x = ETypeError.
Proof.
  assert (∀ not_, (∀ v x, not_ v = Throw x → x = ETypeError) → ∀ l x, xpath_parts not_ l = Throw x → x = ETypeError) as Hparts.
  { intros not_ Hnot. assert (∀ name m6 x, xpath_pseudo not_ name m6 = Throw x → x = ETypeError) as Hps.
    { intros name m6 y. unfold xpath_pseudo, nth_of. repeat case_goal; try done; intros [= <-]; try done. by eapply Hnot. }
    induction l as [|[i m] l IH]; intros y; cbn [xpath_parts]; [done|].
    destruct (xpath not_ i m) as [v|z] eqn:Hv.
    - destruct (xpath_parts not_ l); [done|]. intros [= <-]. by apply IH.
    - intros [= <-]. destruct i as [c| | | | | |]; cbn -[xpath_pseudo] in Hv; [by destruct c|..]; try done.
      + by case_match.
      + by eapply Hps.
      + case_match; [done|]. congruence. }
  unfold xpath_of. destruct (xpath_parts _ _) as [|y] eqn:Hp; [done|]. intros [= <-].
  eapply Hparts; [|exact Hp]. generalize (length e). intros fuel. induction fuel as [|fuel IH]; intros v z; cbn [xpath_not]; [done|].
  destruct (xpath_parts (xpath_not fuel) (tokenize v)) as [vs|] eqn:Hv; [destruct (mapM exclusion vs); [done|congruence]|].
  intros [= <-]. by eapply Hparts.
Qed.

Lemma ends_new_selector e : ends (new_selector e).
Proof.
  intros s Hs. split; [|by apply keeps_new_selector]. unfold new_selector, compileXPathMatcher, compileMatcher.
  destruct (shouldUseSelectorsAPI (strip e)); [done|]. destruct (shouldUseXPath (strip e)); js_unfold.
  - destruct (cached s (strip e)); [done|]. destruct (xpath_of (strip e)) as [x|x] eqn:Hx; [done|]. cbn.
    intros [= ->]. by apply xpath_of_error in Hx.
  - destruct (cached s (strip e)); [done|]. by destruct (program_of (strip e)).
Qed.

(** What the compiled matcher searches for is short. *)
Lemma program_arguments e p name v : program_of e = Some p → SPseudo name v ∈ p → length v < length e.
Proof.
  intros Hp Hin. destruct (argument_shorter e p name v Hp Hin) as [| ->]; [lia|]. cbn.
  destruct e as [|c e]; [|cbn; lia]. injection Hp as <-. by apply not_elem_of_nil in Hin.
Qed.
Lemma strip_length e : length (strip e) ≤ length e.
Proof.
  rewrite strip_trim. unfold trim, trim_right. rewrite length_reverse.
  assert (∀ s, length (trim_left s) ≤ length s) as Hl.
  { induction s as [|c s IH]; cbn; [lia|]. destruct (is_space c); cbn; lia. }
  pose proof (Hl e). pose proof (Hl (reverse (trim_left e))). rewrite length_reverse in *. lia.
Qed.

Lemma ends_asked answer : (∀ d, answer d ≠ Throw ERangeError) → ends (asked answer).
Proof.
  intros Ha s Hs. unfold asked, reading. rewrite js_bind_gets. specialize (Ha (sdom s)).
  destruct (answer (sdom s)); [done|]. split; [|done]. cbn. congruence.
Qed.
Lemma ends_selector find this root : selector_ok this →
  (∀ v, length v < length (expression this) → ends (find v root)) → ends (run_selector find this root).
Proof.
  intros Hthis Hfind. unfold run_selector. destruct this as [e mo [[p|x|x]|]]; destruct mo; try done; cbn [mode compiled_as expression] in *.
  - destruct Hthis as [_ Hp]. apply ends_matcher. intros name v Hv. apply Hfind. by eapply program_arguments.
  - apply ends_asked. intros d. apply Heval.
  - apply ends_asked. intros d. apply Heval.
  - apply ends_asked. intros d. by destruct (inherited_matcher x d root).
  - unfold find_by_api. ending.
Qed.

Lemma ends_find fuel e root : length (strip e) < fuel → ends (find_with fuel e root).
Proof.
  revert e. induction fuel as [|fuel IH]; intros e He; [lia|]. cbn [find_with]. intros s Hs.
  destruct (ends_new_selector e s Hs) as [H1 H2]. unfold mbind, js_mbind.
  destruct (new_selector e s) as [[this|x] s'] eqn:Hn; [|split; [cbn in *; congruence|done]].
  apply new_selector_ok in Hn as [_ Hthis]; [|done]. destruct (Hthis this eq_refl) as [Hexp Hok].
  apply ends_selector; [done| |done]. intros v Hv. apply IH. pose proof (strip_length v). rewrite Hexp in Hv. lia.
Qed.
Lemma ends_findElements_of this root : selector_ok this → ends (findElements_of this root).
Proof. intros Hthis. apply ends_selector; [done|]. intros v Hv. apply ends_find. pose proof (strip_length v). lia. Qed.

(** A computation on a new selector object. *)
Lemma ends_with_selector {A} e (k : selector → X A) : (∀ this, selector_ok this → ends (k this)) →
  ends (this ← new_selector e; k this).
Proof.
  intros Hk s Hs. destruct (ends_new_selector e s Hs) as [H1 H2]. unfold mbind, js_mbind.
  destruct (new_selector e s) as [[this|x] s'] eqn:Hn; [|split; [cbn in *; congruence|done]].
  apply new_selector_ok in Hn as [_ Hthis]; [|done]. destruct (Hthis this eq_refl) as [_ Hok]. by apply Hk.
Qed.
Lemma ends_select_all e root : ends (select_all e root).
Proof. apply ends_with_selector. intros. by apply ends_findElements_of. Qed.
Lemma ends_findChildElements root es : ends (findChildElements root es).
Proof.
  assert (∀ l acc, ends (select_each l root acc)) as Heach.
  { induction l as [|e l IH]; intros acc; cbn [select_each]; [ending|]. apply ends_bind; [apply ends_select_all|auto]. }
  unfold findChildElements. ending.
Qed.
Lemma ends_match x e : ends (element_match x e).
Proof.
  apply ends_with_selector. intros this Hthis. unfold selector_match. destruct (match_tokens _) as [l|].
  - apply ends_on_dom. intros d. induction l as [|[i m] l IH]; cbn [assert_all]; [done|].
    destruct (assertion i) as [a|] eqn:Ha; [|done].
    assert (∃ r, a x m d = (r, d) ∧ r ≠ Throw ERangeError) as (r & Ham & Hr).
    { destruct i; cbn in Ha; try done; injection Ha as <-; unfold hasClassName, readAttribute, get_node; js_unfold;
        try (by eexists); destruct (d !! x); cbn; try (by eexists); repeat case_goal; by eexists. }
    unfold mbind, js_mbind. rewrite Ham. destruct r as [b|y]; [by destruct b|cbn; congruence].
  - ending. by apply ends_findElements_of.
Qed.
End ends.

