(* ===== verification/SelectorPrint.v ===== *)
(** * Writing and reading selector expressions (prototype.js: Selector)

    The expression written for a sequence of tokens, names, ids, classes,
    attributes and combinators, is compiled to these tokens, and selects what
    they say. *)

From Stdlib Require Import ZArith.
From S2P Require Import Prelude JsBase JsNum JsRegex JsReplace Enumerable Strings Hash Dom SelectorText Selector SelectorSpec SelectorParse.
#[local] Open Scope nat_scope.
#[local] Open Scope stdpp_scope.

(** ** Writing *)

Definition combinator_text (c : combinator) : jsstr :=
  match c with
  | LaterSibling => js " ~ "
  | Child => js " > "
  | Adjacent => js " + "
  | Descendant => js " "
  end.
Definition stmt_text (q : stmt) : jsstr :=
  match q with
  | SCombinator c => combinator_text c
  | STag name => name
  | SId id => js "#" ++ id
  | SClass name => js "." ++ name
  | SAttrPresence name => js "[" ++ name ++ js "]"
  | SAttr name v o => js "[" ++ name ++ o ++ dq ++ v ++ dq ++ js "]"
  | SPseudo name v => js ":" ++ name
  end.
Definition expression_text (p : list stmt) : jsstr := p ≫= stmt_text.

(** The names that can be written: tags; ids and classes, which end in a word
    character; attributes with a namespace are left out. *)
Definition tag_text (n : jsstr) : bool := bool_decide (n = js "*") || negb (bool_decide (n = [])) && forallb name_char n.
Definition name_text (n : jsstr) : bool :=
  forallb name_char n && match reverse n with c :: _ => is_word c | [] => false end.
Definition attr_text (n : jsstr) : bool := negb (bool_decide (n = [])) && forallb is_word n.
(** A value without quotation marks, backslashes and ends of lines. *)
Definition value_char (c : N) : bool := negb (one_of [34%N; 92%N; 10%N; 13%N; 4%N] c).
Definition operators : list jsstr := [js "="; js "!="; js "^="; js "$="; js "*="; js "~="; js "|="].

Fixpoint printable (start : bool) (p : list stmt) : bool :=
  match p with
  | [] => negb start
  | SCombinator c :: p => negb start && printable true p
  | STag name :: p => start && tag_text name && printable false p
  | SId name :: p | SClass name :: p => name_text name && printable false p
  | SAttrPresence name :: p => attr_text name && printable false p
  | SAttr name v o :: p => attr_text name && bool_decide (o ∈ operators) && forallb value_char v && printable false p
  | SPseudo _ _ :: _ => false
  end.

(** ** Matching runs of a class *)

Definition head_not (p : N → bool) (s : jsstr) : Prop := match s with c :: _ => p c = false | [] => True end.

Lemma star_run p k b u v c y : forallb p u = true → k (Pos (reverse u ++ b) v, c) = Some y →
  head_not p v → rmatch (RStar true (RChar p)) k (Pos b (u ++ v), c) = Some y.
Proof.
  revert b. induction u as [|d u IH]; intros b Hu Hk Hv.
  - rewrite rmatch_star_class. cbn [app]. destruct v as [|d v]; [done|]. cbn in Hv. by rewrite Hv.
  - cbn in Hu. apply andb_true_iff in Hu as [Hd Hu]. rewrite rmatch_star_class. cbn [app]. rewrite Hd.
    rewrite (IH (d :: b)); [done|done| |done]. by rewrite reverse_cons, <- app_assoc in Hk.
Qed.
Lemma star_none p k b s c : (∀ u v, s = u ++ v → forallb p u = true → k (Pos (reverse u ++ b) v, c) = None) →
  rmatch (RStar true (RChar p)) k (Pos b s, c) = None.
Proof.
  revert b. induction s as [|d s IH]; intros b Hk; rewrite rmatch_star_class; [by apply (Hk [] [])|].
  assert (k (Pos b (d :: s), c) = None) as -> by (by apply (Hk [] (d :: s))).
  destruct (p d) eqn:Hd; [|done]. rewrite IH; [done|]. intros u v -> Hu.
  rewrite <- (Hk (d :: u) v); [by rewrite reverse_cons, <- app_assoc|done|]. cbn. by rewrite Hd.
Qed.
(** [+] *)
Lemma plus_run p k b u v c y : u ≠ [] → forallb p u = true → k (Pos (reverse u ++ b) v, c) = Some y →
  head_not p v → rmatch (RPlus (RChar p)) k (Pos b (u ++ v), c) = Some y.
Proof.
  intros Hne Hu Hk Hv. destruct u as [|d u]; [done|]. cbn in Hu. apply andb_true_iff in Hu as [Hd Hu].
  unfold RPlus. cbn [rmatch fst snd after before app]. rewrite Hd. apply star_run; [done| |done].
  by rewrite reverse_cons, <- app_assoc in Hk.
Qed.
Lemma plus_none p k b s c : (∀ u v, u ≠ [] → s = u ++ v → forallb p u = true → k (Pos (reverse u ++ b) v, c) = None) →
  rmatch (RPlus (RChar p)) k (Pos b s, c) = None.
Proof.
  intros Hk. unfold RPlus. cbn [rmatch fst snd after before]. destruct s as [|d s]; [done|].
  destruct (p d) eqn:Hd; [|done]. apply star_none. intros u v -> Hu.
  rewrite <- (Hk (d :: u) v); [by rewrite reverse_cons, <- app_assoc|done|done|]. cbn. by rewrite Hd.
Qed.
(** The lazy [*] *)
Lemma rmatch_lazy_class p k b s c :
  rmatch (RStar false (RChar p)) k (Pos b s, c) =
  or_else (k (Pos b s, c)) (λ _, match s with
           | d :: s' => if p d then rmatch (RStar false (RChar p)) k (Pos (d :: b) s', c) else None
           | [] => None
           end).
Proof.
  destruct s as [|d s]; [by cbn; destruct (k _)|]. cbn [rmatch after fst length star_loop].
  destruct (k _); [done|]. cbn. destruct (p d); [|done]. by rewrite (proj2 (Nat.ltb_lt _ _)) by lia.
Qed.
Lemma lazy_run p k b u v c y : forallb p u = true →
  (∀ u1 u2, u = u1 ++ u2 → u2 ≠ [] → k (Pos (reverse u1 ++ b) (u2 ++ v), c) = None) →
  k (Pos (reverse u ++ b) v, c) = Some y → rmatch (RStar false (RChar p)) k (Pos b (u ++ v), c) = Some y.
Proof.
  revert b. induction u as [|d u IH]; intros b Hu Hnone Hk; rewrite rmatch_lazy_class.
  - cbn in *. by rewrite Hk.
  - assert (k (Pos b ((d :: u) ++ v), c) = None) as -> by (by apply (Hnone [] (d :: u))). cbn [or_else app]. cbn in Hu. apply andb_true_iff in Hu as [Hd Hu]. rewrite Hd.
    apply IH; [done| |by rewrite reverse_cons, <- app_assoc in Hk].
    intros u1 u2 -> Hne. rewrite <- (Hnone (d :: u1) u2) by done. by rewrite reverse_cons, <- app_assoc.
Qed.

(** ** Anchored expressions *)

Lemma rx_match_bol r s : rx_match (RBol +++ r)%rx s =
  match rmatch r Some (Pos [] s, ∅) with
  | Some y => Some (MatchRes [] (consumed (Pos [] s) y.1) (after y.1) y.2)
  | None => None
  end.
Proof.
  unfold rx_match. destruct s as [|c s]; cbn [exec_from].
  - change (rmatch (RBol +++ r)%rx Some (Pos [] [], ∅)) with (rmatch r Some (Pos [] [], ∅)). by destruct (rmatch r _ _).
  - change (rmatch (RBol +++ r)%rx Some (Pos [] (c :: s), ∅)) with (rmatch r Some (Pos [] (c :: s), ∅)).
    destruct (rmatch r _ _); [done|]. by rewrite exec_from_anchored.
Qed.
(** What a match at the head says of its text and rest. *)
Lemma consumed_app b u v b' : consumed (Pos b (u ++ v)) (Pos b' v) = u.
Proof. by apply consumed_prefix. Qed.

(** [^\s*x] fails when no [x] follows the spaces. *)
Lemma spaced_none x r e : (∀ u v, e = u ++ v → forallb is_space u = true → head v ≠ Some x) →
  rx_match (RBol +++ sp +++ RLit x +++ r)%rx e = None.
Proof.
  intros He. rewrite rx_match_bol. cbn [rmatch]. unfold sp. rewrite star_none; [done|]. intros u v -> Hu. specialize (He u v eq_refl Hu).
  cbn. destruct v as [|d v]; [done|]. cbn in He. destruct (N.eqb_spec d x) as [->|]; [done|done].
Qed.
Lemma head_none d r s : head s ≠ Some d → rx_match (RBol +++ RLit d +++ r)%rx s = None.
Proof.
  intros Hs. rewrite rx_match_bol. cbn. destruct s as [|c s]; [done|]. cbn in Hs. destruct (N.eqb_spec c d) as [->|]; done.
Qed.

(** ** Each token is read *)

(** The text read and the first group. *)
Definition reads (r : rx) (e text group rest : jsstr) : Prop :=
  e = text ++ rest ∧ ∃ m, rx_match r e = Some m ∧ m_text m = text ∧ m_group_or_empty m 1 = group.

Lemma reads_bol r text rest b caps group : rmatch r Some (Pos [] (text ++ rest), ∅) = Some (Pos b rest, caps) →
  default [] (caps !! 1) = group → reads (RBol +++ r)%rx (text ++ rest) text group rest.
Proof.
  intros Hr Hg. split; [done|]. rewrite rx_match_bol, Hr. eexists. split; [done|]. cbn. split; [by apply (consumed_app [] text rest b)|done].
Qed.

Lemma optional_edge x : rmatch (ROpt edge) Some x = Some x.
Proof. unfold ROpt, edge. cbn. destruct (at_word_boundary x.1); [done|]. by destruct (after x.1). Qed.

Lemma star_char_name c : name_char c = true → star_char c = true.
Proof. unfold star_char. by intros ->. Qed.
Lemma name_not_space c : name_char c = true → is_space c = false.
Proof.
  intros Hc. assert (45 <= c <= 122)%N as Hr.
  { unfold name_char, is_word, is_digit, is_upper, is_lower in Hc.
    rewrite !orb_true_iff, !andb_true_iff, !N.leb_le, !N.eqb_eq in Hc. lia. }
  unfold is_space. apply orb_false_iff. split.
  - apply bool_decide_eq_false. intros Hin. repeat (apply elem_of_cons in Hin as [->|Hin]; [lia|]). by apply not_elem_of_nil in Hin.
  - apply andb_false_iff. left. apply N.leb_gt. lia.
Qed.

Lemma star_group r k b s c y : k (Pos (42%N :: b) s, <[1 := js "*"]> c) = Some y →
  rmatch (RGroup 1 (RLit 42 <|> r))%rx k (Pos b (js "*" ++ s), c) = Some y.
Proof.
  intros Hk. assert (rmatch (RGroup 1 (RLit 42 <|> r))%rx k (Pos b (js "*" ++ s), c) =
    or_else (k (Pos (42%N :: b) s, <[1 := consumed (Pos b (js "*" ++ s)) (Pos (42%N :: b) s)]> c))
      (λ _, rmatch (RGroup 1 r) k (Pos b (js "*" ++ s), c))) as -> by reflexivity.
  by rewrite consumed_app, Hk.
Qed.
Lemma tag_group k b n s c y : n ≠ [] → forallb name_char n = true → head_not name_char s →
  k (Pos (reverse n ++ b) s, <[1 := n]> c) = Some y →
  rmatch (RGroup 1 (RLit 42 <|> RPlus (RChar name_char)))%rx k (Pos b (n ++ s), c) = Some y.
Proof.
  intros Hne Hn Hs Hk. change (rmatch (RGroup 1 (RLit 42 <|> RPlus (RChar name_char)))%rx k (Pos b (n ++ s), c)) with
    (or_else (rmatch (RLit 42) (λ y, k (y.1, <[1 := consumed (Pos b (n ++ s)) y.1]> y.2)) (Pos b (n ++ s), c))
       (λ _, rmatch (RPlus (RChar name_char)) (λ y, k (y.1, <[1 := consumed (Pos b (n ++ s)) y.1]> y.2)) (Pos b (n ++ s), c))).
  assert (rmatch (RLit 42) (λ y, k (y.1, <[1 := consumed (Pos b (n ++ s)) y.1]> y.2)) (Pos b (n ++ s), c) = None) as ->.
  { destruct n as [|d n]; [done|]. cbn. cbn in Hn. destruct (N.eqb_spec d 42) as [->|]; [discriminate Hn|done]. }
  cbn [or_else]. apply plus_run; [done..| |done]. cbn [fst snd]. by rewrite consumed_app.
Qed.

Lemma tag_reads n rest : tag_text n = true → head_not name_char rest → reads tagName_rx (n ++ rest) n n rest.
Proof.
  intros Hn Hrest. apply (reads_bol _ n rest (reverse n) (<[1 := n]> ∅)); [|by rewrite lookup_insert_eq].
  change (rmatch (RStar true (RChar is_space)) (rmatch (RGroup 1 (RLit 42 <|> RPlus (RChar name_char)) +++ ROpt edge)%rx Some)
    (Pos [] ([] ++ (n ++ rest)), ∅) = Some (Pos (reverse n) rest, <[1 := n]> ∅)).
  unfold tag_text in Hn. apply orb_true_iff in Hn as [Hn|Hn].
  - apply bool_decide_eq_true in Hn as ->. apply star_run; [done| |done].
    change (rmatch (RGroup 1 (RLit 42 <|> RPlus (RChar name_char)))%rx (rmatch (ROpt edge) Some) (Pos [] (js "*" ++ rest), ∅) = Some (Pos (reverse (js "*")) rest, <[1 := js "*"]> ∅)).
    apply star_group. by rewrite optional_edge.
  - apply andb_true_iff in Hn as [Hne Hn]. rewrite negb_true_iff, bool_decide_eq_false in Hne. apply star_run; [done| |].
    + change (rmatch (RGroup 1 (RLit 42 <|> RPlus (RChar name_char)))%rx (rmatch (ROpt edge) Some) (Pos [] (n ++ rest), ∅) = Some (Pos (reverse n) rest, <[1 := n]> ∅)).
      apply tag_group; [done..|]. by rewrite optional_edge, app_nil_r.
    + destruct n as [|c n]; [done|]. cbn in Hn |- *. apply andb_true_iff in Hn as [Hc _]. by apply name_not_space.
Qed.

Lemma named_reads x n rest : name_text n = true → head_not star_char rest →
  reads (RBol +++ RLit x +++ RGroup 1 (RPlus (RChar star_char)) +++ edge)%rx (x :: n ++ rest) (x :: n) n rest.
Proof.
  intros Hn Hrest. unfold name_text in Hn. apply andb_true_iff in Hn as [Hn Hlast].
  destruct (reverse n) as [|c l] eqn:Hl; [done|]. apply (reads_bol _ (x :: n) rest (reverse n ++ [x]) (<[1 := n]> ∅)); [|by rewrite lookup_insert_eq].
  assert (at_word_boundary (Pos (reverse n ++ [x]) rest) = true) as Hwb.
  { unfold at_word_boundary. cbn [before after]. rewrite Hl. cbn [app]. rewrite Hlast.
    destruct rest as [|d rest]; [done|]. cbn in Hrest. unfold star_char, name_char in Hrest. by destruct (is_word d). }
  cbn [rmatch app]. unfold RLit. cbn [rmatch fst snd after before]. rewrite N.eqb_refl.
  apply plus_run; [by intros ->| | |done].
  - rewrite forallb_forall in *. intros d Hd. by apply star_char_name, Hn.
  - unfold edge. cbn [rmatch fst snd]. rewrite Hwb. cbn [or_else]. by rewrite consumed_app.
Qed.

(** *** Attributes *)

Lemma rm_seq r1 r2 k x : rmatch (r1 +++ r2)%rx k x = rmatch r1 (rmatch r2 k) x.
Proof. done. Qed.
Lemma rm_group n r k x : rmatch (RGroup n r) k x = rmatch r (λ y, k (y.1, <[n := consumed x.1 y.1]> y.2)) x.
Proof. done. Qed.
Lemma rm_char p k b d s c : rmatch (RChar p) k (Pos b (d :: s), c) = if p d then k (Pos (d :: b) s, c) else None.
Proof. done. Qed.
Lemma rm_lit d k b s c : rmatch (RLit d) k (Pos b (d :: s), c) = k (Pos (d :: b) s, c).
Proof. unfold RLit. by rewrite rm_char, N.eqb_refl. Qed.
Lemma rm_lit_none d k b s c : head s ≠ Some d → rmatch (RLit d) k (Pos b s, c) = None.
Proof. intros Hs. destruct s as [|e s]; [done|]. unfold RLit. rewrite rm_char. destruct (N.eqb_spec e d) as [->|]; [by destruct Hs|done]. Qed.
Lemma rm_opt_skip r k x : rmatch r k x = None → rmatch (ROpt r) k x = k x.
Proof. intros Hr. unfold ROpt. cbn. by rewrite Hr. Qed.
Lemma rm_opt_take r k x y : rmatch r k x = Some y → rmatch (ROpt r) k x = Some y.
Proof. intros Hr. unfold ROpt. cbn. by rewrite Hr. Qed.
Lemma rm_alt_left r1 r2 k x y : rmatch r1 k x = Some y → rmatch (r1 <|> r2)%rx k x = Some y.
Proof. intros Hr. cbn. by rewrite Hr. Qed.

Lemma split_head (p : N → bool) (n u v t : jsstr) d : n ++ d :: t = u ++ v → forallb p u = true → p d = false →
  ∃ x v', v = x :: v' ∧ (x ∈ n ∨ x = d).
Proof.
  revert u. induction n as [|a n IH]; intros u Heq Hu Hd.
  - destruct u as [|b u]; cbn in Heq.
    + subst v. exists d, t. auto.
    + injection Heq as -> ->. cbn in Hu. by rewrite Hd in Hu.
  - destruct u as [|b u]; cbn in Heq.
    + subst v. exists a, (n ++ d :: t). split; [done|]. left. left.
    + injection Heq as -> Heq. cbn in Hu. apply andb_true_iff in Hu as [_ Hu].
      destruct (IH u Heq Hu Hd) as (x & v' & Hv & Hx). exists x, v'. split; [done|]. destruct Hx; [left; by right|by right].
Qed.

(** The name of an attribute, up to a character that is neither in names nor
    a colon. *)
Section attribute_name.
Context (p : N → bool) (prefix : rx) (n t : jsstr) (d : N).
Context (Hn : n ≠ []) (Hp : forallb p n = true) (Hd : p d = false) (Hcolon : p 58%N = false ∧ d ≠ 58%N).
Context (Hprefix : ∀ K b s c, (∀ u v, s = u ++ v → forallb p u = true → head v ≠ Some 58%N) →
  rmatch prefix K (Pos b s, c) = None).
#[local] Abbreviation name_group := (RGroup 1 (ROpt prefix +++ RPlus (RChar p)))%rx.

Lemma no_prefix K b c : rmatch prefix K (Pos b (n ++ d :: t), c) = None.
Proof using Hp Hd Hcolon Hprefix.
  apply Hprefix. intros u v Heq Hu. destruct (split_head p n u v t d Heq Hu Hd) as (x & v' & -> & [Hx| ->]); [|by intros [= ?]; destruct Hcolon].
  rewrite forallb_forall in Hp. rewrite list_elem_of_In in Hx. intros [= ->]. specialize (Hp _ Hx). destruct Hcolon. congruence.
Qed.
Lemma attribute_name k b c y : k (Pos (reverse n ++ b) (d :: t), <[1 := n]> c) = Some y →
  rmatch name_group k (Pos b (n ++ d :: t), c) = Some y.
Proof using Hn Hp Hd Hcolon Hprefix.
  intros Hk. rewrite rm_group, rm_seq, rm_opt_skip by apply no_prefix.
  apply plus_run; [done..| |by cbn]. cbn [fst snd]. by rewrite consumed_app.
Qed.
Lemma attribute_name_none k b c : (∀ u v caps, n ++ d :: t = u ++ v → forallb p u = true → k (Pos (reverse u ++ b) v, caps) = None) →
  rmatch name_group k (Pos b (n ++ d :: t), c) = None.
Proof using Hp Hd Hcolon Hprefix.
  intros Hk. rewrite rm_group, rm_seq, rm_opt_skip by apply no_prefix.
  apply plus_none. intros u v _ Heq Hu. cbn [fst snd]. by apply Hk.
Qed.
End attribute_name.

Lemma plus_prefix p K b s c : (∀ u v, s = u ++ v → forallb p u = true → head v ≠ Some 58%N) →
  rmatch (RPlus (RChar p) +++ RLit 58)%rx K (Pos b s, c) = None.
Proof. intros Hs. rewrite rm_seq. apply plus_none. intros u v _ Heq Hu. apply rm_lit_none. by eapply Hs. Qed.
Lemma star_prefix p K b s c : (∀ u v, s = u ++ v → forallb p u = true → head v ≠ Some 58%N) →
  rmatch (RStar true (RChar p) +++ RLit 58)%rx K (Pos b s, c) = None.
Proof. intros Hs. rewrite rm_seq. apply star_none. intros u v Heq Hu. apply rm_lit_none. by eapply Hs. Qed.

Lemma word_name c : is_word c = true → name_char c = true.
Proof. unfold name_char. by intros ->. Qed.
Lemma forallb_imp {A} (p q : A → bool) l : (∀ x, p x = true → q x = true) → forallb p l = true → forallb q l = true.
Proof. intros Hpq. rewrite !forallb_forall. auto. Qed.

Lemma presence_reads n rest : attr_text n = true →
  reads attrPresence_rx ((91%N :: n ++ [93%N]) ++ rest) (91%N :: n ++ [93%N]) n rest.
Proof.
  intros Hn. unfold attr_text in Hn. apply andb_true_iff in Hn as [Hne Hn]. rewrite negb_true_iff, bool_decide_eq_false in Hne.
  apply (reads_bol _ (91%N :: n ++ [93%N]) rest (93%N :: reverse n ++ [91%N]) (<[1 := n]> ∅)); [|by rewrite lookup_insert_eq].
  cbn [app]. rewrite <- app_assoc, rm_seq, rm_lit, rm_seq. cbn [app].
  apply attribute_name; [done..|intros; by apply plus_prefix|]. by rewrite rm_lit.
Qed.
(** The presence expression does not match an attribute with a value. *)
Lemma presence_none n d t : attr_text n = true → is_word d = false → d ≠ 58%N → d ≠ 93%N →
  rx_match attrPresence_rx (91%N :: n ++ d :: t) = None.
Proof.
  intros Hn Hd Hc Hd93. unfold attr_text in Hn. apply andb_true_iff in Hn as [Hne Hn]. rewrite negb_true_iff, bool_decide_eq_false in Hne.
  unfold attrPresence_rx. rewrite rx_match_bol, rm_seq, rm_lit, rm_seq.
  rewrite attribute_name_none; [done|done..|intros; by apply plus_prefix|].
  intros u v caps Heq Hu. apply rm_lit_none.
  destruct (split_head is_word n u v t d Heq Hu Hd) as (x & v' & -> & [Hx| ->]); [|by intros [= ?]].
  rewrite forallb_forall in Hn. rewrite list_elem_of_In in Hx. intros [= ->]. by specialize (Hn _ Hx).
Qed.

Lemma rm_back n k b u s c : c !! n = Some u → rmatch (RBack n) k (Pos b (u ++ s), c) = k (Pos (reverse u ++ b) s, c).
Proof.
  intros Hn. cbn. rewrite Hn, (proj2 (is_prefix_spec u (u ++ s))) by (by eexists).
  unfold advance. cbn. by rewrite drop_app_length.
Qed.
Lemma rm_back_none n k b u s c : c !! n = Some u → is_prefix u s = false → rmatch (RBack n) k (Pos b s, c) = None.
Proof. intros Hn Hs. cbn. by rewrite Hn, Hs. Qed.

Lemma operators_ind (P : jsstr → Prop) : Forall P operators → ∀ o, o ∈ operators → P o.
Proof. rewrite Forall_forall. auto. Qed.
Lemma operator_head o : o ∈ operators → ∃ d t, o = d :: t ∧ name_char d = false ∧ is_word d = false ∧ d ≠ 58%N ∧ d ≠ 93%N ∧ is_space d = false.
Proof. revert o. refine (operators_ind _ _). do 7 (constructor; [by eexists _, _|]). constructor. Qed.
Lemma operator_group k b o s c y : o ∈ operators → k (Pos (reverse o ++ b) s, <[2 := o]> c) = Some y →
  rmatch (RGroup 2 (ROpt (RChar (one_of (js "!^$*~|"))) +++ RLit 61))%rx k (Pos b (o ++ s), c) = Some y.
Proof.
  intros Ho Hk. rewrite rm_group, rm_seq.
  assert (o = js "=" ∨ ∃ x, o = [x; 61%N] ∧ one_of (js "!^$*~|") x = true) as [->|(x & -> & Hx)].
  { clear Hk. revert o Ho. refine (operators_ind _ _). do 7 (constructor; [first [by left|right; by eexists]|]). constructor. }
  - rewrite rm_opt_skip by done. change (js "=" ++ s) with (61%N :: s). rewrite rm_lit. cbn [fst snd].
    pose proof (consumed_app b (js "=") s (61%N :: b)) as Hc. change (js "=" ++ s) with (61%N :: s) in Hc. rewrite Hc. exact Hk.
  - apply rm_opt_take. cbn [app]. rewrite rm_char, Hx, rm_lit. cbn [fst snd].
    pose proof (consumed_app b [x; 61%N] s (61%N :: x :: b)) as Hc. cbn [app] in Hc. rewrite Hc. exact Hk.
Qed.

(** A value in double quotes *)
Lemma quoted_value k b v s c y : forallb value_char v = true →
  k (Pos (34%N :: reverse v ++ 34%N :: b) s, <[3 := dq ++ v ++ dq]> (<[5 := v]> (<[4 := dq]> c))) = Some y →
  rmatch (RGroup 3 (RGroup 4 (RChar (one_of (js "'" ++ dq))) +++
                    RGroup 5 (RStar false (RChar (none_of [4%N]))) +++ RBack 4 <|>
                    RGroup 6 (RChar (none_of (js "'" ++ dq)) +++
                              RStar false (RChar (none_of (js "]"))))))%rx k (Pos b (dq ++ v ++ dq ++ s), c) = Some y.
Proof.
  intros Hv Hk. rewrite rm_group. apply rm_alt_left. rewrite rm_seq, rm_group. cbn [dq app].
  rewrite rm_char. change (one_of (js "'" ++ [34%N]) 34) with true. cbv iota. rewrite rm_seq, rm_group. cbn [fst snd].
  assert (consumed (Pos b (34%N :: v ++ 34%N :: s)) (Pos (34%N :: b) (v ++ 34%N :: s)) = dq) as ->
    by apply (consumed_app b dq (v ++ 34%N :: s) (34%N :: b)).
  apply lazy_run.
  - eapply forallb_imp; [|exact Hv]. intros x. unfold value_char, one_of, none_of. rewrite !negb_true_iff, !bool_decide_eq_false. set_solver.
  - intros u1 u2 -> Hne. cbn [fst snd]. apply (rm_back_none _ _ _ dq); [by rewrite lookup_insert_ne, lookup_insert_eq by done|].
    destruct u2 as [|x u2]; [done|]. rewrite forallb_app in Hv. apply andb_true_iff in Hv as [_ Hv]. cbn in Hv.
    apply andb_true_iff in Hv as [Hx _]. cbn. destruct (N.eqb_spec 34 x) as [<-|]; [done|done].
  - cbn [fst snd]. rewrite (consumed_app _ v (34%N :: s)).
    rewrite (rm_back 4 _ _ dq s) by (by rewrite lookup_insert_ne, lookup_insert_eq by done). cbn [fst snd].
    assert (consumed (Pos b (34%N :: v ++ 34%N :: s)) (Pos (reverse dq ++ reverse v ++ 34%N :: b) s) = dq ++ v ++ dq) as ->.
    { pose proof (consumed_app b (dq ++ v ++ dq) s (reverse dq ++ reverse v ++ 34%N :: b)) as Hc.
      rewrite <- !app_assoc in Hc. exact Hc. }
    exact Hk.
Qed.

Lemma value_reads n o v rest : attr_text n = true → o ∈ operators → forallb value_char v = true →
  let text := 91%N :: n ++ o ++ dq ++ v ++ dq ++ [93%N] in
  ∃ m, rx_match attr_rx (text ++ rest) = Some m ∧ m_text m = text ∧
    m_group_or_empty m 1 = n ∧ m_group_or_empty m 2 = o ∧ group_or m 5 6 = v.
Proof.
  intros Hn Ho Hv text. unfold attr_text in Hn. apply andb_true_iff in Hn as [Hne Hn]. rewrite negb_true_iff, bool_decide_eq_false in Hne.
  set (caps := <[3 := dq ++ v ++ dq]> (<[5 := v]> (<[4 := dq]> (<[2 := o]> (<[1 := n]> (∅ : captures)))))).
  assert (∃ b, rmatch attr_rx Some (Pos [] (text ++ rest), ∅) = Some (Pos b rest, caps)) as [b Hr].
  { unfold text, attr_rx. cbn [app]. rewrite rm_seq, rm_lit, rm_seq. rewrite <- !app_assoc.
    eexists. destruct (operator_head o Ho) as (d & t & Hdo & Hd & _ & Hd58 & _ & Hsp).
    pose proof (λ k b c y, attribute_name name_char _ n (t ++ dq ++ v ++ dq ++ [93%N] ++ rest) d Hne
      (forallb_imp _ _ _ word_name Hn) Hd (conj eq_refl Hd58) (λ K b s c, star_prefix name_char K b s c) k b c y) as Hname.
    change (d :: t ++ dq ++ v ++ dq ++ [93%N] ++ rest) with ((d :: t) ++ dq ++ v ++ dq ++ [93%N] ++ rest) in Hname.
    rewrite <- Hdo in Hname. apply Hname. clear Hname.
    rewrite rm_seq. apply (star_run is_space _ _ [] (o ++ dq ++ v ++ dq ++ [93%N] ++ rest)); [done| |by rewrite Hdo].
    rewrite rm_seq. apply rm_opt_take. rewrite rm_seq. apply operator_group; [done|]. rewrite rm_seq.
    apply (star_run is_space _ _ [] (dq ++ v ++ dq ++ [93%N] ++ rest)); [done| |done].
    apply quoted_value; [done|]. cbn [app]. by rewrite rm_lit. }
  eexists. split; [|split_and!].
  - unfold rx_match. unfold text in *. cbn [app exec_from] in *. by rewrite Hr.
  - cbn [m_text fst]. apply (consumed_app [] text rest b).
  - reflexivity.
  - reflexivity.
  - unfold group_or, m_group_or_empty. cbn. by destruct v.
Qed.

(** ** The first pattern that fits *)

(** The characters compounds begin with. *)
Definition opens (c : N) : Prop := is_space c = false ∧ c ≠ 126%N ∧ c ≠ 62%N ∧ c ≠ 43%N.
Lemma name_opens c : name_char c = true → opens c.
Proof. intros Hc. split; [by apply name_not_space|]. by split_and!; intros ->. Qed.

Lemma spaced_head x r c s : is_space c = false → c ≠ x → rx_match (RBol +++ sp +++ RLit x +++ r)%rx (c :: s) = None.
Proof.
  intros Hc Hx. apply spaced_none. intros [|d u] v Heq Hu; cbn in Heq.
  - subst v. cbn. congruence.
  - injection Heq as <- Heq. cbn in Hu. by rewrite Hc in Hu.
Qed.
Lemma spaced_second x r d s : is_space d = false → d ≠ x → x ≠ 32%N → rx_match (RBol +++ sp +++ RLit x +++ r)%rx (32%N :: d :: s) = None.
Proof.
  intros Hd Hx H32. apply spaced_none. intros [|a [|b u]] v Heq Hu; cbn in Heq.
  - subst v. cbn. congruence.
  - injection Heq as <- <-. cbn. congruence.
  - injection Heq as <- <- Heq. cbn in Hu. by rewrite Hd in Hu.
Qed.

Lemma first_match_opens c s : opens c → first_match patterns (c :: s) = first_match (drop 4 patterns) (c :: s).
Proof.
  intros (Hc & H1 & H2 & H3). unfold patterns. cbn [first_match drop].
  unfold laterSibling_rx, child_rx, adjacent_rx, descendant_rx. rewrite !spaced_head by done.
  assert (rx_match (RBol +++ RChar is_space)%rx (c :: s) = None) as ->; [|done].
  rewrite rx_match_bol, rm_char, Hc. done.
Qed.

(** Characters that do not begin a tag name. *)
Lemma tag_none c s : is_space c = false → star_char c = false → rx_match tagName_rx (c :: s) = None.
Proof.
  intros Hc Hs. unfold tagName_rx. rewrite rx_match_bol, rm_seq. unfold sp. rewrite rmatch_star_class, Hc. cbn [or_else].
  rewrite rm_seq, rm_group. unfold star_char in Hs. apply orb_false_iff in Hs as [Hn Hst].
  assert (∀ k, rmatch (RLit 42 <|> RPlus (RChar name_char))%rx k (Pos [] (c :: s), ∅) = None) as ->; [|done].
  intros k. cbn. unfold RLit. cbn. by rewrite Hst, Hn.
Qed.

Definition first_reads (e : jsstr) (i : token) (text rest : jsstr) (q : stmt) : Prop :=
  e = text ++ rest ∧ ∃ m, first_match patterns e = Some (i, m) ∧ m_text m = text ∧ criteria i m = q.

Lemma first_tag n rest : tag_text n = true → head_not star_char rest → first_reads (n ++ rest) TagName n rest (STag n).
Proof.
  intros Hn Hrest. assert (head_not name_char rest) as Hr.
  { destruct rest as [|c r]; [done|]. cbn in *. unfold star_char in Hrest. by destruct (name_char c). }
  destruct (tag_reads n rest Hn Hr) as [_ (m & Hm & Ht & Hg)]. split; [done|]. exists m. split_and!; [|done|by cbn [criteria]; rewrite Hg].
  assert (∃ c s, n ++ rest = c :: s ∧ opens c) as (c & s & Hcs & Hc).
  { unfold tag_text in Hn. apply orb_true_iff in Hn as [Hn|Hn].
    - apply bool_decide_eq_true in Hn as ->. by exists 42%N, rest.
    - destruct n as [|c n]; [done|]. cbn in Hn. apply andb_true_iff in Hn as [Hc _]. exists c, (n ++ rest). split; [done|by apply name_opens]. }
  rewrite Hcs in *. rewrite first_match_opens by done. cbn [drop patterns first_match]. by rewrite Hm.
Qed.
Lemma first_id n rest : name_text n = true → head_not star_char rest →
  first_reads (js "#" ++ n ++ rest) Id (js "#" ++ n) rest (SId n).
Proof.
  intros Hn Hrest. destruct (named_reads 35 n rest Hn Hrest) as [_ (m & Hm & Ht & Hg)]. split; [by rewrite app_assoc|].
  exists m. split_and!; [|done|by cbn [criteria]; rewrite Hg]. change (js "#" ++ n ++ rest) with (35%N :: n ++ rest).
  rewrite first_match_opens by done. cbn [drop patterns first_match]. rewrite tag_none by done. unfold id_rx. by rewrite Hm.
Qed.
Lemma first_class n rest : name_text n = true → head_not star_char rest →
  first_reads (js "." ++ n ++ rest) ClassName (js "." ++ n) rest (SClass n).
Proof.
  intros Hn Hrest. destruct (named_reads 46 n rest Hn Hrest) as [_ (m & Hm & Ht & Hg)]. split; [by rewrite app_assoc|].
  exists m. split_and!; [|done|by cbn [criteria]; rewrite Hg]. change (js "." ++ n ++ rest) with (46%N :: n ++ rest).
  rewrite first_match_opens by done. cbn [drop patterns first_match]. rewrite tag_none by done. unfold id_rx, className_rx.
  rewrite head_none by done. by rewrite Hm.
Qed.
(** Before an attribute expression nothing else fits. *)
Lemma first_bracket s : first_match patterns (91%N :: s) = first_match (drop 8 patterns) (91%N :: s).
Proof.
  rewrite first_match_opens by done. cbn [drop patterns first_match]. rewrite tag_none by done.
  unfold id_rx, className_rx, pseudo_rx. by rewrite !head_none by done.
Qed.
Lemma first_presence n rest : attr_text n = true →
  first_reads (js "[" ++ n ++ js "]" ++ rest) AttrPresence (js "[" ++ n ++ js "]") rest (SAttrPresence n).
Proof.
  intros Hn. destruct (presence_reads n rest Hn) as [_ (m & Hm & Ht & Hg)]. split; [by rewrite <- !app_assoc|].
  exists m. split_and!; [|done|by cbn [criteria]; rewrite Hg].
  change (js "[" ++ n ++ js "]" ++ rest) with (91%N :: n ++ [93%N] ++ rest). rewrite first_bracket.
  cbn [drop patterns first_match]. cbn [app] in Hm. rewrite <- app_assoc in Hm. cbn [app] in Hm |- *. by rewrite Hm.
Qed.
Lemma first_value n o v rest : attr_text n = true → o ∈ operators → forallb value_char v = true →
  first_reads (js "[" ++ n ++ o ++ dq ++ v ++ dq ++ js "]" ++ rest) Attr (js "[" ++ n ++ o ++ dq ++ v ++ dq ++ js "]") rest (SAttr n v o).
Proof.
  intros Hn Ho Hv. destruct (value_reads n o v rest Hn Ho Hv) as (m & Hm & Ht & H1 & H2 & H3). split; [by rewrite <- !app_assoc|].
  exists m. split_and!; [|done|by cbn [criteria]; rewrite H1, H2, H3].
  destruct (operator_head o Ho) as (d & t & -> & _ & Hd & Hd58 & Hd93 & _).
  change (js "[" ++ n ++ (d :: t) ++ dq ++ v ++ dq ++ js "]" ++ rest) with (91%N :: n ++ (d :: t) ++ dq ++ v ++ dq ++ [93%N] ++ rest).
  rewrite first_bracket. cbn [drop patterns first_match].
  change (n ++ (d :: t) ++ ?r) with (n ++ d :: t ++ r). rewrite presence_none by done.
  cbn [app] in Hm. rewrite <- !app_assoc in Hm. cbn [app] in Hm |- *. rewrite <- !app_assoc in Hm. cbn [app] in Hm. by rewrite Hm.
Qed.

(** *** Combinators *)

Lemma spaces_read x rest : is_space x = false → head_not is_space rest →
  reads (RBol +++ sp +++ RLit x +++ sp)%rx ([32%N; x; 32%N] ++ rest) [32%N; x; 32%N] [] rest.
Proof.
  intros Hx Hrest. apply (reads_bol _ [32%N; x; 32%N] rest [32%N; x; 32%N] ∅); [|done].
  rewrite rm_seq. apply (star_run is_space _ _ [32%N] ([x; 32%N] ++ rest)); [done| |done].
  rewrite rm_seq. cbn [app]. rewrite rm_lit. by apply (star_run is_space _ _ [32%N] rest).
Qed.

Lemma first_combinator c h rest : opens h →
  first_reads (combinator_text c ++ h :: rest) (Combinator c) (combinator_text c) (h :: rest) (SCombinator c).
Proof.
  intros Hh. pose proof Hh as (Hs & H1 & H2 & H3). split; [done|].
  assert (∀ x, is_space x = false → ∃ m, rx_match (RBol +++ sp +++ RLit x +++ sp)%rx ([32%N; x; 32%N] ++ h :: rest) = Some m ∧ m_text m = [32%N; x; 32%N]) as Hr.
  { intros x Hx. destruct (spaces_read x (h :: rest) Hx Hs) as [_ (m & Hm & Ht & _)]. by exists m. }
  destruct c; cbn [combinator_text].
  - destruct (Hr 126%N eq_refl) as (m & Hm & Ht). exists m. split_and!; [|done..].
    change (js " ~ " ++ h :: rest) with ([32%N; 126%N; 32%N] ++ h :: rest). cbn [patterns first_match].
    unfold laterSibling_rx. by rewrite Hm.
  - destruct (Hr 62%N eq_refl) as (m & Hm & Ht). exists m. split_and!; [|done..].
    change (js " > " ++ h :: rest) with ([32%N; 62%N; 32%N] ++ h :: rest). cbn [patterns first_match].
    unfold laterSibling_rx, child_rx. cbn [app] in *. by rewrite spaced_second, Hm by done.
  - destruct (Hr 43%N eq_refl) as (m & Hm & Ht). exists m. split_and!; [|done..].
    change (js " + " ++ h :: rest) with ([32%N; 43%N; 32%N] ++ h :: rest). cbn [patterns first_match].
    unfold laterSibling_rx, child_rx, adjacent_rx. cbn [app] in *. by rewrite !spaced_second, Hm by done.
  - assert (rx_match descendant_rx (32%N :: h :: rest) = Some (MatchRes [] [32%N] (h :: rest) ∅)) as Hm.
    { unfold descendant_rx. rewrite rx_match_bol, rm_char. change (is_space 32) with true. cbv iota.
      cbn [fst snd after]. do 2 f_equal. apply (consumed_app [] [32%N]). }
    exists (MatchRes [] [32%N] (h :: rest) ∅). split_and!; [|done..]. change (js " " ++ h :: rest) with (32%N :: h :: rest). cbn [patterns first_match].
    unfold laterSibling_rx, child_rx, adjacent_rx. rewrite !spaced_second by done. rewrite Hm. done.
Qed.

(** ** The whole expression *)

Lemma literal_plain s : forallb value_char s = true → string_literal s = Some s.
Proof.
  induction s as [|c s IH]; [done|]. cbn [forallb string_literal]. intros [Hc Hs]%andb_true_iff. rewrite (IH Hs).
  unfold value_char, one_of in Hc. rewrite negb_true_iff, bool_decide_eq_false in Hc.
  assert (∀ x, x ∈ [34%N; 92%N; 10%N; 13%N; 4%N] → (c =? x)%N = false) as Hne by (intros x Hx; apply N.eqb_neq; congruence).
  by rewrite !Hne by set_solver.
Qed.
Lemma name_value c : star_char c = true → value_char c = true.
Proof.
  intros Hc. unfold value_char, one_of. rewrite negb_true_iff, bool_decide_eq_false. intros Hin.
  repeat (apply elem_of_cons in Hin as [->|Hin]; [done|]). by apply not_elem_of_nil in Hin.
Qed.
Lemma tag_value n : tag_text n = true → forallb value_char n = true.
Proof.
  unfold tag_text. intros [H|[_ H]%andb_true_iff]%orb_true_iff; [by apply bool_decide_eq_true in H as ->|].
  eapply forallb_imp; [|exact H]. intros x Hx. by apply name_value, star_char_name.
Qed.
Lemma name_text_value n : name_text n = true → forallb value_char n = true.
Proof. intros [H _]%andb_true_iff. eapply forallb_imp; [|exact H]. intros x Hx. by apply name_value, star_char_name. Qed.
Lemma attr_text_value n : attr_text n = true → forallb value_char n = true.
Proof. intros [_ H]%andb_true_iff. eapply forallb_imp; [|exact H]. intros x Hx. by apply name_value, star_char_name, word_name. Qed.
Lemma operator_value o : o ∈ operators → forallb value_char o = true.
Proof. revert o. refine (operators_ind _ _). by repeat constructor. Qed.

(** What follows a token. *)
Lemma rest_head p : printable false p = true → head_not star_char (expression_text p).
Proof.
  destruct p as [|[c|n|n|n|n|n v o|n v] p]; cbn [printable]; try done. by destruct c.
Qed.
Lemma compound_head p : printable true p = true → ∃ h r, expression_text p = h :: r ∧ opens h.
Proof.
  destruct p as [|[c|n|n|n|n|n v o|n v] p]; cbn [printable]; try done.
  - intros [Hn _]%andb_true_iff. unfold tag_text in Hn. apply orb_true_iff in Hn as [Hn|Hn].
    + apply bool_decide_eq_true in Hn as ->. by eexists _, _.
    + destruct n as [|c n]; [done|]. cbn in Hn. apply andb_true_iff in Hn as [Hc _]. eexists _, _. split; [done|by apply name_opens].
  - by eexists _, _.
  - by eexists _, _.
  - by eexists _, _.
  - by eexists _, _.
Qed.

(** Each token is read first and leaves the others. *)
Lemma token_read start q p : printable start (q :: p) = true → ∃ i start',
  first_reads (expression_text (q :: p)) i (stmt_text q) (expression_text p) q ∧
  eval_stmt q = Some q ∧ printable start' p = true.
Proof.
  destruct q as [c|n|n|n|n|n v o|n v]; cbn [printable]; unfold expression_text; cbn [mbind list_bind stmt_text];
    fold (expression_text p); intros H.
  - apply andb_true_iff in H as [_ Hp]. exists (Combinator c), true. split; [|done].
    destruct (compound_head p Hp) as (h & r & -> & Hh). by apply first_combinator.
  - rewrite !andb_true_iff in H. destruct H as [[_ Hn] Hp]. exists TagName, false. split; [by apply first_tag, rest_head|].
    split; [|done]. cbn. by rewrite literal_plain by (by apply tag_value).
  - apply andb_true_iff in H as [Hn Hp]. exists Id, false. split; [rewrite <- app_assoc; by apply first_id, rest_head|].
    split; [|done]. cbn. by rewrite literal_plain by (by apply name_text_value).
  - apply andb_true_iff in H as [Hn Hp]. exists ClassName, false. split; [rewrite <- app_assoc; by apply first_class, rest_head|].
    split; [|done]. cbn. by rewrite literal_plain by (by apply name_text_value).
  - apply andb_true_iff in H as [Hn Hp]. exists AttrPresence, false.
    split; [rewrite <- !app_assoc; by apply first_presence|].
    split; [|done]. cbn. by rewrite literal_plain by (by apply attr_text_value).
  - rewrite !andb_true_iff, bool_decide_eq_true in H. destruct H as [[[Hn Ho] Hv] Hp]. exists Attr, false.
    split; [rewrite <- !app_assoc; by apply first_value|].
    split; [|done]. cbn [eval_stmt]. rewrite (literal_plain n), (literal_plain v), (literal_plain o); [done|by apply operator_value|done|by apply attr_text_value].
  - done.
Qed.

Lemma has_text_in e x : x ∈ e → is_space x = false → has_text e = true.
Proof.
  intros Hx Hs. apply list_elem_of_split in Hx as (u & v & ->). unfold has_text. apply rx_test_spec; [done|].
  exists u, (x :: v), (Pos (x :: reverse u) v). split; [done|]. apply matches_char. by rewrite Hs.
Qed.
Lemma printable_text start q p : printable start (q :: p) = true → has_text (expression_text (q :: p)) = true.
Proof.
  intros Hp. assert (∃ h, h ∈ expression_text (q :: p) ∧ is_space h = false) as (h & Hin & Hh);
    [|by apply (has_text_in _ h)].
  destruct (match q with SCombinator _ => true | _ => false end) eqn:Hq.
  - destruct q as [c| | | | | |]; try done. cbn [printable] in Hp. apply andb_true_iff in Hp as [_ Hp].
    destruct (compound_head p Hp) as (h & r & He & Hh & _). exists h. split; [|done]. change (expression_text (SCombinator c :: p)) with (combinator_text c ++ expression_text p).
    rewrite He. set_solver.
  - assert (printable true (q :: p) = true) as Ht by (destruct start, q; done).
    destruct (compound_head _ Ht) as (h & r & He & Hh & _). exists h. rewrite He. split; [left|done].
Qed.

Lemma tokens_of_text fuel start p le : printable start p = true → length p < fuel →
  (∀ e, le = Some e → length (expression_text p) < length e) →
  mapM (λ im, eval_stmt (criteria im.1 im.2)) (token_loop fuel le (expression_text p)) = Some p.
Proof.
  revert start p le. induction fuel as [|fuel IH]; intros start p le Hp Hf Hle; [lia|]. cbn [token_loop].
  destruct p as [|q p]; [done|].
  destruct (token_read start q p Hp) as (i & start' & (Heq & m & Hm & Ht & Hc) & Hev & Hp').
  assert (goes_on le (expression_text (q :: p)) = true) as ->.
  { unfold goes_on. rewrite (printable_text start q p Hp), andb_true_r. apply andb_true_iff. split; rewrite negb_true_iff, bool_decide_eq_false.
    - intros He. by pose proof (printable_text start q p Hp) as H; rewrite He in H.
    - intros ->. specialize (Hle _ eq_refl). lia. }
  rewrite Hm, Ht, Heq, cut_text_head. cbn [mapM fst snd]. rewrite Hc, Hev. cbn [mbind option_bind].
  assert (stmt_text q ≠ []) as Hne.
  { intros H. pose proof (rx_match_len) as _. apply first_match_Some in Hm as (r & Hr & Hrm).
    apply (rx_match_shorter r) in Hrm; [|by eapply patterns_consume]. rewrite Ht, H in Hrm.
    rewrite Heq, H in Hrm. cbn [app] in Hrm. pose proof (cut_text_head [] (expression_text p)) as Hcut. cbn [app] in Hcut.
    rewrite Hcut in Hrm. lia. }
  rewrite (IH start' p); [done|done|cbn in Hf; lia|]. intros e [= <-]. rewrite length_app.
  destruct (stmt_text q); [done|cbn; lia].
Qed.

(** ** Selecting by a written expression *)

Lemma program_of_text p : printable true p = true → program_of (expression_text p) = Some p.
Proof.
  intros Hp. apply (tokens_of_text _ true); [done| |done].
  assert (∀ start, printable start p = true → length p ≤ length (expression_text p)) as Hlen; [|specialize (Hlen true Hp); lia].
  clear Hp. induction p as [|q p IH]; intros start Hp; [cbn; lia|].
  destruct (token_read start q p Hp) as (i & start' & (Heq & m & Hm & Ht & _) & _ & Hp').
  apply IH in Hp'. rewrite Heq, length_app. cbn. rewrite <- Ht.
  apply first_match_Some in Hm as (r & Hr & Hm). apply rx_match_len in Hm. apply patterns_consume in Hr. lia.
Qed.

(** The text begins and ends with a token, so stripping it changes nothing. *)
Lemma text_end start p : printable start p = true → p = [] ∨ ∃ u x, expression_text p = u ++ [x] ∧ is_space x = false.
Proof.
  revert start. induction p as [|q p IH]; intros start Hp; [by left|right].
  destruct (token_read start q p Hp) as (i & start' & _ & _ & Hp'). destruct (IH start' Hp') as [->|(u & x & Hu & Hx)].
  - change (expression_text [q]) with (stmt_text q ++ []). rewrite app_nil_r.
    assert (∀ n : jsstr, n ≠ [] → forallb name_char n = true → ∃ u x, n = u ++ [x] ∧ is_space x = false) as Hname.
    { intros n Hne Hn. destruct (exists_last Hne) as (u & x & ->). exists u, x. split; [done|]. apply name_not_space.
      rewrite forallb_app in Hn. apply andb_true_iff in Hn as [_ Hn]. cbn in Hn. by rewrite andb_true_r in Hn. }
    assert (∀ n : jsstr, name_text n = true → ∃ u x, n = u ++ [x] ∧ is_space x = false) as Hname'.
    { intros n [Hn Hr]%andb_true_iff. apply Hname; [by intros ->|done]. }
    destruct q as [c|n|n|n|n|n v o|n v]; cbn [printable stmt_text] in *; rewrite ?andb_true_r in Hp; try done.
    + by rewrite andb_false_r in Hp.
    + apply andb_true_iff in Hp as [_ Hp]. unfold tag_text in Hp. apply orb_true_iff in Hp as [Hp|Hp].
      * apply bool_decide_eq_true in Hp as ->. by exists [], 42%N.
      * apply andb_true_iff in Hp as [Hne Hn]. rewrite negb_true_iff, bool_decide_eq_false in Hne. by apply Hname.
    + destruct (Hname' n Hp) as (u & x & -> & Hx). exists (js "#" ++ u), x. by rewrite <- app_assoc.
    + destruct (Hname' n Hp) as (u & x & -> & Hx). exists (js "." ++ u), x. by rewrite <- app_assoc.
    + exists (js "[" ++ n), 93%N. by rewrite <- app_assoc.
    + exists (js "[" ++ n ++ o ++ dq ++ v ++ dq), 93%N. by rewrite <- !app_assoc.
  - change (expression_text (q :: p)) with (stmt_text q ++ expression_text p). rewrite Hu. exists (stmt_text q ++ u), x.
    by rewrite <- app_assoc.
Qed.
Lemma strip_text p : printable true p = true → strip (expression_text p) = expression_text p.
Proof.
  intros Hp. rewrite strip_trim. unfold trim, trim_right. destruct (compound_head p Hp) as (h & r & He & Hh & _).
  assert (trim_left (expression_text p) = expression_text p) as -> by (rewrite He; cbn; by rewrite Hh).
  destruct (text_end true p Hp) as [->|(u & x & -> & Hx)]; [done|]. rewrite reverse_snoc. cbn [trim_left]. rewrite Hx.
  by rewrite reverse_cons, reverse_involutive.
Qed.


(** The reference speaks about every written expression. *)
Lemma printable_supported `{SelectorHost} d E first start p c : printable start p = true →
  (start = true → first = true ∨ c ≠ None) → supported_steps d E first (steps p c) = true.
Proof.
  revert first start c. induction p as [|q p IH]; intros first start c Hp Hc; [done|].
  destruct q as [c'|n|n|n|n|n v o|n v]; cbn [printable steps supported_steps] in *.
  - apply andb_true_iff in Hp as [_ Hp]. by apply (IH _ true); [|right].
  - rewrite !andb_true_iff in Hp. destruct Hp as [[-> _] Hp]. apply andb_true_iff. split; [|by apply (IH _ false)].
    unfold supported_step. cbn. destruct (Hc eq_refl) as [->|Hne]; destruct c; done.
  - apply andb_true_iff in Hp as [_ Hp]. apply andb_true_iff. split; [done|by apply (IH _ false)].
  - apply andb_true_iff in Hp as [_ Hp]. apply andb_true_iff. split; [done|by apply (IH _ false)].
  - apply andb_true_iff in Hp as [_ Hp]. apply andb_true_iff. split; [done|by apply (IH _ false)].
  - rewrite !andb_true_iff, bool_decide_eq_true in Hp. destruct Hp as [[[_ Ho] _] Hp]. apply andb_true_iff.
    split; [|by apply (IH _ false)]. unfold supported_step. cbn [fst snd token_test].
    assert (is_Some (operator o)) as [f ->]; [|done]. revert o Ho. refine (operators_ind _ _).
    do 7 (constructor; [by eexists|]). constructor.
  - done.
Qed.
Lemma printable_steps start p c : printable start p = true → (start = true ∨ p ≠ []) → steps p c ≠ [].
Proof.
  revert start c. induction p as [|q p IH]; intros start c Hp Hs.
  - destruct Hs as [->|]; done.
  - destruct q as [c'| | | | | |]; cbn [steps printable] in *; try done.
    apply andb_true_iff in Hp as [_ Hp]. apply (IH true); auto.
Qed.

(** Without [:not] the argument of the reference is not used. *)
Definition is_pseudo (q : stmt) : bool := match q with SPseudo _ _ => true | _ => false end.
Lemma sat_no_pseudo `{SelectorHost} d root E E' l x : Forall (λ cq, is_pseudo cq.2 = false) l →
  sat d root E l x = sat d root E' l x.
Proof.
  intros Hl. revert x. induction Hl as [|[c q] l Hq Hl IH]; intros x; [done|]. cbn [sat].
  assert (test d E q x = test d E' q x) as -> by (by destruct q).
  destruct l as [|cq l]; [by rewrite IH|]. destruct c as [c|]; rewrite IH; [|done]. do 2 f_equal.
  generalize (candidates d c x). intros k. induction k as [|y k IHk]; [done|]. cbn [existsb]. by rewrite IH, IHk.
Qed.
Lemma printable_no_pseudo start p c : printable start p = true → Forall (λ cq, is_pseudo cq.2 = false) (steps p c).
Proof.
  revert start c. induction p as [|q p IH]; intros start c Hp; [constructor|].
  destruct (token_read start q p Hp) as (_ & start' & _ & _ & Hp').
  destruct q; cbn [steps]; try (constructor; [done|]); by eapply IH.
Qed.

(** Written as an expression and compiled, tokens are read back as they
    are: every sequence of names, ids, classes and attributes, with plain
    values in double quotes, joined by combinators. *)
Theorem expression_roundtrip (p : list stmt) : printable true p = true → program_of (expression_text p) = Some p.
Proof. apply program_of_text. Qed.

(** C22. On a document of HTML, in a browser without XPath and selectors API,
    where the engine searches itself: selecting by the text of such a sequence
    returns, each once, the elements below the root that match it read from
    right to left.  A text that is a name every object inherits, such as
    [constructor], is taken for one compiled before, and is excluded. *)
Theorem select_by_text (H : SelectorHost) (d : dom) (root : nid) (p : list stmt) (s : sel) :
  plain_host H → html_ok d → ready d s → printable true p = true → expression_text p ∉ object_prototype →
  ∃ r s', select_all (expression_text p) root s = (Ret r, s') ∧ ready d s' ∧
    r ≡ₚ List.filter (sat d root (λ _, None) (reverse (steps p None))) (descendants_of d root).
Proof.
  intros Hp Hd Hs Hpr Hown. set (e := expression_text p).
  assert (selection d root e = Some (List.filter (sat d root (reference (S (length (strip e))) d root) (reverse (steps p None)))
    (descendants_of d root))) as Hsel.
  { unfold selection. cbn [reference]. unfold e. rewrite strip_text, bool_decide_eq_false_2, program_of_text by done. cbn [mbind option_bind].
    unfold reference_program. cbv zeta. rewrite (printable_supported d _ true true p None Hpr) by auto.
    rewrite bool_decide_eq_false_2; [done|]. rewrite length_zero_iff_nil. by apply (printable_steps true); [|left]. }
  destruct (select_all_plain Hp d root e _ s Hd Hsel Hs) as (r & s' & Hr & Hs' & Hperm).
  exists r, s'. split_and!; [done..|]. rewrite Hperm. erewrite List.filter_ext; [done|]. intros x.
  apply sat_no_pseudo, Forall_reverse. by apply (printable_no_pseudo true).
Qed.

(** [div.a > p[title="x-y"] ~ p], where the last paragraph of the article is
    not a sibling. *)
Definition sample_tokens : list stmt :=
  [STag (js "div"); SClass (js "a"); SCombinator Child; STag (js "p"); SCombinator Adjacent; STag (js "p");
   SAttr (js "title") (js "x-y") (js "=")].
Lemma expression_roundtrip_witness : printable true sample_tokens = true ∧
  program_of (expression_text sample_tokens) = Some sample_tokens.
Proof. split; [vm_compute; reflexivity|]. apply expression_roundtrip. vm_compute. reflexivity. Defined.
Lemma select_by_text_witness : ∃ r s',
  select_all (H := plain_browser) (expression_text sample_tokens) document (page_state article) = (Ret r, s') ∧ r ≡ₚ [6%nat].
Proof.
  destruct (select_by_text plain_browser article document sample_tokens (page_state article)) as (r & s' & Hr & _ & Hp).
  - exact plain_browser_plain.
  - exact article_html.
  - exact (page_ready article).
  - vm_compute. reflexivity.
  - apply (bool_decide_unpack _). vm_compute. exact I.
  - exists r, s'. split; [exact Hr|]. etransitivity; [exact Hp|].
    assert (List.filter (sat (H := plain_browser) article document (λ _, None) (reverse (steps sample_tokens None)))
      (descendants_of article document) = [6%nat]) as -> by (vm_compute; reflexivity).
    reflexivity.
Defined.
