(* ===== verification/Events.v ===== *)
(** * Events (prototype.js: Event)

    The registry of event handlers: each handler is wrapped in a function that
    the browser calls; wrappers are kept in a cache by element and event name,
    so that they can be found again.  Custom events all travel as one type of
    the browser's and are told apart by their wrappers.  [X] is what the other
    parts of a page keep. *)

From Stdlib Require Import ZArith.
From S2P Require Import Prelude JsBase JsNum Enumerable Strings Hash Dom Selector.
#[local] Open Scope nat_scope.
#[local] Open Scope stdpp_scope.

(** ** State *)

(** The function [createWrapper] makes, told from others_on_page by a number. *)
Record wrapper (H : Type) := Wrapper { w_no : nat; w_element : nid; w_name : jsstr; w_handler : H }.
Arguments Wrapper {H}.
Arguments w_no {H}.
Arguments w_element {H}.
Arguments w_name {H}.
Arguments w_handler {H}.
#[export] Instance wrapper_eq_dec {H} `{EqDecision H} : EqDecision (wrapper H).
Proof. solve_decision. Defined.

(** What the browser keeps for [addEventListener]. *)
Record listener (H : Type) := Listener { l_target : nid; l_type : jsstr; l_wrapper : wrapper H }.
Arguments Listener {H}.
Arguments l_target {H}.
Arguments l_type {H}.
Arguments l_wrapper {H}.
#[export] Instance listener_eq_dec {H} `{EqDecision H} : EqDecision (listener H).
Proof. solve_decision. Defined.

(** [_prototypeEventID] of elements, the counter of [getEventID], which is
    [undefined] at first (0), [Event.cache], and the browser's listeners, in
    the order of registration; [e_stopped]: events whose propagation is
    stopped. *)
Record events (H X : Type) := Events {
  eventID : gmap nid nat;
  id_count : nat;
  event_cache : gmap nat (list (jsstr * option (list (wrapper H))));
  next_wrapper : nat;
  listeners : list (listener H);
  next_event : nat;
  e_stopped : gset nat;
  content_loaded : bool;                     (* document.loaded *)
  others_on_page : X;
}.
Arguments Events {H X}.
Arguments eventID {H X}.
Arguments id_count {H X}.
Arguments event_cache {H X}.
Arguments next_wrapper {H X}.
Arguments listeners {H X}.
Arguments next_event {H X}.
Arguments e_stopped {H X}.
Arguments content_loaded {H X}.
Arguments others_on_page {H X}.

(** An event: its type, and for custom events the name and memo. *)
Record page_event := PageEvent { e_id : nat; e_type : jsstr; eventName : option jsstr; memo : jsv }.

(** ** The registry *)

Section registry.
Context {H X : Type} `{EqDecision H}.
#[local] Abbreviation M := (JS (events H X)).

Definition set_ids (m : gmap nid nat) (k : nat) (s : events H X) : events H X :=
  Events m k (event_cache s) (next_wrapper s) (listeners s) (next_event s) (e_stopped s) (content_loaded s) (others_on_page s).
Definition set_events_cache (c : gmap nat (list (jsstr * option (list (wrapper H))))) (s : events H X) : events H X :=
  Events (eventID s) (id_count s) c (next_wrapper s) (listeners s) (next_event s) (e_stopped s) (content_loaded s) (others_on_page s).
Definition set_next_wrapper (k : nat) (s : events H X) : events H X :=
  Events (eventID s) (id_count s) (event_cache s) k (listeners s) (next_event s) (e_stopped s) (content_loaded s) (others_on_page s).
Definition set_listeners (l : list (listener H)) (s : events H X) : events H X :=
  Events (eventID s) (id_count s) (event_cache s) (next_wrapper s) l (next_event s) (e_stopped s) (content_loaded s) (others_on_page s).
Definition set_next_event (k : nat) (s : events H X) : events H X :=
  Events (eventID s) (id_count s) (event_cache s) (next_wrapper s) (listeners s) k (e_stopped s) (content_loaded s) (others_on_page s).
Definition set_stopped (e : gset nat) (s : events H X) : events H X :=
  Events (eventID s) (id_count s) (event_cache s) (next_wrapper s) (listeners s) (next_event s) e (content_loaded s) (others_on_page s).
Definition set_loaded (b : bool) (s : events H X) : events H X :=
  Events (eventID s) (id_count s) (event_cache s) (next_wrapper s) (listeners s) (next_event s) (e_stopped s) b (others_on_page s).

Definition getEventID (element : nid) : M nat :=
  s ← js_get;
  match eventID s !! element with
  | Some id => mret id
  | None =>
      let id := S (if decide (id_count s = 0) then 1 else id_count s) in
      js_put (set_ids (<[element := id]> (eventID s)) id s) ;; mret id
  end.

Definition getDOMEventName (name : jsstr) : jsstr := if include name (js ":") then js "dataavailable" else name.

(** [getCacheForID] and [getWrappersForEventName] create what is not there. *)
Definition getCacheForID (id : nat) : M (list (jsstr * option (list (wrapper H)))) :=
  s ← js_get;
  match event_cache s !! id with
  | Some c => mret c
  | None => js_put (set_events_cache (<[id := []]> (event_cache s)) s) ;; mret []
  end.
Definition put_wrappers (id : nat) (name : jsstr) (l : option (list (wrapper H))) : M () :=
  js_modify (λ s, set_events_cache (alter (assoc_set name l) id (event_cache s)) s).

(** The name of a property that every object inherits finds a function,
    which becomes the cache's own property ([None]); all callers then use
    methods that functions do not have. *)
Definition getWrappersForEventName (id : nat) (name : jsstr) : M (list (wrapper H)) :=
  c ← getCacheForID id;
  match assoc_get name c with
  | Some (Some l) => mret l
  | Some None => js_throw ETypeError
  | None =>
      if decide (name ∈ object_prototype) then put_wrappers id name None ;; js_throw ETypeError
      else put_wrappers id name (Some []) ;; mret []
  end.

(** [None]: the handler is registered already. *)
Definition createWrapper (element : nid) (name : jsstr) (handler : H) : M (option (wrapper H)) :=
  id ← getEventID element;
  c ← getWrappersForEventName id name;
  handlers ← pluck c w_handler;
  known ← Enumerable.include handlers handler;
  if known : bool then mret None
  else
    s ← js_get;
    let w := Wrapper (next_wrapper s) element name handler in
    js_modify (set_next_wrapper (S (next_wrapper s))) ;;
    put_wrappers id name (Some (c ++ [w])) ;;
    mret (Some w).

Definition findWrapper (id : nat) (name : jsstr) (handler : H) : M (option (wrapper H)) :=
  c ← getWrappersForEventName id name;
  detect c (λ w _, mret (bool_decide (w_handler w = handler))).

Definition destroyWrapper (id : nat) (name : jsstr) (handler : H) : M () :=
  c ← getCacheForID id;
  match assoc_get name c with
  | None => if decide (name ∈ object_prototype) then js_throw ETypeError else mret ()
  | Some None => js_throw ETypeError
  | Some (Some l) =>
      o ← findWrapper id name handler;
      l' ← without l (option_list o);
      put_wrappers id name (Some l')
  end.

(** The browser's methods: a listener is registered once. *)
Definition addEventListener (target : nid) (type : jsstr) (w : wrapper H) : M () :=
  js_modify (λ s, if decide (Listener target type w ∈ listeners s) then s
                  else set_listeners (listeners s ++ [Listener target type w]) s).
Definition removeEventListener (target : nid) (type : jsstr) (w : wrapper H) : M () :=
  js_modify (λ s, set_listeners (filter (λ l, l ≠ Listener target type w) (listeners s)) s).

Definition observe (element : nid) (name : jsstr) (handler : H) : M () :=
  o ← createWrapper element name handler;
  match o with
  | None => mret ()
  | Some w => addEventListener element (getDOMEventName name) w
  end.

(** [stopObserving] with a name and a handler, with a name, without both.
    An empty name counts as none: for a handler observed under the empty name
    the calls never end. *)
Definition stop_handler (element : nid) (name : jsstr) (handler : H) : M () :=
  id ← getEventID element;
  o ← findWrapper id name handler;
  match o with
  | None => mret ()
  | Some w =>
      removeEventListener element (getDOMEventName name) w ;;
      destroyWrapper id name handler
  end.
Definition stop_name (element : nid) (name : jsstr) : M () :=
  id ← getEventID element;
  c ← getWrappersForEventName id name;
  js_each c (λ w, stop_handler element name (w_handler w)).
Definition stop_all (element : nid) : M () :=
  id ← getEventID element;
  c ← getCacheForID id;
  js_each (c.*1) (λ name, if decide (name = []) then js_throw ERangeError else stop_name element name).
Definition stopObserving (element : nid) (name : option jsstr) (handler : option H) : M () :=
  match name with
  | None | Some [] => stop_all element
  | Some n => match handler with Some h => stop_handler element n h | None => stop_name element n end
  end.

(** ** Dispatch *)

(** [path]: the nodes an event of a target visits, from the target up;
    [call]: the page's handlers, called on an element. *)
Context (path : X → nid → list nid) (call : H → nid → page_event → M ()).

(** The wrapper: handlers of other names of events are not called. *)
Definition run_wrapper (w : wrapper H) (e : page_event) : M () :=
  if match eventName e with None | Some [] => true | Some n => bool_decide (n = w_name w) end
  then call (w_handler w) (w_element w) e
  else mret ().

(** The browser reports an exception of a listener and goes on. *)
Definition reported (m : M ()) : M () := js_try m (λ _, mret ()).
Definition run_listener (e : page_event) (l : listener H) : M () :=
  s ← js_get;
  js_when (bool_decide (l ∈ listeners s)) (reported (run_wrapper (l_wrapper l) e)).
Definition listeners_at (s : events H X) (target : nid) (type : jsstr) : list (listener H) :=
  filter (λ l : listener H, l_target l = target ∧ l_type l = type) (listeners s).
Fixpoint dispatch_event (e : page_event) (targets : list nid) : M () :=
  match targets with
  | [] => mret ()
  | t :: targets =>
      s ← js_get;
      js_each (listeners_at s t (e_type e)) (run_listener e) ;;
      s ← js_get;
      if decide (e_id e ∈ e_stopped s) then mret () else dispatch_event e targets
  end.

(** [Event.fire]; [memo] is the empty object when it is not given. *)
Definition fire (element : nid) (name : jsstr) (m : jsv) : M page_event :=
  s ← js_get;
  let e := PageEvent (next_event s) (js "dataavailable") (Some name) m in
  js_modify (set_next_event (S (next_event s))) ;;
  dispatch_event e (path (others_on_page s) element) ;;
  mret e.

(** An event of the browser's own. *)
Definition native_event (element : nid) (type : jsstr) : M () :=
  s ← js_get;
  let e := PageEvent (next_event s) type None VUndef in
  js_modify (set_next_event (S (next_event s))) ;;
  dispatch_event e (path (others_on_page s) element).

(** [Event.stop] *)
Definition event_stop (e : page_event) : M () := js_modify (λ s, set_stopped ({[e_id e]} ∪ e_stopped s) s).

(** [fireContentLoadedEvent], apart from its timer *)
Definition fireContentLoadedEvent : M () :=
  s ← js_get;
  if content_loaded s then mret ()
  else fire document (js "dom:loaded") (VObj []) ;; js_modify (set_loaded true).
End registry.

(** ** Event.Methods *)

(** What the browsers tell of a mouse event; [which] may be missing. *)
Inductive browser_kind := BrowserIE | BrowserWebKit | BrowserOther.
Record click_state := MouseClick { c_which : Z; c_button : Z; c_meta : bool }.
Definition isButton (browser : browser_kind) (e : click_state) (code : Z) : bool :=
  (match browser with
   | BrowserIE => (code =? 0) && (c_button e =? 1) || (code =? 1) && (c_button e =? 4) || (code =? 2) && (c_button e =? 2)
   | BrowserWebKit => (code =? 0) && (c_which e =? 1) && negb (c_meta e) || (code =? 1) && (c_which e =? 1) && c_meta e
   | BrowserOther => if c_which e =? 0 then c_button e =? code else c_which e =? code + 1
   end)%Z.
Definition isLeftClick (b : browser_kind) (e : click_state) : bool := isButton b e 0.
Definition isMiddleClick (b : browser_kind) (e : click_state) : bool := isButton b e 1.
Definition isRightClick (b : browser_kind) (e : click_state) : bool := isButton b e 2.

(** [Event.element]: [target] and [currentTarget] of the event; [input_type]
    is the property [type] of elements. *)
Definition event_element (d : dom) (input_type : nid → jsstr) (type : jsstr) (target : nid)
    (currentTarget : option nid) : option nid :=
  let of_current := match currentTarget with
    | Some c =>
        let tag := match d !! c with Some n => tagName n | None => [] end in
        negb (bool_decide (tag = [])) &&
        (bool_decide (type = js "load") || bool_decide (type = js "error") ||
         bool_decide (type = js "click") && bool_decide (toLowerCase tag = js "input") &&
         bool_decide (input_type c = js "radio"))
    | None => false
    end in
  let node := if of_current then default target currentTarget else target in
  match d !! node with
  | Some n => match kind n with NText _ => parentNode n | _ => Some node end
  | None => Some node
  end.

(** [Event.findElement] of an event whose element is [element] *)
Definition event_findElement `{SelectorHost} (element : option nid) (expression : jsstr) : JS sel (option nid) :=
  if decide (expression = []) then mret element
  else match element with
       | None => js_throw ETypeError
       | Some x => l ← on_dom (ancestors x); findElement (x :: l) expression 0
       end.

(** [Event.relatedTarget] *)
Definition relatedTarget (type : jsstr) (fromElement toElement : option nid) : option nid :=
  if decide (type = js "mouseover") then fromElement
  else if decide (type = js "mouseout") then toElement
  else None.

(** [Event.pointer]; zero coordinates count as missing. *)
Record mouse_position := MousePosition { p_page : Z; p_client : Z }.
Definition or_value (a b : Z) : Z := (if a =? 0 then b else a)%Z.
Definition pointer_coordinate (p : mouse_position) (scroll body_scroll client : Z) : Z :=
  (or_value (p_page p) (p_client p + or_value scroll body_scroll - client))%Z.

(** ** What is observed *)

Section observing.
Context {H X : Type} `{EqDecision H}.
Implicit Types (s : events H X) (t : nid) (n : jsstr).

Definition wrappers_of s t n : list (wrapper H) :=
  match eventID s !! t with
  | Some id =>
      match event_cache s !! id with
      | Some c => match assoc_get n c with Some (Some l) => l | _ => [] end
      | None => []
      end
  | None => []
  end.
Definition observed s t n : list H := w_handler <$> wrappers_of s t n.

(** Names that are neither empty nor a property of every object. *)
Definition proper_name n : Prop := n ≠ [] ∧ n ∉ object_prototype.

(** The cache tells for every element and name the wrappers that the browser
    will call, in the order in which it will. *)
Record events_ok s : Prop := {
  ok_ids : ∀ t id, eventID s !! t = Some id → 2 ≤ id ≤ id_count s;
  ok_inj : ∀ t1 t2 id, eventID s !! t1 = Some id → eventID s !! t2 = Some id → t1 = t2;
  ok_cached : ∀ id c, event_cache s !! id = Some c →
    NoDup c.*1 ∧ Forall (λ p, proper_name p.1 ∧ is_Some p.2) c ∧ ∃ t, eventID s !! t = Some id;
  ok_wrapper : ∀ t n w, w ∈ wrappers_of s t n → w_element w = t ∧ w_name w = n ∧ w_no w < next_wrapper s;
  ok_once : ∀ t n, NoDup (observed s t n);
  ok_listeners : ∀ t n,
    filter (λ l : listener H, l_target l = t ∧ w_name (l_wrapper l) = n) (listeners s) =
    Listener t (getDOMEventName n) <$> wrappers_of s t n;
}.

(** What the registry does not touch. *)
Definition rest s := (next_event s, e_stopped s, content_loaded s, others_on_page s).

(** The contract: for each element and name a list of handlers. *)
Definition registry := nid → jsstr → list H.
Inductive registration :=
  | Observe (t : nid) (n : jsstr) (h : H)
  | StopHandler (t : nid) (n : jsstr) (h : H)
  | StopName (t : nid) (n : jsstr)
  | StopAll (t : nid).
Definition requested (r : registry) (q : registration) : registry := λ t' n',
  match q with
  | Observe t n h => if decide (t' = t ∧ n' = n ∧ h ∉ r t n) then r t n ++ [h] else r t' n'
  | StopHandler t n h => if decide (t' = t ∧ n' = n) then filter (λ h', h' ≠ h) (r t n) else r t' n'
  | StopName t n => if decide (t' = t ∧ n' = n) then [] else r t' n'
  | StopAll t => if decide (t' = t) then [] else r t' n'
  end.
Definition perform (q : registration) : JS (events H X) () :=
  match q with
  | Observe t n h => observe t n h
  | StopHandler t n h => stopObserving t (Some n) (Some h)
  | StopName t n => stopObserving t (Some n) None
  | StopAll t => stopObserving t None None
  end.
Definition request_ok (q : registration) : Prop :=
  match q with Observe _ n _ | StopHandler _ n _ | StopName _ n => proper_name n | StopAll _ => True end.
#[export] Instance proper_name_dec n : Decision (proper_name n).
Proof. unfold proper_name. apply _. Defined.
#[export] Instance request_ok_dec q : Decision (request_ok q).
Proof. destruct q; cbn; apply _. Defined.

(** *** Looking up *)

Definition same s s' : Prop :=
  (∀ t n, wrappers_of s' t n = wrappers_of s t n) ∧ listeners s' = listeners s ∧
  next_wrapper s' = next_wrapper s ∧ rest s' = rest s.

Lemma same_refl s : same s s.
Proof. done. Qed.
Lemma same_trans s1 s2 s3 : same s1 s2 → same s2 s3 → same s1 s3.
Proof. intros (H1 & H2 & H3 & H4) (J1 & J2 & J3 & J4). split_and!; [intros t n; by rewrite J1|congruence..]. Qed.

(** A state that differs in the identifiers and in the cache only. *)
Lemma same_ok s s' : events_ok s → same s s' →
  (∀ t id, eventID s' !! t = Some id → 2 ≤ id ≤ id_count s') →
  (∀ t1 t2 id, eventID s' !! t1 = Some id → eventID s' !! t2 = Some id → t1 = t2) →
  (∀ id c, event_cache s' !! id = Some c →
    NoDup c.*1 ∧ Forall (λ p, proper_name p.1 ∧ is_Some p.2) c ∧ ∃ t, eventID s' !! t = Some id) →
  events_ok s'.
Proof.
  intros [] (Hw & Hl & Hn & _) ???. split; try done.
  - intros t n w. rewrite Hw, Hn. eauto.
  - intros t n. unfold observed. rewrite Hw. apply ok_once0.
  - intros t n. by rewrite Hl, Hw.
Qed.

Lemma fresh_uncached s : events_ok s → event_cache s !! S (if decide (id_count s = 0) then 1 else id_count s) = None.
Proof.
  intros [Hids _ Hc _ _ _]. destruct (event_cache s !! _) as [c|] eqn:E; [|done].
  destruct (Hc _ _ E) as (_ & _ & t & Ht). apply Hids in Ht. case_decide; lia.
Qed.

Lemma getEventID_run t s : events_ok s → ∃ id s',
  getEventID t s = (Ret id, s') ∧ events_ok s' ∧ same s s' ∧ eventID s' !! t = Some id.
Proof.
  intros Hok. unfold getEventID. rewrite js_bind_get. destruct (eventID s !! t) as [id|] eqn:E.
  { by exists id, s. }
  pose proof (fresh_uncached s Hok) as Hf. remember (S _) as id eqn:Hid. eexists id, _. split; [done|].
  assert (same s (set_ids (<[t:=id]> (eventID s)) id s)) as Hs.
  { split_and!; [|done..]. intros t' n. unfold wrappers_of. cbn [eventID event_cache set_ids].
    destruct (decide (t' = t)) as [->|Ht]; [rewrite lookup_insert_eq, E, Hf|rewrite lookup_insert_ne by done]; done. }
  assert (∀ t id', eventID s !! t = Some id' → 2 ≤ id' < id) as Hlt.
  { intros t' id' Ht. apply (ok_ids _ Hok) in Ht. case_decide; lia. }
  split_and!; [|done|apply lookup_insert_eq].
  apply (same_ok _ _ Hok Hs); cbn [eventID id_count event_cache set_ids].
  - intros t' id'. rewrite lookup_insert_Some. intros [[<- <-]|[_ Ht]]; [case_decide; lia|apply Hlt in Ht; lia].
  - intros t1 t2 id'. rewrite !lookup_insert_Some. intros [[<- <-]|[? H1]] [[<- H2]|[? H2]]; try done.
    + apply Hlt in H2. lia.
    + apply Hlt in H1. lia.
    + by apply (ok_inj _ Hok) with id'.
  - intros id' c Hc. destruct (ok_cached _ Hok _ _ Hc) as (? & ? & t' & Ht'). split_and!; [done..|].
    exists t'. rewrite lookup_insert_ne; [done|congruence].
Qed.

Lemma getCacheForID_run t id s : events_ok s → eventID s !! t = Some id → ∃ c s',
  getCacheForID id s = (Ret c, s') ∧ events_ok s' ∧ same s s' ∧ eventID s' = eventID s ∧ event_cache s' !! id = Some c.
Proof.
  intros Hok Ht. unfold getCacheForID. rewrite js_bind_get. destruct (event_cache s !! id) as [c|] eqn:E.
  { by exists c, s. }
  eexists [], _. split; [done|].
  assert (same s (set_events_cache (<[id:=[]]> (event_cache s)) s)) as Hs.
  { split_and!; [|done..]. intros t' n. unfold wrappers_of. cbn [eventID event_cache set_events_cache].
    destruct (eventID s !! t') as [id'|]; [|done]. destruct (decide (id' = id)) as [->|Hne].
    - by rewrite lookup_insert_eq, E.
    - by rewrite lookup_insert_ne. }
  split_and!; [|done|done|apply lookup_insert_eq].
  apply (same_ok _ _ Hok Hs); [apply Hok..|]. cbn [eventID id_count event_cache set_events_cache].
  intros id' c. rewrite lookup_insert_Some. intros [[<- <-]|[_ Hc]]; [|by apply (ok_cached _ Hok)].
  split_and!; [constructor|constructor|eauto].
Qed.

Lemma getWrappers_run t id n s : events_ok s → proper_name n → eventID s !! t = Some id → ∃ c s',
  getWrappersForEventName id n s = (Ret (wrappers_of s t n), s') ∧ events_ok s' ∧ same s s' ∧
  eventID s' = eventID s ∧ event_cache s' !! id = Some c ∧ assoc_get n c = Some (Some (wrappers_of s t n)).
Proof.
  intros Hok Hn Ht. unfold getWrappersForEventName.
  destruct (getCacheForID_run t id s Hok Ht) as (c & s' & Hr & Hok' & Hs & Hid & Hc).
  rewrite (js_bind_Ret _ _ _ _ _ Hr). rewrite <- (proj1 Hs). rewrite <- Hid in Ht.
  destruct (ok_cached _ Hok' _ _ Hc) as (Hnd & Hall & _).
  assert (wrappers_of s' t n = match assoc_get n c with Some (Some l) => l | _ => [] end) as Hw.
  { unfold wrappers_of. by rewrite Ht, Hc. }
  destruct (assoc_get n c) as [[l|]|] eqn:E.
  - exists c, s'. by rewrite Hw.
  - apply assoc_get_elem in E. rewrite Forall_forall in Hall. apply Hall in E as [_ [? ?]]. done.
  - rewrite decide_False by apply Hn. rewrite Hw. eexists _, _. split; [done|].
    pose proof (assoc_set_NoDup n (Some []) c Hnd) as Hnd'.
    assert (same s' (set_events_cache (alter (assoc_set n (Some [])) id (event_cache s')) s')) as Hs2.
    { split_and!; [|done..]. intros t' n'. unfold wrappers_of. cbn [eventID event_cache set_events_cache].
      destruct (eventID s' !! t') as [id'|]; [|done]. destruct (decide (id' = id)) as [->|Hne].
      - rewrite lookup_alter_eq, Hc. cbn [fmap option_fmap option_map]. rewrite assoc_get_set. case_decide; [|done]. subst. by rewrite E.
      - by rewrite lookup_alter_ne. }
    split_and!; [|by apply same_trans with s'|done|cbn; by rewrite lookup_alter_eq, Hc|by rewrite assoc_get_set, decide_True].
    apply (same_ok _ _ Hok' Hs2); [apply Hok'..|]. cbn [eventID event_cache set_events_cache].
    intros id' c'. destruct (decide (id' = id)) as [->|Hne]; [|rewrite lookup_alter_ne by done; apply Hok'].
    rewrite lookup_alter_eq, Hc. intros [= <-]. split_and!; [done| |eauto].
    apply assoc_set_Forall; [done|]. by split; [|eexists].
Qed.

(** *** Changing an entry *)

(** What [observe] and [stop_handler] leave. *)
Definition put_entry s (id : nat) n (l : list (wrapper H)) (ls : list (listener H)) (k : nat) : events H X :=
  Events (eventID s) (id_count s) (alter (assoc_set n (Some l)) id (event_cache s)) k ls
    (next_event s) (e_stopped s) (content_loaded s) (others_on_page s).

Lemma wrappers_of_put s id n l ls k t c t' n' : events_ok s → eventID s !! t = Some id → event_cache s !! id = Some c →
  wrappers_of (put_entry s id n l ls k) t' n' = if decide (t' = t ∧ n' = n) then l else wrappers_of s t' n'.
Proof.
  intros Hok Ht Hc. unfold wrappers_of. cbn [eventID event_cache put_entry].
  destruct (decide (t' = t)) as [->|Hne].
  - rewrite Ht, lookup_alter_eq, Hc. cbn [fmap option_fmap option_map]. rewrite assoc_get_set.
    repeat case_decide; tauto.
  - rewrite decide_False by tauto. destruct (eventID s !! t') as [id'|] eqn:E; [|done].
    rewrite lookup_alter_ne; [done|]. intros <-. by destruct Hne; apply (ok_inj _ Hok) with id.
Qed.

Lemma put_entry_ok s id n l ls k t c : events_ok s → eventID s !! t = Some id → event_cache s !! id = Some c →
  proper_name n → next_wrapper s ≤ k →
  (∀ w, w ∈ l → w_element w = t ∧ w_name w = n ∧ w_no w < k) →
  NoDup (w_handler <$> l) →
  (∀ t' n', filter (λ l : listener H, l_target l = t' ∧ w_name (l_wrapper l) = n') ls =
    Listener t' (getDOMEventName n') <$> (if decide (t' = t ∧ n' = n) then l else wrappers_of s t' n')) →
  events_ok (put_entry s id n l ls k).
Proof.
  intros Hok Ht Hc Hn Hk Hl Hnd Hls.
  pose proof (λ t' n', wrappers_of_put s id n l ls k t c t' n' Hok Ht Hc) as Hw. split.
  - apply (ok_ids _ Hok).
  - apply (ok_inj _ Hok).
  - intros id' c'. cbn [eventID event_cache put_entry].
    destruct (decide (id' = id)) as [->|Hne]; [|rewrite lookup_alter_ne by done; apply (ok_cached _ Hok)].
    rewrite lookup_alter_eq, Hc. intros [= <-]. destruct (ok_cached _ Hok _ _ Hc) as (? & ? & ?).
    split_and!; [by apply assoc_set_NoDup| |done]. apply assoc_set_Forall; [done|]. by split; [|eexists].
  - intros t' n' w. rewrite Hw. case_decide as E; [destruct E as [-> ->]; apply Hl|].
    intros Hin. destruct (ok_wrapper _ Hok _ _ _ Hin) as (? & ? & ?). cbn. split_and!; [done..|lia].
  - intros t' n'. unfold observed. rewrite Hw. case_decide; [done|apply (ok_once _ Hok)].
  - intros t' n'. rewrite Hw. cbn [listeners put_entry]. apply Hls.
Qed.

(** Of a listener for [t] and [n], what the lists of others see. *)
Lemma listeners_other s ls t n t' n' : ¬ (t' = t ∧ n' = n) →
  (∀ l, l ∈ ls → l_target l = t ∧ w_name (l_wrapper l) = n) →
  filter (λ l : listener H, l_target l = t' ∧ w_name (l_wrapper l) = n') ls = [].
Proof.
  intros Hne Hall. induction ls as [|l ls IH]; [done|]. rewrite filter_cons_False.
  - apply IH. intros l' Hl'. apply Hall. by right.
  - destruct (Hall l (list_elem_of_here _ _)) as [<- <-]. naive_solver.
Qed.

Lemma observe_run t n h s : events_ok s → proper_name n → ∃ s',
  observe t n h s = (Ret (), s') ∧ events_ok s' ∧ rest s' = rest s ∧
  ∀ t' n', observed s' t' n' = requested (observed s) (Observe t n h) t' n'.
Proof.
  intros Hok Hn. unfold observe, createWrapper.
  destruct (getEventID_run t s Hok) as (id & s1 & Hr1 & Hok1 & Hs1 & Hid).
  destruct (getWrappers_run t id n s1 Hok1 Hn Hid) as (c & s2 & Hr2 & Hok2 & Hs2 & Hid2 & Hc & _).
  rewrite <- Hid2 in Hid. pose proof (same_trans _ _ _ Hs1 Hs2) as Hs. rewrite <- (proj1 Hs2) in Hr2.
  rewrite !js_bind_assoc, (js_bind_Ret _ _ _ _ _ Hr1), js_bind_assoc, (js_bind_Ret _ _ _ _ _ Hr2).
  rewrite js_bind_assoc, (js_bind_Ret _ _ _ _ _ (pluck_run _ _ _)).
  rewrite js_bind_assoc, (js_bind_Ret _ _ _ _ _ (include_run _ _ _)). cbn [elements array_iterable].
  change (w_handler <$> wrappers_of s2 t n) with (observed s2 t n).
  assert (∀ t n, observed s2 t n = observed s t n) as Ho by (intros ??; unfold observed; by rewrite (proj1 Hs)).
  destruct Hs as (_ & _ & _ & Hrest).
  case_bool_decide as Hin.
  { exists s2. split_and!; [done..|]. intros t' n'. rewrite Ho in Hin |- *. cbn. by rewrite decide_False by tauto. }
  set (w := Wrapper (next_wrapper s2) t n h).
  assert (Listener t (getDOMEventName n) w ∉ listeners s2) as Hnew.
  { intros Hl. assert (w ∈ wrappers_of s2 t n) as Hw.
    { assert (Listener t (getDOMEventName n) w ∈ filter (λ l : listener H, l_target l = t ∧ w_name (l_wrapper l) = n) (listeners s2)) as Hf
        by by apply list_elem_of_filter.
      rewrite (ok_listeners _ Hok2) in Hf. apply list_elem_of_fmap in Hf as (w' & [= <-] & ?). done. }
    apply (ok_wrapper _ Hok2) in Hw as (_ & _ & Hlt). cbn in Hlt. lia. }
  exists (put_entry s2 id n (wrappers_of s2 t n ++ [w]) (listeners s2 ++ [Listener t (getDOMEventName n) w]) (S (next_wrapper s2))).
  split_and!.
  - js_unfold. cbn. unfold addEventListener, js_modify. cbn. rewrite decide_False by done. done.
  - apply put_entry_ok with t c; try done; [lia| | |].
    + intros w' [Hw'| ->%list_elem_of_singleton]%elem_of_app; [|cbn; split_and!; [done..|lia]].
      apply (ok_wrapper _ Hok2) in Hw' as (? & ? & ?). split_and!; [done..|lia].
    + rewrite fmap_app. apply NoDup_app. split_and!; [apply (ok_once _ Hok2)| |apply NoDup_singleton].
      intros h' Hh' ->%list_elem_of_singleton. done.
    + intros t' n'. rewrite filter_app, (ok_listeners _ Hok2). case_decide as E.
      * destruct E as [-> ->]. rewrite fmap_app, filter_cons_True by done. done.
      * rewrite filter_cons_False by (cbn; naive_solver). by rewrite filter_nil, app_nil_r.
  - done.
  - intros t' n'. unfold observed at 1. rewrite wrappers_of_put with (t := t) (c := c) by done. cbn [requested].
    rewrite <- !Ho. repeat case_decide; try tauto.
    destruct_and!. unfold observed. by rewrite fmap_app.
Qed.

(** *** Removing a handler *)

Lemma without_one (l : list (wrapper H)) w :
  List.filter (λ v, negb (bool_decide (v ∈ option_list (Some w)))) l = filter (λ v, v ≠ w) l.
Proof.
  induction l as [|v l IH]; [done|]. cbn [List.filter]. rewrite IH. destruct (decide (v = w)) as [->|Hv].
  - rewrite bool_decide_true by (cbn; set_solver). cbn [negb]. by rewrite filter_cons_False by tauto.
  - rewrite bool_decide_false by (cbn; set_solver). cbn [negb]. by rewrite filter_cons_True.
Qed.

Lemma one_handler (l : list (wrapper H)) w v : NoDup (w_handler <$> l) → w ∈ l → v ∈ l → w_handler v = w_handler w → v = w.
Proof.
  intros Hnd [i Hi]%list_elem_of_lookup [j Hj]%list_elem_of_lookup He.
  assert (i = j) as ->; [|congruence].
  apply (NoDup_lookup _ i j (w_handler w) Hnd); rewrite list_lookup_fmap, ?Hi, ?Hj; cbn; congruence.
Qed.

Lemma getWrappers_direct id n s c l : event_cache s !! id = Some c → assoc_get n c = Some (Some l) →
  getWrappersForEventName id n s = (Ret l, s).
Proof. intros Hc Hn. unfold getWrappersForEventName, getCacheForID. js_unfold. rewrite Hc. cbn. by rewrite Hn. Qed.

Lemma findWrapper_after id n h s l s' : getWrappersForEventName id n s = (Ret l, s') →
  findWrapper id n h s = (Ret (snd <$> list_find (λ w, bool_decide (w_handler w = h)) l), s').
Proof.
  intros Hr. unfold findWrapper. rewrite (js_bind_Ret _ _ _ _ _ Hr), detect_run by apply no_break_pure.
  apply (detect_loop_pure (λ w, bool_decide (w_handler w = h))).
Qed.

Lemma find_handler h (l : list (wrapper H)) :
  match snd <$> list_find (λ w, bool_decide (w_handler w = h)) l with
  | Some w => w ∈ l ∧ w_handler w = h
  | None => h ∉ w_handler <$> l
  end.
Proof.
  destruct (list_find _ l) as [[i w]|] eqn:E; cbn.
  - apply list_find_Some in E as (Hi & Hp & _). split; [by eapply list_elem_of_lookup_2|by apply bool_decide_unpack in Hp].
  - apply list_find_None in E. rewrite Forall_forall in E. intros (w & -> & Hw)%list_elem_of_fmap.
    apply (E w Hw). by apply bool_decide_pack.
Qed.

Lemma destroyWrapper_direct id n w s c l : event_cache s !! id = Some c → assoc_get n c = Some (Some l) →
  w ∈ l → NoDup (w_handler <$> l) →
  destroyWrapper id n (w_handler w) s = put_wrappers id n (Some (filter (λ v, v ≠ w) l)) s.
Proof.
  intros Hc Hn Hw Hnd. unfold destroyWrapper.
  assert (getCacheForID id s = (Ret c, s)) as Hr by (unfold getCacheForID; js_unfold; by rewrite Hc).
  rewrite (js_bind_Ret _ _ _ _ _ Hr), Hn.
  rewrite (js_bind_Ret _ _ _ _ _ (findWrapper_after _ _ _ _ _ _ (getWrappers_direct _ _ _ _ _ Hc Hn))).
  rewrite (js_bind_Ret _ _ _ _ _ (without_run _ _ _)).
  pose proof (find_handler (w_handler w) l) as Hf. destruct (snd <$> _) as [w'|].
  - destruct Hf as [Hw' He]. rewrite (one_handler l w w') by done. by rewrite without_one.
  - destruct Hf. by apply list_elem_of_fmap_2.
Qed.

Lemma stop_handler_run t n h s : events_ok s → proper_name n → ∃ s',
  stop_handler t n h s = (Ret (), s') ∧ events_ok s' ∧ rest s' = rest s ∧
  ∀ t' n', observed s' t' n' = requested (observed s) (StopHandler t n h) t' n'.
Proof.
  intros Hok Hn. unfold stop_handler.
  destruct (getEventID_run t s Hok) as (id & s1 & Hr1 & Hok1 & Hs1 & Hid).
  destruct (getWrappers_run t id n s1 Hok1 Hn Hid) as (c & s2 & Hr2 & Hok2 & Hs2 & Hid2 & Hc & Hcn).
  rewrite <- Hid2 in Hid. pose proof (same_trans _ _ _ Hs1 Hs2) as Hs. rewrite <- (proj1 Hs2) in Hr2, Hcn.
  rewrite (js_bind_Ret _ _ _ _ _ Hr1), (js_bind_Ret _ _ _ _ _ (findWrapper_after _ _ _ _ _ _ Hr2)).
  assert (∀ t n, observed s2 t n = observed s t n) as Ho by (intros ??; unfold observed; by rewrite (proj1 Hs)).
  pose proof (ok_once _ Hok2 t n) as Hnd. unfold observed in Hnd.
  destruct Hs as (_ & _ & _ & Hrest). pose proof (find_handler h (wrappers_of s2 t n)) as Hf.
  destruct (snd <$> _) as [w|].
  2: { exists s2. split_and!; [done..|]. intros t' n'. cbn. rewrite !Ho. case_decide as E; [|done]. destruct E as [-> ->].
       change (h ∉ observed s2 t n) in Hf. rewrite Ho in Hf. symmetry.
       apply filter_all. by intros h' Hh' ->. }
  destruct Hf as [Hw <-]. set (l' := filter (λ v, v ≠ w) (wrappers_of s2 t n)).
  exists (put_entry s2 id n l' (filter (λ l, l ≠ Listener t (getDOMEventName n) w) (listeners s2)) (next_wrapper s2)).
  assert (w_handler <$> l' = filter (λ h', h' ≠ w_handler w) (observed s2 t n)) as Hl'.
  { unfold observed, l'. symmetry. apply filter_fmap_on. intros v Hv. split; [congruence|].
    intros Hne He. apply Hne. by apply one_handler with (wrappers_of s2 t n). }
  split_and!.
  - unfold removeEventListener. rewrite js_bind_modify.
    rewrite destroyWrapper_direct with (c := c) (l := wrappers_of s2 t n) by done. done.
  - apply put_entry_ok with t c; try done.
    + intros v [_ Hv]%list_elem_of_filter. by apply (ok_wrapper _ Hok2).
    + rewrite Hl'. by apply NoDup_filter, (ok_once _ Hok2).
    + intros t' n'. rewrite filter_comm, (ok_listeners _ Hok2). case_decide as E.
      * destruct E as [-> ->]. apply filter_fmap_on. intros v _. split; [congruence|]. by intros Hv [= ->].
      * apply filter_all. intros l (v & -> & Hv)%list_elem_of_fmap [= -> _ ->].
        apply (ok_wrapper _ Hok2) in Hw, Hv. naive_solver.
  - done.
  - intros t' n'. unfold observed at 1. rewrite wrappers_of_put with (t := t) (c := c) by done. cbn [requested].
    rewrite <- !Ho. by case_decide.
Qed.

(** *** Removing all handlers *)

Lemma stop_each_run t n (l : list (wrapper H)) s : events_ok s → proper_name n → observed s t n = w_handler <$> l → ∃ s',
  js_each l (λ w, stop_handler t n (w_handler w)) s = (Ret (), s') ∧ events_ok s' ∧ rest s' = rest s ∧
  ∀ t' n', observed s' t' n' = requested (observed s) (StopName t n) t' n'.
Proof.
  intros Hok Hn. revert s Hok. induction l as [|w l IH]; intros s Hok Hl.
  { exists s. split_and!; [done..|]. intros t' n'. cbn. case_decide as E; [|done]. by destruct E as [-> ->]. }
  destruct (stop_handler_run t n (w_handler w) s Hok Hn) as (s1 & Hr1 & Hok1 & Hrest1 & Ho1).
  pose proof (ok_once _ Hok t n) as Hnd. rewrite Hl, fmap_cons in Hnd. apply NoDup_cons in Hnd as [Hw _].
  destruct (IH s1 Hok1) as (s2 & Hr2 & Hok2 & Hrest2 & Ho2).
  { rewrite Ho1. cbn. rewrite decide_True, Hl, fmap_cons, filter_cons_False by tauto. apply filter_all. by intros h Hh ->. }
  exists s2. cbn [js_each]. rewrite (js_bind_Ret _ _ _ _ _ Hr1). split_and!; [done..|congruence|].
  intros t' n'. rewrite Ho2. cbn. case_decide; [done|]. rewrite Ho1. cbn. by rewrite decide_False.
Qed.

Lemma stop_name_run t n s : events_ok s → proper_name n → ∃ s',
  stop_name t n s = (Ret (), s') ∧ events_ok s' ∧ rest s' = rest s ∧
  ∀ t' n', observed s' t' n' = requested (observed s) (StopName t n) t' n'.
Proof.
  intros Hok Hn. unfold stop_name.
  destruct (getEventID_run t s Hok) as (id & s1 & Hr1 & Hok1 & Hs1 & Hid).
  destruct (getWrappers_run t id n s1 Hok1 Hn Hid) as (c & s2 & Hr2 & Hok2 & Hs2 & _).
  rewrite (js_bind_Ret _ _ _ _ _ Hr1), (js_bind_Ret _ _ _ _ _ Hr2). rewrite <- (proj1 Hs2).
  pose proof (same_trans _ _ _ Hs1 Hs2) as Hs.
  destruct (stop_each_run t n (wrappers_of s2 t n) s2 Hok2 Hn eq_refl) as (s3 & Hr3 & Hok3 & Hrest3 & Ho3).
  exists s3. destruct Hs as (Hw & _ & _ & Hrest). split_and!; [done..|congruence|].
  intros t' n'. rewrite Ho3. unfold observed. cbn. by rewrite Hw.
Qed.

Lemma stop_names_run t ns s : events_ok s → Forall proper_name ns → ∃ s',
  js_each ns (λ n, if decide (n = []) then js_throw ERangeError else stop_name t n) s = (Ret (), s') ∧
  events_ok s' ∧ rest s' = rest s ∧
  ∀ t' n', observed s' t' n' = if decide (t' = t ∧ n' ∈ ns) then [] else observed s t' n'.
Proof.
  revert s. induction ns as [|n ns IH]; intros s Hok Hns.
  { exists s. split_and!; [done..|]. intros t' n'. rewrite decide_False by set_solver. done. }
  apply Forall_cons in Hns as [Hn Hns]. cbn [js_each]. rewrite decide_False by apply Hn.
  destruct (stop_name_run t n s Hok Hn) as (s1 & Hr1 & Hok1 & Hrest1 & Ho1).
  destruct (IH s1 Hok1 Hns) as (s2 & Hr2 & Hok2 & Hrest2 & Ho2).
  exists s2. rewrite (js_bind_Ret _ _ _ _ _ Hr1). split_and!; [done..|congruence|].
  intros t' n'. rewrite Ho2, Ho1. cbn. repeat case_decide; set_solver.
Qed.

Lemma stop_all_run t s : events_ok s → ∃ s',
  stop_all t s = (Ret (), s') ∧ events_ok s' ∧ rest s' = rest s ∧
  ∀ t' n', observed s' t' n' = requested (observed s) (StopAll t) t' n'.
Proof.
  intros Hok. unfold stop_all.
  destruct (getEventID_run t s Hok) as (id & s1 & Hr1 & Hok1 & Hs1 & Hid).
  destruct (getCacheForID_run t id s1 Hok1 Hid) as (c & s2 & Hr2 & Hok2 & Hs2 & Hid2 & Hc).
  rewrite (js_bind_Ret _ _ _ _ _ Hr1), (js_bind_Ret _ _ _ _ _ Hr2).
  pose proof (same_trans _ _ _ Hs1 Hs2) as (Hw & _ & _ & Hrest). rewrite <- Hid2 in Hid.
  destruct (ok_cached _ Hok2 _ _ Hc) as (_ & Hall & _).
  destruct (stop_names_run t c.*1 s2 Hok2) as (s3 & Hr3 & Hok3 & Hrest3 & Ho3).
  { apply Forall_fmap. eapply Forall_impl; [exact Hall|]. by intros p []. }
  exists s3. split_and!; [done..|congruence|]. intros t' n'. rewrite Ho3. cbn. unfold observed.
  destruct (decide (t' = t)) as [->|Ht]; [|by rewrite decide_False, Hw by tauto].
  case_decide as Hn; [done|]. unfold wrappers_of. rewrite Hid, Hc, assoc_get_None; [done|]. tauto.
Qed.

(** *** The contract *)

Lemma requested_ext (r r' : registry) q : (∀ t n, r t n = r' t n) → ∀ t n, requested r q t n = requested r' q t n.
Proof. intros Hr t n. destruct q; cbn; by rewrite ?Hr. Qed.

Lemma perform_run q s : events_ok s → request_ok q → ∃ s',
  perform q s = (Ret (), s') ∧ events_ok s' ∧ rest s' = rest s ∧
  ∀ t n, observed s' t n = requested (observed s) q t n.
Proof.
  intros Hok Hq. destruct q as [t n h|t n h|t n|t]; cbn [perform]; [by apply observe_run| | |by apply stop_all_run].
  - destruct n as [|c n]; [by destruct Hq|]. by apply stop_handler_run.
  - destruct n as [|c n]; [by destruct Hq|]. by apply stop_name_run.
Qed.

Lemma requests_ok s (qs : list registration) : events_ok s → Forall request_ok qs → events_ok (js_each qs perform s).2.
Proof.
  intros Hok Hqs. revert s Hok. induction Hqs as [|q qs Hq Hqs IH]; intros s Hok; [done|].
  destruct (perform_run q s Hok Hq) as (s1 & Hr1 & Hok1 & _). cbn [js_each].
  rewrite (js_bind_Ret _ _ _ _ _ Hr1). by apply IH.
Qed.

(** C27. The registry keeps, for each element and name, the handlers observed and
    not stopped since, each once and in the order in which they came, and
    agrees with the browser's listeners; no call fails, and nothing else
    changes. *)
Theorem registry_refines s (qs : list registration) : events_ok s → Forall request_ok qs → ∃ s',
  js_each qs perform s = (Ret (), s') ∧ events_ok s' ∧ rest s' = rest s ∧
  ∀ t n, observed s' t n = foldl requested (observed s) qs t n.
Proof.
  intros Hok Hqs. revert s Hok. induction Hqs as [|q qs Hq Hqs IH]; intros s Hok; [by exists s|].
  destruct (perform_run q s Hok Hq) as (s1 & Hr1 & Hok1 & Hrest1 & Ho1).
  destruct (IH s1 Hok1) as (s2 & Hr2 & Hok2 & Hrest2 & Ho2).
  exists s2. cbn [js_each]. rewrite (js_bind_Ret _ _ _ _ _ Hr1). split_and!; [done..|congruence|].
  intros t n. rewrite Ho2. cbn [foldl]. clear -Ho1. revert t n Ho1. generalize (observed s1), (requested (observed s) q).
  induction qs as [|q' qs IH]; intros r r' t n Hr; [apply Hr|]. apply IH. by apply requested_ext.
Qed.

(** *** Dispatch *)

Context (path : X → nid → list nid) (call : H → nid → page_event → JS (events H X) ()).

(** What an event does: the handlers of each element on its way, in turn;
    their errors are reported; a stopped event goes no further. *)
Fixpoint deliver (r : registry) n (e : page_event) (targets : list nid) : JS (events H X) () :=
  match targets with
  | [] => mret ()
  | t :: targets =>
      js_each (r t n) (λ h, reported (call h t e)) ;;
      s ← js_get;
      if decide (e_id e ∈ e_stopped s) then mret () else deliver r n e targets
  end.

(** Handlers that register and remove none. *)
Definition quiet : Prop := ∀ h t e s, listeners (call h t e s).2 = listeners s.

(** [e] is an event for the handlers of [n]. *)
Definition event_for n (e : page_event) : Prop :=
  getDOMEventName n = e_type e ∧
  ∀ n', getDOMEventName n' = e_type e →
    match eventName e with None | Some [] => true | Some n => bool_decide (n = n') end = bool_decide (n = n').

Lemma js_each_run {A} (f g : A → JS (events H X) ()) (p : A → Prop) `{∀ a, Decision (p a)} l s ls :
  listeners s = ls →
  (∀ a s, listeners s = ls → a ∈ l → f a s = if decide (p a) then g a s else (Ret (), s)) →
  (∀ a s, listeners s = ls → listeners (g a s).2 = ls) →
  js_each l f s = js_each (filter p l) g s ∧ listeners (js_each l f s).2 = ls.
Proof.
  intros Hs Hf Hg. revert s Hs. induction l as [|a l IH]; intros s Hs; [done|]. cbn [js_each].
  specialize (IH (λ a s Hs Ha, Hf a s Hs (list_elem_of_further _ _ _ Ha))).
  pose proof (Hf a s Hs (list_elem_of_here _ _)) as Ha.
  destruct (decide (p a)) as [Hp|Hp]; [rewrite filter_cons_True by done|rewrite filter_cons_False by done].
  - cbn [js_each]. specialize (Hg a s Hs). unfold mbind, js_mbind. rewrite Ha.
    destruct (g a s) as [[[]|e] s']; [by apply IH|done].
  - rewrite (js_bind_Ret _ _ _ _ _ Ha). by apply IH.
Qed.

Lemma js_each_fmap {A B} (h : A → B) (f : B → JS (events H X) ()) l s : js_each (h <$> l) f s = js_each l (λ a, f (h a)) s.
Proof.
  revert s. induction l as [|a l IH]; intros s; [done|]. cbn [fmap list_fmap js_each].
  unfold mbind, js_mbind. destruct (f (h a) s) as [[[]|]]; [apply IH|done].
Qed.

Lemma js_each_ext {A} (f g : A → JS (events H X) ()) l s :
  (∀ a s, a ∈ l → f a s = g a s) → js_each l f s = js_each l g s.
Proof.
  revert s. induction l as [|a l IH]; intros s Hl; [done|]. cbn [js_each]. unfold mbind, js_mbind.
  rewrite (Hl a s (list_elem_of_here _ _)). destruct (g a s) as [[[]|]]; [|done].
  apply IH. intros b s' Hb. apply Hl. by right.
Qed.

Lemma run_listener_run e s l : quiet → l ∈ listeners s →
  run_listener call e l s =
    (if match eventName e with None | Some [] => true | Some n => bool_decide (n = w_name (l_wrapper l)) end
     then reported (call (w_handler (l_wrapper l)) (w_element (l_wrapper l)) e) s else (Ret (), s)).
Proof.
  intros Hq Hl. unfold run_listener, js_when. rewrite js_bind_get, bool_decide_true by done.
  unfold run_wrapper. destruct (eventName e) as [[|c n]|]; [done| |done]. by case_bool_decide.
Qed.

Lemma reported_quiet h t e s : quiet → listeners (reported (call h t e) s).2 = listeners s.
Proof.
  intros Hq. unfold reported, js_try. pose proof (Hq h t e s). by destruct (call h t e s) as [[]].
Qed.

Lemma ok_listener s l : events_ok s → l ∈ listeners s →
  l_type l = getDOMEventName (w_name (l_wrapper l)) ∧ w_element (l_wrapper l) = l_target l.
Proof.
  intros Hok Hl.
  assert (l ∈ filter (λ l', l_target l' = l_target l ∧ w_name (l_wrapper l') = w_name (l_wrapper l)) (listeners s)) as Hf
    by by apply list_elem_of_filter.
  rewrite (ok_listeners _ Hok) in Hf. apply list_elem_of_fmap in Hf as (w & He & Hw).
  apply (ok_wrapper _ Hok) in Hw as (? & ? & _).
  pose proof (f_equal l_type He). pose proof (f_equal l_wrapper He). cbn in *. split; congruence.
Qed.

Lemma dispatch_run s0 s e n targets : events_ok s0 → quiet → event_for n e → listeners s = listeners s0 →
  dispatch_event call e targets s = deliver (observed s0) n e targets s.
Proof.
  intros Hok Hq [Ht He]. revert s. induction targets as [|t targets IH]; intros s Hs; [done|].
  cbn [dispatch_event deliver]. rewrite js_bind_get.
  assert (js_each (listeners_at s t (e_type e)) (run_listener call e) s =
            js_each (observed s0 t n) (λ h, reported (call h t e)) s ∧
          listeners (js_each (observed s0 t n) (λ h, reported (call h t e)) s).2 = listeners s0) as [Hr Hl].
  { destruct (js_each_run (run_listener call e)
      (λ l, reported (call (w_handler (l_wrapper l)) (w_element (l_wrapper l)) e))
      (λ l, w_name (l_wrapper l) = n) (listeners_at s t (e_type e)) s (listeners s0) Hs) as [Hr Hl].
    - intros l s' Hs' [[_ Hty] Hl]%list_elem_of_filter. rewrite run_listener_run by (done || congruence).
      rewrite Hs in Hl. destruct (ok_listener _ _ Hok Hl) as [Hlt ->].
      rewrite He by congruence. repeat case_decide; by repeat case_bool_decide.
    - intros l s' Hs'. by rewrite reported_quiet.
    - rewrite Hr in Hl |- *. enough (js_each (filter (λ l, w_name (l_wrapper l) = n) (listeners_at s t (e_type e)))
        (λ l, reported (call (w_handler (l_wrapper l)) (w_element (l_wrapper l)) e)) s =
        js_each (observed s0 t n) (λ h, reported (call h t e)) s) as <- by done.
      unfold observed, listeners_at. rewrite Hs, list_filter_filter.
      rewrite (filter_iff_on _ (λ l, l_target l = t ∧ w_name (l_wrapper l) = n)), (ok_listeners _ Hok).
      + rewrite !js_each_fmap. apply js_each_ext. intros w s' Hw. cbn. by apply (ok_wrapper _ Hok) in Hw as (-> & _).
      + intros l Hin. apply (ok_listener _ _ Hok) in Hin as [-> _]. split; [tauto|]. intros [-> <-]. done. }
  destruct (js_each (observed s0 t n) _ s) as [[[]|er] s'] eqn:E.
  - rewrite (js_bind_Ret _ _ _ _ _ Hr), (js_bind_Ret _ _ _ _ _ E), !js_bind_get.
    case_decide; [done|]. by apply IH.
  - by rewrite (js_bind_Throw _ _ _ _ _ Hr), (js_bind_Throw _ _ _ _ _ E).
Qed.

Lemma custom_event_for n k m : include n (js ":") = true →
  event_for n (PageEvent k (js "dataavailable") (Some n) m).
Proof.
  intros Hn. unfold event_for, getDOMEventName. rewrite Hn. split; [done|]. intros n' _. cbn.
  destruct n; [by vm_compute in Hn|done].
Qed.

Lemma native_event_for n k : include n (js ":") = false → n ≠ js "dataavailable" →
  event_for n (PageEvent k n None VUndef).
Proof.
  intros Hn Hd. unfold event_for, getDOMEventName. rewrite Hn. split; [done|]. intros n'. cbn.
  case_match; intros Hn'; [by destruct Hd|]. subst. by rewrite bool_decide_true.
Qed.

(** C28. An event of the page's own calls exactly the handlers observed under its
    name, one of the browser's those under its type: on the target first, then
    on the nodes above, each element's in the order of registration, as long as
    the handlers register and remove none. *)
Theorem dispatch_correct s t n m : events_ok s → quiet →
  (include n (js ":") = true → fire path call t n m s =
    (let e := PageEvent (next_event s) (js "dataavailable") (Some n) m in
     deliver (observed s) n e (path (others_on_page s) t) ;; mret e) (set_next_event (S (next_event s)) s)) ∧
  (include n (js ":") = false → n ≠ js "dataavailable" → native_event path call t n s =
    deliver (observed s) n (PageEvent (next_event s) n None VUndef) (path (others_on_page s) t)
      (set_next_event (S (next_event s)) s)).
Proof.
  intros Hok Hq. split.
  - intros Hn. unfold fire. rewrite js_bind_get, js_bind_modify.
    unfold mbind, js_mbind. by rewrite (dispatch_run s _ _ n) by (done || by apply custom_event_for).
  - intros Hn Hd. unfold native_event. rewrite js_bind_get, js_bind_modify.
    by rewrite (dispatch_run s _ _ n) by (done || by apply native_event_for).
Qed.
End observing.

(** *** A page

    The handlers are numbers; each is noted with the element and the name, the
    handler 0 fails and the handler 9 stops the event. *)

Definition noted := list (nat * nid * jsstr).
Definition no_events : events nat noted := Events ∅ 0 ∅ 0 [] 0 ∅ false [].
Definition noting (h : nat) (t : nid) (e : page_event) : JS (events nat noted) () :=
  js_modify (λ s, Events (eventID s) (id_count s) (event_cache s) (next_wrapper s) (listeners s) (next_event s)
    (if h =? 9 then {[e_id e]} ∪ e_stopped s else e_stopped s) (content_loaded s)
    (others_on_page s ++ [(h, t, default (e_type e) (eventName e))])) ;;
  if h =? 0 then js_throw ETypeError else mret ().
Definition upwards (_ : noted) (t : nid) : list nid := rev (seq 0 (S t)).
Definition some_requests : list (registration (H := nat)) :=
  [Observe 2 (js "cart:filled") 0; Observe 2 (js "cart:filled") 5; Observe 2 (js "click") 9; Observe 1 (js "click") 7;
   Observe 1 (js "cart:emptied") 8; Observe 2 (js "cart:filled") 5; Observe 1 (js "cart:filled") 9;
   Observe 0 (js "cart:filled") 6; StopHandler 2 (js "click") 9].

Lemma no_events_ok : events_ok no_events.
Proof.
  split; cbn; try (intros *; rewrite lookup_empty; done).
  - intros t n w. unfold wrappers_of. cbn. rewrite lookup_empty. by intros ?%not_elem_of_nil.
  - intros t n. unfold observed, wrappers_of. cbn. rewrite lookup_empty. constructor.
  - intros t n. unfold wrappers_of. cbn. by rewrite lookup_empty.
Qed.

Lemma some_requests_ok : Forall request_ok some_requests.
Proof. apply (bool_decide_unpack _). vm_compute. exact I. Qed.

Lemma noting_quiet : quiet noting.
Proof. intros h t e s. unfold noting. rewrite js_bind_modify. by case_match. Qed.

Lemma registry_refines_witness :
  events_ok no_events ∧ Forall request_ok some_requests ∧
  ∃ s', js_each some_requests perform no_events = (Ret (), s') ∧ events_ok s' ∧ rest s' = rest no_events ∧
  ∀ t n, observed s' t n = foldl requested (observed no_events) some_requests t n.
Proof.
  split; [exact no_events_ok|]. split; [exact some_requests_ok|].
  exact (registry_refines no_events some_requests no_events_ok some_requests_ok).
Defined.

Definition page_with_events : events nat noted := (js_each some_requests perform no_events).2.

Lemma page_with_events_ok : events_ok page_with_events.
Proof. exact (requests_ok _ _ no_events_ok some_requests_ok). Qed.

Lemma dispatch_correct_witness :
  include (js "cart:filled") (js ":") = true ∧
  fire upwards noting 2 (js "cart:filled") VUndef page_with_events =
    (let e := PageEvent (next_event page_with_events) (js "dataavailable") (Some (js "cart:filled")) VUndef in
     deliver noting (observed page_with_events) (js "cart:filled") e (upwards [] 2) ;; mret e)
      (set_next_event (S (next_event page_with_events)) page_with_events).
Proof.
  assert (include (js "cart:filled") (js ":") = true) as Hn by (vm_compute; reflexivity).
  split; [exact Hn|].
  exact (proj1 (dispatch_correct upwards noting page_with_events 2 (js "cart:filled") VUndef page_with_events_ok noting_quiet) Hn).
Defined.

Example cart_filled :
  others_on_page (fire upwards noting 2 (js "cart:filled") VUndef page_with_events).2 =
  [(0, 2, js "cart:filled"); (5, 2, js "cart:filled"); (9, 1, js "cart:filled")].
Proof. vm_compute. reflexivity. Qed.

(** ** Limits of the code *)

(** A handler for the empty name cannot be removed with the others. *)
Example empty_name_stops : ∃ s,
  observe 2 [] 5 no_events = (Ret (), s) ∧ (stop_all 2 s).1 = Throw ERangeError.
Proof. eexists. split; vm_compute; reflexivity. Qed.

(** Firing an event without a name calls the handlers of all custom events,
    and so does an event [dataavailable] of the browser's. *)
Example nameless_event :
  (fst <$> others_on_page (fire upwards noting 1 [] VUndef page_with_events).2) = [(8, 1); (9, 1)] ∧
  (fst <$> others_on_page (native_event upwards noting 1 (js "dataavailable") page_with_events).2) = [(8, 1); (9, 1)].
Proof. split; vm_compute; reflexivity. Qed.

(** A custom name without a colon is never delivered. *)
Example name_without_colon :
  let s := (observe 2 (js "filled") 5 no_events).2 in
  observed s 2 (js "filled") = [5] ∧ others_on_page (fire upwards noting 2 (js "filled") VUndef s).2 = [].
Proof. split; vm_compute; reflexivity. Qed.
