(* ===== verification/AutoText.v ===== *)
(** * The text of autocompletion (controls.js)

    Which part of a field is completed: the token around the place where the
    field last changed, between the delimiters of the options; what the field
    holds after a choice; and the choices that [Autocompleter.Local] offers. *)

From Stdlib Require Import ZArith.
From S2P Require Import Prelude JsBase JsRegex JsReplace Strings.
#[local] Open Scope Z_scope.
#[local] Open Scope stdpp_scope.

(** ** The token *)

(** [getFirstDifferencePos]: when all indices below both lengths agree, the
    smaller length. *)
Fixpoint getFirstDifferencePos (newS oldS : jsstr) : nat :=
  match newS, oldS with
  | c :: newS, d :: oldS => if N.eqb c d then S (getFirstDifferencePos newS oldS) else O
  | _, _ => O
  end.

(** A round of the loop over the delimiters: [prevTokenPos], [nextTokenPos]. *)
Definition bounds_step (value : jsstr) (place : Z) (b : Z * Z) (token : jsstr) : Z * Z :=
  let tp := lastIndexOf_from value token (place - 1) in
  let prevTokenPos := if b.1 <? tp then tp else b.1 in
  let tp := indexOf_from value token place in
  let nextTokenPos := if negb (-1 =? tp) && (tp <? b.2) then tp else b.2 in
  (prevTokenPos, nextTokenPos).

(** [diff + offset] *)
Definition place_of (value old : jsstr) : Z :=
  let diff := getFirstDifferencePos value old in
  Z.of_nat diff + (if (diff =? length old)%nat then 1 else 0).

(** [getTokenBounds] without its cache *)
Definition token_bounds (tokens : list jsstr) (value old : jsstr) : Z * Z :=
  if empty (strip value) then (-1, 0)
  else
    let b := fold_left (bounds_step value (place_of value old)) tokens (-1, Z.of_nat (length value)) in
    (b.1 + 1, b.2).

Definition token_text (bounds : Z * Z) (value : jsstr) : jsstr := strip (substring value bounds.1 bounds.2).

(** [s.match(/^\s+/)], the empty string when there is no match *)
Definition leading_space (s : jsstr) : jsstr :=
  match rx_match (RBol +++ RPlus (RChar is_space))%rx s with Some m => m_text m | None => [] end.

(** The value [updateElement] gives the field. *)
Definition chosen_value (bounds : Z * Z) (current value : jsstr) : jsstr :=
  if bounds.1 =? -1 then value
  else substr current 0 bounds.1 ++ leading_space (substr_from current bounds.1) ++ value ++
       substr_from current bounds.2.

(** ** Local choices *)

Record local_options := LocalOptions {
  choices : nat; partialSearch : bool; partialChars : Z; ignoreCase : bool; fullSearch : bool; array : list jsstr }.

Inductive offer := Beginning (item : jsstr) | Inside (item : jsstr) | NoOffer.

Section local.
Context (o : local_options) (entry : jsstr).

Definition find_entry (elem : jsstr) (from : Z) : Z :=
  if ignoreCase o then indexOf_from (toLowerCase elem) (toLowerCase entry) from else indexOf_from elem entry from.

Definition beginning_item (elem : jsstr) : jsstr :=
  js "<li><strong>" ++ substr elem 0 (Z.of_nat (length entry)) ++ js "</strong>" ++ substr_from elem (Z.of_nat (length entry)) ++ js "</li>".
Definition inside_item (elem : jsstr) (foundPos : Z) : jsstr :=
  js "<li>" ++ substr elem 0 foundPos ++ js "<strong>" ++ substr elem foundPos (Z.of_nat (length entry)) ++ js "</strong>" ++
  substr_from elem (foundPos + Z.of_nat (length entry)) ++ js "</li>".

(** Whether an occurrence that is not offered as a beginning is offered. *)
Definition inside_ok (elem : jsstr) (foundPos : Z) : bool :=
  (partialChars o <=? Z.of_nat (length entry)) && partialSearch o && negb (foundPos =? -1) &&
  (fullSearch o || rx_test (RChar is_space) (substr elem (foundPos - 1) 1)).

(** The [while] loop; without fuel there is no result. *)
Fixpoint offer_loop (fuel : nat) (elem : jsstr) (foundPos : Z) : option offer :=
  match fuel with
  | O => None
  | S fuel =>
      if foundPos =? -1 then Some NoOffer
      else if (foundPos =? 0) && negb (length elem =? length entry)%nat then Some (Beginning (beginning_item elem))
      else if inside_ok elem foundPos then Some (Inside (inside_item elem foundPos))
      else offer_loop fuel elem (find_entry elem (foundPos + 1))
  end.
Definition offer_of (elem : jsstr) : option offer := offer_loop (S (S (length elem))) elem (find_entry elem 0).

(** The [for] loop *)
Fixpoint offers (l : list jsstr) (ret partial : list jsstr) : option (list jsstr * list jsstr) :=
  match l with
  | [] => Some (ret, partial)
  | elem :: l =>
      if (length ret <? choices o)%nat then
        x ← offer_of elem;
        match x with
        | Beginning item => offers l (ret ++ [item]) partial
        | Inside item => offers l ret (partial ++ [item])
        | NoOffer => offers l ret partial
        end
      else Some (ret, partial)
  end.

(** [options.selector] *)
Definition local_selector : option jsstr :=
  '(ret, partial) ← offers (array o) [] [];
  let ret := if (0 <? length partial)%nat then ret ++ slice partial 0 (Z.of_nat (choices o) - Z.of_nat (length ret)) else ret in
  Some (js "<ul>" ++ join [] ret ++ js "</ul>").
End local.

(** ** Searching for one character *)

Lemma is_prefix_one c (s : jsstr) j : is_prefix [c] (drop j s) = true ↔ s !! j = Some c.
Proof.
  rewrite <- (Nat.add_0_r j) at 2. rewrite <- lookup_drop.
  destruct (drop j s) as [|d t]; cbn; [done|]. rewrite andb_true_r, N.eqb_eq. split; congruence.
Qed.

Lemma last_one_spec (s : jsstr) c i :
  match last_index_upto s [c] i with
  | Some k => (k ≤ i)%nat ∧ s !! k = Some c ∧ ∀ j, (k < j ≤ i)%nat → s !! j ≠ Some c
  | None => ∀ j, (j ≤ i)%nat → s !! j ≠ Some c
  end.
Proof.
  induction i as [|i IH]; cbn [last_index_upto]; destruct (is_prefix [c] _) eqn:E.
  - apply (is_prefix_one c s 0) in E. split_and!; [done..|lia].
  - intros j Hj He. assert (j = 0%nat) as -> by lia. apply (is_prefix_one c s 0) in He. congruence.
  - apply is_prefix_one in E. split_and!; [done..|lia].
  - assert (s !! S i ≠ Some c) as Hi by (intros He%(is_prefix_one c s); congruence).
    destruct (last_index_upto s [c] i) as [k|].
    + destruct IH as (? & ? & Hj). split_and!; [lia|done|]. intros j Hk.
      destruct (decide (j = S i)) as [->|]; [done|apply Hj; lia].
    + intros j Hj. destruct (decide (j = S i)) as [->|]; [done|apply IH; lia].
Qed.

Lemma index_one_spec (s : jsstr) c i :
  match index_from [c] s i with
  | Some k => ∃ j, k = (i + j)%nat ∧ s !! j = Some c ∧ ∀ j', (j' < j)%nat → s !! j' ≠ Some c
  | None => ∀ j, s !! j ≠ Some c
  end.
Proof.
  revert i. induction s as [|d s IH]; intros i; cbn; [done|]. rewrite andb_true_r. destruct (N.eqb_spec c d) as [->|Hne].
  - exists 0%nat. split_and!; [lia|done|lia].
  - specialize (IH (S i)). destruct (index_from [c] s (S i)) as [k|].
    + destruct IH as (j & -> & Hj & Hlt). exists (S j). split_and!; [lia|done|].
      intros [|j'] Hj'; cbn; [congruence|apply Hlt; lia].
    + intros [|j]; cbn; [congruence|apply IH].
Qed.

(** ** Spaces *)

Definition spaces (s : jsstr) : Prop := forallb is_space s = true.

Lemma trim_left_split s : ∃ w, s = w ++ trim_left s ∧ spaces w.
Proof.
  induction s as [|c s (w & Hs & Hw)]; [by exists []|]. cbn. destruct (is_space c) eqn:Hc; [|by exists []].
  exists (c :: w). split; [by rewrite Hs at 1|]. unfold spaces in *. cbn. by rewrite Hc.
Qed.

Lemma trim_right_split s : ∃ w, s = trim_right s ++ w ∧ spaces w.
Proof.
  destruct (trim_left_split (reverse s)) as (w & Hs & Hw). exists (reverse w). split.
  - unfold trim_right. rewrite <- reverse_app, <- Hs. by rewrite reverse_involutive.
  - unfold spaces in *. rewrite forallb_true_iff in *. by rewrite Forall_reverse.
Qed.

Lemma trim_left_app s t : trim_left s ≠ [] → trim_left (s ++ t) = trim_left s ++ t.
Proof. induction s as [|c s IH]; cbn; [done|]. destruct (is_space c); [apply IH|done]. Qed.

Lemma leading_space_split s : leading_space s ++ trim_left s = s.
Proof.
  rewrite <- strip_left. unfold leading_space, replace_first. destruct (rx_match _ s) as [m|] eqn:Hm; [|done].
  pose proof (rx_match_cut _ _ _ Hm) as Hs. assert (m_before m = []) as Hb; [|by rewrite Hb in Hs |- *].
  unfold rx_match in Hm. destruct s as [|c s]; cbn [exec_from] in Hm.
  - destruct (rmatch _ _ _) in Hm; [by injection Hm as <-|done].
  - destruct (rmatch _ _ _) in Hm; [by injection Hm as <-|]. by rewrite exec_from_anchored in Hm.
Qed.

Lemma leading_space_spaces s : spaces (leading_space s).
Proof.
  destruct (trim_left_split s) as (w & Hs & Hw). enough (leading_space s = w) as -> by done.
  apply (app_inv_tail (trim_left s)). by rewrite leading_space_split, <- Hs.
Qed.

Lemma leading_space_app s t : trim_left s ≠ [] → leading_space (s ++ t) = leading_space s.
Proof.
  intros Hs. apply (app_inv_tail (trim_left s ++ t)). rewrite (app_assoc (leading_space s)), leading_space_split.
  rewrite <- trim_left_app by done. by rewrite leading_space_split.
Qed.

(** ** The bounds *)

Section bounds.
Context (delimiters : list N) (value old : jsstr).
#[local] Abbreviation tokens := ((λ c, [c]) <$> delimiters : list jsstr).
#[local] Abbreviation place := (place_of value old).

(** What the delimiters [ds] tell of the bounds. *)
Record bounds_inv (p : nat) (ds : list N) (b : Z * Z) : Prop := {
  b_prev : -1 ≤ b.1 < Z.of_nat p;
  b_prev_in : 0 ≤ b.1 → ∃ c, value !! Z.to_nat b.1 = Some c ∧ c ∈ ds;
  b_prev_none : ∀ j c, b.1 < Z.of_nat j → (j < p)%nat → value !! j = Some c → c ∉ ds;
  b_next : b.2 ≤ Z.of_nat (length value) ∧ (Z.of_nat p ≤ b.2 ∨ b.2 = Z.of_nat (length value));
  b_next_in : b.2 < Z.of_nat (length value) → ∃ c, value !! Z.to_nat b.2 = Some c ∧ c ∈ ds;
  b_next_none : ∀ j c, (p ≤ j)%nat → Z.of_nat j < b.2 → value !! j = Some c → c ∉ ds;
}.

Lemma lastIndexOf_one c (p : nat) : (0 < p)%nat →
  let tp := lastIndexOf_from value [c] (Z.of_nat p - 1) in
  -1 ≤ tp < Z.of_nat p ∧ (0 ≤ tp → value !! Z.to_nat tp = Some c) ∧
  ∀ j, tp < Z.of_nat j → (j < p)%nat → value !! j ≠ Some c.
Proof.
  intros Hp tp. unfold tp, lastIndexOf_from. cbn [length].
  destruct (Nat.ltb_spec (length value) 1) as [Hl|Hl].
  { split_and!; [lia..|]. intros j _ _ ?%lookup_lt_Some. lia. }
  set (i := Nat.min _ _). pose proof (last_one_spec value c i) as Hs.
  destruct (last_index_upto value [c] i) as [k|]; cbn [index_or_minus1].
  - destruct Hs as (Hk & Hc & Hn). split_and!; [lia|lia|by rewrite Nat2Z.id|].
    intros j Hj Hjp Hv. apply (Hn j); [|done]. apply lookup_lt_Some in Hv. lia.
  - split_and!; [lia..|]. intros j _ Hjp Hv. apply (Hs j); [|done]. apply lookup_lt_Some in Hv. lia.
Qed.

Lemma indexOf_one c (p : nat) :
  let tp := indexOf_from value [c] (Z.of_nat p) in
  (tp = -1 ∨ Z.of_nat p ≤ tp < Z.of_nat (length value) ∧ value !! Z.to_nat tp = Some c) ∧
  ∀ j, (p ≤ j)%nat → (tp = -1 ∨ Z.of_nat j < tp) → value !! j ≠ Some c.
Proof.
  intros tp. unfold tp, indexOf_from. rewrite Nat2Z.id. set (i := Nat.min p (length value)).
  pose proof (index_one_spec (drop i value) c i) as Hs.
  destruct (index_from [c] (drop i value) i) as [k|]; cbn [index_or_minus1].
  - destruct Hs as (j & -> & Hj & Hlt). rewrite lookup_drop in Hj. pose proof (lookup_lt_Some _ _ _ Hj).
    split; [right; rewrite Nat2Z.id; split; [lia|done]|].
    intros j' Hp' Hj' Hv. apply (Hlt (j' - i)%nat); [lia|]. rewrite lookup_drop. by replace (i + (j' - i))%nat with j' by lia.
  - split; [by left|]. intros j Hp _ Hv. pose proof (lookup_lt_Some _ _ _ Hv).
    apply (Hs (j - i)%nat). rewrite lookup_drop. by replace (i + (j - i))%nat with j by lia.
Qed.

Lemma bounds_step_inv p ds b c : (0 < p)%nat → bounds_inv p ds b →
  bounds_inv p (ds ++ [c]) (bounds_step value (Z.of_nat p) b [c]).
Proof.
  intros Hp [H1 H2 H3 H4 H5 H6]. unfold bounds_step.
  destruct (lastIndexOf_one c p Hp) as (L1 & L2 & L3). destruct (indexOf_one c p) as (I1 & I2).
  set (tp := lastIndexOf_from _ _ _) in *. set (tn := indexOf_from _ _ _) in *.
  assert (∀ c' : N, c' ∈ ds ++ [c] ↔ c' ∈ ds ∨ c' = c) as Hin by (intros; set_solver).
  split; cbn [fst snd].
  - destruct (Z.ltb_spec b.1 tp); lia.
  - destruct (Z.ltb_spec b.1 tp) as [Hlt|Hle]; intros H0.
    + exists c. rewrite Hin. auto.
    + destruct (H2 H0) as (c' & ? & ?). exists c'. rewrite Hin. auto.
  - intros j c' Hj Hjp Hv. rewrite Hin. intros [Hc| ->]; destruct (Z.ltb_spec b.1 tp).
    + apply (H3 j c'); [lia|done..].
    + by apply (H3 j c').
    + by apply (L3 j).
    + apply (L3 j); [lia|done..].
  - destruct (Z.eqb_spec (-1) tn), (Z.ltb_spec tn b.2); cbn [negb andb]; lia.
  - destruct (Z.eqb_spec (-1) tn) as [Hn|Hn], (Z.ltb_spec tn b.2) as [Hlt|Hle]; cbn [negb andb]; intros H0;
      try (destruct (H5 H0) as (c' & ? & ?); exists c'; rewrite Hin; by auto).
    exists c. rewrite Hin. destruct I1 as [|[_ ?]]; [lia|auto].
  - intros j c' Hpj Hj Hv. rewrite Hin.
    destruct (Z.eqb_spec (-1) tn) as [Hn|Hn], (Z.ltb_spec tn b.2) as [Hlt|Hle]; cbn [negb andb] in Hj; intros [Hc| ->];
      try (apply (H6 j c'); [lia..|done|done]); apply (I2 j); lia || done.
Qed.

Lemma bounds_fold_inv p ds : (0 < p)%nat →
  bounds_inv p ds (fold_left (bounds_step value (Z.of_nat p)) ((λ c, [c]) <$> ds : list jsstr) (-1, Z.of_nat (length value))).
Proof.
  intros Hp. induction ds as [|c ds IH] using rev_ind.
  - split; cbn; try lia; intros; set_solver.
  - rewrite fmap_app, fold_left_app. cbn. by apply bounds_step_inv.
Qed.

Lemma step_at_start b c : head value ≠ Some c → bounds_step value 0 b [c] = bounds_step value 1 b [c].
Proof.
  intros Hc. unfold bounds_step.
  assert (indexOf_from value [c] 0 = indexOf_from value [c] 1) as ->; [|done].
  unfold indexOf_from. destruct value as [|d s]; [done|]. cbn in Hc.
  change (Z.to_nat 0) with 0%nat. change (Z.to_nat 1) with 1%nat. rewrite Nat.min_0_l, Nat.min_l by (cbn; lia).
  change (drop 0 (d :: s)) with (d :: s). change (drop 1 (d :: s)) with s. cbn [index_from is_prefix].
  destruct (N.eqb_spec c d) as [->|]; done.
Qed.

Lemma bounds_range : empty (strip value) = false →
  (place = 0 → ∀ c, head value = Some c → c ∉ delimiters) → ∃ b0 b1 : nat,
  token_bounds tokens value old = (Z.of_nat b0, Z.of_nat b1) ∧ (b0 ≤ b1 ≤ length value)%nat ∧
  (Z.of_nat b0 ≤ place ∧ (place ≤ Z.of_nat b1 ∨ b1 = length value)) ∧
  (∀ c, last (take b0 value) = Some c → c ∈ delimiters) ∧ (∀ c, head (drop b1 value) = Some c → c ∈ delimiters) ∧
  (∀ j c, (b0 ≤ j < b1)%nat → value !! j = Some c → c ∉ delimiters).
Proof.
  intros Hv H0. unfold token_bounds. rewrite Hv. set (p := Z.to_nat (Z.max 1 place)).
  assert (0 ≤ place) as Hp by (unfold place_of; case_match; lia).
  assert (fold_left (bounds_step value place) tokens (-1, Z.of_nat (length value)) =
          fold_left (bounds_step value (Z.of_nat p)) tokens (-1, Z.of_nat (length value))) as ->.
  { destruct (decide (place = 0)) as [He|He]; [|by replace (Z.of_nat p) with place by lia].
    replace (Z.of_nat p) with 1 by lia. rewrite He. specialize (H0 He). clear -H0.
    generalize (-1, Z.of_nat (length value)). induction delimiters as [|c ds IH]; intros b; [done|]. cbn.
    rewrite step_at_start by (intros Hc; apply (H0 c Hc); left). apply IH. intros c' Hc' Hin. apply (H0 c' Hc'). by right. }
  destruct (bounds_fold_inv p delimiters) as [H1 H2 H3 H4 H5 H6]; [lia|]. set (b := fold_left _ _ _) in *.
  assert (b.1 + 1 ≤ Z.of_nat (length value)) as Hl.
  { destruct (decide (0 ≤ b.1)) as [Hb|]; [|lia]. destruct (H2 Hb) as (c & Hc%lookup_lt_Some & _). lia. }
  assert (place = 0 → b.1 = -1) as Hb0.
  { intros He. destruct (decide (0 ≤ b.1)) as [Hb|]; [|lia]. destruct (H2 Hb) as (c & Hc & Hin). exfalso.
    apply (H0 He c); [|done]. replace (Z.to_nat b.1) with 0%nat in Hc by lia. by destruct value. }
  exists (Z.to_nat (b.1 + 1)), (Z.to_nat b.2). split_and!; [|lia..| | |].
  - f_equal; lia.
  - intros c. destruct (decide (0 ≤ b.1)) as [Hb|]; [|by replace (Z.to_nat (b.1 + 1)) with 0%nat by lia].
    destruct (H2 Hb) as (c' & Hc' & Hin). replace (Z.to_nat (b.1 + 1)) with (S (Z.to_nat b.1)) by lia.
    rewrite (take_S_r _ _ c') by done. rewrite last_snoc. by intros [= <-].
  - intros c Hc. destruct (decide (b.2 < Z.of_nat (length value))) as [Hb|]; [|by rewrite drop_ge in Hc by lia].
    destruct (H5 Hb) as (c' & Hc' & Hin). rewrite (drop_S _ c') in Hc by done. by injection Hc as <-.
  - intros j c Hj. destruct (decide (j < p)%nat); [apply H3; lia|apply H6; lia].
Qed.

(** C29. Choosing an entry replaces the token in which the field last changed, and
    the space after it, by the choice; the token holds no delimiter and lies
    between delimiters or ends of the field. *)
Theorem choice_replaces_token choice :
  let b := token_bounds tokens value old in
  let t := token_text b value in
  t ≠ [] → (place = 0 → ∀ c, head value = Some c → c ∉ delimiters) → ∃ pre w1 w2 post,
  value = pre ++ (w1 ++ t ++ w2) ++ post ∧ spaces w1 ∧ spaces w2 ∧
  chosen_value b value choice = pre ++ w1 ++ choice ++ post ∧
  (∀ c, c ∈ w1 ++ t ++ w2 → c ∉ delimiters) ∧
  (∀ c, last pre = Some c → c ∈ delimiters) ∧ (∀ c, head post = Some c → c ∈ delimiters) ∧
  Z.of_nat (length pre) ≤ place ∧ (place ≤ Z.of_nat (length (pre ++ w1 ++ t ++ w2)) ∨ post = []).
Proof.
  intros b t Ht H0. destruct (empty (strip value)) eqn:Hv.
  { destruct Ht. unfold t, b, token_bounds. rewrite Hv. unfold token_text. cbn [fst snd].
    replace (substring value (-1) 0) with ([] : jsstr); [done|]. unfold substring, clamp. by rewrite !Nat.min_l by lia. }
  destruct (bounds_range Hv H0) as (b0 & b1 & Hb & Hle & Hplace & Hpre & Hpost & Hin).
  fold b in Hb. set (seg := take (b1 - b0) (drop b0 value)).
  assert (t = trim seg) as Hts.
  { unfold t, token_text. rewrite Hb. cbn [fst snd]. rewrite strip_trim. f_equal. unfold substring, clamp.
    rewrite !Nat2Z.id, !Nat.min_l, Nat.max_r by lia. done. }
  assert (drop b0 value = seg ++ drop b1 value) as Hd.
  { unfold seg. rewrite <- (take_drop (b1 - b0) (drop b0 value)) at 1. rewrite drop_drop. do 2 f_equal. lia. }
  destruct (trim_right_split (trim_left seg)) as (w2 & Hw2 & Hs2). change (trim_right (trim_left seg)) with (trim seg) in Hw2.
  rewrite <- Hts in Hw2. assert (trim_left seg ≠ []) as Hne by (rewrite Hw2; by destruct t).
  exists (take b0 value), (leading_space seg), w2, (drop b1 value).
  assert (leading_space seg ++ t ++ w2 = seg) as Hseg by (rewrite <- Hw2; apply leading_space_split).
  rewrite Hseg. split_and!; try done.
  - by rewrite <- Hd, take_drop.
  - apply leading_space_spaces.
  - unfold chosen_value. rewrite Hb. cbn [fst snd]. destruct (Z.eqb_spec (Z.of_nat b0) (-1)); [lia|].
    unfold substr, substr_from, slice_end.
    destruct (Z.ltb_spec (Z.of_nat b0) 0), (Z.ltb_spec (Z.of_nat b1) 0); [lia..|]. cbn [Z.ltb Z.compare].
    rewrite !Nat2Z.id, !(Nat.min_l _ (length value)) by lia. cbn [Z.to_nat]. rewrite drop_0, Hd, leading_space_app by done. done.
  - intros c [j Hj]%list_elem_of_lookup. unfold seg in Hj. apply lookup_take_Some in Hj as [Hj Hlt].
    rewrite lookup_drop in Hj. apply (Hin (b0 + j)%nat); [lia|done].
  - rewrite length_take. lia.
  - destruct (proj2 Hplace) as [Hpl|Hpl]; [left|right; by rewrite Hpl, drop_all].
    rewrite length_app. unfold seg. rewrite !length_take, length_drop. lia.
Qed.
End bounds.

(** ** What is offered *)

Section offered.
Context (o : local_options) (entry : jsstr).
Implicit Types (elem : jsstr).

Definition folded (s : jsstr) : jsstr := if ignoreCase o then toLowerCase s else s.
Definition occurs elem (i : nat) : bool := is_prefix (folded entry) (drop i (folded elem)).

(** An entry that the element begins with, and is longer than, is offered as
    a beginning; otherwise the first occurrence that may be offered inside. *)
Definition offered elem : offer :=
  if occurs elem 0 && negb (length elem =? length entry)%nat then Beginning (beginning_item entry elem)
  else match List.find (λ i, occurs elem i && inside_ok o entry elem (Z.of_nat i)) (seq 0 (length elem)) with
       | Some i => Inside (inside_item entry elem (Z.of_nat i))
       | None => NoOffer
       end.
Definition beginnings (l : list jsstr) : list jsstr :=
  omap (λ elem, match offered elem with Beginning item => Some item | _ => None end) l.
Definition insides (l : list jsstr) : list jsstr :=
  omap (λ elem, match offered elem with Inside item => Some item | _ => None end) l.

Lemma folded_length s : length (folded s) = length s.
Proof. unfold folded, toLowerCase. by case_match; rewrite ?length_fmap. Qed.

Lemma index_from_spec (p s : jsstr) i :
  match index_from p s i with
  | Some k => ∃ j, k = (i + j)%nat ∧ (j ≤ length s)%nat ∧ is_prefix p (drop j s) = true ∧
      ∀ j', (j' < j)%nat → is_prefix p (drop j' s) = false
  | None => ∀ j, is_prefix p (drop j s) = false
  end.
Proof.
  revert i. induction s as [|d s IH]; intros i; cbn [index_from]; destruct (is_prefix p _) eqn:E.
  - exists 0%nat. split_and!; [lia|lia|done|lia].
  - intros j. by rewrite drop_nil.
  - exists 0%nat. split_and!; [lia|cbn; lia|done|lia].
  - specialize (IH (S i)). destruct (index_from p s (S i)) as [k|].
    + destruct IH as (j & -> & Hl & Hj & Hlt). exists (S j). split_and!; [lia|cbn; lia|done|].
      intros [|j'] Hj'; cbn [drop]; [done|apply Hlt; lia].
    + intros [|j]; cbn [drop]; [done|apply IH].
Qed.

(** [find_entry] from an index: the next occurrence. *)
Lemma find_entry_spec elem i : (i ≤ length elem)%nat →
  find_entry o entry elem (Z.of_nat i) = -1 ∧ (∀ j, (i ≤ j)%nat → occurs elem j = false) ∨
  ∃ k, find_entry o entry elem (Z.of_nat i) = Z.of_nat k ∧ (i ≤ k ≤ length elem)%nat ∧ occurs elem k = true ∧
    ∀ j, (i ≤ j < k)%nat → occurs elem j = false.
Proof.
  intros Hi.
  assert (find_entry o entry elem (Z.of_nat i) = index_or_minus1 (index_from (folded entry) (drop i (folded elem)) i)) as ->.
  { unfold find_entry, folded, indexOf_from.
    destruct (ignoreCase o); rewrite Nat2Z.id, Nat.min_l; unfold toLowerCase; rewrite ?length_fmap; done. }
  pose proof (index_from_spec (folded entry) (drop i (folded elem)) i) as Hs.
  destruct (index_from _ _ i) as [k|]; cbn.
  - right. destruct Hs as (j & -> & Hl & Hj & Hlt). rewrite length_drop, folded_length in Hl.
    rewrite drop_drop in Hj. exists (i + j)%nat. split_and!; [done|lia|lia|done|].
    intros j' Hj'. specialize (Hlt (j' - i)%nat). rewrite drop_drop in Hlt.
    unfold occurs. replace j' with (i + (j' - i))%nat by lia. apply Hlt. lia.
  - left. split; [done|]. intros j Hj. specialize (Hs (j - i)%nat). rewrite drop_drop in Hs.
    unfold occurs. by replace j with (i + (j - i))%nat by lia.
Qed.

Lemma occurs_inside elem k : entry ≠ [] → occurs elem k = true → (k < length elem)%nat.
Proof.
  intros He Hk. apply is_prefix_spec in Hk as [t Ht]. apply (f_equal length) in Ht.
  rewrite length_drop, length_app, !folded_length in Ht. destruct entry; [done|]. cbn in Ht. lia.
Qed.

Lemma find_none (p : nat → bool) i n : (∀ j, (i ≤ j < i + n)%nat → p j = false) → List.find p (seq i n) = None.
Proof.
  revert i. induction n as [|n IH]; intros i Hp; [done|]. cbn. rewrite Hp by lia. apply IH. intros j Hj. apply Hp. lia.
Qed.
Lemma find_skip (p : nat → bool) i k n : (i ≤ k < n)%nat → (∀ j, (i ≤ j < k)%nat → p j = false) →
  List.find p (seq i (n - i)) = if p k then Some k else List.find p (seq (S k) (n - S k)).
Proof.
  intros Hk Hp. remember (k - i)%nat as m eqn:Hm. revert i Hk Hp Hm. induction m as [|m IH]; intros i Hk Hp Hm.
  - replace i with k by lia. replace (n - k)%nat with (S (n - S k)) by lia. done.
  - replace (n - i)%nat with (S (n - S i)) by lia. cbn. rewrite Hp by lia. apply IH; [lia| |lia]. intros j Hj. apply Hp. lia.
Qed.

Lemma offer_loop_run elem fuel i : entry ≠ [] → (i ≤ length elem)%nat → (length elem - i < fuel)%nat →
  (i = 0%nat → occurs elem 0 && negb (length elem =? length entry)%nat = false) →
  offer_loop o entry fuel elem (find_entry o entry elem (Z.of_nat i)) =
  Some match List.find (λ i, occurs elem i && inside_ok o entry elem (Z.of_nat i)) (seq i (length elem - i)) with
       | Some i => Inside (inside_item entry elem (Z.of_nat i))
       | None => NoOffer
       end.
Proof.
  intros He. revert i. induction fuel as [|fuel IH]; intros i Hi Hf H0; [lia|]. cbn [offer_loop].
  destruct (find_entry_spec elem i Hi) as [[-> Hn]|(k & -> & Hk & Hoc & Hn)].
  { rewrite find_none; [done|]. intros j Hj. by rewrite Hn by lia. }
  pose proof (occurs_inside elem k He Hoc) as Hlt.
  destruct (Z.eqb_spec (Z.of_nat k) (-1)); [lia|].
  assert ((Z.of_nat k =? 0) && negb (length elem =? length entry)%nat = false) as ->.
  { destruct (Z.eqb_spec (Z.of_nat k) 0); [|done]. assert (k = 0%nat) as -> by lia. rewrite Hoc in H0. apply H0. lia. }
  rewrite (find_skip _ i k) by (lia || (intros j Hj; by rewrite Hn)). rewrite Hoc. cbn [andb].
  destruct (inside_ok o entry elem (Z.of_nat k)); [done|].
  replace (Z.of_nat k + 1) with (Z.of_nat (S k)) by lia. apply IH; lia.
Qed.

Lemma offer_of_run elem : entry ≠ [] ∨ elem ≠ [] → offer_of o entry elem = Some (offered elem).
Proof.
  intros Hne. unfold offer_of, offered.
  destruct (occurs elem 0 && negb (length elem =? length entry)%nat) eqn:E.
  - cbn [offer_loop]. change 0 with (Z.of_nat 0) at 1 2. apply andb_true_iff in E as [Hoc Hl].
    destruct (find_entry_spec elem 0) as [[_ Hn]|(k & -> & Hk & _ & Hn)]; [lia|by rewrite Hn in Hoc by lia|].
    destruct k as [|k]; [|by rewrite Hn in Hoc by lia]. cbn [Z.eqb Z.of_nat]. by rewrite Hl.
  - destruct (decide (entry = [])) as [He|He].
    { unfold occurs in E. destruct Hne as [|Hne]; [done|]. rewrite He in E. unfold folded in E.
      destruct elem; [done|]. by destruct (ignoreCase o). }
    rewrite (offer_loop_run elem _ 0) by (lia || done). by rewrite Nat.sub_0_r.
Qed.

Lemma offers_run l ret partial : (∀ elem, elem ∈ l → entry ≠ [] ∨ elem ≠ []) → (length ret ≤ choices o)%nat → ∃ r p,
  offers o entry l ret partial = Some (r, p) ∧ (length r ≤ choices o)%nat ∧
  take (choices o) (r ++ p) = take (choices o) ((ret ++ beginnings l) ++ partial ++ insides l).
Proof.
  revert ret partial. induction l as [|elem l IH]; intros ret partial Hl Hr; cbn [offers].
  { exists ret, partial. cbn. by rewrite !app_nil_r. }
  destruct (Nat.ltb_spec (length ret) (choices o)) as [Hlt|Hge].
  2: { exists ret, partial. split_and!; [done|lia|]. rewrite <- !app_assoc, !take_app_le by lia. done. }
  rewrite offer_of_run by (apply Hl; left). cbn.
  assert (∀ elem, elem ∈ l → entry ≠ [] ∨ elem ≠ []) as Hl' by (intros e' ?; apply Hl; by right).
  destruct (offered elem) as [item|item|].
  - destruct (IH (ret ++ [item]) partial Hl') as (r & p & Ho & Hlen & Ht); [rewrite length_app; cbn; lia|].
    exists r, p. split_and!; [done..|]. rewrite Ht. by rewrite <- (app_assoc ret).
  - destruct (IH ret (partial ++ [item]) Hl' Hr) as (r & p & Ho & Hlen & Ht).
    exists r, p. split_and!; [done..|]. rewrite Ht. by rewrite <- (app_assoc partial).
  - by apply IH.
Qed.

(** The choices offered for a token: the elements that begin with it, then
    those in which it begins a word (or is found anywhere, when asked for), in
    the order of the array and no more than [choices]. *)
Theorem local_choices : entry ≠ [] ∨ [] ∉ array o →
  local_selector o entry =
  Some (js "<ul>" ++ join [] (take (choices o) (beginnings (array o) ++ insides (array o))) ++ js "</ul>").
Proof.
  intros Hne. unfold local_selector.
  destruct (offers_run (array o) [] []) as (r & p & -> & Hr & Ht); [|cbn; lia|].
  { intros elem Hin. destruct Hne as [|Hne]; [by left|]. right. by intros ->. }
  cbn [mbind option_bind]. do 2 f_equal. cbn in Ht. rewrite <- Ht. f_equal.
  rewrite take_app, (take_ge r) by lia. destruct p as [|x p]; cbn [length Nat.ltb Nat.leb]; [by rewrite take_nil, app_nil_r|].
  unfold slice, slice_end. destruct (Z.ltb_spec (Z.of_nat (choices o) - Z.of_nat (length r)) 0); [lia|].
  cbn [Z.ltb Z.compare]. rewrite Nat.min_0_l, drop_0, Nat.sub_0_r. f_equal.
  replace (Z.to_nat (Z.of_nat (choices o) - Z.of_nat (length r))) with (choices o - length r)%nat by lia.
  destruct (Nat.le_ge_cases (choices o - length r) (length (x :: p))).
  - by rewrite Nat.min_l.
  - by rewrite Nat.min_r, !take_ge.
Qed.
End offered.

Lemma choice_replaces_token_witness :
  let value := js "anna, bo , carl" in let old := js "anna, b , carl" in
  let b := token_bounds ((λ c, [c]) <$> js ",;") value old in
  token_text b value ≠ [] ∧ (place_of value old = 0 → ∀ c, head value = Some c → c ∉ js ",;") ∧ ∃ pre w1 w2 post,
  value = pre ++ (w1 ++ token_text b value ++ w2) ++ post ∧ spaces w1 ∧ spaces w2 ∧
  chosen_value b value (js "Bob") = pre ++ w1 ++ js "Bob" ++ post ∧
  (∀ c, c ∈ w1 ++ token_text b value ++ w2 → c ∉ js ",;") ∧
  (∀ c, last pre = Some c → c ∈ js ",;") ∧ (∀ c, head post = Some c → c ∈ js ",;") ∧
  Z.of_nat (length pre) ≤ place_of value old ∧
  (place_of value old ≤ Z.of_nat (length (pre ++ w1 ++ token_text b value ++ w2)) ∨ post = []).
Proof.
  intros value old b.
  assert (token_text b value ≠ []) as Ht by (vm_compute; discriminate).
  assert (place_of value old = 0 → ∀ c, head value = Some c → c ∉ js ",;") as H0 by (vm_compute; discriminate).
  split; [exact Ht|]. split; [exact H0|]. exact (choice_replaces_token (js ",;") value old (js "Bob") Ht H0).
Defined.

Example chosen_bob :
  chosen_value (token_bounds [js ","] (js "anna, bo , carl") (js "anna, b , carl")) (js "anna, bo , carl") (js "Bob") =
  js "anna, Bob, carl".
Proof. vm_compute. reflexivity. Qed.

Definition default_local (l : list jsstr) : local_options := LocalOptions 10 true 2 true false l.
Definition cities : list jsstr := [js "New Orleans"; js "Orlando"; js "Florence"; js "New York"; js "Laos"].

Lemma local_choices_witness :
  (js "or" ≠ [] ∨ [] ∉ array (default_local cities)) ∧
  local_selector (default_local cities) (js "or") =
  Some (js "<ul>" ++ join [] (take (choices (default_local cities))
    (beginnings (default_local cities) (js "or") (array (default_local cities)) ++
     insides (default_local cities) (js "or") (array (default_local cities)))) ++ js "</ul>").
Proof.
  assert (js "or" ≠ [] ∨ [] ∉ array (default_local cities)) as H by (left; vm_compute; discriminate).
  split; [exact H|exact (local_choices (default_local cities) (js "or") H)].
Defined.

Example or_cities : local_selector (default_local cities) (js "or") =
  Some (js "<ul><li><strong>Or</strong>lando</li><li>New <strong>Or</strong>leans</li></ul>").
Proof. vm_compute. reflexivity. Qed.

(** ** Limits of the code *)

(** The empty token and an empty choice: the loop never ends. *)
Lemma empty_choice_hangs fuel l : offer_loop (default_local l) [] fuel [] (find_entry (default_local l) [] [] 0) = None.
Proof. change (find_entry _ _ _ _) with 0. induction fuel as [|fuel IH]; [done|]. cbn. apply IH. Qed.

(** A delimiter typed at the start of the field: the token is taken to be the
    delimiter, and a choice for it doubles the delimiter. *)
Example delimiter_first :
  token_bounds [js ","] (js ",abc") (js "abc") = (1, 0) ∧
  token_text (1, 0) (js ",abc") = js "," ∧ chosen_value (1, 0) (js ",abc") (js "x") = js ",x,abc".
Proof. by vm_compute. Qed.

(** A delimiter of two characters: the second one belongs to the token. *)
Example long_delimiter :
  token_bounds [js "--"] (js "a--bc") (js "a--b") = (2, 5) ∧ token_text (2, 5) (js "a--bc") = js "-bc".
Proof. by vm_compute. Qed.
