(* ===== verification/Autocomplete.v ===== *)
(** * Autocompletion (controls.js: Autocompleter)

    A field with a menu of choices.  The state is the object's and the page's:
    the field's value is kept apart ([a_value]), the menu is in the document.
    Timers that are set wait in the state ([a_observer], [a_hides]).  The
    frames that cover the page in Internet Explorer ([iefix]) are left out. *)

From Stdlib Require Import ZArith.
From S2P Require Import Prelude JsBase JsNum JsUri Enumerable Strings Dom Selector SelectorSpec AutoText.
#[local] Open Scope Z_scope.
#[local] Open Scope stdpp_scope.

(** ** Text of elements (effects.js) *)

(** [fuel] exceeds the depth of the tree. *)
Fixpoint collectTextNodes (fuel : nat) (d : dom) (e : nid) : jsstr :=
  match fuel with
  | O => []
  | S fuel => child_list d (Some e) ≫= λ c,
      match kind <$> d !! c with Some (NText v) => v | _ => collectTextNodes fuel d c end
  end.
Fixpoint collectTextNodesIgnoreClass (fuel : nat) (d : dom) (e : nid) (name : jsstr) : jsstr :=
  match fuel with
  | O => []
  | S fuel => child_list d (Some e) ≫= λ c,
      match d !! c with
      | Some n =>
          match kind n with
          | NText v => v
          | _ => if negb (bool_decide (childNodes n = [])) && negb (has_class (className n) name)
                 then collectTextNodesIgnoreClass fuel d c name else []
          end
      | None => []
      end
  end.

(** ** Options and state *)

Record ac_options := AcOptions {
  o_tokens : list jsstr; o_minChars : Z; o_select : option jsstr; o_autoSelect : bool; o_indicator : option nid }.

(** [options.tokens]: missing, a text or an array. *)
Definition normal_tokens (tokens : option (jsstr + list jsstr)) : list jsstr :=
  let l := match tokens with Some (inl []) | None => [] | Some (inl t) => [t] | Some (inr l) => l end in
  if bool_decide ([10%N] ∈ l) then l else l ++ [[10%N]].
(** [options.minChars || 1] *)
Definition normal_minChars (minChars : option Z) : Z :=
  match minChars with None | Some 0 => 1 | Some z => z end.

(** [a_index]: [undefined] is [None]; [autocompleteIndex]: that property of
    elements; [a_watched]: the elements whose mouse events are observed;
    [a_observer]: whether the timer of [observer] is set, [a_hides]: the timers
    set by [onBlur]; [a_requests]: the parameters of the requests sent. *)
Record autocompleter := Autocompleter {
  a_hasFocus : bool; a_changed : bool; a_active : bool;
  a_index : option Z; a_entryCount : nat;
  a_value : jsstr; a_old : jsstr; a_bounds : option (Z * Z);
  autocompleteIndex : gmap nid Z; a_watched : gset nid;
  a_observer : bool; a_hides : nat; a_requests : list jsstr;
  a_page : sel;
}.
Definition set_hasFocus b s := Autocompleter b (a_changed s) (a_active s) (a_index s) (a_entryCount s) (a_value s) (a_old s) (a_bounds s)
  (autocompleteIndex s) (a_watched s) (a_observer s) (a_hides s) (a_requests s) (a_page s).
Definition set_changed b s := Autocompleter (a_hasFocus s) b (a_active s) (a_index s) (a_entryCount s) (a_value s) (a_old s) (a_bounds s)
  (autocompleteIndex s) (a_watched s) (a_observer s) (a_hides s) (a_requests s) (a_page s).
Definition set_menu_active b s := Autocompleter (a_hasFocus s) (a_changed s) b (a_index s) (a_entryCount s) (a_value s) (a_old s) (a_bounds s)
  (autocompleteIndex s) (a_watched s) (a_observer s) (a_hides s) (a_requests s) (a_page s).
Definition set_index i s := Autocompleter (a_hasFocus s) (a_changed s) (a_active s) i (a_entryCount s) (a_value s) (a_old s) (a_bounds s)
  (autocompleteIndex s) (a_watched s) (a_observer s) (a_hides s) (a_requests s) (a_page s).
Definition set_entryCount n s := Autocompleter (a_hasFocus s) (a_changed s) (a_active s) (a_index s) n (a_value s) (a_old s) (a_bounds s)
  (autocompleteIndex s) (a_watched s) (a_observer s) (a_hides s) (a_requests s) (a_page s).
Definition set_field_value v s := Autocompleter (a_hasFocus s) (a_changed s) (a_active s) (a_index s) (a_entryCount s) v (a_old s) (a_bounds s)
  (autocompleteIndex s) (a_watched s) (a_observer s) (a_hides s) (a_requests s) (a_page s).
Definition set_old v s := Autocompleter (a_hasFocus s) (a_changed s) (a_active s) (a_index s) (a_entryCount s) (a_value s) v (a_bounds s)
  (autocompleteIndex s) (a_watched s) (a_observer s) (a_hides s) (a_requests s) (a_page s).
Definition set_bounds b s := Autocompleter (a_hasFocus s) (a_changed s) (a_active s) (a_index s) (a_entryCount s) (a_value s) (a_old s) b
  (autocompleteIndex s) (a_watched s) (a_observer s) (a_hides s) (a_requests s) (a_page s).
Definition set_entry_index e i s := Autocompleter (a_hasFocus s) (a_changed s) (a_active s) (a_index s) (a_entryCount s) (a_value s) (a_old s) (a_bounds s)
  (<[e := i]> (autocompleteIndex s)) (a_watched s) (a_observer s) (a_hides s) (a_requests s) (a_page s).
Definition watch e s := Autocompleter (a_hasFocus s) (a_changed s) (a_active s) (a_index s) (a_entryCount s) (a_value s) (a_old s) (a_bounds s)
  (autocompleteIndex s) ({[e]} ∪ a_watched s) (a_observer s) (a_hides s) (a_requests s) (a_page s).
Definition set_observer b s := Autocompleter (a_hasFocus s) (a_changed s) (a_active s) (a_index s) (a_entryCount s) (a_value s) (a_old s) (a_bounds s)
  (autocompleteIndex s) (a_watched s) b (a_hides s) (a_requests s) (a_page s).
Definition set_hides n s := Autocompleter (a_hasFocus s) (a_changed s) (a_active s) (a_index s) (a_entryCount s) (a_value s) (a_old s) (a_bounds s)
  (autocompleteIndex s) (a_watched s) (a_observer s) n (a_requests s) (a_page s).
Definition send p s := Autocompleter (a_hasFocus s) (a_changed s) (a_active s) (a_index s) (a_entryCount s) (a_value s) (a_old s) (a_bounds s)
  (autocompleteIndex s) (a_watched s) (a_observer s) (a_hides s) (a_requests s ++ [p]) (a_page s).
Definition set_page p s := Autocompleter (a_hasFocus s) (a_changed s) (a_active s) (a_index s) (a_entryCount s) (a_value s) (a_old s) (a_bounds s)
  (autocompleteIndex s) (a_watched s) (a_observer s) (a_hides s) (a_requests s) p.

(** What [baseInitialize] leaves, apart from the options: the menu is hidden. *)
Definition new_autocompleter (update : nid) (value : jsstr) (page : sel) : autocompleter :=
  Autocompleter false false false (Some 0) 0 value value None ∅ ∅ false 0 []
    (set_sdom (Dom.hide update (sdom page)).2 page).

(** [Event.KEY_...] *)
Definition KEY_TAB : Z := 9.
Definition KEY_RETURN : Z := 13.
Definition KEY_ESC : Z := 27.
Definition KEY_LEFT : Z := 37.
Definition KEY_UP : Z := 38.
Definition KEY_RIGHT : Z := 39.
Definition KEY_DOWN : Z := 40.

#[local] Abbreviation AC := (JS autocompleter).
Definition on_sel {A} (m : JS sel A) : AC A := λ s, let '(r, p) := m (a_page s) in (r, set_page p s).
Definition on_doc {A} (m : D A) : AC A := on_sel (on_dom m).

(** ** Operations *)

Section autocompleter.
Context `{SelectorHost} (computed : dom → nid → jsstr → option jsstr).
(** [set_html]: assignment to [innerHTML]; [onShow], [onHide],
    [updateElement], [afterUpdateElement]: the options of these names. *)
Context (set_html : nid → jsstr → D ()) (onShow onHide : D ()).
Context (opt_updateElement opt_afterUpdateElement : option (option nid → AC ())).
Context (update : nid) (o : ac_options).

Definition stopIndicator : AC () := match o_indicator o with Some e => on_doc (Dom.hide e) | None => mret () end.
Definition startIndicator : AC () := match o_indicator o with Some e => on_doc (Dom.show e) | None => mret () end.

Definition menu_show : AC () :=
  display ← on_doc (getStyle computed update (js "display"));
  if bool_decide (display = Some (js "none")) then on_doc onShow else mret ().
Definition menu_hide : AC () :=
  stopIndicator ;;
  display ← on_doc (getStyle computed update (js "display"));
  if bool_decide (display ≠ Some (js "none")) then on_doc onHide else mret ().

(** [this.update.firstChild.childNodes[index]] *)
Definition getEntry (index : option Z) : AC (option nid) :=
  s ← js_get;
  match firstChild (sdom (a_page s)) update with
  | None => js_throw ETypeError
  | Some u =>
      mret (match index with
            | Some i => if i <? 0 then None else child_list (sdom (a_page s)) (Some u) !! Z.to_nat i
            | None => None
            end)
  end.
Definition getCurrentEntry : AC (option nid) := s ← js_get; getEntry (a_index s).

Definition render_entry (i : nat) : AC () :=
  s ← js_get;
  entry ← getEntry (Some (Z.of_nat i));
  match entry with
  | None => mret ()
  | Some e => on_doc (if decide (a_index s = Some (Z.of_nat i)) then addClassName e (js "selected")
                      else removeClassName e (js "selected"))
  end.
Definition menu_render : AC () :=
  s ← js_get;
  if (0 <? a_entryCount s)%nat then
    js_each (seq 0 (a_entryCount s)) render_entry ;;
    s ← js_get;
    if a_hasFocus s then menu_show ;; js_modify (set_menu_active true) else mret ()
  else js_modify (set_menu_active false) ;; menu_hide.

(** A method called on an entry; [scrollIntoView] changes nothing here. *)
Definition scrollIntoView (entry : option nid) : AC () :=
  match entry with None => js_throw ETypeError | Some _ => mret () end.
Definition markPrevious : AC () :=
  s ← js_get;
  js_modify (set_index (match a_index s with
                        | Some i => if 0 <? i then Some (i - 1) else Some (Z.of_nat (a_entryCount s) - 1)
                        | None => Some (Z.of_nat (a_entryCount s) - 1)
                        end)) ;;
  entry ← getCurrentEntry; scrollIntoView entry.
Definition markNext : AC () :=
  s ← js_get;
  js_modify (set_index (match a_index s with
                        | Some i => if i <? Z.of_nat (a_entryCount s) - 1 then Some (i + 1) else Some 0
                        | None => Some 0
                        end)) ;;
  entry ← getCurrentEntry; scrollIntoView entry.

Definition getTokenBounds : AC (Z * Z) :=
  s ← js_get;
  match a_bounds s with
  | Some b => mret b
  | None =>
      let b := token_bounds (o_tokens o) (a_value s) (a_old s) in
      if empty (strip (a_value s)) then mret b
      else js_modify (set_bounds (Some b)) ;; mret b
  end.
Definition getToken : AC jsstr :=
  bounds ← getTokenBounds; s ← js_get; mret (token_text bounds (a_value s)).

(** The text of the chosen entry. *)
Definition entry_value (selectedElement : option nid) : AC jsstr :=
  match selectedElement with
  | None => js_throw ETypeError
  | Some e =>
      match o_select o with
      | Some name =>
          nodes ← on_sel (select e [js "." ++ name]);
          s ← js_get;
          mret (match nodes with
                | x :: _ => collectTextNodes (node_count (sdom (a_page s))) (sdom (a_page s)) x
                | [] => []
                end)
      | None =>
          s ← js_get;
          mret (collectTextNodesIgnoreClass (node_count (sdom (a_page s))) (sdom (a_page s)) e (js "informal"))
      end
  end.
(** [updateElement]; giving the field the focus changes nothing here. *)
Definition updateElement (selectedElement : option nid) : AC () :=
  match opt_updateElement with
  | Some f => f selectedElement
  | None =>
      value ← entry_value selectedElement;
      bounds ← getTokenBounds;
      s ← js_get;
      js_modify (set_field_value (chosen_value bounds (a_value s) value)) ;;
      s ← js_get;
      js_modify (set_old (a_value s)) ;;
      match opt_afterUpdateElement with Some f => f selectedElement | None => mret () end
  end.
Definition selectEntry : AC () :=
  js_modify (set_menu_active false) ;;
  entry ← getCurrentEntry;
  updateElement entry.

Definition addObservers (entry : nid) : AC () := js_modify (watch entry).
Definition index_entry (i : nat) : AC () :=
  entry ← getEntry (Some (Z.of_nat i));
  match entry with
  | None => js_throw ETypeError
  | Some e => js_modify (set_entry_index e (Z.of_nat i)) ;; addObservers e
  end.
Definition updateChoices (choices : jsstr) : AC () :=
  s ← js_get;
  if negb (a_changed s) && a_hasFocus s then
    on_doc (set_html update choices) ;;
    on_doc (cleanWhitespace update) ;;
    below ← on_doc (down update None);
    match below with
    | None => js_throw ETypeError
    | Some u =>
        on_doc (cleanWhitespace u) ;;
        s ← js_get;
        below ← on_doc (down update None);
        match firstChild (sdom (a_page s)) update, below with
        | Some _, Some u =>
            let n := length (child_list (sdom (a_page s)) (Some u)) in
            js_modify (set_entryCount n) ;;
            js_each (seq 0 n) index_entry
        | Some _, None => js_throw ETypeError
        | None, _ => js_modify (set_entryCount 0)
        end ;;
        stopIndicator ;;
        js_modify (set_index (Some 0)) ;;
        s ← js_get;
        if (a_entryCount s =? 1)%nat && o_autoSelect o then selectEntry ;; menu_hide else menu_render
    end
  else mret ().

(** *** Events *)

(** [getUpdatedChoices] is the method of the subclass. *)
Context (getUpdatedChoices : AC ()).

(** [onKeyPress]: whether the event is stopped. *)
Definition onKeyPress (webkit : bool) (keyCode : Z) : AC bool :=
  s ← js_get;
  let typed : AC bool :=
    js_modify (set_changed true) ;; js_modify (set_hasFocus true) ;; js_modify (set_observer true) ;; mret false in
  let leave : AC bool := menu_hide ;; js_modify (set_menu_active false) ;; mret true in
  if a_active s then
    if (keyCode =? KEY_TAB) || (keyCode =? KEY_RETURN) then selectEntry ;; leave
    else if keyCode =? KEY_ESC then leave
    else if (keyCode =? KEY_LEFT) || (keyCode =? KEY_RIGHT) then mret false
    else if keyCode =? KEY_UP then markPrevious ;; menu_render ;; mret true
    else if keyCode =? KEY_DOWN then markNext ;; menu_render ;; mret true
    else typed
  else if (keyCode =? KEY_TAB) || (keyCode =? KEY_RETURN) || webkit && (keyCode =? 0) then mret false
  else typed.

Definition menu_activate : AC () :=
  js_modify (set_changed false) ;; js_modify (set_hasFocus true) ;; getUpdatedChoices.

(** [element] is what [Event.findElement(event, 'LI')] returns. *)
Definition menu_onHover (element : option nid) : AC () :=
  match element with
  | None => js_throw ETypeError
  | Some e =>
      s ← js_get;
      if decide (a_index s = autocompleteIndex s !! e) then mret ()
      else js_modify (set_index (autocompleteIndex s !! e)) ;; menu_render
  end.
Definition onClick (element : option nid) : AC () :=
  match element with
  | None => js_throw ETypeError
  | Some e =>
      s ← js_get;
      js_modify (set_index (autocompleteIndex s !! e)) ;;
      selectEntry ;; menu_hide
  end.
Definition onBlur : AC () :=
  js_modify (λ s, set_hides (S (a_hides s)) s) ;;
  js_modify (set_hasFocus false) ;; js_modify (set_menu_active false).

Definition onObserverEvent : AC () :=
  js_modify (set_changed false) ;;
  js_modify (set_bounds None) ;;
  token ← getToken;
  (if o_minChars o <=? Z.of_nat (length token) then getUpdatedChoices
   else js_modify (set_menu_active false) ;; menu_hide) ;;
  s ← js_get; js_modify (set_old (a_value s)).

(** The timers run. *)
Definition observer_timer : AC () := js_modify (set_observer false) ;; onObserverEvent.
Definition hide_timer : AC () := js_modify (λ s, set_hides (pred (a_hides s)) s) ;; menu_hide.
End autocompleter.

(** ** The subclasses *)

Section subclasses.
Context `{SelectorHost} (computed : dom → nid → jsstr → option jsstr).
Context (set_html : nid → jsstr → D ()) (onShow onHide : D ()).
Context (opt_updateElement opt_afterUpdateElement : option (option nid → AC ())).
Context (update : nid) (o : ac_options).

(** [Autocompleter.Local] *)
Definition local_getUpdatedChoices (lo : local_options) : AC () :=
  entry ← getToken o;
  match local_selector lo entry with
  | Some choices => updateChoices computed set_html onShow onHide opt_updateElement opt_afterUpdateElement update o choices
  | None => js_throw ERangeError
  end.

(** [Ajax.Autocompleter]; [callback] and [defaultParams] are options; a name
    or a token that is no text of Unicode throws. *)
Definition ajax_getUpdatedChoices (paramName : jsstr) (callback : option (jsstr → jsstr)) (defaultParams : jsstr) : AC () :=
  startIndicator o ;;
  token ← getToken o;
  match encodeURIComponent paramName, encodeURIComponent token with
  | Some p, Some t =>
      let entry := p ++ js "=" ++ t in
      let parameters := match callback with Some f => f entry | None => entry end in
      let parameters := if bool_decide (defaultParams = []) then parameters else parameters ++ js "&" ++ defaultParams in
      js_modify (send parameters)
  | _, _ => js_throw EURIError
  end.
Definition ajax_onComplete (responseText : jsstr) : AC () :=
  updateChoices computed set_html onShow onHide opt_updateElement opt_afterUpdateElement update o responseText.
End subclasses.

(** ** What happens to a field *)

Inductive happening :=
  | KeyDown (keyCode : Z) | Typed (value : jsstr) | Blur | Hover (element : option nid) | Click (element : option nid)
  | ObserverTimer | HideTimer | Response (text : jsstr) | Activate.
Inductive source :=
  | FromArray (lo : local_options)
  | FromServer (paramName : jsstr) (callback : option (jsstr → jsstr)) (defaultParams : jsstr).

Section happenings.
Context `{SelectorHost} (computed : dom → nid → jsstr → option jsstr).
Context (set_html : nid → jsstr → D ()) (onShow onHide : D ()).
Context (opt_updateElement opt_afterUpdateElement : option (option nid → AC ())).
Context (update : nid) (o : ac_options) (src : source) (webkit : bool).

Definition getUpdatedChoices : AC () :=
  match src with
  | FromArray lo => local_getUpdatedChoices computed set_html onShow onHide opt_updateElement opt_afterUpdateElement update o lo
  | FromServer name callback params => ajax_getUpdatedChoices o name callback params
  end.
Definition handle (h : happening) : AC () :=
  match h with
  | KeyDown k => onKeyPress computed onShow onHide opt_updateElement opt_afterUpdateElement update o webkit k ;; mret ()
  | Typed v => js_modify (set_field_value v)
  | Blur => onBlur
  | Hover e => menu_onHover computed onShow onHide update o e
  | Click e => onClick computed onHide opt_updateElement opt_afterUpdateElement update o e
  | ObserverTimer => observer_timer computed onHide update o getUpdatedChoices
  | HideTimer => hide_timer computed onHide update o
  | Response text => ajax_onComplete computed set_html onShow onHide opt_updateElement opt_afterUpdateElement update o text
  | Activate => menu_activate getUpdatedChoices
  end.
End happenings.

(** ** The tree of the menu *)

(** What the menu is made of: the kinds of nodes and their children. *)
Definition tree_of (d : dom) : gmap nid (node_kind * list nid) := (λ n, (kind n, childNodes n)) <$> d.
Definition keeps_tree {A} (m : D A) : Prop := ∀ d, tree_of (m d).2 = tree_of d.

Lemma child_list_tree d p : child_list d (Some p) = match tree_of d !! p with Some (_, l) => l | None => [] end.
Proof. unfold child_list, tree_of. rewrite lookup_fmap. by destruct (d !! p). Qed.
Lemma firstChild_tree d p : firstChild d p = head (match tree_of d !! p with Some (_, l) => l | None => [] end).
Proof. unfold firstChild. by rewrite child_list_tree. Qed.

Lemma keeps_update_node e f : (∀ n, kind (f n) = kind n ∧ childNodes (f n) = childNodes n) → keeps_tree (update_node e f).
Proof.
  intros Hf d. unfold update_node. destruct (d !! e) as [n|] eqn:Hn; [|done]. cbn. unfold tree_of. apply map_eq. intros i.
  rewrite !lookup_fmap. destruct (decide (i = e)) as [->|Hi]; [|by rewrite lookup_insert_ne].
  rewrite lookup_insert_eq, Hn. cbn. by destruct (Hf n) as [-> ->].
Qed.
Lemma keeps_put_style e name value : keeps_tree (put_style e name value).
Proof. by apply keeps_update_node. Qed.
Lemma keeps_add_class e name : keeps_tree (addClassName e name).
Proof.
  intros d. unfold addClassName, get_node. js_unfold. destruct (d !! e) as [n|]; [|done].
  by apply (keeps_update_node e).
Qed.
Lemma keeps_remove_class e name : keeps_tree (removeClassName e name).
Proof.
  intros d. unfold removeClassName, get_node. js_unfold. destruct (d !! e) as [n|]; [|done].
  by apply (keeps_update_node e).
Qed.
Lemma keeps_getStyle computed e style : keeps_tree (getStyle computed e style).
Proof. intros d. unfold getStyle, get_node. js_unfold. by destruct (d !! e). Qed.

(** Removing the blank ones of distinct children. *)
Lemma clean_children p l (d0 d : dom) : (∀ c, c ∈ l → c ∈ child_list d (Some p) ∧ is_Some (d !! c) ∧ c ≠ p) → NoDup l →
  ∃ d', js_each l (λ c, js_when (blank_text d0 c) (removeChild p c)) d = (Ret (), d') ∧
  child_list d' (Some p) = filter (λ c, ¬ (c ∈ l ∧ blank_text d0 c = true)) (child_list d (Some p)) ∧
  (∀ q, q ≠ p → child_list d' (Some q) = child_list d (Some q)) ∧
  (∀ q, kind <$> d' !! q = kind <$> d !! q).
Proof.
  revert d. induction l as [|c l IH]; intros d Hl Hnd.
  { exists d. split_and!; try done. symmetry. apply filter_all. set_solver. }
  apply NoDup_cons in Hnd as [Hc Hnd]. destruct (Hl c (list_elem_of_here _ _)) as (Hin & He & Hne).
  cbn [js_each]. destruct (blank_text d0 c) eqn:Hb.
  - destruct (removeChild_run p c d Hin He (not_eq_sym Hne)) as (np & ne & Hp & Hce & Hr).
    set (d1 := <[c := _]> _) in Hr.
    assert (∀ q, child_list d1 (Some q) = if decide (q = p) then filter (λ x, x ≠ c) (child_list d (Some p)) else child_list d (Some q)) as Hch.
    { intros q. unfold child_list, d1. case_decide as Hq; [subst q|].
      - rewrite lookup_insert_ne, lookup_insert_eq, Hp by done. done.
      - destruct (decide (q = c)) as [->|Hqc]; [by rewrite lookup_insert_eq, Hce|by rewrite !lookup_insert_ne]. }
    assert (∀ q, kind <$> d1 !! q = kind <$> d !! q) as Hk.
    { intros q. unfold d1. destruct (decide (q = c)) as [->|Hqc]; [by rewrite lookup_insert_eq, Hce|].
      rewrite lookup_insert_ne by done. destruct (decide (q = p)) as [->|Hqp]; [by rewrite lookup_insert_eq, Hp|by rewrite lookup_insert_ne]. }
    destruct (IH d1) as (d' & Hr' & Hc' & Hq' & Hk'); [|done|].
    { intros x Hx. destruct (Hl x (list_elem_of_further _ _ _ Hx)) as (Hxin & [nx Hxe] & Hxp). split_and!; [| |done].
      - rewrite Hch, decide_True by done. apply list_elem_of_filter. split; [|done]. intros ->. done.
      - specialize (Hk x). rewrite Hxe in Hk. destruct (d1 !! x); [by eexists|done]. }
    exists d'. unfold js_when at 1. rewrite (js_bind_Ret _ _ _ _ _ Hr). split_and!; [done| | |].
    + rewrite Hc', Hch, decide_True, list_filter_filter by done. apply list_filter_iff. intros x.
      rewrite elem_of_cons. split; [intros [H1 H2]|intros H1; split]; try (intros ->); intuition congruence.
    + intros q Hq. rewrite Hq', Hch, decide_False by done. done.
    + intros q. by rewrite Hk', Hk.
  - destruct (IH d) as (d' & Hr' & Hc' & Hq' & Hk'); [intros x Hx; apply Hl; by right|done|].
    exists d'. rewrite (js_bind_Ret _ _ d () d) by done. split_and!; [done| |done|done].
    rewrite Hc'. apply list_filter_iff. intros x. rewrite elem_of_cons. split; intros H1 [H2 H3]; apply H1; [|tauto].
    destruct H2 as [->|]; [congruence|tauto].
Qed.

(** [cleanWhitespace] keeps the children that are not white space, in order. *)
Lemma cleanWhitespace_run p d : NoDup (child_list d (Some p)) → p ∉ child_list d (Some p) →
  (∀ c, c ∈ child_list d (Some p) → is_Some (d !! c)) → ∃ d',
  cleanWhitespace p d = (Ret (), d') ∧
  child_list d' (Some p) = filter (λ c, blank_text d c = false) (child_list d (Some p)) ∧
  (∀ q, q ≠ p → child_list d' (Some q) = child_list d (Some q)) ∧
  (∀ q, kind <$> d' !! q = kind <$> d !! q).
Proof.
  intros Hnd Hp Hex. unfold cleanWhitespace. rewrite js_bind_get.
  destruct (clean_children p (child_list d (Some p)) d d) as (d' & Hr & Hc & Hq & Hk); [|done|].
  { intros c Hc. split_and!; [done|by apply Hex|by intros ->]. }
  exists d'. split_and!; [done| |done|done]. rewrite Hc.
  apply filter_iff_on. intros x Hx. destruct (blank_text d x); naive_solver.
Qed.

(** ** The menu and its state *)

Section menu.
Context `{SelectorHost} (computed : dom → nid → jsstr → option jsstr).
Context (set_html : nid → jsstr → D ()) (onShow onHide : D ()).
Context (opt_updateElement opt_afterUpdateElement : option (option nid → AC ())).
Context (update : nid) (o : ac_options).

Definition entries (s : autocompleter) : list nid :=
  child_list (sdom (a_page s)) (firstChild (sdom (a_page s)) update).

(** The part of the state the menu depends on. *)
Definition view (s : autocompleter) :=
  (a_active s, a_index s, a_entryCount s, autocompleteIndex s, a_watched s, tree_of (sdom (a_page s))).
#[local] Abbreviation calm := (keeps_of view).

Lemma blank_text_tree d c : blank_text d c = match tree_of d !! c with Some (NText v, _) => blank v | _ => false end.
Proof. unfold blank_text, tree_of. rewrite lookup_fmap. by destruct (d !! c). Qed.

(** The entries are as many as counted, none is white space, and each knows
    its position; before the first choices there is none. *)
Record entries_ok (s : autocompleter) : Prop := {
  eo_update : is_Some (tree_of (sdom (a_page s)) !! update);
  eo_indicator : ∀ e, o_indicator o = Some e → is_Some (tree_of (sdom (a_page s)) !! e);
  eo_entries : (a_entryCount s = 0%nat ∧ a_watched s = ∅) ∨
    length (entries s) = a_entryCount s ∧ ∀ k e, entries s !! k = Some e →
      autocompleteIndex s !! e = Some (Z.of_nat k) ∧ blank_text (sdom (a_page s)) e = false;
}.
Definition in_range (s : autocompleter) : Prop := ∃ i, a_index s = Some i ∧ 0 ≤ i < Z.of_nat (a_entryCount s).
Definition menu_ok (s : autocompleter) : Prop := entries_ok s ∧ (a_active s = true → in_range s).

Lemma entries_view s s' : view s' = view s → entries s' = entries s.
Proof.
  intros [= _ _ _ _ _ Ht]. unfold entries. rewrite !firstChild_tree, Ht.
  destruct (head _) as [u|]; [|done]. by rewrite !child_list_tree, Ht.
Qed.
Lemma entries_ok_view s s' : view s' = view s → entries_ok s → entries_ok s'.
Proof.
  intros Hv [H1 H2 H3]. pose proof (entries_view _ _ Hv) as He. injection Hv as _ _ Hc Hi Hw Ht. split; rewrite ?Ht, ?He, ?Hc, ?Hi, ?Hw; [done..|].
  destruct H3 as [|[Hl Hx]]; [by left|]. right. split; [done|]. intros k e Hk. rewrite blank_text_tree, Ht, <- blank_text_tree. by apply Hx.
Qed.
Lemma in_range_view s s' : view s' = view s → in_range s → in_range s'.
Proof. intros [= _ Hi Hc _ _ _]. unfold in_range. by rewrite Hi, Hc. Qed.
Lemma menu_ok_view s s' : view s' = view s → menu_ok s → menu_ok s'.
Proof.
  intros Hv [Hok Ha]. split; [by apply entries_ok_view with s|]. pose proof (in_range_view _ _ Hv).
  injection Hv as Hac _ _ _ _ _. rewrite Hac. auto.
Qed.
Lemma calm_upholds {A} (m : AC A) : calm m → upholds menu_ok m.
Proof. intros Hm s. by apply menu_ok_view. Qed.

Lemma calm_doc {A} (m : D A) : keeps_tree m → calm (on_doc m).
Proof.
  intros Hm s. unfold on_doc, on_sel, on_dom. specialize (Hm (sdom (a_page s))). destruct (m _) as [r d]. unfold view. cbn in *.
  by rewrite Hm.
Qed.
(** Side conditions: what the options do is their own affair. *)
Hypotheses (Hshow : keeps_tree onShow) (Hhide : keeps_tree onHide) (Hselect : o_select o = None).
Hypotheses (Hcustom : ∀ f e, opt_updateElement = Some f → calm (f e)) (Hafter : ∀ f e, opt_afterUpdateElement = Some f → calm (f e)).

Ltac tree_kept :=
  match goal with
  | |- keeps_tree (addClassName _ _) => apply keeps_add_class
  | |- keeps_tree (removeClassName _ _) => apply keeps_remove_class
  | |- keeps_tree (getStyle _ _ _) => apply keeps_getStyle
  | |- keeps_tree (Dom.hide _) => apply keeps_put_style
  | |- keeps_tree (Dom.show _) => apply keeps_put_style
  | |- _ => assumption
  end.
Ltac calms :=
  keeping ltac:(fail);
  repeat (match goal with
    | |- keeps_of _ (on_doc (if _ then _ else _)) => case_match
    | |- keeps_of _ (on_doc _) => apply calm_doc; tree_kept
    end; keeping ltac:(fail)).

Lemma calm_stopIndicator : calm (stopIndicator o).
Proof. unfold stopIndicator. calms. Qed.
Lemma calm_show : calm (menu_show computed onShow update).
Proof. unfold menu_show. calms. Qed.
Lemma calm_hide : calm (menu_hide computed onHide update o).
Proof. unfold menu_hide. apply keeps_bind; [apply calm_stopIndicator|calms]. Qed.
Lemma calm_getEntry i : calm (getEntry update i).
Proof. unfold getEntry. calms. Qed.
Lemma calm_current : calm (getCurrentEntry update).
Proof. apply keeps_get. intros s. apply calm_getEntry. Qed.
Lemma calm_render_entry i : calm (render_entry update i).
Proof. unfold render_entry. apply keeps_get. intros s. apply keeps_bind; [apply calm_getEntry|calms]. Qed.
Lemma calm_bounds : calm (getTokenBounds o).
Proof. unfold getTokenBounds. calms. Qed.
Lemma calm_token : calm (getToken o).
Proof. unfold getToken. apply keeps_bind; [apply calm_bounds|calms]. Qed.
Lemma calm_updateElement e : calm (updateElement opt_updateElement opt_afterUpdateElement o e).
Proof.
  unfold updateElement, entry_value. rewrite Hselect. case_match; [by apply Hcustom|].
  apply keeps_bind; [calms|intros v]. apply keeps_bind; [apply calm_bounds|calms]. by apply Hafter.
Qed.

(** *** Parts of the handlers *)

Lemma inactive_ok s : entries_ok s → menu_ok (set_menu_active false s).
Proof. intros Hok. split; [|done]. destruct Hok as [H1 H2 H3]. by split. Qed.

Lemma selectEntry_ok s : entries_ok s → menu_ok (selectEntry opt_updateElement opt_afterUpdateElement update o s).2.
Proof.
  intros Hok. unfold selectEntry. rewrite js_bind_modify.
  apply calm_upholds; [|by apply inactive_ok]. apply keeps_bind; [apply calm_current|intros e; apply calm_updateElement].
Qed.

Lemma render_ok s : entries_ok s → ((0 < a_entryCount s)%nat → in_range s) → menu_ok (menu_render computed onShow onHide update o s).2.
Proof.
  intros Hok Hr. unfold menu_render. rewrite js_bind_get. destruct (Nat.ltb_spec 0 (a_entryCount s)) as [Hlt|Hle].
  - specialize (Hr Hlt). assert (menu_ok s) as Hs by done.
    assert (calm (js_each (seq 0 (a_entryCount s)) (render_entry update))) as Hc by (apply keeps_each; intros; apply calm_render_entry).
    unfold mbind at 1, js_mbind at 1. pose proof (Hc s) as Hv. destruct (js_each _ _ s) as [[[]|e] s1]; cbn in Hv; [|by apply menu_ok_view with s].
    rewrite js_bind_get. assert (menu_ok s1) as Hs1 by by apply menu_ok_view with s.
    destruct (a_hasFocus s1); [|done]. unfold mbind, js_mbind. pose proof (calm_show s1) as Hv1.
    destruct (menu_show _ _ _ s1) as [[[]|e] s2]; cbn in Hv1; [|by apply menu_ok_view with s1].
    assert (entries_ok s2 ∧ in_range s2) as [[H1 H2 H3] Hin].
    { split; [by apply entries_ok_view with s1; [|apply Hs1]|]. apply in_range_view with s1; [done|].
      by apply in_range_view with s. }
    cbn. split; [by split|]. intros _. exact Hin.
  - rewrite js_bind_modify. apply calm_upholds; [apply calm_hide|by apply inactive_ok].
Qed.

Lemma set_index_ok i s : entries_ok s → 0 ≤ i < Z.of_nat (a_entryCount s) → menu_ok (set_index (Some i) s).
Proof. intros [H1 H2 H3] Hi. split; [by split|]. intros _. by exists i. Qed.

Lemma ok_bind {A B} (m : AC A) (k : A → AC B) s : menu_ok (m s).2 →
  (∀ a s', m s = (Ret a, s') → menu_ok (k a s').2) → menu_ok ((m ≫= k) s).2.
Proof. intros Hm Hk. unfold mbind, js_mbind. destruct (m s) as [[a|e] s'] eqn:E; [by apply Hk|done]. Qed.

Lemma mark_ok i s : menu_ok s → 0 ≤ i < Z.of_nat (a_entryCount s) →
  let r := (js_modify (set_index (Some i)) ;; (entry ← getCurrentEntry update; scrollIntoView entry)) s in
  menu_ok r.2 ∧ in_range r.2.
Proof.
  intros [Hok _] Hi r. unfold r. rewrite js_bind_modify.
  assert (calm (getCurrentEntry update ≫= scrollIntoView)) as Hc.
  { apply keeps_bind; [apply calm_current|]. unfold scrollIntoView. calms. }
  specialize (Hc (set_index (Some i) s)). split; [apply menu_ok_view with (set_index (Some i) s); [done|by apply set_index_ok]|].
  apply in_range_view with (set_index (Some i) s); [done|]. by exists i.
Qed.

(** *** Choices *)

(** A menu: one element, with white space around it, whose children are the
    entries and white space between them. *)
Definition children_ok (d : dom) (p : nid) : Prop :=
  NoDup (child_list d (Some p)) ∧ (p ∉ child_list d (Some p)) ∧ (∀ c, c ∈ child_list d (Some p) → is_Some (d !! c)).
Definition menu_tree (d : dom) (u : nid) : Prop :=
  filter (λ c, blank_text d c = false) (child_list d (Some update)) = [u] ∧ element_at d u = true ∧
  children_ok d update ∧ children_ok d u.

(** [good] texts are those the browser makes such a menu of. *)
Context (good : jsstr → Prop).
Hypothesis Hhtml : ∀ d text, good text → is_Some (d !! update) → ∃ d' u,
  set_html update text d = (Ret (), d') ∧ menu_tree d' u ∧ ∀ q, is_Some (d !! q) → is_Some (d' !! q).

Lemma tree_is_Some d q : is_Some (tree_of d !! q) ↔ is_Some (d !! q).
Proof. unfold tree_of. rewrite lookup_fmap. apply fmap_is_Some. Qed.
Lemma kind_is_Some (d d' : dom) : (∀ q, kind <$> d' !! q = kind <$> d !! q) → ∀ q, is_Some (d !! q) → is_Some (d' !! q).
Proof. intros Hk q [n Hn]. specialize (Hk q). rewrite Hn in Hk. destruct (d' !! q); [by eexists|done]. Qed.
Lemma element_kind (d d' : dom) u : kind <$> d' !! u = kind <$> d !! u → element_at d' u = element_at d u.
Proof. unfold element_at, is_element. destruct (d !! u), (d' !! u); cbn; by try intros [= ->]. Qed.

Lemma blank_text_kind (d d' : dom) c : kind <$> d' !! c = kind <$> d !! c → blank_text d' c = blank_text d c.
Proof. unfold blank_text. destruct (d !! c), (d' !! c); cbn; by try intros [= ->]. Qed.

Lemma down_menu d u : child_list d (Some update) = [u] → element_at d u = true → down update None d = (Ret (Some u), d).
Proof.
  intros Hc Hu. unfold down, firstDescendant, js_gets, firstChild. rewrite Hc. cbn [head].
  assert (node_count d ≠ 0%nat) as Hn.
  { unfold element_at in Hu. destruct (d !! u) as [n|] eqn:E; [|done]. unfold node_count. intros Hz.
    apply map_size_empty_inv in Hz. subst. by rewrite lookup_empty in E. }
  destruct (node_count d); [done|]. cbn. by rewrite Hu.
Qed.

Lemma on_doc_run {A} (m : D A) s a d : m (sdom (a_page s)) = (Ret a, d) →
  on_doc m s = (Ret a, set_page (set_sdom d (a_page s)) s).
Proof. intros Hm. unfold on_doc, on_sel, on_dom. by rewrite Hm. Qed.

(** What the loop over the entries leaves. *)
Lemma index_entries_run l k s : NoDup (entries s) → is_Some (firstChild (sdom (a_page s)) update) → entries s = take k (entries s) ++ l → ∃ s',
  js_each (seq k (length l)) (index_entry update) s = (Ret (), s') ∧
  a_page s' = a_page s ∧ a_active s' = a_active s ∧ a_index s' = a_index s ∧ a_entryCount s' = a_entryCount s ∧
  ∀ e, autocompleteIndex s' !! e =
    match list_find (λ x, x = e) l with Some (i, _) => Some (Z.of_nat (k + i)) | None => autocompleteIndex s !! e end.
Proof.
  revert k s. induction l as [|e l IH]; intros k s Hnd [u Hu] Hl; [by exists s|].
  assert (entries s !! k = Some e) as Hk.
  { assert (k < length (entries s))%nat by (apply (f_equal length) in Hl; rewrite length_app, length_take in Hl; cbn in Hl; lia).
    rewrite Hl, lookup_app_r; rewrite length_take; [|lia]. by replace (k - k `min` _)%nat with 0%nat by lia. }
  cbn [length seq js_each].
  assert (index_entry update k s = (Ret (), watch e (set_entry_index e (Z.of_nat k) s))) as Hr.
  { unfold index_entry, getEntry. rewrite js_bind_assoc, js_bind_get, Hu. unfold entries in Hk. rewrite Hu in Hk.
    destruct (Z.ltb_spec (Z.of_nat k) 0); [lia|]. rewrite js_bind_ret, Nat2Z.id, Hk. done. }
  rewrite (js_bind_Ret _ _ _ _ _ Hr). set (s1 := watch e _).
  destruct (IH (S k) s1) as (s' & Hr' & Hp & Ha & Hi & Hc & Hx); [done|by exists u| |].
  { change (entries s1) with (entries s). rewrite (take_S_r _ _ e) by done. by rewrite <- app_assoc. }
  exists s'. split_and!; [done..|]. intros x. rewrite Hx. cbn [list_find]. unfold s1. cbn [autocompleteIndex watch set_entry_index].
  assert (e ∉ l) as Hne. { rewrite Hl in Hnd. apply NoDup_app in Hnd as (_ & _ & Hnd). by apply NoDup_cons in Hnd as [? _]. }
  destruct (decide (e = x)) as [->|Hex].
  - assert (list_find (λ y, y = x) l = None) as ->.
    { apply list_find_None, Forall_forall. by intros y Hy ->. }
    by rewrite lookup_insert_eq, Nat.add_0_r.
  - rewrite lookup_insert_ne by done. destruct (list_find _ l) as [[i y]|]; cbn; [|done]. do 2 f_equal. lia.
Qed.

(** The tree after both calls of [cleanWhitespace]. *)
Lemma cleaned_menu d u : menu_tree d u → ∃ d1 d2,
  cleanWhitespace update d = (Ret (), d1) ∧ down update None d1 = (Ret (Some u), d1) ∧
  cleanWhitespace u d1 = (Ret (), d2) ∧ child_list d2 (Some update) = [u] ∧ element_at d2 u = true ∧
  NoDup (child_list d2 (Some u)) ∧ (∀ c, c ∈ child_list d2 (Some u) → blank_text d2 c = false) ∧
  ∀ q, is_Some (d !! q) → is_Some (d2 !! q).
Proof.
  intros (Hc & Hu & (Hnd0 & Hself0 & Hex0) & Hnd & Hself & Hex).
  assert (u ≠ update) as Hne.
  { intros ->. apply Hself0. assert (update ∈ [update]) as Hin by by left. rewrite <- Hc in Hin. by apply list_elem_of_filter in Hin as [_ ?]. }
  destruct (cleanWhitespace_run update d) as (d1 & Hr1 & Hc1 & Hq1 & Hk1); [done..|].
  rewrite Hc in Hc1. pose proof (element_kind d d1 u (Hk1 u)) as Hu1. rewrite Hu in Hu1.
  destruct (cleanWhitespace_run u d1) as (d2 & Hr2 & Hc2 & Hq2 & Hk2); rewrite ?(Hq1 u) by done.
  { done. }
  { done. }
  { intros c Hcu. apply (kind_is_Some d); auto. }
  exists d1, d2. split_and!; [done|by apply down_menu|done| | | | |].
  - by rewrite Hq2.
  - by rewrite (element_kind d1 d2 u (Hk2 u)).
  - rewrite Hc2, Hq1 by done. by apply NoDup_filter.
  - intros c. rewrite Hc2. intros [Hb _]%list_elem_of_filter. rewrite <- Hb. apply blank_text_kind, Hk2.
  - intros q Hq. by apply (kind_is_Some d1), (kind_is_Some d).
Qed.

Lemma list_find_nth (l : list nid) k e : NoDup l → l !! k = Some e → list_find (λ x, x = e) l = Some (k, e).
Proof.
  intros Hnd Hk. apply list_find_Some. split_and!; [done..|]. intros j y Hj Hlt ->.
  assert (j = k) as -> by by eapply NoDup_lookup. lia.
Qed.

Lemma stopIndicator_run s : entries_ok s → ∃ s', stopIndicator o s = (Ret (), s') ∧ view s' = view s.
Proof.
  intros [_ Hind _]. pose proof (calm_stopIndicator s) as Hv. unfold stopIndicator in *.
  destruct (o_indicator o) as [e|]; [|by exists s]. destruct (Hind e eq_refl) as [n Hn].
  assert (is_Some (sdom (a_page s) !! e)) as [m Hm] by (apply tree_is_Some; by eexists).
  assert (Dom.hide e (sdom (a_page s)) = (Ret (), <[e := style_put (js "display") (js "none") m]> (sdom (a_page s)))) as Hr.
  { unfold Dom.hide, put_style, update_node. by rewrite Hm. }
  apply on_doc_run in Hr. rewrite Hr in Hv |- *. by eexists.
Qed.

(** The end of [updateChoices]. *)
Lemma indexed_ok s : entries_ok s →
  menu_ok ((stopIndicator o ;; js_modify (set_index (Some 0)) ;; s ← js_get;
    if (a_entryCount s =? 1)%nat && o_autoSelect o
    then selectEntry opt_updateElement opt_afterUpdateElement update o ;; menu_hide computed onHide update o
    else menu_render computed onShow onHide update o) s).2.
Proof.
  intros Hok. destruct (stopIndicator_run s Hok) as (s1 & Hr & Hv). apply (entries_ok_view _ _ Hv) in Hok.
  rewrite (js_bind_Ret _ _ _ _ _ Hr), js_bind_modify, js_bind_get.
  assert (entries_ok (set_index (Some 0) s1)) as Hok1 by (destruct Hok; by split).
  case_match.
  - apply ok_bind; [by apply selectEntry_ok|]. intros [] s2 Hr2.
    apply calm_upholds; [apply calm_hide|]. pose proof (selectEntry_ok _ Hok1) as Hs. by rewrite Hr2 in Hs.
  - apply render_ok; [done|]. intros Hlt. exists 0. split; [done|]. lia.
Qed.

Lemma updateChoices_ok text s : good text → menu_ok s →
  menu_ok (updateChoices computed set_html onShow onHide opt_updateElement opt_afterUpdateElement update o text s).2.
Proof.
  intros Hgood Hok. unfold updateChoices. rewrite js_bind_get. destruct (negb (a_changed s) && a_hasFocus s); [|done].
  pose proof (proj1 Hok) as [[n Hup] Hind _]. 
  destruct (Hhtml (sdom (a_page s)) text Hgood) as (d0 & u & Hr0 & Hmenu & Hkeep); [by apply tree_is_Some; eexists|].
  destruct (cleaned_menu d0 u Hmenu) as (d1 & d2 & Hr1 & Hdown & Hr2 & Hc & Hu & Hnd & Hblank & Hkeep2).
  rewrite (js_bind_Ret _ _ _ _ _ (on_doc_run _ s _ _ Hr0)). set (s0 := set_page _ s).
  rewrite (js_bind_Ret _ _ _ _ _ (on_doc_run _ s0 _ _ Hr1)). set (s1 := set_page _ s0).
  rewrite (js_bind_Ret _ _ _ _ _ (on_doc_run _ s1 _ _ Hdown)).
  cbv beta match. set (s1' := set_page _ s1).
  rewrite (js_bind_Ret _ _ _ _ _ (on_doc_run _ s1' _ _ Hr2)). set (s2 := set_page _ _).
  rewrite js_bind_get. rewrite (js_bind_Ret _ _ _ _ _ (on_doc_run _ s2 _ _ (down_menu d2 u Hc Hu))).
  assert (firstChild (sdom (a_page s2)) update = Some u) as Hfc by (unfold firstChild; cbn [sdom a_page s2 set_page set_sdom]; by rewrite Hc).
  rewrite Hfc. rewrite js_bind_assoc, js_bind_modify.
  set (l := child_list _ _). set (s3 := set_entryCount _ _).
  assert (entries s3 = l) as He3.
  { change (child_list d2 (firstChild d2 update) = child_list d2 (Some u)).
    change (firstChild d2 update = Some u) in Hfc. by rewrite Hfc. }
  destruct (index_entries_run l 0 s3) as (s4 & Hr4 & Hp4 & Ha4 & Hi4 & Hc4 & Hx4).
  { by rewrite He3. }
  { by exists u. }
  { by rewrite He3. }
  rewrite (js_bind_Ret _ _ _ _ _ Hr4). apply indexed_ok.
  assert (entries s4 = l) as He4 by (unfold entries; by rewrite Hp4).
  split; rewrite ?Hp4.
  - apply tree_is_Some. apply Hkeep2, Hkeep, tree_is_Some. by eexists.
  - intros e He. apply tree_is_Some, Hkeep2, Hkeep, tree_is_Some, Hind, He.
  - right. rewrite He4, Hc4. split; [done|]. intros k e Hk. rewrite Hx4.
    rewrite (list_find_nth l k e Hnd Hk). split; [done|]. apply Hblank. by apply list_elem_of_lookup_2 in Hk.
Qed.

(** *** Handlers *)

#[local] Abbreviation select_entry := (selectEntry opt_updateElement opt_afterUpdateElement update o).
#[local] Abbreviation hide_menu := (menu_hide computed onHide update o).

Lemma leave_ok s : menu_ok s → menu_ok ((hide_menu ;; js_modify (set_menu_active false) ;; mret true) s).2.
Proof.
  intros Hok. apply ok_bind; [by apply calm_upholds; [apply calm_hide|]|]. intros [] s' Hr.
  rewrite js_bind_modify. apply inactive_ok. pose proof (calm_upholds _ calm_hide s Hok) as Hs. rewrite Hr in Hs. apply Hs.
Qed.
Lemma marked_ok i s : menu_ok s → 0 ≤ i < Z.of_nat (a_entryCount s) →
  menu_ok (((js_modify (set_index (Some i)) ;; (entry ← getCurrentEntry update; scrollIntoView entry)) ;;
    menu_render computed onShow onHide update o ;; mret true) s).2.
Proof.
  intros Hok Hi. destruct (mark_ok i s Hok Hi) as [Hm Hr]. apply ok_bind; [done|]. intros [] s' Hs. rewrite Hs in Hm, Hr.
  apply ok_bind; [|intros [] s2 Hs2]; pose proof (render_ok s' (proj1 Hm) (λ _, Hr)) as Hk; [done|]. by rewrite Hs2 in Hk.
Qed.

Lemma onKeyPress_ok webkit k s : menu_ok s →
  menu_ok (onKeyPress computed onShow onHide opt_updateElement opt_afterUpdateElement update o webkit k s).2.
Proof.
  intros Hok. unfold onKeyPress. rewrite js_bind_get.
  assert (menu_ok ((js_modify (set_changed true) ;; js_modify (set_hasFocus true) ;; js_modify (set_observer true) ;; mret false) s).2) as Htyped
    by by apply menu_ok_view with s.
  destruct (a_active s) eqn:Ha; [|by case_match].
  destruct (proj2 Hok Ha) as (i & Hidx & Hi). repeat (case_match; [|]); try done.
  - apply ok_bind; [by apply selectEntry_ok, Hok|]. intros [] s' Hr. apply leave_ok.
    pose proof (selectEntry_ok s (proj1 Hok)) as Hs. by rewrite Hr in Hs.
  - by apply leave_ok.
  - unfold markPrevious. rewrite js_bind_assoc, js_bind_get, Hidx.
    destruct (Z.ltb_spec 0 i); apply marked_ok; (done || lia).
  - unfold markNext. rewrite js_bind_assoc, js_bind_get, Hidx.
    destruct (Z.ltb_spec i (Z.of_nat (a_entryCount s) - 1)); apply marked_ok; (done || lia).
Qed.

(** The element a mouse event is for. *)
Definition on_entry (s : autocompleter) (element : option nid) : Prop :=
  match element with Some e => e ∈ entries s ∧ e ∈ a_watched s | None => True end.

Lemma on_entry_index s e : entries_ok s → on_entry s (Some e) → ∃ i,
  autocompleteIndex s !! e = Some i ∧ 0 ≤ i < Z.of_nat (a_entryCount s).
Proof.
  intros [_ _ Hok] [[k Hk]%list_elem_of_lookup Hw]. destruct Hok as [[_ Hno]|[Hl Hx]]; [set_solver|].
  exists (Z.of_nat k). split; [by apply Hx|]. apply lookup_lt_Some in Hk. lia.
Qed.

Lemma onHover_ok e s : menu_ok s → on_entry s e → menu_ok (menu_onHover computed onShow onHide update o e s).2.
Proof.
  intros Hok He. unfold menu_onHover. destruct e as [e|]; [|done]. destruct (on_entry_index s e (proj1 Hok) He) as (i & Hx & Hi).
  rewrite js_bind_get. case_decide; [done|]. rewrite js_bind_modify, Hx.
  destruct (set_index_ok i s (proj1 Hok) Hi) as [Hok' _]. apply render_ok; [done|]. intros _. by exists i.
Qed.
Lemma onClick_ok e s : menu_ok s → on_entry s e →
  menu_ok (onClick computed onHide opt_updateElement opt_afterUpdateElement update o e s).2.
Proof.
  intros Hok He. unfold onClick. destruct e as [e|]; [|done]. destruct (on_entry_index s e (proj1 Hok) He) as (i & Hx & Hi).
  rewrite js_bind_get, js_bind_modify, Hx. destruct (set_index_ok i s (proj1 Hok) Hi) as [Hok' _].
  pose proof (selectEntry_ok _ Hok') as Hs. apply ok_bind; [done|]. intros [] s' Hr. rewrite Hr in Hs.
  by apply calm_upholds; [apply calm_hide|].
Qed.

Lemma ok_after {A B} (m : AC A) (k : A → AC B) s : menu_ok s → calm m → (∀ a s', menu_ok s' → menu_ok (k a s').2) → menu_ok ((m ≫= k) s).2.
Proof.
  intros Hok Hm Hk. pose proof (calm_upholds m Hm s Hok) as Hs. apply ok_bind; [done|]. intros a s' Hr. rewrite Hr in Hs. by apply Hk.
Qed.

Context (src : source) (webkit : bool).
(** The choices an array gives are menus. *)
Hypothesis Hlocal : ∀ lo entry text, src = FromArray lo → local_selector lo entry = Some text → good text.

#[local] Abbreviation updated_choices :=
  (getUpdatedChoices computed set_html onShow onHide opt_updateElement opt_afterUpdateElement update o src).
#[local] Abbreviation handled :=
  (handle computed set_html onShow onHide opt_updateElement opt_afterUpdateElement update o src webkit).

Lemma getUpdatedChoices_ok s : menu_ok s → menu_ok (updated_choices s).2.
Proof.
  intros Hok. unfold getUpdatedChoices. destruct src as [lo|name callback params] eqn:Hsrc.
  - unfold local_getUpdatedChoices. apply ok_after; [done|apply calm_token|]. intros entry s' Hok'.
    destruct (local_selector lo entry) as [text|] eqn:Ht; [|done]. by apply updateChoices_ok; [eapply Hlocal|].
  - apply calm_upholds; [|done]. unfold ajax_getUpdatedChoices. apply keeps_bind; [unfold startIndicator; calms|intros _].
    apply keeps_bind; [apply calm_token|calms].
Qed.

Definition may_happen (s : autocompleter) (h : happening) : Prop :=
  match h with
  | Hover e | Click e => on_entry s e
  | ObserverTimer => a_observer s = true
  | HideTimer => (0 < a_hides s)%nat
  | Response text => good text
  | _ => True
  end.

Lemma handle_ok h s : menu_ok s → may_happen s h → menu_ok (handled h s).2.
Proof.
  intros Hok Hh. destruct h as [k|v| |e|e| | |text|]; cbn [handle]; cbn in Hh.
  - pose proof (onKeyPress_ok webkit k s Hok) as Hs. apply ok_bind; [done|]. intros b s' Hr. by rewrite Hr in Hs.
  - by apply menu_ok_view with s.
  - unfold onBlur. rewrite !js_bind_modify. destruct (inactive_ok s (proj1 Hok)) as [[H1 H2 H3] _]. split; [by split|done].
  - by apply onHover_ok.
  - by apply onClick_ok.
  - unfold observer_timer, onObserverEvent. rewrite !js_bind_modify. apply ok_after; [by apply menu_ok_view with s|apply calm_token|].
    intros token s' Hs'. assert (menu_ok ((if o_minChars o <=? Z.of_nat (length token) then updated_choices
      else js_modify (set_menu_active false) ;; hide_menu) s').2) as Hm.
    { case_match; [by apply getUpdatedChoices_ok|]. rewrite js_bind_modify. apply calm_upholds; [apply calm_hide|]. by apply inactive_ok, Hs'. }
    apply ok_bind; [done|]. intros [] s2 Hr. rewrite Hr in Hm. rewrite js_bind_get. by apply menu_ok_view with s2.
  - unfold hide_timer. rewrite js_bind_modify. apply calm_upholds; [apply calm_hide|]. by apply menu_ok_view with s.
  - by apply updateChoices_ok.
  - unfold menu_activate. rewrite !js_bind_modify. apply getUpdatedChoices_ok. by apply menu_ok_view with s.
Qed.

Inductive reachable : autocompleter → Prop :=
  | reach_new value page : is_Some (sdom page !! update) → (∀ e, o_indicator o = Some e → is_Some (sdom page !! e)) →
      reachable (new_autocompleter update value page)
  | reach_step s h : reachable s → may_happen s h → reachable (handled h s).2.

Lemma reachable_ok s : reachable s → menu_ok s.
Proof.
  induction 1 as [value page Hu Hi|s h _ IH Hh]; [|by apply handle_ok].
  assert (tree_of (Dom.hide update (sdom page)).2 = tree_of (sdom page)) as Ht by apply keeps_put_style.
  split; [|done]. unfold new_autocompleter. split; cbn [a_page sdom set_sdom a_entryCount a_watched]; rewrite ?Ht.
  - by apply tree_is_Some.
  - intros e He. by apply tree_is_Some, Hi.
  - by left.
Qed.

End menu.

(** ** A field

    The browser of the example makes a menu of one entry of a text, with white
    space before the menu and before the entry, and no menu of the empty
    text. *)

Definition one_entry (e : nid) (text : jsstr) : D () := λ d,
  match d !! e with
  | None => (Throw ETypeError, d)
  | Some n =>
      if decide (text = []) then (Ret (), <[e := set_children [] n]> d)
      else (Ret (), <[102%nat := Node (NText (stripTags text)) ∅ ∅ ∅ (Some 101%nat) []]>
        (<[103%nat := Node (NText (js " ")) ∅ ∅ ∅ (Some e) []]>
        (<[104%nat := Node (NText (js " ")) ∅ ∅ ∅ (Some 100%nat) []]>
        (<[101%nat := Node (NElement (js "LI")) ∅ ∅ ∅ (Some 100%nat) [102%nat]]>
        (<[100%nat := Node (NElement (js "UL")) ∅ ∅ ∅ (Some e) [104; 101]%nat]> (<[e := set_children [103; 100]%nat n]> d))))))
  end.
Definition field_page : dom :=
  {[ 0%nat := Node NDocument ∅ ∅ ∅ None [1%nat]; 1%nat := Node (NElement (js "DIV")) ∅ ∅ ∅ (Some 0%nat) [] ]}.
Definition field_options : ac_options := AcOptions [js ","; [10%N]] 1 None false None.
Definition friends : source := FromArray (default_local [js "Bobby"; js "Anna"]).
Definition field : autocompleter := new_autocompleter 1 [] (page_state field_page).
Definition field_handle : happening → AC () :=
  handle (H := plain_browser) (λ _ _ _, None) one_entry (Dom.show 1) (Dom.hide 1) None None 1 field_options friends false.
Definition field_after (l : list happening) : autocompleter := foldl (λ s h, (field_handle h s).2) field l.

(** The letters are typed, and the timer runs. *)
Definition typing : list happening := [Typed (js "an"); KeyDown 78; ObserverTimer].

Example anna_chosen :
  a_active (field_after typing) = true ∧
  a_value (field_after (typing ++ [KeyDown KEY_DOWN; KeyDown KEY_RETURN])) = js "Anna" ∧
  a_active (field_after (typing ++ [KeyDown KEY_DOWN; KeyDown KEY_RETURN])) = false.
Proof. by vm_compute. Qed.

Lemma one_entry_menu d text : text ≠ [] → is_Some (d !! 1%nat) → ∃ d' u,
  one_entry 1 text d = (Ret (), d') ∧ menu_tree 1 d' u ∧ ∀ q, is_Some (d !! q) → is_Some (d' !! q).
Proof.
  intros Ht [n Hn]. unfold one_entry. rewrite Hn, decide_False by done. eexists _, 100%nat. split; [done|].
  unfold menu_tree, children_ok, child_list, element_at. repeat (rewrite lookup_insert_eq || rewrite lookup_insert_ne by done). cbn -[filter].
  split; [split_and!|].
  - rewrite filter_cons_False, filter_cons_True; unfold blank_text;
      repeat (rewrite lookup_insert_eq || rewrite lookup_insert_ne by done); done.
  - done.
  - by apply (bool_decide_unpack _).
  - set_solver.
  - intros c Hc. repeat rewrite lookup_insert_is_Some'. set_solver.
  - by apply (bool_decide_unpack _).
  - set_solver.
  - intros c Hc. repeat rewrite lookup_insert_is_Some'. set_solver.
  - intros q Hq. rewrite !lookup_insert_is_Some'. tauto.
Qed.

Lemma local_text_menu lo entry text : local_selector lo entry = Some text → text ≠ [].
Proof.
  unfold local_selector. destruct (offers _ _ _ _ _) as [[ret partial]|]; [|done]. cbn. by intros [= <-].
Qed.


(** ** Limits of the code *)

(** A key pressed just before the choice: the bounds are those of the last
    run of the timer, and the new letter stays behind the choice. *)
Example stale_bounds :
  a_value (field_after (typing ++ [Typed (js "ann"); KeyDown 78; KeyDown KEY_RETURN])) = js "Annan".
Proof. by vm_compute. Qed.

(** A response without a menu: the handler fails before it takes note of
    that, the menu stays active, and choosing fails. *)
Example empty_response :
  let s := set_changed false (field_after typing) in
  (field_handle (Response []) s).1 = Throw ETypeError ∧
  a_active (field_handle (Response []) s).2 = true ∧
  (field_handle (KeyDown KEY_RETURN) (field_handle (Response []) s).2).1 = Throw ETypeError.
Proof. by vm_compute. Qed.

(** [minChars] of zero counts as one. *)
Example no_minChars : normal_minChars (Some 0) = 1.
Proof. reflexivity. Qed.
