(* ===== verification/InPlace.v ===== *)
(** * In-place editing (controls.js: Ajax.InPlaceEditor, InPlaceCollectionEditor)

    A text of the page that becomes a form when it is clicked, and is saved
    by a request.  The state keeps the element's own data, the form while it
    is in the document, the requests not yet answered and, in order, what the
    editor does to the outside ([log]).  The registration of listeners, the
    stopping of events and the focus are left out. *)

From Stdlib Require Import ZArith.
From S2P Require Import Prelude JsBase JsRegex JsUri Strings Hash Ajax.
#[local] Open Scope Z_scope.
#[local] Open Scope stdpp_scope.

(** ** Data *)

(** A choice of a collection: a text or an array of texts. *)
Inductive entry := EntryText (t : jsstr) | EntryList (l : list jsstr).

Record choice := Choice { ch_value : jsstr; ch_text : jsstr; ch_selected : bool }.
Inductive edit_field :=
  | TextInput (value : jsstr) (size : Z) (disabled : bool)
  | TextArea (value : jsstr) (rows cols : Z) (disabled : bool)
  | SelectList (choices : list choice) (disabled : bool).

Inductive control_mode := OkControl | CancelControl.
Inductive form_part :=
  | PartText (t : jsstr) | PartBreak
  | PartButton (mode : control_mode) (text className : jsstr)
  | PartLink (mode : control_mode) (text className : jsstr).
Record ip_form := IpForm { f_id : jsstr; f_classes : list jsstr; f_field : option edit_field; f_parts : list form_part }.

Record ip_element := IpElement {
  i_id : jsstr; i_html : jsstr; i_shown : bool; i_classes : list jsstr; i_background : jsstr }.

Inductive control_kind := NoControl | ButtonControl | LinkControl.
Record ip_options := IpOptions {
  autoRows : Z; cancelControl : control_kind; cancelText : jsstr; has_external : bool;
  formClassName : jsstr; formId : jsstr; highlightColor : jsstr; hoverClassName : jsstr; htmlResponse : bool;
  loadingClassName : jsstr; loadingText : jsstr; okControl : control_kind; okText : jsstr; paramName : jsstr;
  rows : Z; cols : Z; savingClassName : jsstr; savingText : jsstr; size : Z; stripLoadedTextTags : bool;
  textAfterControls : jsstr; textBeforeControls : jsstr; textBetweenControls : jsstr;
  fieldPostCreation : bool; loadTextURL : bool; loadCollectionURL : bool; loadingCollectionText : jsstr;
  o_collection : list entry; o_value : option jsstr;
}.

Inductive ip_request := Save (params : object) | LoadText | LoadCollection.
(** What a callback of the options is called with. *)
Inductive ip_argument := TheEditor | TheElement | Transport (responseText : jsstr) | NoArgument.
Inductive ip_hook := OnEnterEditMode | OnEnterHover | OnFailure | OnLeaveEditMode | OnLeaveHover.
Inductive ip_action := Alerted (text : jsstr) | Sent (r : ip_request) | Highlighted | CancelledEffect | Activated | Completed (a : ip_argument).

(** [form]: [_form], which is in the document before the element;
    [_controls.editor] is its field. *)
Record ipe := Ipe {
  _editing : bool; _saving : bool; _form : option ip_form; _oldInnerHTML : option jsstr;
  _originalBackground : jsstr; _effect : bool; ip_collection : list entry; _text : jsstr;
  ip_element_of : ip_element; external_shown : bool; pending : list ip_request; log : list ip_action;
}.
#[local] Abbreviation M := (JS ipe).

Definition set_editing b s := Ipe b (_saving s) (_form s) (_oldInnerHTML s) (_originalBackground s) (_effect s) (ip_collection s) (_text s) (ip_element_of s) (external_shown s) (pending s) (log s).
Definition set_saving b s := Ipe (_editing s) b (_form s) (_oldInnerHTML s) (_originalBackground s) (_effect s) (ip_collection s) (_text s) (ip_element_of s) (external_shown s) (pending s) (log s).
Definition set_form f s := Ipe (_editing s) (_saving s) f (_oldInnerHTML s) (_originalBackground s) (_effect s) (ip_collection s) (_text s) (ip_element_of s) (external_shown s) (pending s) (log s).
Definition set_old_html h s := Ipe (_editing s) (_saving s) (_form s) h (_originalBackground s) (_effect s) (ip_collection s) (_text s) (ip_element_of s) (external_shown s) (pending s) (log s).
Definition set_effect b s := Ipe (_editing s) (_saving s) (_form s) (_oldInnerHTML s) (_originalBackground s) b (ip_collection s) (_text s) (ip_element_of s) (external_shown s) (pending s) (log s).
Definition set_collection c s := Ipe (_editing s) (_saving s) (_form s) (_oldInnerHTML s) (_originalBackground s) (_effect s) c (_text s) (ip_element_of s) (external_shown s) (pending s) (log s).
Definition set_marker_text t s := Ipe (_editing s) (_saving s) (_form s) (_oldInnerHTML s) (_originalBackground s) (_effect s) (ip_collection s) t (ip_element_of s) (external_shown s) (pending s) (log s).
Definition set_ip_element e s := Ipe (_editing s) (_saving s) (_form s) (_oldInnerHTML s) (_originalBackground s) (_effect s) (ip_collection s) (_text s) e (external_shown s) (pending s) (log s).
Definition set_external b s := Ipe (_editing s) (_saving s) (_form s) (_oldInnerHTML s) (_originalBackground s) (_effect s) (ip_collection s) (_text s) (ip_element_of s) b (pending s) (log s).
Definition set_pending l s := Ipe (_editing s) (_saving s) (_form s) (_oldInnerHTML s) (_originalBackground s) (_effect s) (ip_collection s) (_text s) (ip_element_of s) (external_shown s) l (log s).
Definition act a s := Ipe (_editing s) (_saving s) (_form s) (_oldInnerHTML s) (_originalBackground s) (_effect s) (ip_collection s) (_text s) (ip_element_of s) (external_shown s) (pending s) (log s ++ [a]).

Definition ip_set_html h e := IpElement (i_id e) h (i_shown e) (i_classes e) (i_background e).
Definition ip_set_shown b e := IpElement (i_id e) (i_html e) b (i_classes e) (i_background e).
Definition set_classes c e := IpElement (i_id e) (i_html e) (i_shown e) c (i_background e).
Definition set_background c e := IpElement (i_id e) (i_html e) (i_shown e) (i_classes e) c.
Definition add_name (name : jsstr) (l : list jsstr) : list jsstr := if decide (name ∈ l) then l else l ++ [name].
Definition remove_name (name : jsstr) (l : list jsstr) : list jsstr := filter (λ c, c ≠ name) l.
Definition on_ip_element (f : ip_element → ip_element) : M () := js_modify (λ s, set_ip_element (f (ip_element_of s)) s).

(** A member of [this._form] or of [this._controls.editor]. *)
Definition on_form (f : ip_form → ip_form) : M () :=
  s ← js_get;
  match _form s with None => js_throw ETypeError | Some form => js_put (set_form (Some (f form)) s) end.
Definition with_classes c f := IpForm (f_id f) c (f_field f) (f_parts f).
Definition with_field x f := IpForm (f_id f) (f_classes f) x (f_parts f).
Definition add_part p f := IpForm (f_id f) (f_classes f) (f_field f) (f_parts f ++ [p]).
Definition on_field (g : edit_field → edit_field) : M () :=
  s ← js_get;
  match _form s ≫= f_field with
  | None => js_throw ETypeError
  | Some x => on_form (with_field (Some (g x)))
  end.
Definition field_disabled (b : bool) (x : edit_field) : edit_field :=
  match x with
  | TextInput v z _ => TextInput v z b
  | TextArea v r c _ => TextArea v r c b
  | SelectList l _ => SelectList l b
  end.
Definition set_text_value (v : jsstr) (x : edit_field) : edit_field :=
  match x with
  | TextInput _ z d => TextInput v z d
  | TextArea _ r c d => TextArea v r c d
  | SelectList l d => SelectList l d
  end.
(** [$F]: of a list, the choice selected last, or the first. *)
Definition field_value (x : edit_field) : jsstr :=
  match x with
  | TextInput v _ _ | TextArea v _ _ _ => v
  | SelectList l _ =>
      match last (filter (λ c, ch_selected c = true) l) with
      | Some c => ch_value c
      | None => match l with c :: _ => ch_value c | [] => [] end
      end
  end.

(** ** The options given in the old way *)

(** A flag of the options: missing, or a value. *)
Definition flag_set (b : option bool) : bool := default false b.
(** [a == b == false], that is [(a == b) == false] *)
Definition differ (a b : option bool) : bool := negb (bool_decide (a = b)).
(** [fallback('cancelControl', ...)]: [None] leaves the default. *)
Definition deprecated_control (given : option control_kind) (link button : option bool) : option control_kind :=
  match given with
  | Some c => Some c
  | None =>
      if flag_set link then Some LinkControl
      else if flag_set button then Some ButtonControl
      else if differ link button then Some NoControl
      else None
  end.

(** ** The editor *)

Section editor.
(** [callback_of]: the callbacks of the options; [callback]: the option that
    makes the parameters; [customize]: [onFormCustomization]; [complete]:
    [onComplete]; [collecting]: whether it is a collection editor;
    [eval_collection]: the array a response evaluates to. *)
Context (callback_of : ip_hook → option (ip_argument → ip_argument → M ())) (callback : ip_form → jsstr → jsv).
Context (customize : option (M ())) (complete : ip_argument → M ()).
Context (collecting : bool) (eval_collection : jsstr → option (list entry)).
Context (o : ip_options).

Definition triggerCallback (cbName : ip_hook) (arg : ip_argument) : M () :=
  match callback_of cbName with Some f => f TheEditor arg | None => mret () end.

Definition getText : M jsstr := s ← js_get; mret (unescapeHTML (i_html (ip_element_of s))).

Definition ip_send (r : ip_request) : M () :=
  js_modify (act (Sent r)) ;; js_modify (λ s, set_pending (pending s ++ [r]) s).

Definition postProcessEditField : M () :=
  js_when (fieldPostCreation o) (on_field (λ x, x) ;; js_modify (act Activated)).

Definition base_loadExternalText : M () :=
  on_form (λ f, with_classes (add_name (loadingClassName o) (f_classes f)) f) ;;
  on_field (field_disabled true) ;;
  ip_send LoadText.

(** The collection editor's methods *)
Definition entry_pair (e : entry) : list jsstr :=
  match e with
  | EntryText t => if (length t =? 2)%nat then (λ c, [c]) <$> t else [t; t]
  | EntryList l => if (length l =? 2)%nat then l else l ++ l
  end.
Definition option_of (marker : jsstr) (textFound : bool) (index : nat) (e : list jsstr) : choice :=
  let value := default (js "undefined") (e !! 0%nat) in
  Choice value (default (js "undefined") (e !! 1%nat)) (if textFound then bool_decide (e !! 0%nat = Some marker) else (index =? 0)%nat).
Definition option_list (marker : jsstr) (l : list (list jsstr)) : list choice :=
  let textFound := existsb (λ e, bool_decide (e !! 0%nat = Some marker)) l in
  imap (option_of marker textFound) l.
Definition buildOptionList : M () :=
  on_form (λ f, with_classes (remove_name (loadingClassName o) (f_classes f)) f) ;;
  js_modify (λ s, set_collection (EntryList <$> (entry_pair <$> ip_collection s)) s) ;;
  s ← js_get;
  let marker := default (_text s) (o_value o) in
  on_field (λ _, SelectList (option_list marker (entry_pair <$> ip_collection s)) false) ;;
  js_modify (act Activated).
Definition showLoadingText (text : jsstr) : M () :=
  on_field (λ x,
    match x with
    | SelectList [] _ => SelectList [Choice [] (stripTags (stripScripts text)) true] true
    | SelectList (c :: l) _ => SelectList (Choice (ch_value c) (stripTags (stripScripts text)) (ch_selected c) :: l) true
    | x => x
    end).
Definition collection_loadExternalText : M () := showLoadingText (loadingText o) ;; ip_send LoadText.
Definition checkForExternalText : M () :=
  t ← getText;
  js_modify (set_marker_text t) ;;
  if loadTextURL o then collection_loadExternalText else buildOptionList.
Definition loadCollection : M () :=
  on_form (λ f, with_classes (add_name (loadingClassName o) (f_classes f)) f) ;;
  showLoadingText (loadingCollectionText o) ;;
  ip_send LoadCollection.

Definition collection_createEditField : M () :=
  on_form (with_field (Some (SelectList [] false))) ;;
  js_modify (set_collection (o_collection o)) ;;
  if loadCollectionURL o then loadCollection else checkForExternalText.

(** [/\r|\n/] *)
Definition has_line_break (t : jsstr) : bool := existsb (λ c, (c =? 13)%N || (c =? 10)%N) t.
Definition base_createEditField : M () :=
  t ← getText;
  let text := if loadTextURL o then loadingText o else t in
  let fld :=
    if (rows o <=? 1) && negb (has_line_break t)
    then TextInput text (if size o =? 0 then cols o else size o) false
    else TextArea text (if rows o <=? 1 then autoRows o else rows o) (if cols o =? 0 then 40 else cols o) false in
  on_form (with_field (Some fld)) ;;
  if loadTextURL o then base_loadExternalText else mret ().
Definition createEditField : M () := if collecting then collection_createEditField else base_createEditField.

(** [addText] and [createControl] *)
Definition addText (text : jsstr) (condition : bool) : M () :=
  if bool_decide (text = []) || negb condition then mret () else on_form (add_part (PartText text)).
Definition createControl (mode : control_mode) (extraClasses : jsstr) : M () :=
  let '(control, text, name) :=
    match mode with
    | OkControl => (okControl o, okText o, js "ok")
    | CancelControl => (cancelControl o, cancelText o, js "cancel")
    end in
  match control with
  | ButtonControl => on_form (add_part (PartButton mode text (js "editor_" ++ name ++ js "_button")))
  | LinkControl =>
      on_form (add_part (PartLink mode text (js "editor_" ++ name ++ js "_link" ++
        (if bool_decide (extraClasses = []) then [] else js " " ++ extraClasses))))
  | NoControl => mret ()
  end.
Definition is_control (c : control_kind) : bool := match c with NoControl => false | _ => true end.
Definition createForm : M () :=
  js_modify (set_form (Some (IpForm (formId o) [formClassName o] None []))) ;;
  createEditField ;;
  s ← js_get;
  js_when (match _form s ≫= f_field with Some (TextArea _ _ _ _) => true | _ => false end) (on_form (add_part PartBreak)) ;;
  default (mret ()) customize ;;
  addText (textBeforeControls o) (is_control (okControl o) || is_control (cancelControl o)) ;;
  createControl OkControl [] ;;
  addText (textBetweenControls o) (is_control (okControl o) && is_control (cancelControl o)) ;;
  createControl CancelControl (js "editor_cancel") ;;
  addText (textAfterControls o) (is_control (okControl o) || is_control (cancelControl o)).

(** ** Modes *)

Definition removeForm : M () := js_modify (set_form None).

Definition leaveHover : M () :=
  js_when (negb (bool_decide (hoverClassName o = [])))
    (on_ip_element (λ e, set_classes (remove_name (hoverClassName o) (i_classes e)) e)) ;;
  s ← js_get;
  if _saving s then mret () else triggerCallback OnLeaveHover NoArgument.
Definition enterHover : M () :=
  js_when (negb (bool_decide (hoverClassName o = [])))
    (on_ip_element (λ e, set_classes (add_name (hoverClassName o) (i_classes e)) e)) ;;
  s ← js_get;
  if _saving s then mret () else triggerCallback OnEnterHover NoArgument.

Definition enterEditMode : M () :=
  s ← js_get;
  if _saving s || _editing s then mret ()
  else
    js_modify (set_editing true) ;;
    triggerCallback OnEnterEditMode NoArgument ;;
    js_when (has_external o) (js_modify (set_external false)) ;;
    on_ip_element (ip_set_shown false) ;;
    createForm ;;
    if loadTextURL o then mret () else postProcessEditField.

Definition leaveEditMode : M () :=
  on_ip_element (λ e, set_classes (remove_name (savingClassName o) (i_classes e)) e) ;;
  removeForm ;;
  leaveHover ;;
  s ← js_get;
  on_ip_element (set_background (_originalBackground s)) ;;
  on_ip_element (ip_set_shown true) ;;
  js_when (has_external o) (js_modify (set_external true)) ;;
  js_modify (set_saving false) ;;
  js_modify (set_editing false) ;;
  js_modify (set_old_html None) ;;
  triggerCallback OnLeaveEditMode NoArgument.
Definition wrapUp (transport : ip_argument) : M () := leaveEditMode ;; complete transport.
Definition handleFormCancellation : M () := wrapUp NoArgument.

Definition showSaving : M () :=
  s ← js_get;
  js_modify (set_old_html (Some (i_html (ip_element_of s)))) ;;
  on_ip_element (ip_set_html (savingText o)) ;;
  on_ip_element (λ e, set_classes (add_name (savingClassName o) (i_classes e)) e) ;;
  s ← js_get;
  on_ip_element (set_background (_originalBackground s)) ;;
  on_ip_element (ip_set_shown true).
Definition prepareSubmission : M () :=
  js_modify (set_saving true) ;; removeForm ;; leaveHover ;; showSaving.

(** The parameters [callback] returns, as an object. *)
Definition params_of (v : jsv) : M object :=
  match v with
  | VObj p => mret p
  | VStr t => toQueryParams t []
  | _ => toQueryParams [] []
  end.
Definition handleFormSubmission : M () :=
  s ← js_get;
  match _form s with
  | None => js_throw ETypeError
  | Some form =>
      match f_field form with
      | None => js_throw ETypeError
      | Some x =>
          prepareSubmission ;;
          params ← params_of (callback form (field_value x));
          s ← js_get;
          ip_send (Save (assoc_set (js "editorId") (VStr (i_id (ip_element_of s))) params))
      end
  end.

Definition checkForEscapeOrReturn (keyCode : Z) (modifier : bool) : M () :=
  s ← js_get;
  if negb (_editing s) || modifier then mret ()
  else if keyCode =? 27 then handleFormCancellation
  else if keyCode =? 13 then handleFormSubmission
  else mret ().

Definition restore : M () :=
  s ← js_get;
  match _oldInnerHTML s with
  | None | Some [] => mret ()
  | Some h => on_ip_element (ip_set_html h)
  end.
Definition handleAJAXFailure (transport : ip_argument) : M () :=
  triggerCallback OnFailure transport ;;
  s ← js_get;
  match _oldInnerHTML s with
  | None | Some [] => mret ()
  | Some h => on_ip_element (ip_set_html h) ;; js_modify (set_old_html None)
  end.
Definition destroy : M () := restore ;; leaveEditMode.

(** ** Responses *)

(** [onSuccess] of [loadExternalText], of both editors. *)
Definition text_loaded (responseText : jsstr) : M () :=
  if collecting then js_modify (set_marker_text (strip responseText)) ;; buildOptionList
  else
    on_form (λ f, with_classes (remove_name (loadingClassName o) (f_classes f)) f) ;;
    on_field (λ x, field_disabled false (set_text_value (if stripLoadedTextTags o then stripTags responseText else responseText) x)) ;;
    postProcessEditField.
(** [/^\[.*\]$/] on the text without spaces around it. *)
Definition looks_like_array (t : jsstr) : bool :=
  rx_test (RBol +++ RLit 91 +++ RStar true (RChar (λ c, negb (is_line_term c))) +++ RLit 93 +++ REol)%rx t.
Definition collection_loaded (responseText : jsstr) : M () :=
  let js_text := strip responseText in
  if looks_like_array js_text then
    match eval_collection js_text with
    | Some l => js_modify (set_collection l) ;; checkForExternalText
    | None => js_throw ESyntaxError
    end
  else js_throw (EUser 3).

(** The callbacks of a request for its response: [onSuccess] or [onFailure],
    then [onComplete], before which [Ajax.Updater] puts a successful response
    into the element.  [Ajax.Request] catches what they throw.  The collection
    editor gives its requests [this.onFailure], which is undefined. *)
Definition caught (m : M ()) : M () := js_try m (λ _, mret ()).
Definition ip_respond (r : ip_request) (success : bool) (responseText : jsstr) : M () :=
  match r with
  | Save _ =>
      caught (if success then mret () else handleAJAXFailure (Transport responseText)) ;;
      caught (js_when (htmlResponse o && success) (on_ip_element (ip_set_html (stripScripts responseText))) ;;
              wrapUp (Transport responseText))
  | LoadText =>
      caught (if success then text_loaded responseText
              else if collecting then mret () else handleAJAXFailure (Transport responseText))
  | LoadCollection => caught (if success then collection_loaded responseText else mret ())
  end.
End editor.

(** ** The default callbacks *)

(** [onFailure: function(transport, ipe)]: the text of its first argument. *)
Definition default_onFailure (transport ipe : ip_argument) : M () :=
  match transport with
  | Transport t => js_modify (act (Alerted (js "Error communication with the server: " ++ stripTags t)))
  | _ => js_throw ETypeError
  end.
Definition default_onEnterHover (o : ip_options) (ipe _ : ip_argument) : M () :=
  on_ip_element (set_background (highlightColor o)) ;;
  s ← js_get;
  js_when (_effect s) (js_modify (act CancelledEffect)).
Definition default_onLeaveHover (ipe _ : ip_argument) : M () :=
  js_modify (act Highlighted) ;; js_modify (set_effect true).
Definition default_onComplete (transport : ip_argument) : M () := js_modify (act Highlighted).
Definition default_callbacks (o : ip_options) (h : ip_hook) : option (ip_argument → ip_argument → M ()) :=
  match h with
  | OnEnterEditMode | OnLeaveEditMode => None
  | OnEnterHover => Some (default_onEnterHover o)
  | OnFailure => Some default_onFailure
  | OnLeaveHover => Some default_onLeaveHover
  end.

(** [initialize] *)
Definition new_editor (element : ip_element) : ipe :=
  Ipe false false None None (if bool_decide (i_background element = []) then js "transparent" else i_background element)
    false [] [] element true [] [].

(** ** Form.Element.DelayedObserver *)

(** [d_calls]: the values the callback was called with. *)
Record delayed_observer := Delayed { d_value : jsstr; d_last : jsstr; d_timer : bool; d_calls : list jsstr }.
Definition new_delayed (value : jsstr) : delayed_observer := Delayed value value false [].
Definition delayedListener : JS delayed_observer () :=
  s ← js_get;
  if decide (d_last s = d_value s) then mret () else js_put (Delayed (d_value s) (d_value s) true (d_calls s)).
Definition delayed_timer : JS delayed_observer () :=
  js_modify (λ s, Delayed (d_value s) (d_last s) false (d_calls s ++ [d_value s])).
Definition type_value (v : jsstr) : JS delayed_observer () := js_modify (λ s, Delayed v (d_last s) (d_timer s) (d_calls s)).

(** ** Events *)

Inductive ip_event :=
  | Clicked | Pressed (keyCode : Z) (modifier : bool) | MouseOver | MouseOut
  | Submitted | Cancelled | Responded (i : nat) (success : bool) (responseText : jsstr) | Destroyed.

Section events.
Context (callback_of : ip_hook → option (ip_argument → ip_argument → M ())) (callback : ip_form → jsstr → jsv).
Context (customize : option (M ())) (complete : ip_argument → M ()).
Context (collecting : bool) (eval_collection : jsstr → option (list entry)).
Context (o : ip_options).

(** The buttons are there while the form is; a response comes for a request
    that waits for one. *)
Definition ip_handle (e : ip_event) : M () :=
  s ← js_get;
  match e with
  | Clicked => enterEditMode callback_of customize collecting o
  | Pressed k m => checkForEscapeOrReturn callback_of callback complete o k m
  | MouseOver => enterHover callback_of o
  | MouseOut => leaveHover callback_of o
  | Submitted => js_when (bool_decide (is_Some (_form s))) (handleFormSubmission callback_of callback o)
  | Cancelled => js_when (bool_decide (is_Some (_form s))) (handleFormCancellation callback_of complete o)
  | Responded i success text =>
      match pending s !! i with
      | None => mret ()
      | Some r => js_modify (set_pending (delete i (pending s))) ;;
          ip_respond callback_of complete collecting eval_collection o r success text
      end
  | Destroyed => destroy callback_of o
  end.
Definition ip_run (l : list ip_event) (s : ipe) : ipe := foldl (λ s e, (ip_handle e s).2) s l.
End events.

(** ** Modes of the editor *)

Section modes.
Context (callback_of : ip_hook → option (ip_argument → ip_argument → M ())) (callback : ip_form → jsstr → jsv).
Context (customize : option (M ())) (complete : ip_argument → M ()).
Context (collecting : bool) (eval_collection : jsstr → option (list entry)).
Context (o : ip_options).

(** The state apart from the form, and of the form whether it has its field. *)
Definition ip_core (s : ipe) :=
  (_editing s, _saving s, _oldInnerHTML s, i_shown (ip_element_of s), external_shown s, i_html (ip_element_of s)).
Definition ip_view (s : ipe) := (ip_core s, (λ f, bool_decide (is_Some (f_field f))) <$> _form s).
Definition has_field (s : ipe) : Prop := is_Some (_form s ≫= f_field).

(** Idle, editing or saving: the form is there when editing and not saving,
    the element is hidden just then, the external control while editing. *)
Record ip_ok (s : ipe) : Prop := {
  ip_form_mode : is_Some (_form s) ↔ _editing s = true ∧ _saving s = false;
  ip_saving : _saving s = true → _editing s = true;
  ip_shown : i_shown (ip_element_of s) = true ↔ _form s = None;
  ip_external : has_external o = true → external_shown s = negb (_editing s);
  ip_old : is_Some (_oldInnerHTML s) → _saving s = true;
  ip_field : is_Some (_form s) → has_field s;
}.

#[local] Abbreviation quiet := (keeps_of ip_view).
Lemma ok_view s s' : ip_view s' = ip_view s → ip_ok s → ip_ok s'.
Proof.
  intros [= He Hs Ho Hsh Hx Hh Hf] [H1 H2 H3 H4 H5 H6].
  assert (is_Some (_form s') ↔ is_Some (_form s)) as Hff.
  { destruct (_form s), (_form s'); done. }
  split; rewrite ?He, ?Hs, ?Ho, ?Hsh, ?Hx; try done.
  - by rewrite Hff.
  - rewrite H3. rewrite !eq_None_not_Some. by rewrite Hff.
  - intros Hs'. apply Hff, H6 in Hs'. unfold has_field in *. destruct (_form s) as [f|], (_form s') as [f'|]; try done.
    cbn in Hs', Hf |- *. injection Hf as Hf. eapply bool_decide_eq_true_1. rewrite Hf. by apply bool_decide_eq_true_2.
Qed.
Lemma quiet_ok {A} (m : M A) : quiet m → upholds ip_ok m.
Proof. apply keeps_upholds. intros s s'. apply ok_view. Qed.

(** *** Computations that always return *)

Definition mild (m : M ()) : Prop := ∀ s, ∃ s', m s = (Ret (), s') ∧ ip_view s' = ip_view s ∧ pending s' = pending s.
(** With a form with its field there is one afterwards. *)
Definition fielding (m : M ()) : Prop := ∀ s, has_field s → ∃ s', m s = (Ret (), s') ∧ ip_core s' = ip_core s ∧ has_field s'.

Lemma has_field_view s s' : ip_view s' = ip_view s → has_field s → has_field s'.
Proof.
  intros [= _ _ _ _ _ _ Hf] Hs. unfold has_field in *. destruct (_form s) as [f|], (_form s') as [f'|]; try done.
  cbn in *. injection Hf as Hf. eapply bool_decide_eq_true_1. rewrite Hf. by apply bool_decide_eq_true_2.
Qed.
Lemma mild_fielding m : mild m → fielding m.
Proof.
  intros Hm s Hs. destruct (Hm s) as (s' & Hr & Hv & _). exists s'. split_and!; [done| |by apply has_field_view with s].
  exact (f_equal fst Hv).
Qed.
Lemma mild_ret : mild (mret ()).
Proof. intros s. by exists s. Qed.
Lemma mild_modify f : (∀ s, ip_view (f s) = ip_view s) → (∀ s, pending (f s) = pending s) → mild (js_modify f).
Proof. intros Hf Hp s. eexists. split_and!; [done|apply Hf|apply Hp]. Qed.
Lemma mild_bind (m k : M ()) : mild m → mild k → mild (m ;; k).
Proof.
  intros Hm Hk s. destruct (Hm s) as (s1 & Hr & Hv & Hp). destruct (Hk s1) as (s2 & Hr2 & Hv2 & Hp2).
  exists s2. rewrite (js_bind_Ret _ _ _ _ _ Hr). split_and!; [done|congruence..].
Qed.
Lemma fielding_ret : fielding (mret ()).
Proof. intros s Hs. by exists s. Qed.
Lemma fielding_modify f : (∀ s, ip_core (f s) = ip_core s) → (∀ s, _form (f s) = _form s) → fielding (js_modify f).
Proof. intros Hf Hp s Hs. eexists. split_and!; [done|apply Hf|]. unfold has_field. by rewrite Hp. Qed.
Lemma fielding_bind (m k : M ()) : fielding m → fielding k → fielding (m ;; k).
Proof.
  intros Hm Hk s Hs. destruct (Hm s Hs) as (s1 & Hr & Hv & Hp). destruct (Hk s1 Hp) as (s2 & Hr2 & Hv2 & Hp2).
  exists s2. rewrite (js_bind_Ret _ _ _ _ _ Hr). split_and!; [done|congruence|done].
Qed.
Lemma fielding_get (k : ipe → M ()) : (∀ s, fielding (k s)) → fielding (js_get ≫= k).
Proof. intros Hk s Hs. rewrite js_bind_get. by apply Hk. Qed.
Lemma mild_get (k : ipe → M ()) : (∀ s, mild (k s)) → mild (js_get ≫= k).
Proof. intros Hk s. rewrite js_bind_get. apply Hk. Qed.
Lemma fielding_form g : (∀ f, is_Some (f_field f) → is_Some (f_field (g f))) → fielding (on_form g).
Proof.
  intros Hg s Hs. unfold on_form. rewrite js_bind_get. unfold has_field in Hs. destruct (_form s) as [f|]; [|by destruct Hs].
  eexists. split_and!; [done|done|]. by apply Hg.
Qed.
Lemma fielding_field g : fielding (on_field g).
Proof.
  intros s Hs. unfold on_field. rewrite js_bind_get. unfold has_field in Hs. destruct (_form s ≫= f_field) as [x|] eqn:E; [|by destruct Hs].
  apply fielding_form; [intros f _; by eexists|]. unfold has_field. by rewrite E.
Qed.
Lemma quiet_form g : (∀ f, is_Some (f_field (g f)) ↔ is_Some (f_field f)) → quiet (on_form g).
Proof.
  intros Hg s. unfold on_form. rewrite js_bind_get. destruct (_form s) as [f|] eqn:E; [|done].
  unfold ip_view. cbn. rewrite E. cbn. do 2 f_equal. by apply bool_decide_ext.
Qed.
Lemma quiet_field g : quiet (on_field g).
Proof.
  intros s. unfold on_field. rewrite js_bind_get. destruct (_form s ≫= f_field) as [x|] eqn:E; [|done].
  unfold on_form. rewrite js_bind_get. destruct (_form s) as [f|] eqn:Ef; [|done]. cbn in E.
  unfold ip_view. cbn. rewrite Ef. cbn. do 2 f_equal. symmetry. apply bool_decide_eq_true_2. rewrite E. by eexists.
Qed.
Lemma mild_element f : (∀ e, i_shown (f e) = i_shown e ∧ i_html (f e) = i_html e) → mild (on_ip_element f).
Proof.
  intros Hf. apply mild_modify; [|done]. intros s. unfold ip_view, ip_core. cbn. by destruct (Hf (ip_element_of s)) as [-> ->].
Qed.

(** What is asked of the callbacks: that they leave the mode alone, and, but
    for [onFailure] and [onComplete], that they return. *)
Hypothesis Hmild : ∀ h f a b, h ≠ OnFailure → callback_of h = Some f → mild (f a b).
Hypothesis Hfail : ∀ f a b, callback_of OnFailure = Some f → quiet (f a b).
Hypothesis Hcustom : ∀ m, customize = Some m → fielding m.
Hypothesis Hcomplete : ∀ a, quiet (complete a).

Ltac fields :=
  repeat match goal with
    | |- ∀ _, fielding _ => intros ?
    | |- fielding (mret _) => apply fielding_ret
    | |- fielding (js_get ≫= _) => apply fielding_get; intros ?
    | |- fielding (getText ≫= _) => unfold getText
    | |- fielding ((js_get ≫= _) ≫= _) => intros ? ?; rewrite js_bind_assoc
    | |- fielding (js_modify _) => apply fielding_modify; intros ?; reflexivity
    | |- fielding (on_form _) => apply fielding_form; intros ? ?; try done; by eexists
    | |- fielding (on_field _) => apply fielding_field
    | |- fielding (js_when ?b _) => destruct b; unfold js_when
    | |- fielding (match _ with _ => _ end) => case_match
    | |- fielding (_ ≫= _) => apply fielding_bind
    end.

Lemma fielding_text (k : jsstr → M ()) : (∀ t, fielding (k t)) → fielding (getText ≫= k).
Proof. intros Hk s Hs. unfold getText. rewrite js_bind_assoc, js_bind_get, js_bind_ret. by apply Hk. Qed.

Lemma fielding_send r : fielding (ip_send r).
Proof. unfold ip_send. fields. Qed.
Lemma fielding_build : fielding (buildOptionList o).
Proof. unfold buildOptionList. fields. Qed.
Lemma fielding_check : fielding (checkForExternalText o).
Proof.
  unfold checkForExternalText, collection_loadExternalText, showLoadingText. apply fielding_text. intros t.
  apply fielding_bind; [fields|]. case_match; [|apply fielding_build]. apply fielding_bind; [fields|apply fielding_send].
Qed.

Lemma field_made x s : is_Some (_form s) → ∃ s', on_form (with_field (Some x)) s = (Ret (), s') ∧ ip_core s' = ip_core s ∧ has_field s'.
Proof. intros [f Hf]. unfold on_form. rewrite js_bind_get, Hf. eexists. split_and!; [done|done|by eexists]. Qed.

Lemma createEditField_run s : is_Some (_form s) → ∃ s',
  createEditField collecting o s = (Ret (), s') ∧ ip_core s' = ip_core s ∧ has_field s'.
Proof.
  intros Hf. unfold createEditField, collection_createEditField, base_createEditField.
  assert (∀ x (k : M ()), fielding k → ∃ s', (on_form (with_field (Some x)) ;; k) s = (Ret (), s') ∧ ip_core s' = ip_core s ∧ has_field s') as Hgo.
  { intros x k Hk. destruct (field_made x s Hf) as (s1 & Hr & Hc & H1). destruct (Hk s1 H1) as (s2 & Hr2 & Hc2 & H2).
    exists s2. rewrite (js_bind_Ret _ _ _ _ _ Hr). split_and!; [done|congruence|done]. }
  destruct collecting.
  - apply Hgo. apply fielding_bind; [fields|]. case_match; [|apply fielding_check].
    unfold loadCollection, showLoadingText. do 2 (apply fielding_bind; [fields|]). apply fielding_send.
  - unfold getText. rewrite js_bind_assoc, js_bind_get, js_bind_ret. apply Hgo. case_match; [|fields].
    unfold base_loadExternalText. do 2 (apply fielding_bind; [fields|]). apply fielding_send.
Qed.

Lemma createForm_run s : ∃ s', createForm customize collecting o s = (Ret (), s') ∧ ip_core s' = ip_core s ∧ has_field s'.
Proof.
  unfold createForm. rewrite js_bind_modify. set (s0 := set_form _ s).
  destruct (createEditField_run s0) as (s1 & Hr & Hc & H1); [by eexists|]. rewrite (js_bind_Ret _ _ _ _ _ Hr), js_bind_get.
  match goal with |- ∃ s', ?m s1 = _ ∧ _ => assert (fielding m) as Hm end.
  { apply fielding_bind; [fields|]. apply fielding_bind; [destruct customize; [by apply Hcustom|apply fielding_ret]|].
    unfold addText, createControl. cbv beta match. fields. }
  destruct (Hm s1 H1) as (s2 & Hr2 & Hc2 & H2). exists s2. split_and!; [done|by rewrite Hc2|done].
Qed.

Lemma mild_trigger h a : h ≠ OnFailure → mild (triggerCallback callback_of h a).
Proof. intros Hh. unfold triggerCallback. destruct (callback_of h) eqn:E; [by eapply Hmild|apply mild_ret]. Qed.
Lemma mild_when b m : mild m → mild (js_when b m).
Proof. destruct b; [done|intros; apply mild_ret]. Qed.
Lemma mild_leaveHover : mild (leaveHover callback_of o).
Proof.
  unfold leaveHover. apply mild_bind; [by apply mild_when, mild_element|]. apply mild_get. intros s.
  case_match; [apply mild_ret|by apply mild_trigger].
Qed.
Lemma mild_enterHover : mild (enterHover callback_of o).
Proof.
  unfold enterHover. apply mild_bind; [by apply mild_when, mild_element|]. apply mild_get. intros s.
  case_match; [apply mild_ret|by apply mild_trigger].
Qed.

(** *** Changes of mode *)

Record idle (s : ipe) : Prop := {
  idle_editing : _editing s = false; idle_saving : _saving s = false; idle_form : _form s = None;
  idle_old : _oldInnerHTML s = None; idle_shown : i_shown (ip_element_of s) = true;
  idle_external : has_external o = true → external_shown s = true;
}.
Lemma idle_ok s : idle s → ip_ok s.
Proof.
  intros [He Hs Hf Ho Hsh Hx]. split; rewrite ?He, ?Hs, ?Hf, ?Ho, ?Hsh; try done. split; by intros [].
Qed.
Lemma idle_view s s' : ip_view s' = ip_view s → idle s → idle s'.
Proof.
  intros [= He Hs Ho Hsh Hx Hh Hf] [H1 H2 H3 H4 H5 H6]. split; rewrite ?He, ?Hs, ?Ho, ?Hsh, ?Hx; try done.
  rewrite H3 in Hf. by destruct (_form s').
Qed.
Lemma view_html s s' : ip_view s' = ip_view s → i_html (ip_element_of s') = i_html (ip_element_of s).
Proof. by intros [= _ _ _ _ _ Hh _]. Qed.

Lemma leaveEditMode_run s : ∃ s', leaveEditMode callback_of o s = (Ret (), s') ∧ idle s' ∧
  i_html (ip_element_of s') = i_html (ip_element_of s) ∧ pending s' = pending s.
Proof.
  unfold leaveEditMode, removeForm, on_ip_element. rewrite !js_bind_modify. set (s0 := set_form None _).
  destruct (mild_leaveHover s0) as (s1 & Hr1 & Hv1 & Hp1). rewrite (js_bind_Ret _ _ _ _ _ Hr1), js_bind_get, !js_bind_modify.
  set (s2 := set_ip_element (ip_set_shown true _) _).
  assert (∃ s3, (js_when (has_external o) (js_modify (set_external true)) : M ()) s2 = (Ret (), s3) ∧
    s3 = if has_external o then set_external true s2 else s2) as (s3 & Hr3 & Hs3).
  { destruct (has_external o); by eexists. }
  rewrite (js_bind_Ret _ _ _ _ _ Hr3), !js_bind_modify. set (s4 := set_old_html None _).
  destruct (mild_trigger OnLeaveEditMode NoArgument ltac:(done) s4) as (s5 & Hr5 & Hv5 & Hp5).
  assert (idle s4 ∧ i_html (ip_element_of s4) = i_html (ip_element_of s) ∧ pending s4 = pending s) as (Hi & Hh & Hp).
  { unfold s4. rewrite Hs3. injection Hv1 as _ _ _ _ _ Hh1 Hf1.
    assert (_form s1 = None) as Hf by (destruct (_form s1); done). unfold s2. cbn in Hh1, Hp1.
    destruct (has_external o) eqn:Hx; cbn; (split; [split; cbn; rewrite ?Hx; done|done]). }
  exists s5. split_and!; [done|by apply idle_view with s4|by rewrite (view_html _ _ Hv5)|by rewrite Hp5].
Qed.

Lemma wrapUp_idle a s : idle (wrapUp callback_of complete o a s).2 ∧
  i_html (ip_element_of (wrapUp callback_of complete o a s).2) = i_html (ip_element_of s).
Proof.
  unfold wrapUp. destruct (leaveEditMode_run s) as (s1 & Hr & Hi & Hh & _). rewrite (js_bind_Ret _ _ _ _ _ Hr).
  pose proof (Hcomplete a s1) as Hv. split; [by apply idle_view with s1|by rewrite (view_html _ _ Hv)].
Qed.

Lemma prepareSubmission_run s : ip_ok s → is_Some (_form s) → ∃ s', prepareSubmission callback_of o s = (Ret (), s') ∧
  ip_ok s' ∧ _saving s' = true ∧ _oldInnerHTML s' = Some (i_html (ip_element_of s)) ∧
  i_html (ip_element_of s') = savingText o ∧ pending s' = pending s.
Proof.
  intros Hok Hf. destruct (proj1 (ip_form_mode _ Hok) Hf) as [He _].
  unfold prepareSubmission, showSaving, removeForm, on_ip_element. rewrite !js_bind_modify. set (s0 := set_form None _).
  destruct (mild_leaveHover s0) as (s1 & Hr1 & Hv1 & Hp1). rewrite (js_bind_Ret _ _ _ _ _ Hr1).
  rewrite js_bind_get, !js_bind_modify, js_bind_get, js_bind_modify. eexists. split; [reflexivity|]. cbn in *.
  injection Hv1 as He1 Hs1 Ho1 Hsh1 Hx1 Hh1 Hf1. cbn in *. assert (_form s1 = None) as Hf0 by (destruct (_form s1); done).
  rewrite Hh1, Hs1. split_and!; try done. split; cbn; rewrite ?Hf0, ?He1, ?Hs1, ?Hx1; try done.
  - split; by intros [].
  - apply (ip_external _ Hok).
Qed.

Lemma submission_ok : upholds ip_ok (handleFormSubmission callback_of callback o).
Proof.
  intros s Hok. unfold handleFormSubmission. rewrite js_bind_get. destruct (_form s) as [f|] eqn:Hf; [|done].
  destruct (f_field f) as [x|]; [|done].
  destruct (prepareSubmission_run s Hok) as (s1 & Hr & Hok1 & _); [by eexists|]. rewrite (js_bind_Ret _ _ _ _ _ Hr).
  apply (quiet_ok _); [|done]. apply keeps_bind; [destruct (callback f _); try apply keeps_toQueryParams; apply keeps_ret|].
  unfold ip_send. keeping idtac.
Qed.

Lemma failure_ok a : upholds ip_ok (handleAJAXFailure callback_of a).
Proof.
  intros s Hok. unfold handleAJAXFailure.
  assert (quiet (triggerCallback callback_of OnFailure a)) as Hq.
  { unfold triggerCallback. destruct (callback_of OnFailure) eqn:E; [by apply Hfail|apply keeps_ret]. }
  pose proof (quiet_ok _ Hq s Hok) as H1. unfold mbind at 1, js_mbind at 1. destruct (triggerCallback _ _ _ s) as [[[]|e] s1]; [|done].
  cbn in H1. rewrite js_bind_get. destruct (_oldInnerHTML s1) as [[|c h]|] eqn:Ho; [done| |done].
  unfold on_ip_element. rewrite js_bind_modify. destruct H1 as [A B C D E F]. split; cbn; done.
Qed.

Lemma quiet_send r : quiet (ip_send r).
Proof. unfold ip_send. keeping idtac. Qed.
Lemma quiet_build : quiet (buildOptionList o).
Proof.
  unfold buildOptionList. keeping ltac:(first [apply quiet_field | by apply quiet_form]).
Qed.
Lemma quiet_check : quiet (checkForExternalText o).
Proof.
  unfold checkForExternalText, getText, collection_loadExternalText, showLoadingText.
  keeping ltac:(first [apply quiet_field | apply quiet_send | apply quiet_build]).
Qed.
Lemma quiet_text_loaded t : quiet (text_loaded collecting o t).
Proof.
  unfold text_loaded, postProcessEditField. keeping ltac:(first [apply quiet_field | by apply quiet_form | apply quiet_build]).
Qed.
Lemma quiet_collection_loaded t : quiet (collection_loaded eval_collection o t).
Proof. unfold collection_loaded. keeping ltac:(apply quiet_check). Qed.
Lemma caught_state (m : M ()) s : (caught m s).2 = (m s).2.
Proof. unfold caught, js_try. by destruct (m s) as [[]]. Qed.
Lemma caught_upholds (P : ipe → Prop) (m : M ()) : upholds P m → upholds P (caught m).
Proof.
  intros Hm s Hs. specialize (Hm s Hs). unfold caught, js_try. by destruct (m s) as [[]].
Qed.

Lemma wrapUp_ok a : upholds ip_ok (wrapUp callback_of complete o a).
Proof. intros s _. apply idle_ok, wrapUp_idle. Qed.

Lemma enterEditMode_ok : upholds ip_ok (enterEditMode callback_of customize collecting o).
Proof.
  intros s Hok. unfold enterEditMode. rewrite js_bind_get. destruct (_saving s || _editing s) eqn:Hm; [done|].
  apply orb_false_iff in Hm as [Hs He]. rewrite js_bind_modify. set (s0 := set_editing true s).
  destruct (mild_trigger OnEnterEditMode NoArgument ltac:(done) s0) as (s1 & Hr1 & Hv1 & _). rewrite (js_bind_Ret _ _ _ _ _ Hr1).
  assert (∃ s2, (js_when (has_external o) (js_modify (set_external false)) : M ()) s1 = (Ret (), s2) ∧
    s2 = if has_external o then set_external false s1 else s1) as (s2 & Hr2 & Hs2) by (destruct (has_external o); by eexists).
  rewrite (js_bind_Ret _ _ _ _ _ Hr2). unfold on_ip_element. rewrite js_bind_modify. set (s3 := set_ip_element _ s2).
  destruct (createForm_run s3) as (s4 & Hr4 & Hc4 & H4). rewrite (js_bind_Ret _ _ _ _ _ Hr4).
  apply (quiet_ok _).
  { unfold postProcessEditField. keeping ltac:(apply quiet_field). }
  injection Hv1 as He1 Hs1 Ho1 Hsh1 Hx1 Hh1 Hf1. injection Hc4 as He4 Hs4 Ho4 Hsh4 Hx4 Hh4.
  assert (_editing s2 = true ∧ _saving s2 = false ∧ _oldInnerHTML s2 = _oldInnerHTML s ∧
    (has_external o = true → external_shown s2 = false)) as (E & S & O & X).
  { rewrite Hs2. cbn in *. destruct (has_external o); cbn; rewrite He1, Hs1, Ho1; done. }
  cbn in He4, Hs4, Ho4, Hsh4, Hx4. destruct H4 as [x Hx].
  assert (is_Some (_form s4)) as Hf by (destruct (_form s4); [by eexists|done]).
  split; rewrite ?He4, ?Hs4, ?Ho4, ?Hsh4, ?Hx4, ?E, ?S, ?O; try done.
  - split; [done|]. intros Hn. rewrite Hn in Hf. by destruct Hf.
  - intros Ho%(ip_old _ Hok). congruence.
  - intros _. by exists x.
Qed.

Lemma respond_ok r success text : upholds ip_ok (ip_respond callback_of complete collecting eval_collection o r success text).
Proof.
  destruct r; cbn [ip_respond].
  - apply upholds_bind; [apply caught_upholds; case_match; [apply upholds_ret|apply failure_ok]|intros _].
    apply caught_upholds, upholds_bind; [|intros _; apply wrapUp_ok].
    unfold on_ip_element. intros s [A B C D E F]. destruct (htmlResponse o && success); [|done]. split; cbn; done.
  - apply caught_upholds. repeat case_match; [apply quiet_ok, quiet_text_loaded|apply upholds_ret|apply failure_ok].
  - apply caught_upholds. case_match; [apply quiet_ok, quiet_collection_loaded|apply upholds_ret].
Qed.

Lemma mild_ok m : mild m → upholds ip_ok m.
Proof. intros Hm s Hs. destruct (Hm s) as (s' & -> & Hv & _). by apply ok_view with s. Qed.

Lemma handle_modes e : upholds ip_ok (ip_handle callback_of callback customize complete collecting eval_collection o e).
Proof.
  intros s Hok. unfold ip_handle. rewrite js_bind_get. destruct e as [|k m| | | | |i success text|]; cbn [ip_handle].
  - by apply enterEditMode_ok.
  - unfold checkForEscapeOrReturn. rewrite js_bind_get. repeat case_match; [done|by apply wrapUp_ok|by apply submission_ok|done].
  - apply mild_ok; [apply mild_enterHover|done].
  - apply mild_ok; [apply mild_leaveHover|done].
  - unfold js_when. case_match; [by apply submission_ok|done].
  - unfold js_when. case_match; [by apply wrapUp_ok|done].
  - destruct (pending s !! i) as [r|]; [|done]. rewrite js_bind_modify. apply respond_ok. by apply ok_view with s.
  - unfold destroy, restore. unfold mbind at 1, js_mbind at 1. rewrite js_bind_get.
    assert (∀ s, ip_ok (leaveEditMode callback_of o s).2) as Hl.
    { intros s'. destruct (leaveEditMode_run s') as (s2 & -> & Hi & _). by apply idle_ok. }
    destruct (_oldInnerHTML s) as [[|c h]|]; apply Hl.
Qed.

(** C31. In any run of clicks, keys, mouse moves, submissions, cancellations and
    responses the editor is idle, editing or saving; the form is there exactly
    while it is editing and not saving, and the element is hidden exactly then. *)
Theorem editor_modes l s : ip_ok s → ip_ok (ip_run callback_of callback customize complete collecting eval_collection o l s).
Proof. unfold ip_run. revert s. induction l as [|e l IH]; intros s Hok; [done|]. apply IH. by apply handle_modes. Qed.

End modes.

(** ** Lists of choices *)

Lemma shown_choices marker found (h : nat → nat) (l : list (list jsstr)) : Forall (λ e, length e = 2%nat) l →
  (λ c, [ch_value c; ch_text c]) <$> imap (λ n, option_of marker found (h n)) l = l.
Proof.
  intros Hl. revert h. induction Hl as [|e l He Hl IH]; intros h; [done|]. rewrite imap_cons, fmap_cons. f_equal.
  - destruct e as [|a [|b [|? ?]]]; done.
  - apply (IH (λ n, h (S n))).
Qed.

Definition option_list_head (e : list jsstr) : list jsstr := take 1 e.

Lemma last_in {A} (l : list A) x : last l = Some x → x ∈ l.
Proof. intros H. apply last_Some in H as [l' ->]. set_solver. Qed.

(** A list of choices shows every entry of the collection; the choice it
    starts with is the marker, or the first one when the marker is not there. *)
Theorem option_list_spec marker (l : list (list jsstr)) d : Forall (λ e, length e = 2%nat) l → l ≠ [] →
  (λ c, [ch_value c; ch_text c]) <$> option_list marker l = l ∧
  field_value (SelectList (option_list marker l) d) =
    if decide (marker ∈ l ≫= λ e, option_list_head e) then marker else default [] (head l ≫= head).
Proof.
  intros Hl Hne. unfold option_list. set (found := existsb _ l). split; [by apply (shown_choices marker found (λ n, n))|].
  assert (found = true ↔ marker ∈ l ≫= λ e, option_list_head e) as Hfound.
  { unfold found. rewrite existsb_exists, list_elem_of_bind. split.
    - intros (e & He & Hm). apply bool_decide_eq_true in Hm. exists e. split; [|by apply list_elem_of_In].
      destruct e; [done|]. injection Hm as ->. by apply list_elem_of_singleton.
    - intros (e & Hm & He). exists e. split; [by apply list_elem_of_In|]. apply bool_decide_eq_true_2.
      destruct e; cbn in Hm; [by apply not_elem_of_nil in Hm|]. by apply list_elem_of_singleton in Hm as ->. }
  cbn [field_value]. destruct (decide (marker ∈ _)) as [Hin|Hout].
  - apply Hfound in Hin as Hf. rewrite Hf. set (cs := imap _ l).
    assert (∀ c, c ∈ filter (λ c, ch_selected c = true) cs → ch_value c = marker) as Hval.
    { intros c [Hs Hc]%list_elem_of_filter. apply elem_of_lookup_imap in Hc as (i & e & -> & _). cbn in Hs.
      apply bool_decide_eq_true in Hs. cbn. by rewrite Hs. }
    destruct (last _) as [c|] eqn:Hlast; [by apply Hval, last_in|].
    exfalso. apply last_None in Hlast. apply existsb_exists in Hf as (e & [i Hi]%list_elem_of_In%list_elem_of_lookup & Hm).
    assert (option_of marker true i e ∈ filter (λ c, ch_selected c = true) cs) as Hc.
    { apply list_elem_of_filter. split; [done|]. apply elem_of_lookup_imap. by exists i, e. }
    rewrite Hlast in Hc. by apply not_elem_of_nil in Hc.
  - assert (found = false) as Hf by (destruct found; [by destruct Hout; apply Hfound|done]). rewrite Hf.
    destruct l as [|e l]; [done|]. rewrite imap_cons, filter_cons_True by done.
    assert (filter (λ c, ch_selected c = true) (imap (option_of marker false ∘ S) l) = []) as ->.
    { clear. assert (∀ c, c ∈ imap (option_of marker false ∘ S) l → ch_selected c = false) as Hs.
      { intros c (i & e & -> & _)%elem_of_lookup_imap. done. }
      induction (imap _ l) as [|c cs IH]; [done|]. rewrite filter_cons_False by (rewrite Hs by left; done).
      apply IH. intros c' Hc'. apply Hs. by right. }
    cbn. inversion Hl as [|e' l' He _]; subst. destruct e; done.
Qed.

(** ** A text *)

Lemma default_mild o h f a b : h ≠ OnFailure → default_callbacks o h = Some f → mild (f a b).
Proof.
  intros Hh. destruct h; try done; intros [= <-].
  - unfold default_onEnterHover. apply mild_bind; [by apply mild_element|]. apply mild_get. intros s.
    by apply mild_when, mild_modify.
  - unfold default_onLeaveHover. apply mild_bind; by apply mild_modify.
Qed.
Lemma default_fail o f a b : default_callbacks o OnFailure = Some f → keeps_of ip_view (f a b).
Proof. intros [= <-]. unfold default_onFailure. keeping idtac. Qed.
Lemma default_complete a : keeps_of ip_view (default_onComplete a).
Proof. unfold default_onComplete. keeping idtac. Qed.

Definition plain_options : ip_options :=
  IpOptions 3 LinkControl (js "cancel") false (js "inplaceeditor-form") (js "t-inplaceeditor") (js "#ffff99") [] true
    (js "inplaceeditor-loading") (js "Loading...") ButtonControl (js "ok") (js "value") 1 0 (js "inplaceeditor-saving")
    (js "Saving...") 0 false [] [] [] true false false (js "Loading options...") [] None.
Definition title : ip_element := IpElement (js "t") (js "Tom &amp; Ann") true [] [].
Definition value_param (_ : ip_form) (v : jsstr) : jsv := VObj [(js "value", VStr v)].
Definition title_run (callbacks : ip_hook → option (ip_argument → ip_argument → M ())) (l : list ip_event) : ipe :=
  ip_run callbacks value_param None default_onComplete false (λ _, None) plain_options l (new_editor title).

Lemma new_title_ok : ip_ok plain_options (new_editor title).
Proof. by apply idle_ok. Qed.

Lemma editor_modes_witness :
  let l := [MouseOver; Clicked; Submitted; Responded 0 false []; Clicked; Cancelled] in
  ip_ok plain_options (new_editor title) ∧
  ip_ok plain_options (ip_run (default_callbacks plain_options) value_param None default_onComplete false (λ _, None)
    plain_options l (new_editor title)).
Proof.
  intros l. split; [exact new_title_ok|].
  exact (editor_modes (default_callbacks plain_options) value_param None default_onComplete false (λ _, None) plain_options
    (default_mild plain_options) (default_fail plain_options) ltac:(discriminate) default_complete l (new_editor title) new_title_ok).
Defined.

Definition editing_title : ipe := title_run (λ _, None) [Clicked].
Lemma editing_title_ok : ip_ok plain_options editing_title.
Proof. by apply handle_modes; [| | | |exact new_title_ok]. Qed.


Lemma option_list_spec_witness :
  let l := [[js "1"; js "one"]; [js "2"; js "two"]] in
  Forall (λ e : list jsstr, length e = 2%nat) l ∧ l ≠ [] ∧
  (λ c, [ch_value c; ch_text c]) <$> option_list (js "2") l = l ∧ field_value (SelectList (option_list (js "2") l) false) = js "2".
Proof.
  intros l. assert (Forall (λ e : list jsstr, length e = 2%nat) l) as Hl by (repeat constructor).
  assert (l ≠ []) as Hne by discriminate. split; [exact Hl|]. split; [exact Hne|].
  exact (option_list_spec (js "2") l false Hl Hne).
Defined.

(** ** Limits of the code *)

(** The callback for failures by default takes its arguments in the wrong
    order and throws, so nobody is told and the text stays [savingText]. *)
Example default_failure :
  let s := title_run (default_callbacks plain_options) [Clicked; Submitted; Responded 0 false (js "no")] in
  i_html (ip_element_of s) = js "Saving..." ∧ _editing s = false ∧
  existsb (λ a, match a with Alerted _ => true | _ => false end) (log s) = false.
Proof. by vm_compute. Qed.

(** Escape during a save loses the text: a failure does not bring it back. *)
Example escape_while_saving :
  i_html (ip_element_of (title_run (λ _, None) [Clicked; Submitted; Pressed 27 false; Responded 0 false []])) = js "Saving...".
Proof. by vm_compute. Qed.

(** An entry of a collection that is a text of two letters is taken for a pair. *)
Example two_letters : entry_pair (EntryText (js "US")) = [js "U"; js "S"].
Proof. reflexivity. Qed.

(** When both old flags are false the control is shown nevertheless. *)
Example both_flags_false : deprecated_control None (Some false) (Some false) = None.
Proof. reflexivity. Qed.

(** An array on several lines is not accepted. *)
Example array_on_lines : looks_like_array (js "[1," ++ [10%N] ++ js "2]") = false.
Proof. by vm_compute. Qed.

(** A value typed back between the timer and the key is never reported: the
    timer does not set [lastValue]. *)
Example delayed_misses :
  let s := ((type_value (js "ab") ;; delayedListener ;; type_value (js "a") ;; delayed_timer ;;
             type_value (js "ab") ;; delayedListener) (new_delayed (js "a"))).2 in
  d_value s = js "ab" ∧ d_timer s = false ∧ d_calls s = [js "a"].
Proof. by vm_compute. Qed.
