(* ===== verification/PageLoad.v ===== *)
(** * The handlers of a loaded page (application.js: window.onload)

    A click anywhere may hide the help pop-up, and a click on a link of a
    pagination is turned into a request.  The handler tests elements with
    [element.match], the selector engine, on the document that hiding has
    changed. *)

From Stdlib Require Import ZArith.
From S2P Require Import Prelude JsBase JsRegex Strings Hash Dom Droppable Walks SelectorText Selector SelectorSpec.
#[local] Open Scope Z_scope.
#[local] Open Scope stdpp_scope.

(** ** The handlers *)

(** The document with the state of the selector engine, the requests made and
    whether the event's default action is stopped. *)
Record loaded_page := LoadedPage { page_sel : sel; page_requests : list (jsstr * jsstr); page_stopped : bool }.

Section page.
Context `{SelectorHost}.
(** Properties of elements the browser computes: [innerHTML] and the resolved
    address [href]. *)
Context (inner_html href : dom → nid → jsstr).
#[local] Abbreviation M := (JS loaded_page).

Definition on_engine {A} (m : JS sel A) : M A := λ p,
  let '(r, s) := m (page_sel p) in (r, LoadedPage s (page_requests p) (page_stopped p)).
(** [new Ajax.Request(url, { method: 'get' })] *)
Definition ajax_get (url : jsstr) : M () := js_modify (λ p,
  LoadedPage (page_sel p) (page_requests p ++ [(js "get", url)]) (page_stopped p)).
Definition stop_click : M () := js_modify (λ p, LoadedPage (page_sel p) (page_requests p) true).

(** [$("dummy_div").hide()], which is also what the [change] event of any
    [select] does. *)
Definition hide_popup : M () := on_engine (on_dom (on (js "dummy_div") hide)).
Definition select_changed : M () := hide_popup.

(** What the handlers are installed for, in their order; the spinner's image
    is loaded but nothing shows it. *)
Inductive installed := SelectsChange | SpinnerImage | ContainerClick.
(** The handler of [load]: without jQuery the name [$j] is not defined.
    [container] is the body, if the page has one. *)
Definition window_onload (jquery : bool) (container : option nid) : JS (list installed) () :=
  if jquery then
    js_when (bool_decide (is_Some container))
      (js_modify (λ l, l ++ [SelectsChange]) ;;
       js_modify (λ l, l ++ [SpinnerImage]) ;;
       js_modify (λ l, l ++ [ContainerClick]))
  else js_throw EReferenceError.

(** [element.getAttribute("href") || element.match("Input") || element.match("Select")] *)
Definition closes_popup (element : nid) : M bool :=
  h ← on_engine (reading (λ d, attr_of d element (js "href")));
  if negb (bool_decide (default [] h = [])) then mret true
  else
    b ← on_engine (element_match element (js "Input"));
    if b : bool then mret true else on_engine (element_match element (js "Select")).

(** [container.observe('click', ...)], for the element of the event: its two
    tests *)
Definition close_help (element : nid) : M () :=
  html ← on_engine (reading (λ d, inner_html d element));
  js_when (negb (bool_decide (html = js "Help")))
    (b ← closes_popup element; js_when b hide_popup).
Definition follow_link (element : nid) : M () :=
  b ← on_engine (element_match element (js ".pagination a"));
  js_when b
    (url ← on_engine (reading (λ d, href d element));
     ajax_get url ;;
     stop_click).
Definition page_clicked (element : nid) : M () := close_help element ;; follow_link element.

(** ** What the tests say *)

(** The element is a link, a field or a list, and its text is not Help. *)
Definition leaves_help (d : dom) (x : nid) : bool :=
  negb (bool_decide (inner_html d x = js "Help")) &&
  (negb (bool_decide (default [] (attr_of d x (js "href")) = [])) ||
   bool_decide (tag_of d x = js "INPUT") || bool_decide (tag_of d x = js "SELECT")).
(** A link inside an element of the document that has the class [pagination]. *)
Definition pagination_link (d : dom) (x : nid) : Prop :=
  tag_of d x = js "A" ∧
  ∃ a, above d x a ∧ above d a document ∧ element_at d a = true ∧ class_test d (js "pagination") a = true.

Definition hidden (e : nid) (d : dom) : dom := alter (style_put (js "display") (js "none")) e d.
End page.

(** ** Hiding an element changes no test *)

Section hidden.
Context (d : dom) (e : nid).
#[local] Abbreviation d' := (hidden e d).

Lemma hidden_field {A} (f : node → A) : (∀ n, f (style_put (js "display") (js "none") n) = f n) →
  ∀ x, f <$> d' !! x = f <$> d !! x.
Proof.
  intros Hf x. unfold hidden. destruct (decide (x = e)) as [->|Hx].
  - rewrite lookup_alter_eq. destruct (d !! e) as [n|]; cbn; [by rewrite Hf|done].
  - by rewrite lookup_alter_ne.
Qed.
Lemma hidden_by {A B} (f : node → A) (g : A → B) z : (∀ n, f (style_put (js "display") (js "none") n) = f n) →
  ∀ x, match d' !! x with Some n => g (f n) | None => z end = match d !! x with Some n => g (f n) | None => z end.
Proof.
  intros Hf x. pose proof (hidden_field f Hf x) as Hx. destruct (d' !! x), (d !! x); cbn in Hx; congruence.
Qed.
Lemma hidden_parent x : parent_of d' x = parent_of d x.
Proof. apply (hidden_by parentNode id None). done. Qed.
Lemma hidden_children o : child_list d' o = child_list d o.
Proof. destruct o as [x|]; [|done]. apply (hidden_by childNodes id []). done. Qed.
Lemma hidden_tag x : tag_of d' x = tag_of d x.
Proof. apply (hidden_by tagName id []). done. Qed.
Lemma hidden_attr x k : attr_of d' x k = attr_of d x k.
Proof. apply (hidden_by attrs (λ a, a !! k) None). done. Qed.
Lemma hidden_class x c : class_test d' c x = class_test d c x.
Proof.
  assert (class_of d' x = class_of d x) as Hc by (apply (hidden_by className id []); done).
  unfold class_test. by rewrite Hc.
Qed.
Lemma hidden_element x : element_at d' x = element_at d x.
Proof. apply (hidden_by is_element id false). done. Qed.
Lemma hidden_above x a : above d' x a ↔ above d x a.
Proof.
  unfold above. assert (∀ y z, parent_of d' y = Some z ↔ parent_of d y = Some z) as Hp by (intros; by rewrite hidden_parent).
  split; induction 1 as [y z Hy|y z w Hy _ IH]; [apply tc_once|eapply tc_l; [|exact IH]|apply tc_once|eapply tc_l; [|exact IH]]; by apply Hp.
Qed.
Lemma hidden_html : html_ok d → html_ok d'.
Proof.
  intros [[H1 H2 H3] [depth Hd] Ht Hc]. split.
  - split; intros *; rewrite ?hidden_children, ?hidden_parent; auto.
  - exists depth. intros x p. rewrite hidden_parent. apply Hd.
  - intros x. by rewrite hidden_tag.
  - intros x. by rewrite hidden_tag.
Qed.
Lemma hidden_pagination x : pagination_link d' x ↔ pagination_link d x.
Proof.
  unfold pagination_link. rewrite hidden_tag. apply and_iff_compat_l.
  split; intros [a Ha]; exists a; rewrite !hidden_above, hidden_element, hidden_class in *; exact Ha.
Qed.
End hidden.

(** ** The tests *)

(** Where the engine leaves the search for an expression to the browser, the
    browser finds in the document what it is to find. *)
Record browser_finds `{SelectorHost} (d : dom) (e : jsstr) (P : nid → Prop) : Prop := {
  finds_api x : shouldUseSelectorsAPI e = true → x ∈ querySelectorAll d document e ↔ P x;
  finds_xpath t : shouldUseSelectorsAPI e = false → shouldUseXPath e = true → xpath_of e = Ret t →
    ∃ l, document_evaluate t d document = Ret l ∧ ∀ x, x ∈ l ↔ P x;
}.

Section tests.
Context `{SelectorHost} (d : dom) (Hd : html_ok d).

(** A new selector for an expression both compilers take. *)
Lemma new_selector_run e p t s : ready d s → strip e ∉ object_prototype → program_of (strip e) = Some p → xpath_of (strip e) = Ret t →
  ∃ s', ready d s' ∧ new_selector e s = (Ret (
    if shouldUseSelectorsAPI (strip e) then Selector_ (strip e) ModeAPI None
    else if shouldUseXPath (strip e) then Selector_ (strip e) ModeXPath (Some (XPathText t))
    else Selector_ (strip e) ModeNormal (Some (Matcher p))), s').
Proof.
  intros (Hs & Hc & Hk) Hown Hp Ht. unfold new_selector. destruct (shouldUseSelectorsAPI (strip e)); [by exists s|].
  destruct (shouldUseXPath (strip e)) eqn:Hx; unfold mbind, js_mbind.
  - unfold compileXPathMatcher. rewrite js_bind_get. destruct (cached s (strip e)) as [m|] eqn:Hm.
    + apply cached_ok in Hm as [Hm|[_ ?]]; [|done..]. exists s. split; [done|].
      destruct m as [q|u|]; [by destruct Hm; congruence| |done]. by replace u with t by (destruct Hm; congruence).
    + rewrite Ht, js_bind_modify. eexists. split; [|reflexivity]. split_and!; [done|done|]. intros e' m. cbn.
      destruct (decide (e' = strip e)) as [->|]; rewrite ?lookup_insert_eq, ?lookup_insert_ne by done; [by intros [= <-]|apply Hk].
  - destruct (compileMatcher (strip e) s) as [r s'] eqn:Hrun.
    pose proof Hrun as (Hs' & [c ->] & Hr)%compileMatcher_ok; [|done..]. eexists. destruct r as [m|x].
    + destruct (Hr m eq_refl) as [(q & -> & Hq)|[_ ?]]; [|done]. replace q with p by congruence. split; [|reflexivity]. done.
    + exfalso. unfold compileMatcher in Hrun. rewrite js_bind_get in Hrun. destruct (cached s (strip e)); [done|]. by rewrite Hp in Hrun.
Qed.

(** An expression that is one name, for the engine and for [match]. *)
Definition one_name (name : jsstr) : bool :=
  match match_tokens (strip name), program_of (strip name), xpath_of (strip name) with
  | Some [(TagName, m)], Some _, Ret _ => bool_decide (m_group_or_empty m 1 = name) && bool_decide (strip name ∉ object_prototype)
  | _, _, _ => false
  end.
Lemma match_tag x name s : one_name name = true → ready d s →
  ∃ s', element_match x name s = (Ret (bool_decide (tag_of d x = toUpperCase name)), s') ∧ ready d s'.
Proof using Hd.
  unfold one_name. destruct (match_tokens _) as [[|[[] m] [|]]|] eqn:Hm; try done.
  destruct (program_of _) as [p|] eqn:Hp; [|done]. destruct (xpath_of _) as [t|] eqn:Ht; [|done].
  intros [Hname%bool_decide_eq_true Hown%bool_decide_eq_true]%andb_true_iff Hs.
  destruct (new_selector_run name p t s Hs Hown Hp Ht) as (s1 & (<- & Hc & Hk) & Hrun).
  unfold element_match. rewrite (js_bind_Ret _ _ _ _ _ Hrun). unfold selector_match.
  match goal with |- context [expression ?z] => replace (expression z) with (strip name) by (by repeat case_match) end. rewrite Hm.
  exists s1. split; [|done]. unfold on_dom, assert_all. cbn [assertion].
  rewrite js_bind_assoc, js_bind_get, js_bind_ret, html_tags, Hname by done.
  destruct s1. cbn. repeat case_bool_decide; by try congruence.
Qed.

Definition in_pagination (E : jsstr → option (list nid)) (x : nid) : bool :=
  sat d document E
    [(Some Descendant, STag (js "a")); (None, SClass (js "pagination"))] x.
Lemma in_pagination_spec E x : element_at d x = true ∧ above d x document ∧ in_pagination E x = true ↔ pagination_link d x.
Proof using Hd.
  unfold in_pagination, pagination_link. cbn [sat or_itself test token_test candidates]. rewrite andb_false_l, orb_false_r.
  rewrite andb_true_iff, bool_decide_eq_false_2, orb_false_l, bool_decide_eq_true by done.
  assert (toUpperCase (js "a") = js "A") as -> by reflexivity. rewrite existsb_elem. split.
  - intros (_ & _ & Ht & a & [Ha1 Ha2]%elem_of_ancestors & [Hc Hr]%andb_true_iff); [|by apply Hd].
    split; [done|]. exists a. split_and!; [done|by apply has_ancestor_above in Hr; [|apply Hd]|done|done].
  - intros (Ht & a & Ha & Hr & He & Hc). split_and!.
    + unfold tag_of in Ht. unfold element_at. destruct (d !! x) as [n|]; [|done]. unfold is_element, tagName in *.
      by destruct (kind n).
    + unfold above in *. by etransitivity.
    + done.
    + exists a. split; [by apply elem_of_ancestors; [apply Hd|]|]. apply andb_true_iff. split; [done|].
      by apply has_ancestor_above; [apply Hd|].
Qed.

Definition pagination_program : list stmt := [SClass (js "pagination"); SCombinator Descendant; STag (js "a")].
Lemma pagination_parsed : program_of (strip (js ".pagination a")) = Some pagination_program.
Proof. by vm_compute. Qed.
Lemma pagination_reference E :
  reference_program d document E pagination_program = Some (List.filter (in_pagination E) (descendants_of d document)).
Proof. reflexivity. Qed.

Lemma match_pagination x s : browser_finds d (js ".pagination a") (pagination_link d) → ready d s →
  ∃ b s', element_match x (js ".pagination a") s = (Ret b, s') ∧ ready d s' ∧ (b = true ↔ pagination_link d x).
Proof using Hd.
  intros [Hapi Hxp] Hs. set (e := js ".pagination a") in *. assert (strip e = e) as He by (by vm_compute).
  assert (match xpath_of e with Ret _ => true | Throw _ => false end = true) as Ht by (by vm_compute). destruct (xpath_of e) as [t|] eqn:Hte; [clear Ht|done].
  destruct (new_selector_run e pagination_program t s Hs) as (s1 & Hs1 & Hrun).
  { apply (bool_decide_unpack _). by vm_compute. }
  { apply pagination_parsed. }
  { by rewrite He. }
  unfold element_match. rewrite (js_bind_Ret _ _ _ _ _ Hrun). rewrite He. unfold selector_match.
  match goal with |- context [expression ?z] => replace (expression z) with e by (by repeat case_match) end.
  replace (match_tokens e) with (@None (list (token * match_res))) by (by vm_compute).
  unfold findElements_of. pose proof Hs1 as (Hd1 & Hc1 & Hk1).
  destruct (shouldUseSelectorsAPI e); [|destruct (shouldUseXPath e)]; unfold run_selector; cbn [mode compiled_as expression].
  - unfold find_by_api. rewrite bool_decide_eq_true_2 by done. eexists _, s1. split; [reflexivity|]. split; [done|].
    rewrite bool_decide_eq_true, Hd1. by apply Hapi.
  - destruct (Hxp t eq_refl eq_refl eq_refl) as (l & Hl & Hin). unfold asked, reading. rewrite js_bind_assoc, js_bind_gets, Hd1, Hl, js_bind_ret.
    eexists _, s1. split; [reflexivity|]. split; [done|]. by rewrite bool_decide_eq_true.
  - set (E := (λ _, None) : jsstr → option (list nid)).
    destruct (run_selector_plain d document pagination_program (find_with (S (length e))) E e s1 Hd Hs1) with (l := List.filter (in_pagination E) (descendants_of d document))
      as (r & s2 & Hall & Hs2 & Hr); [done|apply pagination_reference|].
    unfold run_selector in Hall. cbn [mode compiled_as] in Hall. rewrite (js_bind_Ret _ _ _ _ _ Hall). eexists _, s2. split_and!; [done..|].
    rewrite bool_decide_eq_true, Hr, elem_of_filter_bool, elem_of_descendants by apply Hd.
    rewrite <- (in_pagination_spec E). tauto.
Qed.
End tests.

(** ** A click *)

Section click.
Context `{SelectorHost} (inner_html href : dom → nid → jsstr) (d : dom) (Hd : html_ok d).

(** The page with another state of the engine. *)
Definition with_sel (s : sel) (p : loaded_page) : loaded_page := LoadedPage s (page_requests p) (page_stopped p).
Lemma on_engine_run {A} (m : JS sel A) p r s : m (page_sel p) = (r, s) → on_engine m p = (r, with_sel s p).
Proof. intros Hm. unfold on_engine. by rewrite Hm. Qed.

Lemma read_run {A} (f : dom → A) p : ready d (page_sel p) → on_engine (reading f) p = (Ret (f d), p).
Proof. intros (Hs & _). unfold on_engine, reading, js_gets. rewrite Hs. by destruct p. Qed.

Lemma closes_popup_run x p : ready d (page_sel p) → inner_html d x ≠ js "Help" →
  ∃ s, closes_popup x p = (Ret (leaves_help inner_html d x), with_sel s p) ∧ ready d s.
Proof using Hd.
  intros Hs Hh. unfold closes_popup, leaves_help. rewrite (bool_decide_eq_false_2 (inner_html d x = _)) by done. cbn [negb andb].
  rewrite (js_bind_Ret _ _ _ _ _ (read_run _ p Hs)).
  case_bool_decide as Ha; cbn [negb orb]; [|exists (page_sel p); by destruct p].
  destruct (match_tag d Hd x (js "Input") (page_sel p)) as (s1 & Hr1 & Hs1); [by vm_compute|done|].
  rewrite (js_bind_Ret _ _ _ _ _ (on_engine_run _ p _ _ Hr1)). replace (toUpperCase (js "Input")) with (js "INPUT") by reflexivity.
  destruct (bool_decide (tag_of d x = js "INPUT")); cbn [orb]; [by exists s1|].
  destruct (match_tag d Hd x (js "Select") s1) as (s2 & Hr2 & Hs2); [by vm_compute|done|].
  exists s2. split; [|done]. by rewrite (on_engine_run _ (with_sel s1 p) _ _ Hr2).
Qed.

(** [hide] of the pop-up, when there is one and when there is none. *)
Lemma hide_popup_run e p : getElementById d (js "dummy_div") = Some e → ready d (page_sel p) →
  ∃ s, hide_popup p = (Ret (), with_sel s p) ∧ ready (hidden e d) s.
Proof.
  intros He (Hs1 & Hs2 & Hs3). pose proof (getElementById_attr _ _ _ He) as Ha. unfold attr_of in Ha.
  destruct (d !! e) as [n|] eqn:Hn; [|done].
  unfold hide_popup, on_engine, on_dom. rewrite Hs1, (on_run _ e) by done. unfold hide, put_style.
  rewrite (update_node_run d e n) by done. by eexists.
Qed.
Lemma no_popup_run p : getElementById d (js "dummy_div") = None → ready d (page_sel p) → hide_popup p = (Throw ETypeError, p).
Proof.
  intros He (Hs1 & Hs2 & Hs3). unfold hide_popup, on_engine, on_dom. rewrite Hs1. unfold on, dollar.
  rewrite js_bind_gets, He. unfold js_throw. destruct p as [[]]. cbn in *. by subst.
Qed.

Lemma close_help_run x p : ready d (page_sel p) →
  ∃ s, ready (if leaves_help inner_html d x then match getElementById d (js "dummy_div") with Some e => hidden e d | None => d end else d) s ∧
  match leaves_help inner_html d x, getElementById d (js "dummy_div") with
  | true, None => close_help inner_html x p = (Throw ETypeError, with_sel s p)
  | true, Some e => close_help inner_html x p = (Ret (), with_sel s p) ∧ hidden e d !! e = style_put (js "display") (js "none") <$> d !! e
  | false, _ => close_help inner_html x p = (Ret (), with_sel s p)
  end.
Proof using Hd.
  intros Hs. unfold close_help. rewrite (js_bind_Ret _ _ _ _ _ (read_run _ p Hs)).
  destruct (decide (inner_html d x = js "Help")) as [Hh|Hh].
  { unfold leaves_help. rewrite Hh, bool_decide_eq_true_2 by done. exists (page_sel p). split; [exact Hs|by destruct p]. }
  destruct (closes_popup_run x p Hs Hh) as (s & Hr & Hs').
  rewrite (bool_decide_eq_false_2 (_ = _)) by done. cbn [negb js_when]. rewrite (js_bind_Ret _ _ _ _ _ Hr).
  destruct (leaves_help inner_html d x); cbn [js_when]; [|by exists s].
  destruct (getElementById d (js "dummy_div")) as [e|] eqn:He.
  - destruct (hide_popup_run e (with_sel s p) He Hs') as (s2 & Hrun & Hs2). exists s2. split_and!; [done..|].
    unfold hidden. by rewrite lookup_alter_eq.
  - exists s. split; [done|]. by apply no_popup_run.
Qed.
End click.

(** What a click does after the pop-up is dealt with, on the document
    [d']. *)
Definition followed (href : dom → nid → jsstr) (d d' : dom) (x : nid) (p p' : loaded_page) : Prop :=
  (pagination_link d x ∧ page_requests p' = page_requests p ++ [(js "get", href d' x)] ∧ page_stopped p' = true) ∨
  (¬ pagination_link d x ∧ page_requests p' = page_requests p ∧ page_stopped p' = page_stopped p).

Lemma follow_link_run `{SelectorHost} href d x p s : browser_finds d (js ".pagination a") (pagination_link d) → html_ok d → ready d s →
  ∃ p', follow_link href x (with_sel s p) = (Ret (), p') ∧ ready d (page_sel p') ∧ followed href d d x p p'.
Proof.
  intros Hf Hd Hs. destruct (match_pagination d Hd x _ Hf Hs) as (b & s' & Hr & Hs' & Hb).
  unfold follow_link. rewrite (js_bind_Ret _ _ _ _ _ (on_engine_run _ (with_sel s p) _ _ Hr)). destruct b; cbn [js_when].
  - rewrite (js_bind_Ret _ _ _ _ _ (read_run d _ (with_sel s' p) Hs')). eexists. split; [reflexivity|]. split; [done|].
    left. split; [by apply Hb|done].
  - eexists. split; [reflexivity|]. split; [done|]. right. split; [|done]. intros ?%Hb. done.
Qed.

(** C10. A click on a page.  Unless its text is Help, a click on anything with an
    address, on a field or on a list hides the help pop-up, and throws, with
    nothing else done, where the page has none; then, exactly for a link
    inside an element of class pagination, as [element.match] finds it on the
    document so changed, one request is made for its address and the event is
    stopped.  The document is one of HTML.  Any browser will do: one with XPath
    or the selectors API, to which the engine leaves the search for
    [.pagination a], is assumed to find what CSS means by it. *)
Theorem page_clicked_spec (H : SelectorHost) (inner_html href : dom → nid → jsstr) (d : dom) (x : nid) (p : loaded_page) :
  (∀ d, html_ok d → browser_finds d (js ".pagination a") (pagination_link d)) → html_ok d → ready d (page_sel p) →
  ∃ r p', page_clicked inner_html href x p = (r, p') ∧
  match leaves_help inner_html d x, getElementById d (js "dummy_div") with
  | true, None => r = Throw ETypeError ∧ ready d (page_sel p') ∧
      page_requests p' = page_requests p ∧ page_stopped p' = page_stopped p
  | true, Some e => r = Ret () ∧ ready (hidden e d) (page_sel p') ∧
      (hidden e d !! e = style_put (js "display") (js "none") <$> d !! e) ∧ followed href d (hidden e d) x p p'
  | false, _ => r = Ret () ∧ ready d (page_sel p') ∧ followed href d d x p p'
  end.
Proof.
  intros Hfinds Hd Hs. unfold page_clicked.
  destruct (close_help_run inner_html d Hd x p Hs) as (s & Hs1 & Hrun).
  destruct (leaves_help inner_html d x); [destruct (getElementById d (js "dummy_div")) as [e|] eqn:He|].
  - destruct Hrun as [Hrun Hn]. rewrite (js_bind_Ret _ _ _ _ _ Hrun).
    destruct (follow_link_run href _ x p s (Hfinds _ (hidden_html d e Hd)) (hidden_html d e Hd) Hs1) as (p' & Hr & Hs' & Hf).
    exists (Ret ()), p'. split_and!; [done..|]. unfold followed in *. by rewrite hidden_pagination in Hf.
  - rewrite (js_bind_Throw _ _ _ _ _ Hrun). by eexists _, _.
  - rewrite (js_bind_Ret _ _ _ _ _ Hrun).
    destruct (follow_link_run href d x p s (Hfinds d Hd) Hd Hs1) as (p' & Hr & Hs' & Hf). by exists (Ret ()), p'.
Qed.

(** ** A concrete page *)

(** A body with the pop-up, shown, a list of pages with a link, a field and
    another link. *)
Definition exceptions_page (popup : jsstr) : dom :=
  {[ 0%nat := Node NDocument ∅ ∅ ∅ None [1%nat];
     1%nat := element (js "BODY") [] 0 [2; 3; 6; 7]%nat;
     2%nat := element (js "DIV") [(js "id", popup)] 1 [];
     3%nat := element (js "DIV") [(js "class", js "grey pagination")] 1 [4%nat];
     4%nat := element (js "SPAN") [] 3 [5%nat];
     5%nat := element (js "A") [(js "href", js "/exceptions?page=2")] 4 [];
     6%nat := element (js "INPUT") [] 1 [];
     7%nat := element (js "A") [(js "href", js "#")] 1 [] ]}.
Lemma exceptions_page_html : html_ok (exceptions_page (js "dummy_div")).
Proof. apply html_ok_check, (bool_decide_unpack _). vm_compute. exact I. Qed.
Definition link_html (_ : dom) (x : nid) : jsstr := if decide (x = 7%nat) then js "Help" else js "2".
Definition link_href (d : dom) (x : nid) : jsstr := default [] (attr_of d x (js "href")).
Definition fresh_page (popup : jsstr) : loaded_page := LoadedPage (page_state (exceptions_page popup)) [] false.
Definition click_at (popup : jsstr) (x : nid) : res () * loaded_page :=
  page_clicked (H := plain_browser) link_html link_href x (fresh_page popup).

Lemma plain_finds d e P : browser_finds (H := plain_browser) d e P.
Proof. by split. Qed.
(** A browser with the selectors API. *)
Definition modern_browser : SelectorHost := {|
  XPath := true; SelectorsAPI := true; WebKit := false; query_ok _ := true;
  querySelectorAll d root e := default [] (selection (H := plain_browser) d root e); document_evaluate _ _ _ := Ret [];
  inherited_matcher _ _ _ := None; inherited_text name := name;
  prop_disabled _ _ := false; prop_checked _ _ := false; prop_type _ _ := [] |}.
Lemma modern_finds d : html_ok d → browser_finds (H := modern_browser) d (js ".pagination a") (pagination_link d).
Proof.
  intros Hd. split; [|intros t Hapi; by discriminate Hapi]. intros x _. cbn [querySelectorAll modern_browser].
  set (E := reference (H := plain_browser) (S (length (strip (js ".pagination a")))) d document).
  assert (selection (H := plain_browser) d document (js ".pagination a") =
    Some (List.filter (in_pagination (H := plain_browser) d E) (descendants_of d document))) as ->.
  { unfold selection. cbn [reference]. rewrite bool_decide_eq_false_2, pagination_parsed by (apply (bool_decide_unpack _); by vm_compute).
    apply pagination_reference. }
  cbn [default from_option id]. rewrite elem_of_filter_bool, elem_of_descendants by apply Hd. rewrite <- (in_pagination_spec (H := plain_browser) d Hd E). tauto.
Qed.

Lemma modern_ready d : ready (H := modern_browser) d (page_state d).
Proof. done. Qed.

Lemma page_clicked_spec_witness : ∃ r p', click_at (js "dummy_div") 5%nat = (r, p') ∧ r = Ret () ∧
  ready (H := plain_browser) (hidden 2%nat (exceptions_page (js "dummy_div"))) (page_sel p') ∧
  ∃ q, page_clicked (H := modern_browser) link_html link_href 5 (fresh_page (js "dummy_div")) = (Ret (), q).
Proof.
  destruct (page_clicked_spec plain_browser link_html link_href _ 5%nat (fresh_page (js "dummy_div"))
    (λ d _, plain_finds d _ _) exceptions_page_html (page_ready _)) as (r & p' & Hrun & Hres).
  exists r, p'. split; [exact Hrun|].
  assert (leaves_help link_html (exceptions_page (js "dummy_div")) 5 = true) as Hl by (vm_compute; reflexivity).
  assert (getElementById (exceptions_page (js "dummy_div")) (js "dummy_div") = Some 2%nat) as He by (vm_compute; reflexivity).
  rewrite Hl, He in Hres. destruct Hres as (Hr & Hs & _). split; [exact Hr|]. split; [exact Hs|].
  destruct (page_clicked_spec modern_browser link_html link_href _ 5%nat (fresh_page (js "dummy_div"))
    modern_finds exceptions_page_html (modern_ready _)) as (r2 & q & Hrun2 & Hres2).
  rewrite Hl, He in Hres2. destruct Hres2 as (Hr2 & _). exists q. rewrite Hrun2, Hr2. reflexivity.
Defined.

(** The link of the list asks for its page; the field only hides the pop-up;
    the link Help does neither. *)
Lemma clicks_on_page :
  (page_requests (click_at (js "dummy_div") 5).2, page_stopped (click_at (js "dummy_div") 5).2) =
    ([(js "get", js "/exceptions?page=2")], true) ∧
  (λ n, style_get n (js "display")) <$> sdom (page_sel (click_at (js "dummy_div") 6).2) !! 2%nat = Some (js "none") ∧
  (page_requests (click_at (js "dummy_div") 6).2, page_stopped (click_at (js "dummy_div") 6).2) = ([], false) ∧
  sdom (page_sel (click_at (js "dummy_div") 7).2) = exceptions_page (js "dummy_div").
Proof. split_and!; vm_compute; reflexivity. Qed.

(** Where the page has no pop-up the request for the next page is not made. *)
Lemma no_popup_no_request :
  (click_at (js "other_div") 5).1 = Throw ETypeError ∧ page_requests (click_at (js "other_div") 5).2 = [].
Proof. split; vm_compute; reflexivity. Qed.

(** On a page without jQuery, as the one of the login is, loading ends with an
    exception and no handler is installed. *)
Lemma login_page_onload container : window_onload false container [] = (Throw EReferenceError, []).
Proof. done. Qed.
