(* ===== verification/Classes.v ===== *)
(** * Classes and functions (prototype.js: Class, Function.prototype)

    Functions and objects live on a heap.  A function is its code, a body of
    the page or a closure one of the methods of functions makes, with the
    text [toString] gives; an object is its properties and its prototype, the
    first object of the heap being [Object.prototype], whose functions are
    given like those of the page.  What bodies of the page do is an argument; they get the means to call
    functions back.  A call takes fuel for its depth and throws a RangeError
    without any, as an engine does whose stack is full. *)

From Stdlib Require Import ZArith QArith.
From S2P Require Import Prelude JsBase JsNum JsRegex JsReplace Strings Hash.
#[local] Open Scope Z_scope.
#[local] Open Scope stdpp_scope.

(** ** The heap *)

(** Plain data, a function or an object. *)
Inductive val := VData (v : jsv) | VFn (f : nat) | VRef (o : nat).
Abbreviation undefined := (VData VUndef).
Definition is_undefined (v : val) : bool := match v with VData VUndef => true | _ => false end.

(** The closures of the library, with what they capture. *)
Inductive code :=
| PageBody (b : nat)
| EmptyFunction
| Klass                                               (* klass *)
| BoundTo (m : nat) (object : val) (args : list val)  (* bind *)
| ListenerOf (m : nat) (object : val) (args : list val)
| Curried (m : nat) (args : list val)
| Wrapped (m wrapper : nat)
| MethodOf (m : nat)                                  (* methodize *)
| SuperOf (ancestor : nat) (name : jsstr).            (* ancestor[m].apply(this, arguments) *)

Record class_data := ClassData { superclass : option nat; subclasses : list nat; prototype : nat }.
(** [valueOf_]: the function another one stands for. *)
Record fn := Fn {
  fn_code : code; fn_source : jsstr; valueOf_ : option nat; _methodized : option nat; fn_class : option class_data }.
Record obj := Obj { proto : option nat; props : list (jsstr * val) }.
(** [timers]: the functions to call, after how many milliseconds and with
    what. *)
Record heap := Heap { fns : list fn; objs : list obj; timers : list (num * nat * list val) }.
#[local] Abbreviation M := (JS heap).

Definition alloc_fn (F : fn) : M nat := λ h, (Ret (length (fns h)), Heap (fns h ++ [F]) (objs h) (timers h)).
Definition alloc_obj (x : obj) : M nat := λ h, (Ret (length (objs h)), Heap (fns h) (objs h ++ [x]) (timers h)).
Definition change_fn (f : nat) (g : fn → fn) : M () := js_modify (λ h, Heap (alter g f (fns h)) (objs h) (timers h)).
Definition set_prop (o : nat) (name : jsstr) (v : val) : M () := js_modify (λ h,
  Heap (fns h) (alter (λ x, Obj (proto x) (assoc_set name v (props x))) o (objs h)) (timers h)).
Definition get_fn (f : nat) : M fn := λ h, match fns h !! f with Some F => (Ret F, h) | None => (Throw ETypeError, h) end.
(** A closure; its text has no name of a parameter but for a listener's. *)
Definition closure (c : code) : M nat :=
  alloc_fn (Fn c (match c with ListenerOf _ _ _ => js "function(event) { }" | _ => js "function() { }" end) None None None).

Definition is_truthy (v : val) : bool :=
  match v with
  | VData (VUndef | VNull) => false
  | VData (VBool b) => b
  | VData (VNum z) => negb (z =? 0)
  | VData (VStr s) => negb (bool_decide (s = []))
  | _ => true
  end.

(** [Object.prototype]: what the prototypes of classes without a parent have
    above them. *)
Definition object_root : nat := 0%nat.
(** A property of an object or of what is above it; prototypes are older than
    their objects. *)
Fixpoint lookup_chain (fuel : nat) (os : list obj) (o : nat) (name : jsstr) : option val :=
  match fuel with
  | O => None
  | S fuel =>
      x ← os !! o;
      match assoc_get name (props x) with
      | Some v => Some v
      | None => p ← proto x; lookup_chain fuel os p name
      end
  end.
Definition member (h : heap) (o : nat) (name : jsstr) : option val := lookup_chain (length (objs h)) (objs h) o name.
Definition get_member (v : val) (name : jsstr) : M val := λ h,
  (Ret (default undefined (match v with VRef o => member h o name | _ => None end)), h).

(** ** Function.prototype *)

(** The pattern of the code: the parameter list is group 1. *)
Definition arguments_rx : rx :=
  (RBol +++ RStar true (RChar (λ c, is_space c || (c =? 40)%N)) +++ RStr (js "function") +++
   RStar true (RChar (none_of (js "("))) +++ RLit 40 +++
   RGroup 1 (RStar true (RChar (none_of (js ")")))) +++ RLit 41)%rx.
(** [None]: the text is no function's, and the match is null. *)
Definition argumentNames (source : jsstr) : option (list jsstr) :=
  m ← rx_match arguments_rx source;
  let names := split (replace_all (RPlus (RChar is_space)) (λ _, []) (m_group_or_empty m 1)) (js ",") in
  Some (if bool_decide (names = [[]]) then [] else names).

(** [arguments.length < 2 && Object.isUndefined(arguments[0])] *)
Definition bind (m : nat) (args : list val) : M nat :=
  if bool_decide (length args < 2)%nat && is_undefined (default undefined (head args)) then mret m
  else closure (BoundTo m (default undefined (head args)) (tail args)).
Definition bindAsEventListener (m : nat) (args : list val) : M nat :=
  closure (ListenerOf m (default undefined (head args)) (tail args)).
Definition curry (m : nat) (args : list val) : M nat :=
  match args with [] => mret m | _ => closure (Curried m args) end.
(** [timeout] is in seconds. *)
Definition delay (m : nat) (timeout : num) (args : list val) : M () := js_modify (λ h,
  Heap (fns h) (objs h) (timers h ++ [(num_mul timeout (int 1000), m, args)])).
Definition defer (m : nat) (args : list val) : M () := delay m (lit (1 # 100)) args.
Definition wrap (m wrapper : nat) : M nat := closure (Wrapped m wrapper).
Definition set_methodized (f : nat) (F : fn) : fn := Fn (fn_code F) (fn_source F) (valueOf_ F) (Some f) (fn_class F).
Definition methodize (m : nat) : M nat :=
  F ← get_fn m;
  match _methodized F with
  | Some f => mret f
  | None => f ← closure (MethodOf m); change_fn m (set_methodized f) ;; mret f
  end.

(** ** Calls *)

Section calls.
(** The bodies of the page, and [window.event]. *)
Context (page : nat → (nat → val → list val → M val) → val → list val → M val) (window_event : val).

(** [f.apply(this, args)] *)
Fixpoint fn_apply (n : nat) (f : nat) (this : val) (args : list val) : M val :=
  match n with
  | O => js_throw ERangeError
  | S n =>
      let call_value (v this : val) (args : list val) : M val :=
        match v with VFn f => fn_apply n f this args | _ => js_throw ETypeError end in
      F ← get_fn f;
      match fn_code F with
      | PageBody b => page b (fn_apply n) this args
      | EmptyFunction => mret undefined
      | Klass => v ← get_member this (js "initialize"); call_value v this args ;; mret undefined
      | BoundTo m object l => fn_apply n m object (l ++ args)
      | ListenerOf m object l =>
          let event := match head args with Some e => if is_truthy e then e else window_event | None => window_event end in
          fn_apply n m object (event :: l)
      | Curried m l => fn_apply n m this (l ++ args)
      | Wrapped m wrapper => b ← bind m [this]; fn_apply n wrapper this (VFn b :: args)
      | MethodOf m => fn_apply n m (VData VNull) (this :: args)
      | SuperOf ancestor name => v ← get_member (VRef ancestor) name; call_value v this args
      end
  end.
(** [object[name](args)] *)
Definition call_method (n : nat) (o : nat) (name : jsstr) (args : list val) : M val :=
  v ← get_member (VRef o) name;
  match v with VFn f => fn_apply n f (VRef o) args | _ => js_throw ETypeError end.
(** [new klass(args)], for a class *)
Definition new_instance (n : nat) (klass : nat) (args : list val) : M nat :=
  K ← get_fn klass;
  o ← alloc_obj (Obj (Some (default object_root (prototype <$> fn_class K))) []);
  fn_apply n klass (VRef o) args ;;
  mret o.
(** A timer of [delay] runs. *)
Definition run_timer (n : nat) (t : num * nat * list val) : M val := fn_apply n t.1.2 (VFn t.1.2) t.2.
End calls.

(** ** Class *)

(** The value [addMethods] stores for a property. *)
Definition method_value (ancestor : option nat) (name : jsstr) (value : val) : M val :=
  match ancestor, value with
  | Some a, VFn method =>
      F ← get_fn method;
      match argumentNames (fn_source F) with
      | None => js_throw ETypeError
      | Some names =>
          if bool_decide (head names = Some (js "$super")) then
            s ← closure (SuperOf a name);
            w ← wrap s method;
            change_fn w (λ W, Fn (fn_code W) (fn_source F) (Some method) (_methodized W) (fn_class W)) ;;
            mret (VFn w)
          else mret value
      end
  | _, _ => mret value
  end.
Definition class_of_fn (K : fn) : M class_data :=
  match fn_class K with Some k => mret k | None => js_throw ETypeError end.
Definition proto_of (h : heap) (c : nat) : option nat := prototype <$> (fns h !! c ≫= fn_class).
Definition addMethods (klass : nat) (source : list (jsstr * val)) : M nat :=
  K ← get_fn klass;
  k ← class_of_fn K;
  h ← js_get;
  let ancestor := superclass k ≫= proto_of h in
  js_each source (λ '(property, value),
    v ← method_value ancestor property value;
    set_prop (prototype k) property v) ;;
  mret klass.

Definition push_subclass (klass : nat) (K : fn) : fn :=
  Fn (fn_code K) (fn_source K) (valueOf_ K) (_methodized K)
    ((λ k, ClassData (superclass k) (subclasses k ++ [klass]) (prototype k)) <$> fn_class K).
(** [Prototype.emptyFunction] is the first function of the heap. *)
Definition emptyFunction : nat := 0%nat.
Definition class_create (parent : option nat) (properties : list (list (jsstr * val))) : M nat :=
  above ← match parent with
          | Some p => P ← get_fn p; k ← class_of_fn P; mret (Some (prototype k))
          | None => mret None
          end;
  p ← alloc_obj (Obj (Some (default object_root above)) []);
  klass ← alloc_fn (Fn Klass (js "function klass() { }") None None (Some (ClassData parent [] p)));
  match parent with Some q => change_fn q (push_subclass klass) | None => mret () end ;;
  js_each properties (λ source, _ ← addMethods klass source; mret ()) ;;
  i ← get_member (VRef p) (js "initialize");
  js_when (negb (is_truthy i)) (set_prop p (js "initialize") (VFn emptyFunction)) ;;
  set_prop p (js "constructor") (VFn klass) ;;
  mret klass.

(** ** The table of classes

    What the program means: each class has a parent and its own methods, as
    they were written. *)

Record cls := Cls { c_parent : option nat; c_methods : list (jsstr * val) }.
Abbreviation class_table := (gmap nat cls).
Definition with_method (name : jsstr) (v : val) (C : cls) : cls := Cls (c_parent C) (assoc_set name v (c_methods C)).
Definition with_methods (source : list (jsstr * val)) (C : cls) : cls :=
  fold_left (λ C '(name, v), with_method name v C) source C.

(** The nearest definition above a class; parents are older. *)
Fixpoint resolve_go (fuel : nat) (T : class_table) (c : nat) (name : jsstr) : option (nat * val) :=
  match fuel with
  | O => None
  | S fuel =>
      C ← T !! c;
      match assoc_get name (c_methods C) with
      | Some v => Some (c, v)
      | None => p ← c_parent C; resolve_go fuel T p name
      end
  end.
Definition resolve (T : class_table) (c : nat) (name : jsstr) : option (nat * val) := resolve_go (S c) T c name.
Definition parents_down (T : class_table) : Prop := ∀ c C p, T !! c = Some C → c_parent C = Some p → (p < c)%nat.

(** What is constant about a function. *)
Definition fn_view (F : fn) := (fn_code F, fn_source F, (λ k, (superclass k, prototype k)) <$> fn_class F).
Definition fview (h : heap) (f : nat) := fn_view <$> fns h !! f.
Definition older (h h' : heap) : Prop := ∀ f V, fview h f = Some V → fview h' f = Some V.
#[export] Instance older_preorder : PreOrder older.
Proof. split; [by intros h f V|]. intros h1 h2 h3 H1 H2 f V HV. by apply H2, H1. Qed.

Definition source_of (h : heap) (f : nat) : option jsstr := (λ V, V.1.2) <$> fview h f.
Definition known (h : heap) (v : val) : Prop := match v with VFn f => is_Some (fview h f) | _ => True end.
(** A method whose first parameter is [$super]. *)
Definition takes_super (h : heap) (v : val) : bool :=
  match v with
  | VFn f => match source_of h f ≫= argumentNames with Some names => bool_decide (head names = Some (js "$super")) | None => false end
  | _ => false
  end.
(** The text of every function of a source is one [argumentNames] reads. *)
Definition readable (h : heap) (v : val) : Prop :=
  match v with VFn f => is_Some (source_of h f ≫= argumentNames) | _ => True end.

(** What a prototype holds for a method: itself, or the wrapper. *)
Definition encodes (h : heap) (above : option nat) (name : jsstr) (v v' : val) : Prop :=
  known h v ∧
  match above, v with
  | Some a, VFn f =>
      if takes_super h v then
        ∃ w s, v' = VFn w ∧ (λ V, V.1.1) <$> fview h w = Some (Wrapped s f) ∧ (λ V, V.1.1) <$> fview h s = Some (SuperOf a name)
      else v' = v
  | _, _ => v' = v
  end.
Definition above_of (h : heap) (C : cls) : option nat := c_parent C ≫= proto_of h.

(** The objects and functions of the heap are those of the table's classes;
    [Object.prototype] has no [initialize]. *)
Record represents (h : heap) (T : class_table) : Prop := {
  rep_class c C : T !! c = Some C → ∃ src p x,
    fview h c = Some (Klass, src, Some (c_parent C, p)) ∧ objs h !! p = Some x ∧ proto x = Some (default object_root (above_of h C)) ∧
    ∀ name, match assoc_get name (c_methods C), assoc_get name (props x) with
            | Some v, Some v' => encodes h (above_of h C) name v v'
            | None, None => True
            | _, _ => False
            end;
  rep_parent c C p : T !! c = Some C → c_parent C = Some p → is_Some (T !! p) ∧ (p < c)%nat;
  rep_down o x p : objs h !! o = Some x → proto x = Some p → (p < o)%nat;
  rep_inj c c' p : is_Some (T !! c) → is_Some (T !! c') → proto_of h c = Some p → proto_of h c' = Some p → c = c';
  rep_empty : fview h emptyFunction = Some (EmptyFunction, js "function() { }", None);
  rep_root : ∃ x, objs h !! object_root = Some x ∧ proto x = None ∧ assoc_get (js "initialize") (props x) = None;
}.

(** ** Lookups *)

Lemma lookup_chain_fuel os name : (∀ o x p, os !! o = Some x → proto x = Some p → (p < o)%nat) →
  ∀ n m o, (o < n)%nat → (o < m)%nat → lookup_chain n os o name = lookup_chain m os o name.
Proof.
  intros Hd. induction n as [|n IH]; intros m o Hn Hm; [lia|]. destruct m as [|m]; [lia|]. cbn [lookup_chain].
  destruct (os !! o) as [x|] eqn:Hx; cbn [mbind option_bind]; [|done]. destruct (assoc_get name (props x)); [done|].
  destruct (proto x) as [p|] eqn:Hp; cbn [mbind option_bind]; [|done]. pose proof (Hd _ _ _ Hx Hp). apply IH; lia.
Qed.
Lemma member_step h o x name : (∀ o x p, objs h !! o = Some x → proto x = Some p → (p < o)%nat) → objs h !! o = Some x →
  member h o name = match assoc_get name (props x) with Some v => Some v | None => p ← proto x; member h p name end.
Proof.
  intros Hd Hx. unfold member. destruct (length (objs h)) as [|n] eqn:Hl.
  { apply lookup_lt_Some in Hx. lia. }
  cbn [lookup_chain]. rewrite Hx. cbn [mbind option_bind]. destruct (assoc_get name (props x)); [done|].
  destruct (proto x) as [p|] eqn:Hp; cbn [mbind option_bind]; [|done].
  pose proof (Hd _ _ _ Hx Hp). apply lookup_lt_Some in Hx.
  apply (lookup_chain_fuel (objs h) name Hd n (S n)); lia.
Qed.
Lemma resolve_step T c C name : parents_down T → T !! c = Some C →
  resolve T c name = match assoc_get name (c_methods C) with Some v => Some (c, v) | None => p ← c_parent C; resolve T p name end.
Proof.
  intros Hd HC. unfold resolve at 1. cbn [resolve_go]. rewrite HC. cbn [mbind option_bind].
  destruct (assoc_get name (c_methods C)); [done|]. destruct (c_parent C) as [p|] eqn:Hp; cbn [mbind option_bind]; [|done].
  assert (∀ n m q, (q < n)%nat → (q < m)%nat → resolve_go n T q name = resolve_go m T q name) as Hfuel.
  { induction n as [|n IH]; intros m q Hn Hm; [lia|]. destruct m as [|m]; [lia|]. cbn [resolve_go].
    destruct (T !! q) as [Q|] eqn:HQ; cbn [mbind option_bind]; [|done]. destruct (assoc_get name (c_methods Q)); [done|].
    destruct (c_parent Q) as [r|] eqn:Hr; cbn [mbind option_bind]; [|done]. pose proof (Hd _ _ _ HQ Hr). apply IH; lia. }
  pose proof (Hd _ _ _ HC Hp). apply Hfuel; lia.
Qed.
Lemma rep_parents h T : represents h T → parents_down T.
Proof. intros Hr c C p HC Hp. by eapply rep_parent. Qed.
Lemma proto_of_view h c V src q p : fview h c = Some (V, src, Some (q, p)) → proto_of h c = Some p.
Proof.
  unfold fview, proto_of. destruct (fns h !! c) as [F|]; cbn; [|done]. unfold fn_view. intros [= _ _ Hk].
  destruct (fn_class F) as [k|]; cbn in *; [|done]. by injection Hk as _ ->.
Qed.

(** Looking a name up in the prototypes finds what the table resolves, or what
    [Object.prototype] has. *)
Lemma member_resolve h T c C p name : represents h T → T !! c = Some C → proto_of h c = Some p →
  match resolve T c name with
  | Some (D, v) => ∃ CD v', T !! D = Some CD ∧ member h p name = Some v' ∧ encodes h (above_of h CD) name v v'
  | None => member h p name = member h object_root name
  end.
Proof.
  intros Hr. revert C p. induction c as [c IH] using lt_wf_ind. intros C p HC Hp.
  rewrite (resolve_step T c C) by (by eapply rep_parents || done).
  destruct (rep_class h T Hr c C HC) as (src & p' & x & Hv & Hx & Hproto & Hm).
  pose proof (proto_of_view _ _ _ _ _ _ Hv) as Hp'. rewrite Hp in Hp'. injection Hp' as <-.
  rewrite (member_step h p x name) by (by apply (rep_down h T Hr) || done). specialize (Hm name).
  destruct (assoc_get name (c_methods C)) as [v|], (assoc_get name (props x)) as [v'|]; try done.
  - exists C, v'. done.
  - rewrite Hproto. unfold above_of. destruct (c_parent C) as [q|] eqn:Hq; cbn [mbind option_bind default]; [|done].
    destruct (rep_parent h T Hr c C q HC Hq) as [[Q HQ] Hlt].
    destruct (rep_class h T Hr q Q HQ) as (? & pq & ? & Hvq & _). pose proof (proto_of_view _ _ _ _ _ _ Hvq) as Hpq.
    rewrite Hpq. cbn [mbind option_bind default]. by apply (IH q Hlt Q pq).
Qed.

(** ** A heap that only gets functions *)

Lemma proto_of_fview h c : proto_of h c = fview h c ≫= λ V, snd <$> V.2.
Proof. unfold proto_of, fview. destruct (fns h !! c) as [F|]; cbn; [|done]. by destruct (fn_class F). Qed.
Lemma older_proto h h' c p : older h h' → proto_of h c = Some p → proto_of h' c = Some p.
Proof.
  rewrite !proto_of_fview. intros Ho. destruct (fview h c) as [V|] eqn:HV; cbn; [|done]. by rewrite (Ho c V HV).
Qed.
Lemma older_source h h' f s : older h h' → source_of h f = Some s → source_of h' f = Some s.
Proof.
  intros Ho. unfold source_of. destruct (fview h f) as [V|] eqn:HV; cbn; [|done]. by rewrite (Ho f V HV).
Qed.
Lemma known_source h f : known h (VFn f) → is_Some (source_of h f).
Proof. unfold known, source_of. by intros [V ->]. Qed.
Lemma takes_super_older h h' v : older h h' → known h v → takes_super h' v = takes_super h v.
Proof.
  intros Ho Hk. destruct v as [|f|]; try done. apply known_source in Hk as [s Hs]. cbn.
  by rewrite Hs, (older_source _ _ _ _ Ho Hs).
Qed.
Lemma known_older h h' v : older h h' → known h v → known h' v.
Proof. intros Ho. destruct v as [|f|]; try done. cbn. intros [V HV]. rewrite (Ho f V HV). by eexists. Qed.
Lemma readable_older h h' v : older h h' → readable h v → readable h' v.
Proof.
  intros Ho. destruct v as [|f|]; try done. cbn. destruct (source_of h f) as [s|] eqn:Hs; cbn; [|by intros [? ?]].
  by rewrite (older_source _ _ _ _ Ho Hs).
Qed.
Lemma code_older h h' f c : older h h' → (λ V, V.1.1) <$> fview h f = Some c → (λ V, V.1.1) <$> fview h' f = Some c.
Proof. intros Ho. destruct (fview h f) as [V|] eqn:HV; cbn; [|done]. by rewrite (Ho f V HV). Qed.
Lemma encodes_older h h' a name v v' : older h h' → encodes h a name v v' → encodes h' a name v v'.
Proof.
  intros Ho [Hk He]. split; [by eapply known_older|]. destruct a as [a|]; [|done]. destruct v as [|f|]; try done.
  rewrite (takes_super_older h h') by done. destruct (takes_super h (VFn f)); [|done].
  destruct He as (w & s & ? & ? & ?). exists w, s. eauto using code_older.
Qed.
Lemma rep_proto h T c : represents h T → is_Some (T !! c) → is_Some (proto_of h c).
Proof.
  intros Hr [C HC]. destruct (rep_class h T Hr c C HC) as (? & p & ? & Hv & _). rewrite (proto_of_view _ _ _ _ _ _ Hv). by eexists.
Qed.
Lemma above_older h h' T c C : older h h' → represents h T → T !! c = Some C → above_of h' C = above_of h C.
Proof.
  intros Ho Hr HC. unfold above_of. destruct (c_parent C) as [p|] eqn:Hp; cbn; [|done].
  destruct (rep_parent h T Hr c C p HC Hp) as [HT _]. destruct (rep_proto h T p Hr HT) as [q Hq].
  by rewrite Hq, (older_proto _ _ _ _ Ho Hq).
Qed.
Lemma represents_older h h' T : older h h' → objs h' = objs h → represents h T → represents h' T.
Proof.
  intros Ho Hobj Hr. split.
  - intros c C HC. destruct (rep_class h T Hr c C HC) as (src & p & x & Hv & Hx & Hp & Hm). exists src, p, x.
    rewrite Hobj, (above_older h h' T c C) by done. split_and!; [by apply Ho|done|done|].
    intros name. specialize (Hm name).
    destruct (assoc_get name (c_methods C)), (assoc_get name (props x)); try done. by eapply encodes_older.
  - apply (rep_parent h T Hr).
  - rewrite Hobj. apply (rep_down h T Hr).
  - intros c c' p Hc Hc' Hp Hp'. destruct (rep_proto h T c Hr Hc) as [q Hq], (rep_proto h T c' Hr Hc') as [q' Hq'].
    rewrite (older_proto _ _ _ _ Ho Hq) in Hp. rewrite (older_proto _ _ _ _ Ho Hq') in Hp'.
    injection Hp as <-. injection Hp' as <-. by eapply rep_inj.
  - apply Ho, (rep_empty h T Hr).
  - rewrite Hobj. apply (rep_root h T Hr).
Qed.

Lemma fview_snoc h F f : fview (Heap (fns h ++ [F]) (objs h) (timers h)) f =
  if decide (f = length (fns h)) then Some (fn_view F) else fview h f.
Proof.
  unfold fview. cbn [fns]. case_decide as Hf.
  - subst. by rewrite list_lookup_middle.
  - destruct (decide (f < length (fns h))%nat); [by rewrite lookup_app_l|].
    rewrite !lookup_ge_None_2; [done|lia|rewrite length_app; cbn; lia].
Qed.
Lemma fview_lt h f V : fview h f = Some V → (f < length (fns h))%nat.
Proof. unfold fview. destruct (fns h !! f) eqn:Hf; [|done]. intros _. by eapply lookup_lt_Some. Qed.
Lemma older_snoc h F : older h (Heap (fns h ++ [F]) (objs h) (timers h)).
Proof. intros f V HV. rewrite fview_snoc. apply fview_lt in HV as Hl. by rewrite decide_False by lia. Qed.
(** A new function, and what is known of it. *)
Lemma alloc_fn_run F h : ∃ h', alloc_fn F h = (Ret (length (fns h)), h') ∧ older h h' ∧ objs h' = objs h ∧
  fview h' (length (fns h)) = Some (fn_view F) ∧ length (fns h') = S (length (fns h)).
Proof.
  eexists. split; [reflexivity|]. split_and!; [apply older_snoc|done|by rewrite fview_snoc, decide_True|].
  cbn. rewrite length_app. cbn. lia.
Qed.

Lemma fview_change h f g f' : fview (change_fn f g h).2 f' =
  if decide (f' = f) then fn_view ∘ g <$> fns h !! f else fview h f'.
Proof.
  unfold fview, change_fn, js_modify. cbn. case_decide as Hf.
  - subst. rewrite list_lookup_alter_eq. by destruct (fns h !! f).
  - by rewrite list_lookup_alter_ne.
Qed.
Lemma older_change_fresh h h1 w g : older h h1 → (length (fns h) ≤ w)%nat → older h (change_fn w g h1).2.
Proof.
  intros Ho Hw f V HV. rewrite fview_change. apply fview_lt in HV as Hl. rewrite decide_False by lia. by apply Ho.
Qed.
Lemma older_change_same h f g : (∀ F, fn_view (g F) = fn_view F) → older h (change_fn f g h).2.
Proof.
  intros Hg f' V HV. rewrite fview_change. case_decide; [|done]. subst. unfold fview in HV.
  destruct (fns h !! f); cbn in *; [|done]. by rewrite Hg.
Qed.
Lemma get_fn_run h f F : fns h !! f = Some F → get_fn f h = (Ret F, h).
Proof. intros HF. unfold get_fn. by rewrite HF. Qed.

(** [addMethods] keeps a value or wraps it. *)
Lemma method_value_run a name v h : known h v → readable h v →
  ∃ v' h', method_value a name v h = (Ret v', h') ∧ older h h' ∧ objs h' = objs h ∧ encodes h' a name v v'.
Proof.
  intros Hk Hread. unfold method_value, encodes. destruct a as [a|]; [|by exists v, h]. destruct v as [|f|]; [by eexists _, h| |by eexists _, h].
  cbn [readable takes_super] in *. pose proof Hk as [V HV]. unfold fview in HV. destruct (fns h !! f) as [F|] eqn:HF; [|done].
  rewrite (js_bind_Ret _ _ _ _ _ (get_fn_run _ _ _ HF)). injection HV as <-.
  assert (source_of h f = Some (fn_source F)) as Hs by (unfold source_of, fview; by rewrite HF). rewrite Hs in Hread.
  cbn [mbind option_bind] in *. destruct (argumentNames (fn_source F)) as [names|] eqn:Hn; [|by destruct Hread].
  case_bool_decide as Hsup.
  2: { exists (VFn f), h. split_and!; [done..|]. rewrite Hs. cbn. by rewrite Hn, bool_decide_eq_false_2. }
  destruct (alloc_fn_run (Fn (SuperOf a name) (js "function() { }") None None None) h) as (h1 & Hr1 & Ho1 & Hobj1 & Hv1 & Hl1).
  rewrite (js_bind_Ret _ _ _ _ _ (Hr1 : closure (SuperOf a name) h = _)).
  destruct (alloc_fn_run (Fn (Wrapped (length (fns h)) f) (js "function() { }") None None None) h1) as (h2 & Hr2 & Ho2 & Hobj2 & Hv2 & Hl2).
  unfold wrap. rewrite (js_bind_Ret _ _ _ _ _ (Hr2 : closure (Wrapped _ _) h1 = _)).
  set (g := λ W, Fn (fn_code W) (fn_source F) (Some f) (_methodized W) (fn_class W)).
  eexists _, (change_fn (length (fns h1)) g h2).2. split; [reflexivity|].
  assert (older h h2) as Ho by (by etransitivity). assert (older h (change_fn (length (fns h1)) g h2).2) as Ho3.
  { apply older_change_fresh; [done|lia]. }
  split_and!; [done|cbn; congruence|by eapply known_older|].
  rewrite (older_source _ _ _ _ Ho3 Hs). cbn [mbind option_bind]. rewrite Hn, bool_decide_eq_true_2 by done.
  eexists _, _. split; [reflexivity|]. split.
  - rewrite fview_change, decide_True by done. unfold fview in Hv2. destruct (fns h2 !! length (fns h1)) as [W|]; [|done].
    cbn in *. by injection Hv2 as ->.
  - rewrite fview_change, decide_False by lia. by rewrite (Ho2 _ _ Hv1).
Qed.

(** Setting a property of a class's prototype sets the method of the table. *)
Lemma set_method h T c C p name v v' : represents h T → T !! c = Some C → proto_of h c = Some p →
  encodes h (above_of h C) name v v' → represents (set_prop p name v' h).2 (<[c := with_method name v C]> T).
Proof.
  intros Hr HC Hp He. set (h' := (set_prop p name v' h).2).
  assert (∀ D, above_of h' D = above_of h D) as Ha by done.
  split.
  - intros d D HD. destruct (decide (d = c)) as [->|Hne].
    + rewrite lookup_insert_eq in HD. injection HD as <-.
      destruct (rep_class h T Hr c C HC) as (src & q & x & Hv & Hx & Hpx & Hm).
      pose proof (proto_of_view _ _ _ _ _ _ Hv) as Hq. rewrite Hp in Hq. injection Hq as <-.
      exists src, p, (Obj (proto x) (assoc_set name v' (props x))). split_and!; [done| |done|].
      { unfold h', set_prop, js_modify. cbn. by rewrite list_lookup_alter_eq, Hx. }
      intros name'. cbn [with_method c_methods props]. rewrite !assoc_get_set. specialize (Hm name').
      case_decide; [subst; done|done].
    + rewrite lookup_insert_ne in HD by done. destruct (rep_class h T Hr d D HD) as (src & q & x & Hv & Hx & Hpx & Hm).
      exists src, q, x. split_and!; [done| |done|done].
      pose proof (proto_of_view _ _ _ _ _ _ Hv) as Hq. unfold h', set_prop, js_modify. cbn. rewrite list_lookup_alter_ne; [done|].
      intros ->. apply Hne. symmetry. by eapply rep_inj.
  - intros d D q HD Hq. destruct (decide (d = c)) as [->|Hne].
    + rewrite lookup_insert_eq in HD. injection HD as <-. destruct (rep_parent h T Hr c C q HC Hq) as [HT Hlt].
      split; [|done]. rewrite lookup_insert_ne by lia. done.
    + rewrite lookup_insert_ne in HD by done. destruct (rep_parent h T Hr d D q HD Hq) as [HT Hlt].
      split; [|done]. by apply lookup_insert_is_Some'; right.
  - intros o x q Hx. unfold h', set_prop, js_modify in Hx. cbn in Hx. rewrite list_lookup_alter in Hx. case_decide; [subst|by apply (rep_down h T Hr)].
    destruct (objs h !! o) as [x0|] eqn:Hx0; [|done]. injection Hx as <-. cbn. by apply (rep_down h T Hr).
  - intros d d' q Hd Hd'. apply (rep_inj h T Hr).
    + destruct (decide (d = c)) as [->|]; [by eexists|]. by rewrite lookup_insert_ne in Hd.
    + destruct (decide (d' = c)) as [->|]; [by eexists|]. by rewrite lookup_insert_ne in Hd'.
  - apply (rep_empty h T Hr).
  - destruct (rep_root h T Hr) as (x & Hx & Hpx & Hi). exists x. split_and!; [|done|done].
    unfold h', set_prop, js_modify. cbn [snd objs]. rewrite list_lookup_alter_ne; [done|]. intros ->.
    destruct (rep_class h T Hr c C HC) as (src & q & y & Hv & Hy & Hpy & _).
    pose proof (proto_of_view _ _ _ _ _ _ Hv) as Hq. congruence.
Qed.

(** ** The operations on the table *)

Definition usable (h : heap) (source : list (jsstr * val)) : Prop := Forall (λ nv, known h nv.2 ∧ readable h nv.2) source.
Lemma usable_older h h' source : older h h' → usable h source → usable h' source.
Proof. intros Ho Hu. eapply Forall_impl; [exact Hu|]. cbn. intros nv [? ?]. split; [by eapply known_older|by eapply readable_older]. Qed.

Lemma add_loop_run T c p source : ∀ h C, represents h T → T !! c = Some C → proto_of h c = Some p → usable h source →
  ∃ h', js_each source (λ '(property, value), v ← method_value (above_of h C) property value; set_prop p property v) h = (Ret (), h') ∧
    represents h' (<[c := with_methods source C]> T) ∧ older h h'.
Proof.
  revert T. induction source as [|[name v] source IH]; intros T h C Hr HC Hp Hu.
  { exists h. split_and!; [done| |done]. cbn. by rewrite insert_id. }
  apply Forall_cons in Hu as [[Hk Hread] Hu]. cbn in Hk, Hread.
  destruct (method_value_run (above_of h C) name v h Hk Hread) as (v' & h1 & Hrun & Ho & Hobj & He).
  cbn [js_each]. rewrite js_bind_assoc, (js_bind_Ret _ _ _ _ _ Hrun).
  pose proof (represents_older h h1 T Ho Hobj Hr) as Hr1. rewrite <- (above_older h h1 T c C Ho Hr HC) in He.
  pose proof (older_proto _ _ _ _ Ho Hp) as Hp1. pose proof (set_method h1 T c C p name v v' Hr1 HC Hp1 He) as Hr2.
  rewrite (js_bind_Ret (set_prop p name v') _ h1 () (set_prop p name v' h1).2 eq_refl).
  destruct (IH _ _ (with_method name v C) Hr2) as (h' & Hrun' & Hr' & Ho'); [by rewrite lookup_insert_eq|done|by eapply usable_older|].
  exists h'. rewrite insert_insert_eq in Hr'. split; [|split; [done|by etransitivity]].
  change (above_of _ (with_method name v C)) with (above_of h1 C) in Hrun'. rewrite (above_older h h1 T c C Ho Hr HC) in Hrun'. exact Hrun'.
Qed.
Lemma addMethods_run h T c C source : represents h T → T !! c = Some C → usable h source →
  ∃ h', addMethods c source h = (Ret c, h') ∧ represents h' (<[c := with_methods source C]> T) ∧ older h h'.
Proof.
  intros Hr HC Hu. destruct (rep_class h T Hr c C HC) as (src & p & x & Hv & _).
  pose proof (proto_of_view _ _ _ _ _ _ Hv) as Hp. unfold fview in Hv. destruct (fns h !! c) as [K|] eqn:HK; [|done].
  injection Hv as Hcode Hsrc Hcls. destruct (fn_class K) as [k|] eqn:Hk; [|done]. injection Hcls as Hsup Hproto.
  unfold addMethods. rewrite (js_bind_Ret _ _ _ _ _ (get_fn_run _ _ _ HK)). unfold class_of_fn. rewrite Hk, js_bind_ret, js_bind_get.
  cbv zeta. rewrite Hsup, Hproto. change (c_parent C ≫= proto_of h) with (above_of h C).
  destruct (add_loop_run T c p source h C Hr HC Hp Hu) as (h' & Hrun & Hr' & Ho).
  rewrite (js_bind_Ret _ _ _ _ _ Hrun). by exists h'.
Qed.

(** The class [create] makes for a table. *)
Definition initialized (T : class_table) (c : nat) (C : cls) : bool :=
  match resolve (<[c := C]> T) c (js "initialize") with Some (_, v) => is_truthy v | None => false end.
Definition created (T : class_table) (c : nat) (parent : option nat) (properties : list (list (jsstr * val))) : cls :=
  let C := fold_left (λ C source, with_methods source C) properties (Cls parent []) in
  with_method (js "constructor") (VFn c) (if initialized T c C then C else with_method (js "initialize") (VFn emptyFunction) C).

(** The new class before its methods. *)
Lemma new_class_run h T parent : represents h T → (∀ q, parent = Some q → is_Some (T !! q)) →
  let c := length (fns h) in let p := length (objs h) in
  let above := parent ≫= proto_of h in
  let h2 := Heap (fns h ++ [Fn Klass (js "function klass() { }") None None (Some (ClassData parent [] p))])
              (objs h ++ [Obj (Some (default object_root above)) []]) (timers h) in
  older h h2 ∧ represents h2 (<[c := Cls parent []]> T) ∧ proto_of h2 c = Some p.
Proof.
  intros Hr Hpar c p above h2.
  assert (older h h2) as Ho by apply older_snoc.
  assert (∀ f, fview h2 f = if decide (f = c) then Some (Klass, js "function klass() { }", Some (parent, p)) else fview h f) as Hview.
  { intros f. unfold h2. change (fview (Heap (fns h ++ ?l) ?o ?t) f) with (fview (Heap (fns h ++ l) (objs h) t) f). by rewrite fview_snoc. }
  assert (proto_of h2 c = Some p) as Hpc.
  { rewrite proto_of_fview, Hview, decide_True by done. done. }
  assert (T !! c = None) as HTc.
  { destruct (T !! c) as [C|] eqn:HC; [|done]. destruct (rep_class h T Hr c C HC) as (? & ? & ? & Hv & _).
    apply fview_lt in Hv. unfold c in Hv. lia. }
  assert (∀ C d, T !! d = Some C → above_of h2 C = above_of h C) as Habove by (intros; by eapply above_older).
  split_and!; [done| |done]. split.
  - intros d D HD. destruct (decide (d = c)) as [->|Hne].
    + rewrite lookup_insert_eq in HD. injection HD as <-. exists (js "function klass() { }"), p, (Obj (Some (default object_root above)) []).
      rewrite Hview, decide_True by done. split_and!; [done|by unfold h2; cbn; rewrite list_lookup_middle| |done].
      cbn -[object_root]. unfold above, above_of. cbn -[object_root]. destruct parent as [q|]; [|done]. cbn -[object_root].
      destruct (rep_proto h T q Hr (Hpar q eq_refl)) as [r Hq]. by rewrite Hq, (older_proto _ _ _ _ Ho Hq).
    + rewrite lookup_insert_ne in HD by done. destruct (rep_class h T Hr d D HD) as (src & q & x & Hv & Hx & Hpx & Hm).
      exists src, q, x. rewrite (Habove _ _ HD). split_and!; [by apply Ho|by apply lookup_app_l_Some|done|].
      intros name. specialize (Hm name). destruct (assoc_get name (c_methods D)), (assoc_get name (props x)); try done.
      by eapply encodes_older.
  - intros d D q HD Hq. destruct (decide (d = c)) as [->|Hne].
    + rewrite lookup_insert_eq in HD. injection HD as <-. cbn in Hq. specialize (Hpar q Hq) as HTq. split.
      * by apply lookup_insert_is_Some'; right.
      * destruct HTq as [Q HQ]. destruct (rep_class h T Hr q Q HQ) as (? & ? & ? & Hv & _). by apply fview_lt in Hv.
    + rewrite lookup_insert_ne in HD by done. destruct (rep_parent h T Hr d D q HD Hq) as [HT Hlt].
      split; [|done]. by apply lookup_insert_is_Some'; right.
  - intros o x q Hx Hq. unfold h2 in Hx. cbn in Hx. apply lookup_app_Some in Hx as [Hx|[Hlen Hx]]; [by eapply rep_down|].
    apply list_lookup_singleton_Some in Hx as [Ho0 <-]. cbn in Hq.
    destruct (rep_root h T Hr) as (x0 & Hx0 & _). apply lookup_lt_Some in Hx0.
    unfold above in Hq. destruct parent as [r|]; cbn in Hq; [|injection Hq as <-; change (0 < o)%nat; unfold object_root in *; lia].
    destruct (Hpar r eq_refl) as [R HR]. destruct (rep_class h T Hr r R HR) as (? & q' & ? & Hv & Hxq & _).
    rewrite (proto_of_view _ _ _ _ _ _ Hv) in Hq. cbn in Hq. injection Hq as <-. apply lookup_lt_Some in Hxq. lia.
  - assert (∀ d q, T !! d ≠ None → proto_of h2 d = Some q → proto_of h d = Some q ∧ (q < p)%nat ∧ d ≠ c) as Hold.
    { intros d q Hd Hq. destruct (T !! d) as [D|] eqn:HD; [|done]. destruct (rep_class h T Hr d D HD) as (? & q' & ? & Hv & Hxq & _).
      pose proof (proto_of_view _ _ _ _ _ _ Hv) as Hq'. rewrite (older_proto _ _ _ _ Ho Hq') in Hq. injection Hq as <-.
      apply lookup_lt_Some in Hxq. split_and!; [done|done|congruence]. }
    intros d d' q Hd Hd' Hq Hq'. destruct (decide (d = c)) as [->|Hne], (decide (d' = c)) as [->|Hne']; [done| | |].
    + rewrite lookup_insert_ne in Hd' by done. destruct (Hold d' q) as (_ & ? & _); [by apply not_eq_None_Some|done|]. rewrite Hpc in Hq. injection Hq as <-. lia.
    + rewrite lookup_insert_ne in Hd by done. destruct (Hold d q) as (_ & ? & _); [by apply not_eq_None_Some|done|]. rewrite Hpc in Hq'. injection Hq' as <-. lia.
    + rewrite lookup_insert_ne in Hd, Hd' by done. destruct (Hold d q) as (? & _); [by apply not_eq_None_Some|done|].
      destruct (Hold d' q) as (? & _); [by apply not_eq_None_Some|done|]. by eapply rep_inj.
  - apply Ho, (rep_empty h T Hr).
  - destruct (rep_root h T Hr) as (x & Hx & Hpx). exists x. split; [by apply lookup_app_l_Some|done].
Qed.

Lemma parent_run h T parent : represents h T → (∀ q, parent = Some q → is_Some (T !! q)) →
  (match parent with
   | Some p => P ← get_fn p; k ← class_of_fn P; mret (Some (prototype k))
   | None => mret None
   end : JS heap (option nat)) h = (Ret (parent ≫= proto_of h), h).
Proof.
  intros Hr Hpar. destruct parent as [q|]; [|done]. destruct (Hpar q eq_refl) as [Q HQ].
  destruct (rep_class h T Hr q Q HQ) as (? & r & ? & Hv & _). pose proof (proto_of_view _ _ _ _ _ _ Hv) as Hq. cbn. rewrite Hq.
  unfold proto_of in Hq. unfold fview in Hv. destruct (fns h !! q) as [F|] eqn:HF; [|done].
  rewrite (js_bind_Ret _ _ _ _ _ (get_fn_run _ _ _ HF)). cbn in Hq. unfold class_of_fn.
  destruct (fn_class F) as [k|]; [|done]. by injection Hq as <-.
Qed.
Lemma push_run h T parent c : represents h T →
  ∃ h', (match parent with Some q => change_fn q (push_subclass c) | None => mret () end : JS heap ()) h = (Ret (), h') ∧
    older h h' ∧ represents h' T.
Proof.
  intros Hr. destruct parent as [q|]; [|by exists h]. exists (change_fn q (push_subclass c) h).2.
  assert (older h (change_fn q (push_subclass c) h).2) as Ho.
  { apply older_change_same. intros F. unfold fn_view, push_subclass. cbn. by destruct (fn_class F). }
  split_and!; [done|done|]. by eapply represents_older.
Qed.
Lemma create_loop_run T c properties : ∀ h C, represents h (<[c := C]> T) → Forall (usable h) properties →
  ∃ h', js_each properties (λ source, _ ← addMethods c source; mret ()) h = (Ret (), h') ∧ older h h' ∧
    represents h' (<[c := fold_left (λ C source, with_methods source C) properties C]> T).
Proof.
  induction properties as [|source properties IH]; intros h C Hr Hu; [by exists h|].
  apply Forall_cons in Hu as [Hs Hu]. destruct (addMethods_run h _ c C source Hr (lookup_insert_eq _ _ _) Hs) as (h1 & Hrun & Hr1 & Ho1).
  cbn [js_each]. rewrite js_bind_assoc, (js_bind_Ret _ _ _ _ _ Hrun), js_bind_ret. rewrite insert_insert_eq in Hr1.
  destruct (IH h1 _ Hr1) as (h2 & Hrun2 & Ho2 & Hr2).
  { eapply Forall_impl; [exact Hu|]. intros s. by apply usable_older. }
  exists h2. split_and!; [done|by etransitivity|done].
Qed.

(** What the prototype gives for [initialize] is true exactly if what the table
    resolves is. *)
Lemma truthy_member h T c C p : represents h T → T !! c = Some C → proto_of h c = Some p →
  is_truthy (default undefined (member h p (js "initialize"))) =
  match resolve T c (js "initialize") with Some (_, v) => is_truthy v | None => false end.
Proof.
  intros Hr HC Hp. set (name := js "initialize"). pose proof (member_resolve h T c C p name Hr HC Hp) as Hm.
  destruct (resolve T c name) as [[D v]|].
  2: { destruct (rep_root h T Hr) as (x & Hx & Hpx & Hi). fold name in Hi.
    rewrite Hm, (member_step h object_root x), Hi, Hpx by (by apply (rep_down h T Hr) || done). done. }
  destruct Hm as (CD & v' & _ & -> & _ & He). cbn. destruct (above_of h CD); [|by rewrite He].
  destruct v as [|f|]; [by rewrite He| |by rewrite He].
  destruct (takes_super h (VFn f)); [|by rewrite He]. by destruct He as (w & s & -> & _).
Qed.
Lemma encodes_plain h above name f : known h (VFn f) → takes_super h (VFn f) = false → encodes h above name (VFn f) (VFn f).
Proof. intros Hk Ht. split; [done|]. destruct above; [|done]. by rewrite Ht. Qed.
Lemma plain_function h f V : fview h f = Some V → argumentNames V.1.2 = Some [] → known h (VFn f) ∧ takes_super h (VFn f) = false.
Proof.
  intros HV Hn. split; [by eexists|]. cbn. unfold source_of. rewrite HV. cbn. rewrite Hn. done.
Qed.

(** C33. Creating a class on a heap that represents a table adds the class the table
    describes: the sources in their order, later definitions in place of
    earlier ones, an empty [initialize] where none is inherited, and
    [constructor]; the other classes and all functions stay. *)
Theorem class_create_refines (h : heap) (T : class_table) (parent : option nat) (properties : list (list (jsstr * val))) :
  represents h T → (∀ q, parent = Some q → is_Some (T !! q)) → Forall (usable h) properties →
  ∃ c h', class_create parent properties h = (Ret c, h') ∧ c = length (fns h) ∧ older h h' ∧
    represents h' (<[c := created T c parent properties]> T).
Proof.
  intros Hr Hpar Hu. destruct (new_class_run h T parent Hr Hpar) as (Ho2 & Hr2 & Hp2).
  unfold class_create. rewrite (js_bind_Ret _ _ _ _ _ (parent_run h T parent Hr Hpar)).
  set (c := length (fns h)) in *. set (p := length (objs h)) in *. set (h2 := Heap _ _ _) in *.
  set (h1 := Heap (fns h) (objs h ++ [Obj (Some (default object_root (parent ≫= proto_of h))) []]) (timers h)).
  rewrite (js_bind_Ret (alloc_obj _) _ h p h1 eq_refl), (js_bind_Ret (alloc_fn _) _ h1 c h2 eq_refl).
  destruct (push_run h2 _ parent c Hr2) as (h3 & Hrun3 & Ho3 & Hr3). rewrite (js_bind_Ret _ _ _ _ _ Hrun3).
  destruct (create_loop_run T c properties h3 _ Hr3) as (h4 & Hrun4 & Ho4 & Hr4).
  { eapply Forall_impl; [exact Hu|]. intros s. apply usable_older. by etransitivity. }
  rewrite (js_bind_Ret _ _ _ _ _ Hrun4). set (C := fold_left _ properties _) in *.
  assert (older h h4) as Ho by (by repeat (etransitivity; [done|])). 
  assert (proto_of h4 c = Some p) as Hp4 by (eapply older_proto; [|exact Hp2]; by etransitivity).
  assert ((<[c:=C]> T : class_table) !! c = Some C) as HC by apply lookup_insert_eq.
  pose proof (truthy_member h4 _ c C p Hr4 HC Hp4) as Hinit.
  rewrite (js_bind_Ret (get_member (VRef p) (js "initialize")) _ h4 _ h4 eq_refl), Hinit.
  fold (initialized T c C). 
  destruct (plain_function h4 emptyFunction _ (rep_empty _ _ Hr4)) as [Hke Hte]; [done|].
  assert (∃ h5, js_when (negb (initialized T c C)) (set_prop p (js "initialize") (VFn emptyFunction)) h4 = (Ret (), h5) ∧ older h4 h5 ∧
    fns h5 = fns h4 ∧
    represents h5 (<[c := if initialized T c C then C else with_method (js "initialize") (VFn emptyFunction) C]> T)) as (h5 & Hrun5 & Ho5 & Hf5 & Hr5).
  { destruct (initialized T c C); cbn [negb js_when]; [by exists h4|].
    exists (set_prop p (js "initialize") (VFn emptyFunction) h4).2. split_and!; [done|by intros f V HV|done|].
    rewrite <- (insert_insert_eq T c _ C). eapply set_method; [done|done|done|]. by apply encodes_plain. }
  rewrite (js_bind_Ret _ _ _ _ _ Hrun5). set (C5 := if initialized T c C then _ else _) in *.
  pose proof (older_proto _ _ _ _ Ho5 Hp4) as Hp5.
  rewrite (js_bind_Ret (set_prop _ _ _) _ h5 () _ eq_refl). eexists c, _. split; [reflexivity|]. split; [done|]. split.
  { intros f V HV. by apply Ho5, Ho. }
  destruct (plain_function h5 c (Klass, js "function klass() { }", Some (parent, p))) as [Hkc Htc]; [|done|].
  { apply Ho5, Ho4, Ho3. unfold h2. change (fview (Heap (fns h ++ ?l) ?o ?t) c) with (fview (Heap (fns h ++ l) (objs h) t) c).
    by rewrite fview_snoc, decide_True. }
  unfold created. fold C. fold (initialized T c C). fold C5. rewrite <- (insert_insert_eq T c _ C5).
  eapply set_method; [done|by rewrite lookup_insert_eq|done|]. by apply encodes_plain.
Qed.

(** ** Calls of methods *)

Section method_calls.
Context (page : nat → (nat → val → list val → JS heap val) → val → list val → JS heap val) (window_event : val).
#[local] Abbreviation fn_apply_ := (fn_apply page window_event).

(** The call, on an object, of a method as it is looked up from a class. *)
Definition from_class (n : nat) (c : nat) (name : jsstr) (o : nat) (args : list val) : JS heap val :=
  h ← js_get;
  match proto_of h c ≫= λ p, member h p name with
  | Some (VFn w) => fn_apply_ n w (VRef o) args
  | _ => js_throw ETypeError
  end.
(** An instance of a class without a property of its own of that name. *)
Definition instance (h : heap) (o c : nat) (name : jsstr) : Prop :=
  ∃ x, objs h !! o = Some x ∧ proto x = proto_of h c ∧ assoc_get name (props x) = None.

Lemma instance_call h T c C o name n args : represents h T → T !! c = Some C → instance h o c name →
  call_method page window_event n o name args h = from_class n c name o args h.
Proof.
  intros Hr HC (x & Hx & Hp & Hn). unfold call_method, from_class, get_member.
  destruct (rep_proto h T c Hr (ex_intro _ C HC)) as [p Hpc]. rewrite js_bind_get, Hpc in *. cbn [mbind option_bind].
  unfold mbind, js_mbind. rewrite (member_step h o x name), Hn, Hp by (by apply (rep_down h T Hr) || done). cbn [mbind option_bind].
  by destruct (member h p name) as [[| |]|].
Qed.

Lemma apply_run n f F this args h : fns h !! f = Some F →
  fn_apply_ (S n) f this args h = match fn_code F with
    | Wrapped m wrapper => (b ← bind m [this]; fn_apply_ n wrapper this (VFn b :: args)) h
    | BoundTo m object l => fn_apply_ n m object (l ++ args) h
    | SuperOf ancestor name =>
        (v ← get_member (VRef ancestor) name; match v with VFn f => fn_apply_ n f this args | _ => js_throw ETypeError end) h
    | _ => fn_apply_ (S n) f this args h
    end.
Proof.
  intros HF. destruct (fn_code F) eqn:Hc; try done; cbn [fn_apply]; by rewrite (js_bind_Ret _ _ _ _ _ (get_fn_run _ _ _ HF)), Hc.
Qed.
Lemma code_lookup h f c : (λ V, V.1.1) <$> fview h f = Some c → ∃ F, fns h !! f = Some F ∧ fn_code F = c.
Proof. unfold fview. destruct (fns h !! f) as [F|]; [|done]. cbn. intros [= <-]. by exists F. Qed.

(** A call of [$super], whenever it happens. *)
Lemma super_call h s b q a name o m this args T : represents h T → is_Some (T !! q) → proto_of h q = Some a →
  (λ V, V.1.1) <$> fview h s = Some (SuperOf a name) → (λ V, V.1.1) <$> fview h b = Some (BoundTo s (VRef o) []) →
  fn_apply_ (S (S m)) b this args h = from_class m q name o args h.
Proof.
  intros Hr Hq Ha (S' & HS & HcS)%code_lookup (B & HB & HcB)%code_lookup.
  rewrite (apply_run _ b B) by done. rewrite HcB, app_nil_l, (apply_run _ s S') by done. rewrite HcS.
  unfold from_class, get_member. rewrite js_bind_get, Ha. cbn [mbind option_bind]. unfold mbind, js_mbind.
  by destruct (member h a name) as [[| |]|].
Qed.

(** C34. Calling a method of an instance runs the nearest definition above its
    class, or what [Object.prototype] has of that name.  A definition whose first parameter is [$super], in a class with a
    parent, gets one more argument: a function that, whenever it is called and
    on whatever, runs on the same object the definition the table then has
    nearest above the parent. *)
Theorem method_calls (h : heap) (T : class_table) (c o n : nat) (C : cls) (name : jsstr) (args : list val) :
  represents h T → T !! c = Some C →
  (instance h o c name → call_method page window_event (S n) o name args h = from_class (S n) c name o args h) ∧
  match resolve T c name with
  | Some (D, VFn f) =>
      match T !! D ≫= c_parent, takes_super h (VFn f) with
      | Some q, true =>
          let b := length (fns h) in
          ∃ h1, older h h1 ∧ objs h1 = objs h ∧
            from_class (S n) c name o args h = fn_apply page window_event n f (VRef o) (VFn b :: args) h1 ∧
            ∀ h2 T2 m this args2, older h1 h2 → represents h2 T2 → is_Some (T2 !! q) →
              fn_apply page window_event (S (S m)) b this args2 h2 = from_class m q name o args2 h2
      | _, _ => from_class (S n) c name o args h = fn_apply page window_event (S n) f (VRef o) args h
      end
  | Some _ => from_class (S n) c name o args h = (Throw ETypeError, h)
  | None => from_class (S n) c name o args h =
      match member h object_root name with
      | Some (VFn w) => fn_apply page window_event (S n) w (VRef o) args h
      | _ => (Throw ETypeError, h)
      end
  end.
Proof.
  intros Hr HC. split; [by intros; eapply instance_call|].
  destruct (rep_proto h T c Hr (ex_intro _ C HC)) as [p Hp].
  pose proof (member_resolve h T c C p name Hr HC Hp) as Hm. 
  assert (from_class (S n) c name o args h = (match member h p name with
    | Some (VFn w) => fn_apply_ (S n) w (VRef o) args | _ => js_throw ETypeError end) h) as Hfrom.
  { unfold from_class. by rewrite js_bind_get, Hp. }
  destruct (resolve T c name) as [[D v]|]; [|by rewrite Hfrom, Hm; destruct (member h object_root name) as [[| |]|]].
  destruct Hm as (CD & v' & HD & Hmem & Hk & He). rewrite Hmem in Hfrom. rewrite HD. cbn [mbind option_bind]. rewrite Hfrom. clear Hfrom.
  destruct v as [|f|]; [by destruct (above_of h CD); subst| |by destruct (above_of h CD); subst].
  unfold above_of in He. destruct (c_parent CD) as [q|] eqn:Hq; cbn [mbind option_bind] in *; [|by subst].
  destruct (rep_parent h T Hr D CD q HD Hq) as [HTq _]. destruct (rep_proto h T q Hr HTq) as [a Ha]. rewrite Ha in He.
  destruct (takes_super h (VFn f)); [|by subst]. destruct He as (w & s & -> & (W & HW & HcW)%code_lookup & Hs).
  destruct (alloc_fn_run (Fn (BoundTo s (VRef o) []) (js "function() { }") None None None) h) as (h1 & Hr1 & Ho1 & Hobj1 & Hv1 & _).
  exists h1. split_and!; [done|done| |].
  - rewrite (apply_run _ w W) by done. rewrite HcW. by rewrite (js_bind_Ret (bind s [VRef o]) _ _ _ _ Hr1).
  - intros h2 T2 m this args2 Ho2 Hr2 HTq2. eapply super_call; [done|done| | |].
    + eapply older_proto; [|exact Ha]. by etransitivity.
    + eapply code_older; [|exact Hs]. by etransitivity.
    + eapply code_older; [exact Ho2|]. by rewrite Hv1.
Qed.
End method_calls.

(** ** The methods of functions *)

Section functions.
Context (page : nat → (nat → val → list val → JS heap val) → val → list val → JS heap val) (window_event : val).

(** [bind] and [curry] put their arguments before those of the call, and the
    object of the first [bind] is the one that counts. *)
Lemma bind_curry_calls n m o l h : let b := length (fns h) in ∃ h1, closure (BoundTo m o l) h = (Ret b, h1) ∧
  (∀ this args, fn_apply page window_event (S n) b this args h1 = fn_apply page window_event n m o (l ++ args) h1) ∧
  ∀ o' l', ∃ h2, closure (BoundTo b o' l') h1 = (Ret (S b), h2) ∧ ∀ this args,
    fn_apply page window_event (S (S n)) (S b) this args h2 = fn_apply page window_event n m o (l ++ l' ++ args) h2.
Proof.
  intros b. destruct (alloc_fn_run (Fn (BoundTo m o l) (js "function() { }") None None None) h) as (h1 & Hr1 & Ho1 & _ & Hv1 & Hl1).
  exists h1. split; [exact Hr1|]. assert (∀ h', older h1 h' → ∃ B, fns h' !! b = Some B ∧ fn_code B = BoundTo m o l) as Hb.
  { intros h' Ho. apply code_lookup, (code_older h1); [done|]. unfold b. by rewrite Hv1. }
  split.
  - intros this args. destruct (Hb h1) as (B & HB & Hc); [done|]. by rewrite (apply_run page window_event n _ B), Hc.
  - intros o' l'. destruct (alloc_fn_run (Fn (BoundTo b o' l') (js "function() { }") None None None) h1) as (h2 & Hr2 & Ho2 & _ & Hv2 & _).
    rewrite Hl1 in *. exists h2. split; [exact Hr2|]. intros this args.
    destruct (code_lookup h2 (S b) (BoundTo b o' l')) as (B2 & HB2 & Hc2); [unfold b; by rewrite Hv2|].
    rewrite (apply_run page window_event _ _ B2), Hc2 by done. destruct (Hb h2) as (B & HB & Hc); [done|].
    by rewrite (apply_run page window_event n _ B), Hc.
Qed.

(** [methodize] gives the same function each time. *)
Lemma methodize_once m F h : fns h !! m = Some F → ∃ f h1, methodize m h = (Ret f, h1) ∧ methodize m h1 = (Ret f, h1).
Proof.
  intros HF. unfold methodize. rewrite (js_bind_Ret _ _ _ _ _ (get_fn_run _ _ _ HF)). destruct (_methodized F) as [f|] eqn:Hm.
  { exists f, h. split; [done|]. by rewrite (js_bind_Ret _ _ _ _ _ (get_fn_run _ _ _ HF)), Hm. }
  set (h1 := Heap (fns h ++ [Fn (MethodOf m) (js "function() { }") None None None]) (objs h) (timers h)).
  rewrite (js_bind_Ret (closure (MethodOf m)) _ h (length (fns h)) h1 eq_refl). eexists _, _. split; [reflexivity|].
  rewrite (js_bind_Ret (get_fn m) _ _ (set_methodized (length (fns h)) F) (change_fn m (set_methodized (length (fns h))) h1).2); [done|]. apply get_fn_run. cbn.
  rewrite list_lookup_alter_eq, lookup_app_l by (by eapply lookup_lt_Some). by rewrite HF.
Qed.
End functions.

(** ** Classes of a page *)

(** [speak] of an animal gives its sound; a dog's asks [$super] first. *)
Definition zoo_body (b : nat) (call : nat → val → list val → JS heap val) (this : val) (args : list val) : JS heap val :=
  match b, args with
  | 1%nat, _ => mret (VData (VStr (js "sound")))
  | 2%nat, VFn super :: args =>
      r ← call super (VData VNull) args;
      mret (match r with VData (VStr s) => VData (VStr (s ++ js ", bark")) | r => r end)
  | 3%nat, _ => mret (VData (VStr (js "silence")))
  | 4%nat, _ => mret (VData (VStr (js "[object Object]")))
  | _, _ => js_throw ETypeError
  end.
Definition page_fn (b : nat) (source : jsstr) : fn := Fn (PageBody b) source None None None.
Definition zoo_heap : heap := Heap [
  Fn EmptyFunction (js "function() { }") None None None;
  page_fn 1 (js "function() { return sound }");
  page_fn 2 (js "function($super) { return $super() + bark }");
  page_fn 3 (js "function() { return silence }");
  page_fn 4 (js "function toString() { [native code] }")] [Obj None [(js "toString", VFn 4)]] [].
Definition speak_is (f : nat) : list (jsstr * val) := [(js "speak", VFn f)].
Definition zoo (then_ : nat → JS heap ()) : JS heap val :=
  animal ← class_create None [speak_is 1];
  dog ← class_create (Some animal) [speak_is 2];
  rex ← new_instance zoo_body undefined 9 dog [];
  then_ animal ;;
  call_method zoo_body undefined 9 rex (js "speak") [].
Lemma zoo_speaks : (zoo (λ _, mret ()) zoo_heap).1 = Ret (VData (VStr (js "sound, bark"))).
Proof. vm_compute. reflexivity. Qed.
(** Methods added to the parent later are those [$super] finds. *)
Lemma super_is_late : (zoo (λ animal, _ ← addMethods animal (speak_is 3); mret ()) zoo_heap).1 = Ret (VData (VStr (js "silence, bark"))).
Proof. vm_compute. reflexivity. Qed.

(** Without a parent nothing is put before the arguments: the first one takes
    the place of [$super]. *)
Definition zoo_result (m : JS heap val) : res val := (m zoo_heap).1.
Lemma super_without_parent : zoo_result (
  c ← class_create None [speak_is 2]; o ← new_instance zoo_body undefined 9 c [];
  call_method zoo_body undefined 9 o (js "speak") []) = Throw ETypeError.
Proof. vm_compute. reflexivity. Qed.
(** Where the parent has no such method [$super] throws. *)
Lemma super_without_method : zoo_result (
  a ← class_create None []; c ← class_create (Some a) [speak_is 2]; o ← new_instance zoo_body undefined 9 c [];
  call_method zoo_body undefined 9 o (js "speak") []) = Throw ETypeError.
Proof. vm_compute. reflexivity. Qed.
(** The functions of [Object.prototype] are methods of all instances, and what
    [$super] finds above a class whose parents do not define the name. *)
Lemma inherited_from_root : zoo_result (
  a ← class_create None []; c ← class_create (Some a) [speak_is 2]; o ← new_instance zoo_body undefined 9 c [];
  call_method zoo_body undefined 9 o (js "toString") []) = Ret (VData (VStr (js "[object Object]"))) ∧ zoo_result (
  a ← class_create None []; c ← class_create (Some a) [[(js "toString", VFn 2)]]; o ← new_instance zoo_body undefined 9 c [];
  call_method zoo_body undefined 9 o (js "toString") []) = Ret (VData (VStr (js "[object Object], bark"))).
Proof. vm_compute. split; reflexivity. Qed.
(** A comment before the parameter hides it. *)
Lemma super_after_comment : argumentNames (js "function(/* parent */ $super) { }") = Some [js "/*parent*/$super"].
Proof. vm_compute. reflexivity. Qed.

(** *** Witnesses *)

Lemma zoo_represents : represents zoo_heap ∅.
Proof.
  split; [by intros c C ?%lookup_empty_Some|by intros c C p ?%lookup_empty_Some| |by intros c c' p [? ?%lookup_empty_Some]|done|by eexists].
  intros o x p Ho. by apply list_lookup_singleton_Some in Ho as [-> <-].
Qed.
Lemma class_create_refines_witness : ∃ c h', class_create None [speak_is 1; speak_is 3] zoo_heap = (Ret c, h') ∧ c = 5%nat ∧
  represents h' {[ 5%nat := Cls None [(js "speak", VFn 3); (js "initialize", VFn emptyFunction); (js "constructor", VFn 5)] ]}.
Proof.
  destruct (class_create_refines zoo_heap ∅ None [speak_is 1; speak_is 3] zoo_represents) as (c & h' & Hrun & Hc & _ & Hr).
  - discriminate.
  - repeat constructor; vm_compute; eexists; reflexivity.
  - exists c, h'. split; [exact Hrun|]. split; [exact Hc|]. rewrite Hc in Hr. exact Hr.
Defined.

(** The heap after the two classes and the dog, and its table. *)
Definition kennel : heap := Eval vm_compute in (zoo (λ _, mret ()) zoo_heap).2.
Definition kennel_table : class_table :=
  {[ 5%nat := Cls None [(js "speak", VFn 1); (js "initialize", VFn emptyFunction); (js "constructor", VFn 5)];
     6%nat := Cls (Some 5%nat) [(js "speak", VFn 2); (js "constructor", VFn 6)] ]}.
(** The encoding of functions, decided. *)
Definition encodes_check (h : heap) (above : option nat) (name : jsstr) (v v' : val) : bool :=
  match v, v' with
  | VFn f, VFn f' =>
      bool_decide (is_Some (fns h !! f)) &&
      match above with
      | Some a =>
          if takes_super h v then
            match fn_code <$> fns h !! f' with
            | Some (Wrapped s g) => bool_decide (g = f) &&
                match fn_code <$> fns h !! s with Some (SuperOf a' n) => bool_decide (a' = a) && bool_decide (n = name) | _ => false end
            | _ => false
            end
          else bool_decide (f = f')
      | None => bool_decide (f = f')
      end
  | _, _ => false
  end.
Lemma encodes_checked h above name v v' : encodes_check h above name v v' = true → encodes h above name v v'.
Proof.
  unfold encodes_check, encodes, known, fview. destruct v as [|f|], v' as [|f'|]; try done.
  intros [[F HF]%bool_decide_eq_true He]%andb_true_iff. rewrite HF. split; [by eexists|].
  destruct above as [a|]; [|by apply bool_decide_eq_true in He as ->].
  destruct (takes_super h (VFn f)); [|by apply bool_decide_eq_true in He as ->].
  destruct (fns h !! f') as [W|] eqn:HW; [|done]. cbn in He. destruct (fn_code W) eqn:HcW; try done.
  apply andb_true_iff in He as [->%bool_decide_eq_true He]. destruct (fns h !! m) as [S'|] eqn:HS; [|done]. cbn in He.
  destruct (fn_code S') eqn:HcS; try done. apply andb_true_iff in He as [->%bool_decide_eq_true ->%bool_decide_eq_true].
  exists f', m. rewrite HW, HS. cbn. by rewrite HcW, HcS.
Qed.
Lemma agree_checked h above l l' :
  bool_decide (l.*1 = l'.*1) && forallb (λ p, encodes_check h above p.1.1 p.1.2 p.2.2) (zip l l') = true →
  ∀ name, match assoc_get name l, assoc_get name l' with
          | Some v, Some v' => encodes h above name v v' | None, None => True | _, _ => False end.
Proof.
  revert l'. induction l as [|[k v] l IH]; intros [|[k' v'] l']; [done|by intros [?%bool_decide_eq_true _]%andb_true_iff..|].
  intros [[= -> Hl]%bool_decide_eq_true Hz]%andb_true_iff name. cbn in Hz. apply andb_true_iff in Hz as [He Hz].
  rewrite !assoc_get_cons. case_decide; [subst; by apply encodes_checked|]. apply IH. rewrite bool_decide_eq_true_2 by done. exact Hz.
Qed.
Lemma kennel_represents : represents kennel kennel_table.
Proof.
  assert (∀ c C, kennel_table !! c = Some C → c = 5%nat ∧ C = Cls None [(js "speak", VFn 1); (js "initialize", VFn emptyFunction); (js "constructor", VFn 5)]
    ∨ c = 6%nat ∧ C = Cls (Some 5%nat) [(js "speak", VFn 2); (js "constructor", VFn 6)]) as Hcases.
  { intros c C HC. unfold kennel_table in HC. apply lookup_insert_Some in HC as [[<- <-]|[_ [<- <-]%lookup_singleton_Some]]; auto. }
  split; [| | | |reflexivity|by eexists].
  - intros c C [[-> ->]|[-> ->]]%Hcases;
      (eexists _, _, _; split; [reflexivity|]; split; [reflexivity|]; split; [reflexivity|]; by apply agree_checked; vm_compute).
  - intros c C p [[-> ->]|[-> ->]]%Hcases [= <-]. split; [by eexists|lia].
  - intros o x p Hx Hp. pose proof (lookup_lt_Some _ _ _ Hx) as Hlt. cbn in Hlt.
    destruct o as [|[|[|[|o]]]]; [..|lia]; injection Hx as <-; cbn in Hp; try done; injection Hp as <-; lia.
  - intros c c' p [C [[-> _]|[-> _]]%Hcases] [C' [[-> _]|[-> _]]%Hcases] Hp Hp'; try done; vm_compute in Hp, Hp'; congruence.
Qed.
Lemma method_calls_witness : ∃ h1, older kennel h1 ∧ objs h1 = objs kennel ∧
  call_method zoo_body undefined 7 3 (js "speak") [] kennel = fn_apply zoo_body undefined 6 2 (VRef 3) [VFn (length (fns kennel))] h1.
Proof.
  destruct (method_calls zoo_body undefined kennel kennel_table 6 3 6 _ (js "speak") [] kennel_represents eq_refl) as [Hcall Hrest].
  assert (instance kennel 3 6 (js "speak")) as Hin.
  { exists (Obj (Some 2%nat) []). split; [vm_compute; reflexivity|]. split; vm_compute; reflexivity. }
  assert (resolve kennel_table 6 (js "speak") = Some (6%nat, VFn 2)) as Hres by (vm_compute; reflexivity).
  assert ((kennel_table !! 6%nat ≫= c_parent) = Some 5%nat) as Hpar by (vm_compute; reflexivity).
  assert (takes_super kennel (VFn 2) = true) as Hsup by (vm_compute; reflexivity).
  rewrite Hres, Hpar, Hsup in Hrest. destruct Hrest as (h1 & Ho & Hobj & Hrun & _). exists h1.
  split; [exact Ho|]. split; [exact Hobj|]. rewrite (Hcall Hin). exact Hrun.
Defined.
