(* ===== verification/Widget.v ===== *)
(** * The widget factory (ui.core.js: $.widget; jQuery's extend)

    [$.widget] makes a plugin of a prototype: a method of jQuery that creates
    one instance of the plugin for each element and then passes calls to it.
    The hour sliders are such instances.  Here is one plugin on a page; its
    prototype may override any method of the factory's, and what the page's
    callbacks and event handlers do is an argument. *)

From Stdlib Require Import ZArith QArith Qround.
From S2P Require Import Prelude JsBase JsNum JsRegex Strings Hash.
#[local] Open Scope Z_scope.
#[local] Open Scope stdpp_scope.

(** ** State *)

(** [this.element] and [this.options] *)
Record instance_ := Instance_ { w_element : nat; w_options : object }.
(** [w_data]: the instance [$.data] keeps for an element; [w_bound]: the
    elements whose events setData, getData and remove an instance handles;
    [w_fired]: the events triggered, by name. *)
Record wpage := WPage {
  insts : list instance_; w_data : gmap nat nat; w_classes : gmap nat (gset jsstr); w_aria : gmap nat jsstr;
  w_bound : list (nat * nat); w_fired : list (nat * jsstr) }.
#[local] Abbreviation M := (JS wpage).

Definition new_inst (x : instance_) : M nat := λ w,
  (Ret (length (insts w)), WPage (insts w ++ [x]) (w_data w) (w_classes w) (w_aria w) (w_bound w) (w_fired w)).
Definition change_inst (i : nat) (f : instance_ → instance_) : M () := js_modify (λ w,
  WPage (alter f i (insts w)) (w_data w) (w_classes w) (w_aria w) (w_bound w) (w_fired w)).
Definition change_data (f : gmap nat nat → gmap nat nat) : M () := js_modify (λ w,
  WPage (insts w) (f (w_data w)) (w_classes w) (w_aria w) (w_bound w) (w_fired w)).
Definition change_classes (e : nat) (f : gset jsstr → gset jsstr) : M () := js_modify (λ w,
  WPage (insts w) (w_data w) (<[e := f (default ∅ (w_classes w !! e))]> (w_classes w)) (w_aria w) (w_bound w) (w_fired w)).
Definition change_aria (f : gmap nat jsstr → gmap nat jsstr) : M () := js_modify (λ w,
  WPage (insts w) (w_data w) (w_classes w) (f (w_aria w)) (w_bound w) (w_fired w)).
Definition bind_events (e i : nat) : M () := js_modify (λ w,
  WPage (insts w) (w_data w) (w_classes w) (w_aria w) (w_bound w ++ [(e, i)]) (w_fired w)).
Definition fire_event (e : nat) (name : jsstr) : M () := js_modify (λ w,
  WPage (insts w) (w_data w) (w_classes w) (w_aria w) (w_bound w) (w_fired w ++ [(e, name)])).
Definition get_inst (i : nat) : M instance_ := λ w,
  match insts w !! i with Some x => (Ret x, w) | None => (Throw ETypeError, w) end.
Definition w_truthy (v : jsv) : bool :=
  match v with
  | VUndef | VNull => false
  | VBool b => b
  | VNum z => negb (z =? 0)
  | VStr s => negb (bool_decide (s = []))
  | _ => true
  end.

(** [jQuery.extend(target, ...)], not deep: what is undefined is left out. *)
Definition jquery_extend (target options : object) : object :=
  fold_left (λ t '(k, v), if isUndefined v then t else assoc_set k v t) options target.
(** How many indices are below a length, [i < length]; those of infinity, on
    which the loop does not end, are taken for none. *)
Definition each_count (length : jsv) : nat :=
  match length with
  | VNum n => Z.to_nat n
  | VNull => 0
  | VBool b => if b then 1 else 0
  | v => match to_number (string_of v) with Fin q => Z.to_nat (Qceiling q) | _ => 0 end
  end.
(** [jQuery.each(object, f)]: what is gone through, indices as texts, and
    functions as if they had no parameters; [None]: it throws.  An object with
    a property [length] is taken for an array. *)
Definition each_pairs (v : jsv) : option object :=
  match v with
  | VUndef | VNull => None
  | VObj o =>
      match default VUndef (assoc_get (js "length") o) with
      | VUndef => Some o
      | n => Some ((λ i, let k := num_str (Z.of_nat i) in (k, object_lookup o k)) <$> seq 0 (each_count n))
      end
  | VArr l => Some (imap (λ i x, (num_str (Z.of_nat i), x)) l)
  | VStr s => Some (imap (λ i c, (num_str (Z.of_nat i), VStr [c])) s)
  | _ => Some []
  end.

(** ** The plugin *)

Definition method := (nat → list jsv → M jsv).
(** The methods of the prototype are given by name. *)
Record plugin := Plugin {
  w_namespace : jsstr; w_name : jsstr; eventPrefix : option jsstr; w_defaults : object;
  getter_methods : list jsstr; w_prototype : jsstr → option method }.
(** [$.widget.defaults] *)
Definition widget_defaults : object := [(js "disabled", VBool false)].

Section plugin.
Context (p : plugin).

Definition widgetBaseClass : jsstr := w_namespace p ++ js "-" ++ w_name p.
Definition disabled_classes : gset jsstr := {[ widgetBaseClass ++ js "-disabled"; w_namespace p ++ js "-state-disabled" ]}.
Definition argument (args : list jsv) (i : nat) : jsv := default VUndef (args !! i).
Definition key_text (v : jsv) : jsstr := match v with VStr s => s | v => string_of v end.

(** *** $.widget.prototype *)
Definition base_getData (i : nat) (key : jsv) : M jsv :=
  x ← get_inst i; mret (object_lookup (w_options x) (key_text key)).
Definition base_setData (i : nat) (key value : jsv) : M () :=
  x ← get_inst i;
  change_inst i (λ x, Instance_ (w_element x) (assoc_set (key_text key) value (w_options x))) ;;
  js_when (bool_decide (key_text key = js "disabled"))
    (change_classes (w_element x) (λ c, if w_truthy value then c ∪ disabled_classes else c ∖ disabled_classes) ;;
     js_when (negb (isUndefined value)) (change_aria (<[w_element x := string_of value]>))).
Definition base_destroy (i : nat) : M () :=
  x ← get_inst i;
  change_data (delete (w_element x)) ;;
  change_classes (w_element x) (λ c, c ∖ disabled_classes) ;;
  change_aria (delete (w_element x)).

(** Calls of the methods a prototype may override. *)
Definition self_getData (i : nat) (key : jsv) : M jsv :=
  match w_prototype p (js "_getData") with Some m => m i [key] | None => base_getData i key end.
Definition self_setData (i : nat) (key value : jsv) : M () :=
  match w_prototype p (js "_setData") with Some m => _ ← m i [key; value]; mret () | None => base_setData i key value end.
Definition self_destroy (i : nat) : M () :=
  match w_prototype p (js "destroy") with Some m => _ ← m i []; mret () | None => base_destroy i end.
Definition self_init (i : nat) : M () :=
  match w_prototype p (js "_init") with Some m => _ ← m i []; mret () | None => mret () end.

Definition base_option (i : nat) (key value : jsv) : M jsv :=
  let each (options : jsv) : M jsv :=
    match each_pairs options with
    | Some l => js_each l (λ '(k, v), self_setData i (VStr k) v) ;; mret VUndef
    | None => js_throw ETypeError
    end in
  match key with
  | VStr k => if isUndefined value then self_getData i key else each (VObj [(k, value)])
  | _ => each key
  end.
Definition base_enable (i : nat) : M () := self_setData i (VStr (js "disabled")) (VBool false).
Definition base_disable (i : nat) : M () := self_setData i (VStr (js "disabled")) (VBool true).
(** [instance[name]], when it is a function; [_trigger] and the other names
    with an underscore are not called from outside. *)
Definition method_of (name : jsstr) : option method :=
  match w_prototype p name with
  | Some m => Some m
  | None =>
      if bool_decide (name = js "destroy") then Some (λ i _, base_destroy i ;; mret VUndef)
      else if bool_decide (name = js "option") then Some (λ i args, base_option i (argument args 0) (argument args 1))
      else if bool_decide (name = js "enable") then Some (λ i _, base_enable i ;; mret VUndef)
      else if bool_decide (name = js "disable") then Some (λ i _, base_disable i ;; mret VUndef)
      else None
  end.

(** [_trigger(type, event, data)]: whether to go on.  [prevented] and
    [callback] are what the handlers of the event and the function of the
    options do. *)
Definition w_trigger (prevented : nat → jsstr → M bool) (callback : jsstr → nat → M jsv) (i : nat) (type : jsstr) : M bool :=
  x ← get_inst i;
  let prefix := match eventPrefix p with Some (c :: s) => c :: s | _ => w_name p end in
  let eventName := if bool_decide (type = prefix) then type else prefix ++ type in
  fire_event (w_element x) eventName ;;
  b ← prevented (w_element x) eventName;
  match object_lookup (w_options x) type with
  | VFun f => r ← callback f (w_element x); mret (match r with VBool false => false | _ => negb b end)
  | _ => mret (negb b)
  end.

(** *** The constructor and the method of jQuery *)
Definition construct (e : nat) (options : jsv) : M nat :=
  let given := match options with VObj o => o | VArr l => imap (λ i x, (num_str (Z.of_nat i), x)) l | _ => [] end in
  i ← new_inst (Instance_ e (jquery_extend (jquery_extend (jquery_extend [] widget_defaults) (w_defaults p)) given));
  bind_events e i ;;
  mret i.
(** [$.inArray(method, methods) != -1] *)
Definition getter (method : jsstr) (args : list jsv) : bool :=
  bool_decide (method ∈ getter_methods p ++
    match args with [VStr _] => [js "option"] | _ => [] end).
Definition is_private (options : jsv) : bool := match options with VStr (c :: _) => (c =? 95)%N | _ => false end.
(** [$(elements)[name](options, args...)]: the elements, to chain calls, or a
    value. *)
Inductive plugin_result := Chained | Value (v : jsv).
Definition plugin_call (elements : list nat) (options : jsv) (args : list jsv) : M plugin_result :=
  if is_private options then mret Chained
  else
    match options with
    | VStr name =>
        if getter name args then
          match elements with
          | [] => js_throw ETypeError
          | e :: _ =>
              w ← js_get;
              match w_data w !! e with
              | None => mret (Value VUndef)
              | Some i => match method_of name with
                          | Some m => v ← m i args; mret (Value v)
                          | None => js_throw ETypeError
                          end
              end
          end
        else
          js_each elements (λ e,
            w ← js_get;
            match w_data w !! e, method_of name with
            | Some i, Some m => _ ← m i args; mret ()
            | _, _ => mret ()
            end) ;;
          mret Chained
    | _ =>
        js_each elements (λ e,
          w ← js_get;
          match w_data w !! e with
          | Some _ => mret ()
          | None => i ← construct e options; change_data (<[e := i]>) ;; self_init i
          end) ;;
        mret Chained
    end.

(** Events on an element: [setData], [getData] and [remove]. *)
Definition bound_on (w : wpage) (e : nat) : list nat := snd <$> filter (λ b, b.1 = e) (w_bound w).
Definition setData_event (e : nat) (key value : jsv) : M () :=
  w ← js_get; js_each (bound_on w e) (λ i, self_setData i key value).
Definition remove_event (e : nat) : M () :=
  w ← js_get; js_each (bound_on w e) self_destroy.
End plugin.

(** ** What a plugin is on a page

    A table of the elements that have the widget, with their options, and of
    the elements marked as disabled. *)

Record wtable := WTable { t_options : gmap nat object; t_marked : gset nat }.
Definition t_create (defaults given : object) (T : wtable) (e : nat) : wtable :=
  match t_options T !! e with
  | Some _ => T
  | None => WTable (<[e := jquery_extend (jquery_extend widget_defaults defaults) given]> (t_options T)) (t_marked T)
  end.
Definition t_set (key : jsstr) (value : jsv) (T : wtable) (e : nat) : wtable :=
  match t_options T !! e with
  | Some o => WTable (<[e := assoc_set key value o]> (t_options T))
      (if bool_decide (key = js "disabled") then if w_truthy value then {[e]} ∪ t_marked T else t_marked T ∖ {[e]} else t_marked T)
  | None => T
  end.
(** An option of the name [length] makes the object of options an array, whose
    indices become options without a value. *)
Definition t_option (key : jsstr) (value : jsv) (T : wtable) (e : nat) : wtable :=
  if bool_decide (key = js "length")
  then fold_left (λ T i, t_set (num_str (Z.of_nat i)) VUndef T e) (seq 0 (each_count value)) T
  else t_set key value T e.
Definition t_destroy (T : wtable) (e : nat) : wtable :=
  match t_options T !! e with Some _ => WTable (delete e (t_options T)) (t_marked T ∖ {[e]}) | None => T end.

(** The calls of a plugin of the factory. *)
Inductive wcall :=
| Create (els : list nat) (given : object)
| GetOption (els : list nat) (key : jsstr)
| SetOption (els : list nat) (key : jsstr) (value : jsv)
| SetOptions (els : list nat) (values : object)
| Enable (els : list nat) | Disable (els : list nat) | Destroy (els : list nat)
| Private (els : list nat) (name : jsstr) (args : list jsv).
Definition perform (p : plugin) (c : wcall) : M plugin_result :=
  match c with
  | Create els o => plugin_call p els (VObj o) []
  | GetOption els k => plugin_call p els (VStr (js "option")) [VStr k]
  | SetOption els k v => plugin_call p els (VStr (js "option")) [VStr k; v]
  | SetOptions els o => plugin_call p els (VStr (js "option")) [VObj o]
  | Enable els => plugin_call p els (VStr (js "enable")) []
  | Disable els => plugin_call p els (VStr (js "disable")) []
  | Destroy els => plugin_call p els (VStr (js "destroy")) []
  | Private els name args => plugin_call p els (VStr (js "_" ++ name)) args
  end.
Definition t_step (defaults : object) (T : wtable) (c : wcall) : wtable :=
  match c with
  | Create els o => fold_left (t_create defaults o) els T
  | SetOption els k v => if isUndefined v then T else fold_left (t_option k v) els T
  | SetOptions els o => fold_left (λ T e, fold_left (λ T '(k, v), t_set k v T e) (default [] (each_pairs (VObj o))) T) els T
  | Enable els => fold_left (t_set (js "disabled") (VBool false)) els T
  | Disable els => fold_left (t_set (js "disabled") (VBool true)) els T
  | Destroy els => fold_left t_destroy els T
  | GetOption _ _ | Private _ _ _ => T
  end.
Definition t_result (T : wtable) (c : wcall) : res plugin_result :=
  match c with
  | GetOption [] _ => Throw ETypeError
  | GetOption (e :: _) k => Ret (Value (match t_options T !! e with Some o => object_lookup o k | None => VUndef end))
  | _ => Ret Chained
  end.

(** A plugin that overrides nothing of the factory's. *)
Definition base_names : list jsstr := js <$> ["_init"; "_getData"; "_setData"; "destroy"; "option"; "enable"; "disable"]%string.
Record plain (p : plugin) : Prop := {
  plain_prototype n : n ∈ base_names → w_prototype p n = None;
  plain_getters n : n ∈ base_names → n ∉ getter_methods p;
}.

Definition marks (p : plugin) (w : wpage) (e : nat) : gset jsstr := default ∅ (w_classes w !! e) ∩ disabled_classes p.
Record represents (p : plugin) (w : wpage) (T : wtable) : Prop := {
  rep_data e : match w_data w !! e with
    | Some i => ∃ o, insts w !! i = Some (Instance_ e o) ∧ t_options T !! e = Some o
    | None => t_options T !! e = None
    end;
  rep_marks e : marks p w e = if decide (e ∈ t_marked T) then disabled_classes p else ∅;
}.

Section plain.
Context (p : plugin) (Hp : plain p).
#[local] Abbreviation rep := (represents p).

Ltac plain_names := repeat match goal with
  | |- context [w_prototype p ?n] => rewrite (plain_prototype p Hp n) by (by apply (bool_decide_unpack _); vm_compute)
  end.

(** One element after another. *)
Lemma each_refines (f : nat → M ()) (g : wtable → nat → wtable) :
  (∀ e w T, rep w T → ∃ w', f e w = (Ret (), w') ∧ rep w' (g T e)) →
  ∀ els w T, rep w T → ∃ w', js_each els f w = (Ret (), w') ∧ rep w' (fold_left g els T).
Proof.
  intros Hf. induction els as [|e els IH]; intros w T Hr; [by exists w|]. cbn [js_each fold_left].
  destruct (Hf e w T Hr) as (w1 & Hrun & Hr1). rewrite (js_bind_Ret _ _ _ _ _ Hrun). by apply IH.
Qed.

Lemma marks_change w e f e' : marks p (change_classes e f w).2 e' =
  if decide (e' = e) then f (default ∅ (w_classes w !! e)) ∩ disabled_classes p else marks p w e'.
Proof.
  unfold marks, change_classes, js_modify. cbn. case_decide; [subst; by rewrite lookup_insert_eq|by rewrite lookup_insert_ne].
Qed.
Lemma setData_run i e o key value w : insts w !! i = Some (Instance_ e o) →
  ∃ w', self_setData p i (VStr key) value w = (Ret (), w') ∧ w_data w' = w_data w ∧
    insts w' = alter (λ x, Instance_ (w_element x) (assoc_set key value (w_options x))) i (insts w) ∧
    ∀ e', marks p w' e' = if decide (key = js "disabled" ∧ e' = e)
      then if w_truthy value then disabled_classes p else ∅ else marks p w e'.
Proof using Hp.
  intros Hx. unfold self_setData. plain_names. unfold base_setData.
  rewrite (js_bind_Ret (get_inst i) _ w (Instance_ e o) w) by (unfold get_inst; by rewrite Hx).
  unfold change_inst. rewrite js_bind_modify. set (w1 := WPage _ _ _ _ _ _). cbn [w_element key_text].
  case_bool_decide as Hk; cbn [js_when].
  2: { exists w1. split_and!; [done..|]. intros e'. rewrite decide_False by tauto. done. }
  set (f := λ c : gset jsstr, if w_truthy value then c ∪ disabled_classes p else c ∖ disabled_classes p).
  rewrite (js_bind_Ret (change_classes e f) _ w1 () (change_classes e f w1).2 eq_refl).
  assert (∀ e', marks p (change_classes e f w1).2 e' = if decide (key = js "disabled" ∧ e' = e)
      then if w_truthy value then disabled_classes p else ∅ else marks p w e') as Hm.
  { intros e'. rewrite marks_change. destruct (decide (e' = e)) as [->|Hne]; [rewrite decide_True by done|by rewrite decide_False by tauto].
    unfold f. destruct (w_truthy value); set_solver. }
  destruct (isUndefined value); cbn [negb js_when]; eexists; (split; [reflexivity|]); split_and!; try done; exact Hm.
Qed.

Lemma set_refines i e o key value w T : rep w T → w_data w !! e = Some i → insts w !! i = Some (Instance_ e o) →
  ∃ w', self_setData p i (VStr key) value w = (Ret (), w') ∧ rep w' (t_set key value T e) ∧ w_data w' = w_data w ∧
    insts w' !! i = Some (Instance_ e (assoc_set key value o)).
Proof using Hp.
  intros [Hd Hm] Hi Hx. destruct (setData_run i e o key value w Hx) as (w' & Hrun & Hdata & Hin & Hmarks). exists w'.
  assert (insts w' !! i = Some (Instance_ e (assoc_set key value o))) as Hx' by (by rewrite Hin, list_lookup_alter_eq, Hx).
  assert (t_options T !! e = Some o) as Ho.
  { specialize (Hd e). rewrite Hi in Hd. destruct Hd as (o' & Hx1 & Ho). congruence. }
  split; [done|]. split; [|done]. unfold t_set. rewrite Ho. split; cbn [t_options t_marked].
  - intros e'. rewrite Hdata. specialize (Hd e'). destruct (w_data w !! e') as [i'|] eqn:Hi'.
    + destruct Hd as (o' & Hx1 & Ho'). destruct (decide (e' = e)) as [->|Hne].
      * rewrite lookup_insert_eq. eexists. split; [|done]. congruence.
      * rewrite lookup_insert_ne by done. exists o'. split; [|done]. rewrite Hin, list_lookup_alter_ne; [done|].
        intros ->. congruence.
    + rewrite lookup_insert_ne; [done|]. intros ->. congruence.
  - intros e'. rewrite Hmarks, Hm. case_bool_decide as Hk.
    + destruct (decide (e' = e)) as [->|Hne].
      * rewrite decide_True by done. destruct (w_truthy value); [rewrite decide_True by (clear; set_solver)|rewrite decide_False by (clear; set_solver)]; done.
      * rewrite decide_False by tauto. apply decide_ext. clear -Hne. destruct (w_truthy value); set_solver.
    + rewrite decide_False by tauto. done.
Qed.

Lemma destroy_refines i e w T : rep w T → w_data w !! e = Some i →
  ∃ w', base_destroy p i w = (Ret (), w') ∧ rep w' (t_destroy T e).
Proof using Hp.
  intros [Hd Hm] Hi. pose proof (Hd e) as He. rewrite Hi in He. destruct He as (o & Hx & Ho). unfold base_destroy.
  rewrite (js_bind_Ret (get_inst i) _ w (Instance_ e o) w) by (unfold get_inst; by rewrite Hx). cbn [w_element].
  unfold change_data. rewrite js_bind_modify. set (w1 := WPage _ _ _ _ _ _). set (f := λ c : gset jsstr, c ∖ disabled_classes p).
  rewrite (js_bind_Ret (change_classes e f) _ w1 () (change_classes e f w1).2 eq_refl).
  eexists. split; [reflexivity|]. unfold t_destroy. rewrite Ho. split; cbn [t_options t_marked].
  - intros e'. cbn. destruct (decide (e' = e)) as [->|Hne]; [by rewrite !lookup_delete_eq|].
    rewrite !lookup_delete_ne by done. apply Hd.
  - intros e'. change (marks p (change_classes e f w1).2 e' = if decide (e' ∈ t_marked T ∖ {[e]}) then disabled_classes p else ∅).
    rewrite marks_change. destruct (decide (e' = e)) as [->|Hne].
    + rewrite decide_False by set_solver. unfold f. set_solver.
    + change (marks p w1 e') with (marks p w e'). rewrite Hm. apply decide_ext. clear -Hne. set_solver.
Qed.
Lemma create_refines e given w T : rep w T → w_data w !! e = None →
  ∃ w', (i ← construct p e (VObj given); change_data (<[e := i]>) ;; self_init p i) w = (Ret (), w') ∧
    rep w' (t_create (w_defaults p) given T e).
Proof using Hp.
  intros [Hd Hm] Hi. unfold self_init. plain_names. eexists. split; [reflexivity|].
  pose proof (Hd e) as He. rewrite Hi in He. unfold t_create. rewrite He. split; cbn [t_options t_marked]; [|exact Hm].
  intros e'. cbn. destruct (decide (e' = e)) as [->|Hne].
  - rewrite !lookup_insert_eq. eexists. split; [|done]. by rewrite list_lookup_middle.
  - rewrite !lookup_insert_ne by done. specialize (Hd e'). destruct (w_data w !! e') as [i'|]; [|done].
    destruct Hd as (o & Hx & Ho). exists o. split; [|done]. by apply lookup_app_l_Some.
Qed.

(** A method of the factory on the instances of the elements that have one. *)
Lemma method_each name args (g : wtable → nat → wtable) : w_prototype p name = None → getter p name args = false →
  is_private (VStr name) = false →
  (∀ e T, t_options T !! e = None → g T e = T) →
  (∀ e i w T, rep w T → w_data w !! e = Some i → ∃ m v w', method_of p name = Some m ∧ m i args w = (Ret v, w') ∧ rep w' (g T e)) →
  ∀ els w T, rep w T → ∃ w', plugin_call p els (VStr name) args w = (Ret Chained, w') ∧ rep w' (fold_left g els T).
Proof.
  intros Hn Hg Hpriv Hnone Hm els w T Hr. unfold plugin_call. rewrite Hpriv, Hg.
  set (f := λ e : nat, w ← js_get; match w_data w !! e, method_of p name with
    | Some i, Some m => _ ← m i args; mret () | _, _ => mret () end).
  destruct (each_refines f g) with (els := els) (w := w) (T := T) as (w' & Hrun & Hr'); [|done|].
  - intros e w0 T0 Hr0. unfold f. rewrite js_bind_get. pose proof (rep_data p w0 T0 Hr0 e) as He.
    destruct (w_data w0 !! e) as [i|] eqn:Hi.
    + destruct (Hm e i w0 T0 Hr0 Hi) as (m & v & w1 & -> & Hrun & Hr1). exists w1. by rewrite (js_bind_Ret _ _ _ _ _ Hrun).
    + exists w0. by rewrite (Hnone e T0 He).
  - exists w'. by rewrite (js_bind_Ret _ _ _ _ _ Hrun).
Qed.
Lemma not_getter name args : name ∈ base_names → (∀ v, args = [VStr v] → name ≠ js "option") → getter p name args = false.
Proof using Hp.
  intros Hn Ha. unfold getter. apply bool_decide_eq_false_2. intros [Hin|Hin]%elem_of_app; [by eapply (plain_getters p Hp)|].
  destruct args as [|[] [|]]; try (by apply not_elem_of_nil in Hin). apply list_elem_of_singleton in Hin. by eapply Ha.
Qed.

Lemma base_names_in n : bool_decide (n ∈ base_names) = true → n ∈ base_names.
Proof. by intros ?%bool_decide_eq_true. Qed.
Lemma t_set_none k v T e : t_options T !! e = None → t_set k v T e = T.
Proof. intros He. unfold t_set. by rewrite He. Qed.
Lemma t_sets_none l T e : t_options T !! e = None → fold_left (λ T '(k, v), t_set k v T e) l T = T.
Proof. intros He. induction l as [|[k v] l IH]; [done|]. cbn [fold_left]. by rewrite t_set_none. Qed.

(** Several options at once. *)
Lemma sets_refine i e l w T : rep w T → w_data w !! e = Some i →
  ∃ w', js_each l (λ '(k, v), self_setData p i (VStr k) v) w = (Ret (), w') ∧
    rep w' (fold_left (λ T '(k, v), t_set k v T e) l T).
Proof using Hp.
  revert w T. induction l as [|[k v] l IH]; intros w T Hr Hi; [by exists w|]. cbn [js_each fold_left].
  pose proof (rep_data p w T Hr e) as He. rewrite Hi in He. destruct He as (o & Hx & _).
  destruct (set_refines i e o k v w T Hr Hi Hx) as (w1 & Hrun & Hr1 & Hd1 & _). rewrite (js_bind_Ret _ _ _ _ _ Hrun).
  apply IH; [done|by rewrite Hd1].
Qed.
Lemma able_refines i e b w T : rep w T → w_data w !! e = Some i →
  ∃ w', self_setData p i (VStr (js "disabled")) (VBool b) w = (Ret (), w') ∧ rep w' (t_set (js "disabled") (VBool b) T e).
Proof using Hp.
  intros Hr Hi. pose proof (rep_data p w T Hr e) as He. rewrite Hi in He. destruct He as (o & Hx & _).
  destruct (set_refines i e o (js "disabled") (VBool b) w T Hr Hi Hx) as (w1 & Hrun & Hr1 & _). by exists w1.
Qed.

Lemma perform_create els given w T : rep w T →
  ∃ w', perform p (Create els given) w = (Ret Chained, w') ∧ rep w' (fold_left (t_create (w_defaults p) given) els T).
Proof using Hp.
  intros Hr. cbn [perform]. unfold plugin_call. cbn [is_private].
  match goal with |- context [js_each els ?f] => destruct (each_refines f (t_create (w_defaults p) given)) with (els := els) (w := w) (T := T)
    as (w' & Hrun & Hr'); [|done|by exists w'; rewrite (js_bind_Ret _ _ _ _ _ Hrun)] end.
  intros e w0 T0 Hr0. rewrite js_bind_get. pose proof (rep_data p w0 T0 Hr0 e) as He. destruct (w_data w0 !! e) as [i|] eqn:Hi.
  - destruct He as (o & _ & Ho). exists w0. unfold t_create. by rewrite Ho.
  - by apply create_refines.
Qed.
Lemma method_option : method_of p (js "option") = Some (λ i args, base_option p i (argument args 0) (argument args 1)).
Proof using Hp. unfold method_of. plain_names. reflexivity. Qed.
Lemma method_enable : method_of p (js "enable") = Some (λ i _, base_enable p i ;; mret VUndef).
Proof using Hp. unfold method_of. plain_names. reflexivity. Qed.
Lemma method_disable : method_of p (js "disable") = Some (λ i _, base_disable p i ;; mret VUndef).
Proof using Hp. unfold method_of. plain_names. reflexivity. Qed.
Lemma method_destroy : method_of p (js "destroy") = Some (λ i _, base_destroy p i ;; mret VUndef).
Proof using Hp. unfold method_of. plain_names. reflexivity. Qed.

Lemma option_get i e o k w : insts w !! i = Some (Instance_ e o) → base_option p i (VStr k) VUndef w = (Ret (object_lookup o k), w).
Proof using Hp.
  intros Hx. unfold base_option. cbv zeta. cbn [isUndefined]. unfold self_getData. plain_names. unfold base_getData.
  rewrite (js_bind_Ret (get_inst i) _ w (Instance_ e o) w); [done|]. unfold get_inst. by rewrite Hx.
Qed.
Lemma perform_get els k w T : rep w T → perform p (GetOption els k) w = (t_result T (GetOption els k), w).
Proof using Hp.
  intros Hr. cbn [perform]. unfold plugin_call. replace (is_private (VStr (js "option"))) with false by reflexivity.
  assert (getter p (js "option") [VStr k] = true) as ->.
  { unfold getter. apply bool_decide_eq_true. apply elem_of_app. right. by apply list_elem_of_here. }
  destruct els as [|e els]; [done|]. rewrite js_bind_get, method_option. pose proof (rep_data p w T Hr e) as He. cbn [t_result].
  destruct (w_data w !! e) as [i|]; [|by rewrite He]. destruct He as (o & Hx & ->).
  pose proof (option_get i e o k w Hx) as Hb.
  cbv beta. exact (js_bind_Ret _ _ _ _ _ Hb).
Qed.

Ltac factory_method := apply method_each;
  [plain_names; reflexivity|apply not_getter; [apply base_names_in; vm_compute; reflexivity|try discriminate]|reflexivity|..].

Lemma perform_option els key (f : object) w T : each_pairs key = Some f → (∀ s, key ≠ VStr s) → rep w T →
  ∃ w', plugin_call p els (VStr (js "option")) [key] w = (Ret Chained, w') ∧
    rep w' (fold_left (λ T e, fold_left (λ T '(k, v), t_set k v T e) f T) els T).
Proof using Hp.
  intros Hf Hkey. revert els w T. intros els w T Hr. revert els w T Hr. factory_method.
  - intros v [= ->]. by specialize (Hkey v).
  - intros e T He. by apply t_sets_none.
  - intros e i w T Hr Hi. rewrite method_option. destruct (sets_refine i e f w T Hr Hi) as (w' & Hrun & Hr').
    eexists _, VUndef, w'. split; [reflexivity|]. split; [|done]. unfold base_option, argument. cbn [lookup list_lookup default id].
    destruct key; try (by rewrite Hf, (js_bind_Ret _ _ _ _ _ Hrun)). exfalso. eapply Hkey. reflexivity.
Qed.
(** A number is no name. *)
Lemma num_str_name z s c t : num_str z = s → s = c :: t → (c =? 45)%N || is_digit c = false → False.
Proof using.
  intros Hs -> Hc. destruct (num_str_digits z) as (ds & Hz & Hne & Hds & _). rewrite Hs in Hz. destruct (z <? 0).
  - injection Hz as -> _. done.
  - destruct ds as [|d ds]; [done|]. injection Hz as -> _. apply Forall_cons in Hds as [Hd _]. by rewrite Hd, orb_true_r in Hc.
Qed.
Lemma each_pairs_one k v : isUndefined v = false → each_pairs (VObj [(k, v)]) = Some (
  if bool_decide (k = js "length") then (λ i, (num_str (Z.of_nat i), VUndef)) <$> seq 0 (each_count v) else [(k, v)]).
Proof using.
  intros Hv. cbn [each_pairs]. rewrite assoc_get_cons. case_decide as Hk.
  - subst k. rewrite bool_decide_eq_true_2 by done. cbn [default].
    assert (∀ i, object_lookup [(js "length", v)] (num_str (Z.of_nat i)) = VUndef) as Hi.
    { intros i. unfold object_lookup. rewrite assoc_get_cons, decide_False by (intros Hl; by eapply (num_str_name _ (js "length") 108)).
      cbn [assoc_get]. rewrite bool_decide_eq_false_2; [done|]. unfold object_prototype. intros Hin.
      repeat (apply elem_of_cons in Hin as [Hn|Hin]; [by eapply (num_str_name (Z.of_nat i) _ _ _ Hn)|]). by apply not_elem_of_nil in Hin. }
    destruct v; try done; apply (f_equal Some), list_fmap_ext; intros j x _; cbv zeta; by rewrite Hi.
  - rewrite bool_decide_eq_false_2 by done. done.
Qed.
Lemma t_options_one k v T e : isUndefined v = false →
  fold_left (λ T '(k, v), t_set k v T e) (default [] (each_pairs (VObj [(k, v)]))) T = t_option k v T e.
Proof using.
  intros Hv. rewrite each_pairs_one by done. unfold t_option. case_bool_decide; [|done]. cbn [default]. generalize (seq 0 (each_count v)).
  intros l. revert T. induction l as [|i l IH]; intros T; [done|]. cbn. apply IH.
Qed.
Lemma perform_set els k v w T : rep w T →
  ∃ w', perform p (SetOption els k v) w = (Ret Chained, w') ∧ rep w' (t_step (w_defaults p) T (SetOption els k v)).
Proof using Hp.
  intros Hr. cbn [perform t_step].
  replace (if isUndefined v then T else fold_left (t_option k v) els T)
    with (fold_left (λ T e, if isUndefined v then T else t_option k v T e) els T).
  2: { destruct (isUndefined v); [|done]. clear Hr. by induction els. }
  revert els w T Hr. factory_method.
  - intros e T He. destruct (isUndefined v) eqn:Hv; [done|]. rewrite <- t_options_one by done. by apply t_sets_none.
  - intros e i w T Hr Hi. rewrite method_option. pose proof (rep_data p w T Hr e) as He. rewrite Hi in He. destruct He as (o & Hx & _).
    destruct (isUndefined v) eqn:Hv.
    + destruct v; try done. eexists _, _, w. split; [reflexivity|]. split; [|exact Hr]. by apply option_get with (e := e).
    + destruct (sets_refine i e (default [] (each_pairs (VObj [(k, v)]))) w T Hr Hi) as (w' & Hrun & Hr').
      rewrite t_options_one in Hr' by done. rewrite (each_pairs_one k v Hv) in Hrun.
      eexists _, VUndef, w'. split; [reflexivity|]. split; [|done]. unfold argument. cbn [lookup list_lookup default id].
      unfold base_option. rewrite Hv, (each_pairs_one k v Hv). by rewrite (js_bind_Ret _ _ _ _ _ Hrun).
Qed.
Lemma perform_refines c w T : rep w T → ∃ w', perform p c w = (t_result T c, w') ∧ rep w' (t_step (w_defaults p) T c).
Proof using Hp.
  intros Hr. destruct c as [els o|els k|els k v|els o|els|els|els|els name args]; cbn [t_result t_step].
  - by apply perform_create.
  - exists w. by rewrite (perform_get els k w T).
  - by apply perform_set.
  - destruct (each_pairs (VObj o)) as [l|] eqn:Hl; [by apply (perform_option els (VObj o))|].
    exfalso. revert Hl. cbn [each_pairs]. by destruct (default VUndef _).
  - cbn [perform]. revert els w T Hr. factory_method.
    + intros e T. apply t_set_none.
    + intros e i w T Hr Hi. rewrite method_enable. destruct (able_refines i e false w T Hr Hi) as (w' & Hrun & Hr').
      eexists _, VUndef, w'. split; [reflexivity|]. split; [exact (js_bind_Ret _ _ _ _ _ Hrun)|done].
  - cbn [perform]. revert els w T Hr. factory_method.
    + intros e T. apply t_set_none.
    + intros e i w T Hr Hi. rewrite method_disable. destruct (able_refines i e true w T Hr Hi) as (w' & Hrun & Hr').
      eexists _, VUndef, w'. split; [reflexivity|]. split; [exact (js_bind_Ret _ _ _ _ _ Hrun)|done].
  - cbn [perform]. revert els w T Hr. factory_method.
    + intros e T He. unfold t_destroy. by rewrite He.
    + intros e i w T Hr Hi. rewrite method_destroy. destruct (destroy_refines i e w T Hr Hi) as (w' & Hrun & Hr').
      eexists _, VUndef, w'. split; [reflexivity|]. split; [exact (js_bind_Ret _ _ _ _ _ Hrun)|done].
  - by exists w.
Qed.
End plain.

(** A page runs calls one after another; one that throws ends a script, and
    the next one starts where it stopped. *)
Definition w_run (p : plugin) (calls : list wcall) (w : wpage) : list (res plugin_result) * wpage :=
  fold_left (λ s c, let '(r, w) := perform p c s.2 in (s.1 ++ [r], w)) calls ([], w).
Fixpoint t_results (defaults : object) (T : wtable) (calls : list wcall) : list (res plugin_result) :=
  match calls with [] => [] | c :: calls => t_result T c :: t_results defaults (t_step defaults T c) calls end.

(** Calls whose objects of options have no length the loop over it does not
    end on. *)
Definition ends (c : wcall) : Prop :=
  match c with
  | SetOption _ k v => k = js "length" → to_number (string_of v) ≠ PInf
  | SetOptions _ o => to_number (string_of (default VUndef (assoc_get (js "length") o))) ≠ PInf
  | _ => True
  end.

(** C35. Any sequence of calls of a plugin that overrides nothing of the factory's
    gives the results of the table and leaves a page that represents it: an
    element gets one instance, with the options of the first call over the
    plugin's over the factory's; later ones change nothing; an option read is
    the one set last, but for one of the name [length], of which the indices
    below it are set to nothing instead; elements without the widget are passed over; names with
    an underscore are not called; and the classes of a disabled widget are
    those of exactly the elements disabled last. *)
Theorem plugin_refines (p : plugin) (calls : list wcall) (w : wpage) (T : wtable) : plain p → represents p w T →
  Forall ends calls →
  (w_run p calls w).1 = t_results (w_defaults p) T calls ∧
  represents p (w_run p calls w).2 (fold_left (t_step (w_defaults p)) calls T).
Proof.
  intros Hp Hr _. unfold w_run.
  assert (∀ rs, (fold_left (λ s c, let '(r, w) := perform p c s.2 in (s.1 ++ [r], w)) calls (rs, w)).1 =
      rs ++ t_results (w_defaults p) T calls ∧
    represents p (fold_left (λ s c, let '(r, w) := perform p c s.2 in (s.1 ++ [r], w)) calls (rs, w)).2
      (fold_left (t_step (w_defaults p)) calls T)) as Hgen; [|apply (Hgen [])].
  revert w T Hr. induction calls as [|c calls IH]; intros w T Hr rs; cbn [fold_left t_results]; [by rewrite app_nil_r|].
  destruct (perform_refines p Hp c w T Hr) as (w' & Hrun & Hr'). cbn [snd]. rewrite Hrun. cbn [fst].
  destruct (IH w' _ Hr' (rs ++ [t_result T c])) as [-> ?]. by rewrite <- app_assoc.
Qed.

(** ** A plugin with options and getters like the sliders', and no methods *)

Definition range_plugin : plugin := Plugin (js "ui") (js "range") None
  [(js "max", VNum 100); (js "min", VNum 0); (js "values", VNull)] [js "value"; js "values"] (λ _, None).
Lemma range_plain : plain range_plugin.
Proof.
  split; [done|]. assert (Forall (λ n, n ∉ getter_methods range_plugin) base_names) as Hf.
  { apply (bool_decide_unpack _). vm_compute. exact I. }
  rewrite Forall_forall in Hf. exact Hf.
Qed.
Definition empty_wpage : wpage := WPage [] ∅ ∅ ∅ [] [].
Lemma empty_represents p : represents p empty_wpage (WTable ∅ ∅).
Proof. split; intros e; [done|]. unfold marks. rewrite decide_False by (cbn; set_solver). cbn. rewrite lookup_empty. set_solver. Qed.
Definition some_calls : list wcall := [
  Create [1; 2]%nat [(js "max", VNum 24)]; Create [2; 3]%nat [(js "max", VNum 12)];
  SetOption [2]%nat (js "min") (VNum 1); SetOption [2]%nat (js "length") (VNum 1); GetOption [2]%nat (js "length"); Disable [3; 4]%nat; GetOption [2]%nat (js "max"); Destroy [1]%nat; GetOption [1]%nat (js "max");
  Private [2]%nat (js "init") []; GetOption [] (js "max")].
Lemma plugin_refines_witness : (w_run range_plugin some_calls empty_wpage).1 =
  [Ret Chained; Ret Chained; Ret Chained; Ret Chained; Ret (Value VUndef); Ret Chained; Ret (Value (VNum 24)); Ret Chained; Ret (Value VUndef); Ret Chained; Throw ETypeError].
Proof.
  rewrite (proj1 (plugin_refines range_plugin some_calls empty_wpage (WTable ∅ ∅) range_plain (empty_represents _)
    ltac:(repeat apply List.Forall_cons; try apply List.Forall_nil; cbn; try exact I; intros _; vm_compute; discriminate))).
  vm_compute. reflexivity.
Defined.

(** ** Limits *)

(** An option named [length] cannot be set. *)
Lemma length_option : let w := (w_run range_plugin [Create [1]%nat []; SetOption [1]%nat (js "length") (VNum 2)] empty_wpage).2 in
  (w_options <$> insts w !! 0%nat) ≫= assoc_get (js "length") = None ∧
  (w_options <$> insts w !! 0%nat) ≫= assoc_get (js "1") = Some VUndef.
Proof. vm_compute. split; reflexivity. Qed.

(** A widget created with the option disabled does not get the classes. *)
Lemma created_disabled : let w := (w_run range_plugin [Create [1]%nat [(js "disabled", VBool true)]] empty_wpage).2 in
  (insts w !! 0%nat ≫= λ x, assoc_get (js "disabled") (w_options x)) = Some (VBool true) ∧ w_classes w !! 1%nat = None.
Proof. vm_compute. split; reflexivity. Qed.
(** The handlers of setData outlive [destroy]: the event still marks an
    element without the widget. *)
Lemma destroyed_still_listens :
  let w := (w_run range_plugin [Create [1]%nat []; Destroy [1]%nat] empty_wpage).2 in
  let w' := (setData_event range_plugin 1 (VStr (js "disabled")) (VBool true) w).2 in
  w_data w' !! 1%nat = None ∧ size (default ∅ (w_classes w' !! 1%nat)) = 2%nat.
Proof. vm_compute. split; reflexivity. Qed.
