(* ===== verification/Insertion.v ===== *)
(** * Insertion of content (prototype.js: Element, insert, replace, wrap)

    Elements and markup put into the document at a place given by name.  What
    the browser makes of markup, the nodes below an element whose innerHTML is
    set, is an argument; the wrapping in table tags, the order of the nodes and
    their places are the code's. *)

From Stdlib Require Import ZArith.
From S2P Require Import Prelude JsBase JsRegex Strings Dom Droppable Tree.
#[local] Open Scope Z_scope.
#[local] Open Scope stdpp_scope.

(** ** Definitions *)

(** [document.createElement(tagName)]: a node of a new number. *)
Definition new_id (d : dom) : nid := S (map_fold (λ k _ m, Nat.max k m) 0%nat d).
Definition createElement (tagName : jsstr) : D nid := λ d,
  (Ret (new_id d), <[new_id d := Node (NElement (toUpperCase tagName)) ∅ ∅ ∅ None []]> d).
(** [new Element(tagName, attributes)]; the cache of clean elements, which are
    only cloned, shows nowhere. *)
Definition new_element (tagName : jsstr) (attributes : list (jsstr * attr_value)) : D nid :=
  e ← createElement (toLowerCase tagName); writeAttribute e attributes ;; mret e.

(** [parent.replaceChild(node, child)] *)
Definition replaceChild (p node child : nid) : D () :=
  d ← js_get;
  if bool_decide (parent_of d child ≠ Some p) then js_throw (EUser 1)
  else if bool_decide (node = child) then mret ()
  else insertBefore p node (Some child) ;; removeChild p child.

(** The position of the name [constructor] is the function [Object], inherited
    from the prototype of objects: called with an element it does nothing. *)
Inductive insert_position := Before | Top | Bottom | After | Nowhere.
Definition position_named (name : jsstr) : option insert_position :=
  let name := toLowerCase name in
  if bool_decide (name = js "before") then Some Before else if bool_decide (name = js "top") then Some Top
  else if bool_decide (name = js "bottom") then Some Bottom else if bool_decide (name = js "after") then Some After
  else if bool_decide (name = js "constructor") then Some Nowhere else None.
Definition parent_or_throw (e : nid) : D nid :=
  d ← js_get; match parent_of d e with Some p => mret p | None => js_throw ETypeError end.
(** [Element._insertionTranslations[position](element, node)] *)
Definition insert_at (w : insert_position) (element node : nid) : D () :=
  match w with
  | Before => p ← parent_or_throw element; insertBefore p node (Some element)
  | Top => d ← js_get; insertBefore element node (firstChild d element)
  | Bottom => appendChild element node
  | After => p ← parent_or_throw element; d ← js_get; insertBefore p node (nextSibling d element)
  | Nowhere => mret ()
  end.

(** [Element._insertionTranslations.tags] *)
Definition table_tags (tagName : jsstr) : option (jsstr * jsstr * nat) :=
  let tbody := (js "<table><tbody>", js "</tbody></table>", 2%nat) in
  let td := (js "<table><tbody><tr><td>", js "</td></tr></tbody></table>", 4%nat) in
  list_to_map (M := gmap jsstr _) [
    (js "TABLE", (js "<table>", js "</table>", 1%nat)); (js "TBODY", tbody);
    (js "TR", (js "<table><tbody><tr>", js "</tr></tbody></table>", 3%nat)); (js "TD", td);
    (js "SELECT", (js "<select>", js "</select>", 1%nat)); (js "THEAD", tbody); (js "TFOOT", tbody); (js "TH", td)] !! tagName.

Section markup.
(** [element.innerHTML = html] *)
Context (set_innerHTML : nid → jsstr → D ()).

(** [times(function() { div = div.firstChild })] *)
Fixpoint first_descent (n : nat) (e : nid) : D nid :=
  match n with
  | O => mret e
  | S n => d ← js_get; match firstChild d e with Some c => first_descent n c | None => js_throw ETypeError end
  end.
Definition getContentFromAnonymousElement (tagName html : jsstr) : D (list nid) :=
  div ← new_element (js "div") [];
  match table_tags tagName with
  | Some (open, close, n) =>
      set_innerHTML div (open ++ html ++ close) ;;
      c ← first_descent n div;
      d ← js_get; mret (child_list d (Some c))
  | None => set_innerHTML div html ;; d ← js_get; mret (child_list d (Some div))
  end.

(** Content is an element or, as [Object.toHTML] gives it, a text; the scripts
    of a text run later and are left out. *)
Inductive insertable := TheNode (e : nid) | TheMarkup (html : jsstr).
(** Only elements have a [tagName]. *)
Definition tag_upper (e : nid) : D jsstr :=
  n ← get_node e; if is_element n then mret (toUpperCase (tagName n)) else js_throw ETypeError.
(** The body of the loop of [insert] for one position. *)
Definition insert_one (element : nid) (position_name : jsstr) (c : insertable) : D () :=
  let insert := position_named position_name in
  match c with
  | TheNode node => match insert with Some w => insert_at w element node | None => js_throw ETypeError end
  | TheMarkup html =>
      around ← match insert with Some (Before | After) => parent_or_throw element | _ => mret element end;
      tagName ← tag_upper around;
      childNodes ← getContentFromAnonymousElement tagName (stripScripts html);
      let childNodes := match insert with Some (Top | After) => reverse childNodes | _ => childNodes end in
      match insert with Some w => js_each childNodes (insert_at w element) | None => js_throw ETypeError end
  end.
(** [insert(element, insertions)]: one content goes to the bottom. *)
Inductive insertions := OneContent (c : insertable) | AtPositions (l : list (jsstr * insertable)).
Definition element_insert (element : nid) (i : insertions) : D nid :=
  js_each (match i with OneContent c => [(js "bottom", c)] | AtPositions l => l end) (λ '(name, c), insert_one element name c) ;;
  mret element.
End markup.

(** [replace(element, content)] for an element. *)
Definition element_replace (element content : nid) : D nid :=
  p ← parent_or_throw element; replaceChild p content element ;; mret element.

(** What [wrap] takes as its wrapper: an element, a tag or attributes. *)
Inductive wrap_argument := WrapIn (e : nid) | WrapTag (tagName : jsstr) | WrapDiv.
Definition element_wrap (element : nid) (w : wrap_argument) (attributes : list (jsstr * attr_value)) : D nid :=
  wrapper ← match w with
            | WrapIn e => writeAttribute e attributes ;; mret e
            | WrapTag tag => new_element tag attributes
            | WrapDiv => new_element (js "div") attributes
            end;
  d ← js_get;
  match parent_of d element with Some p => replaceChild p wrapper element | None => mret () end ;;
  appendChild wrapper element ;;
  mret wrapper.

(** [inspect(element)] *)
Definition element_inspect (e : nid) : D jsstr :=
  n ← get_node e;
  let part (attribute value : jsstr) : jsstr :=
    match value with [] => [] | _ => js " " ++ attribute ++ js "=" ++ default [] (inspect value true) end in
  mret (js "<" ++ toLowerCase (tagName n) ++ part (js "id") (default [] (attrs n !! js "id")) ++
    part (js "class") (className n) ++ js ">").

(** ** A run of nodes put in one place *)

(** Nodes [ns] can be put below [p] after [l1] and before [l2], which are all
    its children. *)
Record spot (d : dom) (p : nid) (l1 l2 ns : list nid) : Prop := {
  spot_ok : dom_ok d;
  spot_acyclic : acyclic d;
  spot_parent : is_Some (d !! p);
  spot_children : child_list d (Some p) = l1 ++ l2;
  spot_nodup : NoDup ns;
  spot_node n : n ∈ ns → is_Some (d !! n) ∧ n ≠ p ∧ ¬ above d p n ∧ parent_of d n ≠ Some p;
}.
Lemma spot_split d p l1 l2 l1' l2' ns : l1 ++ l2 = l1' ++ l2' → spot d p l1 l2 ns → spot d p l1' l2' ns.
Proof. intros Hl []. split; try done. congruence. Qed.

(** What is above a node in one document is above it in another where the
    parents on the way up are the same. *)
Lemma above_along d d' (Q : nid → Prop) a : (∀ x y, Q x → parent_of d' x = Some y → parent_of d x = Some y ∧ Q y) →
  ∀ x, Q x → above d' x a → above d x a.
Proof.
  intros HQ x Hx H. revert Hx. induction H as [x y Hy|x y z Hy _ IH]; intros Hx; destruct (HQ x y Hx Hy) as [Hy' Hq].
  - by apply tc_once.
  - apply (tc_l _ x y z); [exact Hy'|]. by apply IH.
Qed.
(** Who is above [p] does not change when something not above it moves. *)
Lemma above_unmoved d d' p n a : (∀ x, x ≠ n → parent_of d' x = parent_of d x) → n ≠ p → ¬ above d p n →
  above d' p a → above d p a.
Proof.
  intros Hpo Hne Hab. apply (above_along d d' (λ x, x = p ∨ above d p x)); [|by left].
  intros x y Hx Hy. rewrite Hpo in Hy by (intros ->; destruct Hx as [->|Hx]; done). split; [done|]. right.
  destruct Hx as [->|Hx]; [by apply tc_once|]. eapply tc_r; [exact Hx|exact Hy].
Qed.

(** Everything but [ns] is where it was. *)
Definition others_stay (d d' : dom) (p : nid) (ns : list nid) : Prop :=
  (∀ x, x ∉ ns → parent_of d' x = parent_of d x) ∧
  ∀ q, q ≠ p → child_list d' (Some q) = filter (λ c, c ∉ ns) (child_list d (Some q)).

Lemma put_before_head e l1 l2 : NoDup (l1 ++ l2) → put_before e (head l2) (l1 ++ l2) = l1 ++ e :: l2.
Proof.
  intros Hnd. destruct l2 as [|r l2]; cbn [head]; [rewrite put_before_end; by rewrite app_nil_r|].
  apply put_before_at. apply NoDup_app in Hnd as (_ & Hd & _). intros Hin. apply (Hd r Hin). by left.
Qed.
Lemma spot_step d p l1 l2 n ns : spot d p l1 l2 (n :: ns) →
  ∃ d', insertBefore p n (head l2) d = (Ret (), d') ∧ same_content d d' ∧ spot d' p l1 (n :: l2) ns ∧
    parent_of d' n = Some p ∧ others_stay d d' p [n].
Proof.
  intros [Hd Hac Hp Hch Hnd Hns]. destruct (Hns n) as (Hn & Hne & Hab & Hpn); [by left|].
  assert (n ∉ l1 ++ l2) as Hin.
  { rewrite <- Hch. intros Hc%(ok_child d Hd). done. }
  assert (match head l2 with Some r => parent_of d r = Some p | None => True end) as Href.
  { destruct l2 as [|r l2]; cbn; [done|]. apply (ok_child d Hd). rewrite Hch. set_solver. }
  destruct (insertBefore_run d p n (head l2) Hd Hac Hp Hn Hne Hab Href) as (d' & Hrun & Hc & Hd' & Hac' & Hpo & Hch').
  assert (place_before d n (head l2) = head l2) as Hplace.
  { unfold place_before. rewrite bool_decide_eq_false_2; [done|]. intros Hh. rewrite Hh in Href. done. }
  assert (∀ x, x ≠ n → parent_of d' x = parent_of d x) as Hpo' by (intros x Hx; rewrite Hpo; unfold moved_parent; by rewrite decide_False).
  exists d'. split_and!; [done|done| |rewrite Hpo; unfold moved_parent; by rewrite decide_True|split].
  - apply NoDup_cons in Hnd as [Hnn Hnd]. split; [done|done|by eapply same_content_dom| |done|].
    + rewrite Hch'. unfold moved_children. rewrite Hplace, decide_True, Hch, filter_absent by done.
      apply put_before_head. rewrite <- Hch. apply ok_nodup, Hd.
    + intros m Hm. destruct (Hns m) as (? & ? & Habm & Hpm); [by right|]. assert (m ≠ n) by (by intros ->).
      split_and!; [by eapply same_content_dom|done| |by rewrite Hpo'].
      intros Ham. apply Habm. by apply (above_unmoved d d' p n).
  - intros x Hx. apply Hpo'. set_solver.
  - intros q Hq. rewrite Hch'. unfold moved_children. rewrite decide_False by done. apply list_filter_iff. set_solver.
Qed.
Lemma others_trans d1 d2 d3 p ns1 ns2 : others_stay d1 d2 p ns1 → others_stay d2 d3 p ns2 → others_stay d1 d3 p (ns1 ++ ns2).
Proof.
  intros [H1 H2] [H3 H4]. split.
  - intros x Hx. rewrite H3, H1; set_solver.
  - intros q Hq. rewrite H4, H2, list_filter_filter by done. apply list_filter_iff. set_solver.
Qed.

(** Where a position is: below which node, after and before which children. *)
Definition at_position (w : insert_position) (element : nid) (d : dom) (p : nid) (l1 l2 : list nid) : Prop :=
  match w with
  | Before => parent_of d element = Some p ∧ ∃ l, l2 = element :: l
  | After => parent_of d element = Some p ∧ ∃ l, l1 = l ++ [element]
  | Top => p = element ∧ l1 = []
  | Bottom => p = element ∧ l2 = []
  | Nowhere => False
  end.
Definition goes_forward (w : insert_position) : bool := match w with Before | Bottom | Nowhere => true | Top | After => false end.

Lemma insert_at_run w e d p l1 l2 n : at_position w e d p l1 l2 → dom_ok d → child_list d (Some p) = l1 ++ l2 →
  insert_at w e n d = insertBefore p n (head l2) d.
Proof.
  intros Hw Hd Hch. destruct w; cbn [at_position insert_at] in *.
  - destruct Hw as [Hp [l ->]]. unfold parent_or_throw. by rewrite js_bind_assoc, js_bind_get, Hp.
  - destruct Hw as [-> ->]. rewrite js_bind_get. unfold firstChild. by rewrite Hch.
  - by destruct Hw as [-> ->].
  - destruct Hw as [Hp [l ->]]. unfold parent_or_throw. rewrite js_bind_assoc, js_bind_get, Hp, js_bind_ret, js_bind_get.
    unfold nextSibling. rewrite Hp, Hch, <- app_assoc. cbn [app]. rewrite after_in_app; [done|].
    pose proof (ok_nodup d Hd p) as Hnd. rewrite Hch, <- app_assoc in Hnd. apply NoDup_app in Hnd as (_ & Hdis & _).
    intros Hin. apply (Hdis e Hin). by left.
  - done.
Qed.
(** One more node put there leaves the position for the next. *)
Lemma at_position_step w e d d' p l1 l2 n : at_position w e d p l1 l2 → dom_ok d → child_list d (Some p) = l1 ++ l2 →
  parent_of d n ≠ Some p → (∀ x, x ≠ n → parent_of d' x = parent_of d x) →
  if goes_forward w then at_position w e d' p (l1 ++ [n]) l2 else at_position w e d' p l1 (n :: l2).
Proof.
  intros Hw Hd Hch Hn Hpo. destruct w; cbn [at_position goes_forward] in *.
  - destruct Hw as [Hp ?]. split; [|done]. rewrite Hpo; [done|]. by intros ->.
  - done.
  - done.
  - destruct Hw as [Hp ?]. split; [|done]. rewrite Hpo; [done|]. by intros ->.
  - done.
Qed.

(** The nodes as the loop of [insert] takes them. *)
Definition in_order (w : insert_position) (ns : list nid) : list nid := if goes_forward w then ns else reverse ns.
Lemma insert_nodes_run w e ns : ∀ d p l1 l2, at_position w e d p l1 l2 → spot d p l1 l2 ns →
  ∃ d', js_each ns (insert_at w e) d = (Ret (), d') ∧ same_content d d' ∧ dom_ok d' ∧ acyclic d' ∧
    child_list d' (Some p) = l1 ++ in_order w ns ++ l2 ∧ (∀ n, n ∈ ns → parent_of d' n = Some p) ∧ others_stay d d' p ns.
Proof.
  induction ns as [|n ns IH]; intros d p l1 l2 Hw Hs.
  { exists d. destruct Hs. split_and!; try done; [unfold in_order; by destruct (goes_forward w)|set_solver|].
    split; [done|]. intros q _. symmetry. apply filter_all. intros x _. by apply not_elem_of_nil. }
  destruct (spot_step d p l1 l2 n ns Hs) as (d1 & Hrun1 & Hc1 & Hs1 & Hpn & Ho1).
  assert (∀ x, x ≠ n → parent_of d1 x = parent_of d x) as Hpo by (intros x Hx; apply Ho1; set_solver).
  pose proof (at_position_step w e d d1 p l1 l2 n Hw (spot_ok _ _ _ _ _ Hs) (spot_children _ _ _ _ _ Hs)
    (proj2 (proj2 (proj2 (spot_node _ _ _ _ _ Hs n (list_elem_of_here _ _))))) Hpo) as Hw1.
  cbn [js_each]. rewrite (js_bind_Ret _ _ _ _ _ (eq_trans (insert_at_run w e d p l1 l2 n Hw (spot_ok _ _ _ _ _ Hs) (spot_children _ _ _ _ _ Hs)) Hrun1)).
  assert (n ∉ ns) as Hnin by (pose proof (spot_nodup _ _ _ _ _ Hs) as Hnd; by apply NoDup_cons in Hnd as [? _]).
  assert (∃ l1' l2', l1' ++ l2' = l1 ++ n :: l2 ∧ at_position w e d1 p l1' l2' ∧
    l1' ++ in_order w ns ++ l2' = l1 ++ in_order w (n :: ns) ++ l2) as (l1' & l2' & Hl & Hw' & Hend).
  { unfold in_order. destruct (goes_forward w); [exists (l1 ++ [n]), l2|exists l1, (n :: l2)]; (split; [by rewrite <- ?app_assoc|]); (split; [done|]).
    - by rewrite <- !app_assoc.
    - by rewrite reverse_cons, <- !app_assoc. }
  destruct (IH d1 p l1' l2' Hw') as (d2 & Hrun2 & Hc2 & Hd2 & Hac2 & Hch2 & Hpn2 & Ho2).
  { apply (spot_split d1 p l1 (n :: l2)); done. }
  exists d2. split_and!; [done|by eapply same_content_trans|done|done|by rewrite Hch2| |by apply (others_trans d d1 d2 p [n] ns)].
  intros m [->|Hm]%elem_of_cons; [|by apply Hpn2]. destruct Ho2 as [Ho2 _]. by rewrite Ho2.
Qed.

(** ** New nodes *)

Lemma new_id_above d : ∀ x, is_Some (d !! x) → (x < new_id d)%nat.
Proof.
  unfold new_id. assert (∀ x, is_Some (d !! x) → (x ≤ map_fold (λ k _ m, Nat.max k m) 0%nat d)%nat) as Hle; [|intros x Hx; specialize (Hle x Hx); lia].
  apply (map_fold_weak_ind (λ m d, ∀ x, is_Some (d !! x) → (x ≤ m)%nat)).
  - intros x. rewrite lookup_empty. by intros [].
  - intros i n m r _ IH x Hx. apply lookup_insert_is_Some in Hx as [->|[_ Hx]]; [lia|]. specialize (IH x Hx). lia.
Qed.
Lemma new_id_fresh d : d !! new_id d = None.
Proof. destruct (d !! new_id d) eqn:Hd; [|done]. pose proof (new_id_above d (new_id d) (ex_intro _ _ Hd)). lia. Qed.
Lemma placed_tree d d' : dom_ok d → acyclic d → placed d' (parent_of d) (λ q, child_list d (Some q)) → dom_ok d' ∧ acyclic d'.
Proof.
  intros [H1 H2 H3] [depth Hdepth] [Hp Hc]. split; [split|].
  - intros p c. rewrite Hc, Hp. apply H1.
  - intros c p. rewrite Hc, Hp. apply H2.
  - intros p. rewrite Hc. apply H3.
  - exists depth. intros x p. rewrite Hp. apply Hdepth.
Qed.
(** Parents are nodes of the document. *)
Lemma parent_in d c p : dom_ok d → parent_of d c = Some p → is_Some (d !! p).
Proof. intros Hd Hc%(ok_parent d Hd). cbn in Hc. destruct (d !! p); [by eexists|]. by apply not_elem_of_nil in Hc. Qed.

(** What reading markup into an element apart does: nodes that were there are
    as they were, it is still a tree, and the nodes it gives are new. *)
Record new_nodes (d d1 : dom) (ns : list nid) : Prop := {
  new_old x : is_Some (d !! x) → d1 !! x = d !! x;
  new_ok : dom_ok d1;
  new_acyclic : acyclic d1;
  new_nodup : NoDup ns;
  new_in n : n ∈ ns → is_Some (d1 !! n) ∧ d !! n = None;
}.
Section new_nodes.
Context (d d1 : dom) (ns : list nid) (Hd : dom_ok d) (Hnew : new_nodes d d1 ns).
Lemma new_parent x : is_Some (d !! x) → parent_of d1 x = parent_of d x.
Proof using Hnew. intros Hx. unfold parent_of. by rewrite (new_old _ _ _ Hnew x Hx). Qed.
Lemma new_child_list p : is_Some (d !! p) → child_list d1 (Some p) = child_list d (Some p).
Proof using Hnew. intros Hp. cbn. by rewrite (new_old _ _ _ Hnew p Hp). Qed.
Lemma new_above p a : is_Some (d !! p) → above d1 p a → is_Some (d !! a).
Proof using Hd Hnew.
  intros Hp Ha. induction Ha as [x y Hy|x y z Hy _ IH]; rewrite new_parent in Hy by done; [by eapply parent_in|].
  apply IH. by eapply parent_in.
Qed.
Lemma new_spot p l1 l2 : is_Some (d !! p) → child_list d (Some p) = l1 ++ l2 → spot d1 p l1 l2 ns.
Proof using Hd Hnew.
  intros Hp Hch. destruct Hnew as [Ho Hok Hac Hnd Hin]. split; [done|done|by rewrite Ho|by rewrite new_child_list|done|].
  intros n Hn. destruct (Hin n Hn) as [? Hnone]. split; [done|]. split_and!.
  - intros ->. rewrite Hnone in Hp. by destruct Hp.
  - intros Ha%new_above; [|done]. rewrite Hnone in Ha. by destruct Ha.
  - intros Hpn%(ok_parent d1 Hok). rewrite new_child_list in Hpn by done. apply (ok_child d Hd) in Hpn.
    unfold parent_of in Hpn. by rewrite Hnone in Hpn.
Qed.
Lemma new_position w e p l1 l2 : is_Some (d !! e) → at_position w e d p l1 l2 → at_position w e d1 p l1 l2.
Proof using Hnew. intros He. destruct w; cbn [at_position]; by rewrite ?new_parent. Qed.
End new_nodes.

(** The node whose tag says how markup is read, and this tag, if it has one. *)
Definition context_node (o : option insert_position) (d : dom) (e : nid) : option nid :=
  match o with Some (Before | After) => parent_of d e | _ => Some e end.
Definition context_tag (o : option insert_position) (d : dom) (e : nid) : option jsstr :=
  x ← context_node o d e; n ← d !! x; if is_element n then Some (toUpperCase (tagName n)) else None.

(** Where a position is found. *)
Lemma position_found w e d : dom_ok d → is_Some (d !! e) → w ≠ Nowhere → is_Some (context_node (Some w) d e) →
  ∃ p l1 l2, at_position w e d p l1 l2 ∧ child_list d (Some p) = l1 ++ l2 ∧ is_Some (d !! p).
Proof.
  intros Hd He Hw Hctx. assert (∀ p, parent_of d e = Some p → is_Some (d !! p) ∧ ∃ l1 l2, child_list d (Some p) = l1 ++ e :: l2) as Hpar.
  { intros p Hp. split; [by eapply parent_in|]. by apply list_elem_of_split, (ok_parent d Hd). }
  destruct w; cbn [at_position].
  - destruct Hctx as [p Hp]. destruct (Hpar p Hp) as [? (l1 & l2 & Hch)]. exists p, l1, (e :: l2). eauto.
  - exists e, [], (child_list d (Some e)). done.
  - exists e, (child_list d (Some e)), []. by rewrite app_nil_r.
  - destruct Hctx as [p Hp]. destruct (Hpar p Hp) as [? (l1 & l2 & Hch)]. exists p, (l1 ++ [e]), l2.
    rewrite Hch, <- app_assoc. eauto.
  - done.
Qed.
(** The tag is found, or the code throws before it reads the markup. *)
Lemma context_run {A} o e d (k : jsstr → D A) : dom_ok d → is_Some (d !! e) →
  (around ← match o with Some (Before | After) => parent_or_throw e | _ => mret e end; tagName ← tag_upper around; k tagName) d =
  match context_tag o d e with Some tag => k tag d | None => (Throw ETypeError, d) end.
Proof.
  intros Hd He. assert (∀ x, is_Some (d !! x) → (tagName ← tag_upper x; k tagName) d =
    match n ← d !! x; if is_element n then Some (toUpperCase (tagName n)) else None with Some tag => k tag d | None => (Throw ETypeError, d) end) as Ht.
  { intros x [n Hn]. unfold tag_upper. rewrite js_bind_assoc, (js_bind_Ret (get_node x) _ d n d) by (unfold get_node; by rewrite Hn).
    rewrite Hn. cbn [mbind option_bind]. by destruct (is_element n). }
  assert ((around ← parent_or_throw e; tagName ← tag_upper around; k tagName) d = match
      x ← parent_of d e; n ← d !! x; if is_element n then Some (toUpperCase (tagName n)) else None
    with Some tag => k tag d | None => (Throw ETypeError, d) end) as Hp.
  { unfold parent_or_throw. rewrite js_bind_assoc, js_bind_get. destruct (parent_of d e) as [p|] eqn:Hp; [|done].
    apply (Ht p). by eapply parent_in. }
  unfold context_tag, context_node. destruct o as [[]|]; first [exact Hp|by rewrite js_bind_ret; apply Ht].
Qed.
Lemma new_nodes_reverse d d1 ns : new_nodes d d1 ns → new_nodes d d1 (reverse ns).
Proof.
  intros [Ho Hok Hac Hnd Hin]. split; [done|done|done|by rewrite reverse_Permutation|].
  intros n Hn. apply Hin. by apply elem_of_reverse.
Qed.

(** C36. Inserting markup at a position puts the nodes read from it there, in their
    order and side by side, whether the loop goes forward or backward; all
    other nodes stay where they are, and the document is a tree.  The markup is
    read as inside the element, or its parent for the places before and after
    it; where that is no element, as the document around its root, and where
    there is no parent, it throws a TypeError and changes nothing.  For a name
    that is no position it throws after reading the markup, but for
    [constructor], with which the nodes are put nowhere. *)
Theorem insert_markup_spec (set_innerHTML : nid → jsstr → D ()) (d d1 : dom) (e : nid) (name html : jsstr) (ns : list nid) :
  dom_ok d → is_Some (d !! e) →
  (∀ tag, context_tag (position_named name) d e = Some tag → new_nodes d d1 ns ∧
    getContentFromAnonymousElement set_innerHTML tag (stripScripts html) d = (Ret ns, d1)) →
  let run := insert_one set_innerHTML e name (TheMarkup html) d in
  match context_tag (position_named name) d e, position_named name with
  | None, _ => run = (Throw ETypeError, d)
  | Some _, None => run = (Throw ETypeError, d1)
  | Some _, Some Nowhere => run = (Ret (), d1)
  | Some _, Some w =>
      ∃ p l1 l2 d2, run = (Ret (), d2) ∧ dom_ok d2 ∧ acyclic d2 ∧ same_content d1 d2 ∧
        at_position w e d p l1 l2 ∧ child_list d (Some p) = l1 ++ l2 ∧ child_list d2 (Some p) = l1 ++ ns ++ l2 ∧
        (∀ n, n ∈ ns → parent_of d2 n = Some p) ∧
        (∀ x, is_Some (d !! x) → parent_of d2 x = parent_of d x) ∧
        (∀ q, is_Some (d !! q) → q ≠ p → child_list d2 (Some q) = child_list d (Some q))
  end.
Proof.
  intros Hd He Hread run. unfold run, insert_one. cbv zeta. rewrite (context_run (position_named name) e d) by done.
  destruct (context_tag (position_named name) d e) as [tag|] eqn:Htag; [|done]. destruct (Hread tag eq_refl) as [Hnew Hget].
  rewrite (js_bind_Ret _ _ _ _ _ Hget). destruct (position_named name) as [w|]; [|done].
  assert (w = Nowhere ∨ w ≠ Nowhere) as [->|Hne] by (destruct w; auto).
  { clear. induction ns as [|n ns IH]; [done|]. exact IH. }
  destruct (position_found w e d Hd He Hne) as (p & l1 & l2 & Hw & Hch & Hp).
  { unfold context_tag in Htag. destruct (context_node (Some w) d e); [by eexists|done]. }
  set (ns' := if goes_forward w then ns else reverse ns).
  assert (spot d1 p l1 l2 ns') as Hs.
  { apply (new_spot d); [done| |done|done]. unfold ns'. destruct (goes_forward w); [done|by apply new_nodes_reverse]. }
  destruct (insert_nodes_run w e ns' d1 p l1 l2 (new_position d d1 ns Hnew w e p l1 l2 He Hw) Hs)
    as (d2 & Hrun2 & Hc2 & Hd2 & Hac2 & Hch2 & Hpn & Hpo & Hoth).
  assert (js_each (match w with Top | After => reverse ns | _ => ns end) (insert_at w e) d1 = (Ret (), d2)) as Hrun
    by (unfold ns' in Hrun2; by destruct w).
  enough (∃ p l1 l2 d2, (js_each (match w with Top | After => reverse ns | _ => ns end) (insert_at w e) d1 = (Ret (), d2)) ∧
    dom_ok d2 ∧ acyclic d2 ∧ same_content d1 d2 ∧ at_position w e d p l1 l2 ∧ child_list d (Some p) = l1 ++ l2 ∧
    child_list d2 (Some p) = l1 ++ ns ++ l2 ∧ (∀ n, n ∈ ns → parent_of d2 n = Some p) ∧
    (∀ x, is_Some (d !! x) → parent_of d2 x = parent_of d x) ∧
    (∀ q, is_Some (d !! q) → q ≠ p → child_list d2 (Some q) = child_list d (Some q))) as H by (by destruct w).
  exists p, l1, l2, d2. split_and!; try done.
  - rewrite Hch2. unfold in_order, ns'. by destruct (goes_forward w); rewrite ?reverse_involutive.
  - intros n Hn. apply Hpn. unfold ns'. destruct (goes_forward w); [done|by apply elem_of_reverse].
  - intros x Hx. rewrite Hpo; [by eapply new_parent|]. intros Hin. assert (x ∈ ns) as Hx'.
    { unfold ns' in Hin. destruct (goes_forward w); [done|by rewrite elem_of_reverse in Hin]. }
    destruct (new_in _ _ _ Hnew x Hx') as [_ Hnone]. rewrite Hnone in Hx. by destruct Hx.
  - intros q Hq Hqp. rewrite Hoth, (new_child_list d d1 ns Hnew) by done. apply filter_all. intros x Hx Hin.
    assert (x ∈ ns) as Hx'. { unfold ns' in Hin. destruct (goes_forward w); [done|by rewrite elem_of_reverse in Hin]. }
    destruct (new_in _ _ _ Hnew x Hx') as [_ Hnone]. apply (ok_child d Hd) in Hx. unfold parent_of in Hx. by rewrite Hnone in Hx.
Qed.

(** ** Wrapping *)

Lemma writeAttribute_run attributes e : ∀ d n, d !! e = Some n →
  ∃ n', writeAttribute e attributes d = (Ret (), <[e := n']> d) ∧ kind n' = kind n ∧ parentNode n' = parentNode n ∧ childNodes n' = childNodes n.
Proof.
  unfold writeAttribute. induction attributes as [|a l IH]; intros d n Hn.
  - exists n. by rewrite insert_id.
  - destruct (IH (<[e := write_one a.1 a.2 n]> d) _ (lookup_insert_eq _ _ _)) as (n' & Hrun & Hk & Hp & Hc).
    exists n'. split; [|done]. cbn [js_each]. rewrite (js_bind_Ret (update_node e _) _ d () (<[e := write_one a.1 a.2 n]> d)).
    + by rewrite Hrun, insert_insert_eq.
    + unfold update_node. by rewrite Hn.
Qed.
(** A new element is in no place, and all that was there stays. *)
Lemma new_element_run tag attributes d : ∃ n, new_element tag attributes d = (Ret (new_id d), <[new_id d := n]> d) ∧
  kind n = NElement (toUpperCase (toLowerCase tag)) ∧ parentNode n = None ∧ childNodes n = [].
Proof.
  unfold new_element. set (n0 := Node (NElement (toUpperCase (toLowerCase tag))) ∅ ∅ ∅ None []).
  destruct (writeAttribute_run attributes (new_id d) (<[new_id d := n0]> d) n0 (lookup_insert_eq _ _ _)) as (n & Hrun & Hk & Hp & Hc).
  exists n. split; [|done]. rewrite (js_bind_Ret (createElement _) _ d (new_id d) (<[new_id d := n0]> d)) by done.
  rewrite (js_bind_Ret _ _ _ _ _ Hrun). by rewrite insert_insert_eq.
Qed.
Lemma alone_placed d x n : d !! x = None → parentNode n = None → childNodes n = [] →
  placed (<[x := n]> d) (parent_of d) (λ q, child_list d (Some q)).
Proof.
  intros Hx Hp Hc. split; intros y; unfold parent_of; cbn; (destruct (decide (y = x)) as [->|];
    [rewrite lookup_insert_eq, Hx; cbn; by rewrite ?Hp, ?Hc|by rewrite lookup_insert_ne]).
Qed.

Lemma detach_ok d d' e : dom_ok d → acyclic d →
  placed d' (λ x, if decide (x = e) then None else parent_of d x) (λ q, filter (λ c, c ≠ e) (child_list d (Some q))) →
  dom_ok d' ∧ acyclic d'.
Proof.
  intros Hd [depth Hdepth] [Hpo Hch]. split; [split|exists depth].
  - intros q c. rewrite Hch, Hpo. intros [Hne Hc]%list_elem_of_filter. rewrite decide_False by done. by apply (ok_child d Hd).
  - intros c q. rewrite Hch, Hpo. case_decide; [done|]. intros Hc%(ok_parent d Hd). by apply list_elem_of_filter.
  - intros q. rewrite Hch. apply NoDup_filter, ok_nodup, Hd.
  - intros x q. rewrite Hpo. case_decide; [done|]. apply Hdepth.
Qed.
Lemma replaceChild_run d p l1 l2 node e : dom_ok d → acyclic d → is_Some (d !! node) → is_Some (d !! p) →
  child_list d (Some p) = l1 ++ e :: l2 → parent_of d node = None → child_list d (Some node) = [] → node ≠ p →
  ∃ d', replaceChild p node e d = (Ret (), d') ∧ same_content d d' ∧ dom_ok d' ∧ acyclic d' ∧
    placed d' (λ x, if decide (x = e) then None else if decide (x = node) then Some p else parent_of d x)
      (λ q, if decide (q = p) then l1 ++ node :: l2 else child_list d (Some q)).
Proof.
  intros Hd Hac Hnode Hp Hch Hpn Hcn Hnp. assert (parent_of d e = Some p) as Hpe by (apply (ok_child d Hd); rewrite Hch; set_solver).
  assert (node ≠ e) as Hne by congruence.
  assert (∀ q x, x ∈ child_list d (Some q) → parent_of d x = Some q) as Hin by apply (ok_child d Hd).
  assert (∀ q, filter (λ c, c ≠ node) (child_list d (Some q)) = child_list d (Some q)) as Hfn.
  { intros q. apply filter_absent. intros Hc%Hin. congruence. }
  assert (¬ above d p node) as Hab.
  { intros Ha. assert (∃ x, parent_of d x = Some node) as [x Hx%(ok_parent d Hd)]; [|rewrite Hcn in Hx; by apply not_elem_of_nil in Hx].
    clear -Ha. induction Ha as [x y Hy|x y z _ _ IH]; [by exists x|done]. }
  destruct (insertBefore_run d p node (Some e) Hd Hac Hp Hnode Hnp Hab Hpe) as (d1 & Hrun1 & Hc1 & Hd1 & Hac1 & Hpo1 & Hch1).
  assert (place_before d node (Some e) = Some e) as Hplace by (unfold place_before; rewrite bool_decide_eq_false_2; congruence).
  assert ((e ∉ l1) ∧ (e ∉ l2)) as [Hl1 Hl2].
  { pose proof (ok_nodup d Hd p) as Hnd. rewrite Hch in Hnd. apply NoDup_app in Hnd as (_ & Hdis & [??]%NoDup_cons). split; [|done]. intros ?. by eapply Hdis; [|left]. }
  assert (child_list d1 (Some p) = l1 ++ node :: e :: l2) as Hch1p.
  { rewrite Hch1. unfold moved_children. rewrite decide_True, Hfn, Hplace, Hch by done. by apply put_before_at. }
  destruct (detach_run d1 e Hd1 Hac1) as (d2 & Hrun2 & Hc2 & Hpl2). pose proof (conj Hpl2 I) as [[Hpo2 Hch2] _].
  assert (parent_of d1 e = Some p) as Hpe1 by (rewrite Hpo1; unfold moved_parent; by rewrite decide_False).
  unfold detach in Hrun2. rewrite js_bind_get, Hpe1 in Hrun2.
  assert (placed d2 (λ x, if decide (x = e) then None else if decide (x = node) then Some p else parent_of d x)
      (λ q, if decide (q = p) then l1 ++ node :: l2 else child_list d (Some q))) as Hpl.
  { split.
    - intros x. rewrite Hpo2, Hpo1. unfold moved_parent. done.
    - intros q. rewrite Hch2. destruct (decide (q = p)) as [->|Hq].
      + rewrite Hch1p, filter_app, !(filter_cons (λ c, c ≠ e)), decide_True, decide_False by (done || naive_solver).
        by rewrite !filter_absent.
      + rewrite Hch1. unfold moved_children. rewrite decide_False, Hfn by done. apply filter_absent. intros Hc%Hin. congruence. }
  assert (dom_ok d2 ∧ acyclic d2) as [Hd2 Hac2] by (by apply (detach_ok d1 d2 e)).
  exists d2. split; [|split; [by eapply same_content_trans|done]].
  unfold replaceChild. rewrite js_bind_get, Hpe, bool_decide_eq_false_2, bool_decide_eq_false_2 by congruence.
  by rewrite (js_bind_Ret _ _ _ _ _ Hrun1).
Qed.

(** [wrap] with a tag: the new element takes the element's place among its
    siblings, the element becomes its only child, and every other node stays
    where it was; the document is a tree. *)
Theorem wrap_spec (d : dom) (e p : nid) (l1 l2 : list nid) (tag : jsstr) (attributes : list (jsstr * attr_value)) :
  dom_ok d → acyclic d → child_list d (Some p) = l1 ++ e :: l2 → is_Some (d !! e) →
  let w := new_id d in
  d !! w = None ∧
  ∃ d', element_wrap e (WrapTag tag) attributes d = (Ret w, d') ∧ dom_ok d' ∧ acyclic d' ∧
    (∃ n, d' !! w = Some n ∧ kind n = NElement (toUpperCase (toLowerCase tag))) ∧
    (∀ x, x ≠ w → content <$> d' !! x = content <$> d !! x) ∧
    placed d' (λ x, if decide (x = w) then Some p else if decide (x = e) then Some w else parent_of d x)
      (λ q, if decide (q = w) then [e] else if decide (q = p) then l1 ++ w :: l2 else child_list d (Some q)).
Proof.
  intros Hd Hac Hch He w. assert (d !! w = None) as Hw by apply new_id_fresh. split; [done|].
  assert (parent_of d e = Some p) as Hpe by (apply (ok_child d Hd); rewrite Hch; set_solver).
  assert (is_Some (d !! p)) as Hp by (by eapply parent_in).
  assert (∀ x, is_Some (d !! x) → x ≠ w) as Hold by (intros x [? Hx] ->; congruence).
  assert (∀ x, parent_of d x ≠ Some w) as Hnow.
  { intros x Hx%(parent_in d x w Hd). by apply Hold in Hx. }
  destruct (new_element_run tag attributes d) as (n & Hrun0 & Hk & Hpn & Hcn). fold w in Hrun0.
  set (d0 := <[w := n]> d) in *. pose proof (alone_placed d w n Hw Hpn Hcn) as Hpl0.
  destruct (placed_tree d d0 Hd Hac Hpl0) as [Hd0 Hac0]. destruct Hpl0 as [Hpo0 Hch0].
  assert (d0 !! w = Some n) as Hw0 by apply lookup_insert_eq.
  assert (∀ x, x ≠ w → d0 !! x = d !! x) as H0 by (intros x Hx; by apply lookup_insert_ne).
  destruct (replaceChild_run d0 p l1 l2 w e Hd0 Hac0) as (d1 & Hrun1 & Hc1 & Hd1 & Hac1 & Hpo1 & Hch1).
  { by rewrite Hw0. } { rewrite H0; auto. } { by rewrite Hch0. } { rewrite Hpo0. unfold parent_of. by rewrite Hw. }
  { rewrite Hch0. cbn. by rewrite Hw. } { intros ->. by apply (Hold p). }
  assert (w ≠ e ∧ p ≠ w) as [Hwe Hpw] by (split; [symmetry|]; by apply Hold).
  destruct (insertBefore_run d1 w e None Hd1 Hac1) as (d2 & Hrun2 & Hc2 & Hd2 & Hac2 & Hpo2 & Hch2);
    [eapply same_content_dom; [done|by rewrite Hw0]|eapply same_content_dom; [done|rewrite H0; auto]|done| |done|].
  { assert (∀ x y, x ≠ w → parent_of d1 x = Some y → parent_of d x = Some y ∧ y ≠ w) as Hup.
    { intros x y Hx. rewrite Hpo1, Hpo0. repeat case_decide; try done. intros Hy. split; [done|]. intros ->. by apply (Hnow x). }
    assert (parent_of d1 w = Some p) as Hpw1 by (rewrite Hpo1; by rewrite decide_False, decide_True).
    intros Ha. apply (acyclic_above d e Hac), (tc_l _ e p e Hpe), (above_along d d1 (λ x, x ≠ w) e Hup p Hpw).
    inversion Ha as [? y Hy|? y ? Hy Hye]; subst; rewrite Hpw1 in Hy; injection Hy as <-; [|done].
    exfalso. by apply (acyclic_above d p Hac), tc_once. }
  exists d2. split_and!; try done.
  - unfold element_wrap. rewrite (js_bind_Ret _ _ _ _ _ Hrun0), js_bind_get. fold d0. rewrite Hpo0, Hpe.
    rewrite (js_bind_Ret _ _ _ _ _ Hrun1). unfold appendChild. by rewrite (js_bind_Ret _ _ _ _ _ Hrun2).
  - specialize (Hc1 w). specialize (Hc2 w). rewrite Hc1, Hw0 in Hc2. destruct (d2 !! w) as [n2|]; [|done]. exists n2.
    split; [done|]. cbn in Hc2. injection Hc2. congruence.
  - intros x Hx. by rewrite (Hc2 x), (Hc1 x), H0.
  - split.
    + intros x. rewrite Hpo2. unfold moved_parent. rewrite Hpo1. repeat case_decide; congruence || by rewrite Hpo0.
    + intros q. rewrite Hch2. unfold moved_children. assert (filter (λ c, c ≠ e) (child_list d1 (Some q)) = child_list d1 (Some q)) as ->.
      { apply filter_absent. intros Hc%(ok_child d1 Hd1). rewrite Hpo1, decide_True in Hc by done. done. }
      rewrite Hch1. repeat case_decide; subst; try done. rewrite Hch0. cbn. by rewrite Hw.
Qed.

(** ** Concrete runs *)

(** A reading of texts without markup, a node for each letter. *)
Definition letters_into (e : nid) (html : jsstr) : D () :=
  js_each html (λ c, d ← js_get;
    js_modify (λ d, <[new_id d := Node (NText [c]) ∅ ∅ ∅ None []]> d) ;; appendChild e (new_id d)).

(** Documents whose parents have the smaller numbers are trees. *)
Lemma acyclic_check (d : dom) : map_Forall (λ x n, match parentNode n with Some p => (p < x)%nat | None => True end) d → acyclic d.
Proof.
  intros H. exists (λ x, x). intros x p Hp. unfold parent_of in Hp. destruct (d !! x) as [n|] eqn:Hx; [|done].
  specialize (H x n Hx). cbn in *. by rewrite Hp in H.
Qed.
#[export] Instance low_parent_dec (x : nid) n : Decision (match parentNode n with Some p => (p < x)%nat | None => True end).
Proof. destruct (parentNode n); apply _. Defined.
Definition read_letters : dom := (getContentFromAnonymousElement letters_into (js "BODY") (js "ab") sample_dom).2.

Lemma letters_new : new_nodes sample_dom read_letters [6; 7]%nat.
Proof.
  split.
  - intros x Hx%new_id_above. assert (new_id sample_dom = 5%nat) as Hn by (vm_compute; reflexivity). rewrite Hn in Hx.
    do 5 (destruct x as [|x]; [vm_compute; reflexivity|]). lia.
  - apply dom_ok_check, (bool_decide_unpack _). vm_compute. exact I.
  - apply acyclic_check, (bool_decide_unpack _). vm_compute. exact I.
  - apply (bool_decide_unpack _). vm_compute. exact I.
  - intros n [->|[->|[]%not_elem_of_nil]%elem_of_cons]%elem_of_cons; (split; [by eexists; vm_compute|vm_compute; reflexivity]).
Qed.

(** Two letters after the DIV, in their order. *)
Lemma insert_markup_spec_witness : ∃ d2,
  insert_one letters_into 2 (js "After") (TheMarkup (js "ab")) sample_dom = (Ret (), d2) ∧
  child_list d2 (Some 1%nat) = [2; 6; 7; 3; 4]%nat.
Proof.
  assert (dom_ok sample_dom) as Hd by (apply dom_ok_check, (bool_decide_unpack _); vm_compute; exact I).
  assert (position_named (js "After") = Some After) as Hp by (vm_compute; reflexivity).
  pose proof (insert_markup_spec letters_into sample_dom read_letters 2 (js "After") (js "ab") [6; 7]%nat Hd
    (ex_intro _ _ eq_refl)) as H. rewrite Hp in H.
  assert (context_tag (Some After) sample_dom 2 = Some (js "BODY")) as Hctx by (vm_compute; reflexivity). rewrite Hctx in H.
  destruct H as (p & l1 & l2 & d2 & Hrun & _ & _ & _ & [Hpar [l Hl]] & Hch & Hch2 & _).
  { intros tag [= <-]. split; [exact letters_new|]. vm_compute. reflexivity. }
  exists d2. split; [exact Hrun|]. assert (parent_of sample_dom 2 = Some 1%nat) as Hpar' by (vm_compute; reflexivity).
  rewrite Hpar' in Hpar. injection Hpar as <-. rewrite Hch2.
  assert (child_list sample_dom (Some 1%nat) = [2; 3; 4]%nat) as Hc by (vm_compute; reflexivity). rewrite Hc, Hl in Hch.
  destruct l as [|x l]; cbn in Hch; [by injection Hch as <-; rewrite Hl|].
  injection Hch as <- Hch. destruct l as [|y l]; cbn in Hch; [injection Hch as Hch _; discriminate Hch|].
  injection Hch as _ Hch. destruct l as [|z l]; cbn in Hch; [injection Hch as Hch _; discriminate Hch|].
  injection Hch as _ Hch. destruct l; discriminate Hch.
Defined.

(** Before the root element there is only the document, which has no tag. *)
Example before_the_root : insert_one letters_into 1 (js "before") (TheMarkup (js "ab")) sample_dom = (Throw ETypeError, sample_dom) ∧
  (insert_one letters_into 2 (js "Constructor") (TheNode 4) sample_dom) = (Ret (), sample_dom).
Proof. vm_compute. split; reflexivity. Qed.

(** The text wrapped in a span. *)
Lemma wrap_spec_witness : ∃ d',
  element_wrap 3 (WrapTag (js "span")) [] sample_dom = (Ret 5%nat, d') ∧
  child_list d' (Some 1%nat) = [2; 5; 4]%nat ∧ child_list d' (Some 5%nat) = [3]%nat.
Proof.
  assert (new_id sample_dom = 5%nat) as Hn by (vm_compute; reflexivity).
  destruct (wrap_spec sample_dom 3 1 [2]%nat [4]%nat (js "span") []) as (_ & d' & Hrun & _ & _ & _ & _ & _ & Hch).
  - apply dom_ok_check, (bool_decide_unpack _). vm_compute. exact I.
  - apply acyclic_check, (bool_decide_unpack _). vm_compute. exact I.
  - vm_compute. reflexivity.
  - by eexists; vm_compute.
  - rewrite Hn in Hrun, Hch. exists d'. split; [exact Hrun|]. split; rewrite Hch; reflexivity.
Defined.

(** The markup of a table row is read in a row of its own table. *)
Example row_markup : (λ t, (t.1.1, t.2)) <$> table_tags (js "TR") = Some (js "<table><tbody><tr>", 3%nat) ∧ table_tags (js "P") = None.
Proof. split; vm_compute; reflexivity. Qed.
