(* ===== verification/Builder.v ===== *)
(** * The markup builder (builder.js: Builder)

    Elements built from a tag, attributes and children.  What the browser makes
    of a markup text is an argument, as in Insertion.v; the text of the
    attributes, the search for the new element and the children are the code's. *)

From Stdlib Require Import ZArith.
From S2P Require Import Prelude JsBase JsRegex JsReplace Enumerable Strings Hash Dom Droppable Tree Selector Insertion.
#[local] Open Scope Z_scope.
#[local] Open Scope stdpp_scope.

(** ** Definitions *)

(** [Builder.NODEMAP] *)
Definition NODEMAP : gmap jsstr jsstr := list_to_map [
  (js "AREA", js "map"); (js "CAPTION", js "table"); (js "COL", js "table"); (js "COLGROUP", js "table");
  (js "LEGEND", js "fieldset"); (js "OPTGROUP", js "select"); (js "OPTION", js "select"); (js "PARAM", js "object");
  (js "TBODY", js "table"); (js "TD", js "table"); (js "TFOOT", js "table"); (js "TH", js "table");
  (js "THEAD", js "table"); (js "TR", js "table")].

(** [Builder.ATTR_MAP]; [in] also finds the names of [Object.prototype]. *)
Definition ATTR_MAP (attribute : jsstr) : jsstr :=
  if bool_decide (attribute = js "className") then js "class"
  else if bool_decide (attribute = js "htmlFor") then js "for"
  else if bool_decide (attribute ∈ object_prototype) then string_of (inherited_value attribute) else attribute.

(** The value in quotes: [toString], [escapeHTML] and [gsub] of the quotes. *)
Definition attribute_text (value : jsv) : jsstr :=
  let text := escapeHTML (string_of value) in
  default [] (gsub text (RLit 34) (prepareReplacement 0 (js "&quot;"))).
(** [_attributes(attributes)]; [null] and [undefined] have no [toString]. *)
Fixpoint builder_attributes (attributes : list (jsstr * jsv)) : option (list jsstr) :=
  match attributes with
  | [] => Some []
  | (attribute, value) :: l =>
      if is_nullish value then None
      else cons (ATTR_MAP attribute ++ js "=" ++ [34%N] ++ attribute_text value ++ [34%N]) <$> builder_attributes l
  end.
Definition attributes_markup (attributes : list (jsstr * jsv)) : option jsstr :=
  join (js " ") <$> builder_attributes attributes.

(** A child given to the builder: a node, or a value that is not an array. *)
Inductive child := ENode (e : nid) | EValue (v : jsv).
Inductive children := OneChild (c : child) | ManyChildren (l : list (nested child)).

(** [Builder._text(text)] *)
Definition createTextNode (text : jsstr) : D nid := λ d,
  (Ret (new_id d), <[new_id d := Dom.Node (NText text) ∅ ∅ ∅ None []]> d).
Definition isStringOrNumber (v : jsv) : bool := match v with VStr _ | VNum _ => true | _ => false end.
(** [element.appendChild(child)], the element looked at before the child. *)
Definition append_to (element : option nid) (child : D nid) : D () :=
  match element with Some x => e ← child; appendChild x e | None => js_throw ETypeError end.
(** The function of [_children] for an item: other objects and [null] are no
    nodes, other values are passed over. *)
Definition put_child (element : option nid) (c : child) : D () :=
  match c with
  | ENode e => append_to element (mret e)
  | EValue v =>
      if isStringOrNumber v then append_to element (createTextNode (string_of v))
      else match v with VBool _ | VUndef | VFun _ => mret () | _ => js_throw ETypeError end
  end.
(** [_children(element, children)]; only an element has a [tagName], and only
    an array has [flatten]. *)
Definition builder_children (element : option nid) (c : children) : D () :=
  match c with
  | OneChild (ENode e) => d ← js_get; if element_at d e then append_to element (mret e) else js_throw ETypeError
  | OneChild c => put_child element c
  | ManyChildren l => js_each (flatten l) (put_child element)
  end.
Definition given (c : children) : bool :=
  match c with
  | OneChild (EValue (VUndef | VNull | VBool false | VNum 0 | VStr [])) => false
  | _ => true
  end.

Section node.
(** [element.innerHTML = html], and the setting of another property. *)
Context (set_innerHTML : nid → jsstr → D ()) (set_property : nid → jsstr → jsv → D ()).

Definition tag_name (e : nid) : D jsstr :=
  n ← get_node e; if is_element n then mret (toUpperCase (Dom.tagName n)) else js_throw ETypeError.
(** The element, or the first with the name in [place] if the browser put
    others around it. *)
Definition named_element (elementName : jsstr) (place e : nid) : D (option nid) :=
  t ← tag_name e;
  d ← js_get;
  mret (if bool_decide (t = elementName) then Some e else head (getElementsByTagName d place elementName)).

Inductive node_argument := NoArgument | Attributes (l : list (jsstr * jsv)) | Children (c : children).
(** [Builder.node(elementName, arguments[1], arguments[2])] *)
Definition builder_node (elementName : jsstr) (a1 : node_argument) (a2 : option children) : D (option nid) :=
  let elementName := toUpperCase elementName in
  let close := js "></" ++ elementName ++ js ">" in
  parentElement ← createElement (default (js "div") (NODEMAP !! elementName));
  js_try (set_innerHTML parentElement (js "<" ++ elementName ++ close)) (λ _, mret ()) ;;
  d ← js_get;
  o ← match firstChild d parentElement with Some e => named_element elementName e e | None => mret None end;
  element ← match o with Some e => mret e | None => createElement elementName end;
  element ←
    match a1 with
    | NoArgument => mret (Some element)
    | Children c => js_when (given c) (builder_children (Some element) c) ;; mret (Some element)
    | Attributes l =>
        attrs ← match attributes_markup l with Some s => mret s | None => js_throw ETypeError end;
        if bool_decide (attrs = []) then mret (Some element)
        else
          js_try (set_innerHTML parentElement (js "<" ++ elementName ++ js " " ++ attrs ++ close)) (λ _, mret ()) ;;
          d ← js_get;
          e ← match firstChild d parentElement with
              | Some e => mret e
              | None =>
                  e ← createElement elementName;
                  js_each l (λ '(attr, v), set_property e (if bool_decide (attr = js "class") then js "className" else attr) v) ;;
                  mret e
              end;
          named_element elementName parentElement e
    end;
  match a2 with Some c => js_when (given c) (builder_children element c) | None => mret () end ;;
  mret element.

(** [Builder.build(html)] *)
Definition builder_build (html : jsstr) : D (option nid) :=
  o ← builder_node (js "div") NoArgument None;
  match o with
  | Some element => set_innerHTML element (stripScripts (strip html)) ;; down element None
  | None => js_throw ETypeError
  end.
(** The functions [Builder.dump(scope)] leaves in the scope. *)
Definition dump_tags : list jsstr := js <$> [
  "A"; "ABBR"; "ACRONYM"; "ADDRESS"; "APPLET"; "AREA"; "B"; "BASE"; "BASEFONT"; "BDO"; "BIG"; "BLOCKQUOTE"; "BODY";
  "BR"; "BUTTON"; "CAPTION"; "CENTER"; "CITE"; "CODE"; "COL"; "COLGROUP"; "DD"; "DEL"; "DFN"; "DIR"; "DIV"; "DL"; "DT"; "EM"; "FIELDSET";
  "FONT"; "FORM"; "FRAME"; "FRAMESET"; "H1"; "H2"; "H3"; "H4"; "H5"; "H6"; "HEAD"; "HR"; "HTML"; "I"; "IFRAME"; "IMG"; "INPUT"; "INS"; "ISINDEX";
  "KBD"; "LABEL"; "LEGEND"; "LI"; "LINK"; "MAP"; "MENU"; "META"; "NOFRAMES"; "NOSCRIPT"; "OBJECT"; "OL"; "OPTGROUP"; "OPTION"; "P";
  "PARAM"; "PRE"; "Q"; "S"; "SAMP"; "SCRIPT"; "SELECT"; "SMALL"; "SPAN"; "STRIKE"; "STRONG"; "STYLE"; "SUB"; "SUP"; "TABLE"; "TBODY"; "TD";
  "TEXTAREA"; "TFOOT"; "TH"; "THEAD"; "TITLE"; "TR"; "TT"; "U"; "UL"; "VAR"]%string.
Definition dump (scope : gmap jsstr (node_argument → option children → D (option nid))) :
    gmap jsstr (node_argument → option children → D (option nid)) :=
  foldl (λ scope tag, <[tag := builder_node tag]> scope) scope dump_tags.
End node.

(** ** The text of the attributes *)

(** A reading of attributes as HTML defines it, for values in double quotes:
    a name up to the equals sign, and a value up to the quote in which the
    character references of the escaped characters are read. *)
Definition char_ref (s : jsstr) : option (nat * N) :=
  if is_prefix (js "&amp;") s then Some (4%nat, 38%N) else if is_prefix (js "&lt;") s then Some (3%nat, 60%N)
  else if is_prefix (js "&gt;") s then Some (3%nat, 62%N) else if is_prefix (js "&quot;") s then Some (5%nat, 34%N) else None.
Fixpoint read_refs (skip : nat) (s : jsstr) : jsstr :=
  match s, skip with
  | [], _ => []
  | _ :: s', S skip => read_refs skip s'
  | c :: s', O => match char_ref s with Some (n, x) => x :: read_refs n s' | None => c :: read_refs 0 s' end
  end.
Fixpoint upto (c : N) (s : jsstr) : option (jsstr * jsstr) :=
  match s with
  | [] => None
  | d :: s => if (d =? c)%N then Some ([], s) else (λ x, (d :: x.1, x.2)) <$> upto c s
  end.
Definition read_attribute (s : jsstr) : option ((jsstr * jsstr) * jsstr) :=
  '(name, s) ← upto 61 s;
  match s with
  | c :: s => if (c =? 34)%N then '(value, s) ← upto 34 s; Some ((name, read_refs 0 value), s) else None
  | [] => None
  end.
Fixpoint read_attributes (fuel : nat) (s : jsstr) : option (list (jsstr * jsstr)) :=
  match fuel, s with
  | _, [] => Some []
  | O, _ => None
  | S fuel, c :: s' => if (c =? 32)%N then read_attributes fuel s' else '(a, s) ← read_attribute s; cons a <$> read_attributes fuel s
  end.

(** Names as attributes can have them. *)
Definition attribute_name (name : jsstr) : Prop := name ≠ [] ∧ Forall (λ c, c ≠ 61 ∧ c ≠ 32)%N name.

Definition ent_quot (c : N) : jsstr := if (c =? 34)%N then js "&quot;" else ent_amp c.
Lemma quot_replacement m : prepareReplacement 0 (js "&quot;") m = js "&quot;".
Proof. reflexivity. Qed.
Lemma attribute_text_chars value : attribute_text value = string_of value ≫= ent_quot.
Proof.
  unfold attribute_text. change (RLit 34) with (RChar (λ d, (d =? 34)%N)). change (prepareReplacement 0 (js "&quot;")) with (λ _ : match_res, js "&quot;").
  rewrite (gsub_scan _ _ (λ _, js "&quot;") _ (class_head_match _)). cbn [default id]. rewrite scan_class, escapeHTML_chars.
  induction (string_of value) as [|c s IH]; [done|]. cbn [mbind list_bind]. rewrite bind_app, IH. f_equal.
  unfold ent_quot, ent_amp. destruct (c =? 34)%N eqn:H34; [by apply N.eqb_eq in H34 as ->|].
  repeat case_match; cbn; try done. by rewrite H34.
Qed.

Lemma read_refs_text s : read_refs 0 (s ≫= ent_quot) = s.
Proof.
  induction s as [|c s IH]; [done|]. cbn [mbind list_bind]. unfold ent_quot at 1, ent_amp.
  destruct (c =? 34)%N eqn:H1; [apply N.eqb_eq in H1 as ->; rewrite <- IH at 2; reflexivity|].
  destruct (c =? 38)%N eqn:H2; [apply N.eqb_eq in H2 as ->; rewrite <- IH at 2; reflexivity|].
  destruct (c =? 60)%N eqn:H3; [apply N.eqb_eq in H3 as ->; rewrite <- IH at 2; reflexivity|].
  destruct (c =? 62)%N eqn:H4; [apply N.eqb_eq in H4 as ->; rewrite <- IH at 2; reflexivity|].
  cbn [app read_refs]. assert (char_ref (c :: (s ≫= ent_quot)) = None) as ->; [|by f_equal].
  unfold char_ref, js. cbn. rewrite (N.eqb_sym 38), H2. done.
Qed.
Lemma upto_app c s rest : c ∉ s → upto c (s ++ c :: rest) = Some (s, rest).
Proof.
  induction s as [|d s IH]; cbn; [by rewrite N.eqb_refl|]. intros [Hd Hs]%not_elem_of_cons.
  rewrite (proj2 (N.eqb_neq d c)) by congruence. by rewrite IH.
Qed.
Lemma ent_quot_safe s : 34%N ∉ s ≫= ent_quot.
Proof.
  intros (c & Hc & _)%list_elem_of_bind. unfold ent_quot, ent_amp in Hc. revert Hc.
  assert (∀ t : jsstr, bool_decide (34%N ∈ t) = false → 34%N ∉ t) as Hno by (intros t; apply bool_decide_eq_false_1).
  destruct (c =? 34)%N eqn:H34; [by apply Hno|]. apply N.eqb_neq in H34. repeat case_match; try by apply Hno.
  intros ?%list_elem_of_singleton. congruence.
Qed.

Definition attribute_markup (a : jsstr * jsv) : jsstr := ATTR_MAP a.1 ++ js "=" ++ [34%N] ++ attribute_text a.2 ++ [34%N].
Lemma read_attribute_markup a rest : attribute_name (ATTR_MAP a.1) →
  read_attribute (attribute_markup a ++ rest) = Some ((ATTR_MAP a.1, string_of a.2), rest).
Proof.
  intros [_ Hname]. unfold read_attribute, attribute_markup. rewrite <- !app_assoc. change (js "=") with [61%N]. cbn [app].
  rewrite upto_app by (intros [Hc _]%(proj1 (Forall_forall _ _) Hname); done). cbn [mbind option_bind N.eqb Pos.eqb].
  rewrite attribute_text_chars, upto_app by apply ent_quot_safe. cbn. by rewrite read_refs_text.
Qed.
Lemma builder_attributes_some l texts : builder_attributes l = Some texts ↔
  Forall (λ a, is_nullish a.2 = false) l ∧ texts = attribute_markup <$> l.
Proof.
  revert texts. induction l as [|[name v] l IH]; intros texts; cbn.
  { split; [by intros [= <-]|by intros [_ ->]]. }
  rewrite Forall_cons. cbn. destruct (is_nullish v); [split; [done|by intros [[? _] _]]|].
  destruct (builder_attributes l) as [ts|]; cbn.
  - destruct (proj1 (IH ts) eq_refl) as [Hl ->]. split; [by intros [= <-]|by intros [_ ->]].
  - split; [done|]. intros [[_ Hl] _]. discriminate (proj2 (IH (attribute_markup <$> l)) (conj Hl eq_refl)).
Qed.
Lemma read_markup l n : Forall (λ a, attribute_name (ATTR_MAP a.1)) l →
  (length (join (js " ") (attribute_markup <$> l)) ≤ n)%nat →
  read_attributes n (join (js " ") (attribute_markup <$> l)) = Some ((λ a, (ATTR_MAP a.1, string_of a.2)) <$> l).
Proof.
  intros Hl. revert n. induction Hl as [|a l Ha Hl IH]; intros n Hn; [by destruct n|].
  assert (∃ rest, join (js " ") (attribute_markup <$> a :: l) = attribute_markup a ++ rest ∧
    ∀ n, (length rest ≤ n)%nat → read_attributes n rest = Some ((λ a, (ATTR_MAP a.1, string_of a.2)) <$> l)) as (rest & Hj & Hrest).
  { destruct l as [|b l]; [exists []; cbn; rewrite app_nil_r; split; [done|by intros []]|].
    exists (js " " ++ join (js " ") (attribute_markup <$> b :: l)). split; [reflexivity|].
    intros k. rewrite length_app. change (length (js " ")) with 1%nat. destruct k as [|k]; [lia|]. intros Hk. apply IH. lia. }
  rewrite Hj in *. assert (∃ c s, attribute_markup a = c :: s ∧ c ≠ 32%N) as (c & s & Hm & Hc).
  { destruct Ha as [Hne Hall]. unfold attribute_markup. destruct (ATTR_MAP a.1) as [|c s]; [done|]. exists c. eexists. split; [reflexivity|].
    apply Forall_cons in Hall as [[_ ?] _]. done. }
  pose proof (read_attribute_markup a rest Ha) as Hr. rewrite Hm in *. cbn [app length] in *. destruct n as [|n]; [lia|].
  cbn [read_attributes]. rewrite (proj2 (N.eqb_neq _ _) Hc), Hr. cbn. rewrite Hrest by (rewrite length_app in Hn; lia). done.
Qed.

(** C37. The attributes are read back from their text: the names as they are in
    markup and the texts of the values, whatever these hold; no value reaches
    beyond its quotes. *)
Theorem attributes_roundtrip (attributes : list (jsstr * jsv)) (markup : jsstr) :
  attributes_markup attributes = Some markup → Forall (λ a, attribute_name (ATTR_MAP a.1)) attributes →
  read_attributes (length markup) markup = Some ((λ a, (ATTR_MAP a.1, string_of a.2)) <$> attributes) ∧
  Forall (λ a, is_nullish a.2 = false) attributes.
Proof.
  intros Hm Hnames. unfold attributes_markup in Hm. apply fmap_Some in Hm as (texts & Ht & ->).
  apply builder_attributes_some in Ht as [Hn ->]. split; [|done]. by apply read_markup.
Qed.

(** ** The children *)

Definition nodes_of (l : list child) : list nid := omap (λ c, match c with ENode e => Some e | EValue _ => None end) l.
(** Items that become children, and items that are no error. *)
Definition shows (c : child) : bool := match c with ENode _ => true | EValue v => isStringOrNumber v end.
Definition fine (c : child) : bool :=
  shows c || match c with EValue (VBool _ | VUndef | VFun _) => true | _ => false end.
(** The node itself, or a new text node. *)
Definition shown (d d' : dom) (c : child) (t : nid) : Prop :=
  match c with
  | ENode e => t = e
  | EValue v => d !! t = None ∧ ∃ n, d' !! t = Some n ∧ kind n = NText (string_of v)
  end.
(** What was there holds what it held, and only [ns] have moved, below [p]. *)
Record keeps_others (d d' : dom) (p : nid) (ns : list nid) : Prop := {
  keep_content x : is_Some (d !! x) → content <$> d' !! x = content <$> d !! x;
  keep_parent x : is_Some (d !! x) → x ∉ ns → parent_of d' x = parent_of d x;
  keep_children q : is_Some (d !! q) → q ≠ p → child_list d' (Some q) = filter (λ c, c ∉ ns) (child_list d (Some q));
}.
Lemma keep_in d d' p ns x : keeps_others d d' p ns → is_Some (d !! x) → is_Some (d' !! x).
Proof. intros Hk Hx. pose proof (keep_content _ _ _ _ Hk x Hx) as Hc. destruct Hx as [n Hn]. rewrite Hn in Hc. by destruct (d' !! x). Qed.
Lemma keeps_refl d p : keeps_others d d p [].
Proof. split; [done|done|]. intros q _ _. symmetry. apply filter_all. intros x _. by apply not_elem_of_nil. Qed.
Lemma keeps_trans' d d1 d2 p ns1 ns2 : keeps_others d d1 p ns1 → keeps_others d1 d2 p ns2 → keeps_others d d2 p (ns1 ++ ns2).
Proof.
  intros H1 H2. pose proof (keep_in d d1 p ns1) as Hin. split.
  - intros x Hx. rewrite (keep_content _ _ _ _ H2), (keep_content _ _ _ _ H1); auto.
  - intros x Hx Hn. rewrite (keep_parent _ _ _ _ H2), (keep_parent _ _ _ _ H1); set_solver.
  - intros q Hq Hp. rewrite (keep_children _ _ _ _ H2), (keep_children _ _ _ _ H1), list_filter_filter by auto.
    apply list_filter_iff. set_solver.
Qed.
Lemma shown_later d d1 d2 p ns c t : keeps_others d1 d2 p ns → shown d d1 c t → shown d d2 c t.
Proof.
  intros Hk. destruct c as [e|v]; [done|]. intros (Hd & n & Hn & Hkind). split; [done|].
  pose proof (keep_content _ _ _ _ Hk t (ex_intro _ _ Hn)) as Hc. rewrite Hn in Hc. destruct (d2 !! t) as [n2|]; [|done].
  exists n2. split; [done|]. injection Hc. congruence.
Qed.
Lemma shown_earlier d d1 d2 p ns c t : keeps_others d d1 p ns → shown d1 d2 c t → shown d d2 c t.
Proof.
  intros Hk. destruct c as [e|v]; [done|]. intros [Hd Hn]. split; [|done]. destruct (d !! t) eqn:Ht; [|done].
  destruct (keep_in d d1 p ns t Hk (ex_intro _ _ Ht)) as [? ?]. congruence.
Qed.

Lemma list_filter_iff_in (P Q : nid → Prop) `{∀ x, Decision (P x), ∀ x, Decision (Q x)} (l : list nid) :
  (∀ x, x ∈ l → P x ↔ Q x) → filter P l = filter Q l.
Proof.
  induction l as [|x l IH]; intros Hl; [done|]. rewrite !filter_cons, IH by (intros; apply Hl; by right).
  pose proof (Hl x (list_elem_of_here _ _)). repeat case_decide; tauto || done.
Qed.
(** A new node can be put wherever the others can. *)
Lemma spot_alloc d p l1 l2 ns n : spot d p l1 l2 ns → parentNode n = None → childNodes n = [] →
  spot (<[new_id d := n]> d) p l1 l2 (new_id d :: ns) ∧ keeps_others d (<[new_id d := n]> d) p [].
Proof.
  intros [Hd Hac Hp Hch Hnd Hns] Hpn Hcn. pose proof (new_id_fresh d) as Hw. set (w := new_id d) in *. set (d0 := <[w := n]> d).
  pose proof (alone_placed d w n Hw Hpn Hcn) as Hpl. destruct (placed_tree d d0 Hd Hac Hpl) as [Hd0 Hac0]. destruct Hpl as [Hpo Hch0].
  assert (∀ x, is_Some (d !! x) → x ≠ w) as Hold by (intros x [? Hx] ->; congruence).
  assert (∀ x, x ≠ w → d0 !! x = d !! x) as H0 by (intros x Hx; by apply lookup_insert_ne).
  assert (∀ a, above d0 p a → above d p a) as Hab.
  { intros a. apply (above_along d d0 (λ _, True)); [|done]. intros x y _. by rewrite Hpo. }
  split.
  - split; [done|done|rewrite H0; auto|by rewrite Hch0| |].
    + apply NoDup_cons. split; [|done]. intros Hin. destruct (Hns w Hin) as [Hin' _]. by apply (Hold w).
    + intros m [->|Hm]%elem_of_cons.
      * split_and!; [by exists n; apply lookup_insert_eq|intros ->; by apply (Hold p)| |].
        -- intros Ha%Hab. assert (∃ x, parent_of d x = Some w) as [x Hx%(parent_in d x w Hd)]; [|by apply (Hold w)].
           clear -Ha. induction Ha as [x y Hy|x y z _ _ IH]; [by exists x|done].
        -- rewrite Hpo. unfold parent_of. by rewrite Hw.
      * destruct (Hns m Hm) as (Hin & ? & Ham & ?). split_and!; [by rewrite H0; auto|done| |by rewrite Hpo]. auto.
  - split; [intros x Hx; by rewrite H0; auto|done|]. intros q _ _. rewrite Hch0. symmetry. apply filter_all. intros x _. by apply not_elem_of_nil.
Qed.
Lemma spot_append d p l1 n ns : spot d p l1 [] (n :: ns) →
  ∃ d', appendChild p n d = (Ret (), d') ∧ spot d' p (l1 ++ [n]) [] ns ∧ keeps_others d d' p [n] ∧ content <$> d' !! n = content <$> d !! n.
Proof.
  intros Hs. destruct (spot_step d p l1 [] n ns Hs) as (d' & Hrun & Hc & Hs' & _ & Ho1 & Ho2). exists d'.
  split; [done|]. split; [by apply (spot_split d' p l1 [n]); [rewrite app_nil_r|]|]. split; [|done]. split; auto.
Qed.

Lemma put_child_run c l d p l1 : spot d p l1 [] (nodes_of (c :: l)) → fine c = true →
  ∃ d1 ts, put_child (Some p) c d = (Ret (), d1) ∧ spot d1 p (l1 ++ ts) [] (nodes_of l) ∧
    Forall2 (shown d d1) (filter shows [c]) ts ∧ keeps_others d d1 p (nodes_of [c]).
Proof.
  intros Hs Hf. destruct c as [e|v]; cbn [put_child append_to].
  - rewrite js_bind_ret. destruct (spot_append d p l1 e (nodes_of l) Hs) as (d1 & Hrun & Hs1 & Hk & _). exists d1, [e].
    split_and!; [done|done|by repeat constructor|done].
  - change (nodes_of (EValue v :: l)) with (nodes_of l) in Hs. destruct (isStringOrNumber v) eqn:Hv.
    + set (n := Dom.Node (NText (string_of v)) ∅ ∅ ∅ None []).
      destruct (spot_alloc d p l1 [] (nodes_of l) n Hs eq_refl eq_refl) as [Hs0 Hk0].
      destruct (spot_append _ p l1 (new_id d) (nodes_of l) Hs0) as (d1 & Hrun & Hs1 & Hk & Hc). rewrite lookup_insert_eq in Hc.
      exists d1, [new_id d]. split; [exact Hrun|]. split; [done|]. split.
      * rewrite filter_cons_True by (cbn; by rewrite Hv). repeat constructor; [apply new_id_fresh|].
        destruct (d1 !! new_id d) as [n1|]; [|done]. exists n1. split; [done|]. injection Hc. done.
      * pose proof (keeps_trans' _ _ _ _ _ _ Hk0 Hk) as [H1 H2 H3]. split; [done|..].
        -- intros x Hx _. apply H2; [done|]. intros ->%list_elem_of_singleton. rewrite new_id_fresh in Hx. by destruct Hx.
        -- intros q Hq Hne. rewrite H3 by done. apply list_filter_iff_in. intros x Hx.
           assert (x ≠ new_id d); [|set_solver]. intros ->. apply (ok_child d (spot_ok _ _ _ _ _ Hs)) in Hx.
           unfold parent_of in Hx. by rewrite new_id_fresh in Hx.
    + exists d, []. rewrite app_nil_r. rewrite filter_cons_False by (cbn; rewrite Hv; by intros []). split_and!; [|done|by constructor|apply keeps_refl].
      unfold fine in Hf. cbn in Hf. rewrite Hv in Hf. by destruct v.
Qed.
Lemma put_children_run l : ∀ d p l1, spot d p l1 [] (nodes_of l) → forallb fine l = true →
  ∃ d1 ts, js_each l (put_child (Some p)) d = (Ret (), d1) ∧ spot d1 p (l1 ++ ts) [] [] ∧
    Forall2 (shown d d1) (filter shows l) ts ∧ keeps_others d d1 p (nodes_of l).
Proof.
  induction l as [|c l IH]; intros d p l1 Hs Hf.
  { exists d, []. rewrite app_nil_r. split_and!; [done|done|by constructor|apply keeps_refl]. }
  cbn in Hf. apply andb_true_iff in Hf as [Hc Hf]. destruct (put_child_run c l d p l1 Hs Hc) as (d1 & ts1 & Hrun1 & Hs1 & Hsh1 & Hk1).
  destruct (IH d1 p (l1 ++ ts1) Hs1 Hf) as (d2 & ts2 & Hrun2 & Hs2 & Hsh2 & Hk2). exists d2, (ts1 ++ ts2). split_and!.
  - cbn [js_each]. by rewrite (js_bind_Ret _ _ _ _ _ Hrun1).
  - by rewrite app_assoc.
  - change (c :: l) with ([c] ++ l). rewrite filter_app. apply Forall2_app.
    + eapply Forall2_impl; [exact Hsh1|]. intros x t. by apply (shown_later d d1 d2 p (nodes_of l)).
    + eapply Forall2_impl; [exact Hsh2|]. intros x t. by apply (shown_earlier d d1 d2 p (nodes_of [c])).
  - change (c :: l) with ([c] ++ l). unfold nodes_of. rewrite omap_app. by apply (keeps_trans' d d1 d2).
Qed.

(** Children given as an array, nested as it may be, become the last children
    of the element in their order: nodes move there, strings and numbers are
    new text nodes, and other plain values are passed over; what was in the
    document else stays as it was, in a tree. *)
Theorem children_spec (d : dom) (element : nid) (l : list (nested child)) :
  dom_ok d → acyclic d → is_Some (d !! element) → forallb fine (flatten l) = true → NoDup (nodes_of (flatten l)) →
  (∀ n, n ∈ nodes_of (flatten l) → is_Some (d !! n) ∧ n ≠ element ∧ ¬ above d element n ∧ parent_of d n ≠ Some element) →
  ∃ d' ts, builder_children (Some element) (ManyChildren l) d = (Ret (), d') ∧ dom_ok d' ∧ acyclic d' ∧
    child_list d' (Some element) = child_list d (Some element) ++ ts ∧
    Forall2 (shown d d') (filter shows (flatten l)) ts ∧ keeps_others d d' element (nodes_of (flatten l)).
Proof.
  intros Hd Hac He Hf Hnd Hns.
  assert (spot d element (child_list d (Some element)) [] (nodes_of (flatten l))) as Hs by (split; [done..|by rewrite app_nil_r|done|done]).
  destruct (put_children_run (flatten l) d element _ Hs Hf) as (d' & ts & Hrun & Hs' & Hsh & Hk). exists d', ts.
  split_and!; [done|apply Hs'|apply Hs'| |done|done]. pose proof (spot_children _ _ _ _ _ Hs') as Hch. by rewrite app_nil_r in Hch.
Qed.

(** ** A node *)

(** What the browser makes of a tag's markup in [parent]: an element [e] with
    the tag, by itself or below others the browser put around it. *)
Definition made_in (d : dom) (parent : nid) (tag : jsstr) (e : nid) : Prop :=
  tag_of d e = tag ∧ element_at d e = true ∧ child_list d (Some e) = [] ∧
  ∃ x, firstChild d parent = Some x ∧ element_at d x = true ∧
    (x = e ∨ toUpperCase (tag_of d x) ≠ tag ∧ head (getElementsByTagName d x tag) = Some e ∧
      head (getElementsByTagName d parent tag) = Some e).
Lemma tag_name_run d e : element_at d e = true → tag_name e d = (Ret (toUpperCase (tag_of d e)), d).
Proof.
  unfold element_at, tag_name, tag_of. destruct (d !! e) as [n|] eqn:Hn; [|done]. intros He.
  rewrite (js_bind_Ret (get_node e) _ d n d) by (unfold get_node; by rewrite Hn). by rewrite He.
Qed.
Lemma made_named d parent tag e : made_in d parent tag e → toUpperCase tag = tag →
  ∃ x, firstChild d parent = Some x ∧ named_element tag x x d = (Ret (Some e), d) ∧ named_element tag parent x d = (Ret (Some e), d).
Proof.
  intros (Ht & He & _ & x & Hx & Hel & Hcase) Hup. exists x. split; [done|]. unfold named_element.
  rewrite !(js_bind_Ret _ _ _ _ _ (tag_name_run d x Hel)), !js_bind_get. destruct Hcase as [->|(Hne & H1 & H2)].
  - by rewrite Ht, Hup, bool_decide_eq_true_2.
  - by rewrite bool_decide_eq_false_2, H1, H2.
Qed.
Lemma upper_idem s : toUpperCase (toUpperCase s) = toUpperCase s.
Proof.
  unfold toUpperCase. rewrite <- list_fmap_compose. apply list_fmap_ext. intros _ c _. cbn. unfold upper_cu at 2 3.
  destruct (is_lower c || ((224 <=? c) && (c <=? 254) && negb (c =? 247)))%N eqn:H; unfold upper_cu; [|by rewrite H].
  unfold is_lower in *. assert (((97 <=? c - 32) && (c - 32 <=? 122) || (224 <=? c - 32) && (c - 32 <=? 254) && negb (c - 32 =? 247))%N = false) as ->; [|done].
  apply not_true_is_false. intros H'. rewrite !orb_true_iff, !andb_true_iff, !N.leb_le in H, H'. lia.
Qed.

(** [Builder.node] with attributes gives the element the browser makes of the
    tag with them, and its children. *)
Theorem node_spec (set_innerHTML : nid → jsstr → D ()) (set_property : nid → jsstr → jsv → D ())
    (d d1 d2 d' : dom) (name markup : jsstr) (attributes : list (jsstr * jsv)) (e1 e : nid) (c : children) :
  let tag := toUpperCase name in
  let parent := new_id d in
  let d0 := (createElement (default (js "div") (NODEMAP !! tag)) d).2 in
  attributes_markup attributes = Some markup → markup ≠ [] →
  set_innerHTML parent (js "<" ++ tag ++ js "></" ++ tag ++ js ">") d0 = (Ret (), d1) → made_in d1 parent tag e1 →
  set_innerHTML parent (js "<" ++ tag ++ js " " ++ markup ++ js "></" ++ tag ++ js ">") d1 = (Ret (), d2) → made_in d2 parent tag e →
  given c = true → builder_children (Some e) c d2 = (Ret (), d') →
  builder_node set_innerHTML set_property name (Attributes attributes) (Some c) d = (Ret (Some e), d').
Proof.
  intros tag parent d0 Hm Hne Hr1 Hmade1 Hr2 Hmade2 Hgiven Hkids.
  destruct (made_named d1 parent tag e1 Hmade1 (upper_idem name)) as (x1 & Hf1 & Hn1 & _).
  destruct (made_named d2 parent tag e Hmade2 (upper_idem name)) as (x2 & Hf2 & _ & Hn2).
  unfold builder_node. fold tag. rewrite (js_bind_Ret _ _ d parent d0) by done.
  rewrite (js_bind_Ret (js_try _ _) _ d0 () d1) by (unfold js_try; by rewrite Hr1).
  rewrite js_bind_get, Hf1, (js_bind_Ret _ _ _ _ _ Hn1), js_bind_ret, Hm, js_bind_assoc, js_bind_ret.
  rewrite bool_decide_eq_false_2 by done. rewrite js_bind_assoc, (js_bind_Ret (js_try _ _) _ d1 () d2) by (unfold js_try; by rewrite Hr2).
  rewrite js_bind_assoc, js_bind_get, Hf2, js_bind_assoc, js_bind_ret, (js_bind_Ret _ _ _ _ _ Hn2), Hgiven. cbn [js_when].
  by rewrite (js_bind_Ret _ _ _ _ _ Hkids).
Qed.

(** ** Concrete runs *)

(** A value with quotes and markup stays in its attribute. *)
Lemma attributes_roundtrip_witness :
  let attributes := [(js "className", VStr (js "a" ++ [34%N] ++ js "><b>&lt;")); (js "id", VNum 7)] in
  ∃ markup, attributes_markup attributes = Some markup ∧
    read_attributes (length markup) markup = Some [(js "class", js "a" ++ [34%N] ++ js "><b>&lt;"); (js "id", js "7")].
Proof.
  set (attributes := [(js "className", VStr (js "a" ++ [34%N] ++ js "><b>&lt;")); (js "id", VNum 7)]).
  destruct (attributes_markup attributes) as [markup|] eqn:Hm; [|vm_compute in Hm; discriminate Hm].
  exists markup. split; [exact Hm|]. destruct (attributes_roundtrip attributes markup Hm) as [Hr _].
  - assert (ATTR_MAP (js "className") = js "class") as H1 by (vm_compute; reflexivity).
    assert (ATTR_MAP (js "id") = js "id") as H2 by (vm_compute; reflexivity).
    constructor; [|constructor; [|constructor]]; cbn [fst]; rewrite ?H1, ?H2;
      (split; [discriminate|apply (bool_decide_unpack _); vm_compute; exact I]).
  - rewrite Hr. vm_compute. reflexivity.
Defined.

(** A paragraph moved into the DIV between two texts. *)
Definition some_children : list (nested child) :=
  [Leaf (EValue (VStr (js "x"))); Enumerable.Node [Leaf (ENode 4); Leaf (EValue (VBool true))]; Leaf (EValue (VNum 7))].
Lemma children_spec_witness : ∃ d',
  builder_children (Some 2%nat) (ManyChildren some_children) sample_dom = (Ret (), d') ∧
  ∃ a b, child_list d' (Some 2%nat) = [a; 4; b]%nat ∧
    (∃ n, d' !! a = Some n ∧ kind n = NText (js "x")) ∧ ∃ n, d' !! b = Some n ∧ kind n = NText (js "7").
Proof.
  assert (dom_ok sample_dom) as Hd by (apply dom_ok_check, (bool_decide_unpack _); vm_compute; exact I).
  assert (acyclic sample_dom) as Hac by (apply acyclic_check, (bool_decide_unpack _); vm_compute; exact I).
  assert (nodes_of (flatten some_children) = [4%nat]) as Hn by reflexivity.
  destruct (children_spec sample_dom 2 some_children Hd Hac) as (d' & ts & Hrun & _ & _ & Hch & Hsh & _).
  - by eexists.
  - reflexivity.
  - rewrite Hn. repeat constructor. by apply not_elem_of_nil.
  - intros n. rewrite Hn. intros ->%list_elem_of_singleton. split; [by eexists|]. split; [done|]. split; [|vm_compute; discriminate].
    intros Ha%is_parent_iff; [|done]. vm_compute in Ha. discriminate Ha.
  - exists d'. split; [exact Hrun|]. assert (child_list sample_dom (Some 2%nat) = []) as Hc by (vm_compute; reflexivity).
    assert (filter shows (flatten some_children) = [EValue (VStr (js "x")); ENode 4; EValue (VNum 7)]) as Hf by reflexivity.
    rewrite Hf in Hsh. rewrite Hc in Hch. cbn [app] in Hch. apply Forall2_cons_inv_l in Hsh as (a & ts1 & Ha & Hsh & ->).
    apply Forall2_cons_inv_l in Hsh as (m & ts2 & -> & Hsh & ->). apply Forall2_cons_inv_l in Hsh as (b & ts3 & Hb & Hsh & ->).
    apply Forall2_nil_inv_l in Hsh as ->. exists a, b. split; [exact Hch|]. split; [apply Ha|apply Hb].
Defined.
