(* ===== verification/DragScroll.v ===== *)
(** * Scrolling and ghosts of draggables (dragdrop.js: Draggable, options scroll and ghosting)

    While a draggable with the option [scroll] is dragged near the border of
    its container, a timer scrolls the container; with the option [ghosting] a
    copy of the element stays where it was while the element, taken out of the
    flow, is dragged.  Both are an instance of [DragExtras]. *)

From Stdlib Require Import ZArith QArith.
From S2P Require Import Prelude JsBase JsNum JsFloat Strings Dom Droppable Position Drag Tree Insertion.
#[local] Open Scope Z_scope.
#[local] Open Scope stdpp_scope.

(** ** State *)

Inductive scroll_target := ScrollWindow | ScrollElement (e : nid).
#[export] Instance scroll_target_eq_dec : EqDecision scroll_target.
Proof. solve_decision. Defined.
(** The options of a draggable, [scroll] being [false] or the target found, and
    [_isScrollChild]. *)
Record extra_options := ExtraOptions {
  ghosting : bool;
  scroll_into : option scroll_target;
  isScrollChild : bool;
  scrollSensitivity : Z;
  scrollSpeed_option : Z;
}.
Definition extra_defaults : extra_options := ExtraOptions false None false 20 15.

(** The fields of a draggable for scrolling and ghosts. *)
Record scroller := Scroller {
  scrollInterval : option nat;
  scrollSpeed : Z * Z;
  lastScrolled : Z;
  originalScroll : Z * Z;
  clone_of : option nid;
  originallyAbsolute : bool;
}.
Definition new_scroller : scroller := Scroller None (0, 0) 0 (0, 0) None false.
Definition set_interval (i : option nat) (s : scroller) : scroller :=
  Scroller i (scrollSpeed s) (lastScrolled s) (originalScroll s) (clone_of s) (originallyAbsolute s).
Definition set_speed (v : Z * Z) (s : scroller) : scroller :=
  Scroller (scrollInterval s) v (lastScrolled s) (originalScroll s) (clone_of s) (originallyAbsolute s).
Definition set_scrolled (t : Z) (s : scroller) : scroller :=
  Scroller (scrollInterval s) (scrollSpeed s) t (originalScroll s) (clone_of s) (originallyAbsolute s).
Definition set_origin (o : Z * Z) (s : scroller) : scroller :=
  Scroller (scrollInterval s) (scrollSpeed s) (lastScrolled s) o (clone_of s) (originallyAbsolute s).
Definition set_ghost (c : option nid) (b : bool) (s : scroller) : scroller :=
  Scroller (scrollInterval s) (scrollSpeed s) (lastScrolled s) (originalScroll s) c b.

(** [intervals] are the timers of [setInterval] that run, with their
    draggables; [originals] what [absolutize] keeps on elements; [clock] is the
    time in milliseconds. *)
Record scrolling (Y : Type) := Scrolling {
  scrollers : gmap nat scroller;
  intervals : gmap nat nat;
  next_interval : nat;
  lastScrollPointer : option (num * num);
  position : position_state;
  originals : gmap nid original;
  clock : Z;
  page_rest : Y;
}.
Arguments Scrolling {Y}.
Arguments scrollers {Y}.
Arguments intervals {Y}.
Arguments next_interval {Y}.
Arguments lastScrollPointer {Y}.
Arguments position {Y}.
Arguments originals {Y}.
Arguments clock {Y}.
Arguments page_rest {Y}.

(** ** Operations *)

(** The speed at a point of a container with its left, top, right and bottom:
    how far the point is beyond the line a margin inside; the right and bottom
    lines are looked at last. *)
Definition axis_speed (p low high sensitivity : Z) : Z :=
  if high - sensitivity <? p then p - (high - sensitivity)
  else if p <? low + sensitivity then p - (low + sensitivity) else 0.
Definition auto_speed (p : Z * Z) (region : Z * Z * Z * Z) (sensitivity : Z) : Z * Z :=
  let '(l, t, r, b) := region in
  (axis_speed p.1 l r sensitivity, axis_speed p.2 t b sensitivity).

(** [cloneNode(true)], the nodes below included; properties that are no
    attributes are not copied, but the markup kept as [innerHTML] is. *)
Fixpoint clone_nodes (fuel : nat) (e : nid) : D nid :=
  match fuel with
  | O => js_throw ETypeError
  | S fuel =>
      n ← get_node e;
      d ← js_get;
      let id := new_id d in
      let html := match expando n !! js "innerHTML" with Some v => {[js "innerHTML" := v]} | None => ∅ end in
      js_put (<[id := Node (kind n) (attrs n) (style n) html None []]> d) ;;
      js_each (childNodes n) (λ c, k ← clone_nodes fuel c; appendChild id k) ;;
      mret id
  end.
Definition cloneNode (e : nid) : D nid := d ← js_get; clone_nodes (S (node_count d)) e.

(** What [initialize] makes of the option [scroll]: the window and an element
    are taken as they are, and the draggable is no scroll child; the id of an
    element is looked up. *)
Inductive scroll_argument := ScrollGiven (t : scroll_target) | ScrollId (id : jsstr).
Definition resolve_scroll (e : nid) (a : scroll_argument) : D (option scroll_target * bool) :=
  match a with
  | ScrollGiven t => mret (Some t, false)
  | ScrollId id =>
      o ← dollar id;
      match o with
      | Some s => b ← descendantOf e s; mret (Some (ScrollElement s), b)
      | None => mret (None, false)
      end
  end.

Section scrolling.
Context {Y : Type} (computed : dom → nid → jsstr → option jsstr) (layout : dom → nid → geometry).
#[local] Abbreviation W := (dnd (drag_state (scrolling Y))).
#[local] Abbreviation M := (JS W).
Context (on_hover : nat → nid → nid → num → M ()) (call_page : page_call → M ())
  (snap_by : nat → num → num → nat → M (num * num)).
(** The document element, the body, and what a browser does: the offsets and
    the inner size of the window, and assignments to scroll offsets. *)
Context (documentElement body : nid) (pageOffset innerSize : dom → Z * Z)
  (put_scrollLeft put_scrollTop : nid → num → D ()) (scrollTo : num → num → D ()).
Context (options_of : nat → extra_options).

Definition scrolling_of (w : W) : scrolling Y := others (rest w).
Definition change_scrolling (f : scrolling Y → scrolling Y) : M () := js_modify (λ w,
  set_rest (DragState (core_of w) (busy (rest w)) (opacities (rest w)) (f (scrolling_of w))) w).
Definition scroller_of (d : nat) (w : W) : scroller := default new_scroller (scrollers (scrolling_of w) !! d).
Definition set_scrollers (m : gmap nat scroller) (s : scrolling Y) : scrolling Y :=
  Scrolling m (intervals s) (next_interval s) (lastScrollPointer s) (position s) (originals s) (clock s) (page_rest s).
Definition change_scroller (d : nat) (f : scroller → scroller) : M () :=
  change_scrolling (λ s, set_scrollers (<[d := f (default new_scroller (scrollers s !! d))]> (scrollers s)) s).
Definition set_scroll_pointer (p : option (num * num)) (s : scrolling Y) : scrolling Y :=
  Scrolling (scrollers s) (intervals s) (next_interval s) p (position s) (originals s) (clock s) (page_rest s).
Definition set_position (p : position_state) (s : scrolling Y) : scrolling Y :=
  Scrolling (scrollers s) (intervals s) (next_interval s) (lastScrollPointer s) p (originals s) (clock s) (page_rest s).
Definition set_originals (m : gmap nid original) (s : scrolling Y) : scrolling Y :=
  Scrolling (scrollers s) (intervals s) (next_interval s) (lastScrollPointer s) (position s) m (clock s) (page_rest s).
Definition set_clock (t : Z) (s : scrolling Y) : scrolling Y :=
  Scrolling (scrollers s) (intervals s) (next_interval s) (lastScrollPointer s) (position s) (originals s) t (page_rest s).

Definition prepare_position : M () := w ← js_get;
  change_scrolling (λ s, set_position (prepare layout (pageOffset (page w)) documentElement body (page w) (position s)) s).

(** *** Scrolling *)
(** [setInterval] and [clearInterval] *)
Definition start_interval (d : nat) (s : scrolling Y) : scrolling Y :=
  Scrolling (scrollers s) (<[next_interval s := d]> (intervals s)) (S (next_interval s)) (lastScrollPointer s)
    (position s) (originals s) (clock s) (page_rest s).
Definition clear_interval (i : nat) (s : scrolling Y) : scrolling Y :=
  Scrolling (scrollers s) (delete i (intervals s)) (next_interval s) (lastScrollPointer s)
    (position s) (originals s) (clock s) (page_rest s).

Definition stopScrolling (d : nat) : M () :=
  w ← js_get;
  match scrollInterval (scroller_of d w) with
  | Some i =>
      change_scrolling (clear_interval i) ;;
      change_scroller d (set_interval None) ;;
      change_scrolling (set_scroll_pointer None)
  | None => mret ()
  end.
Definition startScrolling (d : nat) (speed : Z * Z) : M () :=
  let factor := scrollSpeed_option (options_of d) in
  js_when (negb (bool_decide (speed = (0, 0))))
    (change_scroller d (set_speed (speed.1 * factor, speed.2 * factor)) ;;
     w ← js_get;
     change_scroller d (set_scrolled (clock (scrolling_of w))) ;;
     change_scrolling (start_interval d) ;;
     change_scroller d (set_interval (Some (next_interval (scrolling_of w))))).

(** [_getWindowScroll]: left, top, width and height; the document element
    counts only if its own [scrollTop] is not 0. *)
Definition getWindowScroll (d : dom) : Z * Z * Z * Z :=
  let g := layout d in
  let '(l, t) := if scrollTop (g documentElement) =? 0 then (scrollLeft (g body), scrollTop (g body))
                 else (scrollLeft (g documentElement), scrollTop (g documentElement)) in
  let '(w, h) := if negb ((innerSize d).1 =? 0) then innerSize d
                 else if negb (clientWidth (g documentElement) =? 0) then (clientWidth (g documentElement), clientHeight (g documentElement))
                 else (offsetWidth (g body), offsetHeight (g body)) in
  (l, t, w, h).
(** The container on the page; without the page's offsets its numbers are
    [NaN], and no comparison with them holds. *)
Definition scroll_region (t : scroll_target) : M (option (Z * Z * Z * Z)) :=
  match t with
  | ScrollWindow => w ← js_get; let '(l, t, wd, h) := getWindowScroll (page w) in mret (Some (l, t, l + wd, t + h))
  | ScrollElement e =>
      p ← on_page (viewportOffset computed layout body e);
      w ← js_get;
      let g := layout (page w) e in
      mret (match deltas (position (scrolling_of w)) with
            | Some dl => let l := p.1 + scrollLeft g + dl.1 in let t := p.2 + scrollTop g + dl.2 in
                         Some (l, t, l + offsetWidth g, t + offsetHeight g)
            | None => None
            end)
  end.
(** The part of [updateDrag] for the option [scroll]. *)
Definition scroll_update (d : nat) (pointer : Z * Z) : M () :=
  match scroll_into (options_of d) with
  | None => mret ()
  | Some t =>
      stopScrolling d ;;
      r ← scroll_region t;
      startScrolling d (match r with Some r => auto_speed pointer r (scrollSensitivity (options_of d)) | None => (0, 0) end)
  end.
(** The part of [startDrag]. *)
Definition scroll_start (d : nat) : M () :=
  match scroll_into (options_of d) with
  | None => mret ()
  | Some ScrollWindow => w ← js_get; let '(l, t, _, _) := getWindowScroll (page w) in change_scroller d (set_origin (l, t))
  | Some (ScrollElement e) => w ← js_get;
      let g := layout (page w) e in change_scroller d (set_origin (scrollLeft g, scrollTop g))
  end.
(** The part of [draw]. *)
Definition scrolled_shift (d : nat) (pos : num * num) : M (num * num) :=
  match scroll_into (options_of d) with
  | Some (ScrollElement e) =>
      w ← js_get;
      let g := layout (page w) e in let o := originalScroll (scroller_of d w) in
      mret (if isScrollChild (options_of d)
            then (num_sub pos.1 (int (scrollLeft g - o.1)), num_sub pos.2 (int (scrollTop g - o.2))) else pos)
  | _ => mret pos
  end.

(** *** Ghosts *)
Definition dragged_element (d : nat) : M nid := g ← get_drag d; mret (g_element g).
(** [Position.absolutize] and [Position.relativize] *)
Definition position_absolutize (e : nid) : M () :=
  prepare_position ;;
  o ← on_page (absolutize computed layout e);
  match o with Some o => change_scrolling (λ s, set_originals (<[e := o]> (originals s)) s) | None => mret () end.
Definition position_relativize (e : nid) : M () :=
  prepare_position ;;
  w ← js_get;
  on_page (relativize computed e (originals (scrolling_of w) !! e)).
(** The part of [startDrag] for the option [ghosting]. *)
Definition start_ghost (d : nat) : M () :=
  js_when (ghosting (options_of d))
    (e ← dragged_element d;
     c ← on_page (cloneNode e);
     pos ← on_page (getStyle computed e (js "position"));
     let absolute := bool_decide (pos = Some (js "absolute")) in
     change_scroller d (set_ghost (Some c) absolute) ;;
     js_when (negb absolute) (position_absolutize e) ;;
     p ← on_page (parent_or_throw e);
     on_page (insertBefore p c (Some e))).
(** The part of [finishDrag]: [Element.remove] of no clone throws. *)
Definition end_ghost (d : nat) : M () :=
  js_when (ghosting (options_of d))
    (e ← dragged_element d;
     w ← js_get;
     js_when (negb (originallyAbsolute (scroller_of d w))) (position_relativize e) ;;
     w ← js_get;
     change_scroller d (set_ghost (clone_of (scroller_of d w)) false) ;;
     match clone_of (scroller_of d w) with
     | Some c => on_page (remove c)
     | None => js_throw ETypeError
     end ;;
     change_scroller d (set_ghost None false)).
(** The part of [draw]: the offsets of the containers are added and those of the page taken
    off. *)
Definition ghost_offset (d : nat) (pos : num * num) : M (num * num) :=
  if ghosting (options_of d)
  then
    e ← dragged_element d;
    r ← on_page (cumulativeScrollOffset layout e);
    w ← js_get;
    let minus (z : Z) (o : option Z) := match o with Some dz => int (z - dz) | None => NaN end in
    let dl := deltas (position (scrolling_of w)) in
    mret (num_add pos.1 (minus r.1 (fst <$> dl)), num_add pos.2 (minus r.2 (snd <$> dl)))
  else mret pos.

#[local] Instance scroll_extras : DragExtras W := {
  position_prepare := prepare_position;
  ghost_start := start_ghost;
  scroll_origin := scroll_start;
  ghost_shift := ghost_offset;
  scroll_shift := scrolled_shift;
  autoscroll := scroll_update;
  ghost_end := end_ghost;
  release_scroll := stopScrolling;
}.

(** *** The timer *)

(** Whether a droppable takes a dragged element, wherever it is. *)
Definition could_take (w : W) (element : nid) (x : drop) : bool :=
  bool_decide (d_element x ≠ element) &&
  match containers x with None => true | Some c => isContained w element c (d_tree x) end &&
  match accept x with
  | None => true
  | Some names => existsb (λ v, bool_decide (v ∈ names))
      (match page w !! element with Some n => class_names (className n) | None => [] end)
  end.
(** [Droppables.show] at the last pointer; without one, the first droppable that
    looks at the point throws. *)
Definition show_last (element : nid) : M () :=
  w ← js_get;
  match lastPointer (core_of w) with
  | Some p => drop_show layout on_hover p element
  | None => if existsb (could_take w element) (drops w) then js_throw ETypeError
            else drop_show layout on_hover (0, 0) element
  end.
Definition moved_by (from : num) (speed delta : Z) : num := num_add from (num_div (num_mul (int speed) (int delta)) (int 1000)).
(** The container is moved by the speed and the time gone by. *)
Definition scroll_container (d : nat) (delta : Z) : M () :=
  w ← js_get;
  let v := scrollSpeed (scroller_of d w) in
  match scroll_into (options_of d) with
  | Some ScrollWindow =>
      let '(l, t, _, _) := getWindowScroll (page w) in
      let by_ z := num_mul (num_div (int delta) (int 1000)) (int z) in
      js_when (negb (bool_decide (v = (0, 0)))) (on_page (scrollTo (num_add (int l) (by_ v.1)) (num_add (int t) (by_ v.2))))
  | Some (ScrollElement e) =>
      on_page (put_scrollLeft e (moved_by (int (scrollLeft (layout (page w) e))) v.1 delta)) ;;
      w ← js_get;
      on_page (put_scrollTop e (moved_by (int (scrollTop (layout (page w) e))) v.2 delta))
  | None => mret ()
  end.
(** The pointer that scrolls with the container, not left of or above the page. *)
Definition at_least_zero (x : num) : num := if num_ltb x (int 0) then int 0 else x.
Definition next_pointer (w : W) (v : Z * Z) (delta : Z) : num * num :=
  let p := match lastScrollPointer (scrolling_of w) with
           | Some p => p
           | None => match lastPointer (core_of w) with Some p => (int p.1, int p.2) | None => (NaN, NaN) end
           end in
  (at_least_zero (moved_by p.1 v.1 delta), at_least_zero (moved_by p.2 v.2 delta)).
Definition scroll (d : nat) : M () :=
  w ← js_get;
  let current := clock (scrolling_of w) in
  let delta := current - lastScrolled (scroller_of d w) in
  change_scroller d (set_scrolled current) ;;
  scroll_container d delta ;;
  e ← dragged_element d;
  prepare_position ;;
  show_last e ;;
  notify call_page OnDrag d ;;
  js_when (isScrollChild (options_of d))
    (w ← js_get;
     let p := next_pointer w (scrollSpeed (scroller_of d w)) delta in
     change_scrolling (set_scroll_pointer (Some p)) ;;
     draw computed layout snap_by d p) ;;
  g ← get_drag d;
  call_option (change (g_options g)) (λ f, call_page (DragCall f d)).

(** What happens on a page: the events of dragging, the calls of a running
    timer, and time that passes. *)
Inductive scroll_event := DragEvent (ev : drag_event) | Tick (i : nat) | TimePasses (ms : nat).
Context `{DragEffects W}.
Context (on_drop : nat → nid → nid → M ()) (revert_by : nat → nid → M revert_value) (element_key : nid → jsstr).
Definition scroll_step (ev : scroll_event) : M () :=
  match ev with
  | DragEvent ev => drag_step computed layout on_hover on_drop call_page revert_by snap_by element_key ev
  | Tick i => w ← js_get; match intervals (scrolling_of w) !! i with Some d => scroll d | None => mret () end
  | TimePasses ms => change_scrolling (λ s, set_clock (clock s + Z.of_nat ms) s)
  end.
Definition scroll_run (evs : list scroll_event) (w : W) : W := foldl (λ w ev, (scroll_step ev w).2) w evs.
End scrolling.

(** ** What the steps of a drag keep *)

Lemma upholds_throw {S A} (P : S → Prop) e : upholds P (js_throw e : JS S A).
Proof. by intros s. Qed.
Lemma upholds_iter {S A} (P : S → Prop) (l : list A) (f : A → JS S ()) : (∀ x, upholds P (f x)) → upholds P (js_each l f).
Proof. intros Hf. induction l as [|x l IH]; [apply upholds_ret|]. by apply upholds_bind. Qed.
(** [upholds] along the structure of a computation. *)
Ltac upholding :=
  repeat match goal with
    | |- upholds _ (mret _) => apply upholds_ret
    | |- upholds _ (js_throw _) => apply upholds_throw
    | |- upholds _ (js_get ≫= _) => apply upholds_get; intros ?
    | |- upholds _ (_ ≫= _) => apply upholds_bind; [|intros ?]
    | |- upholds _ (js_each _ _) => apply upholds_iter; intros ?
    | |- upholds _ (js_when ?b _) => destruct b; cbn [js_when]
    | |- upholds _ (call_option ?o _) => destruct o; cbn [call_option]
    | |- upholds _ (run_effect ?o _ _) => unfold run_effect
    | |- upholds _ (match _ with _ => _ end) => case_match
    | |- upholds _ _ => solve [auto with upholds]
    end.

Section keeping.
Context {X : Type} (computed : dom → nid → jsstr → option jsstr) (layout : dom → nid → geometry).
#[local] Abbreviation W := (dnd (drag_state X)).
#[local] Abbreviation M := (JS W).
Context `{DragEffects W, DragExtras W}.
Context (on_hover : nat → nid → nid → num → M ()) (on_drop : nat → nid → nid → M ()).
Context (call_page : page_call → M ()) (revert_by : nat → nid → M revert_value)
  (snap_by : nat → num → num → nat → M (num * num)) (element_key : nid → jsstr).
(** A property of what the other parts of a page keep, which the page's
    functions, the effects and the hooks keep. *)
Context (Q : X → Prop).
Definition of_others (w : W) : Prop := Q (others (rest w)).
Record keep_others : Prop := {
  ko_hover f e1 e2 n : upholds of_others (on_hover f e1 e2 n);
  ko_drop f e1 e2 : upholds of_others (on_drop f e1 e2);
  ko_call c : upholds of_others (call_page c);
  ko_revert f e : upholds of_others (revert_by f e);
  ko_snap f x y d : upholds of_others (snap_by f x y d);
  ko_opacity e x y z : upholds of_others (new_opacity_effect e x y z);
  ko_move e x y z : upholds of_others (new_move_effect e x y z);
}.
Record keep_hooks : Prop := {
  kh_prepare : upholds of_others position_prepare;
  kh_ghost_start d : upholds of_others (ghost_start d);
  kh_scroll_origin d : upholds of_others (scroll_origin d);
  kh_ghost_shift d p : upholds of_others (ghost_shift d p);
  kh_scroll_shift d p : upholds of_others (scroll_shift d p);
  kh_ghost_end d : upholds of_others (ghost_end d);
  kh_release d : upholds of_others (release_scroll d);
}.
Context (Hothers : keep_others) (Hhooks : keep_hooks).

Lemma others_page {A} (m : D A) : upholds of_others (on_page m).
Proof. intros w. unfold on_page. by destruct (m (page w)). Qed.
Lemma others_core f : upholds of_others (change_core f).
Proof. by intros w. Qed.
Lemma others_busy e b : upholds of_others (set_busy element_key e b).
Proof. by intros w. Qed.
Lemma others_opacity e x : upholds of_others (set_opacity_of e x).
Proof. by intros w. Qed.
Lemma others_last o : upholds of_others (js_modify (set_last_active o)).
Proof. by intros w. Qed.
Lemma others_drag d : upholds of_others (get_drag d).
Proof. intros w. unfold get_drag. by destruct (_ !! d). Qed.
Lemma others_change d f : upholds of_others (change_drag d f).
Proof. by intros w. Qed.
#[local] Hint Resolve others_page others_core others_busy others_opacity others_last others_drag others_change
  ko_hover ko_drop ko_call ko_revert ko_snap ko_opacity ko_move
  kh_prepare kh_ghost_start kh_scroll_origin kh_ghost_shift kh_scroll_shift kh_ghost_end kh_release : upholds.
Lemma others_show p e : upholds of_others (drop_show layout on_hover p e).
Proof. apply show_upholds; auto with upholds. Qed.
Lemma others_fire p e : upholds of_others (drop_fire layout on_drop p e).
Proof. apply fire_upholds; auto with upholds. Qed.
Lemma others_reset : upholds of_others drop_reset.
Proof. apply reset_upholds; auto with upholds. Qed.
Lemma others_notify n d : upholds of_others (notify call_page n d).
Proof. unfold notify. upholding. Qed.
Lemma others_delta e : upholds of_others (currentDelta computed e).
Proof. unfold currentDelta, px_value. upholding. Qed.
#[local] Hint Resolve others_show others_fire others_reset others_notify others_delta : upholds.
Lemma others_start d : upholds of_others (startDrag computed call_page element_key d).
Proof. unfold startDrag, default_starteffect, px_value. upholding. Qed.
Lemma others_draw d p : upholds of_others (draw computed layout snap_by d p).
Proof. unfold draw, snap_point. upholding. Qed.
#[local] Hint Resolve others_start others_draw : upholds.
Lemma others_finish d p b : upholds of_others (finishDrag computed layout on_hover on_drop call_page revert_by d p b).
Proof.
  unfold finishDrag, finish_work, deactivate_drag. upholding.
  all: unfold settle, revert_of, default_reverteffect, default_endeffect; upholding.
Qed.
#[local] Hint Resolve others_finish : upholds.
Lemma others_step ev : (∀ d p, upholds of_others (autoscroll d p)) → upholds of_others (drag_step computed layout on_hover on_drop call_page revert_by snap_by element_key ev).
Proof.
  intros Hscroll. destruct ev; cbn [drag_step]; unfold initDrag, activate_drag, updateDrag, drag_to, endDrag, end_active, keyPress, activate_timer, effect_done;
    upholding.
Qed.
End keeping.

(** ** The timers *)

Section timers.
Context {Y : Type} (computed : dom → nid → jsstr → option jsstr) (layout : dom → nid → geometry).
#[local] Abbreviation W := (dnd (drag_state (scrolling Y))).
#[local] Abbreviation M := (JS W).
Context `{DragEffects W}.
Context (on_hover : nat → nid → nid → num → M ()) (on_drop : nat → nid → nid → M ()).
Context (call_page : page_call → M ()) (revert_by : nat → nid → M revert_value)
  (snap_by : nat → num → num → nat → M (num * num)) (element_key : nid → jsstr).
Context (documentElement body : nid) (pageOffset innerSize : dom → Z * Z)
  (put_scrollLeft put_scrollTop : nid → num → D ()) (scrollTo : num → num → D ()).
Context (options_of : nat → extra_options).
#[local] Instance extras : DragExtras W := scroll_extras computed layout documentElement body pageOffset innerSize options_of.

(** What there is of timers: which draggable has which, which run, and the
    next number. *)
Definition timing (s : scrolling Y) : gmap nat nat * gmap nat nat * nat :=
  (omap scrollInterval (scrollers s), intervals s, next_interval s).
Definition timing_of (w : W) := timing (others (rest w)).
(** The page's functions and the effects start and stop no timers. *)
Record leave_timers : Prop := {
  lt_hover f e1 e2 n : keeps_of timing_of (on_hover f e1 e2 n);
  lt_drop f e1 e2 : keeps_of timing_of (on_drop f e1 e2);
  lt_call c : keeps_of timing_of (call_page c);
  lt_revert f e : keeps_of timing_of (revert_by f e);
  lt_snap f x y d : keeps_of timing_of (snap_by f x y d);
  lt_opacity e x y z : keeps_of timing_of (new_opacity_effect e x y z);
  lt_move e x y z : keeps_of timing_of (new_move_effect e x y z);
}.
Context (Hpage : leave_timers).

Section seen.
(** A property of the timers. *)
Context (T : gmap nat nat * gmap nat nat * nat → Prop).
Abbreviation Q := (λ s, T (timing s)).
Lemma timing_upholds {A} (m : M A) : keeps_of timing_of m → upholds (of_others Q) m.
Proof. intros Hm w Hw. unfold of_others. change (T (timing_of (m w).2)). by rewrite Hm. Qed.
Lemma page_keeps : keep_others on_hover on_drop call_page revert_by snap_by Q.
Proof. split; intros; apply timing_upholds, Hpage. Qed.

Lemma keeps_scrolling f : (∀ s, timing (f s) = timing s) → keeps_of timing_of (change_scrolling (Y := Y) f).
Proof. intros Hf w. apply Hf. Qed.
Lemma scroller_timing d (g : scroller) (s : scrolling Y) : scrollInterval g = scrollInterval (default new_scroller (scrollers s !! d)) →
  timing (set_scrollers (<[d := g]> (scrollers s)) s) = timing s.
Proof.
  intros Hg. unfold timing. cbn. f_equal. f_equal. apply map_eq. intros i. rewrite !lookup_omap.
  destruct (decide (i = d)) as [->|Hi]; [|by rewrite lookup_insert_ne]. rewrite lookup_insert_eq. cbn. rewrite Hg.
  by destruct (scrollers s !! d).
Qed.
Lemma keeps_scroller d f : (∀ g, scrollInterval (f g) = scrollInterval g) → keeps_of timing_of (change_scroller (Y := Y) d f).
Proof. intros Hf w. unfold change_scroller, change_scrolling, timing_of. cbn. by apply scroller_timing. Qed.
Lemma keeps_page {A} (m : D A) : keeps_of timing_of (on_page m : M A).
Proof. intros w. unfold on_page. by destruct (m (page w)). Qed.
Lemma keeps_drag d : keeps_of timing_of (get_drag d : M draggable).
Proof. intros w. unfold get_drag. by destruct (_ !! d). Qed.
#[local] Hint Resolve keeps_page keeps_drag keeps_scrolling keeps_scroller : keeps.
Ltac hooks := keeping ltac:(auto with keeps).
Lemma keeps_prepare : keeps_of timing_of (prepare_position layout documentElement body pageOffset : M ()).
Proof. unfold prepare_position. hooks. Qed.
#[local] Hint Resolve keeps_prepare : keeps.
Lemma keeps_start_ghost d : keeps_of timing_of (start_ghost computed layout documentElement body pageOffset options_of d : M ()).
Proof. unfold start_ghost, dragged_element, position_absolutize. hooks. Qed.
Lemma keeps_end_ghost d : keeps_of timing_of (end_ghost computed layout documentElement body pageOffset options_of d : M ()).
Proof. unfold end_ghost, dragged_element, position_relativize. hooks. Qed.
Lemma keeps_scroll_start d : keeps_of timing_of (scroll_start layout documentElement body innerSize options_of d : M ()).
Proof. unfold scroll_start. hooks. Qed.
Lemma keeps_ghost_offset d p : keeps_of timing_of (ghost_offset layout options_of d p : M (num * num)).
Proof. unfold ghost_offset, dragged_element. hooks. Qed.
Lemma keeps_shift d p : keeps_of timing_of (scrolled_shift layout options_of d p : M (num * num)).
Proof. unfold scrolled_shift. hooks. Qed.
Lemma hooks_keep : (∀ d, upholds (of_others Q) (stopScrolling d)) → keep_hooks Q.
Proof.
  intros Hstop. split; intros; try apply Hstop; apply timing_upholds.
  - apply keeps_prepare.
  - apply keeps_start_ghost.
  - apply keeps_scroll_start.
  - apply keeps_ghost_offset.
  - apply keeps_shift.
  - apply keeps_end_ghost.
Qed.

Abbreviation at_interval := (scroll computed layout on_hover call_page snap_by documentElement body pageOffset innerSize
  put_scrollLeft put_scrollTop scrollTo options_of).
Context (Hstop : ∀ d, upholds (of_others Q) (stopScrolling d)).
Lemma upholds_tick d : upholds (of_others Q) (at_interval d).
Proof.
  pose proof page_keeps as Hp. pose proof (hooks_keep Hstop) as Hh. unfold scroll. apply upholds_get. intros w.
  apply upholds_bind; [apply timing_upholds; hooks|intros _]. apply upholds_bind; [apply timing_upholds; unfold scroll_container; hooks|intros _].
  apply upholds_bind; [apply timing_upholds; unfold dragged_element; hooks|intros e].
  apply upholds_bind; [apply Hh|intros _].
  apply upholds_bind; [unfold show_last; upholding; by eapply others_show|intros _].
  apply upholds_bind; [by eapply others_notify|intros _].
  apply upholds_bind.
  - destruct (isScrollChild _); cbn [js_when]; [|apply upholds_ret]. apply upholds_get. intros w'.
    apply upholds_bind; [by apply timing_upholds, keeps_scrolling|intros _]. by eapply others_draw.
  - intros _. apply upholds_bind; [apply others_drag|intros g]. destruct (change _); [apply Hp|apply upholds_ret].
Qed.
Abbreviation step := (scroll_step computed layout on_hover call_page snap_by documentElement body pageOffset innerSize
  put_scrollLeft put_scrollTop scrollTo options_of on_drop revert_by element_key).
Lemma upholds_step ev : (∀ d p, upholds (of_others Q) (autoscroll (DragExtras := extras) d p)) → upholds (of_others Q) (step ev).
Proof.
  intros Hauto. destruct ev as [ev|i|ms]; cbn [scroll_step].
  - eapply others_step; [exact page_keeps|exact (hooks_keep Hstop)|exact Hauto].
  - apply upholds_get. intros w. destruct (_ !! i); [apply upholds_tick|apply upholds_ret].
  - by apply timing_upholds, keeps_scrolling.
Qed.
End seen.

(** Every timer that runs is the one of its draggable, which therefore has at
    most one and can stop it, and the draggable has the option [scroll]. *)
Definition timers_ok (t : gmap nat nat * gmap nat nat * nat) : Prop :=
  (∀ i d, t.1.2 !! i = Some d ↔ t.1.1 !! d = Some i) ∧
  ∀ i d, t.1.2 !! i = Some d → (i < t.2)%nat ∧ scroll_into (options_of d) ≠ None.
Definition no_timer (d : nat) (t : gmap nat nat * gmap nat nat * nat) : Prop := t.1.1 !! d = None.

Lemma timing_set_interval d o s : timing (set_scrollers (Y := Y) (<[d := set_interval o (default new_scroller (scrollers s !! d))]> (scrollers s)) s) =
  (match o with Some i => <[d := i]> | None => delete d end (omap scrollInterval (scrollers s)), intervals s, next_interval s).
Proof.
  unfold timing. cbn. f_equal. f_equal. apply map_eq. intros i. rewrite lookup_omap. destruct (decide (i = d)) as [->|Hi].
  - rewrite lookup_insert_eq. cbn. destruct o; by rewrite ?lookup_insert_eq, ?lookup_delete_eq.
  - rewrite lookup_insert_ne by done. destruct o; rewrite ?lookup_insert_ne, ?lookup_delete_ne by done; by rewrite lookup_omap.
Qed.
Lemma recorded_interval d (w : W) : scrollInterval (scroller_of d w) = (timing_of w).1.1 !! d.
Proof. unfold scroller_of, scrolling_of, timing_of, timing. cbn. rewrite lookup_omap. by destruct (scrollers _ !! d). Qed.
Lemma stop_timing d (w : W) : timing_of (stopScrolling d w).2 =
  match (timing_of w).1.1 !! d with
  | Some i => (delete d (timing_of w).1.1, delete i (timing_of w).1.2, (timing_of w).2)
  | None => timing_of w
  end.
Proof.
  unfold stopScrolling. rewrite js_bind_get, recorded_interval. destruct ((timing_of w).1.1 !! d) as [i|] eqn:Hi; [|done].
  unfold change_scroller, change_scrolling. rewrite !js_bind_modify. unfold js_modify, timing_of. cbn [snd rest set_rest others].
  unfold scrolling_of. cbn [rest set_rest others]. unfold timing at 1. cbn. exact (timing_set_interval d None (clear_interval i (others (rest w)))).
Qed.
Lemma stop_returns d (w : W) : (stopScrolling d w).1 = Ret ().
Proof. unfold stopScrolling. rewrite js_bind_get. by case_match. Qed.
Lemma stop_none d (w : W) : no_timer d (timing_of (stopScrolling d w).2).
Proof. rewrite stop_timing. unfold no_timer. case_match; [apply lookup_delete_eq|done]. Qed.
Lemma stop_ok d : upholds (of_others (λ s, timers_ok (timing s))) (stopScrolling d : M ()).
Proof.
  intros w [Hiff Hnew]. unfold of_others. change (timers_ok (timing_of (stopScrolling d w).2)). rewrite stop_timing.
  change (timing (others (rest w))) with (timing_of w) in *. destruct ((timing_of w).1.1 !! d) as [i|] eqn:Hi; [|done].
  destruct (timing_of w) as [[rec ints] next]. cbn in *. split; cbn.
  - intros j d'. rewrite !lookup_delete_Some, Hiff. split; intros [Hj Hr]; (split; [intros ->|done]).
    + apply Hj. congruence.
    + apply Hj. apply Hiff in Hr, Hi. congruence.
  - intros j d' [_ Hj]%lookup_delete_Some. by apply Hnew.
Qed.
Lemma stop_keeps_none d d' : upholds (of_others (λ s, no_timer d (timing s))) (stopScrolling d' : M ()).
Proof.
  intros w Hw. unfold of_others. change (no_timer d (timing_of (stopScrolling d' w).2)). rewrite stop_timing.
  change (no_timer d (timing_of w)) in Hw. unfold no_timer in *. case_match; [|done]. cbn. rewrite lookup_delete. by case_decide.
Qed.
Lemma bind_scroller {A} d f (k : M A) (w : W) : (change_scroller d f ;; k) w = k (change_scroller d f w).2.
Proof. reflexivity. Qed.
Lemma start_timing d v (w : W) : timing_of (startScrolling options_of d v w).2 =
  if bool_decide (v = (0, 0)) then timing_of w
  else (<[d := (timing_of w).2]> (timing_of w).1.1, <[(timing_of w).2 := d]> (timing_of w).1.2, S (timing_of w).2).
Proof.
  unfold startScrolling. case_bool_decide; [done|]. cbn [negb js_when].
  set (f := set_speed _). rewrite bind_scroller, js_bind_get.
  rewrite <- (keeps_scroller d f (λ _, eq_refl) w). set (w1 := (change_scroller d f w).2). clearbody w1. clear f w.
  set (f := set_scrolled _). rewrite bind_scroller. change (next_interval (scrolling_of w1)) with (timing_of w1).2.
  rewrite <- (keeps_scroller d f (λ _, eq_refl) w1). set (w2 := (change_scroller d f w1).2). clearbody w2. clear f w1.
  exact (timing_set_interval d (Some (timing_of w2).2) (start_interval d (others (rest w2)))).
Qed.
Lemma update_ok d p : upholds (of_others (λ s, timers_ok (timing s)))
  (scroll_update computed layout documentElement body innerSize options_of d p : M ()).
Proof.
  intros w Hw. unfold scroll_update. destruct (scroll_into (options_of d)) as [t|] eqn:Ht; [|done].
  pose proof (stop_ok d w Hw) as Hw1. pose proof (stop_none d w) as Hn1.
  rewrite (js_bind_Ret _ _ _ _ _ (js_run_Ret _ _ _ (stop_returns d w))). set (w1 := (stopScrolling d w).2) in *. clearbody w1. clear w Hw.
  assert (∃ r w2, scroll_region computed layout documentElement body innerSize t w1 = (Ret r, w2) ∧ timing_of w2 = timing_of w1) as (r & w2 & Hr & Hk).
  { unfold scroll_region. destruct t as [|e]; [rewrite js_bind_get; destruct (getWindowScroll _ _ _ _ _) as [[[? ?] ?] ?]; by eexists _, _|].
    unfold viewportOffset, on_page, mbind, js_mbind, js_get, js_gets. cbn. by eexists _, _. }
  rewrite (js_bind_Ret _ _ _ _ _ Hr). unfold of_others. match goal with |- timers_ok (timing (others (rest (startScrolling _ _ ?v _).2))) => set (u := v) end.
  change (timers_ok (timing_of (startScrolling options_of d u w2).2)). rewrite start_timing, Hk.
  change (timers_ok (timing_of w1)) in Hw1. case_bool_decide; [done|]. destruct (timing_of w1) as [[rec ints] next]. unfold no_timer in Hn1. cbn in *.
  destruct Hw1 as [Hiff Hnew]. cbn in *. split; cbn.
  - intros i d'. rewrite !lookup_insert. destruct (decide (next = i)) as [<-|Hi], (decide (d = d')) as [<-|Hd]; try done.
    + split; [by intros [= ->]|]. intros Hrec. apply Hiff, Hnew in Hrec as [? _]. lia.
    + split; [intros Hi'%Hiff; congruence|by intros [= ->]].
  - intros i d'. rewrite lookup_insert. case_decide; [intros [= <-]; split; [lia|congruence]|].
    intros Hi%Hnew. split; [lia|apply Hi].
Qed.

#[local] Abbreviation happens := (scroll_step computed layout on_hover call_page snap_by documentElement body pageOffset innerSize
  put_scrollLeft put_scrollTop scrollTo options_of on_drop revert_by element_key).
#[local] Abbreviation run := (scroll_run computed layout on_hover call_page snap_by documentElement body pageOffset innerSize
  put_scrollLeft put_scrollTop scrollTo options_of on_drop revert_by element_key).
Lemma happens_ok ev (w : W) : timers_ok (timing_of w) → timers_ok (timing_of (happens ev w).2).
Proof. apply (upholds_step timers_ok stop_ok). exact update_ok. Qed.
Lemma run_ok evs : ∀ w : W, timers_ok (timing_of w) → timers_ok (timing_of (run evs w)).
Proof. induction evs as [|ev evs IH]; intros w Hw; [done|]. apply IH. by apply happens_ok. Qed.
(** A release stops the timer of what was dragged, whatever the rest of it
    does. *)
Lemma release_stops p d g (w : W) : observing (core_of w) = true → activeDraggable (core_of w) = Some d →
  objects (core_of w) !! d = Some g → dragging g = true → no_timer d (timing_of (happens (DragEvent (MouseUp p)) w).2).
Proof.
  intros Hob Hact Hg Hdr. cbn [scroll_step drag_step]. rewrite js_bind_get, Hob. cbn [js_when]. unfold endDrag.
  rewrite bind_core, js_bind_get. set (w1 := (change_core (set_timeout None) w).2).
  assert (activeDraggable (core_of w1) = Some d) as -> by done. cbn [call_option]. rewrite bind_core.
  set (w2 := (change_core (set_lastPointer None) w1).2). unfold end_active. rewrite js_bind_assoc.
  assert (get_drag d w2 = (Ret g, w2)) as Hget by (unfold get_drag; change (core_of w2) with (set_lastPointer None (set_timeout None (core_of w))); cbn; by rewrite Hg).
  rewrite (js_bind_Ret _ _ _ _ _ Hget), Hdr. cbn [js_when]. rewrite js_bind_assoc.
  rewrite (js_bind_Ret _ _ _ _ _ (js_run_Ret _ _ _ (stop_returns d w2))).
  assert (keep_hooks (λ s, no_timer d (timing s))) as Hh by (apply hooks_keep; intros d'; apply stop_keeps_none).
  apply (upholds_bind (of_others (λ s, no_timer d (timing s)))); [|intros _; by intros w'|exact (stop_none d w2)].
  eapply others_finish; [by apply page_keeps|exact Hh].
Qed.

(** Whatever happens on a page, every scroll timer that runs is the one its
    draggable remembers, so no draggable has two and none is lost; it belongs
    to a draggable with the option [scroll].  When the button is released, what
    was dragged has no timer left. *)
Theorem scroll_timers evs p d g (w : W) : timers_ok (timing_of w) →
  let w1 := run evs w in
  timers_ok (timing_of w1) ∧
  (observing (core_of w1) = true → activeDraggable (core_of w1) = Some d → objects (core_of w1) !! d = Some g → dragging g = true →
   let w2 := (happens (DragEvent (MouseUp p)) w1).2 in timers_ok (timing_of w2) ∧ ∀ i, (timing_of w2).1.2 !! i ≠ Some d).
Proof.
  intros Hw w1. assert (timers_ok (timing_of w1)) as Hw1 by by apply run_ok. split; [done|].
  intros Hob Hact Hg Hdr w2. assert (timers_ok (timing_of w2)) as Hw2 by by apply happens_ok. split; [done|].
  intros i Hi. apply (proj1 Hw2) in Hi. pose proof (release_stops p d g w1 Hob Hact Hg Hdr) as Hn. fold w2 in Hn. unfold no_timer in Hn. congruence.
Qed.
End timers.

(** ** The speed *)

(** In a container at least two margins wide, the speed is 0 exactly when the
    point is inside the margins, and else how far it is beyond them: to the
    left or up when it is negative. *)
Lemma axis_speed_spec p low high s : 0 ≤ s → low + s ≤ high - s →
  (axis_speed p low high s = 0 ↔ low + s ≤ p ≤ high - s) ∧
  (p < low + s → axis_speed p low high s = - (low + s - p)) ∧ (high - s < p → axis_speed p low high s = p - (high - s)).
Proof.
  intros Hs Hwide. unfold axis_speed. destruct (Z.ltb_spec (high - s) p); [lia|]. destruct (Z.ltb_spec p (low + s)); lia.
Qed.
(** In a narrower one the right and bottom lines win. *)
Lemma axis_speed_narrow p low high s : high - s < p → axis_speed p low high s = p - (high - s).
Proof. unfold axis_speed. by intros ->%Z.ltb_lt. Qed.

(** The pointer that goes with a scrolled container is never left of or above
    the page. *)
Lemma next_pointer_nonneg {Y} (w : dnd (drag_state (scrolling Y))) v dt :
  num_ltb (next_pointer w v dt).1 (int 0) = false ∧ num_ltb (next_pointer w v dt).2 (int 0) = false.
Proof.
  assert (∀ x, num_ltb (at_least_zero x) (int 0) = false) as H by (intros x; unfold at_least_zero; by destruct (num_ltb x (int 0)) eqn:?).
  split; apply H.
Qed.

(** ** Scrolling pages follow the machine of drags *)

Section polite.
Context {Y : Type} (computed : dom → nid → jsstr → option jsstr) (layout : dom → nid → geometry).
#[local] Abbreviation W := (dnd (drag_state (scrolling Y))).
#[local] Abbreviation M := (JS W).
Context `{DragEffects W}.
Context (on_hover : nat → nid → nid → num → M ()) (on_drop : nat → nid → nid → M ()).
Context (call_page : page_call → M ()) (revert_by : nat → nid → M revert_value)
  (snap_by : nat → num → num → nat → M (num * num)).
Context (documentElement body : nid) (pageOffset innerSize : dom → Z * Z) (options_of : nat → extra_options).

(** Politeness along the structure of a computation. *)
Definition gentle {A} (m : M A) : Prop := polite m (λ _, True).
Lemma gentle_ret {A} (a : A) : gentle (mret a).
Proof. intros w. by exists a, w. Qed.
Lemma gentle_bind {A B} (m : M A) (k : A → M B) : gentle m → (∀ a, gentle (k a)) → gentle (m ≫= k).
Proof.
  intros Hm Hk w. destruct (Hm w) as (a & w1 & Hr & _ & Hc & Hd & Hl & Ht). rewrite (js_bind_Ret _ _ _ _ _ Hr).
  destruct (Hk a w1) as (b & w2 & Hr2 & _ & Hc2 & Hd2 & Hl2 & Ht2). exists b, w2. split_and!; [done|done|congruence|].
  split_and!; [congruence|congruence|]. intros e. by rewrite Ht2.
Qed.
Lemma gentle_get {B} (k : W → M B) : (∀ w, gentle (k w)) → gentle (js_get ≫= k).
Proof. intros Hk w. apply (Hk w w). Qed.
Lemma gentle_scrolling f : gentle (change_scrolling f).
Proof. intros w. by eexists tt, _. Qed.
Lemma gentle_gets {A} (f : dom → A) : gentle (on_page (js_gets f)).
Proof. intros w. eexists (f (page w)), _. by split. Qed.
Ltac gently :=
  repeat match goal with
    | |- gentle (js_get ≫= _) => apply gentle_get; intros ?
    | |- gentle (_ ≫= _) => apply gentle_bind; [|intros ?]
    | |- gentle (mret _) => apply gentle_ret
    | |- gentle (change_scrolling _) => apply gentle_scrolling
    | |- gentle (change_scroller _ _) => apply gentle_scrolling
    | |- gentle (on_page _) => apply gentle_gets
    | |- gentle (js_when ?b _) => destruct b; cbn [js_when]
    | |- gentle (match _ with _ => _ end) => case_match
    end.

Context (Hghost : ∀ d, ghosting (options_of d) = false).
Lemma gentle_hooks d p q : gentle (prepare_position layout documentElement body pageOffset) ∧
  gentle (start_ghost computed layout documentElement body pageOffset options_of d) ∧
  gentle (end_ghost computed layout documentElement body pageOffset options_of d) ∧
  gentle (scroll_start layout documentElement body innerSize options_of d) ∧
  gentle (ghost_offset layout options_of d q) ∧ gentle (scrolled_shift layout options_of d q) ∧
  gentle (scroll_update computed layout documentElement body innerSize options_of d p) ∧ gentle (stopScrolling d).
Proof.
  unfold prepare_position, start_ghost, end_ghost, ghost_offset, scroll_start, scrolled_shift, scroll_update, scroll_region, startScrolling,
    stopScrolling. rewrite !Hghost. cbn [js_when]. split_and!; gently.
Qed.
(** If a page is polite without the option [scroll], it is with it: the
    refinement of the machine of drags in Drag.v holds of scrolling pages too. *)
Lemma scroll_polite reverts :
  polite_page (H0 := no_extras W) on_hover on_drop call_page revert_by snap_by reverts →
  polite_page (H0 := scroll_extras computed layout documentElement body pageOffset innerSize options_of)
    on_hover on_drop call_page revert_by snap_by reverts.
Proof.
  intros [Hh Hd Hc Hr Hs Ho Hm _ _ _ _ _ _ _ _]. split; [exact Hh|exact Hd|exact Hc|exact Hr|exact Hs|exact Ho|exact Hm|..].
  - apply (gentle_hooks 0 (0, 0) (NaN, NaN)).
  - intros d. apply (gentle_hooks d (0, 0) (NaN, NaN)).
  - intros d. apply (gentle_hooks d (0, 0) (NaN, NaN)).
  - intros d p. apply (gentle_hooks d (0, 0) p).
  - intros d p. apply (gentle_hooks d (0, 0) p).
  - intros d p. apply (gentle_hooks d p (NaN, NaN)).
  - intros d. apply (gentle_hooks d (0, 0) (NaN, NaN)).
  - intros d. apply (gentle_hooks d (0, 0) (NaN, NaN)).
Qed.
End polite.

(** ** Examples and the witness *)

(** A pane that scrolls, with an item in it that can be dragged; the browser
    keeps scroll offsets as whole numbers. *)
Definition view_node (p : option nid) (l : list nid) : node := Node (NElement (js "DIV")) ∅ ∅ ∅ p l.
Definition view_page : dom := list_to_map [
  (0%nat, Node NDocument ∅ ∅ ∅ None [1%nat]); (1%nat, view_node (Some 0%nat) [2%nat]); (2%nat, view_node (Some 1%nat) [3%nat]);
  (3%nat, view_node (Some 2%nat) [4%nat]); (4%nat, view_node (Some 3%nat) [])].
Definition kept_scroll (d : dom) (e : nid) (k : jsstr) : Z :=
  match d !! e ≫= λ n, expando n !! k with Some (VNum z) => z | _ => 0 end.
Definition view_layout (d : dom) (e : nid) : geometry :=
  let t := kept_scroll d e (js "scrollTop") in let l := kept_scroll d e (js "scrollLeft") in
  match e with
  | 3%nat => Geometry 0 0 100 100 100 100 t l (Some 2%nat)
  | 4%nat => Geometry 10 10 20 20 20 20 t l (Some 3%nat)
  | _ => Geometry 0 0 1000 1000 1000 1000 t l None
  end.
Definition keep_scroll (k : jsstr) (e : nid) (x : num) : D () :=
  put_expando e k (VNum (match x with Fin q => Z.quot (Qnum q) (Zpos (Qden q)) | _ => 0 end)).
Definition view_options (ghost : bool) (_ : nat) : extra_options := ExtraOptions ghost (Some (ScrollElement 3)) true 20 15.
#[local] Abbreviation view := (dnd (drag_state (scrolling ()))).
#[export] Instance view_effects : DragEffects view :=
  { new_opacity_effect _ _ _ _ := mret (); new_move_effect _ _ _ _ := mret () }.
Definition view_item : draggable := Draggable 4 4 (drag_defaults false) false None (0, 0) None.
Definition view_world : view :=
  Dnd view_page [] None ∅ 0
    (DragState (DragCore {[0%nat := view_item]} [0%nat] true None None None [] (λ _, 0%nat) []) ∅ ∅
      (Scrolling ∅ ∅ 0 None (PositionState false None (0, 0) (0, 0)) ∅ 0 ())).
Definition view_run (ghost : bool) : list scroll_event → view → view :=
  scroll_run (λ _ _ _, Some []) view_layout (λ _ _ _ _, mret ()) (λ _, mret ()) (λ _ x y _, mret (x, y)) 1 2 (λ _, (0, 0)) (λ _, (800, 600))
    (keep_scroll (js "scrollLeft")) (keep_scroll (js "scrollTop")) (λ _ _, mret ()) (view_options ghost) (λ _ _ _, mret ())
    (λ _ _, mret RevertNo) (λ _, js "[object HTMLDivElement]").
(** A press, and a move to 15 pixels below the lower line. *)
Definition to_the_border : list scroll_event :=
  [DragEvent (MouseDown 0 (Press (15, 15) true (js "DIV"))); DragEvent (MouseMove (50, 95))].
Definition after_ms (ms : nat) : list scroll_event := [TimePasses ms; Tick 0].

Lemma view_leave : leave_timers (Y := ()) (λ _ _ _ _, mret ()) (λ _ _ _, mret ()) (λ _, mret ()) (λ _ _, mret RevertNo) (λ _ x y _, mret (x, y)).
Proof. by split. Qed.

(** A tenth of a second at 15 times 15 pixels a second. *)
Example view_scrolls : let w := view_run false (to_the_border ++ after_ms 100) view_world in
  kept_scroll (page w) 3 (js "scrollTop") = 22 ∧ kept_scroll (page w) 3 (js "scrollLeft") = 0 ∧
  notes (core_of w) = [(0%nat, OnStart); (0%nat, OnDrag); (0%nat, OnDrag)].
Proof. vm_compute. done. Qed.
(** The escape key ends the drag and not the timer: the pane goes on scrolling,
    and draggings are notified and drawn after the end. *)
Example limit_escape_scrolls :
  let w := view_run false (to_the_border ++ [DragEvent (Key true (50, 95))] ++ after_ms 100 ++ after_ms 1000) view_world in
  activeDraggable (core_of w) = None ∧ dragging <$> objects (core_of w) !! 0%nat = Some false ∧
  kept_scroll (page w) 3 (js "scrollTop") = 247 ∧
  notes (core_of w) = [(0%nat, OnStart); (0%nat, OnDrag); (0%nat, OnEnd); (0%nat, OnDrag); (0%nat, OnDrag)].
Proof. vm_compute. done. Qed.
(** A drag with a ghost: the clone stands before the element, which is absolute
    and follows the pointer; at the end the clone is gone. *)
Example view_ghost :
  let w := view_run true [DragEvent (MouseDown 0 (Press (15, 15) true (js "DIV"))); DragEvent (MouseMove (35, 45))] view_world in
  let w1 := view_run true [DragEvent (MouseUp (35, 45))] w in
  let style_at (w : view) (k : jsstr) := match page w !! 4%nat with Some n => style_get n k | None => [] end in
  child_list (page w) (Some 3%nat) = [5; 4]%nat ∧ style_at w (js "position") = js "absolute" ∧ style_at w (js "left") = js "30px" ∧
  style_at w (js "top") = js "40px" ∧ child_list (page w1) (Some 3%nat) = [4%nat] ∧ style_at w1 (js "position") = js "relative".
Proof. vm_compute. done. Qed.
(** With a ghost, the escape key between a press and the first move removes a
    clone that there is not, and throws. *)
Example limit_escape_ghost :
  let w := view_run true [DragEvent (MouseDown 0 (Press (15, 15) true (js "DIV")))] view_world in
  let w1 := view_run true [DragEvent (Key true (15, 15))] w in
  activeDraggable (core_of w1) = Some 0%nat ∧ notes (core_of w1) = [] ∧
  activeDraggable (core_of (view_run false [DragEvent (Key true (15, 15))] w)) = None.
Proof. vm_compute. done. Qed.
(** A window that is scrolled to the right only counts as not scrolled. *)
Example limit_window_scroll :
  getWindowScroll (λ _ e, Geometry 0 0 800 600 800 600 0 (if decide (e = 1%nat) then 40 else 0) None) 1 2 (λ _, (800, 600)) view_page = (0, 0, 800, 600).
Proof. reflexivity. Qed.

Lemma scroll_timers_witness :
  let w1 := view_run false to_the_border view_world in
  (timing_of w1).1.2 = {[0%nat := 0%nat]} ∧
  ∀ i, (timing_of (view_run false [DragEvent (MouseUp (50, 95))] w1)).1.2 !! i ≠ Some 0%nat.
Proof.
  split; [vm_compute; reflexivity|].
  assert (timers_ok (view_options false) (timing_of view_world)) as Hok.
  { split; cbn; intros i d; rewrite ?lookup_empty; [|done]. by rewrite (omap_empty (M := gmap nat)), lookup_empty. }
  destruct (scroll_timers (λ _ _ _, Some []) view_layout (λ _ _ _ _, mret ()) (λ _ _ _, mret ()) (λ _, mret ()) (λ _ _, mret RevertNo)
    (λ _ x y _, mret (x, y)) (λ _, js "[object HTMLDivElement]") 1 2 (λ _, (0, 0)) (λ _, (800, 600)) (keep_scroll (js "scrollLeft"))
    (keep_scroll (js "scrollTop")) (λ _ _, mret ()) (view_options false) view_leave to_the_border (50, 95) 0
    (default view_item (objects (core_of (view_run false to_the_border view_world)) !! 0%nat)) view_world Hok) as [_ H].
  apply H; vm_compute; reflexivity.
Defined.
