(* ===== verification/Morph.v ===== *)
(** * Morphs by texts and classes, and the texts of elements (effects.js)

    The styles of [Effect.Morph] given as a text or as a class name, morphs of
    many elements at once ([Effect.Transform]), the styles of an element
    ([parseStyle], [getStyles]), and the text below an element
    ([collectTextNodes], [tagifyText]). *)

From Stdlib Require Import ZArith QArith_base.
From S2P Require Import Autocomplete.
From S2P Require Import Prelude JsBase JsNum Strings Dom Droppable Tree Insertion Builder Selector EffectCore Effects EffectCombos.
#[local] Open Scope Z_scope.
#[local] Open Scope stdpp_scope.

(** ** Styles *)

(** [Element.CSS_PROPERTIES] *)
Definition CSS_PROPERTIES : list jsstr := words (js
  "backgroundColor backgroundPosition borderBottomColor borderBottomStyle borderBottomWidth borderLeftColor borderLeftStyle borderLeftWidth borderRightColor borderRightStyle borderRightWidth borderSpacing borderTopColor borderTopStyle borderTopWidth bottom clip color fontSize fontWeight height left letterSpacing lineHeight marginBottom marginLeft marginRight marginTop markerOffset maxHeight maxWidth minHeight minWidth opacity outlineColor outlineOffset outlineWidth paddingBottom paddingLeft paddingRight paddingTop right textIndent top width wordSpacing zIndex").

#[global] Opaque CSS_PROPERTIES.

(** [parseStyle]: the properties that are set in the style that the browser
    makes of a text. *)
Definition parseStyle (browser_style : jsstr → jsstr → jsstr) (this : jsstr) : list (jsstr * jsstr) :=
  omap (λ property, match browser_style this property with [] => None | value => Some (property, value) end) CSS_PROPERTIES.

Section morph.
Context (computed : dom → nid → jsstr → option jsstr) (layout : dom → nid → geometry).
Context (scroll_size : dom → nid → Z * Z) (tween_method : nat → num → D ()).
Context (browser_style : jsstr → jsstr → jsstr).
#[local] Abbreviation M := (JS (fx dom fx_kind hook)).
#[local] Abbreviation dom_do := (@on_document dom fx_kind hook _).
Context (begin : fx_kind → fx_given hook → M nat).

(** [getStyles], of the computed style; a style that the browser does not know
    is [undefined]. *)
Definition getStyles (e : nid) : D (list (jsstr * option jsstr)) :=
  get_node e ;; js_gets (λ d, (λ property, (property, computed d e property)) <$> CSS_PROPERTIES).
(** The styles that a class gives an element and that are others without it. *)
Definition class_styles (e : nid) (name : jsstr) : D (list (jsstr * jsstr)) :=
  addClassName e name ;;
  with_class ← getStyles e;
  removeClassName e name ;;
  css ← getStyles e;
  mret (omap (λ x, if bool_decide (x.1.2 = x.2.2) then None else Some (x.1.1, default [] x.1.2)) (zip with_class css)).

(** [Effect.Morph] with its styles in any of their forms; the callback of a
    class replaces the caller's. *)
Inductive morph_style := StyleObject (styles : list (jsstr * jsstr)) | StyleText (s : jsstr).
Definition new_styled_Morph (e : nid) (style : morph_style) (given : fx_given hook) : M nat :=
  match style with
  | StyleObject styles => @new_Morph hook begin e styles given
  | StyleText s =>
      if include s (js ":") then @new_Morph hook begin e (parseStyle browser_style s) given
      else
        on_element e
          (styles ← dom_do (class_styles e s);
           begin (Morph e styles []) (extend_given given (with_hook AfterFinish true (HMorphEnd s) no_options)))
  end.

(** ** Effect.Transform *)

(** [addTracks]: of each track the first key and the first value. *)
Definition addTracks (tracks : list (jsstr * morph_style)) (given : list (list (jsstr * morph_style))) : list (jsstr * morph_style) :=
  tracks ++ omap head given.
(** The elements of a track: the one of the id, or those an expression
    selects. *)
Definition fresh_selection (d : dom) : sel := Sel d ∅ ∅ ∅ 1.
Definition track_elements `{SelectorHost} (ids : jsstr) : D (list nid) :=
  o ← dollar ids;
  match o with
  | Some e => mret [e]
  | None => d ← js_get; match (dollar_dollar [ids] (fresh_selection d)).1 with Ret l => mret l | Throw err => js_throw err end
  end.
(** The morphs of a track. *)
Fixpoint morph_all (elements : list nid) (style : morph_style) : M (list nat) :=
  match elements with
  | [] => mret []
  | e :: elements => m ← new_styled_Morph e style (as_part no_options); rest ← morph_all elements style; mret (m :: rest)
  end.
Fixpoint track_morphs `{SelectorHost} (tracks : list (jsstr * morph_style)) : M (list nat) :=
  match tracks with
  | [] => mret []
  | (ids, style) :: tracks =>
      elements ← dom_do (track_elements ids);
      morphs ← morph_all elements style;
      rest ← track_morphs tracks;
      mret (morphs ++ rest)
  end.
Definition play `{SelectorHost} (tracks : list (jsstr * morph_style)) (given : fx_given hook) : M nat :=
  effects ← track_morphs tracks;
  @new_Parallel hook begin effects given.
End morph.

(** ** Effect.Methods *)

(** The class that [visualEffect] makes, by its name. *)
Definition effect_class (effect : jsstr) : option jsstr :=
  match dasherize effect with Some s => Some (upper_first (camelize s)) | None => None end.

(** ** Texts of elements *)

Definition text_of (d : dom) (c : nid) : option jsstr :=
  match d !! c with Some n => match Dom.kind n with NText v => Some v | _ => None end | None => None end.
Definition setContentZoom (e : nid) (percent : num) : D () :=
  setStyle e [(js "fontSize", number_str (num_div percent (int 100)) ++ js "em")].

(** [tagifyText]: every character of a text below an element becomes a span; a
    space becomes one that does not break. *)
Definition character_markup (c : N) : jsstr := if bool_decide ([c] = js " ") then [160%N] else [c].
Definition tagify_character (e child : nid) (c : N) : D () :=
  span ← new_element (js "span") [(js "style", AText (js "position:relative"))];
  update span (character_markup c) ;;
  insertBefore e span (Some child).
Definition tagify_child (e child : nid) : D () :=
  d ← js_get;
  match text_of d child with
  | Some v => js_each v (tagify_character e child) ;; remove child
  | None => mret ()
  end.
Definition tagifyText (e : nid) : D () := d ← js_get; js_each (child_list d (Some e)) (tagify_child e).

(** ** The text below an element *)

(** The texts collected are those of the text nodes below, in document order. *)
Theorem collectTextNodes_spec (fuel : nat) (d : dom) (e : nid) : (∀ c v, text_of d c = Some v → child_list d (Some c) = []) →
  collectTextNodes fuel d e = concat (omap (text_of d) (subtree fuel d e)).
Proof.
  intros Hleaf. revert e.
  induction fuel as [|fuel IH]; intros e; [done|]. cbn [collectTextNodes subtree]. induction (child_list d (Some e)) as [|c l IHl]; [done|].
  rewrite !bind_cons. cbn [app]. rewrite app_comm_cons, omap_app, concat_app, <- IHl. f_equal. cbn [omap list_omap].
  unfold text_of at 1. destruct (d !! c) as [n|] eqn:Hn; cbn; [|apply IH]. destruct (Dom.kind n) as [|v| |] eqn:Hk; try apply IH.
  assert (subtree fuel d c = []) as ->; [|cbn; by rewrite app_nil_r].
  destruct fuel; cbn [subtree]; [done|]. rewrite (Hleaf c v); [done|]. unfold text_of. by rewrite Hn, Hk.
Qed.

(** *** Spans for characters *)

(** A new span with a character. *)
Definition span_of (d d' : dom) (c : N) (t : nid) : Prop :=
  d !! t = None ∧ ∃ n, d' !! t = Some n ∧ Dom.kind n = NElement (js "SPAN") ∧
    expando n !! js "innerHTML" = Some (VStr (stripScripts (character_markup c))).
Lemma span_later d d1 d2 p c t : keeps_others d1 d2 p [] → span_of d d1 c t → span_of d d2 c t.
Proof.
  intros Hk (Hd & n & Hn & Hkind & Hh). split; [done|]. pose proof (keep_content _ _ _ _ Hk t (ex_intro _ _ Hn)) as Hc.
  rewrite Hn in Hc. destruct (d2 !! t) as [n2|]; [|done]. exists n2. split; [done|]. injection Hc. split; congruence.
Qed.
Lemma span_earlier d d1 d2 p c t : keeps_others d d1 p [] → span_of d1 d2 c t → span_of d d2 c t.
Proof.
  intros Hk [Hd Hn]. split; [|done]. destruct (d !! t) eqn:Ht; [|done].
  destruct (keep_in d d1 p [] t Hk (ex_intro _ _ Ht)) as [? ?]. congruence.
Qed.
Lemma keeps_new d d1 p w : dom_ok d → d !! w = None → keeps_others d d1 p [w] → keeps_others d d1 p [].
Proof.
  intros Hd Hw [H1 H2 H3]. split; [done|..].
  - intros x Hx _. apply H2; [done|]. intros ->%list_elem_of_singleton. rewrite Hw in Hx. by destruct Hx.
  - intros q Hq Hne. rewrite H3 by done. apply list_filter_iff_in. intros x Hx.
    assert (x ≠ w); [|set_solver]. intros ->. apply (ok_child d Hd) in Hx. unfold parent_of in Hx. by rewrite Hw in Hx.
Qed.

Lemma tagify_character_run c d e child l1 l2 : spot d e l1 (child :: l2) [] →
  ∃ d1 t, tagify_character e child c d = (Ret (), d1) ∧ spot d1 e (l1 ++ [t]) (child :: l2) [] ∧ span_of d d1 c t ∧ keeps_others d d1 e [].
Proof.
  intros Hs. unfold tagify_character.
  destruct (new_element_run (js "span") [(js "style", AText (js "position:relative"))] d) as (n & Hrun & Hk & Hp & Hc).
  rewrite (js_bind_Ret _ _ _ _ _ Hrun). set (w := new_id d) in *.
  set (n1 := set_expando (<[js "innerHTML" := VStr (stripScripts (character_markup c))]> (expando n)) n).
  assert (update w (character_markup c) (<[w := n]> d) = (Ret (), <[w := n1]> d)) as Hu.
  { unfold update, update_node. by rewrite lookup_insert_eq, insert_insert_eq. }
  rewrite (js_bind_Ret _ _ _ _ _ Hu). destruct (spot_alloc d e l1 (child :: l2) [] n1 Hs Hp Hc) as [Hs0 Hk0].
  destruct (spot_step _ e l1 (child :: l2) w [] Hs0) as (d1 & Hins & Hcon & Hs1 & _ & Ho1 & Ho2). exists d1, w.
  assert (keeps_others (<[w := n1]> d) d1 e [w]) as Hk1 by (split; auto). split; [exact Hins|]. split_and!.
  - apply (spot_split d1 e l1 (w :: child :: l2)); [|done]. by rewrite <- app_assoc.
  - split; [apply new_id_fresh|]. specialize (Hcon w). rewrite lookup_insert_eq in Hcon. destruct (d1 !! w) as [n2|]; [|done].
    exists n2. split; [done|]. injection Hcon as Hk2 _ _ Hx. split; [rewrite Hk2; exact Hk|rewrite Hx; apply lookup_insert_eq].
  - apply (keeps_new d d1 e w); [apply Hs|apply new_id_fresh|]. apply (keeps_trans' _ _ _ _ _ _ Hk0 Hk1).
Qed.
Lemma tagify_characters_run v : ∀ d e child l1 l2, spot d e l1 (child :: l2) [] →
  ∃ d1 ts, js_each v (tagify_character e child) d = (Ret (), d1) ∧ spot d1 e (l1 ++ ts) (child :: l2) [] ∧
    Forall2 (span_of d d1) v ts ∧ keeps_others d d1 e [].
Proof.
  induction v as [|c v IH]; intros d e child l1 l2 Hs.
  { exists d, []. rewrite app_nil_r. split_and!; [done|done|by constructor|apply keeps_refl]. }
  destruct (tagify_character_run c d e child l1 l2 Hs) as (d1 & t & Hrun1 & Hs1 & Ht & Hk1).
  destruct (IH d1 e child (l1 ++ [t]) l2 Hs1) as (d2 & ts & Hrun2 & Hs2 & Hts & Hk2). exists d2, (t :: ts). split_and!.
  - cbn [js_each]. by rewrite (js_bind_Ret _ _ _ _ _ Hrun1).
  - by rewrite <- app_assoc in Hs2.
  - constructor; [by apply (span_later d d1 d2 e)|]. eapply Forall2_impl; [exact Hts|]. intros x y. by apply (span_earlier d d1 d2 e).
  - apply (keeps_trans' d d1 d2 e [] [] Hk1 Hk2).
Qed.

(** What was there holds what it held, and no children but those of [e] change. *)
Definition keeps_elsewhere (d d' : dom) (e : nid) : Prop :=
  (∀ x, is_Some (d !! x) → content <$> d' !! x = content <$> d !! x) ∧
  ∀ q, is_Some (d !! q) → q ≠ e → child_list d' (Some q) = child_list d (Some q).
Lemma elsewhere_in d d' e x : keeps_elsewhere d d' e → is_Some (d !! x) → is_Some (d' !! x).
Proof. intros [Hc _] Hx. specialize (Hc x Hx). destruct Hx as [n Hn]. rewrite Hn in Hc. by destruct (d' !! x). Qed.
Lemma elsewhere_trans d1 d2 d3 e : keeps_elsewhere d1 d2 e → keeps_elsewhere d2 d3 e → keeps_elsewhere d1 d3 e.
Proof.
  intros H12 [H1 H2]. pose proof (elsewhere_in d1 d2 e) as Hin. destruct H12 as [H3 H4]. split.
  - intros x Hx. rewrite H1, H3; auto. apply Hin; [by split|done].
  - intros q Hq Hne. rewrite H2, H4; auto. apply Hin; [by split|done].
Qed.
Lemma elsewhere_keeps d d' e : keeps_others d d' e [] → keeps_elsewhere d d' e.
Proof.
  intros [H1 _ H3]. split; [done|]. intros q Hq Hne. rewrite H3 by done. apply filter_all. intros x _. by apply not_elem_of_nil.
Qed.
Lemma elsewhere_text d d' e c : keeps_elsewhere d d' e → is_Some (d !! c) → text_of d' c = text_of d c.
Proof.
  intros [H _] Hc. specialize (H c Hc). unfold text_of. destruct (d !! c), (d' !! c); try done. injection H as ->. done.
Qed.
Lemma span_elsewhere d d1 d2 e c t : keeps_elsewhere d1 d2 e → span_of d d1 c t → span_of d d2 c t.
Proof.
  intros [H _] (Hd & n & Hn & Hkind & Hh). split; [done|]. specialize (H t (ex_intro _ _ Hn)). rewrite Hn in H.
  destruct (d2 !! t) as [n2|]; [|done]. exists n2. split; [done|]. injection H. split; congruence.
Qed.
Lemma span_before d d1 d2 e c t : keeps_elsewhere d d1 e → span_of d1 d2 c t → span_of d d2 c t.
Proof.
  intros Hk [Hd Hn]. split; [|done]. destruct (d !! t) eqn:Ht; [|done]. destruct (elsewhere_in d d1 e t Hk (ex_intro _ _ Ht)). congruence.
Qed.

Lemma remove_run d e child l1 l2 : spot d e l1 (child :: l2) [] →
  ∃ d1, remove child d = (Ret (), d1) ∧ spot d1 e l1 l2 [] ∧ keeps_elsewhere d d1 e.
Proof.
  intros [Hd Hac He Hch _ _]. assert (parent_of d child = Some e) as Hp by (apply (ok_child d Hd); rewrite Hch; set_solver).
  destruct (detach_run d child Hd Hac) as (d1 & Hrun & Hcon & Hpl). exists d1. destruct (detach_ok d d1 child Hd Hac Hpl) as [Hd1 Hac1].
  split; [|split].
  - unfold detach in Hrun. rewrite js_bind_get, Hp in Hrun. unfold remove. unfold parent_of in Hp. destruct (d !! child) as [n|] eqn:Hn; [|done].
    cbn in Hp. rewrite (js_bind_Ret (get_node child) _ d n d) by (unfold get_node; by rewrite Hn). by rewrite Hp.
  - split; [done|done|by eapply same_content_dom| |constructor|by intros ? ?%not_elem_of_nil].
    rewrite (proj2 Hpl), Hch. pose proof (ok_nodup d Hd e) as Hnd. rewrite Hch in Hnd. apply NoDup_app in Hnd as (_ & Hd12 & Hnd2).
    apply NoDup_cons in Hnd2 as [Hc2 _]. rewrite filter_app, filter_cons_False by (intros H; by apply H).
    rewrite !filter_absent; [done|done|]. intros Hin. apply (Hd12 child Hin). by left.
  - split; [intros x _; apply Hcon|]. intros q _ Hne. rewrite (proj2 Hpl). apply filter_absent. intros Hin%(ok_child d Hd). congruence.
Qed.

(** What a child becomes. *)
Definition tagified (d d' : dom) (c : nid) (part : list nid) : Prop :=
  match text_of d c with Some v => Forall2 (span_of d d') v part | None => part = [c] end.
Lemma tagify_child_run c d e l1 l2 : spot d e l1 (c :: l2) [] →
  ∃ d1 part, tagify_child e c d = (Ret (), d1) ∧ spot d1 e (l1 ++ part) l2 [] ∧ tagified d d1 c part ∧ keeps_elsewhere d d1 e.
Proof.
  intros Hs. unfold tagify_child, tagified. rewrite js_bind_get. destruct (text_of d c) as [v|] eqn:Hv.
  - destruct (tagify_characters_run v d e c l1 l2 Hs) as (d1 & ts & Hrun1 & Hs1 & Hts & Hk1%elsewhere_keeps).
    destruct (remove_run d1 e c (l1 ++ ts) l2 Hs1) as (d2 & Hrun2 & Hs2 & Hk2). exists d2, ts. split_and!.
    + by rewrite (js_bind_Ret _ _ _ _ _ Hrun1).
    + done.
    + eapply Forall2_impl; [exact Hts|]. intros x y. by apply (span_elsewhere d d1 d2 e).
    + by eapply elsewhere_trans.
  - exists d, [c]. split_and!; [done| |done|by split]. apply (spot_split d e l1 (c :: l2)); [|done]. by rewrite <- app_assoc.
Qed.
Lemma tagify_children_run l : ∀ d e l1, spot d e l1 l [] →
  ∃ d1 parts, js_each l (tagify_child e) d = (Ret (), d1) ∧ spot d1 e (l1 ++ concat parts) [] [] ∧
    Forall2 (tagified d d1) l parts ∧ keeps_elsewhere d d1 e.
Proof.
  induction l as [|c l IH]; intros d e l1 Hs.
  { exists d, []. cbn [concat]. rewrite app_nil_r. split_and!; [done|done|by constructor|by split]. }
  assert (∀ x, x ∈ l → is_Some (d !! x)) as Hin.
  { intros x Hx. assert (parent_of d x = Some e) as Hp by (apply (ok_child d (spot_ok _ _ _ _ _ Hs)); rewrite (spot_children _ _ _ _ _ Hs); set_solver).
    unfold parent_of in Hp. by destruct (d !! x). }
  destruct (tagify_child_run c d e l1 l Hs) as (d1 & part & Hrun1 & Hs1 & Ht1 & Hk1).
  destruct (IH d1 e (l1 ++ part) Hs1) as (d2 & parts & Hrun2 & Hs2 & Ht2 & Hk2). exists d2, (part :: parts). split_and!.
  - cbn [js_each]. by rewrite (js_bind_Ret _ _ _ _ _ Hrun1).
  - cbn [concat]. by rewrite app_assoc.
  - constructor.
    + unfold tagified in *. destruct (text_of d c); [|done]. eapply Forall2_impl; [exact Ht1|]. intros x y. by apply (span_elsewhere d d1 d2 e).
    + clear Hrun2 Hs2 IH Hs Hs1. induction Ht2 as [|x p l' parts Hx _ IHl]; [by constructor|]. constructor; [|apply IHl; intros; apply Hin; by right].
      unfold tagified in *. rewrite (elsewhere_text d d1 e x Hk1) in Hx by (apply Hin; by left). destruct (text_of d x); [|done].
      eapply Forall2_impl; [exact Hx|]. intros a b. by apply (span_before d d1 d2 e).
  - by eapply elsewhere_trans.
Qed.

(** Every text below an element gives way to new spans, one for each of its
    characters and in their order; its other children stay where they are
    between them, and nothing else in the document changes. *)
Theorem tagifyText_spec (d : dom) (e : nid) : dom_ok d → acyclic d → is_Some (d !! e) →
  ∃ d' parts, tagifyText e d = (Ret (), d') ∧ dom_ok d' ∧ acyclic d' ∧
    Forall2 (tagified d d') (child_list d (Some e)) parts ∧ child_list d' (Some e) = concat parts ∧ keeps_elsewhere d d' e.
Proof.
  intros Hd Hac He. assert (spot d e [] (child_list d (Some e)) []) as Hs by (split; [done..|constructor|by intros ? ?%not_elem_of_nil]).
  destruct (tagify_children_run _ d e [] Hs) as (d1 & parts & Hrun & Hs1 & Ht & Hk). exists d1, parts. unfold tagifyText. rewrite js_bind_get.
  split_and!; [done|apply Hs1|apply Hs1|done| |done]. rewrite (spot_children _ _ _ _ _ Hs1). by rewrite app_nil_r.
Qed.

(** ** Morphs to a class *)

Section class_morph.
Context (computed : dom → nid → jsstr → option jsstr) (layout : dom → nid → geometry) (user_callback : nat → D ()).
Context (begin : fx_kind → fx_given hook → JS (fx dom fx_kind hook) nat).

(** The styles a morph to a class goes to: those the browser computes with the
    class that are not as they are without it, in the order of the
    properties. *)
Definition other_styles (d1 d2 : dom) (e : nid) : list (jsstr * jsstr) :=
  omap (λ property, if bool_decide (computed d1 e property = computed d2 e property) then None
                    else Some (property, default [] (computed d1 e property))) CSS_PROPERTIES.
Definition with_className (e : nid) (c : jsstr) (d : dom) : dom := alter (λ n, set_attrs (<[js "class" := c]> (attrs n)) n) e d.
Lemma set_className_run e c d n : d !! e = Some n → set_className e c d = (Ret (), with_className e c d).
Proof. intros Hn. unfold set_className, with_className. by apply (update_node_run d e n). Qed.
Lemma other_styles_zip (f g : jsstr → option jsstr) (l : list jsstr) :
  omap (λ x : (jsstr * option jsstr) * (jsstr * option jsstr), if bool_decide (x.1.2 = x.2.2) then None else Some (x.1.1, default [] x.1.2))
    (zip ((λ p, (p, f p)) <$> l) ((λ p, (p, g p)) <$> l)) =
  omap (λ p, if bool_decide (f p = g p) then None else Some (p, default [] (f p))) l.
Proof.
  induction l as [|p l IH]; [done|]. rewrite !fmap_cons. cbn [zip zip_with omap list_omap fst snd]. case_bool_decide; [exact IH|].
  f_equal. exact IH.
Qed.
Lemma class_styles_spec e name d n : d !! e = Some n →
  let c1 := add_class (className n) name in
  let d1 := with_className e c1 d in let d2 := with_className e (remove_class c1 name) d1 in
  class_styles computed e name d = (Ret (other_styles d1 d2 e), d2).
Proof.
  intros Hn c1 d1 d2. unfold class_styles, addClassName, removeClassName. rewrite js_bind_assoc.
  rewrite (js_bind_Ret (get_node e) _ d n d) by (unfold get_node; by rewrite Hn).
  rewrite (js_bind_Ret _ _ _ _ _ (set_className_run e _ d n Hn)). fold c1 d1.
  set (n1 := set_attrs (<[js "class" := c1]> (attrs n)) n).
  assert (d1 !! e = Some n1) as Hn1 by (unfold d1, with_className; by rewrite lookup_alter_eq, Hn).
  assert (∀ d n, d !! e = Some n → getStyles computed e d = (Ret ((λ p, (p, computed d e p)) <$> CSS_PROPERTIES), d)) as Hget.
  { intros d' n' Hn'. unfold getStyles. rewrite (js_bind_Ret (get_node e) _ d' n' d') by (unfold get_node; by rewrite Hn'). done. }
  rewrite (js_bind_Ret _ _ _ _ _ (Hget d1 n1 Hn1)), js_bind_assoc.
  rewrite (js_bind_Ret (get_node e) _ d1 n1 d1) by (unfold get_node; by rewrite Hn1).
  assert (className n1 = c1) as -> by (unfold className, n1; cbn; by rewrite lookup_insert_eq).
  rewrite (js_bind_Ret _ _ _ _ _ (set_className_run e _ d1 n1 Hn1)). fold d2.
  assert (is_Some (d2 !! e)) as [n2 Hn2] by (unfold d2, with_className; rewrite lookup_alter_eq, Hn1; by eexists).
  rewrite (js_bind_Ret _ _ _ _ _ (Hget d2 n2 Hn2)). unfold other_styles. by rewrite (other_styles_zip (computed d1 e) (computed d2 e)).
Qed.
End class_morph.

(** ** Names of effects *)

(** The methods of effects, by the names pages use, name the classes. *)
Example effect_classes : effect_class (js "blind_up") = Some (js "BlindUp") ∧ effect_class (js "fade") = Some (js "Fade") ∧
  effect_class (js "switch_off") = Some (js "SwitchOff") ∧ effect_class (js "dropOut") = Some (js "DropOut").
Proof. vm_compute. done. Qed.
Example properties_count : length CSS_PROPERTIES = 47%nat ∧ bool_decide (NoDup CSS_PROPERTIES) = true.
Proof. vm_compute. done. Qed.
(** A class the element has already is gone until the morph ends. *)
Example limit_morph_class : let d : dom := {[1%nat := Node (NElement (js "DIV")) {[js "class" := js "big"]} ∅ ∅ None []]} in
  className <$> (class_styles (λ _ _ _, None) 1 (js "big") d).2 !! 1%nat = Some [].
Proof. vm_compute. done. Qed.

(** A text between two elements. *)
Definition tagged_page : dom := list_to_map [
  (0%nat, Node NDocument ∅ ∅ ∅ None [1%nat]); (1%nat, Node (NElement (js "P")) ∅ ∅ ∅ (Some 0%nat) [2; 3; 4]%nat);
  (2%nat, Node (NElement (js "B")) ∅ ∅ ∅ (Some 1%nat) []); (3%nat, Node (NText (js "a b")) ∅ ∅ ∅ (Some 1%nat) []);
  (4%nat, Node (NElement (js "I")) ∅ ∅ ∅ (Some 1%nat) [])].
Lemma tagifyText_spec_witness : ∃ d', tagifyText 1 tagged_page = (Ret (), d') ∧ length (child_list d' (Some 1%nat)) = 5%nat.
Proof.
  destruct (tagifyText_spec tagged_page 1) as (d' & parts & Hrun & _ & _ & Hparts & Hch & _).
  - apply dom_ok_check, (bool_decide_unpack _). vm_compute. exact I.
  - apply acyclic_check, (bool_decide_unpack _). vm_compute. exact I.
  - by eexists.
  - exists d'. split; [exact Hrun|]. vm_compute in Hrun. injection Hrun as <-. vm_compute. reflexivity.
Defined.
Lemma collectTextNodes_spec_witness : collectTextNodes 5 tagged_page 0 = js "a b".
Proof.
  rewrite (collectTextNodes_spec 5 tagged_page 0); [vm_compute; reflexivity|].
  intros c v. do 5 (destruct c as [|c]; [vm_compute; done|]). unfold text_of, tagged_page. cbn. by rewrite !lookup_insert_ne by lia.
Defined.
