(* ===== verification/JqData.v ===== *)
(** * Data of elements and queues (jquery-1.3.2.js: data, removeData, queue)

    jQuery keeps what it stores for an element in a cache, under a number that
    is a property of the element.  Elements are numbers; the window, whose data
    sit on an object of their own, is one of them. *)

From Stdlib Require Import ZArith.
From S2P Require Import Prelude JsBase Strings Hash.
#[local] Open Scope stdpp_scope.

(** ** Definitions *)

Record jdata (V : Type) := JData {
  expando_of : gmap nat nat;                (* elem[expando] *)
  uuid : nat;
  cache : gmap nat (list (jsstr * V));      (* jQuery.cache *)
}.
Arguments JData {V} _ _ _.
Arguments expando_of {V} _.
Arguments uuid {V} _.
Arguments cache {V} _.

Section data.
(** What an object without the property gives for a name, the functions of
    [Object.prototype]. *)
Context {V : Type} (inherited : jsstr → option V).
Abbreviation M := (JS (jdata V)).

(** [jQuery.data(elem)] *)
Definition jq_id (elem : nat) : M nat :=
  s ← js_get;
  match expando_of s !! elem with
  | Some id => mret id
  | None => let id := S (uuid s) in js_put (JData (<[elem := id]> (expando_of s)) id (cache s)) ;; mret id
  end.
Definition put_cache (f : gmap nat (list (jsstr * V)) → gmap nat (list (jsstr * V))) : M () :=
  js_modify (λ s, JData (expando_of s) (uuid s) (f (cache s))).
Inductive data_result := TheId (id : nat) | TheValue (o : option V).
(** [jQuery.data(elem, name, data)] with a name; the empty one counts as none. *)
Definition jquery_data (elem : nat) (name : jsstr) (data : option V) : M data_result :=
  id ← jq_id elem;
  let named := bool_decide (name ≠ []) in
  s ← js_get;
  js_when (named && bool_decide (cache s !! id = None)) (put_cache (<[id := []]>)) ;;
  match data with
  | Some v =>
      s ← js_get;
      match cache s !! id with
      | Some o => put_cache (<[id := assoc_set name v o]>)
      | None => js_throw ETypeError
      end
  | None => mret ()
  end ;;
  s ← js_get;
  mret (if named then TheValue (match cache s !! id ≫= assoc_get name with Some v => Some v | None => inherited name end)
        else TheId id).

Definition remove_expando (elem : nat) : M () := js_modify (λ s,
  JData (delete elem (expando_of s)) (uuid s) (match expando_of s !! elem with Some id => delete id (cache s) | None => cache s end)).
(** [jQuery.removeData(elem, name)]; the loop that looks for a name left stops
    at the first. *)
Definition removeData (elem : nat) (name : jsstr) : M () :=
  if bool_decide (name = []) then remove_expando elem
  else
    s ← js_get;
    match expando_of s !! elem with
    | None => mret ()
    | Some id =>
        match cache s !! id with
        | None => mret ()
        | Some o =>
            let o := assoc_del name o in
            put_cache (<[id := o]>) ;;
            match o with
            | (_ :: _, _) :: _ => mret ()
            | _ => remove_expando elem
            end
        end
    end.
End data.
Arguments data_result V : clear implicits.

(** [jQuery.unique(array)] by the numbers of the elements *)
Fixpoint unique_from {V} (done_ : gset nat) (array : list nat) : JS (jdata V) (list nat) :=
  match array with
  | [] => mret []
  | e :: array =>
      id ← jq_id e;
      if bool_decide (id ∈ done_) then unique_from done_ array
      else rest ← unique_from ({[ id ]} ∪ done_) array; mret (e :: rest)
  end.
Definition jquery_unique {V} (array : list nat) : JS (jdata V) (list nat) := unique_from ∅ array.

(** ** The data of elements as a table *)

Lemma assoc_del_keys {B} k (o : list (jsstr * B)) : NoDup o.*1 → NoDup (assoc_del k o).*1 ∧ ∀ k', k' ∈ (assoc_del k o).*1 → k' ∈ o.*1.
Proof.
  induction o as [|[k1 v1] o IH]; [done|]. cbn. intros [Hk Hnd]%NoDup_cons. destruct (IH Hnd) as [Hd Hin]. case_decide; cbn.
  - split; [done|]. set_solver.
  - split; [apply NoDup_cons; split; [|done]; set_solver|]. set_solver.
Qed.

Section table.
Context {V : Type} (inherited : jsstr → option V).

Definition object_of (s : jdata V) (e : nat) : option (list (jsstr * V)) :=
  match expando_of s !! e with Some id => cache s !! id | None => None end.
Definition stored (s : jdata V) (e : nat) (n : jsstr) : option V :=
  match object_of s e with Some o => assoc_get n o | None => None end.
(** The cache holds the table [m] of elements and names; every part of the
    cache belongs to one element. *)
Record stores (s : jdata V) (m : gmap (nat * jsstr) V) : Prop := {
  st_inj e1 e2 id : expando_of s !! e1 = Some id → expando_of s !! e2 = Some id → e1 = e2;
  st_new e id : expando_of s !! e = Some id → (id ≤ uuid s)%nat;
  st_owned id o : cache s !! id = Some o → NoDup o.*1 ∧ ([] ∉ o.*1) ∧ ∃ e, expando_of s !! e = Some id;
  st_table e n : m !! (e, n) = stored s e n;
}.


Lemma element_id_run s m e : stores s m → ∃ id s', jq_id e s = (Ret id, s') ∧ stores s' m ∧
  expando_of s' !! e = Some id ∧ cache s' = cache s ∧ ∀ x, is_Some (expando_of s !! x) → expando_of s' !! x = expando_of s !! x.
Proof.
  intros [Hinj Hnew Hown Ht]. unfold jq_id. rewrite js_bind_get. destruct (expando_of s !! e) as [id|] eqn:He.
  { exists id, s. by split_and!. }
  set (id := S (uuid s)). exists id, (JData (<[e := id]> (expando_of s)) id (cache s)). split; [reflexivity|].
  assert (∀ x, is_Some (expando_of s !! x) → <[e := id]> (expando_of s) !! x = expando_of s !! x) as Hkeep.
  { intros x [i Hx]. rewrite lookup_insert_ne; [done|]. intros ->. congruence. }
  assert (cache s !! id = None) as Hc.
  { destruct (cache s !! id) as [o|] eqn:Ho; [|done]. destruct (Hown id o Ho) as (_ & _ & x & Hx). apply Hnew in Hx. unfold id in Hx. lia. }
  split; [|split_and!; [apply lookup_insert_eq|done|exact Hkeep]]. split; cbn [expando_of uuid cache].
  - intros e1 e2 i. rewrite !lookup_insert. repeat case_decide; subst; try done.
    + intros [= <-] H2%Hnew. unfold id in H2. lia.
    + intros H1%Hnew [= <-]. unfold id in H1. lia.
    + apply Hinj.
  - intros x i. rewrite lookup_insert. case_decide; [by intros [= <-]|]. intros Hxi%Hnew. unfold id. lia.
  - intros i o Ho. destruct (Hown i o Ho) as (? & ? & x & Hx). split; [done|]. split; [done|]. exists x. by rewrite Hkeep.
  - intros x n. rewrite Ht. unfold stored, object_of. cbn [expando_of cache]. rewrite lookup_insert. case_decide; [|done]. subst. by rewrite He, Hc.
Qed.

(** What is said of one element's object is said of no other's. *)
Lemma stored_change s m e id o' : stores s m → expando_of s !! e = Some id → NoDup o'.*1 → [] ∉ o'.*1 →
  let s' := JData (expando_of s) (uuid s) (<[id := o']> (cache s)) in
  ∀ m', (∀ n, m' !! (e, n) = assoc_get n o') → (∀ x n, x ≠ e → m' !! (x, n) = m !! (x, n)) → stores s' m'.
Proof.
  intros [Hinj Hnew Hown Ht] He Hnd Hne s' m' Hm1 Hm2. split; [done|done| |].
  - intros i o. cbn. rewrite lookup_insert. case_decide; [|apply Hown]. intros [= <-]. subst. split; [done|]. split; [done|]. by exists e.
  - intros x n. unfold stored, object_of. cbn. destruct (decide (x = e)) as [->|Hx]; [by rewrite Hm1, He, lookup_insert_eq|].
    rewrite Hm2, Ht by done. unfold stored, object_of. destruct (expando_of s !! x) as [i|] eqn:Hi; [|done].
    rewrite lookup_insert_ne; [done|]. intros ->. apply Hx. by eapply Hinj.
Qed.
Lemma stored_drop s m e : stores s m →
  ∀ m', (∀ n, m' !! (e, n) = None) → (∀ x n, x ≠ e → m' !! (x, n) = m !! (x, n)) → stores (remove_expando e s).2 m'.
Proof.
  intros [Hinj Hnew Hown Ht] m' Hm1 Hm2. cbn. split; cbn.
  - intros e1 e2 i [_ Hx1]%lookup_delete_Some [_ Hx2]%lookup_delete_Some. by eapply Hinj.
  - intros x i [_ Hx]%lookup_delete_Some. by apply Hnew in Hx.
  - intros i o Ho. assert (cache s !! i = Some o ∧ expando_of s !! e ≠ Some i) as [Ho' Hi].
    { destruct (expando_of s !! e) as [id|]; [|done]. apply lookup_delete_Some in Ho as [? ?]. split; [done|congruence]. }
    destruct (Hown i o Ho') as (? & ? & x & Hx). split; [done|]. split; [done|]. exists x. rewrite lookup_delete_ne; [done|congruence].
  - intros x n. unfold stored, object_of. cbn. destruct (decide (x = e)) as [->|Hx]; [by rewrite lookup_delete_eq|].
    rewrite Hm2, Ht, lookup_delete_ne by done. unfold stored, object_of. destruct (expando_of s !! x) as [i|] eqn:Hi; [|done].
    destruct (expando_of s !! e) as [id|] eqn:He; [|done]. rewrite lookup_delete_ne; [done|]. intros ->. apply Hx. by eapply Hinj.
Qed.

(** The calls, on the page and on the table. *)
Inductive data_call := ReadData (e : nat) (n : jsstr) | WriteData (e : nat) (n : jsstr) (v : V) | DropData (e : nat) (n : jsstr).
Definition call_data (c : data_call) : JS (jdata V) (option V) :=
  match c with
  | ReadData e n => r ← jquery_data inherited e n None; mret (match r with TheValue o => o | TheId _ => None end)
  | WriteData e n v => r ← jquery_data inherited e n (Some v); mret (match r with TheValue o => o | TheId _ => None end)
  | DropData e n => removeData e n ;; mret None
  end.
(** Names that are not empty and that no object inherits; only the removal of
    all names is without a name. *)
Definition data_ok (c : data_call) : Prop :=
  match c with ReadData _ n | WriteData _ n _ => n ≠ [] ∧ inherited n = None | DropData _ _ => True end.
Definition t_call (m : gmap (nat * jsstr) V) (c : data_call) : option V * gmap (nat * jsstr) V :=
  match c with
  | ReadData e n => (m !! (e, n), m)
  | WriteData e n v => (Some v, <[(e, n) := v]> m)
  | DropData e [] => (None, filter (λ p, p.1.1 ≠ e) m)
  | DropData e n => (None, delete (e, n) m)
  end.

Lemma ensured_run s m e (n : jsstr) : stores s m → n ≠ [] →
  ∃ id s1 o, jq_id e s = (Ret id, (jq_id e s).2) ∧
    js_when (bool_decide (n ≠ []) && bool_decide (cache (jq_id e s).2 !! id = None)) (put_cache (<[id := []]>)) (jq_id e s).2 = (Ret (), s1) ∧
    stores s1 m ∧ expando_of s1 !! e = Some id ∧ cache s1 !! id = Some o.
Proof.
  intros Hs Hn. destruct (element_id_run s m e Hs) as (id & s' & Hrun & Hs' & He & Hc & _). rewrite Hrun. cbn [snd].
  exists id. rewrite (bool_decide_eq_true_2 (n ≠ [])) by done. cbn [andb]. destruct (cache s' !! id) as [o|] eqn:Ho.
  - exists s', o. rewrite bool_decide_eq_false_2 by done. by split_and!.
  - rewrite bool_decide_eq_true_2 by done. eexists _, []. split; [done|]. split; [reflexivity|]. cbn [put_cache js_modify snd].
    split; [|by split; [|apply lookup_insert_eq]].
    apply (stored_change s' m e id [] Hs' He); [constructor|apply not_elem_of_nil| |done].
    intros k. rewrite (st_table _ _ Hs'). unfold stored, object_of. by rewrite He, Ho.
Qed.

Lemma data_read_run s m e n : stores s m → n ≠ [] → inherited n = None →
  ∃ s', jquery_data inherited e n None s = (Ret (TheValue (m !! (e, n))), s') ∧ stores s' m.
Proof.
  intros Hs Hn Hi. destruct (ensured_run s m e n Hs Hn) as (id & s1 & o & Hid & Hens & Hs1 & He & Ho). exists s1. split; [|done].
  unfold jquery_data. rewrite (js_bind_Ret _ _ _ _ _ Hid), js_bind_get, (js_bind_Ret _ _ _ _ _ Hens), js_bind_ret, js_bind_get.
  rewrite bool_decide_eq_true_2, Ho, (st_table _ _ Hs1) by done. unfold stored, object_of. rewrite He, Ho. cbn [mbind option_bind].
  rewrite Hi. by destruct (assoc_get n o).
Qed.
Lemma write_run s m e n v : stores s m → n ≠ [] →
  ∃ s', jquery_data inherited e n (Some v) s = (Ret (TheValue (Some v)), s') ∧ stores s' (<[(e, n) := v]> m).
Proof.
  intros Hs Hn. destruct (ensured_run s m e n Hs Hn) as (id & s1 & o & Hid & Hens & Hs1 & He & Ho).
  exists (JData (expando_of s1) (uuid s1) (<[id := assoc_set n v o]> (cache s1))). split.
  - unfold jquery_data. rewrite (js_bind_Ret _ _ _ _ _ Hid), js_bind_get, (js_bind_Ret _ _ _ _ _ Hens), js_bind_assoc, js_bind_get, Ho.
    unfold put_cache. rewrite js_bind_modify, js_bind_get. cbn [cache]. rewrite bool_decide_eq_true_2, lookup_insert_eq by done.
    cbn [mbind option_bind]. by rewrite assoc_get_set, decide_True.
  - destruct (st_owned _ _ Hs1 id o Ho) as (Hnd & Hne & _). apply (stored_change s1 m e id _ Hs1 He).
    + by apply assoc_set_NoDup.
    + rewrite assoc_set_keys. case_decide; [done|]. intros [?|?%list_elem_of_singleton]%elem_of_app; [done|by subst].
    + intros k. rewrite assoc_get_set, lookup_insert. repeat case_decide; try congruence.
      rewrite (st_table _ _ Hs1). unfold stored, object_of. by rewrite He, Ho.
    + intros x k Hx. rewrite lookup_insert_ne; [done|congruence].
Qed.
Lemma drop_run s m e n : stores s m → n ≠ [] → ∃ s', removeData e n s = (Ret (), s') ∧ stores s' (delete (e, n) m) ∧
  (is_Some (m !! (e, n)) → (∀ k, k ≠ n → m !! (e, k) = None) → expando_of s' !! e = None).
Proof.
  intros Hs Hn. pose proof (st_table _ _ Hs) as Ht. unfold removeData. rewrite bool_decide_eq_false_2, js_bind_get by done.
  assert (object_of s e = None → stores s (delete (e, n) m) ∧ m !! (e, n) = None) as Hnone.
  { intros Ho. assert (m !! (e, n) = None) as Hm by (rewrite Ht; unfold stored; by rewrite Ho). by rewrite delete_id. }
  unfold object_of in Hnone. destruct (expando_of s !! e) as [id|] eqn:He.
  2: { destruct (Hnone eq_refl). exists s. split_and!; [done|done|]. intros [? ?]. congruence. }
  destruct (cache s !! id) as [o|] eqn:Ho.
  2: { destruct (Hnone eq_refl). exists s. split_and!; [done|done|]. intros [? ?]. congruence. }
  destruct (st_owned _ _ Hs id o Ho) as (Hnd & Hne & _). destruct (assoc_del_keys n o Hnd) as [Hnd' Hkeys].
  assert (∀ k, m !! (e, k) = assoc_get k o) as Hm by (intros k; rewrite Ht; unfold stored, object_of; by rewrite He, Ho).
  assert (stores (JData (expando_of s) (uuid s) (<[id := assoc_del n o]> (cache s))) (delete (e, n) m)) as Hs'.
  { apply (stored_change s m e id _ Hs He); [done|by intros ?%Hkeys| |].
    - intros k. rewrite assoc_del_get, lookup_delete by done. repeat case_decide; congruence || by rewrite Hm.
    - intros x k Hx. rewrite lookup_delete_ne; [done|congruence]. }
  unfold put_cache. rewrite js_bind_modify. destruct (assoc_del n o) as [|[k v] o'] eqn:Hdel.
  - eexists. split; [reflexivity|]. split; [|by intros _ _; cbn; rewrite lookup_delete_eq].
    apply (stored_drop _ _ e Hs'); [|done]. intros k. rewrite (st_table _ _ Hs'). unfold stored, object_of. cbn. by rewrite He, lookup_insert_eq.
  - destruct k as [|c k]; [exfalso; apply Hne, Hkeys; by left|]. eexists. split; [reflexivity|]. split; [done|].
    intros _ Hlast. exfalso. assert (assoc_get (c :: k) (assoc_del n o) = Some v) as Hk by (rewrite Hdel; apply assoc_get_head).
    rewrite assoc_del_get in Hk by done. case_decide as Hkn; [done|]. by rewrite <- Hm, Hlast in Hk.
Qed.
Lemma call_refines s m c : stores s m → data_ok c →
  ∃ s', call_data c s = (Ret (t_call m c).1, s') ∧ stores s' (t_call m c).2.
Proof.
  intros Hs Hc. destruct c as [e n|e n v|e n]; cbn [call_data data_ok] in *.
  - destruct Hc as [Hn Hi]. destruct (data_read_run s m e n Hs Hn Hi) as (s' & Hrun & Hs'). exists s'. by rewrite (js_bind_Ret _ _ _ _ _ Hrun).
  - destruct Hc as [Hn _]. destruct (write_run s m e n v Hs Hn) as (s' & Hrun & Hs'). exists s'. by rewrite (js_bind_Ret _ _ _ _ _ Hrun).
  - destruct n as [|c n].
    + exists (remove_expando e s).2. split; [done|]. cbn [t_call snd]. apply (stored_drop s m e Hs); [intros k|intros x k Hx].
      * apply map_lookup_filter_None. right. intros ? _. naive_solver.
      * rewrite map_lookup_filter. destruct (m !! (x, k)) as [v|]; [|done]. cbn. by rewrite option_guard_True.
    + destruct (drop_run s m e (c :: n) Hs) as (s' & Hrun & Hs' & _); [done|]. exists s'. by rewrite (js_bind_Ret _ _ _ _ _ Hrun).
Qed.

Fixpoint call_all (calls : list data_call) : JS (jdata V) (list (option V)) :=
  match calls with
  | [] => mret []
  | c :: calls => r ← call_data c; rs ← call_all calls; mret (r :: rs)
  end.
Fixpoint t_all (m : gmap (nat * jsstr) V) (calls : list data_call) : list (option V) * gmap (nat * jsstr) V :=
  match calls with
  | [] => ([], m)
  | c :: calls => let '(r, m) := t_call m c in let '(rs, m) := t_all m calls in (r :: rs, m)
  end.

(** C38. Reading, writing and removing data, in any order and for any elements, is
    reading, writing and removing in one table: nothing stored for one element
    or name shows under another.  Each object in the cache belongs to an
    element, and with its last name an element loses its object and number. *)
Theorem data_refines (calls : list data_call) : Forall data_ok calls →
  ∃ s, call_all calls (JData ∅ 0 ∅) = (Ret (t_all ∅ calls).1, s) ∧ stores s (t_all ∅ calls).2 ∧
    ∀ e n v, (t_all ∅ calls).2 !! (e, n) = Some v → n ≠ [] → (∀ k, k ≠ n → (t_all ∅ calls).2 !! (e, k) = None) →
      expando_of (removeData e n s).2 !! e = None.
Proof.
  intros Hok. assert (stores (JData ∅ 0 ∅) ∅) as Hs by (split; intros *; cbn; rewrite ?lookup_empty; done).
  assert (∀ s m, stores s m → ∃ s', call_all calls s = (Ret (t_all m calls).1, s') ∧ stores s' (t_all m calls).2) as Hall.
  { clear Hs. induction Hok as [|c calls Hc _ IH]; intros s m Hs; [by exists s|]. cbn [call_all t_all].
    destruct (call_refines s m c Hs Hc) as (s1 & Hrun & Hs1). destruct (t_call m c) as [r m1]. destruct (IH s1 m1 Hs1) as (s2 & Hrun2 & Hs2).
    destruct (t_all m1 calls) as [rs m2]. exists s2. by rewrite (js_bind_Ret _ _ _ _ _ Hrun), (js_bind_Ret _ _ _ _ _ Hrun2). }
  destruct (Hall _ _ Hs) as (s & Hrun & Hs'). exists s. split_and!; [done|done|]. intros e n v Hv Hn Hlast.
  destruct (drop_run s _ e n Hs' Hn) as (s' & Hd & _ & Hfree). rewrite Hd. apply Hfree; [by exists v|done].
Qed.

(** [jQuery.unique] keeps the first of each element. *)
Fixpoint firsts (seen : list nat) (l : list nat) : list nat :=
  match l with
  | [] => []
  | e :: l => if bool_decide (e ∈ seen) then firsts seen l else e :: firsts (e :: seen) l
  end.
Lemma unique_from_run l : ∀ s m done_ seen, stores s m →
  (∀ id, id ∈ done_ ↔ ∃ e, expando_of s !! e = Some id ∧ e ∈ seen) → (∀ e, e ∈ seen → is_Some (expando_of s !! e)) →
  ∃ s', unique_from done_ l s = (Ret (firsts seen l), s') ∧ stores s' m.
Proof.
  induction l as [|e l IH]; intros s m done_ seen Hs Hd Hseen; [by exists s|]. cbn [unique_from firsts].
  destruct (element_id_run s m e Hs) as (id & s1 & Hrun & Hs1 & He & _ & Hkeep). rewrite (js_bind_Ret _ _ _ _ _ Hrun).
  assert (∀ x i, x ∈ seen → expando_of s1 !! x = Some i ↔ expando_of s !! x = Some i) as Hold by (intros x i Hx; by rewrite Hkeep by auto).
  assert (∀ i, i ∈ done_ ↔ ∃ x, expando_of s1 !! x = Some i ∧ x ∈ seen) as Hd1.
  { intros i. rewrite Hd. split; intros (x & Hx & Hin); exists x; (split; [by apply Hold|done]). }
  assert (∀ x, x ∈ seen → is_Some (expando_of s1 !! x)) as Hseen1 by (intros x Hx; rewrite Hkeep; auto).
  assert (bool_decide (id ∈ done_) = bool_decide (e ∈ seen)) as ->.
  { apply bool_decide_ext. rewrite Hd1. split; [|by exists e]. intros (x & Hx & Hin). by rewrite (st_inj _ _ Hs1 e x id He Hx). }
  case_bool_decide; [by apply (IH s1 m)|]. destruct (IH s1 m ({[ id ]} ∪ done_) (e :: seen) Hs1) as (s2 & Hrun2 & Hs2).
  - intros i. rewrite elem_of_union, elem_of_singleton, Hd1. split.
    + intros [->|(x & Hx & Hin)]; [exists e; split; [done|by left]|exists x; split; [done|by right]].
    + intros (x & Hx & [->|Hin]%elem_of_cons); [left; congruence|right; by exists x].
  - intros x [->|Hx]%elem_of_cons; [by exists id|by apply Hseen1].
  - exists s2. split; [|done]. by rewrite (js_bind_Ret _ _ _ _ _ Hrun2).
Qed.
Lemma data_unique_run l s m : stores s m → ∃ s', jquery_unique l s = (Ret (firsts [] l), s') ∧ stores s' m.
Proof.
  intros Hs. apply (unique_from_run l s m ∅ []); [done| |by intros ? ?%not_elem_of_nil].
  intros id. split; [by intros ?%elem_of_empty|by intros (? & _ & ?%not_elem_of_nil)].
Qed.
Lemma firsts_spec l : ∀ seen, NoDup (firsts seen l) ∧ ∀ e, e ∈ firsts seen l ↔ e ∈ l ∧ e ∉ seen.
Proof.
  induction l as [|e l IH]; intros seen; cbn; [split; [constructor|set_solver]|].
  case_bool_decide as He; [destruct (IH seen) as [? Hin]; split; [done|]; set_solver|].
  destruct (IH (e :: seen)) as [Hnd Hin]. split; [apply NoDup_cons; set_solver|]. intros x. rewrite !elem_of_cons, Hin.
  destruct (decide (x = e)) as [->|]; set_solver.
Qed.
End table.

(** ** Queues *)

(** What jQuery itself stores: queues of functions, the tables and handlers of
    events (JqEvents.v), and what the page stores. *)
Inductive jval := JQueue (fns : list nat) | JEvents (table : nat) | JHandle (handle : nat) | JUser (v : jsv).
Inductive queue_data := NoData | FunData (fn : nat) | ArrayData (fns : list nat).
Definition makeArray (data : queue_data) : list nat := match data with NoData => [] | FunData fn => [fn] | ArrayData fns => fns end.
Definition queue_name (type : jsstr) : jsstr := (if bool_decide (type = []) then js "fx" else type) ++ js "queue".

Section queue.
Context {U : Type} (inherited : jsstr → option jval).
(** The call of the function [fn] on an element. *)
Context (call : nat → nat → JS (jdata jval * U) ()).
Definition on_data {A} (m : JS (jdata jval) A) : JS (jdata jval * U) A := λ s, let '(r, d) := m s.1 in (r, (d, s.2)).

(** [jQuery.queue(elem, type, data)]; the array stored is changed in place.  A
    page that stores something else under the name of a queue is in error. *)
Definition jquery_queue (elem : nat) (type : jsstr) (data : queue_data) : JS (jdata jval) (list nat) :=
  let name := queue_name type in
  let store q := jquery_data inherited elem name (Some (JQueue q)) ;; mret q in
  r ← jquery_data inherited elem name None;
  match r, data with
  | TheValue None, _ | _, ArrayData _ => store (makeArray data)
  | TheValue (Some (JQueue q)), FunData fn => store (q ++ [fn])
  | TheValue (Some (JQueue q)), NoData => mret q
  | _, _ => js_throw ETypeError
  end.
(** [jQuery.dequeue(elem, type)]: the first leaves; of the effects' queue the
    new first is called, of another the one that left. *)
Definition jquery_dequeue (elem : nat) (type : jsstr) : JS (jdata jval * U) () :=
  q ← on_data (jquery_queue elem type NoData);
  on_data (jquery_data inherited elem (queue_name type) (Some (JQueue (tail q)))) ;;
  let fn := if bool_decide (type = []) || bool_decide (type = js "fx") then head (tail q) else head q in
  match fn with Some fn => call fn elem | None => mret () end.
(** [$(elems).queue(type, data)] with something to put in the queue. *)
Definition fn_queue (elems : list nat) (type : jsstr) (data : queue_data) : JS (jdata jval * U) () :=
  js_each elems (λ elem,
    q ← on_data (jquery_queue elem type data);
    match q with [fn] => if bool_decide (type = js "fx") then call fn elem else mret () | _ => mret () end).
Definition fn_dequeue (elems : list nat) (type : jsstr) : JS (jdata jval * U) () :=
  js_each elems (λ elem, jquery_dequeue elem type).

(** ** Effects in their order *)

(** An effect is put in the queue of an element; the one that runs is over. *)
Inductive queue_event := AddFx (e fn : nat) | DoneFx (e : nat).
Definition fx_step (ev : queue_event) : JS (jdata jval * U) () :=
  match ev with AddFx e fn => fn_queue [e] (js "fx") (FunData fn) | DoneFx e => fn_dequeue [e] (js "fx") end.

(** The plan: what waits for each element, the first of which runs, and what
    is started. *)
Definition plan_step (p : gmap nat (list nat)) (ev : queue_event) : gmap nat (list nat) * option (nat * nat) :=
  match ev with
  | AddFx e fn => (<[e := default [] (p !! e) ++ [fn]]> p, match default [] (p !! e) with [] => Some (e, fn) | _ => None end)
  | DoneFx e => (<[e := tail (default [] (p !! e))]> p, (λ fn, (e, fn)) <$> head (tail (default [] (p !! e))))
  end.
Fixpoint plan_all (p : gmap nat (list nat)) (evs : list queue_event) : gmap nat (list nat) * list (nat * nat) :=
  match evs with
  | [] => (p, [])
  | ev :: evs => let '(p, o) := plan_step p ev in let '(p, l) := plan_all p evs in (p, option_list o ++ l)
  end.
(** Something runs whenever something is over. *)
Fixpoint orderly_fx (p : gmap nat (list nat)) (evs : list queue_event) : bool :=
  match evs with
  | [] => true
  | ev :: evs => match ev with DoneFx e => bool_decide (default [] (p !! e) ≠ []) | AddFx _ _ => true end && orderly_fx (plan_step p ev).1 evs
  end.
Definition added (e : nat) (evs : list queue_event) : list nat :=
  omap (λ ev, match ev with AddFx e' fn => if decide (e' = e) then Some fn else None | DoneFx _ => None end) evs.
Definition started (e : nat) (l : list (nat * nat)) : list nat := omap (λ x, if decide (x.1 = e) then Some x.2 else None) l.

Definition fx_name : jsstr := js "fxqueue".
(** Functions that leave the data of elements alone, and what they do else. *)
Definition polite_call (run : nat → nat → U → U) : Prop := ∀ fn e d u, call fn e (d, u) = (Ret (), (d, run fn e u)).
Definition run_all (run : nat → nat → U → U) (l : list (nat * nat)) (u : U) : U := fold_left (λ u x, run x.2 x.1 u) l u.
Record plans (d : jdata jval) (p : gmap nat (list nat)) (m : gmap (nat * jsstr) jval) : Prop := {
  pl_stores : stores d m;
  pl_queue e : match m !! (e, fx_name) with Some v => v = JQueue (default [] (p !! e)) | None => default [] (p !! e) = [] end;
}.

Lemma queue_name_fx : queue_name (js "fx") = fx_name.
Proof. reflexivity. Qed.
Lemma plan_store d p m e q : plans d p m → ∃ d', jquery_data inherited e fx_name (Some (JQueue q)) d = (Ret (TheValue (Some (JQueue q))), d') ∧
  plans d' (<[e := q]> p) (<[(e, fx_name) := JQueue q]> m).
Proof.
  intros [Hs Hq]. destruct (write_run inherited d m e fx_name (JQueue q) Hs) as (d' & Hrun & Hs'); [done|]. exists d'. split; [done|].
  split; [done|]. intros x. destruct (decide (x = e)) as [->|Hx]; [by rewrite !lookup_insert_eq|].
  rewrite lookup_insert_ne, (lookup_insert_ne p) by congruence. apply Hq.
Qed.
Lemma plan_queue d p m e data : inherited fx_name = None → plans d p m → data = NoData ∨ (∃ fn, data = FunData fn) →
  ∃ d' m', jquery_queue e (js "fx") data d = (Ret (default [] (p !! e) ++ makeArray data), d') ∧
    plans d' (<[e := default [] (p !! e) ++ makeArray data]> p) m'.
Proof.
  intros Hi Hpl Hdata. pose proof (pl_queue _ _ _ Hpl e) as He.
  destruct (data_read_run inherited d m e fx_name (pl_stores _ _ _ Hpl)) as (d1 & Hread & Hs1); [done|done|].
  assert (plans d1 p m) as Hpl1 by (split; [done|apply Hpl]). unfold jquery_queue. rewrite queue_name_fx.
  rewrite (js_bind_Ret _ _ _ _ _ Hread). destruct (m !! (e, fx_name)) as [v|] eqn:Hm; [subst v|].
  - destruct Hdata as [->|[fn ->]]; cbn [makeArray].
    + rewrite app_nil_r. exists d1, m. split; [done|]. split; [done|]. intros x. rewrite lookup_insert. case_decide; [|apply Hpl].
      subst. by rewrite Hm.
    + destruct (plan_store d1 p m e (default [] (p !! e) ++ [fn]) Hpl1) as (d2 & Hw & Hpl2). eexists d2, _.
      rewrite (js_bind_Ret _ _ _ _ _ Hw). by split.
  - rewrite He. cbn [app]. destruct (plan_store d1 p m e (makeArray data) Hpl1) as (d2 & Hw & Hpl2). eexists d2, _.
    rewrite (js_bind_Ret _ _ _ _ _ Hw). split; [|exact Hpl2]. done.
Qed.
Lemma on_data_run {A} (n : JS (jdata jval) A) d u r d' : n d = (r, d') → on_data n (d, u) = (r, (d', u)).
Proof. intros H. unfold on_data. cbn. by rewrite H. Qed.

Lemma fx_step_run run ev d p m u : inherited fx_name = None → polite_call run → plans d p m →
  ∃ d' m', fx_step ev (d, u) = (Ret (), (d', run_all run (option_list (plan_step p ev).2) u)) ∧ plans d' (plan_step p ev).1 m'.
Proof.
  intros Hi Hc Hpl. destruct ev as [e fn|e]; cbn [fx_step fn_queue fn_dequeue js_each plan_step fst snd].
  - destruct (plan_queue d p m e (FunData fn) Hi Hpl) as (d1 & m1 & Hrun & Hpl1); [by right; exists fn|]. exists d1, m1. split; [|done].
    rewrite js_bind_assoc, (js_bind_Ret _ _ _ _ _ (on_data_run _ _ u _ _ Hrun)). cbn [makeArray].
    destruct (default [] (p !! e)) as [|f [|g l]]; cbn [app]; [|done|done].
    by rewrite bool_decide_eq_true_2, (js_bind_Ret _ _ _ _ _ (Hc fn e d1 u)).
  - destruct (plan_queue d p m e NoData Hi Hpl) as (d1 & m1 & Hrun & Hpl1); [by left|]. rewrite app_nil_r in Hrun, Hpl1.
    destruct (plan_store d1 _ m1 e (tail (default [] (p !! e))) Hpl1) as (d2 & Hrun2 & Hpl2). rewrite insert_insert_eq in Hpl2.
    eexists d2, _. split; [|exact Hpl2]. unfold jquery_dequeue. rewrite !js_bind_assoc, (js_bind_Ret _ _ _ _ _ (on_data_run _ _ u _ _ Hrun)).
    rewrite queue_name_fx, js_bind_assoc, (js_bind_Ret _ _ _ _ _ (on_data_run _ _ u _ _ Hrun2)). cbv zeta.
    rewrite (bool_decide_eq_true_2 (js "fx" = js "fx")), orb_true_r by done.
    destruct (head (tail (default [] (p !! e)))) as [fn|]; [|done]. by rewrite (js_bind_Ret _ _ _ _ _ (Hc fn e d2 u)).
Qed.

Lemma added_cons e ev evs : added e (ev :: evs) = added e [ev] ++ added e evs.
Proof. unfold added. by rewrite <- omap_app. Qed.
Lemma started_app e l1 l2 : started e (l1 ++ l2) = started e l1 ++ started e l2.
Proof. unfold started. by rewrite omap_app. Qed.
Definition waiting (p : gmap nat (list nat)) (e : nat) : list nat := default [] (p !! e).
Lemma plan_step_fifo p ev e : tail (waiting p e) ++ added e [ev] = started e (option_list (plan_step p ev).2) ++ tail (waiting (plan_step p ev).1 e).
Proof.
  unfold waiting. destruct ev as [e' fn|e']; cbn [plan_step fst snd]; unfold added, started; cbn; rewrite lookup_insert; case_decide; subst; cbn.
  - destruct (default [] (p !! e)) as [|g l]; cbn; by rewrite ?decide_True.
  - rewrite app_nil_r. destruct (default [] (p !! e')); cbn; by rewrite ?decide_False.
  - rewrite app_nil_r. destruct (tail (default [] (p !! e))); cbn; by rewrite ?decide_True.
  - rewrite app_nil_r. destruct (head (tail (default [] (p !! e')))); cbn; by rewrite ?decide_False.
Qed.
Lemma plan_fifo evs e : ∀ p, tail (waiting p e) ++ added e evs = started e (plan_all p evs).2 ++ tail (waiting (plan_all p evs).1 e).
Proof.
  induction evs as [|ev evs IH]; intros p; [cbn; by rewrite app_nil_r|].
  specialize (IH (plan_step p ev).1). pose proof (plan_step_fifo p ev e) as H1. cbn [plan_all].
  destruct (plan_step p ev) as [p1 o]. cbn [fst snd] in *. destruct (plan_all p1 evs) as [p2 l]. cbn [fst snd] in *.
  by rewrite added_cons, app_assoc, H1, <- app_assoc, IH, app_assoc, started_app.
Qed.
Definition busy_count (p : gmap nat (list nat)) (e : nat) : nat := match waiting p e with [] => 0 | _ => 1 end.
Definition done_count (e : nat) (evs : list queue_event) : nat :=
  length (omap (λ ev, match ev with DoneFx e' => if decide (e' = e) then Some e' else None | AddFx _ _ => None end) evs).
Lemma plan_one evs e : ∀ p, orderly_fx p evs = true →
  (length (started e (plan_all p evs).2) + busy_count p e = done_count e evs + busy_count (plan_all p evs).1 e)%nat.
Proof.
  induction evs as [|ev evs IH]; intros p Ho; [done|]. cbn [orderly_fx] in Ho. apply andb_true_iff in Ho as [Hev Ho].
  specialize (IH _ Ho). assert (length (started e (option_list (plan_step p ev).2)) + busy_count p e =
    done_count e [ev] + busy_count (plan_step p ev).1 e)%nat as H1.
  { clear IH Ho. unfold busy_count, waiting, done_count. destruct ev as [e' fn|e']; cbn [plan_step fst snd]; rewrite lookup_insert; cbn;
      repeat case_decide; subst; cbn; try done.
    - destruct (default [] (p !! e)) as [|g l]; cbn; unfold started; cbn; by rewrite ?decide_True.
    - destruct (default [] (p !! e')); cbn; unfold started; cbn; by rewrite ?decide_False.
    - apply bool_decide_eq_true in Hev. destruct (default [] (p !! e)) as [|g [|h l]]; cbn; unfold started; cbn; rewrite ?decide_True; done.
    - destruct (head _); cbn; unfold started; cbn; by rewrite ?decide_False. }
  unfold done_count in *. change (ev :: evs) with ([ev] ++ evs). rewrite omap_app, length_app. cbn [plan_all app].
  destruct (plan_step p ev) as [p1 o]. cbn [fst snd] in *. destruct (plan_all p1 evs) as [p2 l]. cbn [fst snd] in *. rewrite started_app, length_app. lia.
Qed.

(** The effects queued for an element are started in the order in which they
    are queued, each when the one before is over and none twice: the functions
    started and those that still wait are together those queued, and one runs
    at a time.  Queues of other elements do not matter. *)
Theorem fx_queue_spec run evs u : inherited fx_name = None → polite_call run → orderly_fx ∅ evs = true →
  let '(p, l) := plan_all ∅ evs in
  ∃ d m, js_each evs fx_step (JData ∅ 0 ∅, u) = (Ret (), (d, run_all run l u)) ∧ plans d p m ∧
    ∀ e, added e evs = started e l ++ tail (waiting p e) ∧
      (length (started e l) = done_count e evs + busy_count p e)%nat.
Proof.
  intros Hi Hc Ho. assert (∀ evs d p m u, plans d p m → ∃ d' m',
    js_each evs fx_step (d, u) = (Ret (), (d', run_all run (plan_all p evs).2 u)) ∧ plans d' (plan_all p evs).1 m') as Hall.
  { clear evs u Ho. induction evs as [|ev evs IH]; intros d p m u Hpl; [by exists d, m|]. cbn [js_each plan_all].
    destruct (fx_step_run run ev d p m u Hi Hc Hpl) as (d1 & m1 & Hrun & Hpl1). destruct (plan_step p ev) as [p1 o].
    destruct (IH d1 p1 m1 (run_all run (option_list o) u) Hpl1) as (d2 & m2 & Hrun2 & Hpl2). destruct (plan_all p1 evs) as [p2 l].
    exists d2, m2. rewrite (js_bind_Ret _ _ _ _ _ Hrun). cbn [snd] in *. split; [|done]. rewrite Hrun2. unfold run_all. by rewrite fold_left_app. }
  destruct (Hall evs (JData ∅ 0 ∅) ∅ ∅ u) as (d & m & Hrun & Hpl).
  { split; [split; intros *; cbn; rewrite ?lookup_empty; done|]. intros e. by rewrite !lookup_empty. }
  pose proof (λ e, plan_fifo evs e ∅) as Hf. pose proof (λ e, plan_one evs e ∅ Ho) as H1.
  destruct (plan_all ∅ evs) as [p l]. exists d, m. split_and!; [done|done|]. intros e. specialize (Hf e). specialize (H1 e).
  assert (waiting ∅ e = []) as He by (unfold waiting; by rewrite lookup_empty). rewrite He in Hf. unfold busy_count at 1 in H1. rewrite He in H1.
  split; [done|]. cbn [fst snd] in H1. lia.
Qed.
End queue.

(** ** Concrete runs *)

Definition no_inherited (_ : jsstr) : option jval := None.
Lemma data_refines_witness :
  Forall (data_ok no_inherited) [WriteData 3 (js "a") (JUser (VNum 1)); ReadData 4 (js "a"); DropData 3 (js "a")] ∧
  (call_all no_inherited [WriteData 3 (js "a") (JUser (VNum 1)); ReadData 4 (js "a"); DropData 3 (js "a")] (JData ∅ 0 ∅)).1 =
    Ret [Some (JUser (VNum 1)); None; None].
Proof.
  assert (Forall (data_ok no_inherited) [WriteData 3 (js "a") (JUser (VNum 1)); ReadData 4 (js "a"); DropData 3 (js "a")]) as Hok
    by (repeat constructor; discriminate).
  split; [exact Hok|]. destruct (data_refines no_inherited _ Hok) as (s & Hrun & _). rewrite Hrun. vm_compute. reflexivity.
Defined.

(** Two effects on one element and one on another; the second starts when the
    first is over. *)
Definition log_call (fn e : nat) : JS (jdata jval * list (nat * nat)) () := js_modify (λ s, (s.1, s.2 ++ [(e, fn)])).
Definition some_effects : list queue_event := [AddFx 3 7; AddFx 4 8; AddFx 3 9; DoneFx 3; DoneFx 4].
Lemma fx_queue_spec_witness :
  ∃ d, js_each some_effects (fx_step no_inherited log_call) (JData ∅ 0 ∅, []) = (Ret (), (d, [(3, 7); (4, 8); (3, 9)]%nat)).
Proof.
  pose proof (fx_queue_spec no_inherited log_call (λ fn e u, u ++ [(e, fn)]) some_effects [] eq_refl (λ _ _ _ _, eq_refl)) as H.
  assert (orderly_fx ∅ some_effects = true) as Ho by (vm_compute; reflexivity). specialize (H Ho).
  assert ((plan_all ∅ some_effects).2 = [(3, 7); (4, 8); (3, 9)]%nat) as Hl by (vm_compute; reflexivity).
  destruct (plan_all ∅ some_effects) as [p l]. cbn [snd] in Hl. subst l. destruct H as (d & m & Hrun & _). exists d. exact Hrun.
Defined.
