(* ===== verification/JqEvents.v ===== *)
(** * Events of jQuery (jquery-1.3.2.js: jQuery.event, bind, one, trigger)

    Handlers are function objects with a number ([guid]), on a heap, for the
    code writes to them; an element's data name its table of event types, and
    each type its object of handlers.  The code of the page's functions, its
    inline handlers and methods of elements are arguments; so is the order in
    which the browser goes through the keys of an object.  The events of
    [live] and the fields [fix] adds to the browser's events are left out. *)

From Stdlib Require Import ZArith.
From S2P Require Import Prelude JsBase JsRegex JsReplace Strings Hash JqData.
#[local] Open Scope stdpp_scope.

(** ** Definitions *)

(** The code of a function: the page's, a wrapper of another ([proxy]), the
    one of [one], which unbinds itself, and [withinElement]. *)
Inductive jcode := UserCode (fn : nat) | ProxyCode (c : jcode) | OneCode (c : jcode) | WithinCode.
Record jfun := JFun { jf_code : jcode; jf_guid : option jsstr; jf_type : jsstr; jf_data : option jsv }.

(** A jQuery event; the browser's event it was made from is not kept. *)
Record jevent := JEvent {
  e_type : jsstr; e_target : option nat; e_currentTarget : option nat; e_result : option jsv; e_exclusive : bool;
  e_prevented : bool; e_stopped : bool; e_immediate : bool; e_handler : option nat; e_data : option jsv;
}.
Definition new_event (type : jsstr) : jevent := JEvent type None None None false false false false None None.
Definition ev_type t e := JEvent t (e_target e) (e_currentTarget e) (e_result e) (e_exclusive e) (e_prevented e) (e_stopped e) (e_immediate e) (e_handler e) (e_data e).
Definition ev_exclusive e := JEvent (e_type e) (e_target e) (e_currentTarget e) (e_result e) true (e_prevented e) (e_stopped e) (e_immediate e) (e_handler e) (e_data e).
Definition ev_target t e := JEvent (e_type e) t (e_currentTarget e) (e_result e) (e_exclusive e) (e_prevented e) (e_stopped e) (e_immediate e) (e_handler e) (e_data e).
Definition ev_current t e := JEvent (e_type e) (e_target e) t (e_result e) (e_exclusive e) (e_prevented e) (e_stopped e) (e_immediate e) (e_handler e) (e_data e).
Definition ev_result r e := JEvent (e_type e) (e_target e) (e_currentTarget e) r (e_exclusive e) (e_prevented e) (e_stopped e) (e_immediate e) (e_handler e) (e_data e).
Definition ev_handler h d e := JEvent (e_type e) (e_target e) (e_currentTarget e) (e_result e) (e_exclusive e) (e_prevented e) (e_stopped e) (e_immediate e) (Some h) d.
(** [preventDefault], [stopPropagation] and [stopImmediatePropagation] *)
Definition ev_prevent e := JEvent (e_type e) (e_target e) (e_currentTarget e) (e_result e) (e_exclusive e) true (e_stopped e) (e_immediate e) (e_handler e) (e_data e).
Definition ev_stop e := JEvent (e_type e) (e_target e) (e_currentTarget e) (e_result e) (e_exclusive e) (e_prevented e) true (e_immediate e) (e_handler e) (e_data e).
Definition ev_immediate e := JEvent (e_type e) (e_target e) (e_currentTarget e) (e_result e) (e_exclusive e) (e_prevented e) true true (e_handler e) (e_data e).

Record jstore := JStore {
  w_funs : gmap nat jfun;
  w_tables : gmap nat (list (jsstr * nat));       (* the objects [events] *)
  w_handlers : gmap nat (list (jsstr * nat));     (* their objects of handlers *)
  w_handles : gmap nat (option nat);              (* the elem of the functions [handle] *)
  w_events : gmap nat jevent;
  w_listeners : list (nat * jsstr * nat);         (* addEventListener *)
  w_guid : nat; w_global : list jsstr; w_triggered : bool;
  w_next : nat;                                   (* addresses are below *)
}.
Definition with_funs f w := JStore (f (w_funs w)) (w_tables w) (w_handlers w) (w_handles w) (w_events w) (w_listeners w) (w_guid w) (w_global w) (w_triggered w) (w_next w).
Definition with_tables f w := JStore (w_funs w) (f (w_tables w)) (w_handlers w) (w_handles w) (w_events w) (w_listeners w) (w_guid w) (w_global w) (w_triggered w) (w_next w).
Definition with_handlers f w := JStore (w_funs w) (w_tables w) (f (w_handlers w)) (w_handles w) (w_events w) (w_listeners w) (w_guid w) (w_global w) (w_triggered w) (w_next w).
Definition with_handles f w := JStore (w_funs w) (w_tables w) (w_handlers w) (f (w_handles w)) (w_events w) (w_listeners w) (w_guid w) (w_global w) (w_triggered w) (w_next w).
Definition with_events f w := JStore (w_funs w) (w_tables w) (w_handlers w) (w_handles w) (f (w_events w)) (w_listeners w) (w_guid w) (w_global w) (w_triggered w) (w_next w).
Definition with_listeners f w := JStore (w_funs w) (w_tables w) (w_handlers w) (w_handles w) (w_events w) (f (w_listeners w)) (w_guid w) (w_global w) (w_triggered w) (w_next w).
Definition with_guid n w := JStore (w_funs w) (w_tables w) (w_handlers w) (w_handles w) (w_events w) (w_listeners w) n (w_global w) (w_triggered w) (w_next w).
Definition with_global t w := JStore (w_funs w) (w_tables w) (w_handlers w) (w_handles w) (w_events w) (w_listeners w) (w_guid w) (t :: w_global w) (w_triggered w) (w_next w).
Definition with_triggered b w := JStore (w_funs w) (w_tables w) (w_handlers w) (w_handles w) (w_events w) (w_listeners w) (w_guid w) (w_global w) b (w_next w).
Definition with_next w := JStore (w_funs w) (w_tables w) (w_handlers w) (w_handles w) (w_events w) (w_listeners w) (w_guid w) (w_global w) (w_triggered w) (S (w_next w)).

(** Strings in the order of their code units, as [sort] takes them. *)
Fixpoint str_leb (a b : jsstr) : bool :=
  match a, b with
  | [], _ => true
  | _ :: _, [] => false
  | c :: a, d :: b => if (c =? d)%N then str_leb a b else (c <? d)%N
  end.
Fixpoint insert_name (x : jsstr) (l : list jsstr) : list jsstr :=
  match l with [] => [x] | y :: l => if str_leb x y then x :: y :: l else y :: insert_name x l end.
Definition sort_names (l : list jsstr) : list jsstr := foldr insert_name [] l.
(** A type with its namespaces. *)
Definition split_type (s : jsstr) : jsstr * list jsstr := match split s (js ".") with t :: ns => (t, ns) | [] => ([], []) end.
Definition join_names (ns : list jsstr) : jsstr := join (js ".") (sort_names ns).
(** The expression of the names between dots, in order, for names without
    characters that are special in expressions. *)
Fixpoint names_rx (ns : list jsstr) : rx :=
  match ns with
  | [] => REps
  | [n] => RStr n
  | n :: ns => (RStr n +++ RStar true (RChar dot) +++ RLit 46 +++ names_rx ns)%rx
  end.
Definition namespace_rx (ns : list jsstr) : rx :=
  (RGroup 1 (RBol <|> RLit 46) +++ names_rx (sort_names ns) +++ RGroup 2 (RLit 46 <|> REol))%rx.
Definition namespace_test (ns : list jsstr) (type : jsstr) : bool := rx_test (namespace_rx ns) type.

(** The first property that [for in] finds, and whether its name is true. *)
Definition first_key {B} (order : list jsstr → list jsstr) (o : list (jsstr * B)) (ret : option jsstr) : option jsstr :=
  match order o.*1 with k :: _ => Some k | [] => ret end.
Definition key_true (ret : option jsstr) : bool := match ret with Some (_ :: _) => true | _ => false end.

Section events.
Context {U : Type}.
Abbreviation W := (jdata jval * (jstore * U))%type.
(** What an object has by inheritance, and the order in which the browser goes
    through keys. *)
Context (inherited : jsstr → option jval) (key_order : list jsstr → list jsstr).
(** The page: its functions, called on an element with an event and further
    arguments; its nodes; [elem[type]()] and [elem["on" + type]]. *)
Context (user_code : nat → nat → nat → list jsv → JS W (option jsv)).
Context (text_node is_link : U → nat → bool) (parentNode ownerDocument : U → nat → option nat) (depth : U → nat).
Context (has_method has_inline : U → nat → jsstr → bool) (run_method : nat → jsstr → JS W ()).
Context (run_inline : nat → jsstr → nat → list jsv → JS W (option jsv)) (relatedTarget : U → nat → option nat) (bindReady : JS W ()) (window : nat).

Definition store : JS W jstore := js_gets (λ s, s.2.1).
Definition user : JS W U := js_gets (λ s, s.2.2).
Definition change (f : jstore → jstore) : JS W () := js_modify (λ s, (s.1, (f s.2.1, s.2.2))).
Definition alloc : JS W nat := w ← store; change with_next ;; mret (w_next w).
Definition get_fun (fn : nat) : JS W jfun := w ← store; match w_funs w !! fn with Some f => mret f | None => js_throw ETypeError end.
Definition set_fun (fn : nat) (f : jfun) : JS W () := change (with_funs (<[fn := f]>)).
Definition get_event (ev : nat) : JS W jevent := w ← store; match w_events w !! ev with Some e => mret e | None => js_throw ETypeError end.
Definition change_jevent (ev : nat) (f : jevent → jevent) : JS W () := change (with_events (alter f ev)).
Definition read_data (elem : nat) (name : jsstr) : JS W (option jval) :=
  r ← on_data (jquery_data inherited elem name None); mret (match r with TheValue o => o | TheId _ => None end).
Definition write_data (elem : nat) (name : jsstr) (v : jval) : JS W () := on_data (jquery_data inherited elem name (Some v)) ;; mret ().
Definition table_at (w : jstore) (table : nat) : list (jsstr * nat) := default [] (w_tables w !! table).
Definition handlers_at (w : jstore) (h : nat) : list (jsstr * nat) := default [] (w_handlers w !! h).

(** *** Binding *)

(** [jQuery.data(elem, "events") || jQuery.data(elem, "events", {})], and the
    function [handle]. *)
Definition events_of (elem : nat) : JS W nat :=
  r ← read_data elem (js "events");
  match r with
  | Some (JEvents table) => mret table
  | Some _ => js_throw ETypeError
  | None => a ← alloc; change (with_tables (<[a := []]>)) ;; write_data elem (js "events") (JEvents a) ;; mret a
  end.
Definition handle_of (elem : nat) : JS W nat :=
  r ← read_data elem (js "handle");
  match r with
  | Some (JHandle handle) => mret handle
  | Some _ => js_throw ETypeError
  | None => a ← alloc; change (with_handles (<[a := None]>)) ;; write_data elem (js "handle") (JHandle a) ;; mret a
  end.
(** [fn.guid || this.guid++] *)
Definition guid_of (fn : nat) : JS W jsstr :=
  f ← get_fun fn;
  match jf_guid f with
  | Some g => mret g
  | None =>
      w ← store;
      let g := num_str (Z.of_nat (w_guid w)) in
      change (with_guid (S (w_guid w))) ;; set_fun fn (JFun (jf_code f) (Some g) (jf_type f) (jf_data f)) ;; mret g
  end.
(** [proxy(fn, wrapper)]: a function object of its own with the same number. *)
Definition proxy (fn : nat) (wrap : jcode → jcode) (data : option jsv) : JS W nat :=
  g ← guid_of fn; f ← get_fun fn; a ← alloc; set_fun a (JFun (wrap (jf_code f)) (Some g) [] data) ;; mret a.
Definition listen_to (elem : nat) (type : jsstr) (handle : nat) : JS W () :=
  change (with_listeners (λ l, if bool_decide ((elem, type, handle) ∈ l) then l else l ++ [(elem, type, handle)])).
Definition unlisten (elem : nat) (type : jsstr) (handle : nat) : JS W () :=
  change (with_listeners (filter (λ x, x ≠ (elem, type, handle)))).

(** The body of the loop of [add] over the types. *)
Definition add_type (setup : jsstr → option (JS W ())) (elem table handle fn : nat) (type : jsstr) : JS W () :=
  let '(type, namespaces) := split_type type in
  f ← get_fun fn;
  set_fun fn (JFun (jf_code f) (jf_guid f) (join_names namespaces) (jf_data f)) ;;
  w ← store;
  h ← match assoc_get type (table_at w table) with
      | Some h => mret h
      | None =>
          h ← alloc;
          change (with_handlers (<[h := []]>)) ;;
          change (with_tables (alter (assoc_set type h) table)) ;;
          match setup type with Some m => m | None => listen_to elem type handle end ;;
          mret h
      end;
  g ← guid_of fn;
  change (with_handlers (alter (assoc_set g fn) h)) ;;
  change (with_global type).
Definition add_with (setup : nat → jsstr → option (JS W ())) (elem : nat) (types : jsstr) (fn : nat) (data : option jsv) : JS W () :=
  u ← user;
  if text_node u elem then mret ()
  else
    guid_of fn ;;
    fn ← match data with Some d => proxy fn ProxyCode (Some d) | None => mret fn end;
    table ← events_of elem;
    handle ← handle_of elem;
    change (with_handles (<[handle := Some elem]>)) ;;
    js_each (split_spaces types) (add_type (setup elem) elem table handle fn).
(** The function object [withinElement]. *)
Definition within_fun : nat := 0.
(** [jQuery.event.special]: mouseenter and mouseleave are bound to the types
    they are made of, which are no special ones. *)
Definition mouse_types (type : jsstr) : option jsstr :=
  if bool_decide (type = js "mouseenter") then Some (js "mouseover")
  else if bool_decide (type = js "mouseleave") then Some (js "mouseout") else None.
Definition special_setup (elem : nat) (type : jsstr) : option (JS W ()) :=
  match mouse_types type with
  | Some orig => Some (add_with (λ _ _, None) elem orig within_fun (Some (VStr type)))
  | None => if bool_decide (type = js "ready") then Some bindReady else None
  end.
(** [jQuery.event.add(elem, types, handler, data)] *)
Definition event_add : nat → jsstr → nat → option jsv → JS W () := add_with special_setup.

(** *** Unbinding *)

(** The loop of [remove] over a type's handlers. *)
Fixpoint remove_named (namespaces : list jsstr) (h : nat) (keys : list jsstr) : JS W () :=
  match keys with
  | [] => mret ()
  | k :: keys =>
      w ← store;
      match assoc_get k (handlers_at w h) with
      | Some fn => f ← get_fun fn; js_when (namespace_test namespaces (jf_type f)) (change (with_handlers (alter (assoc_del k) h)))
      | None => mret ()
      end ;;
      remove_named namespaces h keys
  end.
(** The body of the loop over the types; [ret] is the variable of the call. *)
Definition remove_type (teardown : nat → jsstr → option (JS W ())) (elem table : nat) (handler : option nat) (ret : option jsstr) (type : jsstr) :
    JS W (option jsstr) :=
  let '(type, namespaces) := split_type type in
  w ← store;
  match assoc_get type (table_at w table) with
  | None => mret ret
  | Some h =>
      match handler with
      | Some fn =>
          f ← get_fun fn;
          match jf_guid f with Some g => change (with_handlers (alter (assoc_del g) h)) | None => mret () end
      | None => remove_named namespaces h (key_order (handlers_at w h).*1)
      end ;;
      w ← store;
      let ret := first_key key_order (handlers_at w h) ret in
      if key_true ret then mret ret
      else
        match teardown elem type with
        | Some m => m
        | None =>
            handle ← read_data elem (js "handle");
            match handle with Some (JHandle handle) => unlisten elem type handle | _ => mret () end
        end ;;
        change (with_tables (alter (assoc_del type) table)) ;;
        mret None
  end.
Fixpoint remove_types teardown (elem table : nat) (handler : option nat) (ret : option jsstr) (types : list jsstr) : JS W (option jsstr) :=
  match types with
  | [] => mret ret
  | type :: types => ret ← remove_type teardown elem table handler ret type; remove_types teardown elem table handler ret types
  end.
(** The end of [remove]: without types left the data go. *)
Definition remove_rest (elem table : nat) (ret : option jsstr) : JS W () :=
  w ← store;
  if key_true (first_key key_order (table_at w table) ret) then mret ()
  else
    handle ← read_data elem (js "handle");
    match handle with Some (JHandle handle) => change (with_handles (<[handle := None]>)) | _ => mret () end ;;
    on_data (removeData elem (js "events")) ;;
    on_data (removeData elem (js "handle")).
Definition remove_with teardown (elem : nat) (types : jsstr) (handler : option nat) : JS W () :=
  u ← user;
  if text_node u elem then mret ()
  else
    r ← read_data elem (js "events");
    match r with
    | Some (JEvents table) => ret ← remove_types teardown elem table handler None (split_spaces types); remove_rest elem table ret
    | Some _ => js_throw ETypeError
    | None => mret ()
    end.
Definition special_teardown (elem : nat) (type : jsstr) : option (JS W ()) :=
  match mouse_types type with
  | Some orig => Some (remove_with (λ _ _, None) elem orig (Some within_fun))
  | None => if bool_decide (type = js "ready") then Some (mret ()) else None
  end.
(** A name of a type alone in front of namespaces; without a name the call
    repeats itself until the stack is full. *)
Definition remove_named_type (elem : nat) (suffix : jsstr) (type : jsstr) : JS W () :=
  match type, suffix with
  | [], _ :: _ => js_throw (EUser 3)
  | _, _ => remove_with special_teardown elem (type ++ suffix) None
  end.
Definition remove_all (elem : nat) (suffix : jsstr) : JS W () :=
  u ← user;
  if text_node u elem then mret ()
  else
    r ← read_data elem (js "events");
    match r with
    | Some (JEvents table) =>
        w ← store;
        js_each (key_order (table_at w table).*1) (λ type,
          w ← store; js_when (bool_decide (is_Some (assoc_get type (table_at w table)))) (remove_named_type elem suffix type)) ;;
        remove_rest elem table None
    | Some _ => js_throw ETypeError
    | None => mret ()
    end.
(** [jQuery.event.remove(elem, types, handler)] *)
Definition event_remove (elem : nat) (types : option jsstr) (handler : option nat) : JS W () :=
  match types with
  | None => remove_all elem []
  | Some types => if is_prefix (js ".") types then remove_all elem types else remove_with special_teardown elem types handler
  end.

(** *** Handling *)

(** The code of a function with [this], the event and further arguments;
    the function of [one] unbinds what the event says is handled. *)
Fixpoint run_code (within : nat → nat → list jsv → JS W (option jsv)) (c : jcode) (this ev : nat) (args : list jsv) : JS W (option jsv) :=
  match c with
  | UserCode fn => user_code fn this ev args
  | ProxyCode c => run_code within c this ev args
  | OneCode c =>
      e ← get_event ev;
      (if bool_decide (e_type e = []) then js_throw ETypeError else remove_with special_teardown this (e_type e) (e_handler e)) ;;
      run_code within c this ev args
  | WithinCode => within this ev args
  end.
Definition is_false (v : jsv) : bool := match v with VBool false => true | _ => false end.
(** The loop of [handle] over the keys of the handlers; what is gone by then
    is not called. *)
Fixpoint handle_loop within (this ev : nat) (args : list jsv) (all : bool) (namespaces : list jsstr) (h : nat) (keys : list jsstr) : JS W () :=
  match keys with
  | [] => mret ()
  | k :: keys =>
      w ← store;
      match assoc_get k (handlers_at w h) with
      | None => handle_loop within this ev args all namespaces h keys
      | Some fn =>
          f ← get_fun fn;
          if all || namespace_test namespaces (jf_type f) then
            change_jevent ev (ev_handler fn (jf_data f)) ;;
            ret ← run_code within (jf_code f) this ev args;
            match ret with
            | Some v => change_jevent ev (ev_result (Some v)) ;; js_when (is_false v) (change_jevent ev (λ e, ev_stop (ev_prevent e)))
            | None => mret ()
            end ;;
            e ← get_event ev;
            if e_immediate e then mret () else handle_loop within this ev args all namespaces h keys
          else handle_loop within this ev args all namespaces h keys
      end
  end.
(** [jQuery.event.handle], called on [this] with a jQuery event. *)
Definition handle_with within (this ev : nat) (args : list jsv) : JS W () :=
  change_jevent ev (ev_current (Some this)) ;;
  e ← get_event ev;
  let '(type, namespaces) := split_type (e_type e) in
  change_jevent ev (ev_type type) ;;
  let all := bool_decide (namespaces = []) && negb (e_exclusive e) in
  r ← read_data this (js "events");
  w ← store;
  match r with
  | Some (JEvents table) =>
      match assoc_get type (table_at w table) with
      | Some h => handle_loop within this ev args all namespaces h (key_order (handlers_at w h).*1)
      | None => mret ()
      end
  | _ => mret ()
  end.
(** [withinElement]: nothing while the mouse stays inside; the handlers of
    mouseenter and mouseleave are never this function. *)
Fixpoint climbs (fuel : nat) (u : U) (o : option nat) (this : nat) : bool :=
  match fuel, o with
  | S fuel, Some x => if bool_decide (x = this) then true else climbs fuel u (parentNode u x) this
  | _, _ => false
  end.
Definition no_within (this ev : nat) (args : list jsv) : JS W (option jsv) := js_throw (EUser 4).
Definition withinElement (this ev : nat) (args : list jsv) : JS W (option jsv) :=
  u ← user;
  if climbs (S (depth u)) u (relatedTarget u ev) this then mret None
  else
    e ← get_event ev;
    change_jevent ev (ev_type (match e_data e with Some v => string_of v | None => js "undefined" end)) ;;
    handle_with no_within this ev args ;;
    mret None.
Definition event_handle : nat → nat → list jsv → JS W () := handle_with withinElement.
(** The function [handle] of an element's data. *)
Definition call_handle (handle ev : nat) (args : list jsv) : JS W () :=
  w ← store;
  if w_triggered w then mret ()
  else event_handle (match w_handles w !! handle with Some (Some elem) => elem | _ => window end) ev args.
(** The browser calls the listeners of an element, each with an event of its
    own after [fix]. *)
Definition make_event (type : jsstr) : JS W nat := a ← alloc; change (with_events (<[a := new_event type]>)) ;; mret a.
Definition browser_event (elem : nat) (type : jsstr) : JS W () :=
  w ← store;
  js_each (filter (λ x, x.1 = (elem, type)) (w_listeners w)) (λ x,
    w ← store;
    js_when (bool_decide (x ∈ w_listeners w)) (ev ← make_event type; change_jevent ev (ev_target (Some elem)) ;; call_handle x.2 ev [])).

(** *** Triggering *)

Definition js_link_click (u : U) (elem : nat) (type : jsstr) : bool := is_link u elem && bool_decide (type = js "click").
(** [trigger] on one element of the way up; [first] is [!bubbling]. *)
Definition trigger_at (first : bool) (ev : nat) (args : list jsv) (elem : nat) (type : jsstr) : JS W () :=
  change_jevent ev (ev_current (Some elem)) ;;
  r ← read_data elem (js "handle");
  match r with Some (JHandle handle) => call_handle handle ev args | Some _ => js_throw ETypeError | None => mret () end ;;
  u ← user;
  (if (negb (has_method u elem type) || js_link_click u elem type) && has_inline u elem type then
     ret ← run_inline elem type ev args;
     js_when (match ret with Some v => is_false v | None => false end) (change_jevent ev (ev_result (Some (VBool false))))
   else mret ()) ;;
  e ← get_event ev;
  u ← user;
  js_when (first && has_method u elem type && negb (e_prevented e) && negb (js_link_click u elem type))
    (change (with_triggered true) ;; js_try (run_method elem type) (λ _, mret ())) ;;
  change (with_triggered false).
Definition parent_of_elem (u : U) (elem : nat) : option nat :=
  match parentNode u elem with Some p => Some p | None => ownerDocument u elem end.
(** The recursion of [trigger]; a way up is as long as the document is deep. *)
Fixpoint trigger_up (fuel : nat) (first : bool) (ev : nat) (args : list jsv) (elem : nat) : JS W () :=
  e ← get_event ev;
  trigger_at first ev args elem (e_type e) ;;
  e ← get_event ev;
  if e_stopped e then mret ()
  else
    u ← user;
    match parent_of_elem u elem, fuel with
    | None, _ => mret ()
    | Some p, S fuel => trigger_up fuel false ev args p
    | Some _, O => js_throw (EUser 4)
    end.
Definition trigger_elem (ev : nat) (args : list jsv) (elem : nat) : JS W () :=
  u ← user;
  if text_node u elem then mret ()
  else
    change_jevent ev (λ e, ev_target (Some elem) (ev_result None e)) ;;
    trigger_up (depth u) true ev args elem.
(** [trigger] without an element: every element that has the type; with a
    function [handle] of no element the call repeats itself. *)
Definition trigger_global (ev : nat) (args : list jsv) (type : jsstr) : JS W () :=
  change_jevent ev ev_stop ;;
  w ← store;
  js_when (bool_decide (type ∈ w_global w))
    (s ← js_get;
     let ids := (λ p, (num_str (Z.of_nat p.1), p.1)) <$> map_to_list (cache s.1) in
     js_each (key_order ids.*1) (λ k,
       s ← js_get;
       match assoc_get k ids ≫= λ id, cache s.1 !! id with
       | Some o =>
           match assoc_get (js "events") o with
           | Some (JEvents table) =>
               js_when (bool_decide (is_Some (assoc_get type (table_at s.2.1 table))))
                 match assoc_get (js "handle") o with
                 | Some (JHandle handle) =>
                     match w_handles s.2.1 !! handle with Some (Some elem) => trigger_elem ev args elem | _ => js_throw (EUser 3) end
                 | _ => js_throw ETypeError
                 end
           | _ => mret ()
           end
       | None => mret ()
       end)).
(** What [trigger] takes: a type or a jQuery event; plain objects are left out. *)
Inductive trigger_arg := TypeName (type : jsstr) | EventObject (ev : nat).
(** [jQuery.event.trigger(event, data, elem)]; gives the event. *)
Definition event_trigger (arg : trigger_arg) (args : list jsv) (elem : option nat) : JS W nat :=
  ev ← match arg with TypeName type => make_event type | EventObject ev => mret ev end;
  e ← get_event ev;
  (if -1 <? indexOf (e_type e) (js "!") then change_jevent ev (λ e, ev_exclusive (ev_type (slice (e_type e) 0 (-1)) e)) else mret ())%Z ;;
  e ← get_event ev;
  match elem with
  | None => trigger_global ev args (e_type e)
  | Some elem => trigger_elem ev args elem
  end ;;
  mret ev.

(** *** The methods of jQuery objects *)

Definition fn_bind_each (elems : list nat) (type : jsstr) (fn : nat) (data : option jsv) : JS W () :=
  js_each elems (λ elem, event_add elem type fn data).
Definition fn_one (elems : list nat) (type : jsstr) (fn : nat) (data : option jsv) : JS W () :=
  one ← proxy fn OneCode None; fn_bind_each elems type one data.
Definition fn_bind (elems : list nat) (type : jsstr) (fn : nat) (data : option jsv) : JS W () :=
  if bool_decide (type = js "unload") then fn_one elems type fn data else fn_bind_each elems type fn data.
Definition fn_unbind (elems : list nat) (type : option jsstr) (fn : option nat) : JS W () :=
  js_each elems (λ elem, event_remove elem type fn).
Definition fn_trigger (elems : list nat) (type : jsstr) (args : list jsv) : JS W () :=
  js_each elems (λ elem, event_trigger (TypeName type) args (Some elem) ;; mret ()).
Definition fn_triggerHandler (elems : list nat) (type : jsstr) (args : list jsv) : JS W (option jsv) :=
  match elems with
  | [] => mret None
  | elem :: _ =>
      ev ← make_event type;
      change_jevent ev (λ e, ev_stop (ev_prevent e)) ;;
      event_trigger (EventObject ev) args (Some elem) ;;
      e ← get_event ev; mret (e_result e)
  end.
Definition fn_hover (elems : list nat) (over out : nat) : JS W () :=
  fn_bind elems (js "mouseenter") over None ;; fn_bind elems (js "mouseleave") out None.
(** [$(elems).data(key)]; the names after the second are not looked at. *)
Definition key_parts (key : jsstr) : jsstr * jsstr :=
  match split key (js ".") with
  | p0 :: (_ :: _) as p1 :: _ => (p0, js "." ++ p1)
  | p0 :: _ => (p0, [])
  | [] => ([], [])
  end.
Definition data_here (elems : list nat) (key : jsstr) : JS W (option jval) :=
  let '(p0, p1) := key_parts key in
  r ← fn_triggerHandler elems (js "getData" ++ p1 ++ js "!") [VStr p0];
  match r, elems with
  | Some v, _ => mret (Some (JUser v))
  | None, elem :: _ => read_data elem key
  | None, [] => mret None
  end.
Definition fn_data (elems : list nat) (key : jsstr) : JS W (option jval) :=
  o ← data_here elems key;
  let '(p0, p1) := key_parts key in
  match o, p1 with None, _ :: _ => data_here elems p0 | _, _ => mret o end.
Definition fn_set_data (elems : list nat) (key : jsstr) (value : jsv) : JS W () :=
  let '(p0, p1) := key_parts key in
  fn_trigger elems (js "setData" ++ p1 ++ js "!") [VStr p0; value] ;;
  js_each elems (λ elem, write_data elem key (JUser value)).

(** ** An event on its way *)

(** What code does that sees and changes the event and what is the page's own
    alone: page functions, inline handlers and methods of elements. *)
Abbreviation EU := (jevent * U)%type.
Context (page_code : nat → nat → list jsv → JS EU (option jsv)) (inline_code : nat → jsstr → list jsv → JS EU (option jsv)) (method_code : nat → jsstr → JS EU ()).
Definition at_event (d : jdata jval) (w : jstore) (ev : nat) (e : jevent) (u : U) : W := (d, (with_events (<[ev := e]>) w, u)).
Definition follows {A} (ev : nat) (c : JS W A) (c' : JS EU A) : Prop := ∀ d w e u,
  c (at_event d w ev e u) = let '(r, (e', u')) := c' (e, u) in (r, at_event d w ev e' u').
Record polite_page (ev : nat) : Prop := {
  pp_function fn this args : follows ev (user_code fn this ev args) (page_code fn this args);
  pp_inline elem type args : follows ev (run_inline elem type ev args) (inline_code elem type args);
  pp_method elem type : follows ev (run_method elem type) (method_code elem type);
}.
Fixpoint plain_code (c : jcode) : option nat :=
  match c with UserCode fn => Some fn | ProxyCode c => plain_code c | OneCode _ | WithinCode => None end.

(** The functions called one after another: the event says which is handled
    and with which data and keeps the last value, [false] stops it, and no
    more are called once [stopImmediatePropagation] is. *)
Definition on_event (f : jevent → jevent) : JS EU () := js_modify (λ s, (f s.1, s.2)).
Fixpoint calls (this : nat) (args : list jsv) (fns : list (nat * jfun)) : JS EU () :=
  match fns with
  | [] => mret ()
  | (fn, f) :: fns =>
      on_event (ev_handler fn (jf_data f)) ;;
      ret ← page_code (default 0%nat (plain_code (jf_code f))) this args;
      match ret with
      | Some v => on_event (λ e, let e := ev_result (Some v) e in if is_false v then ev_stop (ev_prevent e) else e)
      | None => mret ()
      end ;;
      e ← js_gets fst;
      if e_immediate e then mret () else calls this args fns
  end.
(** The functions of an object of handlers in the browser's order; those that
    the namespaces of the event leave. *)
Definition functions_in (w : jstore) (h : nat) (keys : list jsstr) : list (nat * jfun) :=
  omap (λ k, match assoc_get k (handlers_at w h) with Some fn => (λ f, (fn, f)) <$> w_funs w !! fn | None => None end) keys.
Definition called_for (all : bool) (namespaces : list jsstr) (l : list (nat * jfun)) : list (nat * jfun) :=
  List.filter (λ x, all || namespace_test namespaces (jf_type x.2)) l.
Definition plain_handlers (w : jstore) (h : nat) : Prop := ∀ k fn, assoc_get k (handlers_at w h) = Some fn →
  ∃ f, w_funs w !! fn = Some f ∧ is_Some (plain_code (jf_code f)).
(** What an element's data lead to: the functions bound for a type. *)
Definition bound_to (m : gmap (nat * jsstr) jval) (w : jstore) (elem : nat) (type : jsstr) : option nat :=
  match m !! (elem, js "events") with Some (JEvents table) => assoc_get type (table_at w table) | _ => None end.
Definition functions_of (m : gmap (nat * jsstr) jval) (w : jstore) (elem : nat) (type : jsstr) : list (nat * jfun) :=
  match bound_to m w elem type with Some h => functions_in w h (key_order (handlers_at w h).*1) | None => [] end.

(** What an element makes of an event that comes to it: the bound functions,
    the inline handler, and on the first element the method of the name. *)
Definition handled m w (args : list jsv) (elem : nat) : JS EU () :=
  e ← js_gets fst;
  let '(type, namespaces) := split_type (e_type e) in
  on_event (ev_type type) ;;
  calls elem args (called_for (bool_decide (namespaces = []) && negb (e_exclusive e)) namespaces (functions_of m w elem type)).
Definition own_way (first : bool) (args : list jsv) (elem : nat) (type : jsstr) : JS EU () :=
  u ← js_gets snd;
  (if (negb (has_method u elem type) || js_link_click u elem type) && has_inline u elem type then
     ret ← inline_code elem type args;
     js_when (match ret with Some v => is_false v | None => false end) (on_event (ev_result (Some (VBool false))))
   else mret ()) ;;
  e ← js_gets fst;
  u ← js_gets snd;
  js_when (first && has_method u elem type && negb (e_prevented e) && negb (js_link_click u elem type))
    (js_try (method_code elem type) (λ _, mret ())).
Definition answer m w (first : bool) (args : list jsv) (elem : nat) : JS EU () :=
  e ← js_gets fst;
  on_event (ev_current (Some elem)) ;;
  match m !! (elem, js "handle") with Some _ => handled m w args elem | None => mret () end ;;
  own_way first args elem (e_type e).
(** The event goes to each element of its way in turn, until one stops it. *)
Fixpoint along m w (first : bool) (args : list jsv) (path : list nat) : JS EU () :=
  match path with
  | [] => mret ()
  | elem :: path =>
      answer m w first args elem ;;
      e ← js_gets fst;
      if e_stopped e then mret () else along m w false args path
  end.
(** The elements from one up, in a document that stays as it is. *)
Inductive way_up : nat → list nat → Prop :=
| way_end x : (∀ u, parent_of_elem u x = None) → way_up x [x]
| way_cons x p l : (∀ u, parent_of_elem u x = Some p) → way_up p l → way_up x (x :: l).
(** On the way no function is bound by [one], mouseenter or mouseleave, and
    the data named handle are jQuery's. *)
Record plain_way (m : gmap (nat * jsstr) jval) (w : jstore) (path : list nat) : Prop := {
  pw_plain x type h : x ∈ path → bound_to m w x type = Some h → plain_handlers w h;
  pw_handle x v : x ∈ path → m !! (x, js "handle") = Some v → ∃ handle, v = JHandle handle ∧ w_handles w !! handle = Some (Some x);
  pw_quiet : w_triggered w = false;
}.
Definition no_names : Prop := inherited (js "events") = None ∧ inherited (js "handle") = None.
Lemma read_state d m w u elem name : stores d m → name ≠ [] → inherited name = None → ∃ d', stores d' m ∧
  read_data elem name (d, (w, u)) = (Ret (m !! (elem, name)), (d', (w, u))).
Proof.
  intros Hs Hn Hi. destruct (data_read_run inherited d m elem name Hs Hn Hi) as (d' & Hrun & Hs'). exists d'. split; [done|].
  unfold read_data. by rewrite (js_bind_Ret _ _ _ _ _ (on_data_run _ _ (w, u) _ _ Hrun)).
Qed.

(** Code runs as a computation on the event and the page: jQuery's data and
    tables are as they were. *)
Section one_event.
Context (m : gmap (nat * jsstr) jval) (w : jstore) (ev : nat) (polite : polite_page ev) (Hquiet : w_triggered w = false).
Definition runs {A} (c : JS W A) (c' : JS EU A) : Prop := ∀ d e u, stores d m →
  let '(r, (e', u')) := c' (e, u) in ∃ d', stores d' m ∧ c (at_event d w ev e u) = (r, at_event d' w ev e' u').
Lemma runs_follows {A} (c : JS W A) c' : follows ev c c' → runs c c'.
Proof. intros H d e u Hs. specialize (H d w e u). destruct (c' (e, u)) as [r [e' u']]. by exists d. Qed.
Lemma runs_then {A B} (c : JS W A) c' (k : A → JS W B) k' : runs c c' → (∀ a, runs (k a) (k' a)) → runs (c ≫= k) (c' ≫= k').
Proof.
  intros H Hk d e u Hs. specialize (H d e u Hs). unfold mbind, js_mbind. destruct (c' (e, u)) as [r [e1 u1]]. destruct H as (d1 & Hs1 & ->).
  destruct r as [a|x]; [exact (Hk a d1 e1 u1 Hs1)|by exists d1].
Qed.
Lemma runs_value {A} (a : A) : runs (mret a) (mret a).
Proof. intros d e u Hs. by exists d. Qed.
Lemma runs_eq {A} (c : JS W A) (c' c'' : JS EU A) : runs c c' → (∀ s, c'' s = c' s) → runs c c''.
Proof. intros H He d e u Hs. rewrite He. by apply H. Qed.
Lemma change_event_at d f e u : change_jevent ev f (at_event d w ev e u) = (Ret (), at_event d w ev (f e) u).
Proof. unfold at_event, change_jevent, change, js_modify, with_events. cbn. by rewrite alter_insert_eq. Qed.
Lemma get_event_at d e u : get_event ev (at_event d w ev e u) = (Ret e, at_event d w ev e u).
Proof. unfold get_event, store. rewrite js_bind_gets. cbn. by rewrite lookup_insert_eq. Qed.
Lemma runs_change f : runs (change_jevent ev f) (on_event f).
Proof. intros d e u Hs. exists d. split; [done|apply change_event_at]. Qed.
Lemma runs_event : runs (get_event ev) (js_gets fst).
Proof. intros d e u Hs. exists d. split; [done|apply get_event_at]. Qed.
Lemma runs_user : runs user (js_gets snd).
Proof. intros d e u Hs. by exists d. Qed.
Lemma runs_store {A} (k : jstore → JS W A) k' : (∀ e, runs (k (with_events (<[ev := e]>) w)) k') → runs (store ≫= k) k'.
Proof. intros H d e u Hs. unfold store. rewrite js_bind_gets. exact (H e d e u Hs). Qed.
Lemma runs_fun fn f : w_funs w !! fn = Some f → runs (get_fun fn) (mret f).
Proof. intros Hf d e u Hs. exists d. split; [done|]. unfold get_fun, store. rewrite js_bind_gets. cbn. by rewrite Hf. Qed.
Lemma runs_read elem name : name ≠ [] → inherited name = None → runs (read_data elem name) (mret (m !! (elem, name))).
Proof. intros Hn Hi d e u Hs. by apply read_state. Qed.
Lemma runs_guarded b (c : JS W ()) c' : runs c c' → runs (js_when b c) (js_when b c').
Proof. intros H. destruct b; [done|apply runs_value]. Qed.
(** A value that is known goes into what follows. *)
Lemma runs_known {A B} (c : JS W A) a (k : A → JS W B) k' : runs c (mret a) → runs (k a) k' → runs (c ≫= k) k'.
Proof. intros H Hk d e u Hs. destruct (H d e u Hs) as (d1 & Hs1 & Hc). rewrite (js_bind_Ret _ _ _ _ _ Hc). by apply Hk. Qed.

Lemma code_runs within c fn this args : plain_code c = Some fn → runs (run_code within c this ev args) (page_code fn this args).
Proof using polite.
  induction c as [n|c IH|c _|]; cbn [plain_code run_code]; try done. intros [= ->]. apply runs_follows, polite.
Qed.
Lemma handle_loop_runs within this args all namespaces h : plain_handlers w h → ∀ keys,
  runs (handle_loop within this ev args all namespaces h keys) (calls this args (called_for all namespaces (functions_in w h keys))).
Proof using polite.
  intros Hp. induction keys as [|k keys IH]; [apply runs_value|]. cbn [handle_loop functions_in omap list_omap]. apply runs_store. intros e0.
  change (handlers_at (with_events (<[ev:=e0]>) w) h) with (handlers_at w h).
  destruct (assoc_get k (handlers_at w h)) as [fn|] eqn:Hk; [|exact IH].
  destruct (Hp k fn Hk) as (f & Hf & n & Hn). rewrite Hf. cbn [fmap option_fmap option_map]. apply (runs_known _ f); [by apply runs_fun|].
  cbn [called_for List.filter snd]. destruct (all || namespace_test namespaces (jf_type f)); [|exact IH].
  cbn [calls]. rewrite Hn. cbn [default id]. apply runs_then; [apply runs_change|intros []].
  apply runs_then; [by apply code_runs|intros ret]. apply runs_then.
  - destruct ret as [v|]; [|apply runs_value].
    apply (runs_eq _ (on_event (ev_result (Some v)) ;; js_when (is_false v) (on_event (λ e, ev_stop (ev_prevent e))))); [|intros [e u]; by destruct (is_false v)].
    apply runs_then; [apply runs_change|intros []]. apply runs_guarded, runs_change.
  - intros []. apply runs_then; [apply runs_event|intros e]. destruct (e_immediate e); [apply runs_value|exact IH].
Qed.
Lemma handle_runs elem args : no_names → (∀ type h, bound_to m w elem type = Some h → plain_handlers w h) →
  runs (event_handle elem ev args) (on_event (ev_current (Some elem)) ;; handled m w args elem).
Proof using polite.
  intros [Hi _] Hp. unfold event_handle, handle_with, handled. apply runs_then; [apply runs_change|intros []].
  apply runs_then; [apply runs_event|intros e]. destruct (split_type (e_type e)) as [type namespaces].
  apply runs_then; [apply runs_change|intros []]. apply (runs_known _ (m !! (elem, js "events"))); [by apply runs_read|]. apply runs_store. intros e0.
  specialize (Hp type). unfold functions_of, bound_to in *. destruct (m !! (elem, js "events")) as [[| | |]|]; try apply runs_value.
  change (table_at (with_events (<[ev:=e0]>) w) table) with (table_at w table).
  destruct (assoc_get type (table_at w table)) as [h|]; [|apply runs_value]. by apply handle_loop_runs, Hp.
Qed.
(** The method of an element runs while jQuery takes no events. *)
Lemma method_runs b elem type :
  runs (js_when b (change (with_triggered true) ;; js_try (run_method elem type) (λ _, mret ())) ;; change (with_triggered false))
    (js_when b (js_try (method_code elem type) (λ _, mret ()))).
Proof using polite Hquiet.
  assert (∀ w', with_triggered false (with_events w' (with_triggered true w)) = with_events w' w) as Hback.
  { intros f. unfold with_triggered, with_events. cbn. by rewrite Hquiet. }
  assert (∀ f, with_triggered false (with_events f w) = with_events f w) as Hstay.
  { intros f. unfold with_triggered, with_events. cbn. by rewrite Hquiet. }
  intros d e u Hs. destruct b; cbn [js_when].
  - rewrite js_bind_assoc, (js_bind_Ret (change _) _ _ () (at_event d (with_triggered true w) ev e u)) by done. unfold js_try.
    pose proof (pp_method _ polite elem type d (with_triggered true w) e u) as Hm.
    unfold mbind, js_mbind. rewrite Hm. destruct (method_code elem type (e, u)) as [[[]|x] [e1 u1]]; exists d; (split; [done|]).
    all: unfold change, js_modify, at_event, mret, js_mret; cbn [fst snd]; by rewrite Hback.
  - exists d. split; [done|]. rewrite js_bind_ret. unfold change, js_modify, at_event. cbn [fst snd]. by rewrite Hstay.
Qed.
Lemma trigger_at_runs path first args elem : no_names → plain_way m w path → elem ∈ path →
  runs (e ← get_event ev; trigger_at first ev args elem (e_type e)) (answer m w first args elem).
Proof using polite Hquiet.
  intros Hn [Hp Hh _] Hin. unfold answer. apply runs_then; [apply runs_event|intros e]. unfold trigger_at.
  apply (runs_eq _ (on_event (ev_current (Some elem)) ;;
    match m !! (elem, js "handle") with Some _ => on_event (ev_current (Some elem)) ;; handled m w args elem | None => mret () end ;; own_way first args elem (e_type e))).
  2: { intros [e0 u0]. by destruct (m !! (elem, js "handle")). }
  apply runs_then; [apply runs_change|intros []]. apply (runs_known _ (m !! (elem, js "handle"))); [by apply runs_read, Hn|].
  apply runs_then; [|intros []].
  - destruct (m !! (elem, js "handle")) as [v|] eqn:Hm; [|apply runs_value]. destruct (Hh elem v Hin Hm) as (handle & -> & Hw).
    unfold call_handle. apply runs_store. intros e0. cbn [with_events w_triggered w_handles]. rewrite Hquiet, Hw. apply handle_runs; [done|].
    intros type h. by apply Hp.
  - unfold own_way. apply runs_then; [apply runs_user|intros u]. apply runs_then.
    + destruct (_ && _); [|apply runs_value]. apply runs_then; [apply runs_follows, polite|intros ret]. apply runs_guarded, runs_change.
    + intros []. apply runs_then; [apply runs_event|intros e1]. apply runs_then; [apply runs_user|intros u1]. apply method_runs.
Qed.
Lemma trigger_up_runs all_path args : no_names → plain_way m w all_path → ∀ path x, way_up x path → ∀ fuel first,
  (∀ y, y ∈ path → y ∈ all_path) → (length path ≤ S fuel)%nat → runs (trigger_up fuel first ev args x) (along m w first args path).
Proof using polite Hquiet.
  intros Hn Hp path x Hway. induction Hway as [x Hx|x p l Hx Hl IH]; intros fuel first Hin Hf; cbn [along].
  all: assert (runs (e ← get_event ev; trigger_at first ev args x (e_type e)) (answer m w first args x)) as Hone
    by (apply (trigger_at_runs all_path); [done|done|apply Hin; by left]).
  all: assert (∀ (k : JS W ()) k', runs k k' → runs (e ← get_event ev; trigger_at first ev args x (e_type e) ;; k) (answer m w first args x ;; k')) as Hthen
    by (intros k k' Hk d e u Hs; rewrite <- js_bind_assoc; by apply (runs_then _ _ (λ _, k) (λ _, k') Hone (λ _, Hk))).
  all: destruct fuel as [|fuel]; cbn [trigger_up]; apply Hthen, runs_then; [apply runs_event|intros e|apply runs_event|intros e].
  all: destruct (e_stopped e); [apply runs_value|]; intros d e1 u Hs; unfold user; rewrite js_bind_gets, Hx; try by exists d.
  - exfalso. destruct Hl; cbn in Hf; lia.
  - apply IH; [intros y Hy; apply Hin; by right|cbn in Hf; lia|done].
Qed.
End one_event.

Lemma along_next m w args path : ∀ first s, along m (with_next w) first args path s = along m w first args path s.
Proof.
  induction path as [|x path IH]; intros first s; [done|]. cbn [along].
  change (answer m (with_next w) first args x) with (answer m w first args x). unfold mbind, js_mbind.
  destruct (answer m w first args x s) as [[[]|?] s1]; [|done]. unfold js_gets. by destruct (e_stopped s1.1).
Qed.
(** The event that [trigger] makes of a type; a mark at its end makes it
    exclusive. *)
Definition event_made (type : jsstr) (elem : nat) : jevent :=
  let e := new_event type in
  ev_target (Some elem) (if (-1 <? indexOf type (js "!"))%Z then ev_exclusive (ev_type (slice type 0 (-1)) e) else e).


(** ** The registry *)

(** The table [T] of the handlers for each element and type, by their numbers,
    as the data, the heap and the browser's listeners hold it. *)
Record reg (d : jdata jval) (m : gmap (nat * jsstr) jval) (w : jstore) (T : gmap (nat * jsstr) (list (jsstr * nat))) : Prop := {
  rg_stores : stores d m;
  rg_T e ty : T !! (e, ty) = match bound_to m w e ty with Some h => w_handlers w !! h | None => None end;
  rg_live e ty h : bound_to m w e ty = Some h → is_Some (w_handlers w !! h) ∧ (h < w_next w)%nat ∧ ty ≠ [] ∧ is_Some (m !! (e, js "handle"));
  rg_apart e1 ty1 e2 ty2 h : bound_to m w e1 ty1 = Some h → bound_to m w e2 ty2 = Some h → e1 = e2 ∧ ty1 = ty2;
  rg_table e v : m !! (e, js "events") = Some v → ∃ t tl, v = JEvents t ∧ w_tables w !! t = Some tl ∧ NoDup tl.*1 ∧ (t < w_next w)%nat;
  rg_tables e1 e2 t : m !! (e1, js "events") = Some (JEvents t) → m !! (e2, js "events") = Some (JEvents t) → e1 = e2;
  rg_handle e v : m !! (e, js "handle") = Some v → ∃ a, v = JHandle a ∧ w_handles w !! a = Some (Some e) ∧ (a < w_next w)%nat;
  rg_listen e ty a : (e, ty, a) ∈ w_listeners w ↔ m !! (e, js "handle") = Some (JHandle a) ∧ is_Some (T !! (e, ty));
  rg_once : NoDup (w_listeners w);
  rg_keys e ty l : T !! (e, ty) = Some l → NoDup l.*1 ∧ [] ∉ l.*1;
}.
(** Types have handlers, and elements with data have types. *)
Record tidy (m : gmap (nat * jsstr) jval) (T : gmap (nat * jsstr) (list (jsstr * nat))) : Prop := {
  td_types e ty l : T !! (e, ty) = Some l → l ≠ [];
  td_data e : is_Some (m !! (e, js "events")) ∨ is_Some (m !! (e, js "handle")) → ∃ ty, is_Some (T !! (e, ty));
}.
Lemma bound_at m w e t ty : m !! (e, js "events") = Some (JEvents t) → bound_to m w e ty = assoc_get ty (table_at w t).
Proof. intros Hm. unfold bound_to. by rewrite Hm. Qed.

(** Functions' fields and the list of types ever used do not matter. *)
Lemma reg_other d m w T w' : reg d m w T → w_tables w' = w_tables w → w_handlers w' = w_handlers w → w_handles w' = w_handles w →
  w_listeners w' = w_listeners w → w_next w' = w_next w → reg d m w' T.
Proof.
  intros [H1 H2 H3 H4 H5 H6 H7 H8 H9 H10] Ht Hh Ha Hl Hx.
  assert (∀ e ty, bound_to m w' e ty = bound_to m w e ty) as Hb by (intros e ty; unfold bound_to, table_at; by rewrite Ht).
  split; try done; [..|intros e ty a; by rewrite Hl|by rewrite Hl].
  - intros e ty. by rewrite Hb, Hh.
  - intros e ty h. rewrite Hb, Hh, Hx. apply H3.
  - intros e1 ty1 e2 ty2 h. rewrite !Hb. apply H4.
  - intros e v. rewrite Ht, Hx. apply H5.
  - intros e v. rewrite Ha, Hx. apply H7.
Qed.

(** A new object of handlers and its listener. *)
Lemma reg_new_type d m w T e ty t a : reg d m w T → m !! (e, js "events") = Some (JEvents t) → m !! (e, js "handle") = Some (JHandle a) →
  bound_to m w e ty = None → ty ≠ [] →
  let h := w_next w in
  reg d m (with_listeners (λ l, if bool_decide ((e, ty, a) ∈ l) then l else l ++ [(e, ty, a)])
    (with_tables (alter (assoc_set ty h) t) (with_handlers (<[h := []]>) (with_next w)))) (<[(e, ty) := []]> T).
Proof.
  intros [H1 H2 H3 H4 H5 H6 H7 H8 H9 H10] Ht Ha Hb Hty h. set (w' := with_listeners _ _).
  destruct (H5 e _ Ht) as (t' & tl & [= <-] & Htl & Hnd & Htn).
  assert (∀ e' t', m !! (e', js "events") = Some (JEvents t') → table_at w' t' = if decide (e' = e) then assoc_set ty h tl else table_at w t') as Htab.
  { intros e' t' Ht'. unfold table_at. cbn. case_decide as He; [subst; rewrite Ht in Ht'; injection Ht' as <-; by rewrite lookup_alter_eq, Htl|].
    rewrite lookup_alter_ne; [done|]. intros ->. apply He. by eapply H6. }
  assert (∀ e' ty', bound_to m w' e' ty' = if decide ((e', ty') = (e, ty)) then Some h else bound_to m w e' ty') as Hb'.
  { intros e' ty'. unfold bound_to in *. destruct (m !! (e', js "events")) as [v|] eqn:Hm.
    - destruct (H5 e' v Hm) as (t' & _ & -> & _). rewrite (Htab e' t' Hm). case_decide as He; [subst; rewrite assoc_get_set|]; repeat case_decide; try congruence.
      rewrite Ht in Hm. injection Hm as ->. unfold table_at. by rewrite Htl.
    - case_decide; [|done]. congruence. }
  assert (∀ e' ty' h', bound_to m w e' ty' = Some h' → h' ≠ h) as Hne by (intros e' ty' h' Hh' ->; apply H3 in Hh' as (_ & ? & _); unfold h in *; lia).
  split; try done.
  - intros e' ty'. rewrite Hb', lookup_insert. cbn. repeat case_decide; try congruence; [by rewrite lookup_insert_eq|]. rewrite H2.
    destruct (bound_to m w e' ty') as [h'|] eqn:Hh'; [|done]. rewrite lookup_insert_ne; [done|]. apply Hne in Hh'. congruence.
  - intros e' ty' h'. rewrite Hb'. case_decide as He; [injection He as -> ->; intros [= <-]; cbn; rewrite lookup_insert_eq; split_and!; [done|lia|done|by rewrite Ha]|].
    intros Hh'. destruct (H3 e' ty' h' Hh') as (? & ? & ? & ?). cbn. rewrite lookup_insert_ne by (apply Hne in Hh'; congruence). split_and!; [done|lia|done|done].
  - intros e1 ty1 e2 ty2 h'. rewrite !Hb'. repeat case_decide; [by simplify_eq| | |apply H4]; intros Hx1 Hx2; exfalso; [injection Hx1 as <-; by apply Hne in Hx2|injection Hx2 as <-; by apply Hne in Hx1].
  - intros e' v Hv. destruct (H5 e' v Hv) as (t' & tl' & -> & Htl' & Hnd' & Hlt). exists t'. cbn. destruct (decide (t' = t)) as [->|Hne'].
    + rewrite lookup_alter_eq, Htl'. eexists. split_and!; [done|reflexivity|by apply assoc_set_NoDup|lia].
    + rewrite lookup_alter_ne by done. exists tl'. split_and!; [done|done|done|lia].
  - intros e' v Hv. destruct (H7 e' v Hv) as (a' & ? & ? & ?). exists a'. cbn. split_and!; [done|done|lia].
  - intros e' ty' a'. cbn. rewrite lookup_insert_is_Some.
    assert (¬ is_Some (T !! (e, ty))) as Hno by (rewrite H2, Hb; by intros []).
    rewrite bool_decide_eq_false_2 by (rewrite H8; naive_solver). rewrite elem_of_app, (H8 e' ty' a'), list_elem_of_singleton. split.
    + intros [[? ?]|[= -> -> ->]]; [|by auto]. split; [done|]. destruct (decide ((e, ty) = (e', ty'))); [by left|by right].
    + intros [Hm [[= -> ->]|[_ ?]]]; [right|by left]. rewrite Ha in Hm. by injection Hm as ->.
  - cbn. case_bool_decide; [done|]. apply NoDup_app. split_and!; [done| |apply NoDup_singleton]. intros x Hx ->%list_elem_of_singleton. done.
  - intros e' ty' l. rewrite lookup_insert. case_decide; [|apply H10]. intros [= <-]. split; [constructor|apply not_elem_of_nil].
Qed.

(** Handlers come and go in an object of handlers. *)
Lemma reg_put d m w T e ty h l f : reg d m w T → bound_to m w e ty = Some h → T !! (e, ty) = Some l →
  NoDup (f l).*1 → [] ∉ (f l).*1 → reg d m (with_handlers (alter f h) w) (<[(e, ty) := f l]> T).
Proof.
  intros [H1 H2 H3 H4 H5 H6 H7 H8 H9 H10] Hb Hl Hnd Hne. assert (w_handlers w !! h = Some l) as Hh by (by rewrite H2, Hb in Hl).
  split; try done.
  - intros e' ty'. change (bound_to m (with_handlers (alter f h) w) e' ty') with (bound_to m w e' ty'). rewrite lookup_insert. cbn.
    case_decide as He; [injection He as <- <-; by rewrite Hb, lookup_alter_eq, Hh|]. rewrite H2. destruct (bound_to m w e' ty') as [h'|] eqn:Hb'; [|done].
    rewrite lookup_alter_ne; [done|]. intros ->. destruct (H4 _ _ _ _ _ Hb Hb') as [-> ->]. done.
  - intros e' ty' h' Hb'. destruct (H3 e' ty' h' Hb') as (? & ? & ? & ?). split_and!; try done. cbn. by apply lookup_alter_is_Some.
  - intros e' ty' a. cbn. rewrite H8, lookup_insert_is_Some. split; intros [? Hs]; (split; [done|]).
    + destruct (decide ((e, ty) = (e', ty'))); [by left|by right].
    + destruct Hs as [[= <- <-]|[_ ?]]; [by rewrite Hl|done].
  - intros e' ty' l'. rewrite lookup_insert. case_decide; [by intros [= <-]|apply H10].
Qed.
(** A type goes with its listener. *)
Lemma reg_drop_type d m w T e ty t a : reg d m w T → m !! (e, js "events") = Some (JEvents t) → m !! (e, js "handle") = Some (JHandle a) →
  reg d m (with_tables (alter (assoc_del ty) t) (with_listeners (filter (λ x, x ≠ (e, ty, a))) w)) (delete (e, ty) T).
Proof.
  intros [H1 H2 H3 H4 H5 H6 H7 H8 H9 H10] Ht Ha. set (w' := with_tables _ _). destruct (H5 e _ Ht) as (t' & tl & [= <-] & Htl & Hnd & Htn).
  assert (∀ e' ty', bound_to m w' e' ty' = if decide ((e', ty') = (e, ty)) then None else bound_to m w e' ty') as Hb'.
  { intros e' ty'. unfold bound_to. destruct (m !! (e', js "events")) as [v|] eqn:Hm; [|by case_decide].
    destruct (H5 e' v Hm) as (t' & _ & -> & _). unfold table_at. cbn. destruct (decide (e' = e)) as [->|He].
    - rewrite Ht in Hm. injection Hm as <-. rewrite lookup_alter_eq, Htl. cbn [fmap option_fmap option_map default id]. rewrite assoc_del_get by done.
      repeat case_decide; congruence.
    - rewrite lookup_alter_ne, decide_False; [done|congruence|]. intros ->. apply He. by eapply H6. }
  split; try done.
  - intros e' ty'. rewrite Hb', lookup_delete. repeat case_decide; try congruence. by rewrite H2.
  - intros e' ty' h'. rewrite Hb'. case_decide; [done|]. apply H3.
  - intros e1 ty1 e2 ty2 h'. rewrite !Hb'. repeat case_decide; try done. apply H4.
  - intros e' v Hv. destruct (H5 e' v Hv) as (t' & tl' & -> & Htl' & Hnd' & Hlt). exists t'. cbn. destruct (decide (t' = t)) as [->|Hne'].
    + rewrite lookup_alter_eq, Htl'. eexists. split_and!; [done|reflexivity| |done]. by apply assoc_del_keys.
    + rewrite lookup_alter_ne by done. by exists tl'.
  - intros e' ty' a'. cbn. rewrite list_elem_of_filter, H8, lookup_delete_is_Some. split.
    + intros (Hx & Hm & Hs). split; [done|]. split; [|done]. intros [= <- <-]. rewrite Ha in Hm. injection Hm as <-. done.
    + intros (Hm & Hx & Hs). split; [|done]. congruence.
  - cbn. by apply NoDup_filter.
  - intros e' ty' l [_ Hl]%lookup_delete_Some. by apply H10 in Hl.
Qed.
(** New data for an element: a table of no types, or the function [handle]. *)
Lemma reg_new_table d d' m w T e : reg d m w T → m !! (e, js "events") = None → stores d' (<[(e, js "events") := JEvents (w_next w)]> m) →
  reg d' (<[(e, js "events") := JEvents (w_next w)]> m) (with_tables (<[w_next w := []]>) (with_next w)) T.
Proof.
  intros [H1 H2 H3 H4 H5 H6 H7 H8 H9 H10] Hno Hs. set (m' := <[_ := _]> m). set (w' := with_tables _ _).
  assert (∀ e', m' !! (e', js "handle") = m !! (e', js "handle")) as Hmh by (intros e'; unfold m'; by rewrite lookup_insert_ne by (intros [=])).
  assert (∀ e', m' !! (e', js "events") = if decide (e' = e) then Some (JEvents (w_next w)) else m !! (e', js "events")) as Hme.
  { intros e'. unfold m'. case_decide; [subst; by rewrite lookup_insert_eq|]. rewrite lookup_insert_ne; [done|congruence]. }
  assert (∀ e' t, m !! (e', js "events") = Some (JEvents t) → (t < w_next w)%nat) as Hold by (intros e' t Ht; destruct (H5 e' _ Ht) as (? & ? & [= <-] & _ & _ & ?); done).
  assert (∀ e' ty, bound_to m' w' e' ty = bound_to m w e' ty) as Hb.
  { intros e' ty. unfold bound_to. rewrite Hme. case_decide; [subst; rewrite Hno; unfold table_at; cbn; by rewrite lookup_insert_eq|].
    destruct (m !! (e', js "events")) as [[| | |]|] eqn:Hm; try done. unfold table_at. cbn. rewrite lookup_insert_ne; [done|]. apply Hold in Hm. lia. }
  split; try done.
  - intros e' ty. by rewrite Hb, H2.
  - intros e' ty h. rewrite Hb, Hmh. intros Hx. destruct (H3 e' ty h Hx) as (? & ? & ? & ?). cbn. split_and!; [done|lia|done|done].
  - intros e1 ty1 e2 ty2 h. rewrite !Hb. apply H4.
  - intros e' v. rewrite Hme. case_decide; [intros [= <-]; exists (w_next w), []; cbn; rewrite lookup_insert_eq; split_and!; [done|done|constructor|lia]|].
    intros Hv. destruct (H5 e' v Hv) as (t & tl & -> & ? & ? & ?). exists t, tl. cbn. rewrite lookup_insert_ne by lia. split_and!; [done|done|done|lia].
  - intros e1 e2 t. rewrite !Hme. repeat case_decide; try congruence; [intros [= <-] Hx%Hold; lia|intros Hx%Hold [= <-]; lia|apply H6].
  - intros e' v. rewrite Hmh. intros Hv. destruct (H7 e' v Hv) as (a & ? & ? & ?). exists a. cbn. split_and!; [done|done|lia].
  - intros e' ty a. rewrite Hmh. apply H8.
Qed.
Lemma reg_new_handle d d' m w T e : reg d m w T → m !! (e, js "handle") = None → stores d' (<[(e, js "handle") := JHandle (w_next w)]> m) →
  reg d' (<[(e, js "handle") := JHandle (w_next w)]> m) (with_handles (<[w_next w := Some e]>) (with_next w)) T.
Proof.
  intros [H1 H2 H3 H4 H5 H6 H7 H8 H9 H10] Hno Hs. set (m' := <[_ := _]> m). set (w' := with_handles _ _).
  assert (∀ e', m' !! (e', js "events") = m !! (e', js "events")) as Hme by (intros e'; unfold m'; by rewrite lookup_insert_ne by (intros [=])).
  assert (∀ e', m' !! (e', js "handle") = if decide (e' = e) then Some (JHandle (w_next w)) else m !! (e', js "handle")) as Hmh.
  { intros e'. unfold m'. case_decide; [subst; by rewrite lookup_insert_eq|]. rewrite lookup_insert_ne; [done|congruence]. }
  assert (∀ e' ty, bound_to m' w' e' ty = bound_to m w e' ty) as Hb by (intros e' ty; unfold bound_to; by rewrite Hme).
  assert (∀ ty, T !! (e, ty) = None) as HTe.
  { intros ty. rewrite H2. destruct (bound_to m w e ty) as [h|] eqn:Hx; [|done]. destruct (H3 e ty h Hx) as (_ & _ & _ & Hh). rewrite Hno in Hh. by destruct Hh. }
  split; try done.
  - intros e' ty. by rewrite Hb, H2.
  - intros e' ty h. rewrite Hb, Hmh. intros Hx. destruct (H3 e' ty h Hx) as (? & ? & ? & ?). cbn. split_and!; [done|lia|done|by case_decide].
  - intros e1 ty1 e2 ty2 h. rewrite !Hb. apply H4.
  - intros e' v. rewrite Hme. intros Hv. destruct (H5 e' v Hv) as (t & tl & -> & ? & ? & ?). exists t, tl. cbn. split_and!; [done|done|done|lia].
  - intros e1 e2 t. rewrite !Hme. apply H6.
  - intros e' v. rewrite Hmh. case_decide; [intros [= <-]; subst; exists (w_next w); cbn; rewrite lookup_insert_eq; split_and!; [done|done|lia]|].
    intros Hv. destruct (H7 e' v Hv) as (a & -> & ? & ?). exists a. cbn. rewrite lookup_insert_ne by lia. split_and!; [done|done|lia].
  - intros e' ty a. rewrite Hmh. cbn. rewrite H8. case_decide; [|done]. subst. rewrite Hno, HTe. split; [by intros [? _]|by intros [_ []]].
Qed.
(** An element without types loses its data. *)
Lemma reg_forget d d' m w T e a : reg d m w T → m !! (e, js "handle") = Some (JHandle a) → (∀ ty, T !! (e, ty) = None) →
  stores d' (delete (e, js "handle") (delete (e, js "events") m)) →
  reg d' (delete (e, js "handle") (delete (e, js "events") m)) (with_handles (<[a := None]>) w) T.
Proof.
  intros [H1 H2 H3 H4 H5 H6 H7 H8 H9 H10] Ha HTe Hs. set (m' := delete _ _). set (w' := with_handles _ _).
  assert (∀ e' n, (n = js "events" ∨ n = js "handle") → m' !! (e', n) = if decide (e' = e) then None else m !! (e', n)) as Hm.
  { intros e' n Hn. unfold m'. rewrite !lookup_delete. destruct Hn as [-> | ->]; repeat case_decide; try congruence; exfalso; naive_solver. }
  assert (∀ e' ty, bound_to m' w' e' ty = if decide (e' = e) then None else bound_to m w e' ty) as Hb.
  { intros e' ty. unfold bound_to. rewrite Hm by auto. by case_decide. }
  split; try done.
  - intros e' ty. rewrite Hb. case_decide; [by subst|by rewrite H2].
  - intros e' ty h. rewrite Hb, Hm by auto. case_decide; [done|]. apply H3.
  - intros e1 ty1 e2 ty2 h. rewrite !Hb. repeat case_decide; try done. apply H4.
  - intros e' v. rewrite Hm by auto. case_decide; [done|]. apply H5.
  - intros e1 e2 t. rewrite !Hm by auto. repeat case_decide; try done. apply H6.
  - intros e' v. rewrite Hm by auto. case_decide as He; [done|]. intros Hv. destruct (H7 e' v Hv) as (a' & -> & Hh & ?). exists a'. cbn.
    rewrite lookup_insert_ne; [done|]. intros ->. destruct (H7 e _ Ha) as (? & [= <-] & Hh' & _). congruence.
  - intros e' ty a'. rewrite Hm by auto. cbn. rewrite H8. case_decide; [|done]. subst. rewrite HTe. split; intros [_ []]; done.
Qed.

(** What a call leaves of the other elements. *)
Definition same_funs (w w' : jstore) : Prop := w_funs w' = w_funs w ∧ w_guid w' = w_guid w.
Definition same_elsewhere (e : nat) (m m' : gmap (nat * jsstr) jval) : Prop := ∀ e' n, e' ≠ e → m' !! (e', n) = m !! (e', n).
Lemma write_state d m w u elem name v : stores d m → name ≠ [] → ∃ d', stores d' (<[(elem, name) := v]> m) ∧
  write_data elem name v (d, (w, u)) = (Ret (), (d', (w, u))).
Proof.
  intros Hs Hn. destruct (write_run inherited d m elem name v Hs Hn) as (d' & Hrun & Hs'). exists d'. split; [done|].
  unfold write_data. by rewrite (js_bind_Ret _ _ _ _ _ (on_data_run _ _ (w, u) _ _ Hrun)).
Qed.
Lemma reg_data d d' m w T : reg d m w T → stores d' m → reg d' m w T.
Proof. intros [] Hs. by split. Qed.

Lemma events_of_run d m w T u e : no_names → reg d m w T →
  ∃ d' m' w' t, events_of e (d, (w, u)) = (Ret t, (d', (w', u))) ∧ reg d' m' w' T ∧ m' !! (e, js "events") = Some (JEvents t) ∧
    m' !! (e, js "handle") = m !! (e, js "handle") ∧ same_funs w w' ∧ same_elsewhere e m m'.
Proof.
  intros [Hi _] Hr. destruct (read_state d m w u e (js "events") (rg_stores _ _ _ _ Hr)) as (d1 & Hs1 & Hread); [done|done|].
  unfold events_of. rewrite (js_bind_Ret _ _ _ _ _ Hread). destruct (m !! (e, js "events")) as [v|] eqn:Hm.
  - destruct (rg_table _ _ _ _ Hr e v Hm) as (t & tl & -> & _). exists d1, m, w, t. split_and!; try done. by apply (reg_data d).
  - set (w1 := with_tables (<[w_next w := []]>) (with_next w)).
    destruct (write_state d1 m w1 u e (js "events") (JEvents (w_next w)) Hs1) as (d2 & Hs2 & Hw); [done|].
    eexists d2, _, w1, (w_next w). split; [|split; [by apply (reg_new_table d)|]].
    + rewrite (js_bind_Ret alloc _ _ (w_next w) (d1, (with_next w, u))) by done. rewrite (js_bind_Ret (change _) _ _ () (d1, (w1, u))) by done.
      by rewrite (js_bind_Ret _ _ _ _ _ Hw).
    + rewrite lookup_insert_eq, lookup_insert_ne by (intros [=]). split_and!; [done|done|done|]. intros e' n He'. rewrite lookup_insert_ne; [done|congruence].
Qed.
Lemma handle_of_run d m w T u e : no_names → reg d m w T →
  ∃ d' m' w' w0 a, handle_of e (d, (w, u)) = (Ret a, (d', (w0, u))) ∧ with_handles (<[a := Some e]>) w0 = w' ∧ reg d' m' w' T ∧
    m' !! (e, js "handle") = Some (JHandle a) ∧ m' !! (e, js "events") = m !! (e, js "events") ∧ same_funs w w' ∧ same_elsewhere e m m'.
Proof.
  intros [_ Hi] Hr. destruct (read_state d m w u e (js "handle") (rg_stores _ _ _ _ Hr)) as (d1 & Hs1 & Hread); [done|done|].
  unfold handle_of. rewrite (js_bind_Ret _ _ _ _ _ Hread). destruct (m !! (e, js "handle")) as [v|] eqn:Hm.
  - destruct (rg_handle _ _ _ _ Hr e v Hm) as (a & -> & Ha & _). exists d1, m, w, w, a. split_and!; try done; [|by apply (reg_data d)].
    destruct w. unfold with_handles. cbn in *. by rewrite insert_id.
  - set (w1 := with_handles (<[w_next w := None]>) (with_next w)).
    destruct (write_state d1 m w1 u e (js "handle") (JHandle (w_next w)) Hs1) as (d2 & Hs2 & Hw); [done|].
    eexists d2, _, _, w1, (w_next w). split; [|split; [reflexivity|split]].
    + rewrite (js_bind_Ret alloc _ _ (w_next w) (d1, (with_next w, u))) by done. rewrite (js_bind_Ret (change _) _ _ () (d1, (w1, u))) by done.
      by rewrite (js_bind_Ret _ _ _ _ _ Hw).
    + assert (with_handles (<[w_next w := Some e]>) w1 = with_handles (<[w_next w := Some e]>) (with_next w)) as ->.
      { unfold w1, with_handles. cbn. by rewrite insert_insert_eq. }
      by apply (reg_new_handle d).
    + rewrite lookup_insert_eq, lookup_insert_ne by (intros [=]). split_and!; [done|done|done|]. intros e' n He'. rewrite lookup_insert_ne; [done|congruence].
Qed.

(** Functions and their numbers, which only [guid_of] changes. *)
Definition has_number (w : jstore) (g : jsstr) (fn : nat) : Prop := ∃ f, w_funs w !! fn = Some f ∧ jf_guid f = Some g ∧ g ≠ [].
Definition numbers_kept (w w' : jstore) : Prop := (∀ fn, jf_guid <$> w_funs w' !! fn = jf_guid <$> w_funs w !! fn) ∧ w_guid w' = w_guid w.
Lemma same_numbers w w' : same_funs w w' → numbers_kept w w'.
Proof. intros [Hf Hg]. split; [intros fn; by rewrite Hf|done]. Qed.
Lemma numbers_trans w1 w2 w3 : numbers_kept w1 w2 → numbers_kept w2 w3 → numbers_kept w1 w3.
Proof. intros [H1 G1] [H2 G2]. split; [intros fn; by rewrite H2|congruence]. Qed.
Lemma kept_number w w' g fn : numbers_kept w w' → has_number w g fn → has_number w' g fn.
Proof.
  intros [Hk _] (f & Hf & Hg & Hn). specialize (Hk fn). rewrite Hf in Hk. cbn in Hk.
  destruct (w_funs w' !! fn) as [f'|] eqn:Hf'; [|done]. exists f'. cbn in Hk. split_and!; [done|congruence|done].
Qed.
Lemma get_fun_run (w : jstore) fn f (d : jdata jval) (u : U) : w_funs w !! fn = Some f → get_fun fn (d, (w, u)) = (Ret f, (d, (w, u))).
Proof. intros Hf. unfold get_fun, store. rewrite js_bind_gets. cbn. by rewrite Hf. Qed.
Lemma guid_run w g fn d u : has_number w g fn → guid_of fn (d, (w, u)) = (Ret g, (d, (w, u))).
Proof. intros (f & Hf & Hg & _). unfold guid_of. by rewrite (js_bind_Ret _ _ _ _ _ (get_fun_run w fn f d u Hf)), Hg. Qed.

(** The table of handlers by numbers, with one put or dropped. *)
Abbreviation ctable := (gmap (nat * jsstr) (list (jsstr * nat))).
Definition c_bind (g : jsstr) (C : ctable) (e : nat) (type : jsstr) (fn : nat) : ctable := <[(e, type) := assoc_set g fn (default [] (C !! (e, type)))]> C.
Definition c_binds (g : jsstr) (C : ctable) (e : nat) (texts : list jsstr) (fn : nat) : ctable := fold_left (λ (C : ctable) text, c_bind g C e (split_type text).1 fn) texts C.
Definition drop_number {B} (o : option jsstr) (l : list (jsstr * B)) : list (jsstr * B) := match o with Some g => assoc_del g l | None => l end.
Definition c_unbind (o : option jsstr) (C : ctable) (e : nat) (type : jsstr) : ctable :=
  match C !! (e, type) with
  | Some l => match drop_number o l with [] => delete (e, type) C | l' => <[(e, type) := l']> C end
  | None => C
  end.

Lemma add_type_run setup d m w T u g e t a fn text : reg d m w T → m !! (e, js "events") = Some (JEvents t) →
  m !! (e, js "handle") = Some (JHandle a) → has_number w g fn → let type := (split_type text).1 in setup type = None → type ≠ [] →
  ∃ w', add_type setup e t a fn text (d, (w, u)) = (Ret (), (d, (w', u))) ∧ reg d m w' (c_bind g T e type fn) ∧ numbers_kept w w'.
Proof.
  intros Hr Ht Ha (f & Hf & Hg & Hgn) type Hset Hty. unfold add_type. destruct (split_type text) as [type' namespaces]. cbn in type. subst type.
  set (f1 := JFun (jf_code f) (jf_guid f) (join_names namespaces) (jf_data f)). set (w1 := with_funs (<[fn := f1]>) w). rename type' into type.
  rewrite (js_bind_Ret _ _ _ _ _ (get_fun_run w fn f d u Hf)).
  rewrite (js_bind_Ret (set_fun _ _) _ _ () (d, (w1, u))) by done. unfold store. rewrite js_bind_gets. cbn [snd fst].
  assert (numbers_kept w w1) as Hnum.
  { split; [|done]. intros fn'. cbn. rewrite lookup_insert. case_decide; [subst; by rewrite Hf|done]. }
  assert (reg d m w1 T) as Hr1 by (by apply (reg_other d m w T)).
  change (table_at w1 t) with (table_at w t). pose proof (bound_at m w e t type Ht) as Hb. rewrite <- Hb.
  assert (∃ w2 h, match bound_to m w e type with
      | Some h => mret h
      | None => h ← alloc; change (with_handlers (<[h:=[]]>)) ;; change (with_tables (alter (assoc_set type h) t)) ;;
          match setup type with Some m => m | None => listen_to e type a end ;; mret h
      end (d, (w1, u)) = (Ret h, (d, (w2, u))) ∧ reg d m w2 (<[(e, type) := default [] (T !! (e, type))]> T) ∧
      bound_to m w2 e type = Some h ∧ same_funs w1 w2) as (w2 & h & Hh & Hr2 & Hb2 & Hf2).
  { destruct (bound_to m w e type) as [h|] eqn:Hbw.
    - exists w1, h. split_and!; try done. destruct (rg_live _ _ _ _ Hr e type h Hbw) as ([l Hl] & _). pose proof (rg_T _ _ _ _ Hr e type) as HT.
      rewrite Hbw, Hl in HT. rewrite HT. cbn. by rewrite insert_id.
    - eexists _, _. split; [rewrite Hset; reflexivity|]. assert (T !! (e, type) = None) as HT by (by rewrite (rg_T _ _ _ _ Hr), Hbw).
      rewrite HT. cbn [default id]. split; [exact (reg_new_type d m w1 T e type t a Hr1 Ht Ha Hbw Hty)|]. split; [|done].
      rewrite (bound_at _ _ _ _ _ Ht). unfold table_at. destruct (rg_table _ _ _ _ Hr e _ Ht) as (t' & tl & [= <-] & Htl & _).
      cbn [snd fst with_listeners with_tables with_handlers with_next w_tables]. change (w_tables w1) with (w_tables w). rewrite lookup_alter_eq, Htl. cbn [fmap option_fmap option_map default id]. by rewrite assoc_get_set, decide_True. }
  rewrite (js_bind_Ret _ _ _ _ _ Hh). assert (numbers_kept w w2) as Hn2 by (by eapply numbers_trans, same_numbers).
  assert (has_number w2 g fn) as Hg2 by (apply (kept_number w); [done|by exists f]).
  rewrite (js_bind_Ret _ _ _ _ _ (guid_run w2 g fn d u Hg2)). unfold c_bind. set (l := default [] (T !! (e, type))) in *.
  assert (NoDup l.*1 ∧ [] ∉ l.*1) as [Hnd Hne].
  { unfold l. destruct (T !! (e, type)) as [l0|] eqn:Hl; cbn; [by apply (rg_keys _ _ _ _ Hr e type)|]. split; [constructor|apply not_elem_of_nil]. }
  exists (with_global type (with_handlers (alter (assoc_set g fn) h) w2)). split; [reflexivity|]. split; [|done].
  pose proof (reg_put d m w2 _ e type h l (assoc_set g fn) Hr2 Hb2 (lookup_insert_eq _ _ _)) as Hp. rewrite insert_insert_eq in Hp.
  apply (reg_other d m (with_handlers (alter (assoc_set g fn) h) w2)); [|done..]. apply Hp; [by apply assoc_set_NoDup|].
  rewrite assoc_set_keys. case_decide; [done|]. intros [?|Hx%list_elem_of_singleton]%elem_of_app; [done|]. by rewrite Hx in Hgn.
Qed.

(** Types that are none of jQuery's special ones. *)
Definition ordinary (text : jsstr) : Prop := let type := (split_type text).1 in mouse_types type = None ∧ type ≠ js "ready" ∧ type ≠ [].
Definition elements_only : Prop := ∀ u e, text_node u e = false.
Lemma no_setup e text : ordinary text → special_setup e (split_type text).1 = None.
Proof. intros (Hm & Hr & _). unfold special_setup. by rewrite Hm, bool_decide_eq_false_2. Qed.
Lemma no_teardown e text : ordinary text → special_teardown e (split_type text).1 = None.
Proof. intros (Hm & Hr & _). unfold special_teardown. by rewrite Hm, bool_decide_eq_false_2. Qed.
Lemma add_types_run d m u g e t a fn : m !! (e, js "events") = Some (JEvents t) → m !! (e, js "handle") = Some (JHandle a) →
  ∀ texts w T, reg d m w T → has_number w g fn → Forall ordinary texts →
  ∃ w', js_each texts (add_type (special_setup e) e t a fn) (d, (w, u)) = (Ret (), (d, (w', u))) ∧ reg d m w' (c_binds g T e texts fn) ∧ numbers_kept w w'.
Proof.
  intros Ht Ha. induction texts as [|text texts IH]; intros w T Hr Hg Hok; [by exists w|]. apply Forall_cons in Hok as [Hord Hok].
  destruct (add_type_run (special_setup e) d m w T u g e t a fn text Hr Ht Ha Hg (no_setup e text Hord) (proj2 (proj2 Hord))) as (w1 & Hrun & Hr1 & Hn1).
  destruct (IH w1 _ Hr1 (kept_number _ _ _ _ Hn1 Hg) Hok) as (w2 & Hrun2 & Hr2 & Hn2). exists w2. cbn [js_each].
  rewrite (js_bind_Ret _ _ _ _ _ Hrun). split_and!; [done|exact Hr2|by eapply numbers_trans].
Qed.
Lemma binds_keep g fn e texts : ∀ T e' ty, is_Some (T !! (e', ty)) → is_Some (c_binds g T e texts fn !! (e', ty)).
Proof. induction texts as [|text texts IH]; intros T e' ty Hs; [done|]. apply IH. apply lookup_insert_is_Some. destruct (decide ((e, (split_type text).1) = (e', ty))); auto. Qed.
Lemma binds_types g fn e texts : ∀ T : ctable, (∀ e' ty l, T !! (e', ty) = Some l → l ≠ []) → ∀ e' ty l, c_binds g T e texts fn !! (e', ty) = Some l → l ≠ [].
Proof.
  induction texts as [|text texts IH]; intros T HT; [done|]. apply IH. intros e' ty l. unfold c_bind. rewrite lookup_insert. case_decide; [|apply HT].
  intros [= <-]. destruct (default [] _) as [|[k v] l]; cbn; [done|]. by case_decide.
Qed.
Lemma spaces_split text : split_spaces text ≠ [].
Proof.
  unfold split_spaces. generalize ([] : jsstr) as cur. induction text as [|c text IH]; intros cur; cbn; [done|].
  destruct (is_space c); [|apply IH]. destruct text as [|d text]; [done|]. by destruct (is_space d).
Qed.
Lemma bind_run d m w T u g e text fn : no_names → elements_only → reg d m w T → tidy m T → has_number w g fn → Forall ordinary (split_spaces text) →
  let T' := c_binds g T e (split_spaces text) fn in
  ∃ d' m' w', event_add e text fn None (d, (w, u)) = (Ret (), (d', (w', u))) ∧ reg d' m' w' T' ∧ tidy m' T' ∧ numbers_kept w w'.
Proof.
  intros Hn Hel Hr [Htd1 Htd2] Hnum Hord T'.
  destruct (events_of_run d m w T u e Hn Hr) as (d1 & m1 & w1 & t & Hev & Hr1 & Ht1 & _ & Hf1 & Hs1).
  destruct (handle_of_run d1 m1 w1 T u e Hn Hr1) as (d2 & m2 & w2 & w0 & a & Hha & Hw2 & Hr2 & Ha2 & Ht2 & Hf2 & Hs2).
  rewrite Ht1 in Ht2. assert (numbers_kept w w2) as Hn2 by (eapply numbers_trans; by apply same_numbers).
  destruct (add_types_run d2 m2 u g e t a fn Ht2 Ha2 _ w2 T Hr2 (kept_number _ _ _ _ Hn2 Hnum) Hord) as (w3 & Hadd & Hr3 & Hn3).
  exists d2, m2, w3. split; [|split; [exact Hr3|split; [|by eapply numbers_trans]]].
  - unfold event_add, add_with, user. rewrite js_bind_gets. cbn [snd]. rewrite Hel, (js_bind_Ret _ _ _ _ _ (guid_run w g fn d u Hnum)), js_bind_ret.
    rewrite (js_bind_Ret _ _ _ _ _ Hev), (js_bind_Ret _ _ _ _ _ Hha), (js_bind_Ret (change _) _ _ () (d2, (w2, u))) by (by rewrite <- Hw2). exact Hadd.
  - split; [by apply binds_types|]. intros e' Hdata. destruct (decide (e' = e)) as [->|He'].
    + unfold T'. pose proof (spaces_split text) as Hne. destruct (split_spaces text) as [|x l]; [done|]. exists (split_type x).1. apply (binds_keep g fn e l (c_bind g T e (split_type x).1 fn)).
      apply lookup_insert_is_Some. by left.
    + rewrite !(Hs2 e'), !(Hs1 e') in Hdata by done. destruct (Htd2 e' Hdata) as [ty Hty]. exists ty. by apply binds_keep.
Qed.

Context (key_perm : ∀ l, key_order l ≡ₚ l).
Lemma first_true {B} (o : list (jsstr * B)) ret : [] ∉ o.*1 → first_key key_order o ret = ret ∧ o = [] ∨
  ∃ k, first_key key_order o ret = Some k ∧ k ∈ o.*1 ∧ key_true (Some k) = true.
Proof using key_perm.
  intros Hne. unfold first_key. pose proof (key_perm o.*1) as Hp. destruct (key_order o.*1) as [|k l].
  - left. split; [done|]. apply Permutation_nil in Hp. by destruct o.
  - right. exists k. assert (k ∈ o.*1) as Hk by (rewrite <- Hp; by left). split_and!; [done|done|]. by destruct k.
Qed.
Lemma key_get {B} (o : list (jsstr * B)) k : k ∈ o.*1 → ∃ v, assoc_get k o = Some v.
Proof.
  induction o as [|[k1 v1] o IH]; [by intros ?%not_elem_of_nil|]. intros Hk. cbn [fmap list_fmap fst] in Hk. rewrite assoc_get_cons.
  case_decide; [by eexists|]. apply IH. apply elem_of_cons in Hk as [->|]; done.
Qed.
Lemma table_type d m w T e t k : reg d m w T → m !! (e, js "events") = Some (JEvents t) → k ∈ (table_at w t).*1 → k ≠ [] ∧ is_Some (T !! (e, k)).
Proof.
  intros Hr Ht [h Hh]%key_get. assert (bound_to m w e k = Some h) as Hb by (by rewrite (bound_at _ _ _ _ _ Ht)).
  destruct (rg_live _ _ _ _ Hr e k h Hb) as (Hl & _ & Hk & _). split; [done|]. by rewrite (rg_T _ _ _ _ Hr), Hb.
Qed.
Lemma drop_state (d : jdata jval) (m : gmap (nat * jsstr) jval) (w : jstore) (u : U) (elem : nat) (name : jsstr) : stores d m → name ≠ [] → ∃ d', stores d' (delete (elem, name) m) ∧
  on_data (removeData elem name) (d, (w, u)) = (Ret (), (d', (w, u))).
Proof.
  intros Hs Hn. destruct (drop_run d m elem name Hs Hn) as (d' & Hrun & Hs' & _). exists d'. split; [done|]. by rewrite (on_data_run _ _ _ _ _ Hrun).
Qed.

Lemma remove_rest_run d m w T u e t a ret : no_names → reg d m w T → m !! (e, js "events") = Some (JEvents t) → m !! (e, js "handle") = Some (JHandle a) →
  (ret = None ∨ ∃ ty, is_Some (T !! (e, ty))) →
  ∃ d' m' w', remove_rest e t ret (d, (w, u)) = (Ret (), (d', (w', u))) ∧ reg d' m' w' T ∧ same_elsewhere e m m' ∧ same_funs w w' ∧
    (is_Some (m' !! (e, js "events")) ∨ is_Some (m' !! (e, js "handle")) → ∃ ty, is_Some (T !! (e, ty))).
Proof using key_perm.
  intros Hn Hr Ht Ha Hret. unfold remove_rest, store. rewrite js_bind_gets. cbn [snd fst].
  destruct (first_true (table_at w t) ret) as [[-> Hnil]|(k & -> & Hk & ->)].
  { intros Hin. by destruct (table_type d m w T e t [] Hr Ht Hin). }
  2: { exists d, m, w. split_and!; try done. intros _. exists k. by apply (table_type d m w T e t k Hr Ht). }
  assert (∀ ty, T !! (e, ty) = None) as HTe by (intros ty; by rewrite (rg_T _ _ _ _ Hr), (bound_at _ _ _ _ _ Ht), Hnil).
  assert (ret = None) as -> by (destruct Hret as [?|(ty & Hty)]; [done|rewrite HTe in Hty; by destruct Hty]). cbn [key_true].
  destruct (read_state d m w u e (js "handle") (rg_stores _ _ _ _ Hr)) as (d1 & Hs1 & Hread); [done|apply Hn|].
  set (w1 := with_handles (<[a := None]>) w). destruct (drop_state d1 m w1 u e (js "events") Hs1) as (d2 & Hs2 & Hd2); [done|].
  destruct (drop_state d2 _ w1 u e (js "handle") Hs2) as (d3 & Hs3 & Hd3); [done|]. eexists d3, _, w1. split_and!.
  - rewrite (js_bind_Ret _ _ _ _ _ Hread), Ha, (js_bind_Ret (change _) _ _ () (d1, (w1, u))) by done.
    by rewrite (js_bind_Ret _ _ _ _ _ Hd2).
  - by apply (reg_forget d d3 m w T e a).
  - intros e' n He'. rewrite !lookup_delete_ne by congruence. done.
  - done.
  - rewrite lookup_delete_eq, lookup_delete_ne, lookup_delete_eq by (intros [=]). intros [[]|[]]; done.
Qed.
Lemma remove_type_run d m w T u e t a fn f text : no_names → reg d m w T → tidy m T → m !! (e, js "events") = Some (JEvents t) →
  m !! (e, js "handle") = Some (JHandle a) → w_funs w !! fn = Some f → ordinary text →
  let T' := c_unbind (jf_guid f) T e (split_type text).1 in
  ∃ d' w' ret, remove_type special_teardown e t (Some fn) None text (d, (w, u)) = (Ret ret, (d', (w', u))) ∧ reg d' m w' T' ∧
    (ret = None ∨ ∃ ty, is_Some (T' !! (e, ty))) ∧ same_funs w w'.
Proof using key_perm.
  intros Hn Hr Htd Ht Ha Hf Hord. pose proof (no_teardown e text Hord) as Htear. unfold remove_type, c_unbind. destruct (split_type text) as [type ns]. cbn in Htear |- *.
  unfold store. rewrite js_bind_gets. cbn [snd fst].
  pose proof (bound_at m w e t type Ht) as Hb. rewrite <- Hb. pose proof (rg_T _ _ _ _ Hr e type) as HT.
  destruct (bound_to m w e type) as [h|] eqn:Hbw; [|rewrite HT; exists d, w, None; by split_and!; auto].
  destruct (rg_live _ _ _ _ Hr e type h Hbw) as ([l Hl] & _). rewrite Hl in HT. rewrite HT.
  destruct (rg_keys _ _ _ _ Hr e type l HT) as [Hnd Hne].
  set (del := drop_number (B := nat) (jf_guid f)). fold del.
  assert (NoDup (del l).*1 ∧ [] ∉ (del l).*1) as [Hnd' Hne'].
  { unfold del, drop_number. destruct (jf_guid f) as [g|]; [|done]. destruct (assoc_del_keys g l Hnd) as [? Hkeys]. split; [done|]. by intros ?%Hkeys. }
  set (w1 := with_handlers (alter del h) w). pose proof (reg_put d m w T e type h l del Hr Hbw HT Hnd' Hne') as Hr1. fold w1 in Hr1.
  assert ((f ← get_fun fn; match jf_guid f with Some g => change (with_handlers (alter (assoc_del g) h)) | None => mret () end) (d, (w, u)) = (Ret (), (d, (w1, u)))) as Hdel.
  { rewrite (js_bind_Ret _ _ _ _ _ (get_fun_run w fn f d u Hf)). unfold w1, del, drop_number. destruct (jf_guid f); [done|].
    unfold with_handlers. rewrite alter_id by done. by destruct w. }
  rewrite (js_bind_Ret _ _ _ _ _ Hdel), js_bind_gets. cbn [snd fst].
  assert (handlers_at w1 h = del l) as -> by (unfold handlers_at, w1; cbn; by rewrite lookup_alter_eq, Hl).
  destruct (first_true (del l) None Hne') as [[-> Hnil]|(k & -> & Hk & ->)].
  - rewrite Hnil in *. cbn [key_true]. rewrite Htear. destruct (read_state d m w1 u e (js "handle") (rg_stores _ _ _ _ Hr1)) as (d1 & Hs1 & Hread); [done|apply Hn|].
    pose proof (reg_drop_type d1 m w1 _ e type t a (reg_data _ _ _ _ _ Hr1 Hs1) Ht Ha) as Hr2. rewrite delete_insert_eq in Hr2.
    eexists d1, _, None. split; [|split; [exact Hr2|split; [by left|done]]]. rewrite js_bind_assoc, (js_bind_Ret _ _ _ _ _ Hread), Ha. reflexivity.
  - destruct (del l) as [|x l'] eqn:Hx; [by apply not_elem_of_nil in Hk|].
    exists d, w1, (Some k). split_and!; [done|done| |done]. right. exists type. by rewrite lookup_insert_eq.
Qed.
(** One type without a leading dot. *)
Definition one_type (text : jsstr) : Prop := split_spaces text = [text] ∧ ordinary text ∧ is_prefix (js ".") text = false.
Lemma unbind_run d m w T u e text fn f : no_names → elements_only → reg d m w T → tidy m T → w_funs w !! fn = Some f → one_type text →
  let T' := c_unbind (jf_guid f) T e (split_type text).1 in
  ∃ d' m' w', event_remove e (Some text) (Some fn) (d, (w, u)) = (Ret (), (d', (w', u))) ∧ reg d' m' w' T' ∧ tidy m' T' ∧ same_funs w w'.
Proof using key_perm.
  intros Hn Hel Hr Htd Hf (Hsp & Hord & Hdot) T'. unfold event_remove. rewrite Hdot.
  unfold remove_with, user. rewrite js_bind_gets. cbn [snd]. rewrite Hel.
  destruct (read_state d m w u e (js "events") (rg_stores _ _ _ _ Hr)) as (d1 & Hs1 & Hread); [done|apply Hn|]. rewrite (js_bind_Ret _ _ _ _ _ Hread).
  destruct (m !! (e, js "events")) as [v|] eqn:Hm.
  2: { exists d1, m, w. assert (T' = T) as ->; [|split; [done|split; [by apply (reg_data d)|by split]]].
       unfold T', c_unbind. rewrite (rg_T _ _ _ _ Hr). unfold bound_to. by rewrite Hm. }
  destruct (rg_table _ _ _ _ Hr e v Hm) as (t & tl & -> & _). destruct (td_data _ _ Htd e) as [ty0 Hty0]; [left; by rewrite Hm|].
  assert (∃ a, m !! (e, js "handle") = Some (JHandle a)) as [a Ha].
  { rewrite (rg_T _ _ _ _ Hr) in Hty0. destruct (bound_to m w e ty0) as [h|] eqn:Hb; [|by destruct Hty0].
    destruct (rg_live _ _ _ _ Hr e ty0 h Hb) as (_ & _ & _ & v & Hv). destruct (rg_handle _ _ _ _ Hr e v Hv) as (a & -> & _). by exists a. }
  destruct (remove_type_run d1 m w T u e t a fn f text Hn (reg_data _ _ _ _ _ Hr Hs1) Htd Hm Ha Hf Hord) as (d2 & w2 & ret & Hrem & Hr2 & Hret & Hf2).
  destruct (remove_rest_run d2 m w2 _ u e t a ret Hn Hr2 Hm Ha Hret) as (d3 & m3 & w3 & Hrest & Hr3 & Hs3 & Hf3 & Htd3).
  exists d3, m3, w3. split; [|split; [done|split; [|destruct Hf2, Hf3; split; congruence]]].
  - rewrite Hsp. cbn [remove_types]. rewrite js_bind_assoc, (js_bind_Ret _ _ _ _ _ Hrem), js_bind_ret. exact Hrest.
  - destruct Htd as [Htd1 Htd2]. fold T' in Htd3. split.
    + intros e' ty l Hl. unfold T', c_unbind in Hl. destruct (T !! (e, (split_type text).1)) as [l0|] eqn:HT; [|by eapply Htd1].
      destruct (drop_number (jf_guid f) l0) as [|x l1]; [apply lookup_delete_Some in Hl as [_ Hl]; by eapply Htd1|].
      apply lookup_insert_Some in Hl as [[_ <-]|[_ Hl]]; [done|by eapply Htd1].
    + intros e' Hdata. destruct (decide (e' = e)) as [->|He']; [by apply Htd3|].
      rewrite !(Hs3 e') in Hdata by done. destruct (Htd2 e' Hdata) as [ty Hty]. exists ty. unfold T', c_unbind.
      destruct (T !! (e, (split_type text).1)) as [l0|]; [|done]. destruct (drop_number (jf_guid f) l0); [rewrite lookup_delete_ne|rewrite lookup_insert_ne]; done || congruence.
Qed.

(** *** Numbers tell functions apart *)

(** Functions with numbers have different ones, which have been given out;
    what the table holds under a number is the function of that number. *)
Record guids_apart (w : jstore) (C : ctable) : Prop := {
  nb_given fn g : jf_guid <$> w_funs w !! fn = Some (Some g) → ∃ n, g = num_str (Z.of_nat n) ∧ (n < w_guid w)%nat;
  nb_apart fn fn' g : jf_guid <$> w_funs w !! fn = Some (Some g) → jf_guid <$> w_funs w !! fn' = Some (Some g) → fn = fn';
  nb_held e ty l k fn : C !! (e, ty) = Some l → (k, fn) ∈ l → jf_guid <$> w_funs w !! fn = Some (Some k);
}.
Lemma numbered_kept w w' C : numbers_kept w w' → guids_apart w C → guids_apart w' C.
Proof.
  intros [Hk Hg] [H1 H2 H3]. split.
  - intros fn g. rewrite Hk, Hg. apply H1.
  - intros fn fn' g. rewrite !Hk. apply H2.
  - intros e ty l k fn. rewrite Hk. apply H3.
Qed.
Lemma num_str_nonempty z : num_str z ≠ [].
Proof. destruct (num_str_digits z) as (ds & -> & Hds & _). by destruct (z <? 0)%Z, ds. Qed.
(** A function gets a number when it first needs one. *)
Lemma guid_step d m w C u fn : reg d m w C → guids_apart w C → is_Some (w_funs w !! fn) →
  ∃ g w1, guid_of fn (d, (w, u)) = (Ret g, (d, (w1, u))) ∧ has_number w1 g fn ∧ reg d m w1 C ∧ guids_apart w1 C ∧
    ∀ fn', is_Some (w_funs w !! fn') → is_Some (w_funs w1 !! fn').
Proof.
  intros Hr Hnb [f Hf]. pose proof Hnb as [H1 H2 H3]. unfold guid_of. rewrite (js_bind_Ret _ _ _ _ _ (get_fun_run w fn f d u Hf)).
  destruct (jf_guid f) as [g|] eqn:Hg.
  - exists g, w. destruct (H1 fn g) as (n & -> & _); [by rewrite Hf; cbn; rewrite Hg|]. split_and!; [done| |done|done|done].
    exists f. split_and!; [done|done|apply num_str_nonempty].
  - set (g := num_str (Z.of_nat (w_guid w))). set (w1 := with_funs (<[fn := JFun (jf_code f) (Some g) (jf_type f) (jf_data f)]>) (with_guid (S (w_guid w)) w)).
    exists g, w1. split; [done|]. split; [eexists; split; [apply lookup_insert_eq|split; [done|apply num_str_nonempty]]|].
    split; [by apply (reg_other d m w C)|].
    assert (∀ fn', jf_guid <$> w_funs w1 !! fn' = if decide (fn = fn') then Some (Some g) else jf_guid <$> w_funs w !! fn') as Hnum.
    { intros fn'. cbn. rewrite lookup_insert. by case_decide. }
    assert (∀ fn', jf_guid <$> w_funs w !! fn' ≠ Some (Some g)) as Hfresh.
    { intros fn' (n & Hn & Hlt)%H1. apply num_str_inj in Hn. lia. }
    split; [split|].
    + intros fn' g'. rewrite Hnum. case_decide; [intros [= <-]; exists (w_guid w); cbn; split; [done|lia]|].
      intros (n & -> & Hlt)%H1. exists n. cbn. split; [done|lia].
    + intros fn1 fn2 g'. rewrite !Hnum. repeat case_decide; [congruence| | |apply H2].
      * intros [= <-] Hx. by apply Hfresh in Hx.
      * intros Hx [= <-]. by apply Hfresh in Hx.
    + intros e ty l k fn' Hl Hk. rewrite Hnum. case_decide as Hfn; [|by eapply H3]. subst fn'. specialize (H3 e ty l k fn Hl Hk). rewrite Hf in H3. cbn in H3. congruence.
    + intros fn' Hs. cbn. apply lookup_insert_is_Some. destruct (decide (fn = fn')); auto.
Qed.

(** The table of the functions bound, in the order they were. *)
Abbreviation ftable := (gmap (nat * jsstr) (list nat)).
Definition t_bind (fn e : nat) (T : ftable) (text : jsstr) : ftable :=
  let at_type := (e, (split_type text).1) in
  let l := default [] (T !! at_type) in <[at_type := if decide (fn ∈ l) then l else l ++ [fn]]> T.
Definition t_unbind (fn e : nat) (T : ftable) (text : jsstr) : ftable :=
  let at_type := (e, (split_type text).1) in
  match T !! at_type with
  | Some l => match filter (λ fn', fn' ≠ fn) l with [] => delete at_type T | l' => <[at_type := l']> T end
  | None => T
  end.
Definition shows (C : ctable) (T : ftable) : Prop := ∀ e ty, T !! (e, ty) = (λ l, l.*2) <$> C !! (e, ty).
Lemma absent_kept (x : nat) (l : list nat) : x ∉ l → filter (λ y, y ≠ x) l = l.
Proof.
  induction l as [|y l IH]; [done|]. intros [Hy Hl]%not_elem_of_cons. rewrite filter_cons, decide_True by done. by rewrite IH.
Qed.
Lemma set_shows g fn (l : list (jsstr * nat)) : (∀ k fn', (k, fn') ∈ l → k = g ↔ fn' = fn) →
  (assoc_set g fn l).*2 = if decide (fn ∈ l.*2) then l.*2 else l.*2 ++ [fn].
Proof.
  induction l as [|[k fn'] l IH]; intros Hl; [done|]. cbn [assoc_set fmap list_fmap fst snd]. pose proof (Hl k fn' ltac:(by left)) as Hk.
  destruct (decide (k = g)) as [->|Hne]; cbn [fmap list_fmap snd].
  { assert (fn' = fn) as -> by (by apply Hk). rewrite decide_True by (by left). done. }
  change (snd <$> l) with l.*2 in *. change (snd <$> assoc_set g fn l) with (assoc_set g fn l).*2. rewrite IH by (intros k1 f1 H1; apply Hl; by right).
  assert (fn ≠ fn') as Hf by (intros <-; by apply Hne, Hk). 
  destruct (decide (fn ∈ l.*2)) as [Hd|Hd]; [rewrite decide_True by (by right)|rewrite decide_False by (by intros [?|?]%elem_of_cons)]; done.
Qed.
Lemma del_shows g fn (l : list (jsstr * nat)) : NoDup l.*1 → (∀ k fn', (k, fn') ∈ l → k = g ↔ fn' = fn) → (assoc_del g l).*2 = filter (λ fn', fn' ≠ fn) l.*2.
Proof.
  induction l as [|[k fn'] l IH]; intros Hnd Hl; [done|]. apply NoDup_cons in Hnd as [Hk1 Hnd]. pose proof (Hl k fn' ltac:(by left)) as Hk.
  assert (∀ k1 f1, (k1, f1) ∈ l → k1 = g ↔ f1 = fn) as Hl' by (intros k1 f1 H1; apply Hl; by right). specialize (IH Hnd Hl').
  cbn [assoc_del fmap list_fmap fst snd]. rewrite filter_cons. destruct (decide (k = g)) as [->|Hne].
  - assert (fn' = fn) as -> by (by apply Hk). rewrite decide_False by auto. rewrite absent_kept; [done|].
    intros ([k1 f2] & Heq & H1)%list_elem_of_fmap. cbn in Heq. subst f2. apply Hk1. apply list_elem_of_fmap. exists (k1, fn). split; [|done].
    symmetry. by apply (Hl' k1 fn).
  - rewrite decide_True by (intros ->; by apply Hne, Hk). cbn [fmap list_fmap snd]. f_equal. exact IH.
Qed.
Section tables.
Context (w : jstore) (C : ctable) (T : ftable) (g : jsstr) (fn : nat) (Hn : guids_apart w C) (Hg : has_number w g fn) (Hs : shows C T).
Lemma has_guid : jf_guid <$> w_funs w !! fn = Some (Some g).
Proof using Hg. destruct Hg as (f & -> & Hf & _). cbn. by rewrite Hf. Qed.
Lemma key_of_fun e ty l : C !! (e, ty) = Some l → ∀ k fn', (k, fn') ∈ l → k = g ↔ fn' = fn.
Proof using Hn Hg.
  intros Hl k fn' Hk. pose proof (nb_held _ _ Hn e ty l k fn' Hl Hk) as Hk'. pose proof has_guid as Hf. split; [|congruence].
  intros ->. by apply (nb_apart _ _ Hn _ _ g).
Qed.
Lemma default_keys e ty k fn' : (k, fn') ∈ default [] (C !! (e, ty)) → k = g ↔ fn' = fn.
Proof using Hn Hg. destruct (C !! (e, ty)) as [l|] eqn:Hl; cbn; [by eapply key_of_fun|by intros ?%not_elem_of_nil]. Qed.
Lemma bind_shows e text : shows (c_bind g C e (split_type text).1 fn) (t_bind fn e T text).
Proof using Hn Hg Hs.
  intros e' ty. unfold c_bind, t_bind. rewrite !lookup_insert. case_decide; [|apply Hs]. cbn. f_equal.
  rewrite set_shows by (intros k fn'; apply default_keys). rewrite Hs. by destruct (C !! _).
Qed.
Lemma bind_numbered e ty : guids_apart w (c_bind g C e ty fn).
Proof using Hn Hg.
  split; [apply Hn|apply Hn|]. intros e' ty' l k fn'. unfold c_bind. rewrite lookup_insert. case_decide; [|apply (nb_held _ _ Hn)].
  intros [= <-] Hk. assert ((k, fn') = (g, fn) ∨ (k, fn') ∈ default [] (C !! (e, ty))) as [[= -> ->]|Hin].
  { revert Hk. generalize (default [] (C !! (e, ty))). intros l. induction l as [|[k1 f1] l IH]; cbn; [intros ?%list_elem_of_singleton; by left|].
    case_decide; intros [Hx|Hx]%elem_of_cons; [left; congruence|right; by right|right; rewrite Hx; by left|].
    destruct (IH Hx); [by left|right; by right]. }
  - apply has_guid.
  - destruct (C !! (e, ty)) as [l|] eqn:Hl; [by eapply (nb_held _ _ Hn)|by apply not_elem_of_nil in Hin].
Qed.
End tables.
Lemma binds_shown w g fn e texts : has_number w g fn → ∀ C T, guids_apart w C → shows C T →
  guids_apart w (c_binds g C e texts fn) ∧ shows (c_binds g C e texts fn) (fold_left (t_bind fn e) texts T).
Proof.
  intros Hg. induction texts as [|text texts IH]; intros C T Hn Hs; [done|]. apply IH; [by apply bind_numbered|by eapply bind_shows].
Qed.
(** A function without a number is bound nowhere. *)
Lemma unbind_shown w C T fn f e text : guids_apart w C → (∀ e ty l, C !! (e, ty) = Some l → NoDup l.*1) → w_funs w !! fn = Some f → shows C T →
  (∀ e ty l, C !! (e, ty) = Some l → l ≠ []) →
  guids_apart w (c_unbind (jf_guid f) C e (split_type text).1) ∧ shows (c_unbind (jf_guid f) C e (split_type text).1) (t_unbind fn e T text).
Proof.
  intros Hn Hnd Hf Hs Hne. set (ty := (split_type text).1).
  assert (∀ l, C !! (e, ty) = Some l → (drop_number (jf_guid f) l).*2 = filter (λ fn', fn' ≠ fn) l.*2 ∧ ∀ x, x ∈ drop_number (jf_guid f) l → x ∈ l) as Hdrop.
  { intros l Hl. destruct (jf_guid f) as [g|] eqn:Hg; cbn [drop_number].
    - split; [apply del_shows; [by eapply Hnd|]|].
      + intros k fn' Hk. pose proof (nb_held _ _ Hn e ty l k fn' Hl Hk) as Hk'. split; [intros ->; apply (nb_apart _ _ Hn _ _ g); [done|rewrite Hf; cbn; by rewrite Hg]|].
        intros ->. rewrite Hf in Hk'. cbn in Hk'. congruence.
      + clear. induction l as [|[k1 f1] l IH]; cbn; [done|]. intros x. case_decide; [by right|]. intros [->|Hx]%elem_of_cons; [by left|right; by apply IH].
    - split; [|done]. symmetry. apply absent_kept. intros ([k f1] & Heq & Hk)%list_elem_of_fmap. cbn in Heq. subst f1.
      pose proof (nb_held _ _ Hn e ty l k fn Hl Hk) as Hk'. rewrite Hf in Hk'. cbn in Hk'. congruence. }
  unfold c_unbind, t_unbind. fold ty. rewrite Hs. destruct (C !! (e, ty)) as [l|] eqn:Hl; [|done]. cbn [fmap option_fmap option_map].
  destruct (Hdrop l eq_refl) as [<- Hin]. split.
  - split; [apply Hn|apply Hn|]. intros e' ty' l' k fn' Hl' Hk. destruct (drop_number (jf_guid f) l) as [|x l1].
    + apply lookup_delete_Some in Hl' as [_ Hl']. by apply (nb_held _ _ Hn e' ty' l').
    + apply lookup_insert_Some in Hl' as [[[= <- <-] <-]|[_ Hl']]; [by apply (nb_held _ _ Hn e ty l), Hin|by apply (nb_held _ _ Hn e' ty' l')].
  - intros e' ty'. destruct (drop_number (jf_guid f) l) as [|x l1]; cbn [fmap list_fmap].
    + rewrite !lookup_delete. case_decide; [done|apply Hs].
    + rewrite !lookup_insert. case_decide; [done|apply Hs].
Qed.

(** Binding a function for types separated by spaces, and unbinding one for a
    type. *)
Inductive reg_call := BindCall (e : nat) (text : jsstr) (fn : nat) | UnbindCall (e : nat) (text : jsstr) (fn : nat).
Definition call_reg (c : reg_call) : JS W () :=
  match c with
  | BindCall e text fn => event_add e text fn None
  | UnbindCall e text fn => event_remove e (Some text) (Some fn)
  end.
Definition t_reg (T : ftable) (c : reg_call) : ftable :=
  match c with
  | BindCall e text fn => fold_left (t_bind fn e) (split_spaces text) T
  | UnbindCall e text fn => t_unbind fn e T text
  end.
Definition reg_call_ok (w : jstore) (c : reg_call) : Prop :=
  match c with
  | BindCall _ text fn => is_Some (w_funs w !! fn) ∧ Forall ordinary (split_spaces text)
  | UnbindCall _ text fn => is_Some (w_funs w !! fn) ∧ one_type text
  end.
(** A page where nothing is bound: functions may have numbers, but of their
    own. *)
Definition unbound (w : jstore) : Prop := w_listeners w = [] ∧ guids_apart w ∅.
Lemma call_reg_run c d m w u C T : no_names → elements_only → reg d m w C → tidy m C → guids_apart w C → shows C T → reg_call_ok w c →
  ∃ d' m' w' C', call_reg c (d, (w, u)) = (Ret (), (d', (w', u))) ∧ reg d' m' w' C' ∧ tidy m' C' ∧ guids_apart w' C' ∧ shows C' (t_reg T c) ∧
    ∀ fn, is_Some (w_funs w !! fn) → is_Some (w_funs w' !! fn).
Proof using key_perm.
  intros Hn Hel Hr Htd Hnb Hs Hc. destruct c as [e text fn|e text fn]; cbn [call_reg t_reg reg_call_ok] in *; destruct Hc as [Hfn Hord].
  - destruct (guid_step d m w C u fn Hr Hnb Hfn) as (g & w1 & Hrun & Hg & Hr1 & Hnb1 & Hfuns).
    destruct (bind_run d m w1 C u g e text fn Hn Hel Hr1 Htd Hg Hord) as (d2 & m2 & w2 & Hrun2 & Hr2 & Htd2 & Hk).
    destruct (binds_shown w1 g fn e (split_spaces text) Hg C T Hnb1 Hs) as [Hnb2 Hs2]. eexists d2, m2, w2, _. split_and!; [|exact Hr2|exact Htd2|by eapply numbered_kept|exact Hs2|].
    + rewrite <- Hrun2. unfold event_add, add_with, user. rewrite !js_bind_gets. cbn [snd]. rewrite Hel.
      by rewrite (js_bind_Ret _ _ _ _ _ Hrun), (js_bind_Ret _ _ _ _ _ (guid_run w1 g fn d u Hg)).
    + intros fn' Hs'. apply Hfuns in Hs' as [f' Hf']. destruct Hk as [Hk _]. specialize (Hk fn'). rewrite Hf' in Hk. by destruct (w_funs w2 !! fn').
  - destruct Hfn as [f Hf]. destruct (unbind_run d m w C u e text fn f Hn Hel Hr Htd Hf Hord) as (d1 & m1 & w1 & Hrun & Hr1 & Htd1 & Hsame).
    destruct (unbind_shown w C T fn f e text Hnb (λ e ty l Hl, proj1 (rg_keys _ _ _ _ Hr e ty l Hl)) Hf Hs (td_types _ _ Htd)) as [Hnb1 Hs1].
    eexists d1, m1, w1, _. split_and!; [exact Hrun|exact Hr1|exact Htd1|by eapply numbered_kept; [apply same_numbers|]|exact Hs1|]. intros fn'. by destruct Hsame as [-> _].
Qed.
Lemma calls_reg_run u : no_names → elements_only → ∀ cs d m w C T, reg d m w C → tidy m C → guids_apart w C → shows C T → Forall (reg_call_ok w) cs →
  ∃ d' m' w' C', js_each cs call_reg (d, (w, u)) = (Ret (), (d', (w', u))) ∧ reg d' m' w' C' ∧ tidy m' C' ∧ guids_apart w' C' ∧ shows C' (fold_left t_reg cs T).
Proof using key_perm.
  intros Hn Hel. induction cs as [|c cs IH]; intros d m w C T Hr Htd Hnb Hs Hok; [by exists d, m, w, C|]. apply Forall_cons in Hok as [Hc Hok].
  destruct (call_reg_run c d m w u C T Hn Hel Hr Htd Hnb Hs Hc) as (d1 & m1 & w1 & C1 & Hrun & Hr1 & Htd1 & Hnb1 & Hs1 & Hfuns).
  destruct (IH d1 m1 w1 C1 _ Hr1 Htd1 Hnb1 Hs1) as (d2 & m2 & w2 & C2 & Hrun2 & H2).
  { eapply Forall_impl; [exact Hok|]. intros [e text fn|e text fn] [? ?]; split; auto. }
  exists d2, m2, w2, C2. split; [|exact H2]. cbn [js_each]. by rewrite (js_bind_Ret _ _ _ _ _ Hrun).
Qed.
Lemma nothing_bound w : unbound w → reg (JData ∅ 0 ∅) ∅ w ∅ ∧ tidy ∅ ∅.
Proof.
  intros [Hw _]. split; split; try (intros *; unfold bound_to; rewrite ?lookup_empty; done); [| |].
  - intros e ty a. rewrite Hw, !lookup_empty. split; [by intros ?%not_elem_of_nil|by intros [? _]].
  - rewrite Hw. constructor.
  - intros e. rewrite !lookup_empty. intros [[]|[]]; done.
Qed.

End events.

(** ** Namespaces *)

Definition between_dots (n s : jsstr) : Prop := ∃ pre post, s = pre ++ n ++ post ∧
  (pre = [] ∨ ∃ p, pre = p ++ [46%N]) ∧ (post = [] ∨ ∃ q, post = 46%N :: q).
Lemma matches_lit_iff c x y : matches (RLit c) x y ↔ ∃ s, after x = c :: s ∧ y = Pos (c :: before x) s.
Proof.
  unfold RLit. rewrite matches_char_iff. split.
  - intros (d & s & Hx & Hd & ->). apply N.eqb_eq in Hd as ->. by exists s.
  - intros (s & Hx & ->). exists c, s. by rewrite N.eqb_refl.
Qed.
Lemma text_no_back t : no_back (RStr t) = true.
Proof. induction t as [|c t IH]; [done|]. exact IH. Qed.
Lemma ends_name b post : post = [] ∨ (∃ q, post = 46%N :: q) → ∃ y, matches (RGroup 2 (RLit 46 <|> REol)) (Pos b post) y.
Proof.
  intros [->|[q ->]]; eexists; apply matches_group_iff, matches_alt_iff; [right; by apply matches_eol_iff|left].
  apply matches_lit_iff. by exists q.
Qed.
Lemma namespace_between n s : namespace_test [n] s = true ↔ between_dots n s.
Proof.
  unfold namespace_test, namespace_rx. cbn [sort_names foldr insert_name names_rx].
  rewrite rx_test_spec by (cbn; by rewrite text_no_back). split.
  - intros (u & v & y & -> & (x1 & Hg & (x2 & Hn & He)%matches_seq_iff)%matches_seq_iff).
    apply matches_text in Hn as [Ha Hb]. apply matches_group_iff, matches_alt_iff in He.
    assert (after x2 = [] ∨ ∃ q, after x2 = 46%N :: q) as Hpost.
    { destruct He as [(q & Hq & _)%matches_lit_iff|[Hq _]%matches_eol_iff]; [right; by exists q|by left]. }
    apply matches_group_iff, matches_alt_iff in Hg as [[Hu ->]%matches_bol_iff|(w & Hv & ->)%matches_lit_iff]; cbn in *.
    + exists [], (after x2). assert (u = []) as -> by (destruct u; [done|]; by rewrite reverse_cons in Hu; destruct (reverse u)).
      cbn. split; [done|]. split; [by left|done].
    + exists (u ++ [46%N]), (after x2). rewrite Hv, Ha, <- app_assoc. split; [done|]. split; [right; by exists u|done].
  - intros (pre & post & -> & Hpre & Hpost). destruct Hpre as [->|[p ->]].
    + destruct (ends_name (reverse n) post Hpost) as [y Hy]. exists [], (n ++ post), y. split; [done|].
      apply matches_seq_iff. exists (Pos [] (n ++ post)). split.
      { apply matches_group_iff, matches_alt_iff. left. by apply matches_bol_iff. }
      apply matches_seq_iff. exists (Pos (reverse n) post). split; [apply matches_text; cbn; by rewrite app_nil_r|done].
    + destruct (ends_name (reverse n ++ 46%N :: reverse p) post Hpost) as [y Hy].
      exists p, (46%N :: n ++ post), y. split; [by rewrite <- app_assoc|]. apply matches_seq_iff.
      exists (Pos (46%N :: reverse p) (n ++ post)). split.
      { apply matches_group_iff, matches_alt_iff. right. apply matches_lit_iff. by exists (n ++ post). }
      apply matches_seq_iff. exists (Pos (reverse n ++ 46%N :: reverse p) post). split; [by apply matches_text|done].
Qed.
Lemma first_dot (s : jsstr) : (46%N ∉ s) ∨ ∃ p q, (46%N ∉ p) ∧ s = p ++ 46%N :: q.
Proof.
  induction s as [|c s IH]; [left; apply not_elem_of_nil|]. destruct (decide (c = 46%N)) as [->|Hc].
  { right. exists [], s. split; [apply not_elem_of_nil|done]. }
  destruct IH as [Hs|(p & q & Hp & ->)]; [left; set_solver|right]. exists (c :: p), q. split; [set_solver|done].
Qed.
Lemma split_later n p q : n ∈ split q [46%N] → n ∈ split (p ++ 46%N :: q) [46%N].
Proof.
  intros Hn. remember (length p) as k eqn:Hk. revert p Hk. induction (lt_wf k) as [k _ IH]. intros p ->.
  destruct (first_dot p) as [Hp|(a & b & Ha & ->)]; [rewrite split_app by done; by right|].
  rewrite <- app_assoc. cbn [app]. rewrite split_app by done. right. apply (IH (length b)); [|done]. rewrite length_app. cbn. lia.
Qed.
(** A single namespace is among those the handler is bound with; with none
    asked for the handler has none. *)
Lemma namespace_one n s : 46%N ∉ n → namespace_test [n] s = true ↔ n ∈ split s [46%N].
Proof.
  intros Hn. rewrite namespace_between. split.
  - intros (pre & post & -> & [->|[p ->]] & Hpost).
    + cbn [app]. destruct Hpost as [->|[q ->]]; [rewrite app_nil_r, split_none by done|rewrite split_app by done]; by left.
    + rewrite <- app_assoc. apply split_later. destruct Hpost as [->|[q ->]]; [rewrite app_nil_r, split_none by done|rewrite split_app by done]; by left.
  - remember (length s) as k eqn:Hk. revert s Hk. induction (lt_wf k) as [k _ IH]. intros s ->.
    destruct (first_dot s) as [Hs|(a & b & Ha & ->)].
    + rewrite split_none by done. intros ->%list_elem_of_singleton. exists [], []. rewrite app_nil_r. split_and!; [done|by left|by left].
    + rewrite split_app by done. intros [->|Hb]%elem_of_cons.
      * exists [], (46%N :: b). split_and!; [done|by left|right; by exists b].
      * destruct (IH (length b) ltac:(rewrite length_app; cbn; lia) b eq_refl Hb) as (pre & post & -> & Hpre & Hpost).
        exists (a ++ 46%N :: pre), post. rewrite <- app_assoc. split_and!; [done| |done]. right.
        destruct Hpre as [->|[p ->]]; [by exists a|]. exists (a ++ 46%N :: p). by rewrite <- app_assoc.
Qed.
Lemma namespace_none s : namespace_test [] s = namespace_test [[]] s.
Proof. done. Qed.

(** ** Concrete runs *)

(** A page of nested elements, 1 around 2 around 3 and so on, whose functions
    note_call when they are called. *)
Section page.
Abbreviation P := (list (nat * nat)).
Definition note_call (fn this ev : nat) (args : list jsv) : JS (jdata jval * (jstore * P)) (option jsv) :=
  js_modify (λ s, (s.1, (s.2.1, s.2.2 ++ [(fn, this)]))) ;; mret None.
Definition chain_up (_ : P) (e : nat) : option nat := match e with 0 | 1 => None | S e => Some e end%nat.
Definition never {A B} (_ : P) (_ : A) (_ : B) : bool := false.
Definition page_add := event_add (U := P) (λ _, None) (λ _ _, false) (mret ()).
Definition page_remove := event_remove (U := P) (λ _, None) (λ l, l) (λ _ _, false).
Definition page_fire := browser_event (U := P) (λ _, None) (λ l, l) note_call (λ _ _, false) chain_up (λ _, 9%nat) (λ _ _, None) 99.
Definition page_trigger type elem := event_trigger (U := P) (λ _, None) (λ l, l) note_call (λ _ _, false) (λ _ _, false) chain_up (λ _ _, None) (λ _, 9%nat)
  never never (λ _ _, mret ()) (λ _ _ _ _, mret None) (λ _ _, None) 99 (TypeName type) [] (Some elem).
Definition page_start : jdata jval * (jstore * P) :=
  (JData ∅ 0 ∅, (JStore (list_to_map ((λ n, (n, JFun (if decide (n = 0) then WithinCode else UserCode n) None [] None)) <$> [0; 10; 11])) ∅ ∅ ∅ ∅ [] 1 [] false 20, []))%nat.
Definition called (m : JS (jdata jval * (jstore * P)) ()) : P := (m page_start).2.2.2.

(** A type with a namespace, triggered, loses it on the way up: all handlers
    of the parents for the type are called. *)
Example namespace_lost : called (
  page_add 4 (js "click.a") 10 None ;; page_add 3 (js "click.b") 11 None ;; page_trigger (js "click.a") 4 ;; mret ()) = [(10, 4); (11, 3)]%nat.
Proof. vm_compute. reflexivity. Qed.
(** Handlers with a namespace stay when all handlers are unbound. *)
Example namespaced_stay : called (page_add 4 (js "click.a") 10 None ;; page_remove 4 None None ;; page_fire 4 (js "click")) = [(10, 4)]%nat.
Proof. vm_compute. reflexivity. Qed.
Example namespaced_stay_type : called (page_add 4 (js "click.a") 10 None ;; page_remove 4 (Some (js "click")) None ;; page_fire 4 (js "click")) = [(10, 4)]%nat.
Proof. vm_compute. reflexivity. Qed.
(** The namespaces are written to the function: those it is bound with last
    count for all its types. *)
Example namespaces_rewritten : called (page_add 4 (js "click.a") 10 None ;; page_add 4 (js "keyup.b") 10 None ;;
  page_remove 4 (Some (js ".a")) None ;; page_fire 4 (js "click")) = [(10, 4)]%nat.
Proof. vm_compute. reflexivity. Qed.
(** Unbinding two types at once leaves the listener of the second when the
    first still has handlers. *)
Example listener_left :
  let s := ((page_add 4 (js "click keyup") 10 None ;; page_add 4 (js "click") 11 None ;; page_remove 4 (Some (js "click keyup")) (Some 10%nat)) page_start).2 in
  (w_listeners s.2.1).*1 = [(4%nat, js "click"); (4%nat, js "keyup")] ∧ (λ o : list (jsstr * nat), o.*2) <$> (map_to_list (w_handlers s.2.1)).*2 = [[11%nat]; []].
Proof. split; vm_compute; reflexivity. Qed.
(** A namespace that only begins with the one asked for. *)
Example namespace_begins : namespace_test [js "a"; js "b"] (js "ab.b") = true ∧ namespace_test [js "a"] (js "ab.b") = false.
Proof. split; vm_compute; reflexivity. Qed.
(** A handler bound to a namespace alone cannot be unbound by it. *)
Example no_type : (page_add 4 (js ".a") 10 None ;; page_remove 4 (Some (js ".a")) None) page_start =
  (Throw (EUser 3), (page_add 4 (js ".a") 10 None page_start).2).
Proof. vm_compute. reflexivity. Qed.

(** A click of namespace a on element 5 reaches the functions of that namespace
    bound on element 4, of which the second stops the event at once: neither
    the third nor the function of element 3 is called. *)
Definition stop_call (fn this ev : nat) (args : list jsv) : JS (jdata jval * (jstore * P)) (option jsv) :=
  note_call fn this ev args ;; js_when (bool_decide (fn = 11%nat)) (change_jevent ev ev_immediate) ;; mret (Some (VNum 7)).
Definition stop_code (fn this : nat) (args : list jsv) : JS (jevent * P) (option jsv) :=
  js_modify (λ s, (s.1, s.2 ++ [(fn, this)])) ;; js_when (bool_decide (fn = 11%nat)) (on_event ev_immediate) ;; mret (Some (VNum 7)).
Definition click_fun (n : nat) (namespace : jsstr) : jfun := JFun (UserCode n) (Some (num_str (Z.of_nat n))) namespace None.
Definition click_store : jstore :=
  JStore (list_to_map [(9, click_fun 9 (js "b")); (10, click_fun 10 (js "a")); (11, click_fun 11 (js "a")); (12, click_fun 12 (js "a"))]%nat)
    (<[21%nat := [(js "click", 23%nat)]]> (<[25%nat := [(js "click", 27%nat)]]> ∅))
    (<[23%nat := [(js "9", 9); (js "10", 10); (js "11", 11); (js "12", 12)]%nat]> (<[27%nat := [(js "10", 10%nat)]]> ∅))
    (<[22%nat := Some 4%nat]> (<[26%nat := Some 3%nat]> ∅)) ∅ [] 13 [] false 30.
Definition click_data : gmap (nat * jsstr) jval :=
  <[(4%nat, js "handle") := JHandle 22]> (<[(4%nat, js "events") := JEvents 21]> (<[(3%nat, js "handle") := JHandle 26]> (<[(3%nat, js "events") := JEvents 25]> ∅))).
Definition plain_wayb (m : gmap (nat * jsstr) jval) (w : jstore) (path : list nat) : bool :=
  negb (w_triggered w) && forallb (λ x,
    match m !! (x, js "events") with
    | Some (JEvents t) => forallb (λ p, forallb (λ q, match w_funs w !! q.2 with Some f => bool_decide (is_Some (plain_code (jf_code f))) | None => false end)
        (handlers_at w p.2)) (table_at w t)
    | _ => true
    end &&
    match m !! (x, js "handle") with Some (JHandle a) => bool_decide (w_handles w !! a = Some (Some x)) | Some _ => false | None => true end) path.
Lemma assoc_in {B} k (v : B) o : assoc_get k o = Some v → (k, v) ∈ o.
Proof.
  induction o as [|[k1 v1] o IH]; [done|]. rewrite assoc_get_cons. case_decide as Hk; [intros [= ->]; rewrite Hk; by left|]. intros H. right. by apply IH.
Qed.
Lemma plain_way_test m w path : plain_wayb m w path = true → plain_way m w path.
Proof.
  unfold plain_wayb. intros [Hq%negb_true_iff Hall]%andb_true_iff. rewrite forallb_forall in Hall. split; [| |done].
  - intros x type h Hx Hb k fn Hk. apply list_elem_of_In, Hall, andb_true_iff in Hx as [Hx _]. unfold bound_to in Hb.
    destruct (m !! (x, js "events")) as [[| | |]|]; try done. rewrite forallb_forall in Hx. specialize (Hx (type, h)).
    rewrite forallb_forall in Hx. specialize (Hx ltac:(by apply list_elem_of_In, assoc_in) (k, fn) ltac:(by apply list_elem_of_In, assoc_in)). cbn [snd] in Hx.
    destruct (w_funs w !! fn) as [f|]; [|done]. exists f. split; [done|]. by apply bool_decide_eq_true in Hx.
  - intros x v Hx Hm. apply list_elem_of_In, Hall, andb_true_iff in Hx as [_ Hx]. rewrite Hm in Hx. destruct v as [| |a|]; try done.
    exists a. by apply bool_decide_eq_true in Hx.
Qed.

(** Two functions without numbers bound and one of them unbound: the other
    keeps its place, and the second element's listener goes. *)
Definition two_funs : jstore :=
  JStore (<[10%nat := JFun (UserCode 10) None [] None]> (<[11%nat := JFun (UserCode 11) None [] None]> ∅)) ∅ ∅ ∅ ∅ [] 1 [] false 30.
Definition some_binds : list reg_call :=
  [BindCall 4 (js "click.a keyup") 10; BindCall 4 (js "click") 11; BindCall 5 (js "keyup") 10; UnbindCall 4 (js "click") 10; UnbindCall 5 (js "keyup") 10].
Lemma two_funs_unbound : unbound two_funs.
Proof.
  split; [done|]. assert (∀ fn g, jf_guid <$> w_funs two_funs !! fn ≠ Some (Some g)) as Hno.
  { intros fn g. unfold two_funs. cbn [w_funs]. rewrite !lookup_insert, lookup_empty. by repeat case_decide. }
  split; [intros fn g Hg|intros fn fn' g Hg|intros e ty l k fn Hl]; [by apply Hno in Hg|by apply Hno in Hg|by rewrite lookup_empty in Hl].
Qed.
End page.
